(* ===== verification/_CoqProject ===== *)
-Q . S2P
Prelude.v
Std.v
Voting.v
MsgId.v
RouterApi.v
Multisig.v
VotingVerifier.v
EventVerifier.v
Router.v
Rewards.v
ServiceRegistry.v
Gateway.v
AxelarnetGateway.v
Its.v
ItsAbi.v
MultisigProver.v
Encoding.v
Coordinator.v
XrplTypes.v
AmpdStream.v
AmpdBroadcast.v
AmpdEvm.v
AmpdChains.v
AmpdMvxStacks.v
AmpdSolana.v
AmpdStarknet.v
AmpdXrpl.v
AmpdHandlers.v
Composition.v
AmpdSystem.v
