(* ===== verification/Prelude.v ===== *)
(** * Axelar Amplifier: a verification development (root file)

    Amplifier is a set of CosmWasm contracts that carry messages between chains. On every
    external chain there is a gateway; its messages are described to the amplifier's [gateway]
    contract of that chain, confirmed by the votes of verifiers in a [voting-verifier], checked
    and passed on by the [router] to the gateway of the destination, and there turned by a
    [multisig-prover] into a proof that the verifiers sign in the [multisig] contract. The
    [service-registry] holds the verifiers' stakes, [rewards] pays them, the [coordinator] knows
    which contracts serve a chain and which verifiers are still needed, the [axelarnet-gateway]
    connects Axelar itself, and the [interchain-token-service] hub moves tokens on top of all
    this. A verifier runs the daemon [ampd]: it follows the events of the Axelar chain, asks nodes of
    the external chains what happened there, and broadcasts its votes and signatures. Its handlers
    are part of the daemon, or processes of their own ([ampd-handlers]) that use [ampd-sdk].

    ** How the code is modelled

    Every contract is one [Module] in one file: a [Record State] with a field per storage item
    ([cw_storage_plus] maps are [gmap]s, iterated in key order through [entries]), an [Inductive
    ExecuteMsg] with the source's variants, and one definition per function of the source under
    the source's name (a name used twice in a crate gets the prefix [state_] or [query_]). A
    handler takes the state and what the call is told about the rest of the world (an [Env]: the
    block, the answers of contracts it queries) and returns a [result]: [Ok] with the new state
    and the response, [Err] with the source's error, or [Panic] for [unwrap], [expect] and
    assertions. [execute] starts with the permission check that [ensure_permissions] generates.
    Integers are [Z] with the bounds of their Rust type written out: [checked_add],
    [saturating_sub] and so on below. A transaction that fails leaves the storage as it was.

    Code outside the repository is never invented: hash functions, signature schemes, text and
    ABI codecs, [select_nth_unstable_by], address validation and instantiate2 are operations of
    type classes, the properties that need something of them name it as a law of the class, and
    each class has an executable instance, so that the witnesses of the theorems compute.

    The daemon is modelled as functions of what it is told: a stream is the list of what its source
    answers when it is polled, an external chain is what a node answers, a signer or a
    deserializer is an argument, and a call that can be tried again depends on the number of the
    attempt. Time does not appear. A handler returns the messages that it broadcasts, and the
    theorems say what these messages mean: what happened on the external chain when the vote says
    so, as a proposition about the node's answers.

    For a contract, [reachable] or [run] is the closure of [instantiate] under accepted calls of
    any sender; the invariants are proved by induction over it, and theorems speak about every
    reachable state. A module [.._run] at the end of a file holds concrete runs that show that
    the hypotheses of its theorems can hold.

    ** The files

    - [Prelude]: results and their monad, machine integers, ordered maps, tactics and hints.
    - [Std]: [packages/axelar-wasm-std] (thresholds, counters, kill switch, permissions) and the
      check generated by [packages/msgs-derive]: who may execute what.
    - [Voting]: [snapshot.rs] and [voting.rs]: a poll's result is what the votes say, is never
      revised, and cannot be two things at once.
    - [MsgId]: message identifiers of every format and [starknet-checked-felt]: each parser
      inverts its printer and accepts nothing else.
    - [RouterApi]: [packages/router-api], chain names and addresses: the hash of a message binds
      all of it.
    - [Multisig]: [contracts/multisig]: sessions, signatures, keys, provers.
    - [VotingVerifier]: [contracts/voting-verifier]: the status of a message is exactly what its
      poll says, a confirmed message stays confirmed, polls end once.
    - [EventVerifier]: [contracts/event-verifier]: the same for events of external chains, what
      a vote changes and announces.
    - [Router]: [contracts/router]: which messages pass and where they go, freezing, the registry.
    - [Rewards]: [contracts/rewards]: pools are backed by the balance, every epoch is paid at
      most once and exactly, a funded pool can always be paid out.
    - [ServiceRegistry]: [contracts/service-registry]: stakes are backed and leave only by a
      claim, counts are exact, the active verifiers are determined.
    - [Gateway], [AxelarnetGateway]: [contracts/gateway], [contracts/axelarnet-gateway] and the
      conversion to nexus messages: routed exactly when verified, delivered at most once.
    - [Its], [ItsAbi]: [contracts/interchain-token-service] and [contracts/its-abi-translator]: no
      token value is created, amounts are scaled exactly, payloads decode to what they encode.
    - [MultisigProver], [Coordinator]: [contracts/multisig-prover], [contracts/coordinator]: how
      verifier sets rotate, what a proof request signs, the records of active verifiers as a
      refinement of one set per prover, and deployments.
    - [Encoding]: the prover's encoders with [packages/evm-gateway], [packages/sui-gateway] and
      [external-gateways/stellar]: a digest binds what the chain acts on, proofs list the
      signatures in the order of the signers.
    - [XrplTypes]: [packages/xrpl-types]: arithmetic on token amounts is exact up to their 16
      leading digits, its loops end, texts and bytes read back, and the hash of a message determines
      it up to what it leaves out and to addresses that read like the end of another message.
    - [AmpdStream]: [packages/events], [ampd/src/event_sub], [ampd/src/event_processor.rs] and
      retries: a handler skips no event in silence, sees every event of every block, in order and
      once, unless its subscription lags behind the publisher, and calls with retries return.
    - [AmpdBroadcast]: [ampd/src/broadcast]: everybody who queues a message gets one answer, and the
      account sequence recovers from failures.
    - [AmpdEvm]: the handlers for EVM chains and for signing, and the client of the signer
      ([ampd/src/tofnd/grpc.rs]): a vote says exactly what the node shows, and the multisig contract
      accepts the signature.
    - [AmpdChains]: the shape of the handlers ([voting_handler]), Sui and Stellar;
      [AmpdMvxStacks]: MultiversX and Stacks; [AmpdSolana]; [AmpdStarknet]; [AmpdXrpl]: the same for
      their chains, with the node's answers that stop a handler.
    - [AmpdHandlers]: [packages/ampd-sdk] and [ampd-handlers]: the connection to the daemon, its
      services, the task of a handler, and the voting handler with its implementations
      ([VotingHandler]) for EVM chains, Sui and Stellar: their votes say what happened, and they do
      what the handlers of the daemon do.
    - [Composition]: the contracts answering each other's queries and receiving each other's
      messages, while anybody calls them: a delivered message was voted for in the verifier of its
      source chain, or came from a contract that governance registered for that chain; an active
      signer stays bonded.
    - [AmpdSystem]: the contracts with the verifiers that vote in them: a message that is delivered
      from a chain with such a gateway happened there, as the node of an honest verifier shows, as
      long as the verifiers that are not honest hold less than a quorum.

    ** Bounds and fuel

    The loops of the contracts run over a list, a map or a range of numbers that is known when
    they start, and their models are recursions on it. Other loops have fuel, and a lemma that it is
    enough: [retry_loop] as many calls as the policy allows, and at least one ([retry_loop_spec],
    [with_retry_first]); [fill_gaps_loop] the length of the script of the inner stream, every
    iteration consumes an answer ([blocks_poll_inv]); [scale_up] the distance of the exponent to its
    minimum and [scale_down] the 78 digits of a [Uint256] ([scale_up_done], [scale_down_done]);
    [signers_loop] the length of the data, which the code indexes in every iteration;
    [to_digits] the number of digits, which the number's logarithm bounds. Bounds are those of the
    Rust types.

    ** Not modelled

    Serialization to JSON and protobuf, logging and metrics, gas, the procedural macros' handling of
    Rust syntax; the migrations of the contracts, which only set a version; of the daemon and the
    SDK the command line, configuration, start and shutdown, which are not decisions of the
    protocol; of the XRP Ledger's types the adapters for JSON and the DER format of signatures; the
    integration tests and tools. The channels of [tokio], the gRPC transport [tonic] and the key
    storage [tofnd] are not in the repository; they appear as what they may do ([received],
    [Transport], [signs_truly]). *)

From stdpp Require Export sorting base tactics numbers strings gmap fin_maps list.

#[global] Open Scope Z_scope.

(** ** Fallible and panicking computations

    A contract entry point returns [Ok], returns an [Err] with the error value,
    or aborts ([expect], [unwrap], [assert_eq!], [panic!] and checked arithmetic
    operators of Rust).  [Err] and [Panic] both revert the storage. *)

Inductive result (E A : Type) : Type :=
  | Ok (a : A)
  | Err (e : E)
  | Panic.
Arguments Ok {E A} a.
Arguments Err {E A} e.
Arguments Panic {E A}.

#[global] Instance result_ret E : MRet (result E) := λ A, Ok.
#[global] Instance result_bind E : MBind (result E) := λ A B f r,
  match r with Ok a => f a | Err e => Err e | Panic => Panic end.
#[global] Instance result_fmap E : FMap (result E) := λ A B f r,
  match r with Ok a => Ok (f a) | Err e => Err e | Panic => Panic end.

(** [map_err], [change_context] and the [From] conversions of [?]. *)
Definition map_err {E F A} (f : E → F) (r : result E A) : result F A :=
  match r with Ok a => Ok a | Err e => Err (f e) | Panic => Panic end.

Definition ok_or {E A} (e : E) (o : option A) : result E A :=
  match o with Some a => Ok a | None => Err e end.

(** [.expect(..)] on an [Option]. *)
Definition expect {E A} (o : option A) : result E A :=
  match o with Some a => Ok a | None => Panic end.

(** [.expect(..)] on a [Result]: an error value becomes a panic. *)
Definition expect_ok {E F A} (r : result F A) : result E A :=
  match r with Ok a => Ok a | _ => Panic end.

Definition ensure {E} (b : bool) (e : E) : result E unit :=
  if b then Ok tt else Err e.

(** [assert!(..)] *)
Definition assert_true {E} (b : bool) : result E unit :=
  if b then Ok tt else Panic.

Definition ok {E A} (r : result E A) : option A :=
  match r with Ok a => Some a | _ => None end.

Definition is_ok {E A} (r : result E A) : bool :=
  match r with Ok _ => true | _ => false end.

Fixpoint try_map {E A B} (f : A → result E B) (l : list A) : result E (list B) :=
  match l with
  | [] => Ok []
  | x :: l => y ← f x; ys ← try_map f l; Ok (y :: ys)
  end.

Fixpoint try_fold {E A B} (f : B → A → result E B) (b : B) (l : list A) : result E B :=
  match l with
  | [] => Ok b
  | x :: l => b' ← f b x; try_fold f b' l
  end.

(** ** Rust's machine integers

    A [w]-bit unsigned integer is a [Z]; the operations below are the ones the
    sources use, with [max] the largest value of the type. *)

Definition u8_max : Z := 2 ^ 8 - 1.
Definition u16_max : Z := 2 ^ 16 - 1.
Definition u32_max : Z := 2 ^ 32 - 1.
Definition u64_max : Z := 2 ^ 64 - 1.
Definition u128_max : Z := 2 ^ 128 - 1.
Definition u256_max : Z := 2 ^ 256 - 1.
Definition i16_min : Z := - 2 ^ 15.
Definition i16_max : Z := 2 ^ 15 - 1.

Definition checked_add (max a b : Z) : option Z :=
  if bool_decide (a + b ≤ max) then Some (a + b) else None.
Definition checked_sub (a b : Z) : option Z :=
  if bool_decide (b ≤ a) then Some (a - b) else None.
Definition checked_mul (max a b : Z) : option Z :=
  if bool_decide (a * b ≤ max) then Some (a * b) else None.
Definition checked_div (a b : Z) : option Z :=
  if bool_decide (b = 0) then None else Some (a / b).
Definition saturating_add (max a b : Z) : Z := Z.min (a + b) max.
Definition saturating_sub (a b : Z) : Z := Z.max (a - b) 0.
Definition saturating_mul (max a b : Z) : Z := Z.min (a * b) max.

(** [iter().sum()] of [Uint128]s: the addition panics on overflow. *)
Definition sum_u128 {E} (l : list Z) : result E Z :=
  try_fold (λ acc x, expect (checked_add u128_max acc x)) 0 l.

(** ** Sums over lists and finite maps *)

Fixpoint sum_list (l : list Z) : Z :=
  match l with [] => 0 | x :: l => x + sum_list l end.

Definition map_sum `{Countable K} {V} (f : K → V → Z) (m : gmap K V) : Z :=
  map_fold (λ k v acc, f k v + acc) 0 m.

(** ** Ordered iteration

    A [BTreeMap<String, V>] and the ascending range of a storage map iterate in
    the byte order of the keys; the finite map is a [gmap], its iteration is the
    sorted list of its entries. *)

Definition key_le {V} (p q : string * V) : Prop := String.le p.1 q.1.
#[global] Instance key_le_dec {V} : RelDecision (@key_le V).
Proof. intros p q. unfold key_le. apply _. Defined.

Definition entries {V} (m : gmap string V) : list (string * V) :=
  merge_sort key_le (map_to_list m).

(** ** Responses and addresses of the CosmWasm interface *)

Notation Addr := string (only parsing).

Record Coin := mkCoin { denom : string; amount : Z }.

(** The amount of a denomination among some coins. *)
Definition funds_in (d : string) (funds : list Coin) : Z :=
  sum_list ((λ c, if bool_decide (denom c = d) then amount c else 0) <$> funds).

(** [cosmwasm_std::Response]: the sub-messages (in order) and the events. *)
Record Response (M Ev : Type) := mkResponse { messages : list M; events : list Ev }.
Arguments mkResponse {M Ev} messages events.
Arguments messages {M Ev} _.
Arguments events {M Ev} _.

Definition Response_new {M Ev} : Response M Ev := mkResponse [] [].
Definition add_message {M Ev} (m : M) (r : Response M Ev) : Response M Ev :=
  mkResponse (messages r ++ [m]) (events r).
Definition add_messages {M Ev} (ms : list M) (r : Response M Ev) : Response M Ev :=
  mkResponse (messages r ++ ms) (events r).
Definition add_event {M Ev} (e : Ev) (r : Response M Ev) : Response M Ev :=
  mkResponse (messages r) (events r ++ [e]).
Definition add_events {M Ev} (es : list Ev) (r : Response M Ev) : Response M Ev :=
  mkResponse (messages r) (events r ++ es).

(** ** Lemmas on results and the tactics that take a successful run apart *)

Section result_lemmas.
Context {E F A B : Type}.
Implicit Types r : result E A.

Lemma bind_Ok (f : A → result E B) r b :
  r ≫= f = Ok b ↔ ∃ a, r = Ok a ∧ f a = Ok b.
Proof. destruct r; cbn; naive_solver. Qed.

Lemma fmap_Ok (f : A → B) r b : f <$> r = Ok b ↔ ∃ a, r = Ok a ∧ b = f a.
Proof. destruct r; cbn; naive_solver. Qed.

Lemma bind_Panic (f : A → result E B) r :
  r ≫= f = Panic ↔ r = Panic ∨ ∃ a, r = Ok a ∧ f a = Panic.
Proof. destruct r; cbn; naive_solver. Qed.

Lemma map_err_Ok (f : E → F) r a : map_err f r = Ok a ↔ r = Ok a.
Proof. destruct r; cbn; naive_solver. Qed.

Lemma map_err_Panic (f : E → F) r : map_err f r = Panic ↔ r = Panic.
Proof. destruct r; cbn; naive_solver. Qed.

Lemma ok_or_Ok (e : E) (o : option A) a : ok_or e o = Ok a ↔ o = Some a.
Proof. destruct o; cbn; naive_solver. Qed.

Lemma ok_Some (r : result E A) a : ok r = Some a ↔ r = Ok a.
Proof. destruct r; cbn; naive_solver. Qed.

Lemma expect_Ok (o : option A) a : @expect E A o = Ok a ↔ o = Some a.
Proof. destruct o; cbn; naive_solver. Qed.

Lemma expect_ok_Ok (r : result F A) a : @expect_ok E F A r = Ok a ↔ r = Ok a.
Proof. destruct r; cbn; naive_solver. Qed.

Lemma ensure_Ok (b : bool) (e : E) u : ensure b e = Ok u ↔ b = true.
Proof. destruct b, u; cbn; naive_solver. Qed.

Lemma assert_true_Ok (b : bool) u : @assert_true E b = Ok u ↔ b = true.
Proof. destruct b, u; cbn; naive_solver. Qed.
End result_lemmas.

Lemma is_ok_true {E A} (r : result E A) : is_ok r = true → ∃ a, r = Ok a.
Proof. destruct r; [eauto|done..]. Qed.

Lemma Ok_inj {E A} (a b : A) : @Ok E A a = Ok b → a = b.
Proof. congruence. Qed.

(** [ok_step H]: one step of the decomposition of a hypothesis [H : run = Ok v]. *)
Ltac ok_step :=
  match goal with
  | H : (_ ≫= _) = Ok _ |- _ =>
      apply bind_Ok in H; let a := fresh "v" in let Ha := fresh "Hok" in
      destruct H as (a & Ha & H); cbn beta iota in H
  | H : (_ <$> _) = Ok _ |- _ =>
      apply fmap_Ok in H; let a := fresh "v" in let Ha := fresh "Hok" in
      destruct H as (a & Ha & H); cbn beta iota in H
  | H : map_err _ _ = Ok _ |- _ => apply map_err_Ok in H
  | H : ok_or _ _ = Ok _ |- _ => apply ok_or_Ok in H
  | H : expect _ = Ok _ |- _ => apply expect_Ok in H
  | H : expect_ok _ = Ok _ |- _ => apply (proj1 (expect_ok_Ok _ _)) in H
  | H : ensure _ _ = Ok _ |- _ => apply ensure_Ok in H
  | H : assert_true _ = Ok _ |- _ => apply assert_true_Ok in H
  | H : Ok _ = Ok _ |- _ => apply Ok_inj in H; try subst
  | H : mret _ = Ok _ |- _ => apply Ok_inj in H; try subst
  | H : Err _ = Ok _ |- _ => discriminate H
  | H : Panic = Ok _ |- _ => discriminate H
  | u : unit |- _ => destruct u
  end.
Ltac ok_inv := repeat ok_step.

(** The same, also destructing the pairs that a step returns. *)
Ltac ok_pair :=
  match goal with
  | H : match ?v with (_, _) => _ end = Ok _ |- _ => is_var v; destruct v
  end.
Ltac ok_all := repeat (ok_step || ok_pair).

(** Case analysis on the scrutinee of a [match] of a hypothesis [H : .. = Ok _]. *)
Ltac ok_case :=
  match goal with
  | H : (if ?b then _ else _) = Ok _ |- _ => destruct b eqn:?; try discriminate H
  | H : match ?o with _ => _ end = Ok _ |- _ => destruct o eqn:?; try discriminate H
  end.

(** Reflection of the boolean tests that occur in handlers. *)
Ltac breflect :=
  repeat match goal with
  | H : bool_decide _ = true |- _ => apply bool_decide_eq_true in H
  | H : bool_decide _ = false |- _ => apply bool_decide_eq_false in H
  | H : (_ && _) = true |- _ => apply andb_true_iff in H; destruct H
  | H : (_ || _) = false |- _ => apply orb_false_iff in H; destruct H
  | H : negb _ = true |- _ => apply negb_true_iff in H
  | H : negb _ = false |- _ => apply negb_false_iff in H
  end.

Section try_lemmas.
Context {E A B : Type}.

Lemma try_map_Ok (f : A → result E B) l ys :
  try_map f l = Ok ys ↔ Forall2 (λ x y, f x = Ok y) l ys.
Proof.
  revert ys; induction l as [|x l IH]; intros ys; cbn.
  - split; [intros [= <-]; constructor | by inversion 1].
  - rewrite bind_Ok; setoid_rewrite bind_Ok; setoid_rewrite IH. split.
    + intros (y & ? & zs & ? & [= <-]); by constructor.
    + inversion 1; subst; eauto 10.
Qed.

Lemma try_map_pure (g : A → B) l : try_map (λ x, @Ok E B (g x)) l = Ok (g <$> l).
Proof. induction l as [|x l IH]; cbn; [done|]. by rewrite IH. Qed.

Lemma try_fold_app (f : B → A → result E B) b l k :
  try_fold f b (l ++ k) = (b' ← try_fold f b l; try_fold f b' k).
Proof. revert b; induction l as [|x l IH]; intros b; cbn; [done|].
  destruct (f b x); cbn; auto. Qed.

(** The induction principle of a fold that succeeds. *)
Lemma try_fold_Ok_ind (P : list A → B → Prop) (f : B → A → result E B) b l b' :
  try_fold f b l = Ok b' →
  P [] b →
  (∀ k x c c', P k c → x ∈ l → f c x = Ok c' → P (k ++ [x]) c') →
  P l b'.
Proof.
  revert b'; induction l as [|x l IH] using rev_ind; intros b' Hf H0 HS.
  - by cbn in Hf; simplify_eq.
  - rewrite try_fold_app in Hf; ok_inv; cbn in *; ok_inv.
    eapply HS; [|set_solver|done]. eapply IH; [done..|].
    intros; eapply HS; [done|set_solver|done].
Qed.
End try_lemmas.

(** ** Lemmas on the checked operations *)

Lemma checked_add_Some max a b c : checked_add max a b = Some c ↔ c = a + b ∧ a + b ≤ max.
Proof. unfold checked_add; case_bool_decide; naive_solver. Qed.
Lemma checked_add_None max a b : checked_add max a b = None ↔ max < a + b.
Proof. unfold checked_add; case_bool_decide; split; intros; simplify_eq; lia || done. Qed.
Lemma checked_sub_Some a b c : checked_sub a b = Some c ↔ c = a - b ∧ b ≤ a.
Proof. unfold checked_sub; case_bool_decide; naive_solver. Qed.
Lemma checked_sub_None a b : checked_sub a b = None ↔ a < b.
Proof. unfold checked_sub; case_bool_decide; split; intros; simplify_eq; lia || done. Qed.
Lemma checked_div_Some a b c : checked_div a b = Some c ↔ b ≠ 0 ∧ c = a / b.
Proof. unfold checked_div; case_bool_decide; naive_solver. Qed.

#[export] Hint Rewrite checked_add_Some checked_add_None checked_sub_Some checked_sub_None
  checked_div_Some : checked.
Ltac checked := autorewrite with checked in *.

(** ** Lemmas on sums *)

Lemma sum_list_app l k : sum_list (l ++ k) = sum_list l + sum_list k.
Proof. induction l as [|x l IH]; cbn; [done|]. rewrite IH. lia. Qed.

Lemma sum_list_nonneg l : Forall (λ x, 0 ≤ x) l → 0 ≤ sum_list l.
Proof. induction 1; cbn; lia. Qed.

#[global] Instance sum_list_proper : Proper ((≡ₚ) ==> (=)) sum_list.
Proof. induction 1; cbn; lia. Qed.

Lemma funds_in_nonneg d funds : Forall (λ c, 0 ≤ amount c) funds → 0 ≤ funds_in d funds.
Proof.
  intros Hf. apply sum_list_nonneg, Forall_fmap. eapply Forall_impl; [exact Hf|]. intros c Hc.
  cbn in *. case_bool_decide; lia.
Qed.

Lemma funds_in_elem c funds :
  Forall (λ c, 0 ≤ amount c) funds → c ∈ funds → amount c ≤ funds_in (denom c) funds.
Proof.
  intros Hf Hin. unfold funds_in. induction Hf as [|c' l Hc Hf IH]; [by apply not_elem_of_nil in Hin|].
  csimpl. pose proof (funds_in_nonneg (denom c) l Hf) as Hn. unfold funds_in in Hn.
  apply elem_of_cons in Hin as [->|Hin].
  - rewrite bool_decide_eq_true_2 by done. lia.
  - specialize (IH Hin). case_bool_decide; lia.
Qed.

(** The panicking sum returns the mathematical sum, or panics because it does
    not fit. *)
Lemma sum_u128_acc {E} acc l :
  Forall (λ x, 0 ≤ x) l →
  try_fold (λ acc x, @expect E _ (checked_add u128_max acc x)) acc l =
    if bool_decide (l = []) then Ok acc
    else if bool_decide (acc + sum_list l ≤ u128_max) then Ok (acc + sum_list l) else Panic.
Proof.
  intros Hl; revert acc; induction Hl as [|x l Hx Hl IH]; intros acc; [done|].
  rewrite (bool_decide_eq_false_2 (x :: l = [])) by done. cbn.
  pose proof (sum_list_nonneg _ Hl).
  destruct (checked_add u128_max acc x) as [c|] eqn:Hc; cbn; checked; [destruct Hc as [-> Hc]|].
  - rewrite IH. case_bool_decide as Hn; [subst; cbn|].
    + rewrite bool_decide_eq_true_2 by lia. f_equal; lia.
    + do 2 case_bool_decide; try lia; [f_equal; lia|done].
  - rewrite bool_decide_eq_false_2; [done|]. lia.
Qed.

Lemma sum_u128_Ok {E} l s :
  Forall (λ x, 0 ≤ x) l → @sum_u128 E l = Ok s → s = sum_list l ∧ s ≤ u128_max.
Proof.
  intros Hl. unfold sum_u128. rewrite sum_u128_acc by done.
  case_bool_decide; subst; cbn; [intros; simplify_eq; done|].
  case_bool_decide; intros; simplify_eq; lia.
Qed.

Lemma sum_u128_fits {E} l :
  Forall (λ x, 0 ≤ x) l → sum_list l ≤ u128_max → @sum_u128 E l = Ok (sum_list l).
Proof.
  intros Hl Hs. unfold sum_u128. rewrite sum_u128_acc by done.
  case_bool_decide; subst; cbn; [done|]. by rewrite bool_decide_eq_true_2 by lia.
Qed.

Lemma sum_u128_no_panic {E} l :
  Forall (λ x, 0 ≤ x) l → sum_list l ≤ u128_max → @sum_u128 E l = Ok (sum_list l).
Proof.
  intros Hl Hs. unfold sum_u128. rewrite sum_u128_acc by done.
  case_bool_decide; subst; cbn; [done|]. by rewrite bool_decide_eq_true_2 by lia.
Qed.

Section map_sum.
Context `{Countable K} {V : Type}.
Implicit Types (f g : K → V → Z) (m : gmap K V).

Lemma map_sum_empty f : map_sum f (∅ : gmap K V) = 0.
Proof. apply map_fold_empty. Qed.

Lemma map_sum_insert_new f m k v :
  m !! k = None → map_sum f (<[k:=v]> m) = f k v + map_sum f m.
Proof. intros Hk. unfold map_sum. rewrite map_fold_insert_L; [done|lia|done]. Qed.

Lemma map_sum_delete f m k v :
  m !! k = Some v → map_sum f m = f k v + map_sum f (delete k m).
Proof.
  intros Hk. rewrite <-map_sum_insert_new by apply lookup_delete_eq.
  by rewrite insert_delete_id.
Qed.

Lemma map_sum_insert_delete f m k v :
  map_sum f (<[k:=v]> m) = f k v + map_sum f (delete k m).
Proof. by rewrite <-insert_delete_eq, map_sum_insert_new by apply lookup_delete_eq. Qed.

(** Insertion, whether or not the key is present. *)
Lemma map_sum_insert f m k v :
  map_sum f (<[k:=v]> m) =
    map_sum f m - from_option (f k) 0 (m !! k) + f k v.
Proof.
  destruct (m !! k) as [w|] eqn:Hk; cbn.
  - rewrite (map_sum_delete f m k w) by done.
    rewrite <-(insert_delete_eq m k v), map_sum_insert_new by apply lookup_delete_eq. lia.
  - rewrite map_sum_insert_new by done. lia.
Qed.

Lemma map_sum_nonneg f m : (∀ k v, m !! k = Some v → 0 ≤ f k v) → 0 ≤ map_sum f m.
Proof.
  induction m as [|k v m Hk IH] using map_ind; intros Hf; [by rewrite map_sum_empty|].
  rewrite map_sum_insert_new by done.
  assert (0 ≤ f k v) by (apply Hf; apply lookup_insert_eq).
  assert (0 ≤ map_sum f m); [|lia].
  apply IH. intros k' v' Hk'. apply Hf. rewrite lookup_insert_ne; [done|]. congruence.
Qed.

Lemma map_sum_le f g m :
  (∀ k v, m !! k = Some v → f k v ≤ g k v) → map_sum f m ≤ map_sum g m.
Proof.
  induction m as [|k v m Hk IH] using map_ind; intros Hf; [by rewrite !map_sum_empty|].
  rewrite !map_sum_insert_new by done.
  assert (f k v ≤ g k v) by (apply Hf; apply lookup_insert_eq).
  assert (map_sum f m ≤ map_sum g m); [|lia].
  apply IH. intros k' v' Hk'. apply Hf. rewrite lookup_insert_ne; [done|]. congruence.
Qed.

Lemma map_sum_ext f g m :
  (∀ k v, m !! k = Some v → f k v = g k v) → map_sum f m = map_sum g m.
Proof.
  intros Hfg. apply Z.le_antisymm; apply map_sum_le; intros k v Hk; rewrite (Hfg k v Hk); done.
Qed.

Lemma map_sum_zero f m : (∀ k v, m !! k = Some v → f k v = 0) → map_sum f m = 0.
Proof.
  induction m as [|k v m Hk IH] using map_ind; intros Hf; [by rewrite map_sum_empty|].
  rewrite map_sum_insert_new, (Hf k v (lookup_insert_eq m k v)) by done.
  rewrite IH; [done|]. intros k' v' Hk'. apply Hf. rewrite lookup_insert_ne; [done|]. congruence.
Qed.

Lemma map_sum_add f g m : map_sum (λ k v, f k v + g k v) m = map_sum f m + map_sum g m.
Proof.
  induction m as [|k v m Hk IH] using map_ind; [by rewrite !map_sum_empty|].
  rewrite !map_sum_insert_new by done. lia.
Qed.

(** One term of a sum of nonnegative terms is at most the sum. *)
Lemma map_sum_lookup_le f m k v :
  (∀ k v, m !! k = Some v → 0 ≤ f k v) → m !! k = Some v → f k v ≤ map_sum f m.
Proof.
  intros Hf Hk. rewrite (map_sum_delete f m k v Hk).
  assert (0 ≤ map_sum f (delete k m)); [|lia]. apply map_sum_nonneg.
  intros k' v' Hd. apply lookup_delete_Some in Hd as [_ ?]. eauto.
Qed.

Lemma map_sum_list f m :
  map_sum f m = sum_list ((λ p, f p.1 p.2) <$> map_to_list m).
Proof.
  induction m as [|k v m Hk IH] using map_ind.
  - by rewrite map_sum_empty, map_to_list_empty.
  - rewrite map_sum_insert_new by done.
    rewrite (map_to_list_insert m k v) by done. cbn. by rewrite IH.
Qed.
End map_sum.

(** Summing [f] over the keys of another map picks a part of the sum. *)
Lemma map_sum_dom_le `{Countable K} {V W} (f : K → V → Z) (m : gmap K V) (n : gmap K W) :
  (∀ k v, m !! k = Some v → 0 ≤ f k v) →
  map_sum (λ k _, from_option (f k) 0 (m !! k)) n ≤ map_sum f m.
Proof.
  revert m. induction n as [|k w n Hk IH] using map_ind; intros m Hf.
  - rewrite map_sum_empty. by apply map_sum_nonneg.
  - rewrite map_sum_insert_new by done.
    destruct (m !! k) as [v|] eqn:Hm; cbn; [|by rewrite Z.add_0_l; apply IH].
    rewrite (map_sum_delete f m k v Hm).
    rewrite (map_sum_ext _ (λ k' _, from_option (f k') 0 (delete k m !! k')) n).
    + apply Z.add_le_mono_l, IH. intros k' v'. rewrite lookup_delete_Some. naive_solver.
    + intros k' w' Hk'. rewrite lookup_delete_ne; [done|]. congruence.
Qed.

(** ** Lemmas on ordered iteration *)

#[global] Instance key_le_total {V} : Total (@key_le V).
Proof. intros p q. unfold key_le. apply (total String.le). Qed.
#[global] Instance key_le_trans {V} : Transitive (@key_le V).
Proof. intros p q r. unfold key_le. apply transitivity. Qed.

Lemma StronglySorted_sublist {A} (R : relation A) l k :
  l `sublist_of` k → StronglySorted R k → StronglySorted R l.
Proof.
  induction 1 as [|x l k Hs IH|x l k Hs IH]; intros Hk; [done|..];
    apply StronglySorted_inv in Hk as [Hk Hx]; [|by auto].
  constructor; [by auto|]. rewrite Forall_forall in *. intros y Hy. apply Hx.
  by eapply elem_of_sublist.
Qed.

Lemma StronglySorted_key_le_fst {V} (l : list (string * V)) :
  StronglySorted key_le l → StronglySorted String.le l.*1.
Proof. induction 1; cbn; constructor; [done|]. by apply Forall_fmap. Qed.

Section entries.
Context {V : Type}.
Implicit Types m : gmap string V.

Lemma entries_Permutation m : entries m ≡ₚ map_to_list m.
Proof. apply merge_sort_Permutation. Qed.

Lemma elem_of_entries m k v : (k, v) ∈ entries m ↔ m !! k = Some v.
Proof. rewrite (entries_Permutation m). apply elem_of_map_to_list. Qed.

Lemma entries_sorted m : StronglySorted key_le (entries m).
Proof. apply StronglySorted_merge_sort; apply _. Qed.

Lemma entries_NoDup_fst m : NoDup (entries m).*1.
Proof. rewrite (entries_Permutation m). apply NoDup_fst_map_to_list. Qed.

Lemma entries_length m : length (entries m) = size m.
Proof. by rewrite (entries_Permutation m), length_map_to_list. Qed.

Lemma map_sum_entries (f : string → V → Z) m :
  map_sum f m = sum_list ((λ p, f p.1 p.2) <$> entries m).
Proof. rewrite map_sum_list. apply sum_list_proper.
  by rewrite (entries_Permutation m). Qed.
End entries.
