(* ===== verification/Std.v ===== *)
(** * The shared contract library

    The parts of [packages/axelar-wasm-std] that every contract uses (non-empty
    integers, thresholds, counters, the kill switch, permission control) and the
    permission check that [packages/msgs-derive] generates in front of every
    [execute] entry point. *)

From S2P Require Import Prelude.

(** ** Standard errors of the CosmWasm interface *)

Inductive StdError :=
  | NotFound
  | GenericErr (msg : string)
  | StdOverflow.
#[global] Instance StdError_eq_dec : EqDecision StdError.
Proof. solve_decision. Defined.

(** [Item::load] of a singleton storage item. *)
Definition item_load {A} (item : option A) : result StdError A := ok_or NotFound item.

(** [Item::update]: load, apply the action, save; the action's error type absorbs
    the storage error. *)
Definition item_update {E A} (from_std : StdError → E) (item : option A)
    (action : A → result E A) : result E A :=
  a ← map_err from_std (item_load item); action a.

(** *** Storage maps with a unique index ([cw_storage_plus::IndexedMap])

    The index entries mirror the primary map: saving a value first drops the index
    entry of the value it replaces, then fails when another key holds the same
    index value. *)
Section unique_index.
Context `{Countable K} {V I : Type} `{EqDecision I} (idx : V → I).

Definition unique_index_item (m : gmap K V) (i : I) : option (K * V) :=
  snd <$> list_find (λ p, idx p.2 = i) (map_to_list m).

Definition unique_index_save (m : gmap K V) (k : K) (v : V) : result StdError (gmap K V) :=
  match unique_index_item (delete k m) (idx v) with
  | Some _ => Err (GenericErr "Violates unique constraint on index")
  | None => Ok (<[k := v]> m)
  end.

(** The index is a partial injection. *)
Definition index_unique (m : gmap K V) : Prop :=
  ∀ k1 k2 v1 v2, m !! k1 = Some v1 → m !! k2 = Some v2 → idx v1 = idx v2 → k1 = k2.

Lemma unique_index_item_Some m i k v :
  unique_index_item m i = Some (k, v) → m !! k = Some v ∧ idx v = i.
Proof.
  unfold unique_index_item. destruct (list_find _ _) as [[n p]|] eqn:Hf; cbn; [|done].
  intros [= ->]. apply list_find_Some in Hf as (Hl & Hi & _).
  split; [|done]. apply elem_of_map_to_list. by eapply list_elem_of_lookup_2.
Qed.

Lemma unique_index_item_None m i :
  unique_index_item m i = None ↔ ∀ k v, m !! k = Some v → idx v ≠ i.
Proof.
  unfold unique_index_item. rewrite fmap_None, list_find_None, Forall_forall. split.
  - intros Hall k v Hk. apply (Hall (k, v)). by apply elem_of_map_to_list.
  - intros Hall [k v] Hk. apply (Hall k v). by apply elem_of_map_to_list.
Qed.

(** With unique entries, the index finds the entry of every value. *)
Lemma unique_index_item_lookup m k v :
  index_unique m → m !! k = Some v → unique_index_item m (idx v) = Some (k, v).
Proof.
  intros Hu Hk. destruct (unique_index_item m (idx v)) as [[k' v']|] eqn:Hi.
  - apply unique_index_item_Some in Hi as [Hk' Hidx].
    assert (k' = k) as -> by eauto. congruence.
  - by rewrite unique_index_item_None in Hi; destruct (Hi k v Hk).
Qed.

Lemma unique_index_save_Ok m k v m' :
  unique_index_save m k v = Ok m' ↔
    m' = <[k := v]> m ∧ ∀ k' v', k' ≠ k → m !! k' = Some v' → idx v' ≠ idx v.
Proof.
  unfold unique_index_save.
  destruct (unique_index_item _ _) as [[k0 v0]|] eqn:Hi.
  - apply unique_index_item_Some in Hi as [Hk Hv]. apply lookup_delete_Some in Hk as [??].
    split; [done|]. intros [_ Hall]. by destruct (Hall k0 v0).
  - rewrite unique_index_item_None in Hi. split.
    + intros [= <-]. split; [done|]. intros k' v' Hne Hk'. apply (Hi k').
      by rewrite lookup_delete_ne.
    + by intros [-> _].
Qed.

Lemma index_unique_save m k v m' :
  index_unique m → unique_index_save m k v = Ok m' → index_unique m'.
Proof.
  intros Hu [-> Hn]%unique_index_save_Ok k1 k2 v1 v2.
  rewrite !lookup_insert_Some. naive_solver.
Qed.

Lemma index_unique_delete m k : index_unique m → index_unique (delete k m).
Proof. intros Hu k1 k2 v1 v2. rewrite !lookup_delete_Some. naive_solver. Qed.
End unique_index.

(** *** Address validation ([cosmwasm_std::Api]) *)

Class Api := { addr_validate : string → result StdError Addr }.

(** ** Non-empty integers ([nonempty/uint.rs], [nonempty/vec.rs]) *)
Module nonempty.

Inductive Error := InvalidValue (s : string).
#[global] Instance Error_eq_dec : EqDecision Error.
Proof. solve_decision. Defined.

(** [TryFrom] of [nonempty::Uint64], [nonempty::Uint128] and friends. *)
Definition uint_try_from (value : Z) : result Error Z :=
  if bool_decide (value = 0) then Err (InvalidValue "0") else Ok value.

(** [TryFrom<Vec<T>>] of [nonempty::Vec]. *)
Definition vec_try_from {A} (value : list A) : result Error (list A) :=
  match value with [] => Err (InvalidValue "empty") | _ => Ok value end.

(** [TryFrom<String>] of [nonempty::String]. *)
Definition string_try_from (value : string) : result Error string :=
  if bool_decide (value = "") then Err (InvalidValue "empty") else Ok value.

Lemma uint_try_from_Ok v w : uint_try_from v = Ok w ↔ w = v ∧ v ≠ 0.
Proof. unfold uint_try_from; case_bool_decide; naive_solver. Qed.

End nonempty.

(** ** Thresholds ([threshold.rs]) *)
Module threshold.

Inductive Error :=
  | OutOfInterval
  | NoMajority
  | InvalidParameter (e : nonempty.Error).

Record Threshold := mkThreshold { numerator : Z; denominator : Z }.
#[global] Instance Threshold_eq_dec : EqDecision Threshold.
Proof. solve_decision. Defined.

(** [PartialOrd::partial_cmp]: cross multiplication in 128 bits. *)
Definition partial_cmp (self other : Threshold) : comparison :=
  let self_normalized := numerator self * denominator other in
  let other_normalized := numerator other * denominator self in
  self_normalized ?= other_normalized.

(** The [>=] operator that [PartialOrd] provides. *)
Definition ge (self other : Threshold) : bool :=
  match partial_cmp self other with Lt => false | _ => true end.

(** [TryFrom<(nonempty::Uint64, nonempty::Uint64)>] *)
Definition try_from_nonempty (p : Z * Z) : result Error Threshold :=
  let '(numerator, denominator) := p in
  if bool_decide (numerator > denominator) then Err OutOfInterval
  else Ok (mkThreshold numerator denominator).

(** [try_from] on raw 64-bit integers. *)
Definition try_from (value : Z * Z) : result Error Threshold :=
  numerator ← map_err InvalidParameter (nonempty.uint_try_from value.1);
  denominator ← map_err InvalidParameter (nonempty.uint_try_from value.2);
  try_from_nonempty (numerator, denominator).

(** [From<Threshold> for (Uint64, Uint64)] *)
Definition into_pair (t : Threshold) : Z * Z := (numerator t, denominator t).

Record MajorityThreshold := mkMajorityThreshold { m_numerator : Z; m_denominator : Z }.
#[global] Instance MajorityThreshold_eq_dec : EqDecision MajorityThreshold.
Proof. solve_decision. Defined.

(** [TryFrom<Threshold> for MajorityThreshold] *)
Definition majority_try_from (value : Threshold) : result Error MajorityThreshold :=
  half ← expect (checked_div (denominator value) 2);
  if bool_decide (numerator value ≤ half) then Err NoMajority
  else Ok (mkMajorityThreshold (numerator value) (denominator value)).

(** [From<MajorityThreshold> for Threshold] *)
Definition from_majority (m : MajorityThreshold) : Threshold :=
  mkThreshold (m_numerator m) (m_denominator m).

(** The type invariants of the two structures. *)
Definition wf (t : Threshold) : Prop :=
  1 ≤ numerator t ≤ denominator t ∧ denominator t ≤ u64_max.
Definition majority_wf (m : MajorityThreshold) : Prop :=
  wf (from_majority m) ∧ m_denominator m < 2 * m_numerator m.

Lemma try_from_Ok n d t :
  0 ≤ n ≤ u64_max → 0 ≤ d ≤ u64_max →
  try_from (n, d) = Ok t ↔ t = mkThreshold n d ∧ 1 ≤ n ≤ d.
Proof.
  intros Hn Hd. unfold try_from, try_from_nonempty. split.
  - intros H. ok_inv. cbn in *. rewrite nonempty.uint_try_from_Ok in *.
    destruct_and!; subst. ok_case; ok_inv; breflect. split; [done|lia].
  - intros [-> ?]. cbn. unfold nonempty.uint_try_from.
    rewrite !bool_decide_eq_false_2 by lia. cbn. by rewrite bool_decide_eq_false_2 by lia.
Qed.

Lemma try_from_wf n d t :
  0 ≤ n ≤ u64_max → 0 ≤ d ≤ u64_max → try_from (n, d) = Ok t → wf t.
Proof. intros Hn Hd [-> ?]%try_from_Ok; [|done..]. unfold wf; cbn. lia. Qed.

Lemma ge_spec t u : ge t u = true ↔ numerator u * denominator t ≤ numerator t * denominator u.
Proof.
  unfold ge, partial_cmp. destruct (Z.compare_spec (numerator t * denominator u)
    (numerator u * denominator t)); split; intros; lia || done.
Qed.

End threshold.

(** ** Counters ([counter.rs]) *)
Module counter.

Definition cur (item : option Z) : Z := default 0 item.

(** [Counter::incr] of a 64-bit counter: the new value, which is also stored. *)
Definition incr (item : option Z) : result StdError (option Z * Z) :=
  value ← ok_or StdOverflow (checked_add u64_max (cur item) 1);
  Ok (Some value, value).

Lemma incr_Ok item item' v :
  incr item = Ok (item', v) ↔
    item' = Some v ∧ v = cur item + 1 ∧ v ≤ u64_max.
Proof.
  unfold incr. split.
  - intros H; ok_inv; checked; simplify_eq; naive_solver lia.
  - intros (-> & -> & ?). unfold checked_add. by rewrite bool_decide_eq_true_2.
Qed.

End counter.

(** ** The kill switch ([killswitch.rs]) *)
Module killswitch.

Inductive State := Engaged | Disengaged.
#[global] Instance State_eq_dec : EqDecision State.
Proof. solve_decision. Defined.

Inductive KillSwitchUpdateError := SameState | Std (err : StdError).

(** The storage of the switch is the single item [STATE]. *)
Definition init (initial_state : State) : option State := Some initial_state.

(** The response carries the event only when the state changed; an unchanged
    state is a success with an empty response. *)
Definition killswitch_update_response {M Ev} (old : option State)
    (state : result KillSwitchUpdateError State) (on_state_change : Ev)
    : result StdError (option State * Response M Ev) :=
  match state with
  | Ok s => Ok (Some s, add_event on_state_change Response_new)
  | Err SameState => Ok (old, Response_new)
  | Err (Std err) => Err err
  | Panic => Panic
  end.

Definition engage {M Ev} (st : option State) (on_state_change : Ev)
    : result StdError (option State * Response M Ev) :=
  let state := item_update Std st (λ state,
    match state with
    | Disengaged => Ok Engaged
    | Engaged => Err SameState
    end) in
  killswitch_update_response st state on_state_change.

Definition disengage {M Ev} (st : option State) (on_state_change : Ev)
    : result StdError (option State * Response M Ev) :=
  let state := item_update Std st (λ state,
    match state with
    | Engaged => Ok Disengaged
    | Disengaged => Err SameState
    end) in
  killswitch_update_response st state on_state_change.

Definition is_contract_active (st : option State) : bool :=
  bool_decide (default Engaged st = Disengaged).

Lemma engage_Ok {M Ev} st (ev : Ev) st' (r : Response M Ev) :
  engage st ev = Ok (st', r) →
  st ≠ None ∧ st' = Some Engaged ∧ messages r = [] ∧
  events r = if is_contract_active st then [ev] else [].
Proof. destruct st as [[]|]; cbn; intros; simplify_eq; done. Qed.

Lemma disengage_Ok {M Ev} st (ev : Ev) st' (r : Response M Ev) :
  disengage st ev = Ok (st', r) →
  st ≠ None ∧ st' = Some Disengaged ∧ messages r = [] ∧
  events r = if is_contract_active st then [] else [ev].
Proof. destruct st as [[]|]; cbn; intros; simplify_eq; done. Qed.

End killswitch.

(** ** Permission control ([permission_control.rs]) *)
Module permission_control.

(** The flags of [Permission], an 8-bit flag set. *)
Definition NoPrivilege : Z := 1.
Definition Admin : Z := 2.
Definition Governance : Z := 4.
Definition Elevated : Z := Z.lor Admin Governance.
Definition Any : Z := Z.lor NoPrivilege Elevated.

Inductive Error :=
  | GeneralPermissionDenied (expected actual : Z)
  | SpecificPermissionDenied (roles : list string)
  | WhitelistNotFound (sender : Addr)
  | WrongVariant
  | Unauthorized.

(** The two storage items of the module. *)
Record Storage := mkStorage { ADMIN : option Addr; GOVERNANCE : option Addr }.

Definition set_admin (st : Storage) (addr : Addr) : Storage :=
  mkStorage (Some addr) (GOVERNANCE st).
Definition set_governance (st : Storage) (addr : Addr) : Storage :=
  mkStorage (ADMIN st) (Some addr).

(** Operations of [flagset::FlagSet]. *)
Definition is_disjoint (a b : Z) : bool := bool_decide (Z.land a b = 0).
Definition contains (a b : Z) : bool := bool_decide (Z.land a b = b).

Definition sender_role (st : Storage) (sender : Addr) : Z :=
  let role := NoPrivilege in
  let role := if bool_decide (ADMIN st = Some sender) then Z.lor role Admin else role in
  let role := if bool_decide (GOVERNANCE st = Some sender) then Z.lor role Governance
              else role in
  if negb (is_disjoint role Elevated) then Z.ldiff role NoPrivilege else role.

(** The role of a sender, by cases on who it is. *)
Lemma sender_role_spec st sender :
  sender_role st sender =
    Z.lor (if bool_decide (ADMIN st = Some sender) then Admin else 0)
      (Z.lor (if bool_decide (GOVERNANCE st = Some sender) then Governance else 0)
        (if bool_decide (ADMIN st ≠ Some sender ∧ GOVERNANCE st ≠ Some sender)
         then NoPrivilege else 0)).
Proof. unfold sender_role. repeat case_bool_decide; try done; naive_solver. Qed.

End permission_control.

(** ** The generated permission checks ([packages/msgs-derive]) *)
Module msgs_derive.
Import permission_control.

(** The parsed [#[permission(..)]] attributes of one message variant. *)
Record MsgPermissions := mkPerm {
  specific : list string;
  general : list Z;
  external : list string
}.

(** The generated [ExecuteMsgFromProxy] enumeration. *)
Inductive ExecuteMsgFromProxy (M : Type) :=
  | Relay (original_sender : Addr) (msg : M)
  | Direct (msg : M).
Arguments Relay {M} original_sender msg.
Arguments Direct {M} msg.

Section check.
Context {M SE PE : Type}.
(** The attributes of each variant; the [direct(role = f)] functions, applied to
    the contract's storage; the [proxy(contract = f)] functions, applied to the
    contract's storage, in the order of the attribute. *)
Context (permissions : M → MsgPermissions).
Context (direct : string → Addr → M → result SE bool).
Context (proxy : list (string * result PE Addr)).

Fixpoint specific_permissions_check (sender : Addr) (msg : M) (roles : list string)
    : result Error bool :=
  match roles with
  | [] => Ok false
  | role :: roles =>
      sender_is_authorized ← map_err (λ _, WhitelistNotFound sender) (direct role sender msg);
      if (sender_is_authorized : bool) then Ok true
      else specific_permissions_check sender msg roles
  end.

Definition general_permissions_check (st : Storage) (sender : Addr) (p : MsgPermissions)
    : result Error unit :=
  permission ←
    (if bool_decide (general p = [] ∧ specific p ≠ [])
     then Err (SpecificPermissionDenied (specific p))
     else Ok (foldr Z.lor 0 (general p)));
  if contains permission Any then Ok tt
  else
    let role := sender_role st sender in
    if bool_decide (Z.land permission role = 0)
    then Err (GeneralPermissionDenied permission role)
    else Ok tt.

(** The generated [ensure_permissions] method. *)
Definition ensure_permissions (st : Storage) (sender : Addr) (msg : M) : result Error M :=
  let p := permissions msg in
  authorized ← specific_permissions_check sender msg (specific p);
  if (authorized : bool) then Ok msg
  else _ ← general_permissions_check st sender p; Ok msg.

(** The generated [verify_external_executor]. *)
Definition verify_external_executor (msg : M) (contract_name : string) : result Error M :=
  if bool_decide (contract_name ∈ external (permissions msg)) then Ok msg
  else Err Unauthorized.

(** The generated [validate_external_contract]. *)
Fixpoint validate_external_contract (contract_addr : Addr)
    (contracts : list (string * result PE Addr)) : result Error string :=
  match contracts with
  | [] => Err Unauthorized
  | (name, Ok stored_addr) :: contracts =>
      if bool_decide (stored_addr = contract_addr) then Ok name
      else validate_external_contract contract_addr contracts
  | (_, Err _) :: contracts => validate_external_contract contract_addr contracts
  | (_, Panic) :: _ => Panic
  end.

(** The prologue that [#[ensure_permissions(..)]] puts in front of [execute]: it
    returns the message to execute and the sender to execute it for. *)
Definition authorize (st : Storage) (sender : Addr) (msg : ExecuteMsgFromProxy M)
    : result Error (M * Addr) :=
  '(msg, sender) ←
    match msg with
    | Relay original_sender msg =>
        contract_name ← validate_external_contract sender proxy;
        msg ← verify_external_executor msg contract_name;
        Ok (msg, original_sender)
    | Direct msg => Ok (msg, sender)
    end;
  msg ← ensure_permissions st sender msg;
  Ok (msg, sender).

Lemma ensure_permissions_same st sender msg msg' :
  ensure_permissions st sender msg = Ok msg' → msg' = msg.
Proof. unfold ensure_permissions; intros H; ok_inv; ok_case; ok_inv; done. Qed.

Lemma specific_permissions_check_Ok sender msg roles b :
  specific_permissions_check sender msg roles = Ok b →
  b = true ↔ ∃ role, role ∈ roles ∧ direct role sender msg = Ok true.
Proof.
  induction roles as [|role roles IH]; cbn; intros H; ok_inv.
  - split; [done|set_solver].
  - ok_case; ok_inv.
    + split; [|done]. intros _. exists role. set_solver.
    + rewrite IH by done. split.
      * intros (r & ? & ?); exists r; set_solver.
      * intros (r & [->|?]%elem_of_cons & ?); [congruence|eauto].
Qed.

Lemma validate_external_contract_Ok addr contracts name :
  validate_external_contract addr contracts = Ok name → (name, Ok addr) ∈ contracts.
Proof.
  induction contracts as [|[n [a|?|]] contracts IH]; cbn; intros H; ok_inv; set_solver || idtac.
  case_bool_decide; ok_inv; set_solver.
Qed.
End check.

(** A sender passes the check of a variant without specific roles exactly when
    the variant is open to [Any] or the sender's role meets its permissions. *)
Lemma ensure_permissions_general {M SE} (permissions : M → MsgPermissions)
    (direct : string → Addr → M → result SE bool) st sender msg :
  specific (permissions msg) = [] →
  let perm := foldr Z.lor 0 (general (permissions msg)) in
  ensure_permissions permissions direct st sender msg = Ok msg ↔
    contains perm Any = true ∨ Z.land perm (sender_role st sender) ≠ 0.
Proof.
  intros Hs perm. unfold ensure_permissions, general_permissions_check. rewrite Hs. cbn.
  rewrite (bool_decide_eq_false_2 (general _ = [] ∧ _)) by naive_solver. cbn. fold perm.
  destruct (contains perm Any); cbn; [naive_solver|].
  case_bool_decide; cbn; naive_solver.
Qed.

(** A variant with a single specific role is open to the holders of that role only. *)
Lemma ensure_permissions_specific {M SE} (permissions : M → MsgPermissions)
    (direct : string → Addr → M → result SE bool) st sender msg role :
  specific (permissions msg) = [role] → general (permissions msg) = [] →
  ensure_permissions permissions direct st sender msg = Ok msg ↔
    direct role sender msg = Ok true.
Proof.
  intros Hs Hg. unfold ensure_permissions, general_permissions_check. rewrite Hs, Hg. cbn.
  by destruct (direct role sender msg) as [[]|e|].
Qed.

(** The message inside, whoever sends it. *)
Definition relayed {M} (m : ExecuteMsgFromProxy M) : M :=
  match m with Relay _ m | Direct m => m end.

(** The prologue never changes the message; only a sender that passes the check of its
    permissions gets through. *)
Lemma authorize_relayed {M SE PE} (permissions : M → MsgPermissions)
    (direct : string → Addr → M → result SE bool) (proxy : list (string * result PE Addr))
    st sender m m' sender' :
  authorize permissions direct proxy st sender m = Ok (m', sender') →
  m' = relayed m ∧ ensure_permissions permissions direct st sender' m' = Ok m'.
Proof.
  unfold authorize. intros Hf. ok_inv. destruct v as [m1 s1]. ok_inv. simplify_eq.
  pose proof (ensure_permissions_same _ _ _ _ _ _ Hok0) as ->. split; [|done].
  destruct m as [o m|m]; cbn in *; ok_inv; [|by simplify_eq].
  unfold verify_external_executor in *. ok_case. ok_inv. by simplify_eq.
Qed.

(** A message sent directly is executed for its sender. *)
Lemma authorize_direct {M SE PE} (permissions : M → MsgPermissions)
    (direct : string → Addr → M → result SE bool) (proxy : list (string * result PE Addr))
    st sender msg msg' sender' :
  authorize permissions direct proxy st sender (Direct msg) = Ok (msg', sender') ↔
    msg' = msg ∧ sender' = sender ∧
    ensure_permissions permissions direct st sender msg = Ok msg.
Proof.
  unfold authorize. cbn. split.
  - intros Hf. ok_inv. simplify_eq.
    pose proof (ensure_permissions_same _ _ _ _ _ _ Hok). by subst.
  - intros (-> & -> & Hok). by rewrite Hok.
Qed.

(** A relayed message comes from a registered proxy that the message admits. *)
Lemma authorize_relay {M SE PE} (permissions : M → MsgPermissions)
    (direct : string → Addr → M → result SE bool) (proxy : list (string * result PE Addr))
    st sender o msg msg' sender' :
  authorize permissions direct proxy st sender (Relay o msg) = Ok (msg', sender') ↔
    msg' = msg ∧ sender' = o ∧
    ensure_permissions permissions direct st o msg = Ok msg ∧
    ∃ name, validate_external_contract sender proxy = Ok name ∧
            name ∈ external (permissions msg).
Proof.
  unfold authorize, verify_external_executor. split.
  - intros Hf. ok_all. ok_case. ok_inv. simplify_eq. breflect.
    pose proof (ensure_permissions_same _ _ _ _ _ _ Hok). subst. eauto 10.
  - intros (-> & -> & Hok & name & Hn & Hin). rewrite Hn. cbn.
    rewrite bool_decide_eq_true_2 by done. cbn. by rewrite Hok.
Qed.

(** The three general permission levels the contracts use. *)
Lemma land_governance st sender :
  Z.land Governance (sender_role st sender) ≠ 0 ↔ GOVERNANCE st = Some sender.
Proof.
  rewrite sender_role_spec. repeat case_bool_decide; cbn; naive_solver.
Qed.

Lemma land_elevated st sender :
  Z.land Elevated (sender_role st sender) ≠ 0 ↔
    ADMIN st = Some sender ∨ GOVERNANCE st = Some sender.
Proof.
  rewrite sender_role_spec. repeat case_bool_decide; cbn; naive_solver.
Qed.

End msgs_derive.

(** * Properties *)

(** The integer test [numerator <= denominator / 2] of
    [TryFrom<Threshold> for MajorityThreshold] is exact: on every well-formed
    threshold the conversion accepts precisely the fractions strictly above one
    half (the result is the same fraction), rejects the others with [NoMajority],
    and never panics. *)
Theorem majority_threshold_exact (t : threshold.Threshold) :
  threshold.wf t →
  threshold.majority_try_from t =
    if bool_decide (threshold.denominator t < 2 * threshold.numerator t)
    then Ok (threshold.mkMajorityThreshold (threshold.numerator t) (threshold.denominator t))
    else Err threshold.NoMajority.
Proof.
  intros [? ?]. unfold threshold.majority_try_from, checked_div.
  rewrite bool_decide_eq_false_2 by done. cbn.
  repeat case_bool_decide; done || (exfalso; pose proof (Z.div_mod (threshold.denominator t) 2);
    pose proof (Z.mod_pos_bound (threshold.denominator t) 2); lia).
Qed.

Lemma majority_threshold_exact_witness :
  threshold.majority_try_from (threshold.mkThreshold 2 3) =
    Ok (threshold.mkMajorityThreshold 2 3) ∧
  threshold.majority_try_from (threshold.mkThreshold 2 5) = Err threshold.NoMajority.
Proof.
  split.
  - rewrite (majority_threshold_exact (threshold.mkThreshold 2 3)); [done|].
    split; [split; done|done].
  - rewrite (majority_threshold_exact (threshold.mkThreshold 2 5)); [done|].
    split; [split; done|done].
Defined.

(** Who may execute a message that is restricted to governance. Sent directly,
    it is authorized exactly when the sender is the stored governance address. Relayed,
    it is authorized exactly when the relaying contract is a registered proxy that the
    message admits and the original sender, not the proxy, is governance. *)
Theorem governance_authorization {M SE PE} (permissions : M → msgs_derive.MsgPermissions)
    (direct : string → Addr → M → result SE bool) (proxy : list (string * result PE Addr))
    (st : permission_control.Storage) (sender : Addr) (msg : M) :
  msgs_derive.specific (permissions msg) = [] →
  msgs_derive.general (permissions msg) = [permission_control.Governance] →
  (msgs_derive.authorize permissions direct proxy st sender (msgs_derive.Direct msg)
     = Ok (msg, sender) ↔ permission_control.GOVERNANCE st = Some sender) ∧
  (∀ original_sender,
     msgs_derive.authorize permissions direct proxy st sender
       (msgs_derive.Relay original_sender msg) = Ok (msg, original_sender) ↔
     permission_control.GOVERNANCE st = Some original_sender ∧
     ∃ name, msgs_derive.validate_external_contract sender proxy = Ok name ∧
             name ∈ msgs_derive.external (permissions msg)).
Proof.
  intros Hs Hg.
  assert (∀ s, msgs_derive.ensure_permissions permissions direct st s msg = Ok msg ↔
    permission_control.GOVERNANCE st = Some s) as Hgov.
  { intros s. rewrite msgs_derive.ensure_permissions_general by done. rewrite Hg. cbn.
    rewrite <-msgs_derive.land_governance. cbn. naive_solver. }
  split.
  - rewrite msgs_derive.authorize_direct, Hgov. naive_solver.
  - intros o. rewrite msgs_derive.authorize_relay, Hgov. naive_solver.
Qed.

Lemma governance_authorization_witness :
  let st := permission_control.mkStorage (Some "admin") (Some "gov") in
  let perms (_ : unit) := msgs_derive.mkPerm [] [permission_control.Governance] ["coordinator"] in
  let direct (_ : string) (_ : Addr) (_ : unit) : result unit bool := Err () in
  let proxy : list (string * result unit Addr) := [("coordinator", Ok "coord")] in
  msgs_derive.authorize perms direct proxy st "gov" (msgs_derive.Direct ()) = Ok ((), "gov") ∧
  msgs_derive.authorize perms direct proxy st "coord" (msgs_derive.Relay "gov" ())
    = Ok ((), "gov").
Proof.
  intros st perms direct proxy.
  destruct (governance_authorization perms direct proxy st "gov" () eq_refl eq_refl) as [Hd _].
  destruct (governance_authorization perms direct proxy st "coord" () eq_refl eq_refl) as [_ Hr].
  split.
  - apply Hd. reflexivity.
  - apply Hr. split; [reflexivity|]. exists "coordinator".
    split; [vm_compute; reflexivity|apply list_elem_of_here].
Defined.
