(* ===== verification/Voting.v ===== *)
(** * Weighted polls

    [packages/axelar-wasm-std/src/snapshot.rs] (the weighted participants of a
    poll and its quorum) and [packages/axelar-wasm-std/src/voting.rs] (tallies,
    polls, votes and results), with the invariant that ties the running tallies
    of a poll to the votes cast so far. *)

From S2P Require Import Prelude Std.

(** ** Snapshots ([snapshot.rs]) *)
Module snapshot.

Record Participant := mkParticipant { address : Addr; weight : Z }.
#[global] Instance Participant_eq_dec : EqDecision Participant.
Proof. solve_decision. Defined.

Record Snapshot := mkSnapshot {
  quorum : Z;
  participants : gmap string Participant
}.

(** [Uint128::mul_ceil] by a fraction: panics on a zero denominator and when the
    result does not fit. *)
Definition mul_ceil {E} (x num den : Z) : result E Z :=
  if bool_decide (den = 0) then Panic
  else
    let floor := x * num / den in
    let r := if bool_decide ((x * num) mod den = 0) then floor else floor + 1 in
    if bool_decide (r ≤ u128_max) then Ok r else Panic.

(** One step of the closure that fills the map and accumulates the weight. *)
Definition collect_participant (acc : Z * gmap string Participant) (p : Participant)
    : Z * gmap string Participant :=
  (saturating_add u128_max acc.1 (weight p), <[address p := p]> acc.2).

Definition new {E} (quorum_threshold : threshold.MajorityThreshold)
    (participants : list Participant) : result E Snapshot :=
  let '(total_weight, participants) := foldl collect_participant (0, ∅) participants in
  q ← mul_ceil total_weight (threshold.m_numerator quorum_threshold)
        (threshold.m_denominator quorum_threshold);
  quorum ← expect_ok (nonempty.uint_try_from q);
  Ok (mkSnapshot quorum participants).

(** The participants' addresses, in some order (the source iterates a [HashMap]). *)
Definition participants_list (s : Snapshot) : list Addr := (map_to_list (participants s)).*1.

Definition find (s : Snapshot) (participant : Addr) : option Participant :=
  participants s !! participant.

Definition total_weight (m : gmap string Participant) : Z := map_sum (λ _ p, weight p) m.

(** What the snapshot is built from: a non-empty list of participants of positive
    weight whose weights add up within 128 bits. *)
Definition valid_participants (ps : list Participant) : Prop :=
  ps ≠ [] ∧ Forall (λ p, 1 ≤ weight p) ps ∧ sum_list (weight <$> ps) ≤ u128_max.

Lemma collect_weight ps acc :
  Forall (λ p, 1 ≤ weight p) ps → 0 ≤ acc.1 →
  acc.1 + sum_list (weight <$> ps) ≤ u128_max →
  (foldl collect_participant acc ps).1 = acc.1 + sum_list (weight <$> ps).
Proof.
  intros Hps; revert acc; induction Hps as [|p ps Hp Hps IH]; intros acc Ha Hs; csimpl in *; [lia|].
  assert (0 ≤ sum_list (weight <$> ps)).
  { apply sum_list_nonneg, Forall_fmap. eapply Forall_impl; [exact Hps|]. cbn; lia. }
  rewrite IH; unfold collect_participant, saturating_add; csimpl; lia.
Qed.

Lemma collect_total ps acc :
  Forall (λ p, 1 ≤ weight p) ps →
  (∀ a p, acc.2 !! a = Some p → 1 ≤ weight p) →
  let m := (foldl collect_participant acc ps).2 in
  (∀ a p, m !! a = Some p → 1 ≤ weight p) ∧
  total_weight m ≤ total_weight acc.2 + sum_list (weight <$> ps).
Proof.
  intros Hps; revert acc; induction Hps as [|p ps Hp Hps IH]; intros acc Ha; csimpl; [split; [done|lia]|].
  destruct (IH (collect_participant acc p)) as [H1 H2].
  - cbn. intros a q Hq. apply lookup_insert_Some in Hq as [[<- <-]|[_ Hq]]; eauto.
  - split; [done|]. etrans; [exact H2|]. csimpl. unfold total_weight. rewrite map_sum_insert.
    destruct (acc.2 !! address p) eqn:Hl; csimpl; [apply Ha in Hl|]; lia.
Qed.

Lemma collect_nonempty ps acc :
  ps ≠ [] ∨ acc.2 ≠ ∅ → (foldl collect_participant acc ps).2 ≠ ∅.
Proof.
  revert acc; induction ps as [|p ps IH]; intros acc [H|H]; cbn; try done.
  - apply IH. right. cbn. apply insert_non_empty.
  - apply IH. right. cbn. apply insert_non_empty.
Qed.

(** The ceiling, as an inequality. *)
Lemma mul_ceil_spec {E} x num den :
  0 ≤ x ≤ u128_max → 1 ≤ num ≤ den →
  ∃ q, @mul_ceil E x num den = Ok q ∧ (q - 1) * den < x * num ≤ q * den ∧ 0 ≤ q ≤ x.
Proof.
  intros Hx Hn. unfold mul_ceil. rewrite bool_decide_eq_false_2 by lia. cbn zeta.
  pose proof (Z.div_mod (x * num) den ltac:(lia)) as Hdm.
  pose proof (Z.mod_pos_bound (x * num) den ltac:(lia)) as Hm.
  set (f := x * num / den) in *. set (r := (x * num) mod den) in *.
  assert (0 ≤ f) by (apply Z.div_pos; nia).
  assert (x * num ≤ x * den) by (apply Z.mul_le_mono_nonneg_l; lia).
  clearbody f r. destruct (decide (r = 0)) as [Hr|Hr].
  - rewrite (bool_decide_eq_true_2 (r = 0)) by done. assert (f ≤ x) by (apply (Z.mul_le_mono_pos_r _ _ den); lia).
    rewrite bool_decide_eq_true_2 by lia. exists f. repeat split; lia.
  - rewrite (bool_decide_eq_false_2 (r = 0)) by done. assert (f < x) by (apply (Z.mul_lt_mono_pos_r den); lia).
    rewrite bool_decide_eq_true_2 by lia. exists (f + 1). repeat split; lia.
Qed.

End snapshot.

(** ** Polls ([voting.rs]) *)
Module voting.
Import snapshot.

Inductive Error :=
  | NotParticipant
  | InvalidVoteSize
  | AlreadyVoted
  | PollNotInProgress
  | PollNotEnded
  | PollExpired
  | MessageIndexOutOfBounds
  | PollResultsLengthUnequal.
#[global] Instance Error_eq_dec : EqDecision Error.
Proof. solve_decision. Defined.

(** [PollId(Uint64)] *)
Notation PollId := Z (only parsing).

Inductive Vote := SucceededOnChain | FailedOnChain | VoteNotFound.
#[global] Instance Vote_eq_dec : EqDecision Vote.
Proof. solve_decision. Defined.

(** [EnumIter], [AsRefStr] and [EnumString] of [Vote]. *)
Definition Vote_iter : list Vote := [SucceededOnChain; FailedOnChain; VoteNotFound].
Definition Vote_as_ref (v : Vote) : string :=
  match v with
  | SucceededOnChain => "SucceededOnChain"
  | FailedOnChain => "FailedOnChain"
  | VoteNotFound => "NotFound"
  end.
Definition Vote_parse (s : string) : option Vote :=
  if bool_decide (s = "SucceededOnChain") then Some SucceededOnChain
  else if bool_decide (s = "FailedOnChain") then Some FailedOnChain
  else if bool_decide (s = "NotFound") then Some VoteNotFound
  else None.

(** [Tallies(BTreeMap<String, Uint128>)] *)
Notation Tallies := (gmap string Z) (only parsing).

Definition Tallies_default : Tallies :=
  list_to_map ((λ vote, (Vote_as_ref vote, 0)) <$> Vote_iter).

(** The [find_map] of [Tallies::consensus] over the entries in key order. *)
Fixpoint find_consensus {E} (quorum : Z) (l : list (string * Z)) : result E (option Vote) :=
  match l with
  | [] => Ok None
  | (vote, tally) :: l =>
      if bool_decide (quorum ≤ tally) then Some <$> expect (Vote_parse vote)
      else find_consensus quorum l
  end.
Definition Tallies_consensus {E} (self : Tallies) (quorum : Z) : result E (option Vote) :=
  find_consensus quorum (entries self).

Definition Tallies_tally (self : Tallies) (vote : Vote) (weight : Z) : Tallies :=
  let key := Vote_as_ref vote in
  let tally := saturating_add u128_max (default 0 (self !! key)) weight in
  <[key := tally]> self.

(** [PollResults(Vec<Option<Vote>>)] *)
Definition PollResults_difference (self rhs : list (option Vote))
    : result Error (list (option Vote)) :=
  if bool_decide (length self ≠ length rhs) then Err PollResultsLengthUnequal
  else Ok ((λ '(lhs, rhs),
        if bool_decide (is_Some lhs ∧ rhs = None) then lhs else None) <$> zip self rhs).

Record PollState := mkPollState {
  ps_poll_id : PollId;
  ps_results : list (option Vote);
  ps_consensus_participants : list string
}.

Inductive PollStatus := InProgress | Expired | Finished.
#[global] Instance PollStatus_eq_dec : EqDecision PollStatus.
Proof. solve_decision. Defined.

Record Participation := mkParticipation { p_weight : Z; voted : bool }.

Record WeightedPoll := mkPoll {
  poll_id : PollId;
  poll_quorum : Z;
  expires_at : Z;
  poll_size : Z;
  tallies : list Tallies;
  finished : bool;
  participation : gmap string Participation
}.

Definition new (poll_id : PollId) (snapshot : Snapshot) (expiry : Z) (poll_size : nat)
    : WeightedPoll :=
  let participation := (λ p, mkParticipation (weight p) false) <$> participants snapshot in
  mkPoll poll_id (quorum snapshot) expiry (Z.of_nat poll_size)
    (replicate poll_size Tallies_default) false participation.

Definition finish (self : WeightedPoll) (block_height : Z) : result Error WeightedPoll :=
  if finished self then Err PollNotInProgress
  else if bool_decide (block_height < expires_at self) then Err PollNotEnded
  else Ok (mkPoll (poll_id self) (poll_quorum self) (expires_at self) (poll_size self)
             (tallies self) true (participation self)).

Definition results {E} (self : WeightedPoll) : result E (list (option Vote)) :=
  try_map (λ t, Tallies_consensus t (poll_quorum self)) (tallies self).

(** Whether a participant's votes agree with every result that has a consensus. *)
Definition voted_consensus (votes : list Vote) (results : list (option Vote)) : bool :=
  forallb (λ '(vote, result), bool_decide (result = None ∨ result = Some vote))
    (zip votes results).

Definition state {E} (self : WeightedPoll) (voting_history : gmap string (list Vote))
    : result E PollState :=
  results ← try_map (λ t, Tallies_consensus t (poll_quorum self)) (tallies self);
  let consensus_participants := omap (λ '(address, _),
    votes ← voting_history !! address;
    if voted_consensus votes results then Some address else None)
    (entries (participation self)) in
  Ok (mkPollState (poll_id self) results consensus_participants).

Definition consensus (self : WeightedPoll) (idx : nat) : result Error (option Vote) :=
  t ← ok_or MessageIndexOutOfBounds (tallies self !! idx);
  Tallies_consensus t (poll_quorum self).

(** The [zip] of the running tallies with the votes. *)
Fixpoint tally_votes (ts : list Tallies) (votes : list Vote) (weight : Z) : list Tallies :=
  match ts, votes with
  | t :: ts, vote :: votes => Tallies_tally t vote weight :: tally_votes ts votes weight
  | ts, _ => ts
  end.

Definition cast_vote (self : WeightedPoll) (block_height : Z) (sender : Addr)
    (votes : list Vote) : result Error WeightedPoll :=
  pt ← ok_or NotParticipant (participation self !! sender);
  if bool_decide (expires_at self ≤ block_height) then Err PollExpired
  else if bool_decide (Z.of_nat (length votes) ≠ poll_size self) then Err InvalidVoteSize
  else if voted pt then Err AlreadyVoted
  else Ok (mkPoll (poll_id self) (poll_quorum self) (expires_at self) (poll_size self)
             (tally_votes (tallies self) votes (p_weight pt)) (finished self)
             (<[sender := mkParticipation (p_weight pt) true]> (participation self))).

Definition status (self : WeightedPoll) (current_height : Z) : PollStatus :=
  if finished self then Finished
  else if bool_decide (expires_at self ≤ current_height) then Expired
  else InProgress.

(** *** The votes behind the tallies

    [history] maps every address that voted to its votes, as the contracts store
    them; [voted_weight p history i v] is the weight that voted [v] on item [i]. *)

Definition choice (history : gmap string (list Vote)) (a : string) (i : nat) : option Vote :=
  vs ← history !! a; vs !! i.

Definition voted_weight (p : WeightedPoll) (history : gmap string (list Vote)) (i : nat)
    (v : Vote) : Z :=
  map_sum (λ a pt, if bool_decide (choice history a i = Some v) then p_weight pt else 0)
    (participation p).

Definition poll_weight (p : WeightedPoll) : Z := map_sum (λ _ pt, p_weight pt) (participation p).

(** The polls that arise from a snapshot by votes and by finishing, with the votes
    cast so far. *)
Inductive poll_reachable (s : Snapshot) : WeightedPoll → gmap string (list Vote) → Prop :=
  | reach_new poll_id expiry poll_size :
      poll_reachable s (new poll_id s expiry poll_size) ∅
  | reach_cast p history block_height sender votes p' :
      poll_reachable s p history →
      cast_vote p block_height sender votes = Ok p' →
      poll_reachable s p' (<[sender := votes]> history)
  | reach_finish p history block_height p' :
      poll_reachable s p history →
      finish p block_height = Ok p' →
      poll_reachable s p' history.

(** *** Tallies *)

Lemma Vote_parse_as_ref v : Vote_parse (Vote_as_ref v) = Some v.
Proof. by destruct v. Qed.

#[global] Instance Vote_as_ref_inj : Inj (=) (=) Vote_as_ref.
Proof. intros [] []; cbn; done. Qed.

(** A tally has exactly the three vote names as keys. *)
Definition tallies_of (t : Tallies) (w : Vote → Z) : Prop :=
  t = list_to_map ((λ v, (Vote_as_ref v, w v)) <$> Vote_iter).

Lemma tallies_of_lookup t w v : tallies_of t w → t !! Vote_as_ref v = Some (w v).
Proof. intros ->. by destruct v. Qed.

Lemma tallies_of_ext t w w' : (∀ v, w v = w' v) → tallies_of t w → tallies_of t w'.
Proof. intros Hw ->. unfold tallies_of. cbn. by rewrite !Hw. Qed.

Lemma tallies_of_default : tallies_of Tallies_default (λ _, 0).
Proof. reflexivity. Qed.

Lemma tallies_of_tally t w v x :
  tallies_of t w → w v + x ≤ u128_max →
  tallies_of (Tallies_tally t v x) (λ v', if bool_decide (v' = v) then w v' + x else w v').
Proof.
  intros Ht Hs. unfold Tallies_tally. rewrite (tallies_of_lookup _ _ v Ht). cbn.
  unfold saturating_add. rewrite Z.min_l by done. rewrite Ht. unfold tallies_of.
  apply map_eq; intros k. destruct v; cbn -[String.eqb];
    repeat (rewrite lookup_insert; case_decide; simplify_eq; try done).
Qed.

(** The iteration order of the names, and what [consensus] returns. *)
Lemma tallies_of_entries t w :
  tallies_of t w →
  entries t = [("FailedOnChain", w FailedOnChain); ("NotFound", w VoteNotFound);
               ("SucceededOnChain", w SucceededOnChain)].
Proof. intros ->. vm_compute. reflexivity. Qed.

(** *** The invariant of a poll *)

Record poll_inv (p : WeightedPoll) (h : gmap string (list Vote)) : Prop := {
  inv_size : Z.of_nat (length (tallies p)) = poll_size p;
  inv_weights a pt : participation p !! a = Some pt → 1 ≤ p_weight pt;
  inv_total : poll_weight p ≤ u128_max;
  inv_history a : is_Some (h !! a) ↔ ∃ pt, participation p !! a = Some pt ∧ voted pt = true;
  inv_votes a vs : h !! a = Some vs → Z.of_nat (length vs) = poll_size p;
  inv_tallies i t : tallies p !! i = Some t → tallies_of t (voted_weight p h i)
}.

Lemma voted_weight_nonneg p h i v :
  (∀ a pt, participation p !! a = Some pt → 1 ≤ p_weight pt) → 0 ≤ voted_weight p h i v.
Proof. intros Hw. apply map_sum_nonneg. intros a pt Ha%Hw. case_bool_decide; lia. Qed.

(** Two different votes on one item are cast by disjoint sets of participants. *)
Lemma voted_weight_disjoint p h i v v' :
  (∀ a pt, participation p !! a = Some pt → 1 ≤ p_weight pt) → v ≠ v' →
  voted_weight p h i v + voted_weight p h i v' ≤ poll_weight p.
Proof.
  intros Hw Hv. unfold voted_weight, poll_weight. rewrite <-map_sum_add. apply map_sum_le.
  intros a pt Ha%Hw. repeat case_bool_decide; try lia. congruence.
Qed.

Lemma voted_weight_cast p h s pt votes i v p' :
  participation p !! s = Some pt → h !! s = None →
  participation p' = <[s := mkParticipation (p_weight pt) true]> (participation p) →
  voted_weight p' (<[s:=votes]> h) i v =
    voted_weight p h i v + (if bool_decide (votes !! i = Some v) then p_weight pt else 0).
Proof.
  intros Hs Hh Hp. unfold voted_weight.
  rewrite Hp, map_sum_insert_delete, (map_sum_delete _ (participation p) s pt Hs).
  unfold choice. rewrite Hh, lookup_insert_eq. cbn.
  rewrite (bool_decide_eq_false_2 (None = Some v)) by done.
  rewrite (map_sum_ext _ (λ a pt, if bool_decide ((h !! a ≫= λ vs, vs !! i) = Some v)
                                  then p_weight pt else 0)); [lia|].
  intros a q Ha. apply lookup_delete_Some in Ha as [Hne _]. by rewrite lookup_insert_ne.
Qed.

(** A participant that has not voted leaves room for its weight. *)
Lemma voted_weight_room p h s pt i v :
  (∀ a pt, participation p !! a = Some pt → 1 ≤ p_weight pt) →
  participation p !! s = Some pt → h !! s = None →
  voted_weight p h i v + p_weight pt ≤ poll_weight p.
Proof.
  intros Hw Hs Hh. unfold voted_weight, poll_weight.
  rewrite !(map_sum_delete _ (participation p) s pt Hs).
  rewrite (bool_decide_eq_false_2 (choice h s i = Some v)) by (unfold choice; by rewrite Hh).
  assert (map_sum (λ a pt, if bool_decide (choice h a i = Some v) then p_weight pt else 0)
            (delete s (participation p)) ≤ map_sum (λ _ pt, p_weight pt)
            (delete s (participation p))); [|lia].
  apply map_sum_le. intros a q [_ Ha%Hw]%lookup_delete_Some. case_bool_decide; lia.
Qed.

Lemma poll_weight_cast p s pt p' :
  participation p !! s = Some pt →
  participation p' = <[s := mkParticipation (p_weight pt) true]> (participation p) →
  poll_weight p' = poll_weight p.
Proof.
  intros Hs Hp. unfold poll_weight. rewrite Hp, map_sum_insert, Hs. cbn. lia.
Qed.

Lemma tally_votes_length ts votes w : length (tally_votes ts votes w) = length ts.
Proof. revert votes; induction ts as [|t ts IH]; intros [|v votes]; cbn; auto. Qed.

Lemma tally_votes_lookup ts votes w i t v :
  ts !! i = Some t → votes !! i = Some v →
  tally_votes ts votes w !! i = Some (Tallies_tally t v w).
Proof.
  revert ts votes; induction i as [|i IH]; intros [|t' ts] [|v' votes]; cbn; intros; simplify_eq;
    auto.
Qed.

Lemma cast_vote_Ok p height s votes p' :
  cast_vote p height s votes = Ok p' ↔
  ∃ pt, participation p !! s = Some pt ∧ height < expires_at p ∧
    Z.of_nat (length votes) = poll_size p ∧ voted pt = false ∧
    p' = mkPoll (poll_id p) (poll_quorum p) (expires_at p) (poll_size p)
           (tally_votes (tallies p) votes (p_weight pt)) (finished p)
           (<[s := mkParticipation (p_weight pt) true]> (participation p)).
Proof.
  unfold cast_vote. split.
  - intros H; ok_inv. repeat ok_case. breflect. ok_inv. eexists.
    repeat split; eauto; lia.
  - intros (pt & -> & ? & ? & Hv & ->). cbn.
    rewrite !bool_decide_eq_false_2 by (rewrite ?not_not; lia || naive_solver). by rewrite Hv.
Qed.

Lemma poll_inv_cast p h height s votes p' :
  poll_inv p h → cast_vote p height s votes = Ok p' → poll_inv p' (<[s:=votes]> h).
Proof.
  intros [Hsz Hw Htot Hh Hvs Ht] (pt & Hs & Hexp & Hlen & Hv & ->)%cast_vote_Ok.
  assert (h !! s = None) as Hnone.
  { apply eq_None_not_Some. intros (q & Hq & Hq')%Hh. congruence. }
  split; cbn.
  - by rewrite tally_votes_length.
  - intros a q Ha. apply lookup_insert_Some in Ha as [[<- <-]|[_ Ha]]; cbn; eauto.
  - by erewrite poll_weight_cast.
  - intros a. destruct (decide (a = s)) as [->|Hne].
    + rewrite !lookup_insert_eq. split; [eauto|]. eauto.
    + by rewrite !lookup_insert_ne, Hh by done.
  - intros a vs [[<- <-]|[_ ?]]%lookup_insert_Some; eauto.
  - intros i t' Hi.
    assert (i < length (tallies p))%nat as Hlt.
    { apply lookup_lt_Some in Hi. by rewrite tally_votes_length in Hi. }
    destruct (lookup_lt_is_Some_2 (tallies p) i Hlt) as [t Hti].
    destruct (lookup_lt_is_Some_2 votes i ltac:(lia)) as [v Hvi].
    erewrite tally_votes_lookup in Hi by done. simplify_eq.
    pose proof (Ht i t Hti) as Htt.
    unshelve epose proof (tallies_of_tally t _ v (p_weight pt) Htt _) as Hnew.
    + etrans; [by eapply voted_weight_room|done].
    + eapply tallies_of_ext; [|exact Hnew]. intros u. cbn beta.
      rewrite (voted_weight_cast p h s pt) by done.
      rewrite Hvi. repeat case_bool_decide; simplify_eq; lia.
Qed.

Lemma poll_inv_new id (s : Snapshot) expiry n :
  (∀ a p, participants s !! a = Some p → 1 ≤ weight p) →
  total_weight (participants s) ≤ u128_max →
  poll_inv (new id s expiry n) ∅ ∧ poll_weight (new id s expiry n) = total_weight (participants s).
Proof.
  intros Hw Htot.
  assert (poll_weight (new id s expiry n) = total_weight (participants s)) as Hpw.
  { unfold poll_weight, total_weight, new; cbn. generalize (participants s) as m. intros m.
    induction m as [|k x m Hk IH] using map_ind; [by rewrite fmap_empty, !map_sum_empty|].
    rewrite fmap_insert, !map_sum_insert_new; [cbn; lia|done|by rewrite lookup_fmap, Hk]. }
  split; [|done]. split; cbn.
  - by rewrite length_replicate.
  - intros a pt Ha. rewrite lookup_fmap in Ha. apply fmap_Some in Ha as (q & Hq & ->). cbn. eauto.
  - by rewrite Hpw.
  - intros a. rewrite lookup_empty. split; [by intros []|].
    intros (pt & Ha & Hv). rewrite lookup_fmap in Ha. apply fmap_Some in Ha as (q & Hq & ->). done.
  - intros a vs. by rewrite lookup_empty.
  - intros i t [-> _]%lookup_replicate.
    apply (tallies_of_ext _ (λ _, 0)); [|apply tallies_of_default].
    intros v. symmetry. apply map_sum_zero. done.
Qed.

Lemma poll_inv_finish p h height p' :
  poll_inv p h → finish p height = Ok p' → poll_inv p' h.
Proof.
  intros [? ? ? ? ? ?] H. unfold finish in H. repeat ok_case. ok_inv. by split.
Qed.

(** What every poll inherits from its snapshot. *)
Definition snapshot_ok (s : Snapshot) : Prop :=
  (∀ a p, participants s !! a = Some p → 1 ≤ weight p) ∧
  total_weight (participants s) ≤ u128_max ∧
  total_weight (participants s) < 2 * quorum s.

Lemma poll_reachable_inv s p h :
  snapshot_ok s → poll_reachable s p h →
  poll_inv p h ∧ poll_quorum p = quorum s ∧ poll_weight p = total_weight (participants s).
Proof.
  intros (Hw & Htot & Hmaj). induction 1 as [id e n|p h b a vs p' Hr IH Hc|p h b p' Hr IH Hf].
  - destruct (poll_inv_new id s e n Hw Htot). done.
  - destruct IH as (Hi & Hq & Hpw). split; [by eapply poll_inv_cast|].
    apply cast_vote_Ok in Hc as (pt & Hpt & _ & _ & _ & ->). split; [done|].
    by rewrite <-Hpw; eapply poll_weight_cast.
  - destruct IH as (Hi & Hq & Hpw). split; [by eapply poll_inv_finish|].
    unfold finish in Hf. repeat ok_case. ok_inv. done.
Qed.

(** The consensus of a tally whose weights leave at most one vote above the quorum
    does not depend on the order in which the names are visited. *)
Lemma Tallies_consensus_spec {E} t w q :
  tallies_of t w →
  (∀ v v', q ≤ w v → q ≤ w v' → v = v') →
  ∃ o, @Tallies_consensus E t q = Ok o ∧ ∀ v, o = Some v ↔ q ≤ w v.
Proof.
  intros Ht Hu. unfold Tallies_consensus. rewrite (tallies_of_entries t w Ht). cbn.
  repeat case_bool_decide; cbn; eexists; (split; [done|]); intros v; split;
    try (intros; simplify_eq; done); try (intros; f_equal; by apply Hu);
    destruct v; done.
Qed.

Lemma consensus_spec p h i t :
  poll_inv p h → poll_weight p < 2 * poll_quorum p → tallies p !! i = Some t →
  ∃ o, (∀ E, @Tallies_consensus E t (poll_quorum p) = Ok o) ∧
    ∀ v, o = Some v ↔ poll_quorum p ≤ voted_weight p h i v.
Proof.
  intros Hinv Hmaj Hi.
  pose proof (inv_tallies _ _ Hinv i t Hi) as Ht.
  assert (∀ v v', poll_quorum p ≤ voted_weight p h i v → poll_quorum p ≤ voted_weight p h i v' →
    v = v') as Hu.
  { intros v v' Hv Hv'. destruct (decide (v = v')) as [|Hne]; [done|].
    pose proof (voted_weight_disjoint p h i v v' (inv_weights _ _ Hinv) Hne). lia. }
  destruct (Tallies_consensus_spec (E:=unit) t _ _ Ht Hu) as (o & Ho & Hspec). exists o.
  split; [|done]. intros E'. revert Ho. unfold Tallies_consensus.
  generalize (entries t). intros l. induction l as [|[k x] l IH]; cbn; [congruence|].
  case_bool_decide; [|done]. destruct (Vote_parse k); cbn; congruence.
Qed.

(** One step of the life of a poll: somebody votes, or the poll is finished. *)
Inductive poll_step : WeightedPoll → WeightedPoll → Prop :=
  | step_cast p block_height sender votes p' :
      cast_vote p block_height sender votes = Ok p' → poll_step p p'
  | step_finish p block_height p' : finish p block_height = Ok p' → poll_step p p'.

Lemma results_spec p h :
  poll_inv p h → poll_weight p < 2 * poll_quorum p →
  ∃ rs, (∀ E, @results E p = Ok rs) ∧ length rs = length (tallies p) ∧
    ∀ i, consensus p i = match rs !! i with
                         | Some o => Ok o | None => Err MessageIndexOutOfBounds end.
Proof.
  intros Hinv Hmaj.
  assert (∀ n, ∃ rs, (∀ E, try_map (λ t, @Tallies_consensus E t (poll_quorum p))
                             (drop n (tallies p)) = Ok rs) ∧
    Forall2 (λ t o, ∀ E, @Tallies_consensus E t (poll_quorum p) = Ok o) (drop n (tallies p)) rs)
    as Hall.
  { intros n. remember (length (tallies p) - n)%nat as k eqn:Hk.
    revert n Hk. induction k as [|k IH]; intros n Hk.
    - exists []. rewrite drop_ge by lia. split; [done|constructor].
    - destruct (lookup_lt_is_Some_2 (tallies p) n ltac:(lia)) as [t Ht].
      destruct (consensus_spec p h n t Hinv Hmaj Ht) as (o & Ho & _).
      destruct (IH (S n) ltac:(lia)) as (rs & Hrs & Hf). exists (o :: rs).
      rewrite (drop_S _ _ _ Ht). split; [|by constructor].
      intros E. cbn. rewrite Ho. cbn. rewrite Hrs. done. }
  destruct (Hall 0%nat) as (rs & Hrs & Hf). exists rs. split; [done|]. rewrite drop_0 in Hf.
  split; [symmetry; by eapply Forall2_length|].
  intros i. unfold consensus. destruct (tallies p !! i) as [t|] eqn:Hi; cbn.
  - destruct (Forall2_lookup_l _ _ _ _ _ Hf Hi) as (o & -> & Ho). apply Ho.
  - rewrite (proj2 (lookup_ge_None rs i)); [done|].
    rewrite <-(Forall2_length _ _ _ Hf). by apply lookup_ge_None.
Qed.

Lemma voted_consensus_spec vs rs :
  length vs = length rs →
  voted_consensus vs rs = true ↔ ∀ i v, rs !! i = Some (Some v) → vs !! i = Some v.
Proof.
  revert rs; induction vs as [|v vs IH]; intros [|r rs] Hlen; cbn in *; try done.
  unfold voted_consensus in *. rewrite andb_true_iff, IH, bool_decide_eq_true by lia. split.
  - intros [Hr Hrest] [|i] u; cbn; [|eauto]. intros [= ->]. destruct Hr; simplify_eq; done.
  - intros H. split; [|intros i u Hi; apply (H (S i) u Hi)].
    destruct r as [u|]; [right|by left]. by destruct (H 0%nat u eq_refl).
Qed.

End voting.

(** * Properties *)

Import snapshot voting.

Lemma snapshot_new_Ok t ps :
  threshold.majority_wf t → valid_participants ps →
  ∃ s, (∀ E, @snapshot.new E t ps = Ok s) ∧ snapshot_ok s ∧
    participants s = (foldl collect_participant (0, ∅) ps).2 ∧
    1 ≤ quorum s ≤ sum_list (weight <$> ps) ∧
    (quorum s - 1) * threshold.m_denominator t
      < sum_list (weight <$> ps) * threshold.m_numerator t
      ≤ quorum s * threshold.m_denominator t.
Proof.
  intros [[Hn Hd] Hm] (Hne & Hw & Hs). cbn in *.
  pose proof (collect_weight ps (0, ∅) Hw ltac:(done) ltac:(cbn; lia)) as Hcw.
  destruct (collect_total ps (0, ∅) Hw) as [Hpos Htot]; [cbn; intros a p; by rewrite lookup_empty|].
  assert (1 ≤ sum_list (weight <$> ps)) as Hone.
  { destruct Hw as [|p ps Hp Hps]; [done|]. csimpl.
    assert (0 ≤ sum_list (weight <$> ps)); [|lia].
    apply sum_list_nonneg, Forall_fmap. eapply Forall_impl; [exact Hps|]. cbn; lia. }
  unfold snapshot.new. destruct (foldl collect_participant (0, ∅) ps) as [tw m] eqn:Hf.
  cbn [fst snd] in *. unfold total_weight in Htot. rewrite map_sum_empty in Htot.
  rewrite Z.add_0_l in Hcw, Htot. subst tw.
  destruct (mul_ceil_spec (E:=unit) (sum_list (weight <$> ps)) (threshold.m_numerator t)
    (threshold.m_denominator t)) as (q & Hq & Hlo & Hhi); [lia..|].
  assert (1 ≤ q) by nia.
  assert (∀ E, @mul_ceil E (sum_list (weight <$> ps)) (threshold.m_numerator t)
    (threshold.m_denominator t) = Ok q) as HqE.
  { intros E. revert Hq. unfold mul_ceil. repeat case_bool_decide; done || congruence. }
  exists (mkSnapshot q m). split.
  { intros E. rewrite HqE. cbn. unfold nonempty.uint_try_from.
    by rewrite bool_decide_eq_false_2 by lia. }
  unfold snapshot_ok, total_weight. cbn. repeat split; eauto; try lia. nia.
Qed.

(** The quorum of a snapshot is the ceiling of the threshold times the total
    weight, and it is a strict majority: for every majority threshold and every
    non-empty list of participants with positive weights that add up within 128 bits,
    [Snapshot::new] does not panic, twice the quorum exceeds the total weight of the
    stored participants, and the quorum is reachable (at most the total weight). *)
Theorem snapshot_quorum_majority (t : threshold.MajorityThreshold) (ps : list Participant) :
  threshold.majority_wf t → valid_participants ps →
  ∃ s, @snapshot.new unit t ps = Ok s ∧
    total_weight (participants s) < 2 * quorum s ∧
    1 ≤ quorum s ≤ sum_list (weight <$> ps) ∧
    (quorum s - 1) * threshold.m_denominator t
      < sum_list (weight <$> ps) * threshold.m_numerator t
      ≤ quorum s * threshold.m_denominator t.
Proof.
  intros Ht Hp. destruct (snapshot_new_Ok t ps Ht Hp) as (s & Hs & (_ & _ & ?) & _ & ? & ?).
  eauto 10.
Qed.

Definition three_participants : list Participant :=
  [mkParticipant "a" 1; mkParticipant "b" 1; mkParticipant "c" 1].
Definition two_thirds : threshold.MajorityThreshold := threshold.mkMajorityThreshold 2 3.

Lemma two_thirds_wf : threshold.majority_wf two_thirds.
Proof. repeat split; done. Qed.
Lemma three_participants_valid : valid_participants three_participants.
Proof.
  split; [done|]. split; [|done].
  unfold three_participants. repeat apply Forall_cons_2; [done..|apply Forall_nil_2].
Qed.

Lemma snapshot_quorum_majority_witness :
  ∃ s, @snapshot.new unit two_thirds three_participants = Ok s ∧
    total_weight (participants s) < 2 * quorum s.
Proof.
  destruct (snapshot_quorum_majority two_thirds three_participants two_thirds_wf
    three_participants_valid) as (s & Hs & Hm & _). eauto.
Defined.

Lemma poll_consensus_spec s p history i :
  snapshot_ok s → poll_reachable s p history → (i < length (tallies p))%nat →
  ∃ o, consensus p i = Ok o ∧
    ∀ v, o = Some v ↔ quorum s ≤ voted_weight p history i v.
Proof.
  intros Hs Hr Hi. pose proof Hs as (_ & _ & Hmaj).
  destruct (poll_reachable_inv s p history Hs Hr) as (Hinv & Hq & Hw).
  destruct (lookup_lt_is_Some_2 _ _ Hi) as [t Ht].
  destruct (consensus_spec p history i t Hinv ltac:(lia) Ht) as (o & Ho & Hspec).
  exists o. unfold consensus. rewrite Ht. cbn. rewrite <-Hq. auto.
Qed.

(** C5: A poll's result is what the votes say, and no two results can win. In every
    poll that arises from a majority snapshot by votes, the consensus on an item is
    computed without panic, and it is [v] exactly when the participants that voted [v]
    on it hold at least the quorum; hence at most one vote reaches it and the order in
    which the tallies are visited does not matter. *)
Theorem poll_consensus_exact (s : Snapshot) (p : WeightedPoll)
    (history : gmap string (list Vote)) (i : nat) :
  snapshot_ok s → poll_reachable s p history → (i < length (tallies p))%nat →
  ∃ o, consensus p i = Ok o ∧
    ∀ v, o = Some v ↔ quorum s ≤ voted_weight p history i v.
Proof. apply poll_consensus_spec. Qed.

Definition snapshot_abc : Snapshot :=
  mkSnapshot 2 (list_to_map ((λ p, (address p, p)) <$> three_participants)).
Definition poll_abc : WeightedPoll := voting.new 1 snapshot_abc 100 1.

Lemma snapshot_abc_ok : snapshot_ok snapshot_abc.
Proof.
  split; [|split; vm_compute; done]. intros a p. cbn.
  rewrite !lookup_insert_Some, lookup_empty. naive_solver.
Qed.

(** The same poll after two votes. *)
Definition poll_a : WeightedPoll :=
  default poll_abc (ok (cast_vote poll_abc 5 "a" [SucceededOnChain])).
Definition poll_ab : WeightedPoll :=
  default poll_a (ok (cast_vote poll_a 6 "b" [SucceededOnChain])).
Definition history_ab : gmap string (list Vote) :=
  <["b":=[SucceededOnChain]]> (<["a":=[SucceededOnChain]]> ∅).

Lemma poll_ab_reachable : poll_reachable snapshot_abc poll_ab history_ab.
Proof.
  apply (reach_cast _ poll_a _ 6); [|reflexivity].
  apply (reach_cast _ poll_abc _ 5); [apply (reach_new _ 1 100 1)|reflexivity].
Qed.

Lemma poll_consensus_exact_witness : consensus poll_ab 0 = Ok (Some SucceededOnChain).
Proof.
  destruct (poll_consensus_exact _ _ _ 0 snapshot_abc_ok poll_ab_reachable
    ltac:(apply Nat.ltb_lt; reflexivity)) as (o & -> & Ho).
  f_equal. apply Ho. vm_compute. done.
Defined.

Lemma poll_step_reachable s p history p' :
  poll_reachable s p history → poll_step p p' → ∃ history', poll_reachable s p' history'.
Proof.
  intros Hr Hstep. destruct Hstep as [p b a vs p' Hc|p b p' Hf].
  - exists (<[a:=vs]> history). by eapply reach_cast.
  - exists history. by eapply reach_finish.
Qed.

Lemma poll_step_consensus s p history p' i v :
  snapshot_ok s → poll_reachable s p history → poll_step p p' →
  consensus p i = Ok (Some v) → consensus p' i = Ok (Some v).
Proof.
  intros Hs Hr Hstep Hc.
  destruct (poll_reachable_inv s p history Hs Hr) as (Hinv & Hq & Hw).
  pose proof Hs as (_ & _ & Hmaj).
  destruct Hstep as [p b a vs p' Hcast|p b p' Hf].
  - pose proof (poll_inv_cast _ _ _ _ _ _ Hinv Hcast) as Hinv'.
    apply cast_vote_Ok in Hcast as (pt & Hpt & _ & _ & Hv & ->).
    set (p' := mkPoll _ _ _ _ _ _ _) in *.
    assert (history !! a = None) as Hn.
    { apply eq_None_not_Some. intros (q & Hq1 & Hq2)%(inv_history _ _ Hinv). congruence. }
    unfold consensus in Hc. destruct (tallies p !! i) as [t|] eqn:Ht; [cbn in Hc|done].
    assert (∃ t', tallies p' !! i = Some t') as [t' Ht'].
    { apply lookup_lt_is_Some_2. cbn. rewrite tally_votes_length. by eapply lookup_lt_Some. }
    assert (poll_weight p' = poll_weight p) as Hw' by (by eapply poll_weight_cast).
    assert (poll_quorum p' = poll_quorum p) as Hq' by reflexivity.
    destruct (consensus_spec p history i t Hinv ltac:(lia) Ht) as (o & Ho & Hspec).
    destruct (consensus_spec p' _ i t' Hinv' ltac:(lia) Ht') as (o' & Ho' & Hspec').
    unfold consensus. rewrite Ht'. cbn [ok_or mbind result_bind]. rewrite Ho'. f_equal.
    rewrite Ho in Hc. injection Hc as Hc. apply Hspec'. apply Hspec in Hc.
    pose proof (inv_weights _ _ Hinv a pt Hpt).
    rewrite (voted_weight_cast p history a pt vs i v p' Hpt Hn eq_refl), Hq'.
    case_bool_decide; lia.
  - unfold finish in Hf. repeat ok_case. ok_inv. done.
Qed.

(** A consensus is never revised: once an item of a poll has the consensus [v],
    it has the consensus [v] after any further votes and after the poll is finished. *)
Theorem poll_consensus_stable (s : Snapshot) (p p' : WeightedPoll)
    (history : gmap string (list Vote)) (i : nat) (v : Vote) :
  snapshot_ok s → poll_reachable s p history → rtc poll_step p p' →
  consensus p i = Ok (Some v) → consensus p' i = Ok (Some v).
Proof.
  intros Hs Hr Hsteps. revert history Hr.
  induction Hsteps as [p|p q p' Hstep _ IH]; intros history Hr Hc; [done|].
  destruct (poll_step_reachable _ _ _ _ Hr Hstep) as [h' Hr'].
  eapply IH; [done|]. by apply (poll_step_consensus s p history).
Qed.

Lemma poll_consensus_stable_witness :
  ∃ p', cast_vote poll_ab 7 "c" [VoteNotFound] = Ok p' ∧
    consensus p' 0 = Ok (Some SucceededOnChain).
Proof.
  destruct (cast_vote poll_ab 7 "c" [VoteNotFound]) as [p'| |] eqn:Hc;
    [|vm_compute in Hc; discriminate Hc..].
  exists p'. split; [done|].
  apply (poll_consensus_stable snapshot_abc poll_ab p' history_ab 0 SucceededOnChain
    snapshot_abc_ok poll_ab_reachable); [|vm_compute; reflexivity].
  apply rtc_once. by apply (step_cast _ 7 "c" [VoteNotFound]).
Defined.

(** A finished poll is final. From the block at which a poll is finished on, every
    vote is rejected (with [NotParticipant] or [PollExpired]), the poll cannot be
    finished again, and its results are those it had when it was finished. *)
Theorem finished_poll_is_final (p p' : WeightedPoll) (block_height : Z) :
  finish p block_height = Ok p' →
  @results unit p' = results p ∧
  ∀ later sender votes, block_height ≤ later →
    status p' later = Finished ∧
    finish p' later = Err PollNotInProgress ∧
    cast_vote p' later sender votes =
      Err (if bool_decide (participation p !! sender = None) then NotParticipant
           else PollExpired).
Proof.
  intros H. unfold finish in H. repeat ok_case. ok_inv. breflect. split; [done|].
  intros later sender votes Hl. repeat split. unfold cast_vote. cbn.
  destruct (participation p !! sender); cbn; [|done].
  by rewrite bool_decide_eq_true_2 by lia.
Qed.

Lemma finished_poll_is_final_witness :
  ∃ p', finish poll_ab 100 = Ok p' ∧ cast_vote p' 120 "c" [VoteNotFound] = Err PollExpired.
Proof.
  destruct (finish poll_ab 100) as [p'| |] eqn:Hf; [|vm_compute in Hf; discriminate Hf..].
  exists p'. split; [done|].
  destruct (finished_poll_is_final poll_ab p' 100 Hf) as [_ H].
  destruct (H 120 "c" [VoteNotFound] ltac:(done)) as (_ & _ & ->).
  vm_compute. reflexivity.
Defined.

Lemma state_spec s p history :
  snapshot_ok s → poll_reachable s p history →
  ∃ st, (∀ E, @state E p history = Ok st) ∧ (∀ E, @results E p = Ok (ps_results st)) ∧
    ps_poll_id st = poll_id p ∧
    NoDup (ps_consensus_participants st) ∧
    StronglySorted String.le (ps_consensus_participants st) ∧
    ∀ a, a ∈ ps_consensus_participants st ↔
      ∃ votes, history !! a = Some votes ∧
        ∀ i v, consensus p i = Ok (Some v) → votes !! i = Some v.
Proof.
  intros Hs Hr. pose proof Hs as (_ & _ & Hmaj).
  destruct (poll_reachable_inv s p history Hs Hr) as (Hinv & Hq & Hw).
  destruct (results_spec p history Hinv ltac:(lia)) as (rs & Hrs & Hlen & Hcons).
  unfold state. unfold results in *. setoid_rewrite Hrs. cbn.
  eexists. split; [done|]. cbn. split; [done|]. split; [done|].
  set (f := λ '(address, _), _).
  assert (∀ l, omap f l `sublist_of` l.*1) as Hsub.
  { intros l. induction l as [|[a pt] l IH]; cbn; [constructor|].
    destruct (history !! a) as [vs|]; cbn; [|by constructor].
    destruct (voted_consensus vs rs); by constructor. }
  split; [eapply sublist_NoDup, Hsub; apply entries_NoDup_fst|].
  split; [eapply StronglySorted_sublist; [apply Hsub|]; apply StronglySorted_key_le_fst,
    entries_sorted|].
  intros a. rewrite list_elem_of_omap. split.
  - intros ([a' pt] & Hin & Hf). cbn in Hf. apply bind_Some in Hf as (vs & Hvs & Hf).
    destruct (voted_consensus vs rs) eqn:Hv; [simplify_eq|done]. exists vs. split; [done|].
    apply (inv_votes _ _ Hinv) in Hvs as Hl. pose proof (inv_size _ _ Hinv).
    rewrite voted_consensus_spec in Hv by lia. intros i v Hi. apply Hv.
    rewrite Hcons in Hi. destruct (rs !! i); congruence.
  - intros (vs & Hvs & Hag). destruct (inv_history _ _ Hinv a) as [Hin _].
    destruct Hin as (pt & Hpt & _); [eauto|].
    exists (a, pt). rewrite elem_of_entries. split; [done|]. cbn. rewrite Hvs. cbn.
    replace (voted_consensus vs rs) with true; [done|]. symmetry.
    apply (inv_votes _ _ Hinv) in Hvs as Hl. pose proof (inv_size _ _ Hinv).
    apply voted_consensus_spec; [lia|]. intros i v Hi. apply Hag. by rewrite Hcons, Hi.
Qed.

(** Who is rewarded for a poll. [WeightedPoll::state] does not panic, and it lists,
    in address order and without repetition, exactly the participants that voted and
    whose vote agrees with the consensus on every item that reached one. *)
Theorem consensus_participants_exact (s : Snapshot) (p : WeightedPoll)
    (history : gmap string (list Vote)) :
  snapshot_ok s → poll_reachable s p history →
  ∃ st, @state unit p history = Ok st ∧ results p = @Ok unit _ (ps_results st) ∧
    NoDup (ps_consensus_participants st) ∧
    StronglySorted String.le (ps_consensus_participants st) ∧
    ∀ a, a ∈ ps_consensus_participants st ↔
      ∃ votes, history !! a = Some votes ∧
        ∀ i v, consensus p i = Ok (Some v) → votes !! i = Some v.
Proof.
  intros Hs Hr. destruct (state_spec s p history Hs Hr) as (st & Hst & Hrs & _ & Hrest). eauto.
Qed.

Lemma consensus_participants_exact_witness :
  ∃ st, @state unit poll_ab history_ab = Ok st ∧ "a" ∈ ps_consensus_participants st.
Proof.
  destruct (consensus_participants_exact _ _ _ snapshot_abc_ok poll_ab_reachable)
    as (st & Hst & _ & _ & _ & Hin).
  exists st. split; [done|]. apply Hin. exists [SucceededOnChain].
  split; [reflexivity|]. intros [|i] v; vm_compute; congruence.
Defined.
