(* ===== verification/MsgId.v ===== *)
(** * Message identifiers

    [packages/axelar-wasm-std/src/msg_id]: the formats a chain can use for the
    identifiers of its messages, with the parser and the printer of each, and
    [packages/starknet-checked-felt], the field elements of one of the formats.

    Text is a list of bytes ([ascii]).  A regular expression of the source is a
    boolean recogniser; because the character classes of the first group never
    contain the separator, the capture groups are the two sides of its first
    occurrence.  The hexadecimal, base 58 and bech32 codecs are other crates:
    they are the operations of the classes below, whose laws are what those
    crates document. *)

From Stdlib Require Import Ascii.
From S2P Require Import Prelude Std.

Notation text := (list ascii) (only parsing).
Notation Hash := (list ascii) (only parsing).

Definition text_of (s : string) : text := String.list_ascii_of_string s.

(** ** Positional numerals

    The digits of a number in base [B], most significant first, and the value of a
    list of digits.  The fuel of [to_digits] is the number of binary digits. *)

Fixpoint to_digits (B : Z) (fuel : nat) (n : Z) (acc : list Z) : list Z :=
  match fuel with
  | O => acc
  | S fuel => if bool_decide (n = 0) then acc else to_digits B fuel (n / B) (n mod B :: acc)
  end.
Definition digits (B n : Z) : list Z := to_digits B (S (Z.to_nat (Z.log2 n))) n [].
Definition digits_val (B : Z) (l : list Z) : Z := foldl (λ acc d, acc * B + d) 0 l.
Definition is_digit_of (B d : Z) : Prop := 0 ≤ d < B.
Definition no_leading_zero (l : list Z) : Prop := head l ≠ Some 0.

Section numerals.
Context (B : Z) (HB : 2 ≤ B).

Lemma digits_val_snoc l d : digits_val B (l ++ [d]) = digits_val B l * B + d.
Proof. unfold digits_val. by rewrite foldl_app. Qed.

Lemma digits_val_cons d l :
  digits_val B (d :: l) = d * B ^ Z.of_nat (length l) + digits_val B l.
Proof.
  induction l as [|e l IH] using rev_ind; [unfold digits_val; cbn; lia|].
  rewrite app_comm_cons, !digits_val_snoc, IH, length_app, Nat2Z.inj_add, Z.pow_add_r by lia.
  cbn. lia.
Qed.

Lemma digits_val_nonneg l : Forall (is_digit_of B) l → 0 ≤ digits_val B l.
Proof.
  induction l as [|d l IH] using rev_ind; [done|]. intros [Hl Hd]%Forall_app.
  rewrite digits_val_snoc. specialize (IH Hl). apply Forall_singleton in Hd as [? ?]. nia.
Qed.

Lemma digits_val_bound l : Forall (is_digit_of B) l → digits_val B l < B ^ Z.of_nat (length l).
Proof.
  induction l as [|d l IH] using rev_ind; [done|]. intros [Hl Hd]%Forall_app.
  rewrite digits_val_snoc, length_app, Nat2Z.inj_add, Z.pow_add_r, Z.pow_1_r by lia.
  specialize (IH Hl). apply Forall_singleton in Hd as [? ?]. nia.
Qed.

Lemma no_leading_zero_snoc l d :
  no_leading_zero (l ++ [d]) ↔ no_leading_zero l ∧ (l = [] → d ≠ 0).
Proof. destruct l; unfold no_leading_zero; cbn; naive_solver. Qed.

Lemma digits_val_pos l :
  Forall (is_digit_of B) l → no_leading_zero l → l ≠ [] → B ^ (Z.of_nat (length l) - 1) ≤ digits_val B l.
Proof.
  induction l as [|d l IH] using rev_ind; [done|].
  intros [Hl Hd]%Forall_app [Hz Hd0]%no_leading_zero_snoc _.
  apply Forall_singleton in Hd as [? ?]. rewrite digits_val_snoc, length_app.
  destruct (decide (l = [])) as [->|Hne]; [cbn; specialize (Hd0 eq_refl); lia|].
  specialize (IH Hl Hz Hne).
  assert (1 ≤ Z.of_nat (length l)) by (destruct l; cbn; [done|lia]).
  replace (Z.of_nat (length l + length [d]) - 1) with (Z.of_nat (length l) - 1 + 1) by (cbn; lia).
  rewrite Z.pow_add_r by lia. nia.
Qed.

Lemma digits_val_inj l k :
  Forall (is_digit_of B) l → Forall (is_digit_of B) k →
  no_leading_zero l → no_leading_zero k → digits_val B l = digits_val B k → l = k.
Proof.
  revert k; induction l as [|d l IH] using rev_ind; intros k Hl Hk Hzl Hzk Hv.
  - destruct (decide (k = [])) as [->|Hne]; [done|].
    pose proof (digits_val_pos k Hk Hzk Hne). change (digits_val B []) with 0 in Hv.
    pose proof (Z.pow_pos_nonneg B (Z.of_nat (length k) - 1)). destruct k; [done|cbn in *; lia].
  - destruct k as [|e k _] using rev_ind.
    + assert (l ++ [d] ≠ []) as Hne by (by destruct l).
      pose proof (digits_val_pos _ Hl Hzl Hne). change (digits_val B []) with 0 in Hv.
      pose proof (Z.pow_pos_nonneg B (Z.of_nat (length (l ++ [d])) - 1)) as Hp.
      rewrite length_app in *; cbn in *; lia.
    + apply Forall_app in Hl as [Hl [Hd1 Hd2]%Forall_singleton].
      apply Forall_app in Hk as [Hk [He1 He2]%Forall_singleton].
      apply no_leading_zero_snoc in Hzl as [Hzl _]. apply no_leading_zero_snoc in Hzk as [Hzk _].
      rewrite !digits_val_snoc in Hv.
      assert (digits_val B l = digits_val B k) as Hlk by nia.
      rewrite (IH k) by done. rewrite Hlk in Hv. f_equal. f_equal. lia.
Qed.

Lemma to_digits_spec fuel n acc :
  0 ≤ n < 2 ^ Z.of_nat fuel →
  ∃ l, to_digits B fuel n acc = l ++ acc ∧ digits_val B l = n ∧
       Forall (is_digit_of B) l ∧ no_leading_zero l.
Proof.
  revert n acc; induction fuel as [|fuel IH]; intros n acc Hn; cbn [to_digits].
  - exists []. cbn in *. split_and!; [done|unfold digits_val; cbn; lia|done|done].
  - case_bool_decide as H0; [by exists []; subst|].
    assert (0 ≤ n / B < 2 ^ Z.of_nat fuel) as Hdiv.
    { rewrite Nat2Z.inj_succ, Z.pow_succ_r in Hn by lia. split; [apply Z.div_pos; lia|].
      apply Z.div_lt_upper_bound; nia. }
    destruct (IH (n / B) (n mod B :: acc) Hdiv) as (l & -> & Hv & Hl & Hz).
    pose proof (Z.mod_pos_bound n B). pose proof (Z.div_mod n B).
    exists (l ++ [n mod B]). rewrite digits_val_snoc, no_leading_zero_snoc, <-app_assoc.
    split_and!; [done|lia|apply Forall_app; split; [done|by constructor; [split; lia|]]|done|].
    intros ->. unfold digits_val in Hv; cbn in Hv. lia.
Qed.

Lemma digits_spec n :
  0 ≤ n → digits_val B (digits B n) = n ∧ Forall (is_digit_of B) (digits B n) ∧
          no_leading_zero (digits B n).
Proof.
  intros Hn. unfold digits.
  destruct (to_digits_spec (S (Z.to_nat (Z.log2 n))) n []) as (l & -> & ?); [|by rewrite app_nil_r].
  rewrite Nat2Z.inj_succ, Z2Nat.id by apply Z.log2_nonneg.
  destruct (decide (n = 0)) as [->|]; [done|]. pose proof (Z.log2_spec n). lia.
Qed.

Lemma digits_of_val l :
  Forall (is_digit_of B) l → no_leading_zero l → digits B (digits_val B l) = l.
Proof.
  intros Hl Hz. pose proof (digits_val_nonneg l Hl).
  destruct (digits_spec (digits_val B l)) as (? & ? & ?); [done|]. by apply digits_val_inj.
Qed.
End numerals.

(** ** Character classes and decimal integers *)

Definition code (c : ascii) : Z := Z.of_nat (nat_of_ascii c).
Definition in_range (lo hi c : ascii) : bool :=
  bool_decide (code lo ≤ code c ∧ code c ≤ code hi).

(** [[0-9]], [[1-9]] and [[0-9a-f]] *)
Definition is_digit (c : ascii) : bool := in_range "0" "9" c.
Definition is_digit_nonzero (c : ascii) : bool := in_range "1" "9" c.
Definition is_hex (c : ascii) : bool := is_digit c || in_range "a" "f" c.

(** [[1-9A-HJ-NP-Za-km-z]] *)
Definition is_base58 (c : ascii) : bool :=
  is_digit_nonzero c || in_range "A" "H" c || in_range "J" "N" c || in_range "P" "Z" c
  || in_range "a" "k" c || in_range "m" "z" c.

(** The decimal groups of the patterns: a nonzero number without leading zeros,
    and such a number or zero. *)
Definition is_decimal_nonzero (l : text) : bool :=
  match l with c :: l => is_digit_nonzero c && forallb is_digit l | [] => false end.
Definition is_decimal (l : text) : bool :=
  bool_decide (l = ["0"%char]) || is_decimal_nonzero l.

Definition digit (c : ascii) : option Z :=
  if is_digit c then Some (code c - code "0") else None.

(** [str::parse] to an unsigned integer of largest value [max]: an optional plus
    sign, at least one digit, and no overflow on the way. *)
Fixpoint parse_digits (max acc : Z) (l : text) : option Z :=
  match l with
  | [] => Some acc
  | c :: l =>
      d ← digit c;
      m ← checked_mul max acc 10;
      acc ← checked_add max m d;
      parse_digits max acc l
  end.
Definition parse_uint (max : Z) (l : text) : option Z :=
  let l := match l with
           | c :: ((_ :: _) as l') => if bool_decide (c = "+"%char) then l' else l
           | _ => l
           end in
  match l with [] => None | _ => parse_digits max 0 l end.

(** [Display] of an unsigned integer: its decimal digits, without leading zeros. *)
Definition digit_char (d : Z) : ascii := ascii_of_nat (Z.to_nat (d + code "0")).
Definition print_uint (n : Z) : text :=
  if bool_decide (n = 0) then ["0"%char] else digit_char <$> digits 10 n.

Definition uint_to_string (n : Z) : string := String.string_of_list_ascii (print_uint n).

(** The text around the first occurrence of a separator. *)
Fixpoint split_at (sep : ascii) (l : text) : option (text * text) :=
  match l with
  | [] => None
  | c :: l =>
      if bool_decide (c = sep) then Some ([], l)
      else '(before, after) ← split_at sep l; Some (c :: before, after)
  end.

Lemma split_at_Some sep l p q :
  split_at sep l = Some (p, q) ↔ l = p ++ sep :: q ∧ sep ∉ p.
Proof.
  revert p q; induction l as [|c l IH]; intros p q; cbn.
  - split; [done|]. by intros [H _]; destruct p.
  - case_bool_decide as Hc.
    + subst. split.
      * intros [= <- <-]. split; [done|set_solver].
      * intros [H Hp]. destruct p as [|d p]; cbn in H; [by simplify_eq|].
        simplify_eq. set_solver.
    + destruct (split_at sep l) as [[p' q']|] eqn:Hs; cbn; split.
      * intros [= <- <-]. destruct (proj1 (IH p' q') eq_refl) as [-> ?]. set_solver.
      * intros [H Hp]. destruct p as [|d p]; cbn in H; [by simplify_eq|]. injection H as -> H.
        assert (Some (p', q') = Some (p, q)) as Heq by (apply IH; set_solver). by simplify_eq.
      * done.
      * intros [H Hp]. destruct p as [|d p]; cbn in H; [by simplify_eq|]. injection H as -> H.
        assert (None = Some (p, q)); [|done]. apply IH. set_solver.
Qed.

(** *** Decimal integers: parsing and printing are inverse *)

Definition digit_value (c : ascii) : Z := code c - code "0".

Lemma digit_value_range c : is_digit c = true → is_digit_of 10 (digit_value c).
Proof.
  unfold is_digit, in_range, is_digit_of, digit_value. rewrite bool_decide_eq_true.
  change (code "0") with 48. change (code "9") with 57. lia.
Qed.

Lemma digit_char_value c : is_digit c = true → digit_char (digit_value c) = c.
Proof.
  intros _. unfold digit_char, digit_value.
  replace (code c - code "0" + code "0") with (code c) by lia.
  unfold code. by rewrite Nat2Z.id, ascii_nat_embedding.
Qed.

Lemma digit_char_spec d :
  is_digit_of 10 d → is_digit (digit_char d) = true ∧ digit_value (digit_char d) = d.
Proof.
  intros [? ?].
  assert (d = 0 ∨ d = 1 ∨ d = 2 ∨ d = 3 ∨ d = 4 ∨ d = 5 ∨ d = 6 ∨ d = 7 ∨ d = 8 ∨ d = 9) by lia.
  destruct_or?; subst; vm_compute; done.
Qed.

Lemma is_digit_nonzero_value c :
  is_digit_nonzero c = true ↔ is_digit c = true ∧ digit_value c ≠ 0.
Proof.
  unfold is_digit_nonzero, is_digit, in_range, digit_value. rewrite !bool_decide_eq_true.
  change (code "0") with 48. change (code "1") with 49. change (code "9") with 57. lia.
Qed.

Lemma foldl_value_ge acc l :
  0 ≤ acc → Forall (is_digit_of 10) l → acc ≤ foldl (λ a d, a * 10 + d) acc l.
Proof.
  intros Hacc Hl; revert acc Hacc; induction Hl as [|d l [? ?] Hl IH]; intros acc Hacc; [done|].
  cbn. specialize (IH (acc * 10 + d)). lia.
Qed.

Lemma digits_of_text l :
  forallb is_digit l = true → Forall (is_digit_of 10) (digit_value <$> l).
Proof.
  intros Hl. apply Forall_fmap. eapply Forall_impl; [by apply forallb_True, Is_true_eq_left|].
  intros ? ?. by apply digit_value_range, Is_true_eq_true.
Qed.

Lemma parse_digits_spec max acc l :
  0 ≤ acc → forallb is_digit l = true → acc ≤ max →
  parse_digits max acc l =
    let v := foldl (λ a d, a * 10 + d) acc (digit_value <$> l) in
    if bool_decide (v ≤ max) then Some v else None.
Proof.
  revert acc; induction l as [|c l IH]; intros acc Hacc Hl Hmax; cbn in *.
  - by rewrite bool_decide_eq_true_2.
  - apply andb_true_iff in Hl as [Hc Hl]. unfold digit. rewrite Hc. cbn.
    destruct (digit_value_range c Hc) as [? ?]. unfold digit_value in *.
    pose proof (digits_of_text l Hl) as Hds.
    pose proof (foldl_value_ge (acc * 10 + (code c - code "0")) _ ltac:(lia) Hds).
    unfold checked_mul. case_bool_decide; cbn.
    2:{ rewrite bool_decide_eq_false_2; [done|]. unfold digit_value in *; lia. }
    unfold checked_add. case_bool_decide; cbn.
    2:{ rewrite bool_decide_eq_false_2; [done|]. unfold digit_value in *; lia. }
    by apply IH; [lia|done|lia].
Qed.

(** Texts without sign: the value of the digits, when it fits. *)
Lemma parse_uint_digits max l :
  0 ≤ max → forallb is_digit l = true → l ≠ [] →
  parse_uint max l =
    let v := digits_val 10 (digit_value <$> l) in if bool_decide (v ≤ max) then Some v else None.
Proof.
  intros Hm Hl Hne. unfold parse_uint.
  replace (match l with c :: ((_ :: _) as l') => _ | _ => l end) with l.
  - destruct l as [|c l]; [done|]. by rewrite parse_digits_spec.
  - destruct l as [|c [|d l]]; [done..|]. rewrite bool_decide_eq_false_2; [done|].
    intros ->. done.
Qed.

Lemma is_decimal_digits l :
  is_decimal l = true → forallb is_digit l = true ∧ l ≠ [] ∧
  (l = ["0"%char] ∨ no_leading_zero (digit_value <$> l)).
Proof.
  unfold is_decimal, is_decimal_nonzero. intros [H|H]%orb_true_iff.
  - apply bool_decide_eq_true in H as ->. naive_solver.
  - destruct l as [|c l]; [done|]. apply andb_true_iff in H as [[Hc Hv]%is_digit_nonzero_value Hl].
    cbn. rewrite Hc, Hl. split_and!; [done..|]. right. unfold no_leading_zero; cbn. naive_solver.
Qed.

Lemma print_uint_decimal n :
  0 ≤ n → is_decimal (print_uint n) = true ∧ digits_val 10 (digit_value <$> print_uint n) = n.
Proof.
  intros Hn. unfold print_uint. case_bool_decide as H0; [by subst|].
  destruct (digits_spec 10 ltac:(lia) n Hn) as (Hv & Hd & Hz).
  assert (digit_value <$> (digit_char <$> digits 10 n) = digits 10 n) as Hval.
  { rewrite <-list_fmap_compose. clear Hv Hz. induction Hd as [|d l H ? IH]; [done|].
    cbn. destruct (digit_char_spec d H) as [_ ->]. by f_equal. }
  rewrite Hval. split; [|done]. unfold is_decimal. apply orb_true_iff; right.
  destruct (digits 10 n) as [|d l] eqn:Hl; [by unfold digits_val in Hv; cbn in Hv|].
  cbn. inversion Hd as [|?? Hd1 Hd2]; subst. destruct (digit_char_spec d Hd1) as [Hc Hcv].
  apply andb_true_iff; split.
  - apply is_digit_nonzero_value. rewrite Hcv. split; [done|]. intros ->. by apply Hz.
  - clear -Hd2. induction Hd2 as [|e l He ? IH]; [done|]. cbn.
    destruct (digit_char_spec e He) as [-> _]. done.
Qed.

Lemma parse_print_uint max n : 0 ≤ n ≤ max → parse_uint max (print_uint n) = Some n.
Proof.
  intros [Hn Hm]. destruct (print_uint_decimal n Hn) as [Hd Hv].
  destruct (is_decimal_digits _ Hd) as (? & ? & _).
  rewrite parse_uint_digits by (done || lia). cbn. rewrite Hv. by rewrite bool_decide_eq_true_2.
Qed.

Lemma print_parse_uint max l n :
  0 ≤ max → is_decimal l = true → parse_uint max l = Some n → print_uint n = l ∧ 0 ≤ n ≤ max.
Proof.
  intros Hm Hl Hp. destruct (is_decimal_digits l Hl) as (Hd & Hne & Hz).
  rewrite parse_uint_digits in Hp by done. cbn in Hp. case_bool_decide as Hb; [|done].
  injection Hp as <-. pose proof (digits_of_text l Hd) as Hds.
  pose proof (digits_val_nonneg 10 ltac:(lia) _ Hds). split; [|lia].
  destruct Hz as [->|Hz]; [done|]. unfold print_uint. rewrite bool_decide_eq_false_2.
  - rewrite digits_of_val by (done || lia). rewrite <-list_fmap_compose.
    clear -Hd. induction l as [|c l IH]; [done|]. cbn in *. apply andb_true_iff in Hd as [? ?].
    rewrite digit_char_value by done. f_equal; auto.
  - intros H0. assert (digit_value <$> l = []) as Hnil by (by apply (digits_val_inj 10)).
    by destruct l.
Qed.

(** The printed number avoids the separators. *)
Lemma print_uint_digits n c : 0 ≤ n → c ∈ print_uint n → is_digit c = true.
Proof.
  intros Hn Hc. destruct (print_uint_decimal n Hn) as [Hd _].
  destruct (is_decimal_digits _ Hd) as (Hall & _ & _). rewrite forallb_forall in Hall.
  apply Hall. by apply list_elem_of_In.
Qed.

(** ** [String::from_utf8] *)
Module utf8.

Definition between (lo hi : Z) (c : ascii) : bool :=
  bool_decide (lo ≤ code c) && bool_decide (code c ≤ hi).
Definition tail_byte : ascii → bool := between 0x80 0xBF.

(** The well-formed sequences of one to four bytes. *)
Fixpoint valid (l : text) : bool :=
  match l with
  | [] => true
  | a :: l1 =>
      if between 0 0x7F a then valid l1
      else match l1 with
      | [] => false
      | b :: l2 =>
          if between 0xC2 0xDF a then tail_byte b && valid l2
          else match l2 with
          | [] => false
          | c :: l3 =>
              if between 0xE0 0xEF a then
                between (if bool_decide (code a = 0xE0) then 0xA0 else 0x80)
                        (if bool_decide (code a = 0xED) then 0x9F else 0xBF) b &&
                tail_byte c && valid l3
              else match l3 with
              | [] => false
              | d :: l4 =>
                  between 0xF0 0xF4 a &&
                  between (if bool_decide (code a = 0xF0) then 0x90 else 0x80)
                          (if bool_decide (code a = 0xF4) then 0x8F else 0xBF) b &&
                  tail_byte c && tail_byte d && valid l4
              end
          end
      end
  end.

Definition from_utf8 (s : string) : option string := if valid (text_of s) then Some s else None.

End utf8.

(** ** Codecs of other crates

    [HexCodec] is [cosmwasm_std::HexBinary] and the [hex] crate; [Base58Codec] is
    [bs58]; [Bech32Codec] is [bech32], with Unicode's [char::is_alphanumeric] and
    the size limit of [Regex::new]; [FeltFormat] is the [LowerHex] formatting of
    [starknet_types_core::felt::Felt]. *)

Class HexCodec := {
  to_hex : text → text;
  from_hex : text → option text;
  to_hex_lower : ∀ b, forallb is_hex (to_hex b) = true;
  to_hex_length : ∀ b, length (to_hex b) = (2 * length b)%nat;
  from_to_hex : ∀ b, from_hex (to_hex b) = Some b;
  to_from_hex : ∀ s b, forallb is_hex s = true → from_hex s = Some b → to_hex b = s
}.

Class Base58Codec := {
  bs58_encode : text → text;
  bs58_decode : text → option text;
  bs58_encode_alphabet : ∀ b, forallb is_base58 (bs58_encode b) = true;
  bs58_encode_length_32 : ∀ b, length b = 32%nat →
    (32 ≤ length (bs58_encode b) ≤ 44)%nat;
  bs58_encode_length_64 : ∀ b, length b = 64%nat →
    (64 ≤ length (bs58_encode b) ≤ 88)%nat;
  bs58_decode_encode : ∀ b, bs58_decode (bs58_encode b) = Some b;
  bs58_encode_decode : ∀ s b, bs58_decode s = Some b → bs58_encode b = s
}.

Class Bech32Codec := {
  chars_all_alphanumeric : text → bool;
  regex_new_ok : text → Z → bool;
  checked_hrpstring : text → option (text * text)
}.

(** The big-endian value of a byte string. *)
Definition be_val (b : text) : Z := digits_val 256 (code <$> b).

Definition byte_of (d : Z) : ascii := ascii_of_nat (Z.to_nat d).

Lemma code_range c : is_digit_of 256 (code c).
Proof. unfold is_digit_of, code. pose proof (nat_ascii_bounded c). lia. Qed.

Lemma code_byte_of d : is_digit_of 256 d → code (byte_of d) = d.
Proof.
  intros [? ?]. unfold code, byte_of. rewrite nat_ascii_embedding by lia. lia.
Qed.

Lemma byte_of_code c : byte_of (code c) = c.
Proof. unfold byte_of, code. by rewrite Nat2Z.id, ascii_nat_embedding. Qed.

Lemma code_byte_of_list l : Forall (is_digit_of 256) l → code <$> (byte_of <$> l) = l.
Proof. induction 1 as [|d l Hd ? IH]; cbn; [done|]. by rewrite code_byte_of, IH. Qed.

Lemma digits_val_zeros B n l : digits_val B (replicate n 0 ++ l) = digits_val B l.
Proof. unfold digits_val. rewrite foldl_app. f_equal. by induction n. Qed.

(** [to_be_bytes] of an integer of [n] bytes. *)
Fixpoint be_digits (n : nat) (z : Z) : list Z :=
  match n with O => [] | S n => be_digits n (z / 256) ++ [z mod 256] end.
Definition to_be_bytes (n : nat) (z : Z) : string :=
  String.string_of_list_ascii (byte_of <$> be_digits n z).

Lemma be_digits_spec n z :
  0 ≤ z < 256 ^ Z.of_nat n →
  length (be_digits n z) = n ∧ Forall (is_digit_of 256) (be_digits n z) ∧
  digits_val 256 (be_digits n z) = z.
Proof.
  revert z. induction n as [|n IH]; intros z Hz; cbn.
  - cbn in Hz. split_and!; [done|constructor|cbn; lia].
  - rewrite Nat2Z.inj_succ, Z.pow_succ_r in Hz by lia.
    destruct (IH (z / 256)) as (Hl & Hd & Hv).
    { split; [apply Z.div_pos; lia|apply Z.div_lt_upper_bound; lia]. }
    split_and!.
    + rewrite length_app, Hl. cbn. lia.
    + apply Forall_app. split; [done|]. apply Forall_singleton. apply Z.mod_pos_bound. lia.
    + unfold digits_val in *. rewrite foldl_app, Hv. cbn.
      pose proof (Z.div_mod z 256 ltac:(lia)). lia.
Qed.

Lemma to_be_bytes_length n z : String.length (to_be_bytes n z) = n.
Proof.
  unfold to_be_bytes.
  assert (∀ l, String.length (String.string_of_list_ascii l) = length l) as ->
    by (intros l; induction l; cbn; congruence).
  rewrite length_fmap. revert z. induction n as [|n IH]; intros z; cbn; [done|].
  rewrite length_app, IH. cbn. lia.
Qed.

Lemma be_val_to_be_bytes n z :
  0 ≤ z < 256 ^ Z.of_nat n → be_val (text_of (to_be_bytes n z)) = z.
Proof.
  intros (_ & Hd & Hv)%be_digits_spec. unfold be_val, to_be_bytes, text_of.
  by rewrite String.list_ascii_of_string_of_list_ascii, code_byte_of_list.
Qed.

(** Every value below [256 ^ n] is the value of [n] bytes. *)
Lemma be_val_surj n z : 0 ≤ z < 256 ^ Z.of_nat n → ∃ b, length b = n ∧ be_val b = z.
Proof.
  intros Hz. destruct (digits_spec 256 ltac:(lia) z ltac:(lia)) as (Hv & Hd & Hnz).
  assert (length (digits 256 z) ≤ n)%nat as Hlen.
  { destruct (decide (digits 256 z = [])) as [->|Hne]; [cbn; lia|].
    pose proof (digits_val_pos 256 ltac:(lia) _ Hd Hnz Hne) as Hp. rewrite Hv in Hp.
    destruct (le_lt_dec (length (digits 256 z)) n); [done|]. exfalso.
    assert (256 ^ Z.of_nat n ≤ 256 ^ (Z.of_nat (length (digits 256 z)) - 1)); [|lia].
    apply Z.pow_le_mono_r; lia. }
  set (l := replicate (n - length (digits 256 z)) 0 ++ digits 256 z).
  assert (Forall (is_digit_of 256) l) as Hl.
  { apply Forall_app; split; [|done]. apply Forall_replicate. by unfold is_digit_of. }
  exists (byte_of <$> l). unfold be_val. rewrite code_byte_of_list by done. subst l.
  rewrite digits_val_zeros, length_fmap, length_app, length_replicate. split; [lia|done].
Qed.

Class FeltFormat `{HexCodec} := {
  felt_lower_hex_064 : Z → text;
  felt_lower_hex_064_spec : ∀ b, length b = 32%nat →
    felt_lower_hex_064 (be_val b) = to_hex b;
  felt_lower_hex_064_pad : ∀ z, 0 ≤ z < 2 ^ 252 →
    head (felt_lower_hex_064 z) = Some "0"%char
}.

(** ** Field elements ([packages/starknet-checked-felt/src/lib.rs]) *)
Module starknet_checked_felt.

Inductive CheckedFeltError := AddressPrefix | AddressLength | Overflowing | HexDecode.

Definition FELT_MAX_U256 : Z :=
  0x0800000000000011000000000000000000000000000000000000000000000000.

(** [str::trim_start_matches]: removes the prefix as often as it occurs. *)
Fixpoint trim_start_0x (l : text) : text :=
  match l with
  | c :: ((d :: l') as tl) =>
      if bool_decide (c = "0"%char ∧ d = "x"%char) then trim_start_0x l' else l
  | _ => l
  end.

Definition starts_with_0x (l : text) : bool := bool_decide (take 2 l = ["0"%char; "x"%char]).

(** [TryFrom<U256>] *)
Definition try_from_u256 (value : Z) : result CheckedFeltError Z :=
  _ ← ensure (bool_decide (value ≤ FELT_MAX_U256)) Overflowing; Ok value.

(** [FromStr] *)
Definition from_str `{HexCodec} (s : text) : result CheckedFeltError Z :=
  _ ← ensure (starts_with_0x s) AddressPrefix;
  let trimmed_addr := trim_start_0x s in
  _ ← ensure (bool_decide (length trimmed_addr = 64%nat)) AddressLength;
  felt_hex_bytes ← ok_or HexDecode (from_hex trimmed_addr);
  try_from_u256 (be_val felt_hex_bytes).

End starknet_checked_felt.

(** ** Formats ([msg_id/mod.rs] and its submodules) *)
Module msg_id.

Inductive Error :=
  | InvalidMessageID (id : text) (expected_format : string)
  | EventIndexOverflow (id : text)
  | InvalidTxHash (id : text)
  | InvalidTxDigest (id : text)
  | InvalidBech32mFormat (reason : string)
  | InvalidBech32m (input : text)
  | InvalidFieldElement (tx_id : text).

Inductive MessageIdFormat :=
  | FieldElementAndEventIndex
  | HexTxHashAndEventIndex
  | Base58TxDigestAndEventIndex
  | Base58SolanaTxSignatureAndEventIndex
  | HexTxHash
  | Bech32m (prefix : text) (length : Z).
#[global] Instance MessageIdFormat_eq_dec : EqDecision MessageIdFormat.
Proof. solve_decision. Defined.

(** The trait [MessageId]: a parser and a printer. *)
Class MessageId (T : Type) := {
  from_str : text → result Error T;
  to_string : T → text
}.

(** [0x] and 64 lower-case hexadecimal digits. *)
Definition is_hash_0x (l : text) : bool :=
  match l with
  | c :: d :: l => bool_decide (c = "0"%char ∧ d = "x"%char ∧ length l = 64%nat) && forallb is_hex l
  | _ => false
  end.

(** The [try_into] from a slice to an array of [n] bytes. *)
Definition to_array (n : nat) (b : text) : option text :=
  if bool_decide (length b = n) then Some b else None.

(** [REGEX.captures] for a pattern of a first group, a dash and a decimal. *)
Definition captures_index (group : text → bool) (message_id : text) : option (text * text) :=
  '(tx_id, event_index) ← split_at "-" message_id;
  if group tx_id && is_decimal event_index then Some (tx_id, event_index) else None.

Section formats.
Context `{HexCodec} `{Base58Codec} `{Bech32Codec} `{!FeltFormat}.

(** *** [tx_hash_event_index.rs] *)

Record HexTxHashAndEventIndex_id := mkHexIndex { hex_tx_hash : Hash; hex_event_index : Z }.

Definition hex_index_from_str (message_id : text) : result Error HexTxHashAndEventIndex_id :=
  '(tx_id, event_index) ←
    ok_or (InvalidMessageID message_id "^(0x[0-9a-f]{64})-(0|[1-9][0-9]*)$")
      (captures_index is_hash_0x message_id);
  bytes ← ok_or (InvalidTxHash message_id) (from_hex (drop 2 tx_id));
  tx_hash ← ok_or (InvalidTxHash message_id) (to_array 32 bytes);
  event_index ← ok_or (EventIndexOverflow message_id) (parse_uint u64_max event_index);
  Ok (mkHexIndex tx_hash event_index).

Definition hex_index_to_string (id : HexTxHashAndEventIndex_id) : text :=
  "0"%char :: "x"%char :: to_hex (hex_tx_hash id) ++ "-"%char :: print_uint (hex_event_index id).

#[global] Instance HexTxHashAndEventIndex_MessageId : MessageId HexTxHashAndEventIndex_id :=
  { from_str := hex_index_from_str; to_string := hex_index_to_string }.

(** *** [tx_hash.rs] *)

Record HexTxHash_id := mkHexTxHash { tx_hash : Hash }.

Definition tx_hash_from_str (message_id : text) : result Error HexTxHash_id :=
  _ ← ensure (is_hash_0x message_id) (InvalidMessageID message_id "^0x[0-9a-f]{64}$");
  bytes ← ok_or (InvalidTxHash message_id) (from_hex (drop 2 message_id));
  tx_hash ← ok_or (InvalidTxHash message_id) (to_array 32 bytes);
  Ok (mkHexTxHash tx_hash).

Definition tx_hash_to_string (id : HexTxHash_id) : text :=
  "0"%char :: "x"%char :: to_hex (tx_hash id).

#[global] Instance HexTxHash_MessageId : MessageId HexTxHash_id :=
  { from_str := tx_hash_from_str; to_string := tx_hash_to_string }.

(** *** [base_58_event_index.rs] *)

Record Base58TxDigestAndEventIndex_id := mkBase58Index { tx_digest : Hash; b58_event_index : Z }.

(** 32 to 44 characters of the alphabet. *)
Definition is_base58_digest (l : text) : bool :=
  bool_decide (32 ≤ length l ≤ 44)%nat && forallb is_base58 l.

Definition base58_index_from_str (message_id : text)
    : result Error Base58TxDigestAndEventIndex_id :=
  '(tx_id, event_index) ←
    ok_or (InvalidMessageID message_id "^([1-9A-HJ-NP-Za-km-z]{32,44})-(0|[1-9][0-9]*)$")
      (captures_index is_base58_digest message_id);
  bytes ← ok_or (InvalidTxDigest message_id) (bs58_decode tx_id);
  tx_digest ← ok_or (InvalidTxDigest message_id) (to_array 32 bytes);
  event_index ← ok_or (EventIndexOverflow message_id) (parse_uint u64_max event_index);
  Ok (mkBase58Index tx_digest event_index).

Definition base58_index_to_string (id : Base58TxDigestAndEventIndex_id) : text :=
  bs58_encode (tx_digest id) ++ "-"%char :: print_uint (b58_event_index id).

#[global] Instance Base58TxDigestAndEventIndex_MessageId
    : MessageId Base58TxDigestAndEventIndex_id :=
  { from_str := base58_index_from_str; to_string := base58_index_to_string }.

(** *** [base_58_solana_event_index.rs] *)

Record Base58Solana_id := mkSolana {
  raw_signature : text;
  inner_ix_group_index : Z;
  inner_ix_index : Z
}.

(** 64 to 88 characters of the alphabet. *)
Definition is_base58_signature (l : text) : bool :=
  bool_decide (64 ≤ length l ≤ 88)%nat && forallb is_base58 l.

Definition solana_captures (message_id : text) : option (text * text * text) :=
  '(signature, indices) ← split_at "-" message_id;
  '(group_index, ix_index) ← split_at "." indices;
  if is_base58_signature signature && is_decimal_nonzero group_index
     && is_decimal_nonzero ix_index
  then Some (signature, group_index, ix_index) else None.

Definition decode_b58_signature (signature : text) : result Error text :=
  bytes ← ok_or (InvalidTxDigest signature) (bs58_decode signature);
  ok_or (InvalidTxDigest signature) (to_array 64 bytes).

(** [FromStr] of [nonempty::Uint32]. *)
Definition parse_nonempty_u32 (l : text) : option Z :=
  v ← parse_uint u32_max l; ok (nonempty.uint_try_from v).

Definition solana_from_str (message_id : text) : result Error Base58Solana_id :=
  '(signature, group_index, ix_index) ←
    ok_or (InvalidMessageID message_id
             "^([1-9A-HJ-NP-Za-km-z]{64,88})-([1-9][0-9]*)\.([1-9][0-9]*)$")
      (solana_captures message_id);
  raw_signature ← decode_b58_signature signature;
  inner_ix_group_index ←
    ok_or (EventIndexOverflow message_id) (parse_nonempty_u32 group_index);
  inner_ix_index ← ok_or (EventIndexOverflow message_id) (parse_nonempty_u32 ix_index);
  Ok (mkSolana raw_signature inner_ix_group_index inner_ix_index).

Definition solana_to_string (id : Base58Solana_id) : text :=
  bs58_encode (raw_signature id) ++ "-"%char ::
  print_uint (inner_ix_group_index id) ++ "."%char :: print_uint (inner_ix_index id).

#[global] Instance Base58Solana_MessageId : MessageId Base58Solana_id :=
  { from_str := solana_from_str; to_string := solana_to_string }.

(** *** [starknet_field_element_event_index.rs] *)

Record FieldElementAndEventIndex_id := mkFelt { felt_tx_hash : Z; felt_event_index : Z }.

(** [0x0] and 63 lower-case hexadecimal digits. *)
Definition is_felt_0x0 (l : text) : bool :=
  is_hash_0x l && bool_decide (l !! 2%nat = Some "0"%char).

Definition felt_from_str (message_id : text) : result Error FieldElementAndEventIndex_id :=
  '(tx_id, event_index) ←
    ok_or (InvalidMessageID message_id "^(0x0[0-9a-f]{63})-(0|[1-9][0-9]*)$")
      (captures_index is_felt_0x0 message_id);
  felt ← map_err (λ _, InvalidFieldElement tx_id) (starknet_checked_felt.from_str tx_id);
  event_index ← ok_or (EventIndexOverflow message_id) (parse_uint u64_max event_index);
  Ok (mkFelt felt event_index).

Definition felt_to_string (id : FieldElementAndEventIndex_id) : text :=
  "0"%char :: "x"%char :: felt_lower_hex_064 (felt_tx_hash id)
  ++ "-"%char :: print_uint (felt_event_index id).

#[global] Instance FieldElementAndEventIndex_MessageId
    : MessageId FieldElementAndEventIndex_id :=
  { from_str := felt_from_str; to_string := felt_to_string }.

(** *** [bech32m.rs] *)

Record Bech32mFormat := mkBech32m { encoded : text }.

(** The class [[02-9ac-hj-np-z]] of the data part. *)
Definition is_bech32_data (c : ascii) : bool :=
  bool_decide (c = "0"%char) || in_range "2" "9" c || bool_decide (c = "a"%char)
  || in_range "c" "h" c || in_range "j" "n" c || in_range "p" "z" c.

Definition verify_bech32m (input expected_prefix : text) : result Error unit :=
  '(hrp, data_no_checksum) ← ok_or (InvalidBech32m input) (checked_hrpstring input);
  _ ← ensure (bool_decide (hrp = expected_prefix)) (InvalidBech32m input);
  if bool_decide (data_no_checksum = []) then Err (InvalidBech32m input) else Ok tt.

Definition bech32m_captures (prefix : text) (data_part_length : Z) (message_id : text) : bool :=
  bool_decide (take (length prefix) message_id = prefix
               ∧ message_id !! length prefix = Some "1"%char
               ∧ Z.of_nat (length (drop (S (length prefix)) message_id)) = data_part_length)
  && forallb is_bech32_data (drop (S (length prefix)) message_id).

Definition bech32m_from_str (prefix : text) (len : Z) (message_id : text)
    : result Error Bech32mFormat :=
  _ ← ensure (bool_decide (prefix ≠ [] ∧ (length prefix ≤ 83)%nat))
        (InvalidBech32mFormat "Prefix size should be between 1 and 83");
  let data_part_length := saturating_sub (saturating_sub len (Z.of_nat (length prefix))) 1 in
  _ ← ensure (bool_decide (6 ≤ data_part_length))
        (InvalidBech32mFormat "The data part should be at least 6 characters long");
  _ ← ensure (chars_all_alphanumeric prefix)
        (InvalidBech32mFormat "The prefix should contain only Bech32m valid characters");
  _ ← ensure (regex_new_ok prefix data_part_length)
        (InvalidBech32mFormat "Failed to create regex");
  _ ← ensure (bech32m_captures prefix data_part_length message_id)
        (InvalidMessageID message_id
           ("Bech32m with '" +:+ String.string_of_list_ascii prefix +:+ "' prefix"));
  _ ← verify_bech32m message_id prefix;
  Ok (mkBech32m message_id).

Definition bech32m_to_string (id : Bech32mFormat) : text := encoded id.

(** *** [mod.rs]: the check the router and the verifiers call. *)
Definition verify_msg_id (message_id : string) (format : MessageIdFormat) : result Error unit :=
  let id := text_of message_id in
  match format with
  | FieldElementAndEventIndex => (λ _, tt) <$> felt_from_str id
  | HexTxHashAndEventIndex => (λ _, tt) <$> hex_index_from_str id
  | Base58TxDigestAndEventIndex => (λ _, tt) <$> base58_index_from_str id
  | Base58SolanaTxSignatureAndEventIndex => (λ _, tt) <$> solana_from_str id
  | HexTxHash => (λ _, tt) <$> tx_hash_from_str id
  | Bech32m prefix length => (λ _, tt) <$> bech32m_from_str prefix length id
  end.

(** *** What the trait promises

    [MessageIdLaws]: the parser accepts exactly the printed forms of the
    well-formed identifiers, so text and identifier determine each other. *)

Class MessageIdLaws (T : Type) `{MessageId T} := {
  id_wf : T → Prop;
  from_str_spec : ∀ m t, from_str m = Ok t ↔ to_string t = m ∧ id_wf t
}.

Lemma captures_index_Some group m t e :
  captures_index group m = Some (t, e) ↔
    m = t ++ "-"%char :: e ∧ "-"%char ∉ t ∧ group t = true ∧ is_decimal e = true.
Proof.
  unfold captures_index. split.
  - destruct (split_at "-" m) as [[t' e']|] eqn:Hs; cbn; [|done].
    apply split_at_Some in Hs as [-> ?].
    destruct (group t' && is_decimal e') eqn:Hg; [|done].
    apply andb_true_iff in Hg as [??]. naive_solver.
  - intros (-> & Ht & Hg & He). rewrite (proj2 (split_at_Some "-" _ t e)) by done.
    cbn. by rewrite Hg, He.
Qed.

Lemma to_array_Some n b b' : to_array n b = Some b' ↔ b' = b ∧ length b = n.
Proof. unfold to_array. case_bool_decide; naive_solver. Qed.

Lemma not_elem_of_class (P : ascii → bool) c l : forallb P l = true → P c = false → c ∉ l.
Proof.
  intros Hl Hc Hin. rewrite forallb_forall in Hl. apply list_elem_of_In, Hl in Hin. congruence.
Qed.

Lemma is_hash_0x_spec l :
  is_hash_0x l = true ↔
    ∃ h, l = "0"%char :: "x"%char :: h ∧ length h = 64%nat ∧ forallb is_hex h = true.
Proof.
  unfold is_hash_0x. destruct l as [|c [|d l]]; [naive_solver..|].
  rewrite andb_true_iff, bool_decide_eq_true. naive_solver.
Qed.

(** A prefixed hash and the 32 bytes it stands for. *)
Lemma hash_0x_decode l b :
  is_hash_0x l = true ∧ from_hex (drop 2 l) = Some b ∧ length b = 32%nat ↔
  l = "0"%char :: "x"%char :: to_hex b ∧ length b = 32%nat.
Proof.
  rewrite is_hash_0x_spec. split.
  - intros ((h & -> & ? & ?) & Hf & ?). cbn in Hf. by rewrite (to_from_hex h b).
  - intros [-> Hb]. change (drop 2 _) with (to_hex b). rewrite from_to_hex. split; [|done].
    exists (to_hex b). rewrite to_hex_length, to_hex_lower, Hb. done.
Qed.

Lemma hash_0x_no_dash b : "-"%char ∉ "0"%char :: "x"%char :: to_hex b.
Proof.
  pose proof (not_elem_of_class _ "-" _ (to_hex_lower b) eq_refl). set_solver.
Qed.

#[global] Program Instance HexTxHashAndEventIndex_laws
    : MessageIdLaws HexTxHashAndEventIndex_id :=
  { id_wf id := length (hex_tx_hash id) = 32%nat ∧ 0 ≤ hex_event_index id ≤ u64_max }.
Next Obligation.
  intros m [h i]; cbn [from_str to_string HexTxHashAndEventIndex_MessageId].
  unfold hex_index_from_str, hex_index_to_string; cbn. split.
  - intros Hf. ok_inv. destruct v as [t e]. ok_inv. simplify_eq.
    apply captures_index_Some in Hok as (-> & _ & Ht & He).
    apply to_array_Some in Hok1 as [-> Hlen].
    destruct (print_parse_uint u64_max e i) as [<- ?]; [done..|].
    by destruct (proj1 (hash_0x_decode t _) (conj Ht (conj Hok0 Hlen))) as [-> _].
  - intros [<- [Hlen Hi]]. pose proof (hash_0x_no_dash h) as Hnd.
    destruct (proj2 (hash_0x_decode _ h) (conj eq_refl Hlen)) as (Hg & Hfrom & _).
    destruct (print_uint_decimal i) as [Hd _]; [lia|].
    rewrite (proj2 (captures_index_Some is_hash_0x _ ("0"%char :: "x"%char :: to_hex h)
      (print_uint i))) by done.
    cbn -[drop]. rewrite Hfrom. cbn -[drop].
    rewrite (proj2 (to_array_Some 32 h h)) by done. cbn. by rewrite parse_print_uint.
Qed.

#[global] Program Instance HexTxHash_laws : MessageIdLaws HexTxHash_id :=
  { id_wf id := length (tx_hash id) = 32%nat }.
Next Obligation.
  intros m [h]; cbn [from_str to_string HexTxHash_MessageId].
  unfold tx_hash_from_str, tx_hash_to_string; cbn. split.
  - intros Hf. ok_inv. simplify_eq. apply to_array_Some in Hok1 as [-> Hlen].
    by destruct (proj1 (hash_0x_decode m _) (conj Hok (conj Hok0 Hlen))) as [-> _].
  - intros [<- Hlen].
    destruct (proj2 (hash_0x_decode _ h) (conj eq_refl Hlen)) as (Hg & Hfrom & _).
    rewrite Hg. cbn -[drop]. rewrite Hfrom. cbn -[drop].
    by rewrite (proj2 (to_array_Some 32 h h)) by done.
Qed.

Lemma base58_no_dash l : forallb is_base58 l = true → "-"%char ∉ l.
Proof. intros Hl. by apply (not_elem_of_class is_base58). Qed.

#[global] Program Instance Base58TxDigestAndEventIndex_laws
    : MessageIdLaws Base58TxDigestAndEventIndex_id :=
  { id_wf id := length (tx_digest id) = 32%nat ∧ 0 ≤ b58_event_index id ≤ u64_max }.
Next Obligation.
  intros m [d i]; cbn [from_str to_string Base58TxDigestAndEventIndex_MessageId].
  unfold base58_index_from_str, base58_index_to_string; cbn. split.
  - intros Hf. ok_inv. destruct v as [t e]. ok_inv. simplify_eq.
    apply captures_index_Some in Hok as (-> & _ & _ & He).
    apply to_array_Some in Hok1 as [-> Hlen]. apply bs58_encode_decode in Hok0 as ->.
    by destruct (print_parse_uint u64_max e i) as [<- ?].
  - intros [<- [Hlen Hi]]. destruct (print_uint_decimal i) as [Hd _]; [lia|].
    pose proof (bs58_encode_alphabet d) as Ha.
    rewrite (proj2 (captures_index_Some is_base58_digest _ (bs58_encode d) (print_uint i))).
    + cbn. rewrite bs58_decode_encode. cbn.
      rewrite (proj2 (to_array_Some 32 d d)) by done. cbn. by rewrite parse_print_uint.
    + split_and!; [done|by apply base58_no_dash| |done]. unfold is_base58_digest.
      rewrite Ha, bool_decide_eq_true_2; [done|]. by apply bs58_encode_length_32.
Qed.

Lemma solana_captures_Some m sig g x :
  solana_captures m = Some (sig, g, x) ↔
    m = sig ++ "-"%char :: g ++ "."%char :: x ∧ "-"%char ∉ sig ∧ "."%char ∉ g ∧
    is_base58_signature sig = true ∧ is_decimal_nonzero g = true ∧ is_decimal_nonzero x = true.
Proof.
  unfold solana_captures. split.
  - destruct (split_at "-" m) as [[s' i']|] eqn:Hs; cbn; [|done].
    destruct (split_at "." i') as [[g' x']|] eqn:Hi; cbn; [|done].
    apply split_at_Some in Hs as [-> ?]. apply split_at_Some in Hi as [-> ?].
    destruct (_ && _) eqn:Hg; [|done]. rewrite !andb_true_iff in Hg. naive_solver.
  - intros (-> & Hs & Hg & Hb1 & Hb2 & Hb3).
    rewrite (proj2 (split_at_Some "-" _ sig (g ++ "."%char :: x))) by done. cbn.
    rewrite (proj2 (split_at_Some "." _ g x)) by done. cbn. by rewrite Hb1, Hb2, Hb3.
Qed.

Lemma decimal_nonzero_spec l :
  is_decimal_nonzero l = true ↔ is_decimal l = true ∧ l ≠ ["0"%char].
Proof.
  unfold is_decimal. rewrite orb_true_iff, bool_decide_eq_true.
  split; [|naive_solver]. intros Hl. split; [by right|]. by intros ->.
Qed.

(** Nonzero 32-bit indices and their decimal texts. *)
Lemma parse_nonempty_u32_spec l n :
  is_decimal_nonzero l = true ∧ parse_nonempty_u32 l = Some n ↔
  print_uint n = l ∧ 1 ≤ n ≤ u32_max.
Proof.
  rewrite decimal_nonzero_spec. unfold parse_nonempty_u32. split.
  - intros [[Hl Hnz] Hp]. destruct (parse_uint u32_max l) as [v|] eqn:Hv; [|done]. cbn in Hp.
    destruct (print_parse_uint u32_max l v) as [<- ?]; [done..|].
    unfold nonempty.uint_try_from in Hp. case_bool_decide; [done|]. cbn in Hp. simplify_eq.
    split; [done|lia].
  - intros [<- Hn]. destruct (print_uint_decimal n) as [Hd Hv]; [lia|].
    rewrite parse_print_uint by lia. cbn. unfold nonempty.uint_try_from.
    rewrite bool_decide_eq_false_2 by lia. split; [|done]. split; [done|].
    intros Hp0. rewrite Hp0 in Hv. vm_compute in Hv. lia.
Qed.

Lemma decode_b58_signature_Ok s b :
  decode_b58_signature s = Ok b ↔ bs58_encode b = s ∧ length b = 64%nat.
Proof.
  unfold decode_b58_signature. split.
  - intros Hf. ok_inv. apply to_array_Some in Hf as [-> ?]. by apply bs58_encode_decode in Hok.
  - intros [<- Hb]. rewrite bs58_decode_encode. cbn. by rewrite (proj2 (to_array_Some 64 b b)).
Qed.

#[global] Program Instance Base58Solana_laws : MessageIdLaws Base58Solana_id :=
  { id_wf id := length (raw_signature id) = 64%nat ∧
      1 ≤ inner_ix_group_index id ≤ u32_max ∧ 1 ≤ inner_ix_index id ≤ u32_max }.
Next Obligation.
  intros m [sig g x]; cbn [from_str to_string Base58Solana_MessageId].
  unfold solana_from_str, solana_to_string; cbn. split.
  - intros Hf. ok_inv. destruct v as [[s' g'] x']. ok_inv. simplify_eq.
    apply solana_captures_Some in Hok as (-> & _ & _ & _ & Hg & Hx).
    apply decode_b58_signature_Ok in Hok0 as [<- Hlen].
    destruct (proj1 (parse_nonempty_u32_spec g' g)) as [<- ?]; [done|].
    by destruct (proj1 (parse_nonempty_u32_spec x' x)) as [<- ?].
  - intros [<- [Hlen [Hg Hx]]]. pose proof (bs58_encode_alphabet sig) as Ha.
    destruct (proj2 (parse_nonempty_u32_spec _ g) (conj eq_refl Hg)) as [Hdg Hpg].
    destruct (proj2 (parse_nonempty_u32_spec _ x) (conj eq_refl Hx)) as [Hdx Hpx].
    rewrite (proj2 (solana_captures_Some _ (bs58_encode sig) (print_uint g) (print_uint x))).
    + cbn. rewrite (proj2 (decode_b58_signature_Ok _ sig)) by done. cbn. by rewrite Hpg, Hpx.
    + split_and!; [done|by apply base58_no_dash| | |done..].
      * intros Hdot%print_uint_digits; [done|lia].
      * unfold is_base58_signature. rewrite Ha, bool_decide_eq_true_2; [done|].
        by apply bs58_encode_length_64.
Qed.

Lemma trim_start_0x_felt h :
  forallb is_hex h = true →
  starknet_checked_felt.trim_start_0x ("0"%char :: "x"%char :: h) = h.
Proof.
  intros Hh. destruct h as [|c [|d h]]; [done..|]. cbn.
  rewrite (bool_decide_eq_false_2 (c = _ ∧ _)); [done|]. intros [-> ->]. done.
Qed.

Lemma is_felt_0x0_spec l :
  is_felt_0x0 l = true ↔ ∃ h, l = "0"%char :: "x"%char :: h ∧ length h = 64%nat ∧
    forallb is_hex h = true ∧ head h = Some "0"%char.
Proof.
  unfold is_felt_0x0. rewrite andb_true_iff, is_hash_0x_spec, bool_decide_eq_true.
  split; [|naive_solver (by rewrite ?head_lookup in *)].
  intros [(h & -> & ? & ?) Hz]. exists h. by rewrite head_lookup.
Qed.

(** The text of a field element below the prime. *)
Lemma felt_from_str_Ok l f :
  is_felt_0x0 l = true ∧ starknet_checked_felt.from_str l = Ok f ↔
  l = "0"%char :: "x"%char :: felt_lower_hex_064 f ∧
  0 ≤ f ≤ starknet_checked_felt.FELT_MAX_U256.
Proof.
  unfold starknet_checked_felt.from_str, starknet_checked_felt.try_from_u256.
  rewrite is_felt_0x0_spec. split.
  - intros [(h & -> & Hl & Hh & Hz) Hf]. ok_inv. breflect.
    rewrite trim_start_0x_felt in * by done.
    pose proof (to_from_hex h _ Hh Hok1) as Hto.
    assert (length v1 = 32%nat) as Hlen.
    { pose proof (to_hex_length v1) as Hl2. rewrite Hto, Hl in Hl2. lia. }
    rewrite felt_lower_hex_064_spec, Hto by done. split; [done|]. split; [|done].
    apply digits_val_nonneg; [lia|]. apply Forall_fmap, Forall_true. intros; apply code_range.
  - intros [-> Hf]. destruct (be_val_surj 32 f) as (b & Hb & <-).
    { split; [lia|]. eapply Z.le_lt_trans; [apply Hf|]. done. }
    pose proof (felt_lower_hex_064_pad (be_val b)) as Hpad.
    rewrite felt_lower_hex_064_spec in * by done. split.
    + exists (to_hex b). rewrite to_hex_length, to_hex_lower, Hb. split_and!; [done..|].
      apply Hpad. split; [lia|]. eapply Z.le_lt_trans; [apply Hf|]. done.
    + rewrite trim_start_0x_felt by apply to_hex_lower. rewrite to_hex_length, Hb, from_to_hex.
      cbn. rewrite (bool_decide_eq_true_2 (be_val b ≤ _)) by apply Hf. cbn.
      unfold starknet_checked_felt.starts_with_0x. by rewrite bool_decide_eq_true_2.
Qed.

#[global] Program Instance FieldElementAndEventIndex_laws
    : MessageIdLaws FieldElementAndEventIndex_id :=
  { id_wf id := 0 ≤ felt_tx_hash id ≤ starknet_checked_felt.FELT_MAX_U256 ∧
      0 ≤ felt_event_index id ≤ u64_max }.
Next Obligation.
  intros m [f i]; cbn [from_str to_string FieldElementAndEventIndex_MessageId].
  unfold felt_from_str, felt_to_string; cbn. split.
  - intros Hf. ok_inv. destruct v as [t e]. ok_inv. simplify_eq.
    apply captures_index_Some in Hok as (-> & _ & Ht & He).
    destruct (print_parse_uint u64_max e i) as [<- ?]; [done..|].
    by destruct (proj1 (felt_from_str_Ok t f) (conj Ht Hok0)) as [-> ?].
  - intros [<- [Hf Hi]]. destruct (print_uint_decimal i) as [Hd _]; [lia|].
    destruct (proj2 (felt_from_str_Ok _ f) (conj eq_refl Hf)) as [Hg Hfrom].
    rewrite (proj2 (captures_index_Some is_felt_0x0 _
      ("0"%char :: "x"%char :: felt_lower_hex_064 f) (print_uint i))).
    + cbn -[starknet_checked_felt.from_str]. rewrite Hfrom. cbn. by rewrite parse_print_uint.
    + split_and!; [done| |done..]. apply is_felt_0x0_spec in Hg as (h & Heq & _ & Hh & _).
      simplify_eq. pose proof (not_elem_of_class _ "-" _ Hh eq_refl). set_solver.
Qed.

End formats.
End msg_id.

(** ** Reference codecs

    Executable codecs that satisfy the laws of the classes above: the
    hexadecimal and base 58 encodings themselves. *)
Module codecs.

(** *** Hexadecimal *)

Definition nibble_char (d : Z) : ascii :=
  if bool_decide (d < 10) then byte_of (48 + d) else byte_of (87 + d).
Definition nibble (c : ascii) : option Z :=
  if is_digit c then Some (code c - 48)
  else if in_range "a" "f" c then Some (code c - 87)
  else if in_range "A" "F" c then Some (code c - 55)
  else None.

Definition hex_encode (b : text) : text :=
  b ≫= λ c, [nibble_char (code c / 16); nibble_char (code c mod 16)].
Fixpoint hex_decode (s : text) : option text :=
  match s with
  | [] => Some []
  | c :: d :: s =>
      hi ← nibble c; lo ← nibble d; rest ← hex_decode s;
      Some (byte_of (16 * hi + lo) :: rest)
  | [_] => None
  end.

Lemma nibble_char_spec d :
  is_digit_of 16 d → nibble (nibble_char d) = Some d ∧ is_hex (nibble_char d) = true.
Proof.
  intros [? ?].
  assert (d = 0 ∨ d = 1 ∨ d = 2 ∨ d = 3 ∨ d = 4 ∨ d = 5 ∨ d = 6 ∨ d = 7 ∨ d = 8 ∨ d = 9 ∨
    d = 10 ∨ d = 11 ∨ d = 12 ∨ d = 13 ∨ d = 14 ∨ d = 15) by lia.
  destruct_or?; subst; vm_compute; done.
Qed.

Lemma nibble_hex c :
  is_hex c = true → ∃ d, nibble c = Some d ∧ is_digit_of 16 d ∧ nibble_char d = c.
Proof.
  unfold is_hex, nibble, nibble_char. destruct (is_digit c) eqn:Hd; cbn.
  - intros _. destruct (digit_value_range c Hd) as [? ?]. unfold digit_value in *.
    change (code "0") with 48 in *. exists (code c - 48). unfold is_digit_of.
    rewrite bool_decide_eq_true_2 by lia. split_and!; [done|lia..|].
    by replace (48 + (code c - 48)) with (code c) by lia; rewrite byte_of_code.
  - intros Hr. rewrite Hr. unfold in_range in Hr. apply bool_decide_eq_true in Hr.
    change (code "a") with 97 in *. change (code "f") with 102 in *. exists (code c - 87).
    unfold is_digit_of. rewrite bool_decide_eq_false_2 by lia. split_and!; [done|lia..|].
    by replace (87 + (code c - 87)) with (code c) by lia; rewrite byte_of_code.
Qed.

Lemma nibbles_of_byte c : is_digit_of 16 (code c / 16) ∧ is_digit_of 16 (code c mod 16).
Proof.
  destruct (code_range c) as [? ?]. unfold is_digit_of.
  pose proof (Z.mod_pos_bound (code c) 16). pose proof (Z.div_mod (code c) 16). lia.
Qed.

Lemma hex_encode_decode s b :
  forallb is_hex s = true → hex_decode s = Some b → hex_encode b = s.
Proof.
  revert s b. fix IH 1. intros [|c [|d s]] b Hs Hd; cbn in *; [by simplify_eq|done|].
  rewrite !andb_true_iff in Hs. destruct Hs as (Hc & Hd' & Hs).
  destruct (nibble_hex c Hc) as (hi & Hhi & [? ?] & <-). destruct (nibble_hex d Hd') as (lo & Hlo & [? ?] & <-).
  rewrite Hhi, Hlo in Hd. cbn in Hd. destruct (hex_decode s) as [rest|] eqn:Hr; [|done].
  cbn in Hd. simplify_eq. cbn. rewrite code_byte_of by (unfold is_digit_of; lia).
  rewrite (Z.add_comm (16 * hi)), (Z.mul_comm 16), Z.div_add, Z.mod_add by lia.
  rewrite Z.div_small, Z.mod_small by lia. do 2 f_equal. by apply IH.
Qed.

#[global] Program Instance hex_codec : HexCodec :=
  { to_hex := hex_encode; from_hex := hex_decode }.
Next Obligation.
  induction b as [|c b IH]; [done|]. cbn. destruct (nibbles_of_byte c) as [H1 H2].
  destruct (nibble_char_spec _ H1) as [_ ->]. by destruct (nibble_char_spec _ H2) as [_ ->].
Qed.
Next Obligation. induction b as [|c b IH]; [done|]. cbn. unfold hex_encode in IH. lia. Qed.
Next Obligation.
  induction b as [|c b IH]; [done|]. cbn. destruct (nibbles_of_byte c) as [H1 H2].
  destruct (nibble_char_spec _ H1) as [-> _]. destruct (nibble_char_spec _ H2) as [-> _].
  cbn. unfold hex_encode in IH. rewrite IH. cbn.
  rewrite <-(Z.div_mod (code c) 16) by lia. by rewrite byte_of_code.
Qed.
Next Obligation. intros s b. apply hex_encode_decode. Qed.

(** *** Base 58

    Conversion between bases keeps the number of leading zeros. *)

Fixpoint leading_zeros (l : list Z) : nat :=
  match l with d :: l => if bool_decide (d = 0) then S (leading_zeros l) else O | [] => O end.
Definition convert (A B : Z) (l : list Z) : list Z :=
  replicate (leading_zeros l) 0 ++ digits B (digits_val A l).

Lemma leading_zeros_split l :
  ∃ k, l = replicate (leading_zeros l) 0 ++ k ∧ no_leading_zero k.
Proof.
  induction l as [|d l (k & Hk & Hz)]; [by exists []|]. cbn. case_bool_decide.
  - exists k. subst d. split; [cbn; by f_equal|done].
  - exists (d :: l). split; [done|]. unfold no_leading_zero; cbn. congruence.
Qed.

Lemma leading_zeros_app n k :
  no_leading_zero k → leading_zeros (replicate n 0 ++ k) = n.
Proof.
  intros Hk. induction n as [|n IH]; cbn; [|by f_equal].
  destruct k as [|d k]; [done|]. cbn. rewrite bool_decide_eq_false_2; [done|].
  intros ->. by apply Hk.
Qed.

Lemma convert_digits A B l :
  2 ≤ A → 2 ≤ B → Forall (is_digit_of A) l → Forall (is_digit_of B) (convert A B l).
Proof.
  intros HA HB Hl. apply Forall_app. split.
  - apply Forall_replicate. unfold is_digit_of; lia.
  - apply digits_spec; [done|]. by apply digits_val_nonneg.
Qed.

Lemma convert_convert A B l :
  2 ≤ A → 2 ≤ B → Forall (is_digit_of A) l → convert B A (convert A B l) = l.
Proof.
  intros HA HB Hl. pose proof (digits_val_nonneg A HA l Hl).
  destruct (digits_spec B HB (digits_val A l)) as (Hv & _ & Hz); [done|].
  unfold convert at 1. unfold convert at 1 2. rewrite leading_zeros_app by done.
  rewrite digits_val_zeros, Hv. destruct (leading_zeros_split l) as (k & Hk & Hkz).
  rewrite Hk at 2 3. rewrite digits_val_zeros. f_equal. apply digits_of_val; [done| |done].
  rewrite Hk in Hl. by apply Forall_app in Hl as [_ ?].
Qed.

Definition alphabet : text :=
  text_of "123456789ABCDEFGHJKLMNPQRSTUVWXYZabcdefghijkmnopqrstuvwxyz".
Definition alphabet_char (d : Z) : ascii := default "1"%char (alphabet !! Z.to_nat d).
Definition alphabet_index (c : ascii) : option Z :=
  '(i, _) ← list_find (c =.) alphabet; Some (Z.of_nat i).

Lemma alphabet_char_spec d :
  is_digit_of 58 d →
  alphabet_index (alphabet_char d) = Some d ∧ is_base58 (alphabet_char d) = true.
Proof.
  intros [? ?]. assert (Z.to_nat d ∈ seq 0 58) as Hin by (apply elem_of_seq; lia).
  assert (Forall (λ i, alphabet_index (alphabet_char (Z.of_nat i)) = Some (Z.of_nat i) ∧
    is_base58 (alphabet_char (Z.of_nat i)) = true) (seq 0 58)) as Hall.
  { repeat (constructor; [vm_compute; done|]). constructor. }
  rewrite Forall_forall in Hall. specialize (Hall _ Hin). by rewrite Z2Nat.id in Hall by lia.
Qed.

Lemma alphabet_index_spec c d :
  alphabet_index c = Some d → is_digit_of 58 d ∧ alphabet_char d = c.
Proof.
  unfold alphabet_index. destruct (list_find _ _) as [[i x]|] eqn:Hf; cbn; [|done].
  intros [= <-]. apply list_find_Some in Hf as (Hi & -> & _). split.
  - apply lookup_lt_Some in Hi. change (length alphabet) with 58%nat in Hi.
    unfold is_digit_of. lia.
  - unfold alphabet_char. by rewrite Nat2Z.id, Hi.
Qed.

Definition base58_encode (b : text) : text := alphabet_char <$> convert 256 58 (code <$> b).
Definition base58_decode (s : text) : option text :=
  ds ← mapM alphabet_index s; Some (byte_of <$> convert 58 256 ds).

Lemma codes_digits (b : text) : Forall (is_digit_of 256) (code <$> b).
Proof. apply Forall_fmap, Forall_true. intros; apply code_range. Qed.

Lemma byte_of_codes (b : text) : byte_of <$> (code <$> b) = b.
Proof. induction b as [|c b IH]; cbn; [done|]. by rewrite byte_of_code, IH. Qed.

Lemma mapM_alphabet (l : list Z) :
  Forall (is_digit_of 58) l → mapM alphabet_index (alphabet_char <$> l) = Some l.
Proof.
  intros Hl. apply mapM_Some. induction Hl as [|d l Hd ? IH]; [done|].
  constructor; [by apply alphabet_char_spec|done].
Qed.

(** The encoding is at least as long as the input, and longer by at most [extra]
    characters when [58 ^ (L + extra) >= 256 ^ L] up to its length. *)
Lemma convert_length (l : list Z) (extra : nat) :
  Forall (is_digit_of 256) l →
  (∀ L, (L ≤ length l)%nat → 256 ^ Z.of_nat L ≤ 58 ^ Z.of_nat (L + extra)) →
  (length l ≤ length (convert 256 58 l) ≤ length l + extra)%nat.
Proof.
  intros Hl Hx. destruct (leading_zeros_split l) as (k & Hk & Hkz). unfold convert.
  set (z := leading_zeros l) in *. clearbody z. subst l. apply Forall_app in Hl as [_ Hl].
  rewrite digits_val_zeros, !length_app, !length_replicate in *.
  pose proof (digits_val_nonneg 256 ltac:(lia) k Hl) as Hv0.
  destruct (digits_spec 58 ltac:(lia) (digits_val 256 k) Hv0) as (Hv & Hd & Hdz).
  set (d := digits 58 (digits_val 256 k)) in *. clearbody d.
  pose proof (digits_val_bound 256 ltac:(lia) k Hl) as Hkub.
  pose proof (digits_val_bound 58 ltac:(lia) d Hd) as Hdub.
  split; apply Nat.le_ngt; intros Hlt.
  - assert (k ≠ []) as Hne by (intros ->; cbn in Hlt; lia).
    pose proof (digits_val_pos 256 ltac:(lia) k Hl Hkz Hne).
    assert (58 ^ Z.of_nat (length d) ≤ 58 ^ (Z.of_nat (length k) - 1)) by
      (apply Z.pow_le_mono_r; lia).
    assert (58 ^ (Z.of_nat (length k) - 1) ≤ 256 ^ (Z.of_nat (length k) - 1)) by
      (apply Z.pow_le_mono_l; lia). lia.
  - assert (d ≠ []) as Hne by (intros ->; cbn in Hlt; lia).
    pose proof (digits_val_pos 58 ltac:(lia) d Hd Hdz Hne).
    specialize (Hx (length k) ltac:(lia)).
    assert (58 ^ Z.of_nat (length k + extra) ≤ 58 ^ (Z.of_nat (length d) - 1)) by
      (apply Z.pow_le_mono_r; lia). lia.
Qed.

Lemma pow_256_58 (n extra L : nat) :
  forallb (λ L, bool_decide (256 ^ Z.of_nat L ≤ 58 ^ Z.of_nat (L + extra))) (seq 0 (S n)) = true →
  (L ≤ n)%nat → 256 ^ Z.of_nat L ≤ 58 ^ Z.of_nat (L + extra).
Proof.
  rewrite forallb_forall. intros Hall HL.
  by apply (bool_decide_eq_true_1 _), Hall, list_elem_of_In, elem_of_seq; lia.
Qed.

#[global] Program Instance base58_codec : Base58Codec :=
  { bs58_encode := base58_encode; bs58_decode := base58_decode }.
Next Obligation.
  intros b. unfold base58_encode.
  pose proof (convert_digits 256 58 _ ltac:(lia) ltac:(lia) (codes_digits b)) as Hd.
  induction Hd as [|d l Hd ? IH]; [done|]. cbn. by destruct (alphabet_char_spec d Hd) as [_ ->].
Qed.
Next Obligation.
  intros b Hb. unfold base58_encode. rewrite length_fmap.
  destruct (convert_length (code <$> b) 12 (codes_digits b)); rewrite length_fmap, Hb in *; [|lia].
  intros L HL. apply (pow_256_58 32); [vm_compute; reflexivity|done].
Qed.
Next Obligation.
  intros b Hb. unfold base58_encode. rewrite length_fmap.
  destruct (convert_length (code <$> b) 24 (codes_digits b)); rewrite length_fmap, Hb in *; [|lia].
  intros L HL. apply (pow_256_58 64); [vm_compute; reflexivity|done].
Qed.
Next Obligation.
  intros b. unfold base58_encode, base58_decode.
  rewrite mapM_alphabet by (apply convert_digits; [lia..|apply codes_digits]). cbn.
  rewrite convert_convert by (lia || apply codes_digits). by rewrite byte_of_codes.
Qed.
Next Obligation.
  intros s b. unfold base58_encode, base58_decode.
  destruct (mapM alphabet_index s) as [ds|] eqn:Hm; [|done]. cbn. intros [= <-].
  apply mapM_Some in Hm.
  assert (Forall (is_digit_of 58) ds ∧ alphabet_char <$> ds = s) as [Hds <-].
  { induction Hm as [|c d s ds Hc Hm [IH1 IH2]]; [done|].
    apply alphabet_index_spec in Hc as [? ?]. split; [by constructor|]. cbn. by f_equal. }
  rewrite code_byte_of_list by (apply convert_digits; [lia..|done]).
  by rewrite convert_convert by (lia || done).
Qed.

(** *** Field elements: the 64 hexadecimal digits of 32 bytes *)

Definition felt_lower_hex (z : Z) : text :=
  let d := digits 256 z in hex_encode (byte_of <$> (replicate (32 - length d) 0 ++ d)).

Lemma felt_lower_hex_be b : length b = 32%nat → felt_lower_hex (be_val b) = hex_encode b.
Proof.
  intros Hb. unfold felt_lower_hex, be_val. pose proof (codes_digits b) as Hd.
  destruct (leading_zeros_split (code <$> b)) as (k & Hk & Hkz).
  rewrite Hk in Hd. apply Forall_app in Hd as [_ Hd].
  rewrite Hk, digits_val_zeros, digits_of_val by (done || lia).
  assert (length b = leading_zeros (code <$> b) + length k)%nat as Hlen.
  { rewrite <-(length_fmap code b), Hk at 1. by rewrite length_app, length_replicate. }
  replace (32 - length k)%nat with (leading_zeros (code <$> b)) by lia.
  by rewrite <-Hk, byte_of_codes.
Qed.

Lemma felt_lower_hex_head z :
  0 ≤ z < 2 ^ 252 → head (felt_lower_hex z) = Some "0"%char.
Proof.
  intros Hz. destruct (be_val_surj 32 z) as (b & Hb & <-); [by change (256 ^ 32) with (2 ^ 256); lia|].
  rewrite felt_lower_hex_be by done. destruct b as [|c b]; [done|]. cbn.
  assert (code c < 16) as Hc.
  { destruct Hz as [_ Hz]. apply Z.nle_gt. intros Hc. revert Hz. apply Z.nlt_ge.
    change (2 ^ 252) with (16 * 256 ^ 31). cbn in Hb. injection Hb as Hb.
    unfold be_val. cbn [fmap list_fmap]. rewrite digits_val_cons, length_fmap, Hb by lia.
    pose proof (digits_val_nonneg 256 ltac:(lia) _ (codes_digits b)). nia. }
  rewrite Z.div_small; [done|]. destruct (code_range c); lia.
Qed.

#[global] Instance felt_format : FeltFormat :=
  { felt_lower_hex_064 := felt_lower_hex; felt_lower_hex_064_spec := felt_lower_hex_be;
    felt_lower_hex_064_pad := felt_lower_hex_head }.

End codecs.

(** * Properties *)

(** Every message identifier format that parses its text into a structure has
    exactly one text per identifier: the parser accepts precisely the printed forms
    of the well-formed identifiers (hash or signature of the right length, index
    within its integer type, field element below the prime). In particular two
    different texts never parse to the same identifier and two different
    identifiers never print to the same text, which is what the [MessageId] trait
    asks of its implementations. *)
Theorem message_id_formats_exact `{HexCodec} `{Base58Codec} `{!FeltFormat} :
  (∀ m id, msg_id.hex_index_from_str m = Ok id ↔
     msg_id.hex_index_to_string id = m ∧ length (msg_id.hex_tx_hash id) = 32%nat ∧
     0 ≤ msg_id.hex_event_index id ≤ u64_max) ∧
  (∀ m id, msg_id.tx_hash_from_str m = Ok id ↔
     msg_id.tx_hash_to_string id = m ∧ length (msg_id.tx_hash id) = 32%nat) ∧
  (∀ m id, msg_id.base58_index_from_str m = Ok id ↔
     msg_id.base58_index_to_string id = m ∧ length (msg_id.tx_digest id) = 32%nat ∧
     0 ≤ msg_id.b58_event_index id ≤ u64_max) ∧
  (∀ m id, msg_id.solana_from_str m = Ok id ↔
     msg_id.solana_to_string id = m ∧ length (msg_id.raw_signature id) = 64%nat ∧
     1 ≤ msg_id.inner_ix_group_index id ≤ u32_max ∧
     1 ≤ msg_id.inner_ix_index id ≤ u32_max) ∧
  (∀ m id, msg_id.felt_from_str m = Ok id ↔
     msg_id.felt_to_string id = m ∧
     0 ≤ msg_id.felt_tx_hash id ≤ starknet_checked_felt.FELT_MAX_U256 ∧
     0 ≤ msg_id.felt_event_index id ≤ u64_max).
Proof.
  split_and!; intros m id.
  - exact (msg_id.from_str_spec (T := msg_id.HexTxHashAndEventIndex_id) m id).
  - exact (msg_id.from_str_spec (T := msg_id.HexTxHash_id) m id).
  - exact (msg_id.from_str_spec (T := msg_id.Base58TxDigestAndEventIndex_id) m id).
  - exact (msg_id.from_str_spec (T := msg_id.Base58Solana_id) m id).
  - exact (msg_id.from_str_spec (T := msg_id.FieldElementAndEventIndex_id) m id).
Qed.

(** The laws of the codecs hold of the reference codecs; the formats then evaluate. *)
Lemma message_id_formats_exact_witness :
  msg_id.base58_index_to_string
    (msg_id.mkBase58Index (replicate 32 "z"%char) 7) =
    text_of "9F74TjpF9PEe23WvDSo6VoA4nNfZAkm3AnK47NU69eMF-7" ∧
  msg_id.base58_index_from_str
    (text_of "9F74TjpF9PEe23WvDSo6VoA4nNfZAkm3AnK47NU69eMF-7") =
    Ok (msg_id.mkBase58Index (replicate 32 "z"%char) 7) ∧
  msg_id.verify_msg_id (H1 := Build_Bech32Codec (λ _, true) (λ _ _, true) (λ _, None))
    "0x00000000000000000000000000000000000000000000000000000000000000ff-0123"
    msg_id.HexTxHashAndEventIndex ≠ Ok tt.
Proof.
  destruct message_id_formats_exact as (_ & _ & H58 & _).
  split_and!; [vm_compute; reflexivity| |vm_compute; discriminate].
  apply H58. split; [vm_compute; reflexivity|]. split; [reflexivity|]. split; vm_compute; discriminate.
Defined.
