(* ===== verification/RouterApi.v ===== *)
(** * Chain names, addresses and messages

    [packages/axelar-wasm-std/src/chain.rs] (chain names), [address.rs] (the
    address formats of the connected chains), [packages/sui-types],
    [packages/axelar-wasm-std/src/verification.rs] and
    [packages/router-api/src/primitives.rs] (addresses, cross-chain identifiers,
    messages and their hash, the endpoints the router stores).

    Byte strings are [string]s; [keccak256] is a parameter. *)

From Stdlib Require Import Ascii.
From S2P Require Import Prelude Std MsgId.

Definition FIELD_DELIMITER : ascii := "_".

(** ** Chain names ([chain.rs]) *)
Module chain.

Inductive Error := InvalidChainName.

Notation ChainName := string (only parsing).
Notation ChainNameRaw := string (only parsing).

Definition MAX_LEN : Z := 20.

Definition is_ascii (s : string) : bool :=
  forallb (λ c, bool_decide (code c < 128)) (text_of s).
Definition contains_delimiter (s : string) : bool :=
  bool_decide (FIELD_DELIMITER ∈ text_of s).

Definition is_raw_chain_name (s : string) : bool :=
  negb (bool_decide (s = EmptyString)) && bool_decide (Z.of_nat (String.length s) ≤ MAX_LEN)
  && is_ascii s && negb (contains_delimiter s).

(** [FromStr] of [ChainNameRaw] *)
Definition raw_from_str (s : string) : result Error ChainNameRaw :=
  if negb (is_raw_chain_name s) then Err InvalidChainName else Ok s.

(** [to_lowercase] on ASCII text. *)
Definition lower (c : ascii) : ascii :=
  if in_range "A" "Z" c then byte_of (code c + 32) else c.
Definition to_lowercase (s : string) : string :=
  String.string_of_list_ascii (lower <$> text_of s).

Definition normalize (s : ChainNameRaw) : ChainName := to_lowercase s.

(** [FromStr] of [ChainName] *)
Definition from_str (s : string) : result Error ChainName :=
  chain_name ← raw_from_str s; Ok (normalize chain_name).

(** The values of the two types: what their constructors can produce. *)
Definition raw_wf (s : ChainNameRaw) : Prop := is_raw_chain_name s = true.
Definition wf (s : ChainName) : Prop := raw_wf s ∧ to_lowercase s = s.

Lemma text_of_inj s t : text_of s = text_of t → s = t.
Proof.
  unfold text_of. intros Heq. rewrite <-(String.string_of_list_ascii_of_string s).
  by rewrite Heq, String.string_of_list_ascii_of_string.
Qed.

Lemma text_of_string l : text_of (String.string_of_list_ascii l) = l.
Proof. apply String.list_ascii_of_string_of_list_ascii. Qed.

Lemma text_of_length s : length (text_of s) = String.length s.
Proof. unfold text_of. induction s as [|c s IH]; cbn; [done|]. by f_equal. Qed.

Lemma text_of_app s t : text_of (s +:+ t) = text_of s ++ text_of t.
Proof. induction s as [|c s IH]; [done|]. exact (f_equal (cons c) IH). Qed.

Lemma lower_cases c : lower c = c ∨ (65 ≤ code c ≤ 90 ∧ code (lower c) = code c + 32).
Proof.
  unfold lower, in_range. case_bool_decide as Hr; [right|by left].
  change (code "A") with 65 in Hr. change (code "Z") with 90 in Hr.
  split; [lia|]. apply code_byte_of. unfold is_digit_of. lia.
Qed.

Lemma lower_idemp c : lower (lower c) = lower c.
Proof.
  destruct (lower_cases c) as [Heq|[? Hc]]; [by rewrite !Heq|].
  destruct (lower_cases (lower c)) as [?|[? ?]]; [done|]. lia.
Qed.

Lemma to_lowercase_idemp s : to_lowercase (to_lowercase s) = to_lowercase s.
Proof.
  unfold to_lowercase. rewrite text_of_string. f_equal. rewrite <-list_fmap_compose.
  apply list_fmap_ext. intros i c _. cbn. apply lower_idemp.
Qed.

(** Lower-casing keeps a name valid. *)
Lemma normalize_raw_wf s : raw_wf s → raw_wf (normalize s).
Proof.
  unfold raw_wf, is_raw_chain_name, normalize, is_ascii, contains_delimiter.
  rewrite !andb_true_iff, !negb_true_iff, !bool_decide_eq_false, !bool_decide_eq_true.
  rewrite <-!text_of_length. unfold to_lowercase. rewrite !text_of_string, length_fmap.
  intros [[[Hne Hlen] Hascii] Hdel]. split_and!; [|done| |].
  - intros Heq. apply Hne, text_of_inj. apply (f_equal text_of) in Heq.
    rewrite text_of_string in Heq. by destruct (text_of s).
  - rewrite forallb_forall in *. intros c Hc. apply list_elem_of_In in Hc.
    apply list_elem_of_fmap in Hc as (d & -> & Hd). apply list_elem_of_In in Hd.
    specialize (Hascii d Hd). apply bool_decide_eq_true in Hascii.
    apply bool_decide_eq_true. destruct (lower_cases d) as [->|[? ?]]; lia.
  - intros (d & Heq & Hd)%list_elem_of_fmap. destruct (lower_cases d) as [Hc|[? Hc]].
    + rewrite Hc in Heq. by subst.
    + rewrite <-Heq in Hc. change (code FIELD_DELIMITER) with 95 in Hc. lia.
Qed.

Lemma from_str_wf s c : from_str s = Ok c → wf c.
Proof.
  unfold from_str, raw_from_str. intros Hf. ok_inv. ok_case. ok_inv. breflect.
  split; [by apply normalize_raw_wf|apply to_lowercase_idemp].
Qed.

Lemma raw_wf_no_delimiter s : raw_wf s → FIELD_DELIMITER ∉ text_of s.
Proof.
  unfold raw_wf, is_raw_chain_name, contains_delimiter.
  rewrite !andb_true_iff, !negb_true_iff, !bool_decide_eq_false. naive_solver.
Qed.

End chain.

(** ** Addresses of the connected chains ([address.rs], [packages/sui-types]) *)
Module address.

Inductive Error := InvalidAddress (address : string).

Inductive AddressFormat := Eip55 | Sui | Stellar | Solana | Starknet.
#[global] Instance AddressFormat_eq_dec : EqDecision AddressFormat.
Proof. solve_decision. Defined.

(** Parsers of other crates and Unicode case conversion: [parse_checksummed] of
    [alloy_primitives], [ScAddress::from_str] of [stellar_xdr], [str::to_uppercase],
    [str::to_lowercase]. *)
Class AddressParsers := {
  parse_checksummed : string → bool;
  sc_address_from_str : string → bool;
  str_to_uppercase : string → string;
  str_to_lowercase : string → string
}.

Section validate.
Context `{HexCodec} `{Base58Codec} `{AddressParsers}.

(** [SuiAddress::from_str] *)
Definition sui_from_str (s : string) : result Error text :=
  hex ← ok_or (InvalidAddress s)
    (if starknet_checked_felt.starts_with_0x (text_of s)
     then Some (drop 2 (text_of s)) else None);
  let hex_str := String.string_of_list_ascii hex in
  _ ← ensure (bool_decide (str_to_lowercase hex_str = hex_str)) (InvalidAddress s);
  bytes ← ok_or (InvalidAddress s) (from_hex hex);
  ok_or (InvalidAddress s) (msg_id.to_array 32 bytes).

Definition validate_address (address : string) (format : AddressFormat) : result Error unit :=
  let invalid := InvalidAddress address in
  match format with
  | Eip55 => ensure (parse_checksummed address) invalid
  | Sui => _ ← sui_from_str address; Ok tt
  | Stellar =>
      if bool_decide (address ≠ str_to_uppercase address) then Err invalid
      else if bool_decide (head (text_of address) = Some "M"%char) then Err invalid
      else ensure (sc_address_from_str address) invalid
  | Solana =>
      let len := length (text_of address) in
      _ ← ensure (bool_decide (32 ≤ len ∧ len ≤ 44)%nat) invalid;
      pubkey ← ok_or invalid (bs58_decode (text_of address));
      ensure (bool_decide (length pubkey = 32%nat)) invalid
  | Starknet =>
      _ ← map_err (λ _, invalid) (starknet_checked_felt.from_str (text_of address)); Ok tt
  end.

End validate.
End address.

(** ** Verification status ([verification.rs]) *)

Inductive VerificationStatus :=
  | SucceededOnSourceChain
  | FailedOnSourceChain
  | NotFoundOnSourceChain
  | FailedToVerify
  | StatusInProgress
  | StatusUnknown.
#[global] Instance VerificationStatus_eq_dec : EqDecision VerificationStatus.
Proof. solve_decision. Defined.

Definition is_confirmed (s : VerificationStatus) : bool :=
  match s with SucceededOnSourceChain | FailedOnSourceChain => true | _ => false end.

(** ** Router primitives ([packages/router-api/src/primitives.rs]) *)
Module router_api.
Import chain.

Inductive Error :=
  | Std (err : StdError)
  | RoutingDisabled
  | ChainAlreadyExists
  | InvalidChainName
  | InvalidMessageId
  | ChainNotFound
  | GatewayNotRegistered
  | GatewayAlreadyRegistered
  | CoordinatorNotFound
  | ChainFrozen (chain : string)
  | InvalidAddress
  | WrongSourceChain
  | StoreFailure
  | Nexus
  | Serialize
  | CreateMessage (name : string)
  | InvalidLimit.

(** [Address]: a non-empty string without the delimiter. *)
Definition is_address (value : string) : bool :=
  negb (bool_decide (value = EmptyString)) && negb (contains_delimiter value).

Definition Address_try_from (value : string) : result Error string :=
  value ← map_err (λ _, InvalidAddress) (nonempty.string_try_from value);
  if negb (is_address value) then Err InvalidAddress else Ok value.

Record CrossChainId := mkCcId { source_chain : string; message_id : string }.
#[global] Instance CrossChainId_eq_dec : EqDecision CrossChainId.
Proof. solve_decision. Defined.
#[global] Instance CrossChainId_countable : Countable CrossChainId.
Proof.
  apply (inj_countable' (λ c, (source_chain c, message_id c)) (λ p, mkCcId p.1 p.2)).
  by intros [].
Defined.

Definition CrossChainId_new (chain id : string) : result Error CrossChainId :=
  source_chain ← map_err (λ _, InvalidChainName) (raw_from_str chain);
  message_id ← map_err (λ _, InvalidMessageId) (nonempty.string_try_from id);
  Ok (mkCcId source_chain message_id).

Definition delimiter : string := String FIELD_DELIMITER EmptyString.

(** [Display] of [CrossChainId] *)
Definition CrossChainId_to_string (c : CrossChainId) : string :=
  source_chain c +:+ delimiter +:+ message_id c.

Record Message := mkMessage {
  cc_id : CrossChainId;
  source_address : string;
  destination_chain : string;
  destination_address : string;
  payload_hash : string
}.
#[global] Instance Message_eq_dec : EqDecision Message.
Proof. solve_decision. Defined.
#[global] Instance Message_countable : Countable Message.
Proof.
  apply (inj_countable'
    (λ m, (cc_id m, source_address m, destination_chain m, destination_address m, payload_hash m))
    (λ '(c, s, d, a, p), mkMessage c s d a p)).
  by intros [].
Defined.

(** The bytes that [Message::hash] feeds to the hasher, in order. *)
Definition Message_preimage (m : Message) : string :=
  CrossChainId_to_string (cc_id m) +:+ delimiter +:+
  source_address m +:+ delimiter +:+
  destination_chain m +:+ delimiter +:+
  destination_address m +:+ delimiter +:+
  payload_hash m.

Definition Message_hash (keccak256 : string → string) (m : Message) : string :=
  keccak256 (Message_preimage m).

(** The values of the message type: what the constructors and the deserializers
    of the fields accept.  The message identifier may contain the delimiter. *)
Record Message_wf (m : Message) : Prop := {
  wf_source_chain : raw_wf (source_chain (cc_id m));
  wf_message_id : message_id (cc_id m) ≠ EmptyString;
  wf_source_address : is_address (source_address m) = true;
  wf_destination_chain : chain.wf (destination_chain m);
  wf_destination_address : is_address (destination_address m) = true;
  wf_payload_hash : String.length (payload_hash m) = 32%nat
}.

(** The flags of [GatewayDirection], an 8-bit flag set. *)
Definition DirectionNone : Z := 0.
Definition Incoming : Z := 1.
Definition Outgoing : Z := 2.
Definition Bidirectional : Z := Z.lor Incoming Outgoing.

Record ChainEndpoint := mkEndpoint {
  name : string;
  gateway : Addr;
  frozen_status : Z;
  msg_id_format : msg_id.MessageIdFormat
}.
#[global] Instance ChainEndpoint_eq_dec : EqDecision ChainEndpoint.
Proof. solve_decision. Defined.

Definition incoming_frozen (e : ChainEndpoint) : bool :=
  permission_control.contains (frozen_status e) Incoming.
Definition outgoing_frozen (e : ChainEndpoint) : bool :=
  permission_control.contains (frozen_status e) Outgoing.

(** *** The hash preimage determines the message *)

Lemma is_address_no_delimiter a : is_address a = true → FIELD_DELIMITER ∉ text_of a.
Proof.
  unfold is_address, contains_delimiter.
  rewrite andb_true_iff, !negb_true_iff, !bool_decide_eq_false. naive_solver.
Qed.

(** Splitting at the first delimiter, and at the last one. *)
Lemma delimited_inj_l (d : ascii) (a b x y : text) :
  d ∉ a → d ∉ b → a ++ d :: x = b ++ d :: y → a = b ∧ x = y.
Proof.
  intros Ha Hb Heq. assert (Some (a, x) = Some (b, y)) as [= -> ->]; [|done].
  rewrite <-(proj2 (split_at_Some d (a ++ d :: x) a x)) by done.
  by apply (proj2 (split_at_Some d _ b y)).
Qed.

Lemma delimited_inj_r (d : ascii) (a b x y : text) :
  d ∉ a → d ∉ b → x ++ d :: a = y ++ d :: b → x = y ∧ a = b.
Proof.
  intros Ha Hb Heq. apply (f_equal reverse) in Heq.
  rewrite !reverse_app, !reverse_cons, <-!app_assoc in Heq. cbn in Heq.
  apply delimited_inj_l in Heq as [H1 H2]; [|by rewrite elem_of_reverse..].
  split; by apply (inj reverse).
Qed.

(** Two well-formed messages with the same preimage are equal, although the
    message identifier and the raw payload hash may contain the delimiter. *)
Lemma Message_preimage_inj m1 m2 :
  Message_wf m1 → Message_wf m2 → Message_preimage m1 = Message_preimage m2 → m1 = m2.
Proof.
  intros W1 W2 Heq. apply (f_equal text_of) in Heq.
  unfold Message_preimage, CrossChainId_to_string in Heq.
  rewrite !text_of_app in Heq. change (text_of delimiter) with [FIELD_DELIMITER] in Heq.
  destruct W1 as [Hc1 _ Hs1 [Hd1 _] Ha1 Hp1], W2 as [Hc2 _ Hs2 [Hd2 _] Ha2 Hp2].
  apply raw_wf_no_delimiter in Hc1, Hc2, Hd1, Hd2.
  apply is_address_no_delimiter in Hs1, Hs2, Ha1, Ha2.
  rewrite <-!text_of_length in *. destruct m1 as [[c1 i1] s1 d1 a1 p1], m2 as [[c2 i2] s2 d2 a2 p2].
  cbn [cc_id source_chain message_id source_address destination_chain destination_address
       payload_hash] in *.
  rewrite <-!app_assoc in Heq. cbn [app] in Heq.
  apply delimited_inj_l in Heq as [Hc Heq]; [|done..].
  assert ((((text_of i1 ++ FIELD_DELIMITER :: text_of s1) ++ FIELD_DELIMITER :: text_of d1)
      ++ FIELD_DELIMITER :: text_of a1) ++ FIELD_DELIMITER :: text_of p1 =
    (((text_of i2 ++ FIELD_DELIMITER :: text_of s2) ++ FIELD_DELIMITER :: text_of d2)
      ++ FIELD_DELIMITER :: text_of a2) ++ FIELD_DELIMITER :: text_of p2) as Hr.
  { repeat (rewrite <-app_assoc; cbn [app]). exact Heq. }
  apply app_inj_2 in Hr as [Hr Hp]; [|cbn; congruence]. injection Hp as Hp.
  apply delimited_inj_r in Hr as [Hr Ha]; [|done..].
  apply delimited_inj_r in Hr as [Hr Hd]; [|done..].
  apply delimited_inj_r in Hr as [Hi Hs]; [|done..].
  apply text_of_inj in Hc, Hi, Hs, Hd, Ha, Hp. by subst.
Qed.

End router_api.

(** * Properties *)

(** C40: The message hash binds the whole message: two well-formed messages with the
    same hash are the same message, unless their (different) preimages are a
    collision of Keccak-256. The preimage is unambiguous although only some of its
    fields exclude the delimiter. *)
Theorem message_hash_binds (keccak256 : string → string) (m1 m2 : router_api.Message) :
  router_api.Message_wf m1 → router_api.Message_wf m2 →
  router_api.Message_hash keccak256 m1 = router_api.Message_hash keccak256 m2 →
  m1 = m2 ∨
  (router_api.Message_preimage m1 ≠ router_api.Message_preimage m2 ∧
   keccak256 (router_api.Message_preimage m1) = keccak256 (router_api.Message_preimage m2)).
Proof.
  intros W1 W2 Hh. destruct (decide (router_api.Message_preimage m1 = router_api.Message_preimage m2)).
  - left. by apply router_api.Message_preimage_inj.
  - by right.
Qed.

Definition example_message (id : string) : router_api.Message :=
  router_api.mkMessage (router_api.mkCcId "Ethereum" id) "0xsource" "avalanche" "0xdest"
    "01234567890123456789012345678_12".

Lemma example_message_wf (id : string) :
  id ≠ EmptyString → router_api.Message_wf (example_message id).
Proof. intros Hid. split; try (vm_compute; reflexivity); [done|]. split; vm_compute; reflexivity. Qed.

(** A hash that keeps only the chain name gives two different messages the same hash: their
    preimages are the collision. A hash that keeps everything gives them different ones. *)
Lemma message_hash_binds_witness :
  router_api.Message_hash (String.substring 0 8) (example_message "a_b") =
    router_api.Message_hash (String.substring 0 8) (example_message "a") ∧
  router_api.Message_preimage (example_message "a_b") ≠
    router_api.Message_preimage (example_message "a") ∧
  router_api.Message_hash (λ s, s) (example_message "a_b") ≠
    router_api.Message_hash (λ s, s) (example_message "a").
Proof.
  assert (router_api.Message_hash (String.substring 0 8) (example_message "a_b") =
    router_api.Message_hash (String.substring 0 8) (example_message "a")) as Heq by (vm_compute; reflexivity).
  split; [exact Heq|]. split.
  - destruct (message_hash_binds (String.substring 0 8) (example_message "a_b") (example_message "a")
      (example_message_wf "a_b" ltac:(discriminate)) (example_message_wf "a" ltac:(discriminate)) Heq)
      as [Hm|[Hne _]]; [vm_compute in Hm; discriminate Hm|exact Hne].
  - intros Hid. destruct (message_hash_binds (λ s, s) (example_message "a_b") (example_message "a")
      (example_message_wf "a_b" ltac:(discriminate)) (example_message_wf "a" ltac:(discriminate)) Hid)
      as [Hm|[Hne Hp]]; [vm_compute in Hm; discriminate Hm|exact (Hne Hp)].
Defined.

(** Parsing a chain name yields exactly the lower-cased form of the accepted raw
    names, the result is a valid name that normalization leaves alone, and every
    text that is empty, longer than 20 bytes, not ASCII or contains the delimiter is
    rejected. *)
Theorem chain_name_normal_form (s : string) :
  chain.from_str s =
    (if chain.is_raw_chain_name s then Ok (chain.to_lowercase s)
     else Err chain.InvalidChainName) ∧
  (∀ c, chain.from_str s = Ok c →
     chain.is_raw_chain_name c = true ∧ chain.normalize c = c ∧ chain.from_str c = Ok c).
Proof.
  assert (∀ t, chain.from_str t = (if chain.is_raw_chain_name t then Ok (chain.to_lowercase t)
     else Err chain.InvalidChainName)) as Hf.
  { intros t. unfold chain.from_str, chain.raw_from_str.
    by destruct (chain.is_raw_chain_name t). }
  split; [apply Hf|]. intros c [Hw Hl]%chain.from_str_wf. split_and!; [done..|].
  rewrite Hf. unfold chain.raw_wf in Hw. by rewrite Hw, Hl.
Qed.

(** The documented rule for chain names (an optional capital, lower-case letters, an
    optional dash and digits) is not what the parser enforces: a name of spaces and
    punctuation is a chain name. *)
Theorem chain_name_pattern_not_enforced :
  chain.from_str "a b-!" = Ok "a b-!".
Proof. vm_compute. reflexivity. Qed.

(** A Starknet address can be written with a repeated prefix: the parser strips
    every leading [0x], so two different texts are the same field element and both
    pass the address check. *)
Theorem starknet_repeated_prefix_accepted `{HexCodec} `{Base58Codec} `{address.AddressParsers}
    (h : text) (f : Z) :
  starknet_checked_felt.from_str (text_of "0x" ++ h) = Ok f →
  starknet_checked_felt.from_str (text_of "0x0x" ++ h) = Ok f ∧
  address.validate_address (String.string_of_list_ascii (text_of "0x0x" ++ h))
    address.Starknet = Ok tt.
Proof.
  intros Hf.
  assert (starknet_checked_felt.from_str (text_of "0x0x" ++ h) = Ok f) as Hf2.
  { revert Hf. unfold starknet_checked_felt.from_str, starknet_checked_felt.starts_with_0x.
    intros Hf. exact Hf. }
  split; [done|]. cbn [address.validate_address]. rewrite chain.text_of_string, Hf2. done.
Qed.
