(* ===== verification/Multisig.v ===== *)
(** * The multisig contract

    [contracts/multisig/src]: keys and signatures ([key.rs]), verifier sets
    ([verifier_set.rs]), signing sessions ([signing.rs], [types.rs]), the selection
    of the signatures a proof uses ([multisig.rs]), the storage ([state.rs]) and the
    contract's entry points ([contract.rs], [contract/execute.rs],
    [contract/query.rs]).

    Curve arithmetic and hashing are the operations of the class [Crypto]. *)

From Stdlib Require Import Ascii.
From S2P Require Import Prelude Std Voting MsgId RouterApi.

Class Crypto := {
  (** [Keccak256] *)
  keccak256 : string → string;
  (** [cosmwasm_crypto::secp256k1_verify] and [ed25519_verify]: message, signature, key. *)
  secp256k1_verify : string → string → string → option bool;
  ed25519_verify_bytes : string → string → string → option bool;
  (** [k256::PublicKey] and [ed25519_dalek::VerifyingKey]: decode and encode again. *)
  k256_normalize : string → option string;
  ed25519_normalize : string → option string
}.

(** ** Keys and signatures ([key.rs]) *)
Module key.

Inductive KeyType := Ecdsa | Ed25519.
#[global] Instance KeyType_eq_dec : EqDecision KeyType.
Proof. solve_decision. Defined.
#[global] Instance KeyType_countable : Countable KeyType.
Proof.
  apply (inj_countable' (λ k, if k is Ecdsa then true else false)
    (λ b : bool, if b then Ecdsa else Ed25519)). by intros [].
Defined.

Inductive Signature :=
  | SigEcdsa (sig : string)
  | SigEcdsaRecoverable (sig : string)
  | SigEd25519 (sig : string).
#[global] Instance Signature_eq_dec : EqDecision Signature.
Proof. solve_decision. Defined.

Inductive PublicKey :=
  | PkEcdsa (pk : string)
  | PkEd25519 (pk : string).
#[global] Instance PublicKey_eq_dec : EqDecision PublicKey.
Proof. solve_decision. Defined.

Definition pub_key_type (pk : PublicKey) : KeyType :=
  match pk with PkEcdsa _ => Ecdsa | PkEd25519 _ => Ed25519 end.
Definition signature_key_type (sig : Signature) : KeyType :=
  match sig with SigEcdsa _ | SigEcdsaRecoverable _ => Ecdsa | SigEd25519 _ => Ed25519 end.

(** [AsRef<[u8]>] *)
Definition pub_key_bytes (pk : PublicKey) : string :=
  match pk with PkEcdsa k | PkEd25519 k => k end.
Definition signature_bytes (sig : Signature) : string :=
  match sig with SigEcdsa s | SigEcdsaRecoverable s | SigEd25519 s => s end.

End key.
Import key.

(** ** Verifier sets ([verifier_set.rs], [msg.rs]) *)
Module verifier_set.

Record Signer := mkSigner { address : Addr; weight : Z; pub_key : PublicKey }.
#[global] Instance Signer_eq_dec : EqDecision Signer.
Proof. solve_decision. Defined.

Record VerifierSet := mkVerifierSet {
  signers : gmap string Signer;
  threshold : Z;
  created_at : Z
}.
#[global] Instance VerifierSet_eq_dec : EqDecision VerifierSet.
Proof. solve_decision. Defined.

Definition new (participants : list (snapshot.Participant * PublicKey)) (threshold : Z)
    (block_height : Z) : VerifierSet :=
  let signers := list_to_map (M := gmap string Signer) (reverse
    ((λ '(participant, pub_key),
      (snapshot.address participant,
       mkSigner (snapshot.address participant) (snapshot.weight participant) pub_key))
     <$> participants)) in
  mkVerifierSet signers threshold block_height.

(** The bytes fed to the hasher.  [usize] has four bytes on the target of the
    contracts (wasm32). *)
Definition hash_preimage (self : VerifierSet) : string :=
  to_be_bytes 4 (Z.of_nat (size (signers self))) +:+
  foldr String.append EmptyString
    ((λ '(_, signer), address signer +:+ pub_key_bytes (pub_key signer)
                      +:+ to_be_bytes 16 (weight signer))
     <$> entries (signers self)) +:+
  to_be_bytes 16 (threshold self) +:+
  to_be_bytes 8 (created_at self).

Definition hash `{Crypto} (self : VerifierSet) : string := keccak256 (hash_preimage self).

Definition id `{Crypto} `{HexCodec} (self : VerifierSet) : string :=
  String.string_of_list_ascii (to_hex (text_of (hash self))).

Definition pub_keys (self : VerifierSet) : gmap string PublicKey :=
  pub_key <$> signers self.

Definition includes (self : VerifierSet) (signer : Addr) : bool :=
  bool_decide (is_Some (signers self !! signer)).

End verifier_set.
Import verifier_set.

(** ** The contract's errors, sessions and storage *)
Module multisig.

Inductive ContractError :=
  | Std (err : StdError)
  | Overflow
  | StorageErr
  | NoActiveVerifierSetFound (verifier_set_id : string)
  | DuplicateSignature (session_id : Z) (signer : string)
  | NotAParticipant (session_id : Z) (signer : string)
  | SignatureVerificationFailed
  | InvalidSignature (session_id : Z) (signer : string)
  | InvalidPublicKeyRegistrationSignature
  | InvalidPublicKey
  | DuplicatePublicKey
  | InvalidSignatureFormat
  | SigningSessionClosed (session_id : Z)
  | SigningSessionNotFound (session_id : Z)
  | KeyTypeMismatch
  | SigningDisabledErr
  | ProverNotFound (chain : string).

(** [TryFrom<(KeyType, HexBinary)> for Signature]: by key type and length. *)
Definition signature_try_from (key_type : KeyType) (sig : string)
    : result ContractError Signature :=
  match key_type with
  | Ecdsa =>
      if bool_decide (String.length sig = 65%nat) then Ok (SigEcdsaRecoverable sig)
      else if bool_decide (String.length sig = 64%nat) then Ok (SigEcdsa sig)
      else Err InvalidSignatureFormat
  | Ed25519 =>
      if bool_decide (String.length sig = 64%nat) then Ok (SigEd25519 sig)
      else Err InvalidSignatureFormat
  end.

Section key.
Context `{Crypto}.

Definition ecdsa_verify (msg_hash sig pub_key : string) : result ContractError bool :=
  ok_or SignatureVerificationFailed (secp256k1_verify msg_hash sig pub_key).
Definition ed25519_verify (msg_hash sig pub_key : string) : result ContractError bool :=
  ok_or SignatureVerificationFailed (ed25519_verify_bytes msg_hash sig pub_key).

(** [Signature::verify] *)
Definition signature_verify (self : Signature) (msg : string) (pk : PublicKey)
    : result ContractError unit :=
  if bool_decide (signature_key_type self ≠ pub_key_type pk) then Err KeyTypeMismatch
  else
    res ← match signature_key_type self with
          | Ecdsa => ecdsa_verify msg (signature_bytes self) (pub_key_bytes pk)
          | Ed25519 => ed25519_verify msg (signature_bytes self) (pub_key_bytes pk)
          end;
    if negb res then Err SignatureVerificationFailed else Ok tt.

Definition check_ecdsa_format (pub_key : string) : result ContractError string :=
  if bool_decide (String.length pub_key ≠ 33%nat) then Err InvalidPublicKey else Ok pub_key.

Definition validate_and_normalize_public_key (key_type : KeyType) (pub_key : string)
    : result ContractError string :=
  match key_type with
  | Ecdsa =>
      pub_key ← check_ecdsa_format pub_key;
      ok_or InvalidPublicKey (k256_normalize pub_key)
  | Ed25519 =>
      if bool_decide (String.length pub_key = 32%nat)
      then ok_or InvalidPublicKey (ed25519_normalize pub_key) else Err InvalidPublicKey
  end.

(** [TryFrom<(KeyType, HexBinary)> for PublicKey] *)
Definition pub_key_try_from (key_type : KeyType) (pub_key : string)
    : result ContractError PublicKey :=
  pub_key ← validate_and_normalize_public_key key_type pub_key;
  Ok (match key_type with Ecdsa => PkEcdsa pub_key | Ed25519 => PkEd25519 pub_key end).
End key.

(** *** Sessions ([types.rs], [signing.rs]) *)

Inductive MultisigState := Pending | Completed (completed_at : Z).
#[global] Instance MultisigState_eq_dec : EqDecision MultisigState.
Proof. solve_decision. Defined.

Record SigningSession := mkSession {
  session_id : Z;
  verifier_set_id : string;
  chain_name : string;
  msg : string;
  state : MultisigState;
  expires_at : Z;
  sig_verifier : option Addr
}.

Definition SigningSession_new (session_id : Z) (verifier_set_id chain_name msg : string)
    (expires_at : Z) (sig_verifier : option Addr) : SigningSession :=
  mkSession session_id verifier_set_id chain_name msg Pending expires_at sig_verifier.

Definition signers_weight {E} (signatures : gmap string Signature) (vs : VerifierSet)
    : result E Z :=
  weights ← try_map (λ '(addr, _), weight <$> expect (signers vs !! addr)) (entries signatures);
  sum_u128 weights.

Definition recalculate_session_state {E} (self : SigningSession)
    (signatures : gmap string Signature) (vs : VerifierSet) (block_height : Z)
    : result E SigningSession :=
  weight ← signers_weight signatures vs;
  if bool_decide (state self = Pending ∧ threshold vs ≤ weight)
  then Ok (mkSession (session_id self) (verifier_set_id self) (chain_name self) (msg self)
             (Completed block_height) (expires_at self) (sig_verifier self))
  else Ok self.

(** The messages the contract sends to other contracts, and its events. *)
Inductive OutMsg :=
  | RecordParticipation (contract_addr : string) (chain_name event_id verifier_address : string)
  | VerifySignature (contract_addr : Addr) (signature message public_key signer_address : string)
      (session_id : Z).

Inductive Event :=
  | SigningStarted (session_id : Z) (verifier_set_id : string)
      (pub_keys : gmap string PublicKey) (msg chain_name : string) (expires_at : Z)
  | SignatureSubmitted (session_id : Z) (participant : Addr) (signature : Signature)
  | SigningCompleted (session_id completed_at : Z) (chain_name : string)
  | PublicKeyRegistered (verifier : Addr) (public_key : PublicKey)
  | CallerAuthorized (contract_address : Addr) (chain_name : string)
  | CallerUnauthorized (contract_address : Addr) (chain_name : string)
  | SigningEnabled
  | SigningDisabled.

Definition validate_session_signature `{Crypto} (session : SigningSession) (signer : Addr)
    (signature : Signature) (pk : PublicKey) (block_height : Z) (sig_verifier : option Addr)
    : result ContractError (option OutMsg) :=
  if bool_decide (expires_at session < block_height)
  then Err (SigningSessionClosed (session_id session))
  else
    match sig_verifier with
    | Some contract =>
        Ok (Some (VerifySignature contract (signature_bytes signature) (msg session)
                    (pub_key_bytes pk) signer (session_id session)))
    | None =>
        _ ← map_err (λ _, InvalidSignature (session_id session) signer)
              (signature_verify signature (msg session) pk);
        Ok None
    end.

(** *** Storage ([state.rs]) *)

Record Config := mkConfig {
  rewards_contract : Addr;
  block_expiry : Z;
  coordinator : Addr
}.

(** [SIGNATURES] is keyed by session and signer; its range over a session's prefix
    is the inner map.  [PROVER_CHAIN] maps a prover to its chain, unique by chain;
    [PUB_KEYS] maps an address and key type to the key, unique by key. *)
Record State := mkState {
  perm : permission_control.Storage;
  switch : option killswitch.State;
  CONFIG : option Config;
  SIGNING_SESSION_COUNTER : option Z;
  SIGNING_SESSIONS : gmap Z SigningSession;
  PROVER_CHAIN : gmap Addr string;
  VERIFIER_SETS : gmap string VerifierSet;
  SIGNATURES : gmap Z (gmap string Signature);
  PUB_KEYS : gmap (Addr * KeyType) string
}.

Definition set_switch (st : State) s : State :=
  mkState (perm st) s (CONFIG st) (SIGNING_SESSION_COUNTER st) (SIGNING_SESSIONS st)
    (PROVER_CHAIN st) (VERIFIER_SETS st) (SIGNATURES st) (PUB_KEYS st).
Definition set_config (st : State) c : State :=
  mkState (perm st) (switch st) c (SIGNING_SESSION_COUNTER st) (SIGNING_SESSIONS st)
    (PROVER_CHAIN st) (VERIFIER_SETS st) (SIGNATURES st) (PUB_KEYS st).
Definition set_counter (st : State) n : State :=
  mkState (perm st) (switch st) (CONFIG st) n (SIGNING_SESSIONS st)
    (PROVER_CHAIN st) (VERIFIER_SETS st) (SIGNATURES st) (PUB_KEYS st).
Definition set_sessions (st : State) m : State :=
  mkState (perm st) (switch st) (CONFIG st) (SIGNING_SESSION_COUNTER st) m
    (PROVER_CHAIN st) (VERIFIER_SETS st) (SIGNATURES st) (PUB_KEYS st).
Definition set_provers (st : State) m : State :=
  mkState (perm st) (switch st) (CONFIG st) (SIGNING_SESSION_COUNTER st) (SIGNING_SESSIONS st)
    m (VERIFIER_SETS st) (SIGNATURES st) (PUB_KEYS st).
Definition set_verifier_sets (st : State) m : State :=
  mkState (perm st) (switch st) (CONFIG st) (SIGNING_SESSION_COUNTER st) (SIGNING_SESSIONS st)
    (PROVER_CHAIN st) m (SIGNATURES st) (PUB_KEYS st).
Definition set_signatures (st : State) m : State :=
  mkState (perm st) (switch st) (CONFIG st) (SIGNING_SESSION_COUNTER st) (SIGNING_SESSIONS st)
    (PROVER_CHAIN st) (VERIFIER_SETS st) m (PUB_KEYS st).
Definition set_pub_keys (st : State) m : State :=
  mkState (perm st) (switch st) (CONFIG st) (SIGNING_SESSION_COUNTER st) (SIGNING_SESSIONS st)
    (PROVER_CHAIN st) (VERIFIER_SETS st) (SIGNATURES st) m.

Definition load_session_signatures (st : State) (session_id : Z) : gmap string Signature :=
  default ∅ (SIGNATURES st !! session_id).

Definition save_signature (st : State) (session_id : Z) (signature : Signature) (signer : Addr)
    : result ContractError (State * Signature) :=
  let signatures := load_session_signatures st session_id in
  match signatures !! signer with
  | Some _ => Err (DuplicateSignature session_id signer)
  | None =>
      Ok (set_signatures st
            (<[session_id := <[signer := signature]> signatures]> (SIGNATURES st)), signature)
  end.

Definition load_verifier_set (st : State) (verifier_set_id : string)
    : result ContractError VerifierSet :=
  ok_or (NoActiveVerifierSetFound verifier_set_id) (VERIFIER_SETS st !! verifier_set_id).

Definition load_pub_key (st : State) (signer : Addr) (key_type : KeyType)
    : result StdError string :=
  ok_or NotFound (PUB_KEYS st !! (signer, key_type)).

Definition save_pub_key (st : State) (signer : Addr) (pk : PublicKey)
    : result ContractError State :=
  if unique_index_item (λ k, k) (PUB_KEYS st) (pub_key_bytes pk) is Some _
  then Err DuplicatePublicKey
  else
    m ← map_err Std (unique_index_save (λ k, k) (PUB_KEYS st) (signer, pub_key_type pk)
                       (pub_key_bytes pk));
    Ok (set_pub_keys st m).

Definition save_prover (st : State) (contract_address : Addr) (chain_name : string)
    : result StdError State :=
  m ← unique_index_save (λ c, c) (PROVER_CHAIN st) contract_address chain_name;
  Ok (set_provers st m).

Definition remove_prover (st : State) (contract_address : Addr) : State * option string :=
  match PROVER_CHAIN st !! contract_address with
  | Some chain => (set_provers st (delete contract_address (PROVER_CHAIN st)), Some chain)
  | None => (st, None)
  end.

Definition chain_by_prover (st : State) (contract_address : Addr) : option string :=
  PROVER_CHAIN st !! contract_address.

Definition prover_by_chain (st : State) (chain_name : string) : option Addr :=
  fst <$> unique_index_item (λ c, c) (PROVER_CHAIN st) chain_name.

(** *** Handlers ([contract/execute.rs])

    A handler takes the storage and returns the new storage with the response; an
    error or a panic leaves the caller's storage as it was. *)

Notation MResponse := (Response OutMsg Event).

Section handlers.
Context `{Crypto} `{HexCodec} `{Api}.

(** The response data is the session identifier. *)
Definition start_signing_session (st : State) (height : Z) (verifier_set_id msg : string)
    (chain_name : string) (sig_verifier : option Addr)
    : result ContractError (State * MResponse * Z) :=
  _ ← ensure (killswitch.is_contract_active (switch st)) SigningDisabledErr;
  config ← map_err Std (item_load (CONFIG st));
  verifier_set ← load_verifier_set st verifier_set_id;
  session_id ← item_update Std (SIGNING_SESSION_COUNTER st)
    (λ counter, ok_or Overflow (checked_add u64_max counter 1));
  expires_at ← ok_or Overflow (checked_add u64_max height (block_expiry config));
  let signing_session :=
    SigningSession_new session_id verifier_set_id chain_name msg expires_at sig_verifier in
  let st := set_counter st (Some session_id) in
  let st := set_sessions st (<[session_id := signing_session]> (SIGNING_SESSIONS st)) in
  let event := SigningStarted session_id verifier_set_id (pub_keys verifier_set) msg chain_name
                 expires_at in
  Ok (st, add_event event Response_new, session_id).

Definition signing_response (session : SigningSession) (state_changed : bool) (signer : Addr)
    (signature : Signature) (rewards_contract : string) : MResponse :=
  let rewards_msg := RecordParticipation rewards_contract (chain_name session)
                       (uint_to_string (session_id session)) signer in
  let event := SignatureSubmitted (session_id session) signer signature in
  let response := add_event event (add_message rewards_msg Response_new) in
  match state session with
  | Completed completed_at =>
      if state_changed
      then add_event (SigningCompleted (session_id session) completed_at (chain_name session))
             response
      else response
  | Pending => response
  end.

Definition submit_signature (st : State) (height : Z) (sender : Addr) (session_id : Z)
    (signature : string) : result ContractError (State * MResponse) :=
  _ ← ensure (killswitch.is_contract_active (switch st)) SigningDisabledErr;
  config ← map_err Std (item_load (CONFIG st));
  session ← ok_or (SigningSessionNotFound session_id) (SIGNING_SESSIONS st !! session_id);
  verifier_set ← ok_or (Std NotFound) (VERIFIER_SETS st !! verifier_set_id session);
  signer ← ok_or (NotAParticipant session_id sender) (signers verifier_set !! sender);
  signature ← signature_try_from (pub_key_type (pub_key signer)) signature;
  sig_verifier_msg ← validate_session_signature session sender signature (pub_key signer) height
                       (sig_verifier session);
  '(st, signature) ← save_signature st session_id signature sender;
  let signatures := load_session_signatures st session_id in
  let old_state := state session in
  session ← recalculate_session_state session signatures verifier_set height;
  let st := set_sessions st (<[multisig.session_id session := session]> (SIGNING_SESSIONS st)) in
  let state_changed := bool_decide (old_state ≠ state session) in
  let res := signing_response session state_changed sender signature (rewards_contract config) in
  Ok (st, match sig_verifier_msg with Some m => add_message m res | None => res end).

Definition register_verifier_set (st : State) (vs : VerifierSet) : State * MResponse :=
  (set_verifier_sets st (<[verifier_set.id vs := vs]> (VERIFIER_SETS st)), Response_new).

Definition register_pub_key (st : State) (sender : Addr) (public_key : PublicKey)
    (signed_sender_address : string) : result ContractError (State * MResponse) :=
  signed_sender_address ← signature_try_from (pub_key_type public_key) signed_sender_address;
  let address_hash := keccak256 sender in
  _ ← map_err (λ _, InvalidPublicKeyRegistrationSignature)
        (signature_verify signed_sender_address address_hash public_key);
  st ← save_pub_key st sender public_key;
  Ok (st, add_event (PublicKeyRegistered sender public_key) Response_new).

(** [contracts] is a [HashMap]: its entries in the order of its iteration. *)
Definition authorize_callers (st : State) (contracts : list (Addr * string))
    : result ContractError (State * MResponse) :=
  st ← map_err Std (try_fold (λ st '(contract_address, chain_name),
         save_prover st contract_address chain_name) st contracts);
  Ok (st, add_events ((λ '(contract_address, chain_name),
                       CallerAuthorized contract_address chain_name) <$> contracts)
            Response_new).

Definition unauthorize_caller (acc : State * list (Addr * string)) (contract : Addr)
    : State * list (Addr * string) :=
  match remove_prover acc.1 contract with
  | (st, Some chain) => (st, acc.2 ++ [(contract, chain)])
  | (st, None) => (st, acc.2)
  end.

Definition unauthorize_callers (st : State) (callers : list Addr) : State * MResponse :=
  let '(st, callers_and_chains) := foldl unauthorize_caller (st, []) callers in
  (st, add_events ((λ '(contract_address, chain_name),
                    CallerUnauthorized contract_address chain_name) <$> callers_and_chains)
         Response_new).

Definition enable_signing (st : State) : result ContractError (State * MResponse) :=
  '(s, r) ← map_err Std (killswitch.disengage (switch st) SigningEnabled);
  Ok (set_switch st s, r).

Definition disable_signing (st : State) : result ContractError (State * MResponse) :=
  '(s, r) ← map_err Std (killswitch.engage (switch st) SigningDisabled);
  Ok (set_switch st s, r).

Definition update_signing_parameters (st : State) (new_block_expiry : option Z)
    : result ContractError (State * MResponse) :=
  config ← map_err (λ _, StorageErr) (item_load (CONFIG st));
  let config := mkConfig (rewards_contract config)
                  (default (block_expiry config) new_block_expiry) (coordinator config) in
  Ok (set_config st (Some config), Response_new).

(** *** Queries ([contract/query.rs]) *)

Record Multisig := mkMultisig {
  m_state : MultisigState;
  m_verifier_set : VerifierSet;
  m_signatures : gmap string Signature
}.

Definition query_multisig (st : State) (session_id : Z) : result StdError Multisig :=
  session ← ok_or NotFound (SIGNING_SESSIONS st !! session_id);
  verifier_set ← ok_or NotFound (VERIFIER_SETS st !! verifier_set_id session);
  Ok (mkMultisig (state session) verifier_set
        (load_session_signatures st (multisig.session_id session))).

Definition query_verifier_set (st : State) (verifier_set_id : string)
    : result StdError VerifierSet := ok_or NotFound (VERIFIER_SETS st !! verifier_set_id).

Definition query_public_key (st : State) (verifier : Addr) (key_type : KeyType)
    : result StdError PublicKey :=
  raw ← load_pub_key st verifier key_type;
  expect_ok (pub_key_try_from key_type raw).

Definition caller_authorized (st : State) (address : Addr) (chain_name : string) : bool :=
  bool_decide (chain_by_prover st address = Some chain_name).

Definition prover_for_chain (st : State) (chain_name : string) : result ContractError Addr :=
  ok_or (ProverNotFound chain_name) (prover_by_chain st chain_name).

Definition signing_parameters (st : State) : result ContractError Z :=
  config ← map_err (λ _, StorageErr) (item_load (CONFIG st));
  Ok (block_expiry config).

(** *** Entry points ([contract.rs], [msg.rs]) *)

Record InstantiateMsg := mkInstantiate {
  governance_address : string;
  admin_address : string;
  rewards_address : string;
  init_block_expiry : Z;
  coordinator_address : string
}.

Inductive ExecuteMsg :=
  | StartSigningSession (verifier_set_id msg chain_name : string) (sig_verifier : option string)
  | SubmitSignature (session_id : Z) (signature : string)
  | RegisterVerifierSet (verifier_set : VerifierSet)
  | RegisterPublicKey (public_key : PublicKey) (signed_sender_address : string)
  | AuthorizeCallers (contracts : list (string * string))
  | UnauthorizeCallers (contracts : list string)
  | DisableSigning
  | EnableSigning
  | UpdateSigningParameters (block_expiry : option Z).

(** The [#[permission(..)]] attributes. *)
Definition permissions (m : ExecuteMsg) : msgs_derive.MsgPermissions :=
  match m with
  | StartSigningSession _ _ _ _ => msgs_derive.mkPerm ["authorized"] [] []
  | SubmitSignature _ _ | RegisterVerifierSet _ | RegisterPublicKey _ _ =>
      msgs_derive.mkPerm [] [permission_control.Any] []
  | AuthorizeCallers _ => msgs_derive.mkPerm [] [permission_control.Governance] ["coordinator"]
  | UnauthorizeCallers _ | DisableSigning | EnableSigning =>
      msgs_derive.mkPerm [] [permission_control.Elevated] []
  | UpdateSigningParameters _ => msgs_derive.mkPerm [] [permission_control.Governance] []
  end.

Definition can_start_signing_session (st : State) (sender_addr : Addr) (m : ExecuteMsg)
    : result permission_control.Error bool :=
  match m with
  | StartSigningSession _ _ chain_name _ => Ok (caller_authorized st sender_addr chain_name)
  | _ => Err permission_control.WrongVariant
  end.

Definition find_coordinator (st : State) : result ContractError Addr :=
  config ← map_err Std (item_load (CONFIG st)); Ok (coordinator config).

Inductive ExecuteError :=
  | Permission (e : permission_control.Error)
  | Contract (e : ContractError)
  | InvalidAddress (address : string).

(** [validate_cosmwasm_address] *)
Definition validate_cosmwasm_address (addr : string) : result ExecuteError Addr :=
  map_err (λ _, InvalidAddress addr) (addr_validate addr).

Definition validate_contract_addresses (contracts : list string)
    : result ExecuteError (list Addr) :=
  try_map validate_cosmwasm_address contracts.

Definition instantiate (m : InstantiateMsg) : result ExecuteError (State * MResponse) :=
  admin ← validate_cosmwasm_address (admin_address m);
  governance ← validate_cosmwasm_address (governance_address m);
  coordinator ← validate_cosmwasm_address (coordinator_address m);
  let perm := permission_control.set_governance
    (permission_control.set_admin (permission_control.mkStorage None None) admin) governance in
  rewards_contract ← validate_cosmwasm_address (rewards_address m);
  let config := mkConfig rewards_contract (init_block_expiry m) coordinator in
  Ok (mkState perm (killswitch.init killswitch.Disengaged) (Some config) (Some 0)
        ∅ ∅ ∅ ∅ ∅, Response_new).

Definition authorize (st : State) (sender : Addr)
    (m : msgs_derive.ExecuteMsgFromProxy ExecuteMsg)
    : result permission_control.Error (ExecuteMsg * Addr) :=
  msgs_derive.authorize permissions (λ _, can_start_signing_session st)
    [("coordinator", find_coordinator st)] (perm st) sender m.

Definition execute (st : State) (height : Z) (sender : Addr)
    (m : msgs_derive.ExecuteMsgFromProxy ExecuteMsg)
    : result ExecuteError (State * MResponse * option Z) :=
  '(m, sender) ← map_err Permission (authorize st sender m);
  match m with
  | StartSigningSession verifier_set_id msg chain_name sig_verifier =>
      sig_verifier ← match sig_verifier with
                     | Some addr => Some <$> validate_cosmwasm_address addr
                     | None => Ok None
                     end;
      '(st, r, id) ← map_err Contract
        (start_signing_session st height verifier_set_id msg chain_name sig_verifier);
      Ok (st, r, Some id)
  | SubmitSignature session_id signature =>
      '(st, r) ← map_err Contract (submit_signature st height sender session_id signature);
      Ok (st, r, None)
  | RegisterVerifierSet verifier_set =>
      let '(st, r) := register_verifier_set st verifier_set in Ok (st, r, None)
  | RegisterPublicKey public_key signed_sender_address =>
      '(st, r) ← map_err Contract (register_pub_key st sender public_key signed_sender_address);
      Ok (st, r, None)
  | AuthorizeCallers contracts =>
      contracts ← try_map (λ '(addr, chain_name),
        (λ a, (a, chain_name)) <$> validate_cosmwasm_address addr) contracts;
      '(st, r) ← map_err Contract (authorize_callers st contracts);
      Ok (st, r, None)
  | UnauthorizeCallers contracts =>
      contracts ← validate_contract_addresses contracts;
      let '(st, r) := unauthorize_callers st contracts in Ok (st, r, None)
  | DisableSigning => '(st, r) ← map_err Contract (disable_signing st); Ok (st, r, None)
  | EnableSigning => '(st, r) ← map_err Contract (enable_signing st); Ok (st, r, None)
  | UpdateSigningParameters block_expiry =>
      '(st, r) ← map_err Contract (update_signing_parameters st block_expiry); Ok (st, r, None)
  end.

(** *** Selection of signatures ([multisig.rs]) *)

Definition m_signer {E} (self : Multisig) (address : string) : result E Signer :=
  expect (signers (m_verifier_set self) !! address).

(** The [scan]: signatures are taken until the weight before them reaches the
    threshold. *)
Fixpoint take_quorum (threshold acc : Z) (l : list (Signer * Signature))
    : list (Signer * Signature) :=
  match l with
  | [] => []
  | (signer, signature) :: l =>
      if bool_decide (acc < threshold)
      then (signer, signature)
           :: take_quorum threshold (saturating_add u128_max acc (weight signer)) l
      else []
  end.

Definition by_weight (p q : Signer * Signature) : Prop := weight q.1 ≤ weight p.1.
#[global] Instance by_weight_dec : RelDecision by_weight.
Proof. intros p q. unfold by_weight. apply _. Defined.

(** [iter] is the order in which the [HashMap] of signatures is iterated; the
    (stable) sort and the scan look every signer up. *)
Definition optimize_signatures {E} (self : Multisig) (iter : list (string * Signature))
    : result E (list (Signer * Signature)) :=
  signed ← try_map (λ '(addr, signature),
    signer ← m_signer self addr; Ok (signer, signature)) iter;
  Ok (take_quorum (threshold (m_verifier_set self)) 0 (merge_sort by_weight signed)).

End handlers.
(** ** Invariants of the signing sessions *)

(** The weight behind a set of signatures. *)
Definition signed_weight (signatures : gmap string Signature) (vs : VerifierSet) : Z :=
  map_sum (λ a _, from_option weight 0 (signers vs !! a)) signatures.

(** Typing of a verifier set: its numbers are unsigned. *)
Definition vs_typed (vs : VerifierSet) : Prop :=
  map_Forall (λ _ s, 0 ≤ weight s) (signers vs) ∧ 0 ≤ threshold vs.

Lemma signers_weight_Ok {E} signatures vs w :
  vs_typed vs → @signers_weight E signatures vs = Ok w →
  w = signed_weight signatures vs ∧
  map_Forall (λ a _, is_Some (signers vs !! a)) signatures.
Proof.
  intros [Hty _] Hw. unfold signers_weight in Hw. ok_inv. apply try_map_Ok in Hok.
  assert (Forall (λ '(a, _), is_Some (signers vs !! a)) (entries signatures) ∧
    v = (λ p, from_option weight 0 (signers vs !! p.1)) <$> entries signatures) as [Hall ->].
  { clear Hw. induction Hok as [|[a sig] x l ys Hx Hl [IH1 IH2]]; [done|]. ok_inv.
    split; [by constructor; [exists v|]|]. subst. csimpl. by rewrite Hok. }
  apply sum_u128_Ok in Hw as [-> _].
  - split; [|intros a sig Ha; rewrite Forall_forall in Hall; by apply (Hall (a, sig)), elem_of_entries].
    unfold signed_weight. by rewrite map_sum_entries.
  - apply Forall_fmap, Forall_true. intros [a sig]. cbn.
    destruct (signers vs !! a) as [s|] eqn:Ha; cbn; [by apply (Hty a)|done].
Qed.

(** Conversely the sum is defined when every signer is in the set and the weights
    fit. *)
Lemma signers_weight_defined {E} signatures vs :
  vs_typed vs → map_Forall (λ a _, is_Some (signers vs !! a)) signatures →
  signed_weight signatures vs ≤ u128_max →
  @signers_weight E signatures vs = Ok (signed_weight signatures vs).
Proof.
  intros [Hty _] Hall Hmax. unfold signers_weight.
  assert (∀ l, Forall (λ '(a, _), is_Some (signers vs !! a)) l →
    @try_map E _ _ (λ '(addr, _), weight <$> expect (signers vs !! addr)) l =
      Ok ((λ p : string * Signature, from_option weight 0 (signers vs !! p.1)) <$> l)) as ->.
  { intros l. induction 1 as [|[a sig] l [s Hs] ? IH]; [done|]. cbn.
    rewrite Hs. cbn. by rewrite IH. }
  - cbn. unfold signed_weight in *. rewrite map_sum_entries in *. apply sum_u128_no_panic; [|done].
    apply Forall_fmap, Forall_true. intros [a sig]. cbn.
    destruct (signers vs !! a) as [s|] eqn:Ha; cbn; [by apply (Hty a)|done].
  - apply Forall_forall. intros [a sig] Ha. apply elem_of_entries in Ha. by apply (Hall a sig).
Qed.

(** What holds of one session: its signatures come from members of its verifier
    set, under their keys, and it is completed exactly when they reach the
    threshold. *)
Record session_ok `{Crypto} (session : SigningSession) (vs : VerifierSet)
    (signatures : gmap string Signature) : Prop := {
  ok_members : map_Forall (λ a sig, ∃ signer, signers vs !! a = Some signer ∧
    signature_key_type sig = pub_key_type (pub_key signer) ∧
    (sig_verifier session = None →
     signature_verify sig (msg session) (pub_key signer) = Ok tt)) signatures;
  ok_completed : state session ≠ Pending ↔
    signatures ≠ ∅ ∧ threshold vs ≤ signed_weight signatures vs
}.

Record inv `{Crypto} (st : State) : Prop := {
  inv_sets : map_Forall (λ _ vs, vs_typed vs) (VERIFIER_SETS st);
  inv_counter : ∃ n, SIGNING_SESSION_COUNTER st = Some n ∧ 0 ≤ n ∧
    (∀ i, is_Some (SIGNING_SESSIONS st !! i) → 1 ≤ i ≤ n) ∧
    (∀ i, is_Some (SIGNATURES st !! i) → is_Some (SIGNING_SESSIONS st !! i));
  inv_sessions : ∀ i session, SIGNING_SESSIONS st !! i = Some session →
    session_id session = i ∧
    ∃ vs, VERIFIER_SETS st !! verifier_set_id session = Some vs ∧
          session_ok session vs (load_session_signatures st i)
}.

(** The invariant only depends on four of the items. *)
Definition same_sessions (st st' : State) : Prop :=
  SIGNING_SESSION_COUNTER st' = SIGNING_SESSION_COUNTER st ∧
  SIGNING_SESSIONS st' = SIGNING_SESSIONS st ∧
  VERIFIER_SETS st' = VERIFIER_SETS st ∧ SIGNATURES st' = SIGNATURES st.

Lemma inv_same_sessions `{Crypto} st st' : same_sessions st st' → inv st → inv st'.
Proof.
  intros (H1 & H2 & H3 & H4) [Hs Hc Hss].
  split; unfold load_session_signatures in *; rewrite ?H1, ?H2, ?H3, ?H4; done.
Qed.

Section preservation.
Context `{Crypto} `{HexCodec} `{Api}.

Lemma start_signing_session_Ok st height vid m chain sv st' r i :
  start_signing_session st height vid m chain sv = Ok (st', r, i) →
  ∃ config vs n,
    killswitch.is_contract_active (switch st) = true ∧
    CONFIG st = Some config ∧ VERIFIER_SETS st !! vid = Some vs ∧
    SIGNING_SESSION_COUNTER st = Some n ∧ i = n + 1 ∧ i ≤ u64_max ∧
    height + block_expiry config ≤ u64_max ∧
    st' = set_sessions (set_counter st (Some i))
            (<[i := SigningSession_new i vid chain m (height + block_expiry config) sv]>
               (SIGNING_SESSIONS st)) ∧
    r = mkResponse [] [SigningStarted i vid (verifier_set.pub_keys vs) m chain
                         (height + block_expiry config)].
Proof.
  unfold start_signing_session, item_update, load_verifier_set, item_load. intros Hf.
  ok_inv. simplify_eq. checked. destruct_and!. subst. eauto 15.
Qed.

Lemma inv_start st height vid m chain sv st' r i :
  inv st → start_signing_session st height vid m chain sv = Ok (st', r, i) → inv st'.
Proof.
  intros [Hsets (n & Hn & Hpos & Hses & Hsig) Hss] Hf.
  apply start_signing_session_Ok in Hf as (config & vs & n' & _ & _ & Hvs & Hn' & -> & _ & _ & -> & _).
  assert (n' = n) as -> by congruence.
  assert (SIGNING_SESSIONS st !! (n + 1) = None) as Hfresh.
  { apply eq_None_not_Some. intros Hi%Hses. lia. }
  assert (SIGNATURES st !! (n + 1) = None) as Hnosig.
  { apply eq_None_not_Some. intros Hi%Hsig. rewrite Hfresh in Hi. by destruct Hi. }
  split; [done|..].
  - exists (n + 1). cbn. split_and!; [done|lia|..]; intros i.
    + destruct (decide (i = n + 1)) as [->|Hne]; [lia|].
      rewrite lookup_insert_ne by done. intros ?%Hses. lia.
    + intros Hi%Hsig. rewrite lookup_insert_is_Some'. by right.
  - intros i session. cbn. rewrite lookup_insert_Some.
    intros [[<- <-]|[Hne Hi]]; [|by apply (Hss i)].
    split; [done|]. exists vs. split; [done|]. unfold load_session_signatures; cbn.
    rewrite Hnosig. cbn. split; [apply map_Forall_empty|]. cbn. naive_solver.
Qed.

Lemma validate_session_signature_Ok session signer sig pk height sv m :
  validate_session_signature session signer sig pk height sv = Ok m ↔
    height ≤ expires_at session ∧
    (sv = None → signature_verify sig (msg session) pk = Ok tt) ∧
    m = (λ c, VerifySignature c (signature_bytes sig) (msg session) (pub_key_bytes pk) signer
                (session_id session)) <$> sv.
Proof.
  unfold validate_session_signature. case_bool_decide.
  - split; [done|lia].
  - destruct sv as [c|]; cbn; [naive_solver lia|].
    destruct (signature_verify sig (msg session) pk) as [[]|e|]; cbn; naive_solver lia.
Qed.

Lemma save_signature_Ok st i sig signer st' sig' :
  save_signature st i sig signer = Ok (st', sig') ↔
    load_session_signatures st i !! signer = None ∧ sig' = sig ∧
    st' = set_signatures st
            (<[i := <[signer := sig]> (load_session_signatures st i)]> (SIGNATURES st)).
Proof. unfold save_signature. case_match; naive_solver. Qed.

(** The session after the weight [w] has been counted. *)
Definition recounted (session : SigningSession) (vs : VerifierSet) (w height : Z)
    : SigningSession :=
  if bool_decide (state session = Pending ∧ threshold vs ≤ w)
  then mkSession (session_id session) (verifier_set_id session) (chain_name session)
         (msg session) (Completed height) (expires_at session) (sig_verifier session)
  else session.

Lemma recalculate_session_state_Ok {E} session signatures vs height session' :
  recalculate_session_state session signatures vs height = @Ok E _ session' ↔
    ∃ w, signers_weight signatures vs = @Ok E Z w ∧ session' = recounted session vs w height.
Proof.
  unfold recalculate_session_state, recounted. rewrite bind_Ok.
  split; intros (w & Hw & Hs); exists w; split; try done; case_bool_decide; naive_solver.
Qed.

Lemma load_session_signatures_insert st i sigs j :
  load_session_signatures (set_signatures st (<[i := sigs]> (SIGNATURES st))) j =
    if decide (j = i) then sigs else load_session_signatures st j.
Proof.
  unfold load_session_signatures. cbn. case_decide as Hj; subst.
  - by rewrite lookup_insert_eq.
  - by rewrite lookup_insert_ne.
Qed.

(** A successful submission, taken apart. *)
Lemma submit_signature_Ok st height sender i sigb st' r :
  submit_signature st height sender i sigb = Ok (st', r) →
  ∃ config session vs signer sig w,
    let signatures := <[sender := sig]> (load_session_signatures st i) in
    let session' := recounted session vs w height in
    killswitch.is_contract_active (switch st) = true ∧
    CONFIG st = Some config ∧
    SIGNING_SESSIONS st !! i = Some session ∧
    VERIFIER_SETS st !! verifier_set_id session = Some vs ∧
    signers vs !! sender = Some signer ∧
    signature_try_from (pub_key_type (pub_key signer)) sigb = Ok sig ∧
    height ≤ expires_at session ∧
    (sig_verifier session = None → signature_verify sig (msg session) (pub_key signer) = Ok tt) ∧
    load_session_signatures st i !! sender = None ∧
    signers_weight signatures vs = @Ok ContractError Z w ∧
    st' = set_sessions (set_signatures st (<[i := signatures]> (SIGNATURES st)))
            (<[session_id session' := session']> (SIGNING_SESSIONS st)) ∧
    r = (let res := signing_response session' (bool_decide (state session ≠ state session'))
                      sender sig (rewards_contract config) in
         from_option (λ c, add_message (VerifySignature c (signature_bytes sig) (msg session)
           (pub_key_bytes (pub_key signer)) sender (session_id session)) res) res
           (sig_verifier session)).
Proof.
  unfold submit_signature, item_load. intros Hf. ok_inv. destruct v6 as [st1 sig1]. ok_inv.
  apply validate_session_signature_Ok in Hok5 as (Hexp & Hver & ->).
  apply save_signature_Ok in Hok6 as (Hnew & -> & ->).
  apply recalculate_session_state_Ok in Hok7 as (w & Hw & ->).
  rewrite load_session_signatures_insert, decide_True in Hw by done.
  injection Hf as <- <-. exists v0, v1, v2, v3, v4, w. cbn zeta.
  split_and!; try done. by destruct (sig_verifier v1).
Qed.

Lemma signature_try_from_type t b sig :
  signature_try_from t b = Ok sig → signature_key_type sig = t ∧ signature_bytes sig = b.
Proof. destruct t; cbn; intros Hf; repeat (ok_case; ok_inv); done. Qed.

(** The state of a session after a new signature is counted. *)
Lemma session_ok_submit session vs sigs sender sig signer w height :
  vs_typed vs → session_ok session vs sigs → sigs !! sender = None →
  signers vs !! sender = Some signer →
  signature_key_type sig = pub_key_type (pub_key signer) →
  (sig_verifier session = None → signature_verify sig (msg session) (pub_key signer) = Ok tt) →
  w = signed_weight (<[sender := sig]> sigs) vs →
  session_ok (recounted session vs w height) vs (<[sender := sig]> sigs).
Proof.
  intros [Hty _] [Hmem Hcomp] Hnew Hsigner Hkt Hver ->.
  assert (signed_weight (<[sender := sig]> sigs) vs = signed_weight sigs vs + weight signer) as Hsw.
  { unfold signed_weight. rewrite map_sum_insert_new by done. rewrite Hsigner. cbn. lia. }
  pose proof (Hty sender signer Hsigner) as Hpos. cbn in Hpos.
  assert (<[sender := sig]> sigs ≠ ∅) as Hne by apply insert_non_empty.
  unfold recounted. case_bool_decide as Hc; split; cbn.
  - apply map_Forall_insert_2; [eauto|done].
  - naive_solver.
  - apply map_Forall_insert_2; [eauto|done].
  - rewrite Hsw in *. split; [|naive_solver].
    intros Hs. apply Hcomp in Hs as [_ ?]. split; [done|]. lia.
Qed.

Lemma inv_submit st height sender i sigb st' r :
  inv st → submit_signature st height sender i sigb = Ok (st', r) → inv st'.
Proof.
  intros Hinv Hf. apply submit_signature_Ok in Hf
    as (config & session & vs & signer & sig & w & _ & _ & Hses & Hvs & Hsigner & Htry & _ &
        Hver & Hnew & Hw & -> & _).
  destruct Hinv as [Hsets (n & Hn & Hpos & Hids & Hsig) Hss].
  destruct (Hss i session Hses) as [Hid (vs' & Hvs' & Hok)].
  assert (vs' = vs) as -> by congruence. subst i.
  pose proof (Hsets _ _ Hvs) as Hty. cbn in Hty.
  apply (signers_weight_Ok _ _ _ Hty) in Hw as [Hw _].
  apply signature_try_from_type in Htry as [Hkt _].
  assert (session_id (recounted session vs w height) = session_id session) as Hrid
    by (unfold recounted; by case_bool_decide).
  assert (verifier_set_id (recounted session vs w height) = verifier_set_id session) as Hrvs
    by (unfold recounted; by case_bool_decide).
  rewrite Hrid. split; [done|..].
  - exists n. cbn. split_and!; [done..| |]; intros j; rewrite !lookup_insert_is_Some'.
    + intros [<-|Hj]; [|by apply Hids]. apply Hids. by rewrite Hses.
    + intros [<-|Hj]; [by left|right; by apply Hsig].
  - intros j session'. cbn. rewrite lookup_insert_Some. intros Hj.
    change (load_session_signatures (set_sessions ?s ?m) j) with (load_session_signatures s j).
    rewrite load_session_signatures_insert.
    destruct Hj as [[<- <-]|[Hne Hj]].
    + split; [done|]. exists vs. rewrite Hrvs. split; [done|]. rewrite decide_True by done.
      by eapply session_ok_submit.
    + rewrite decide_False by done. by apply Hss.
Qed.

(** Registering a set keeps the invariant when it does not replace another set. *)
Lemma inv_register st vs st' r :
  inv st → vs_typed vs →
  (VERIFIER_SETS st !! verifier_set.id vs = None ∨
   VERIFIER_SETS st !! verifier_set.id vs = Some vs) →
  register_verifier_set st vs = (st', r) → inv st'.
Proof.
  intros [Hsets Hc Hss] Hty Hstable [= <- _]. split; [|done|].
  - cbn. by apply map_Forall_insert_2.
  - intros i session Hi. destruct (Hss i session Hi) as [Hid (vs' & Hvs' & Hok)].
    split; [done|]. exists vs'. split; [|done]. cbn.
    destruct (decide (verifier_set.id vs = verifier_set_id session)) as [Heq|Hne].
    + rewrite Heq in *. rewrite lookup_insert_eq. destruct Hstable; congruence.
    + by rewrite lookup_insert_ne.
Qed.

Lemma authorize_callers_same st contracts st' r :
  authorize_callers st contracts = Ok (st', r) → same_sessions st st'.
Proof.
  unfold authorize_callers. intros Hf. ok_inv. injection Hf as <- _.
  apply (try_fold_Ok_ind (λ _ st', same_sessions st st') _ _ _ _ Hok); [done|].
  intros k [a c] st1 st2 IH _ Hs. unfold save_prover in Hs. ok_inv. done.
Qed.

Lemma unauthorize_callers_same st callers st' r :
  unauthorize_callers st callers = (st', r) → same_sessions st st'.
Proof.
  unfold unauthorize_callers.
  assert (∀ acc, same_sessions st acc.1 →
    same_sessions st (foldl unauthorize_caller acc callers).1) as Hfold.
  { induction callers as [|c callers IH]; intros acc Hacc; [done|]. cbn. apply IH.
    unfold unauthorize_caller, remove_prover. by destruct (PROVER_CHAIN _ !! c). }
  specialize (Hfold (st, []) ltac:(done)).
  destruct (foldl _ _ _) as [st1 cs]. by intros [= <- _].
Qed.

Lemma save_pub_key_Ok st a pk st' :
  save_pub_key st a pk = Ok st' ↔
    (∀ k v, PUB_KEYS st !! k = Some v → v ≠ pub_key_bytes pk) ∧
    st' = set_pub_keys st (<[(a, pub_key_type pk) := pub_key_bytes pk]> (PUB_KEYS st)).
Proof.
  unfold save_pub_key.
  destruct (unique_index_item _ _ _) as [[k v]|] eqn:Hi.
  - apply unique_index_item_Some in Hi as [Hk Hv]. split; [done|]. intros [Hall _].
    by destruct (Hall k v).
  - rewrite unique_index_item_None in Hi.
    rewrite (proj2 (unique_index_save_Ok (λ k : string, k) (PUB_KEYS st)
      (a, pub_key_type pk) (pub_key_bytes pk) _)) by (split; [done|eauto]).
    cbn. naive_solver.
Qed.

Lemma register_pub_key_Ok st sender pk sigb st' r :
  register_pub_key st sender pk sigb = Ok (st', r) ↔
    ∃ sig, signature_try_from (pub_key_type pk) sigb = Ok sig ∧
      signature_verify sig (keccak256 sender) pk = Ok tt ∧
      save_pub_key st sender pk = Ok st' ∧
      r = mkResponse [] [PublicKeyRegistered sender pk].
Proof.
  unfold register_pub_key. split.
  - intros Hf. ok_inv. simplify_eq. eauto.
  - intros (sig & Hsig & Hv & Hs & ->). rewrite Hsig; cbn. rewrite Hv; cbn. by rewrite Hs.
Qed.

(** A step of the contract.  A registration may not replace a stored set by a
    different one. *)
Definition stable_registration (st : State) (m : ExecuteMsg) : Prop :=
  match m with
  | RegisterVerifierSet vs =>
      vs_typed vs ∧ (VERIFIER_SETS st !! verifier_set.id vs = None ∨
                     VERIFIER_SETS st !! verifier_set.id vs = Some vs)
  | _ => True
  end.

Definition relayed (m : msgs_derive.ExecuteMsgFromProxy ExecuteMsg) : ExecuteMsg :=
  match m with msgs_derive.Relay _ m | msgs_derive.Direct m => m end.

(** The storages the contract can reach when every message satisfies [P]. *)
Inductive reachable (P : State → ExecuteMsg → Prop) : State → Prop :=
  | reachable_init m st r : instantiate m = Ok (st, r) → reachable P st
  | reachable_step st height sender m st' r d :
      reachable P st → P st (relayed m) →
      execute st height sender m = Ok (st', r, d) → reachable P st'.

Lemma multisig_authorize_relayed st sender m m' sender' :
  authorize st sender m = Ok (m', sender') → m' = relayed m.
Proof.
  unfold authorize, msgs_derive.authorize. intros Hf. ok_inv. destruct v as [m1 s1]. ok_inv.
  apply msgs_derive.ensure_permissions_same in Hok0. simplify_eq.
  destruct m as [o m|m]; cbn in *; ok_inv; [|by simplify_eq].
  unfold msgs_derive.verify_external_executor in *. ok_case. ok_inv. by simplify_eq.
Qed.

Lemma multisig_inv_execute st height sender m st' r d :
  inv st → stable_registration st (relayed m) →
  execute st height sender m = Ok (st', r, d) → inv st'.
Proof.
  intros Hinv Hstable Hf. unfold execute in Hf. ok_inv. destruct v as [m' sender'].
  apply multisig_authorize_relayed in Hok. subst m'.
  destruct (relayed m); ok_all; simplify_eq.
  - by eapply inv_start.
  - by eapply inv_submit.
  - destruct Hstable, (register_verifier_set st verifier_set) as [st1 r1] eqn:Hr.
    simplify_eq. by eapply inv_register.
  - apply register_pub_key_Ok in Hok as (? & _ & _ & [_ ->]%save_pub_key_Ok & _).
    by apply (inv_same_sessions st).
  - eapply inv_same_sessions; [by eapply authorize_callers_same|done].
  - destruct (unauthorize_callers st v) as [st1 r1] eqn:Hr. simplify_eq.
    eapply inv_same_sessions; [by eapply unauthorize_callers_same|done].
  - unfold disable_signing in *. ok_all. simplify_eq. by apply (inv_same_sessions st).
  - unfold enable_signing in *. ok_all. simplify_eq. by apply (inv_same_sessions st).
  - unfold update_signing_parameters in *. ok_all. simplify_eq. by apply (inv_same_sessions st).
Qed.

Lemma multisig_reachable_inv st : reachable stable_registration st → inv st.
Proof.
  induction 1 as [m st r Hi|]; [|by eapply multisig_inv_execute].
  unfold instantiate in Hi. ok_inv. injection Hi as <- _. split; [apply map_Forall_empty| |].
  - exists 0. cbn. split_and!; [done..| |]; intros i; rewrite lookup_empty; by intros [? ?].
  - intros i session. cbn. by rewrite lookup_empty.
Qed.

(** Provers and public keys stay unique by chain and by key, whatever is executed. *)
Definition registries_unique (st : State) : Prop :=
  index_unique (λ c : string, c) (PROVER_CHAIN st) ∧
  index_unique (λ k : string, k) (PUB_KEYS st).

Lemma registries_authorize st contracts st' r :
  registries_unique st → authorize_callers st contracts = Ok (st', r) → registries_unique st'.
Proof.
  unfold authorize_callers. intros Hu Hf. ok_inv. injection Hf as <- _.
  apply (try_fold_Ok_ind (λ _ st', registries_unique st') _ _ _ _ Hok); [done|].
  intros k [a c] st1 st2 [Hp Hk] _ Hs. unfold save_prover in Hs. ok_inv.
  split; [by eapply index_unique_save|done].
Qed.

Lemma registries_unauthorize st callers st' r :
  registries_unique st → unauthorize_callers st callers = (st', r) → registries_unique st'.
Proof.
  unfold unauthorize_callers. intros Hu.
  assert (∀ acc, registries_unique acc.1 →
    registries_unique (foldl unauthorize_caller acc callers).1) as Hfold.
  { induction callers as [|c callers IH]; intros acc Hacc; [done|]. cbn. apply IH.
    unfold unauthorize_caller, remove_prover. destruct (PROVER_CHAIN _ !! c); [|done].
    destruct Hacc as [Hp Hk]. split; [by apply index_unique_delete|done]. }
  specialize (Hfold (st, []) Hu). destruct (foldl _ _ _) as [st1 cs]. by intros [= <- _].
Qed.

Lemma registries_execute st height sender m st' r d :
  registries_unique st → execute st height sender m = Ok (st', r, d) → registries_unique st'.
Proof.
  intros Hu Hf. unfold execute in Hf. ok_inv. destruct v as [m' sender']. clear Hok.
  destruct m'; ok_all; simplify_eq.
  - by apply start_signing_session_Ok in Hok0 as (? & ? & ? & _ & _ & _ & _ & _ & _ & _ & -> & _).
  - by apply submit_signature_Ok in Hok
      as (? & ? & ? & ? & ? & ? & _ & _ & _ & _ & _ & _ & _ & _ & _ & _ & -> & _).
  - destruct (register_verifier_set st verifier_set) as [st1 r1] eqn:Hr.
    injection Hr as <- _. by simplify_eq.
  - apply register_pub_key_Ok in Hok as (? & _ & _ & [Hnew ->]%save_pub_key_Ok & _).
    destruct Hu as [Hp Hk]. split; [done|]. intros k1 k2 w1 w2. cbn.
    rewrite !lookup_insert_Some. naive_solver.
  - by eapply registries_authorize.
  - destruct (unauthorize_callers st v) as [st1 r1] eqn:Hr. simplify_eq.
    by eapply registries_unauthorize.
  - unfold disable_signing in *. by ok_all; simplify_eq.
  - unfold enable_signing in *. by ok_all; simplify_eq.
  - unfold update_signing_parameters in *. by ok_all; simplify_eq.
Qed.

Lemma reachable_registries P st : reachable P st → registries_unique st.
Proof.
  induction 1 as [m st r Hi|]; [|by eapply registries_execute].
  unfold instantiate in Hi. ok_inv. injection Hi as <- _.
  split; intros k1 k2 w1 w2; cbn; by rewrite lookup_empty.
Qed.

(** *** How a session may change *)

(** The fields a session keeps, and the only change of its state. *)
Definition session_le (s s' : SigningSession) : Prop :=
  session_id s' = session_id s ∧ verifier_set_id s' = verifier_set_id s ∧
  chain_name s' = chain_name s ∧ msg s' = msg s ∧ expires_at s' = expires_at s ∧
  sig_verifier s' = sig_verifier s ∧ (state s' = state s ∨ state s = Pending).

Definition sessions_le (st st' : State) : Prop :=
  ∀ i s, SIGNING_SESSIONS st !! i = Some s →
    ∃ s', SIGNING_SESSIONS st' !! i = Some s' ∧ session_le s s' ∧
          load_session_signatures st i ⊆ load_session_signatures st' i.

Lemma session_le_refl s : session_le s s.
Proof. unfold session_le. naive_solver. Qed.

Lemma sessions_le_same st st' : same_sessions st st' → sessions_le st st'.
Proof.
  intros (_ & H2 & _ & H4) i s Hi. exists s. rewrite H2. unfold load_session_signatures.
  rewrite H4. split_and!; [done|apply session_le_refl|done].
Qed.

Lemma sessions_le_start st height vid m chain sv st' r i :
  inv st → start_signing_session st height vid m chain sv = Ok (st', r, i) → sessions_le st st'.
Proof.
  intros [_ (n & Hn & _ & Hses & _) _] Hf.
  apply start_signing_session_Ok in Hf as (? & vs & n' & _ & _ & _ & Hn' & -> & _ & _ & -> & _).
  assert (n' = n) as -> by congruence. intros j s Hj.
  assert (1 ≤ j ≤ n) by (apply Hses; by rewrite Hj).
  exists s. cbn. rewrite lookup_insert_ne by lia. split_and!; [done|apply session_le_refl|done].
Qed.

Lemma sessions_le_submit st height sender i sigb st' r :
  inv st → submit_signature st height sender i sigb = Ok (st', r) → sessions_le st st'.
Proof.
  intros Hinv Hf. apply submit_signature_Ok in Hf
    as (config & session & vs & signer & sig & w & _ & _ & Hses & _ & _ & _ & _ & _ & Hnew & _ &
        -> & _).
  destruct Hinv as [_ _ Hss]. destruct (Hss i session Hses) as [<- _].
  assert (session_le session (recounted session vs w height)) as Hle.
  { unfold recounted, session_le. case_bool_decide; naive_solver. }
  destruct Hle as [Hid Hle]. rewrite Hid. intros j s Hj. cbn.
  change (load_session_signatures (set_sessions ?s ?m) j) with (load_session_signatures s j).
  rewrite load_session_signatures_insert.
  destruct (decide (j = session_id session)) as [->|Hne].
  - rewrite lookup_insert_eq. eexists. split; [done|]. simplify_eq. split; [by split|].
    by apply insert_subseteq.
  - rewrite lookup_insert_ne by done. exists s. split_and!; [done|apply session_le_refl|done].
Qed.

Lemma sessions_le_execute st height sender m st' r d :
  inv st → execute st height sender m = Ok (st', r, d) → sessions_le st st'.
Proof.
  intros Hinv Hf. unfold execute in Hf. ok_inv. destruct v as [m' sender']. clear Hok.
  destruct m'; ok_all; simplify_eq.
  - by eapply sessions_le_start.
  - by eapply sessions_le_submit.
  - destruct (register_verifier_set st verifier_set) as [st1 r1] eqn:Hr.
    injection Hr as <- _. simplify_eq. intros i s Hi. exists s.
    split_and!; [done|apply session_le_refl|done].
  - apply register_pub_key_Ok in Hok as (? & _ & _ & [Hnew ->]%save_pub_key_Ok & _).
    by apply sessions_le_same.
  - by eapply sessions_le_same, authorize_callers_same.
  - destruct (unauthorize_callers st v) as [st1 r1] eqn:Hr. simplify_eq.
    by eapply sessions_le_same, unauthorize_callers_same.
  - unfold disable_signing in *. ok_all; simplify_eq. by apply sessions_le_same.
  - unfold enable_signing in *. ok_all; simplify_eq. by apply sessions_le_same.
  - unfold update_signing_parameters in *. ok_all; simplify_eq. by apply sessions_le_same.
Qed.

(** *** Submission on every branch *)

(** The conditions under which a signature is accepted. *)
Definition accepts (st : State) (height : Z) (sender : Addr) (i : Z) (sigb : string) : Prop :=
  killswitch.is_contract_active (switch st) = true ∧ is_Some (CONFIG st) ∧
  ∃ session vs signer sig,
    SIGNING_SESSIONS st !! i = Some session ∧
    VERIFIER_SETS st !! verifier_set_id session = Some vs ∧
    signers vs !! sender = Some signer ∧
    signature_try_from (pub_key_type (pub_key signer)) sigb = Ok sig ∧
    height ≤ expires_at session ∧
    (sig_verifier session = None → signature_verify sig (msg session) (pub_key signer) = Ok tt) ∧
    load_session_signatures st i !! sender = None.

Definition total_weight (vs : VerifierSet) : Z := map_sum (λ _ s, weight s) (signers vs).

(** Counting never panics: the signers are members and their weight is part of the
    total. *)
Lemma signers_weight_submit session vs sigs sender sig signer :
  vs_typed vs → total_weight vs ≤ u128_max → session_ok session vs sigs →
  signers vs !! sender = Some signer →
  ∃ w, @signers_weight ContractError (<[sender := sig]> sigs) vs = Ok w.
Proof.
  intros Hty Hmax [Hmem _] Hs. eexists. apply signers_weight_defined; [done|..].
  - apply map_Forall_insert_2; [by eexists|]. intros a s Ha.
    destruct (Hmem a s Ha) as (x & Hx & _). by exists x.
  - etrans; [|exact Hmax]. unfold signed_weight, total_weight.
    apply (map_sum_dom_le (λ _ s, weight s)). intros k v Hk. destruct Hty as [Hty _].
    by apply (Hty k).
Qed.

Lemma signature_try_from_no_panic t b : signature_try_from t b ≠ Panic.
Proof. destruct t; cbn; repeat case_bool_decide; done. Qed.

Lemma validate_session_signature_no_panic session signer sig pk height sv :
  validate_session_signature session signer sig pk height sv ≠ Panic.
Proof.
  unfold validate_session_signature, signature_verify, ecdsa_verify, ed25519_verify.
  case_bool_decide; [done|]. destruct sv; [done|]. case_bool_decide; [done|].
  destruct (signature_key_type sig); cbn;
    [destruct (secp256k1_verify _ _ _) as [[]|]|destruct (ed25519_verify_bytes _ _ _) as [[]|]];
    done.
Qed.

Lemma submit_accepts st height sender i sigb st' r :
  submit_signature st height sender i sigb = Ok (st', r) → accepts st height sender i sigb.
Proof.
  intros Hf. apply submit_signature_Ok in Hf
    as (config & session & vs & signer & sig & w & Hact & Hc & Hses & Hvs & Hsigner & Htry & Hexp &
        Hver & Hnew & _).
  split_and!; [done|by eexists|]. exists session, vs, signer, sig. done.
Qed.

Lemma submit_defined st height sender i sigb :
  inv st → map_Forall (λ _ vs, total_weight vs ≤ u128_max) (VERIFIER_SETS st) →
  submit_signature st height sender i sigb ≠ Panic ∧
  (accepts st height sender i sigb → ∃ st' r, submit_signature st height sender i sigb = Ok (st', r)).
Proof.
  intros [Hsets _ Hss] Hmax. unfold submit_signature, item_load, accepts. split.
  - destruct (killswitch.is_contract_active _); cbn; [|done].
    destruct (CONFIG st); cbn; [|done].
    destruct (SIGNING_SESSIONS st !! i) as [session|] eqn:Hses; cbn; [|done].
    destruct (VERIFIER_SETS st !! _) as [vs|] eqn:Hvs; cbn; [|done].
    destruct (signers vs !! sender) as [signer|] eqn:Hs; cbn; [|done].
    pose proof (signature_try_from_no_panic (pub_key_type (pub_key signer)) sigb).
    destruct (signature_try_from _ _) as [sig|e|]; cbn; [|done..].
    pose proof (validate_session_signature_no_panic session sender sig (pub_key signer) height
      (sig_verifier session)).
    destruct (validate_session_signature _ _ _ _ _ _) as [m|e|]; cbn; [|done..].
    unfold save_signature. destruct (load_session_signatures st i !! sender); cbn; [done|].
    rewrite load_session_signatures_insert, decide_True by done.
    destruct (Hss i session Hses) as [_ (vs' & Hvs' & Hok)].
    assert (vs' = vs) as -> by congruence.
    destruct (signers_weight_submit session vs _ sender sig signer (Hsets _ _ Hvs)
      (Hmax _ _ Hvs) Hok Hs) as [w Hw].
    rewrite (proj2 (recalculate_session_state_Ok session _ vs height _)) by eauto. done.
  - intros (Hact & [config Hc] & session & vs & signer & sig & Hses & Hvs & Hs & Htry & Hexp &
            Hver & Hnew).
    destruct (Hss i session Hses) as [_ (vs' & Hvs' & Hok)].
    assert (vs' = vs) as -> by congruence.
    destruct (signers_weight_submit session vs _ sender sig signer (Hsets _ _ Hvs)
      (Hmax _ _ Hvs) Hok Hs) as [w Hw].
    rewrite Hact, Hc; cbn. rewrite Hses; cbn. rewrite Hvs; cbn. rewrite Hs; cbn. rewrite Htry; cbn.
    rewrite (proj2 (validate_session_signature_Ok session sender sig (pub_key signer) height
      (sig_verifier session) _)) by done. cbn.
    rewrite (proj2 (save_signature_Ok st i sig sender _ sig)) by done. cbn.
    rewrite load_session_signatures_insert, decide_True by done.
    rewrite (proj2 (recalculate_session_state_Ok session _ vs height _)) by eauto. cbn. eauto.
Qed.

End preservation.
(** *** The greedy selection is minimal *)

Definition weights (l : list (Signer * Signature)) : list Z := (λ p, weight p.1) <$> l.

Lemma fmap_submseteq' {A B} (f : A → B) l k : l ⊆+ k → f <$> l ⊆+ f <$> k.
Proof. induction 1; csimpl; by econstructor. Qed.

(** Among the sub-multisets of a descending list, the prefix of the same length has
    the largest sum. *)
Lemma sum_submseteq_take l k :
  StronglySorted Z.ge l → k ⊆+ l → sum_list k ≤ sum_list (take (length k) l).
Proof.
  intros Hs. revert k. induction Hs as [|x l Hs IH Hx]; intros k Hk.
  - apply submseteq_nil_r in Hk as ->. done.
  - apply submseteq_cons_r in Hk as [Hk|(k' & Hk & Hk')].
    + destruct k as [|y k]; [done|]. cbn.
      assert (y ∈ l) as Hy by (eapply elem_of_submseteq; [apply list_elem_of_here|done]).
      assert (k ⊆+ l) as Hkl by (etrans; [by apply submseteq_cons|done]).
      rewrite Forall_forall in Hx. specialize (Hx y Hy). specialize (IH k Hkl). lia.
    + rewrite Hk. cbn. specialize (IH k' Hk'). lia.
Qed.

Lemma take_quorum_take t acc l :
  take_quorum t acc l = take (length (take_quorum t acc l)) l.
Proof.
  revert acc. induction l as [|[s sig] l IH]; intros acc; cbn; [done|].
  case_bool_decide; cbn; [|done]. f_equal. apply IH.
Qed.

(** Before each selected signature the threshold was not reached; after the last
    one it is, when the whole list reaches it. *)
Lemma take_quorum_spec t acc l :
  Forall (λ w, 0 ≤ w) (weights l) → 0 ≤ acc → acc + sum_list (weights l) ≤ u128_max →
  (∀ n, (n < length (take_quorum t acc l))%nat → acc + sum_list (weights (take n l)) < t) ∧
  (t ≤ acc + sum_list (weights l) → t ≤ acc + sum_list (weights (take_quorum t acc l))).
Proof.
  revert acc. induction l as [|[s sig] l IH]; intros acc Hpos Hacc Hmax; csimpl in *.
  - split; [intros n Hn; lia|done].
  - apply Forall_cons in Hpos as [Hs Hpos]. pose proof (sum_list_nonneg _ Hpos) as Hsum.
    cbn in Hs. case_bool_decide as Hlt; csimpl; [|split; [intros n Hn; lia|lia]].
    assert (saturating_add u128_max acc (weight s) = acc + weight s) as ->
      by (unfold saturating_add; lia).
    destruct (IH (acc + weight s)) as [IH1 IH2]; [done|lia|lia|]. split.
    + intros [|n] Hn; csimpl; [lia|]. specialize (IH1 n ltac:(lia)). unfold weights in *. lia.
    + intros Ht. specialize (IH2 ltac:(unfold weights in *; lia)). unfold weights in *. lia.
Qed.

#[global] Instance by_weight_total : Total by_weight.
Proof. intros [x ?] [y ?]. unfold by_weight; cbn. lia. Qed.
#[global] Instance by_weight_trans : Transitive by_weight.
Proof. intros [x ?] [y ?] [z ?]. unfold by_weight; cbn. lia. Qed.

Lemma weights_sorted (l : list (Signer * Signature)) :
  StronglySorted Z.ge (weights (merge_sort by_weight l)).
Proof.
  assert (StronglySorted by_weight (merge_sort by_weight l)) as Hs
    by (apply StronglySorted_merge_sort; apply _).
  induction Hs as [|x k Hs IH Hx]; csimpl; constructor; [done|].
  apply Forall_fmap. eapply Forall_impl; [done|]. intros y Hy. unfold by_weight in Hy. cbn. lia.
Qed.

(** What [optimize_signatures] computes when every signature is from a member. *)
Lemma optimize_signatures_eq {E} (self : Multisig) (iter : list (string * Signature)) :
  Forall (λ p, is_Some (signers (m_verifier_set self) !! p.1)) iter →
  ∃ signed,
    Forall2 (λ p q, signers (m_verifier_set self) !! p.1 = Some q.1 ∧ q.2 = p.2) iter signed ∧
    optimize_signatures self iter =
      @Ok E _ (take_quorum (threshold (m_verifier_set self)) 0 (merge_sort by_weight signed)).
Proof.
  intros Hall. unfold optimize_signatures, m_signer.
  assert (∃ signed, Forall2 (λ p q, signers (m_verifier_set self) !! p.1 = Some q.1 ∧ q.2 = p.2)
      iter signed ∧ @try_map E _ _ (λ '(addr, signature),
        signer ← expect (signers (m_verifier_set self) !! addr); Ok (signer, signature)) iter =
      Ok signed) as (signed & Hf & ->); [|by exists signed].
  induction Hall as [|[a sig] iter [s Hs] _ (signed & Hf & IH)]; [by exists []|].
  exists ((s, sig) :: signed). cbn in *. rewrite Hs. cbn. rewrite IH. split; [by constructor|done].
Qed.

(** The weight of an entry of the signature map. *)
Definition entry_weight (vs : VerifierSet) (p : string * Signature) : Z :=
  from_option weight 0 (signers vs !! p.1).

Lemma signed_weight_list sigs vs :
  signed_weight sigs vs = sum_list (entry_weight vs <$> map_to_list sigs).
Proof. unfold signed_weight. by rewrite map_sum_list. Qed.

Lemma entry_weight_nonneg vs p : vs_typed vs → 0 ≤ entry_weight vs p.
Proof.
  intros [Hty _]. unfold entry_weight. destruct (signers vs !! p.1) as [s|] eqn:Hs; cbn; [|done].
  by apply (Hty p.1).
Qed.

Lemma sorted_weights vs iter sigs signed :
  iter ≡ₚ map_to_list sigs →
  Forall2 (λ p q, signers vs !! p.1 = Some q.1 ∧ q.2 = p.2) iter signed →
  weights (merge_sort by_weight signed) ≡ₚ entry_weight vs <$> map_to_list sigs.
Proof.
  intros Hiter Hf.
  assert (weights signed = entry_weight vs <$> iter) as Hw.
  { clear -Hf. induction Hf as [|[a sig] [s sig'] iter signed [Hs _] _ IH]; [done|].
    unfold weights, entry_weight in *. csimpl in *. by rewrite Hs, IH. }
  rewrite <-Hiter, <-Hw. unfold weights. by rewrite (merge_sort_Permutation by_weight signed).
Qed.

(** A choice of signatures weighs at most as much as as many of the heaviest ones. *)
Lemma choice_weight_le vs sigs choice signed :
  weights (merge_sort by_weight signed) ≡ₚ entry_weight vs <$> map_to_list sigs →
  choice ⊆ sigs →
  signed_weight choice vs ≤ sum_list (weights (take (size choice) (merge_sort by_weight signed))).
Proof.
  intros Hw Hsub. rewrite signed_weight_list.
  assert (entry_weight vs <$> map_to_list choice ⊆+ weights (merge_sort by_weight signed)) as Hin.
  { rewrite Hw. by apply fmap_submseteq', map_to_list_submseteq. }
  apply (sum_submseteq_take _ _ (weights_sorted signed)) in Hin.
  rewrite length_fmap, length_map_to_list in Hin.
  unfold weights in *. by rewrite <-fmap_take in Hin.
Qed.

Lemma signed_elem vs iter sigs signed signer sig :
  iter ≡ₚ map_to_list sigs →
  Forall2 (λ p q, signers vs !! p.1 = Some q.1 ∧ q.2 = p.2) iter signed →
  (signer, sig) ∈ merge_sort by_weight signed →
  ∃ a, sigs !! a = Some sig ∧ signers vs !! a = Some signer.
Proof.
  intros Hiter Hf Hin. rewrite (merge_sort_Permutation by_weight signed) in Hin.
  apply list_elem_of_lookup in Hin as [n Hn].
  destruct (Forall2_lookup_r _ _ _ _ _ Hf Hn) as ([a sig'] & Hi & Ha & Heq). cbn in *. subst.
  exists a. split; [|done]. apply elem_of_map_to_list. rewrite <-Hiter.
  by eapply list_elem_of_lookup_2.
Qed.

End multisig.
Import multisig.

(** * Properties *)

(** C3: In every storage the contract can reach, as long as nobody registers a
    different verifier set under the identifier of a stored one, each signing session
    is sound: its signatures are by members of its verifier set, of the type of the
    member's key and (unless the session delegates verification) valid for the
    session's message under that key, and the session is completed exactly when there
    are signatures whose total weight reaches the threshold of the set. *)
Theorem signing_sessions_sound `{Crypto} `{HexCodec} `{Api} (st : State) (i : Z)
    (session : SigningSession) :
  reachable stable_registration st →
  SIGNING_SESSIONS st !! i = Some session →
  ∃ vs, VERIFIER_SETS st !! verifier_set_id session = Some vs ∧
    (∀ a sig, load_session_signatures st i !! a = Some sig →
       ∃ signer, signers vs !! a = Some signer ∧
         signature_key_type sig = pub_key_type (pub_key signer) ∧
         (sig_verifier session = None →
          signature_verify sig (msg session) (pub_key signer) = Ok tt)) ∧
    (state session ≠ Pending ↔
       load_session_signatures st i ≠ ∅ ∧
       threshold vs ≤ signed_weight (load_session_signatures st i) vs).
Proof.
  intros Hr Hi. destruct (multisig_reachable_inv st Hr) as [_ _ Hss].
  destruct (Hss i session Hi) as [_ (vs & Hvs & [Hmem Hcomp])].
  exists vs. split_and!; [done|intros a sig Ha; by apply (Hmem a sig)|done..].
Qed.

(** C39: A signature is accepted exactly when signing is enabled, the session exists and
    is not past its expiry height, the sender is a member of the session's verifier
    set that has not signed yet, and the signature has the right format and (unless
    verification is delegated) verifies; and the submission never panics, when the
    weights of the stored verifier sets add up within 128 bits. This is for every state that is
    reached without registering a verifier set again with another content under its identifier. *)
Theorem submit_signature_exact `{Crypto} `{HexCodec} `{Api} (st : State) (height : Z)
    (sender : Addr) (i : Z) (sigb : string) :
  reachable stable_registration st →
  map_Forall (λ _ vs, total_weight vs ≤ u128_max) (VERIFIER_SETS st) →
  submit_signature st height sender i sigb ≠ Panic ∧
  ((∃ st' r, submit_signature st height sender i sigb = Ok (st', r)) ↔
   accepts st height sender i sigb).
Proof.
  intros Hr Hmax. pose proof (multisig_reachable_inv st Hr) as Hinv.
  destruct (submit_defined st height sender i sigb Hinv Hmax) as [Hnp Hacc].
  split; [done|]. split; [|done]. intros (st' & r & Hf). by eapply submit_accepts.
Qed.

(** Whatever message is executed, the sessions that exist keep their identifier,
    verifier set, chain, message, expiry and verifier, their signatures are only
    added to, and a completed session keeps its completion height: the state changes
    at most once, from pending to completed. *)
Theorem signing_sessions_only_grow `{Crypto} `{HexCodec} `{Api} (st st' : State) (height : Z)
    (sender : Addr) (m : msgs_derive.ExecuteMsgFromProxy ExecuteMsg) r d (i : Z)
    (session : SigningSession) :
  reachable stable_registration st →
  execute st height sender m = Ok (st', r, d) →
  SIGNING_SESSIONS st !! i = Some session →
  ∃ session', SIGNING_SESSIONS st' !! i = Some session' ∧
    session_id session' = session_id session ∧
    verifier_set_id session' = verifier_set_id session ∧
    chain_name session' = chain_name session ∧ msg session' = msg session ∧
    expires_at session' = expires_at session ∧ sig_verifier session' = sig_verifier session ∧
    (∀ c, state session = Completed c → state session' = Completed c) ∧
    load_session_signatures st i ⊆ load_session_signatures st' i.
Proof.
  intros Hr Hf Hi. pose proof (multisig_reachable_inv st Hr) as Hinv.
  destruct (sessions_le_execute _ _ _ _ _ _ _ Hinv Hf i session Hi)
    as (s' & Hs' & (? & ? & ? & ? & ? & ? & Hst) & Hsub).
  exists s'. split_and!; try done. intros c Hc. destruct Hst; congruence.
Qed.

(** Sessions are only started by the prover of their chain: a message to start one is
    executed only when the sender is the registered prover of the requested chain,
    that chain has no other prover, and the new session gets a fresh identifier, the
    requested verifier set and message, and an expiry of exactly the configured number
    of blocks ahead. *)
Theorem start_signing_session_only_by_prover `{Crypto} `{HexCodec} `{Api} (st st' : State)
    (height : Z) (sender : Addr) (vid m chain : string) (sv : option string) r d :
  reachable stable_registration st →
  execute st height sender (msgs_derive.Direct (StartSigningSession vid m chain sv))
    = Ok (st', r, d) →
  PROVER_CHAIN st !! sender = Some chain ∧
  (∀ other, PROVER_CHAIN st !! other = Some chain → other = sender) ∧
  ∃ i config session, d = Some i ∧ SIGNING_SESSIONS st !! i = None ∧
    CONFIG st = Some config ∧
    SIGNING_SESSIONS st' = <[i := session]> (SIGNING_SESSIONS st) ∧
    is_Some (VERIFIER_SETS st !! vid) ∧
    verifier_set_id session = vid ∧ msg session = m ∧ chain_name session = chain ∧
    state session = Pending ∧ load_session_signatures st' i = ∅ ∧
    expires_at session = height + block_expiry config.
Proof.
  intros Hr Hf. destruct (reachable_registries _ _ Hr) as [Hu _].
  destruct (multisig_reachable_inv st Hr) as [_ (n & Hn & _ & Hses & Hsig) _].
  unfold execute in Hf. ok_inv. destruct v as [m' sender'].
  unfold authorize in Hok. apply msgs_derive.authorize_direct in Hok as (-> & -> & Hperm).
  apply (msgs_derive.ensure_permissions_specific _ _ _ _ _ "authorized") in Hperm; [|done..].
  injection Hperm as Hperm. unfold caller_authorized, chain_by_prover in Hperm. breflect.
  split; [done|]. split; [intros other Ho; by eapply (Hu other sender chain chain)|].
  ok_all. simplify_eq.
  apply start_signing_session_Ok in Hok0
    as (config & vs & n' & _ & Hc & Hvs & Hn' & -> & _ & _ & -> & _).
  assert (n' = n) as -> by congruence.
  assert (SIGNING_SESSIONS st !! (n + 1) = None) as Hfresh.
  { apply eq_None_not_Some. intros Hi%Hses. lia. }
  exists (n + 1), config, (SigningSession_new (n + 1) vid chain m (height + block_expiry config) v).
  split_and!; try done.
  unfold load_session_signatures. cbn. destruct (SIGNATURES st !! (n + 1)) eqn:Hs; [|done].
  exfalso. assert (is_Some (SIGNING_SESSIONS st !! (n + 1))) as Hx by (apply Hsig; by rewrite Hs).
  rewrite Hfresh in Hx. by destruct Hx.
Qed.

(** The prover registry and the key registry stay injective whatever is executed: a
    chain has at most one prover, a public key belongs to at most one address and key
    type, and a key is only registered with a signature by that key over the hash of
    the registering address. *)
Theorem registries_stay_unique `{Crypto} `{HexCodec} `{Api} (st st' : State) (height : Z)
    (sender : Addr) (pk : PublicKey) (sigb : string) r d :
  reachable (λ _ _, True) st →
  execute st height sender (msgs_derive.Direct (RegisterPublicKey pk sigb)) = Ok (st', r, d) →
  (∀ a1 a2 chain, PROVER_CHAIN st' !! a1 = Some chain → PROVER_CHAIN st' !! a2 = Some chain →
     a1 = a2) ∧
  (∀ k1 k2 b, PUB_KEYS st' !! k1 = Some b → PUB_KEYS st' !! k2 = Some b → k1 = k2) ∧
  PUB_KEYS st' = <[(sender, pub_key_type pk) := pub_key_bytes pk]> (PUB_KEYS st) ∧
  ∃ sig, signature_try_from (pub_key_type pk) sigb = Ok sig ∧
         signature_verify sig (keccak256 sender) pk = Ok tt.
Proof.
  intros Hr Hf.
  destruct (registries_execute _ _ _ _ _ _ _ (reachable_registries _ _ Hr) Hf) as [Hp Hk].
  split; [intros a1 a2 c H1' H2'; by apply (Hp a1 a2 c c)|].
  split; [intros k1 k2 b H1' H2'; by apply (Hk k1 k2 b b)|].
  unfold execute in Hf. ok_inv. destruct v as [m' sender']. unfold authorize in Hok.
  apply msgs_derive.authorize_direct in Hok as (-> & -> & _). ok_all. simplify_eq.
  apply register_pub_key_Ok in Hok as (sig & Hsig & Hver & [_ ->]%save_pub_key_Ok & _).
  split; [done|]. by exists sig.
Qed.

(** Anyone can evict the members of a registered verifier set. The identifier of a
    set hashes the signers but not the keys they are stored under, and registration is
    open to every sender, so re-registering the same signers under other keys replaces
    the stored set under the same identifier; a member whose key is gone can no longer
    sign the sessions that use the set. *)
Theorem verifier_set_registration_evicts `{Crypto} `{HexCodec} `{Api} (st : State)
    (vs vs' : VerifierSet) (height : Z) (anyone member : Addr) (i : Z)
    (session : SigningSession) :
  (entries (signers vs')).*2 = (entries (signers vs)).*2 →
  threshold vs' = threshold vs → created_at vs' = created_at vs →
  SIGNING_SESSIONS st !! i = Some session → verifier_set_id session = verifier_set.id vs →
  VERIFIER_SETS st !! verifier_set.id vs = Some vs →
  signers vs' !! member = None →
  killswitch.is_contract_active (switch st) = true → is_Some (CONFIG st) →
  ∃ st', execute st height anyone (msgs_derive.Direct (RegisterVerifierSet vs'))
           = Ok (st', Response_new, None) ∧
    VERIFIER_SETS st' !! verifier_set.id vs = Some vs' ∧
    ∀ h sigb, submit_signature st' h member i sigb = Err (NotAParticipant i member).
Proof.
  intros Hent Hthr Hcr Hses Hid Hvs Hgone Hact [config Hc].
  assert (verifier_set.id vs' = verifier_set.id vs) as Heq.
  { unfold verifier_set.id, verifier_set.hash, hash_preimage. rewrite Hthr, Hcr.
    rewrite <-!entries_length, <-(length_fmap snd (entries (signers vs'))),
      <-(length_fmap snd (entries (signers vs))), Hent.
    assert (∀ l : list (string * Signer), (λ '(_, signer), address signer +:+
        pub_key_bytes (pub_key signer) +:+ to_be_bytes 16 (weight signer)) <$> l =
      (λ signer, address signer +:+ pub_key_bytes (pub_key signer) +:+
        to_be_bytes 16 (weight signer)) <$> l.*2) as Hl.
    { intros l. rewrite <-list_fmap_compose. apply list_fmap_ext. by intros ? []. }
    by rewrite !Hl, Hent. }
  eexists. unfold execute, authorize, register_verifier_set. split; [reflexivity|].
  rewrite Heq. cbn. split; [by rewrite lookup_insert_eq|].
  intros h sigb. unfold submit_signature, item_load. cbn. rewrite Hact, Hc. cbn. rewrite Hses. cbn.
  rewrite Hid, lookup_insert_eq. cbn. by rewrite Hgone.
Qed.

(** [optimize_signatures] returns signatures of the session that reach the threshold,
    and as few as possible: no smaller choice of its signatures reaches it. This holds
    for every iteration order of the signature map, when the signatures are by members
    and together reach the threshold (a completed session) and the weights add up
    within 128 bits. *)
Theorem optimize_signatures_minimal (self : Multisig) (iter : list (string * Signature)) :
  iter ≡ₚ map_to_list (m_signatures self) →
  vs_typed (m_verifier_set self) →
  map_Forall (λ a _, is_Some (signers (m_verifier_set self) !! a)) (m_signatures self) →
  threshold (m_verifier_set self) ≤ signed_weight (m_signatures self) (m_verifier_set self) ≤ u128_max →
  ∃ res, @optimize_signatures ContractError self iter = Ok res ∧
    (∀ signer sig, (signer, sig) ∈ res →
       ∃ a, m_signatures self !! a = Some sig ∧ signers (m_verifier_set self) !! a = Some signer) ∧
    threshold (m_verifier_set self) ≤ sum_list (weights res) ∧
    (∀ choice, choice ⊆ m_signatures self → (size choice < length res)%nat →
       signed_weight choice (m_verifier_set self) < threshold (m_verifier_set self)).
Proof.
  intros Hiter Hty Hall [Hthr Hmax].
  destruct (@optimize_signatures_eq ContractError self iter) as (signed & Hf & ->).
  { apply Forall_forall. intros [a sig] Ha. rewrite Hiter in Ha.
    apply elem_of_map_to_list in Ha. by apply (Hall a sig). }
  eexists. split; [reflexivity|].
  pose proof (sorted_weights _ _ _ _ Hiter Hf) as Hws.
  assert (Forall (λ x, 0 ≤ x) (weights (merge_sort by_weight signed))) as Hpos.
  { rewrite Hws. apply Forall_fmap, Forall_true. intros p. by apply entry_weight_nonneg. }
  assert (sum_list (weights (merge_sort by_weight signed)) =
    signed_weight (m_signatures self) (m_verifier_set self)) as Hsum
    by (by rewrite signed_weight_list, Hws).
  destruct (take_quorum_spec (threshold (m_verifier_set self)) 0 _ Hpos) as [Hbefore Hreach]; [lia|lia|].
  split_and!.
  - intros signer sig Hin. rewrite take_quorum_take in Hin.
    apply (signed_elem _ _ _ _ _ _ Hiter Hf). eapply elem_of_submseteq; [exact Hin|apply submseteq_take].
  - rewrite <-(Z.add_0_l (sum_list _)). apply Hreach. lia.
  - intros choice Hsub Hlt. pose proof (choice_weight_le _ _ _ _ Hws Hsub).
    specialize (Hbefore (size choice) Hlt). lia.
Qed.

(** ** A concrete run

    Two members of weight one under a threshold of two, a prover for one chain, a
    session and a signature by the first member; hashing keeps a prefix and a signature
    verifies when it starts with the character of the key. *)

Definition demo_crypto : Crypto := {|
  keccak256 := λ s, String.substring 0 8 s;
  secp256k1_verify := λ _ sig pk,
    Some (bool_decide (head (text_of sig) = head (text_of pk)));
  ed25519_verify_bytes := λ _ _ _, None;
  k256_normalize := Some;
  ed25519_normalize := Some
|}.
Definition demo_api : Api := {| addr_validate := λ s, Ok s |}.
#[local] Existing Instances demo_crypto demo_api.

Definition repeat_char (c : ascii) (n : nat) : string :=
  String.string_of_list_ascii (replicate n c).

Definition demo_set : VerifierSet :=
  mkVerifierSet {[ "alice" := mkSigner "alice" 1 (PkEcdsa (repeat_char "a" 33));
                   "bob" := mkSigner "bob" 1 (PkEcdsa (repeat_char "b" 33)) ]} 2 7.
(** The same signers under other keys. *)
Definition demo_set' : VerifierSet :=
  mkVerifierSet {[ "x" := mkSigner "alice" 1 (PkEcdsa (repeat_char "a" 33));
                   "y" := mkSigner "bob" 1 (PkEcdsa (repeat_char "b" 33)) ]} 2 7.

Definition demo_next (st : State) (height : Z) (sender : Addr) (m : ExecuteMsg) : State :=
  match execute st height sender (msgs_derive.Direct m) with Ok (st', _, _) => st' | _ => st end.

Definition demo0 : State :=
  match instantiate (mkInstantiate "gov" "admin" "rewards" 10 "coord") with
  | Ok (st, _) => st
  | _ => mkState (permission_control.mkStorage None None) None None None ∅ ∅ ∅ ∅ ∅
  end.
Definition demo1 : State := demo_next demo0 1 "prover" (RegisterVerifierSet demo_set).
Definition demo2 : State := demo_next demo1 1 "gov" (AuthorizeCallers [("prover", "eth")]).
Definition demo_start : ExecuteMsg :=
  StartSigningSession (verifier_set.id demo_set) "payload" "eth" None.
Definition demo3 : State := demo_next demo2 5 "prover" demo_start.
Definition demo_submit (c : ascii) : ExecuteMsg := SubmitSignature 1 (repeat_char c 64).
Definition demo4 : State := demo_next demo3 6 "alice" (demo_submit "a").
Definition demo5 : State := demo_next demo4 7 "bob" (demo_submit "b").

Lemma demo_reach (P : State → ExecuteMsg → Prop) st height sender m :
  reachable P st → P st m →
  is_ok (execute st height sender (msgs_derive.Direct m)) = true →
  reachable P (demo_next st height sender m).
Proof.
  intros Hr HP Hok. unfold demo_next.
  destruct (execute st height sender (msgs_derive.Direct m)) as [[[st' r] d]|e|] eqn:Hf; [|done..].
  by apply (reachable_step P st height sender (msgs_derive.Direct m) st' r d).
Qed.

Lemma demo_set_typed : vs_typed demo_set.
Proof. split; [|done]. apply map_Forall_insert_2; [done|]. by apply map_Forall_singleton. Qed.

Lemma demo5_reachable : reachable stable_registration demo4 ∧ reachable stable_registration demo5.
Proof.
  assert (reachable stable_registration demo4) as H4.
  { repeat (apply demo_reach; [|done|vm_compute; reflexivity]).
    apply demo_reach; [|split; [apply demo_set_typed|left; reflexivity]|vm_compute; reflexivity].
    apply (reachable_init _ (mkInstantiate "gov" "admin" "rewards" 10 "coord") _ Response_new).
    reflexivity. }
  split; [done|]. apply demo_reach; [done..|vm_compute; reflexivity].
Qed.

Lemma signing_sessions_sound_witness :
  ∃ session, SIGNING_SESSIONS demo5 !! 1 = Some session ∧ state session = Completed 7 ∧
    ∃ vs, VERIFIER_SETS demo5 !! verifier_set_id session = Some vs ∧
      threshold vs ≤ signed_weight (load_session_signatures demo5 1) vs.
Proof.
  assert (∃ session, SIGNING_SESSIONS demo5 !! 1 = Some session ∧ state session = Completed 7)
    as (session & Hs & Hc) by (eexists; split; vm_compute; reflexivity).
  exists session. split; [done|]. split; [done|].
  destruct (signing_sessions_sound demo5 1 session (proj2 demo5_reachable) Hs)
    as (vs & Hvs & _ & Hcomp).
  exists vs. split; [done|]. apply Hcomp. by rewrite Hc.
Defined.

Lemma submit_signature_exact_witness :
  (∃ st' r, submit_signature demo4 7 "bob" 1 (repeat_char "b" 64) = Ok (st', r)) ∧
  submit_signature demo4 7 "alice" 1 (repeat_char "a" 64) = Err (DuplicateSignature 1 "alice").
Proof.
  split; [|vm_compute; reflexivity].
  apply (submit_signature_exact demo4 7 "bob" 1 (repeat_char "b" 64) (proj1 demo5_reachable)).
  - assert (VERIFIER_SETS demo4 = {[ verifier_set.id demo_set := demo_set ]}) as ->
      by (vm_compute; reflexivity).
    apply map_Forall_singleton. vm_compute. discriminate.
  - split; [vm_compute; reflexivity|]. split; [vm_compute; eexists; reflexivity|].
    do 4 eexists. repeat (split; [vm_compute; reflexivity|]). split; [vm_compute; discriminate|].
    split; [intros _|]; vm_compute; reflexivity.
Defined.

Lemma signing_sessions_only_grow_witness :
  ∃ session', SIGNING_SESSIONS demo5 !! 1 = Some session' ∧
    load_session_signatures demo4 1 ⊆ load_session_signatures demo5 1.
Proof.
  assert (∃ session, SIGNING_SESSIONS demo4 !! 1 = Some session) as [session Hs]
    by (eexists; vm_compute; reflexivity).
  assert (∃ r d, execute demo4 7 "bob" (msgs_derive.Direct (demo_submit "b")) = Ok (demo5, r, d))
    as (r & d & Hf) by (do 2 eexists; vm_compute; reflexivity).
  destruct (signing_sessions_only_grow demo4 demo5 7 "bob" _ r d 1 session
    (proj1 demo5_reachable) Hf Hs) as (s' & Hs' & _ & _ & _ & _ & _ & _ & _ & Hsub).
  exists s'. exact (conj Hs' Hsub).
Defined.

Lemma start_signing_session_only_by_prover_witness :
  PROVER_CHAIN demo4 !! "prover" = Some "eth" ∧
  is_ok (execute demo4 5 "alice" (msgs_derive.Direct demo_start)) = false.
Proof.
  split; [|vm_compute; reflexivity].
  assert (∃ st' r d, execute demo4 5 "prover" (msgs_derive.Direct demo_start) = Ok (st', r, d))
    as (st' & r & d & Hf) by (do 3 eexists; vm_compute; reflexivity).
  by destruct (start_signing_session_only_by_prover demo4 st' 5 "prover" _ _ _ _ r d
    (proj1 demo5_reachable) Hf) as [Hp _].
Defined.

Lemma registries_stay_unique_witness :
  ∃ st', PUB_KEYS st' = {[ ("carol", Ecdsa) := repeat_char "c" 33 ]} ∧
    reachable (λ _ _, True) st'.
Proof.
  assert (reachable (λ _ _, True) demo0) as H0.
  { apply (reachable_init _ (mkInstantiate "gov" "admin" "rewards" 10 "coord") _ Response_new).
    reflexivity. }
  pose (m := RegisterPublicKey (PkEcdsa (repeat_char "c" 33)) (repeat_char "c" 64)).
  assert (∃ r d, execute demo0 1 "carol" (msgs_derive.Direct m) = Ok (demo_next demo0 1 "carol" m, r, d))
    as (r & d & Hf) by (do 2 eexists; vm_compute; reflexivity).
  exists (demo_next demo0 1 "carol" m). split; [|by eapply reachable_step].
  by destruct (registries_stay_unique demo0 _ 1 "carol" _ _ r d H0 Hf) as (_ & _ & -> & _).
Defined.

Lemma verifier_set_registration_evicts_witness :
  ∃ st', execute demo4 7 "mallory" (msgs_derive.Direct (RegisterVerifierSet demo_set'))
           = Ok (st', Response_new, None) ∧
    submit_signature st' 7 "bob" 1 (repeat_char "b" 64) = Err (NotAParticipant 1 "bob") ∧
    submit_signature st' 7 "y" 1 (repeat_char "b" 64) = Panic.
Proof.
  assert (∃ session, SIGNING_SESSIONS demo4 !! 1 = Some session ∧
    verifier_set_id session = verifier_set.id demo_set) as (session & Hs & Hid)
    by (eexists; split; vm_compute; reflexivity).
  destruct (verifier_set_registration_evicts demo4 demo_set demo_set' 7 "mallory" "bob" 1 session)
    as (st' & Hf & _ & Hevict).
  - vm_compute. reflexivity.
  - reflexivity.
  - reflexivity.
  - exact Hs.
  - exact Hid.
  - vm_compute. reflexivity.
  - vm_compute. reflexivity.
  - vm_compute. reflexivity.
  - vm_compute. eexists. reflexivity.
  - assert (st' = demo_next demo4 7 "mallory" (RegisterVerifierSet demo_set')) as ->.
    { unfold demo_next. by rewrite Hf. }
    exists (demo_next demo4 7 "mallory" (RegisterVerifierSet demo_set')).
    split; [exact Hf|]. split; [apply Hevict|]. vm_compute. reflexivity.
Defined.

Lemma optimize_signatures_minimal_witness :
  let self := mkMultisig (Completed 7) demo_set
    {[ "alice" := SigEcdsa (repeat_char "a" 64); "bob" := SigEcdsa (repeat_char "b" 64) ]} in
  ∃ res, @optimize_signatures ContractError self (map_to_list (m_signatures self)) = Ok res ∧
    2 ≤ sum_list (weights res).
Proof.
  intros self.
  destruct (optimize_signatures_minimal self (map_to_list (m_signatures self)))
    as (res & Hr & _ & Hthr & _).
  - reflexivity.
  - apply demo_set_typed.
  - apply map_Forall_insert_2; [by eexists|]. apply map_Forall_singleton. by eexists.
  - vm_compute. split; discriminate.
  - exists res. exact (conj Hr Hthr).
Defined.
