(* ===== verification/VotingVerifier.v ===== *)
(** * The voting verifier contract

    [contracts/voting-verifier/src]: polls on messages and on verifier sets
    ([contract/execute.rs]), the verification status ([contract/query.rs]), the
    storage ([state.rs]), the entry points ([contract.rs], [msg.rs]) and the parts
    of the events that can fail ([events.rs]).

    The service registry is an argument of the environment: the list of weighted
    verifiers it reports at the time of the call. *)

From Stdlib Require Import Ascii.
From S2P Require Import Prelude Std Voting MsgId RouterApi Multisig.
Import snapshot voting.

Module voting_verifier.
Import router_api.

Inductive ContractError :=
  | Overflow
  | NonEmptyError (e : nonempty.Error)
  | FailedToBuildSnapshot
  | EmptyMessages
  | SourceChainMismatch (chain : string)
  | InvalidMessageID (id : string)
  | PollNotFound
  | VoteError (e : voting.Error)
  | InvalidSourceAddress
  | InvalidSourceGatewayAddress
  | StorageError.

(** ** Storage ([state.rs]) *)

Record Config := mkConfig {
  service_registry_contract : Addr;
  service_name : string;
  source_gateway_address : string;
  voting_threshold : threshold.MajorityThreshold;
  block_expiry : Z;
  confirmation_height : Z;
  source_chain_name : string;
  rewards_contract : Addr;
  config_msg_id_format : msg_id.MessageIdFormat;
  address_format : address.AddressFormat
}.

Inductive Poll :=
  | PollMessages (p : WeightedPoll)
  | PollConfirmVerifierSet (p : WeightedPoll).

Definition Poll_try_map {E} (self : Poll) (func : WeightedPoll → result E WeightedPoll)
    : result E Poll :=
  match self with
  | PollMessages poll => PollMessages <$> func poll
  | PollConfirmVerifierSet poll => PollConfirmVerifierSet <$> func poll
  end.

Definition weighted_poll (self : Poll) : WeightedPoll :=
  match self with PollMessages poll | PollConfirmVerifierSet poll => poll end.

Record PollContent (T : Type) := mkContent {
  content : T;
  content_poll_id : Z;
  index_in_poll : Z
}.
Arguments mkContent {T} content content_poll_id index_in_poll.
Arguments content {T} _.
Arguments content_poll_id {T} _.
Arguments index_in_poll {T} _.

(** [PollContent::<Message>::new]: the index must fit in 32 bits. *)
Definition PollContent_message_new {E} (message : Message) (poll_id : Z) (index : nat)
    : result E (PollContent Message) :=
  if bool_decide (Z.of_nat index ≤ u32_max)
  then Ok (mkContent message poll_id (Z.of_nat index)) else Panic.

Definition PollContent_verifier_set_new (verifier_set : verifier_set.VerifierSet) (poll_id : Z)
    : PollContent verifier_set.VerifierSet := mkContent verifier_set poll_id 0.

(** [VOTES] is keyed by poll and voter; its range over a poll's prefix is the inner
    map.  [poll_messages] and [poll_verifier_sets] are keyed by the hash of their
    content and indexed by poll (and index in poll). *)
Record State := mkState {
  perm : permission_control.Storage;
  CONFIG : option Config;
  POLL_ID : option Z;
  POLLS : gmap Z Poll;
  VOTES : gmap Z (gmap string (list Vote));
  poll_messages : gmap string (PollContent Message);
  poll_verifier_sets : gmap string (PollContent verifier_set.VerifierSet)
}.

Definition set_config (st : State) c : State :=
  mkState (perm st) c (POLL_ID st) (POLLS st) (VOTES st) (poll_messages st)
    (poll_verifier_sets st).
Definition set_polls (st : State) id ps : State :=
  mkState (perm st) (CONFIG st) id ps (VOTES st) (poll_messages st) (poll_verifier_sets st).
Definition set_votes (st : State) v : State :=
  mkState (perm st) (CONFIG st) (POLL_ID st) (POLLS st) v (poll_messages st)
    (poll_verifier_sets st).
Definition set_poll_messages (st : State) m : State :=
  mkState (perm st) (CONFIG st) (POLL_ID st) (POLLS st) (VOTES st) m (poll_verifier_sets st).
Definition set_poll_verifier_sets (st : State) m : State :=
  mkState (perm st) (CONFIG st) (POLL_ID st) (POLLS st) (VOTES st) (poll_messages st) m.

Definition poll_votes (st : State) (poll_id : Z) : gmap string (list Vote) :=
  default ∅ (VOTES st !! poll_id).

(** The single entry of an index range: none, one, or a panic. *)
Definition single {E T} (l : list (string * PollContent T)) : result E (option T) :=
  match l with
  | [] => Ok None
  | [(_, c)] => Ok (Some (content c))
  | _ => Panic
  end.

Definition load_message {E} (st : State) (poll_id index : Z) : result E (option Message) :=
  single (filter (λ p, content_poll_id p.2 = poll_id ∧ index_in_poll p.2 = index)
            (map_to_list (poll_messages st))).

(** The index range of a poll is ordered by index in poll, then by hash. *)
Definition index_le {T} (p q : string * PollContent T) : Prop :=
  index_in_poll p.2 < index_in_poll q.2 ∨
  (index_in_poll p.2 = index_in_poll q.2 ∧ String.le p.1 q.1).
#[global] Instance index_le_dec {T} : RelDecision (@index_le T).
Proof. intros p q. unfold index_le. apply _. Defined.

Definition load_messages (st : State) (poll_id : Z) : list Message :=
  (λ p, content p.2) <$> merge_sort index_le
    (filter (λ p, content_poll_id p.2 = poll_id) (map_to_list (poll_messages st))).

Definition load_verifier_set {E} (st : State) (poll_id : Z)
    : result E (option verifier_set.VerifierSet) :=
  single (filter (λ p, content_poll_id p.2 = poll_id) (map_to_list (poll_verifier_sets st))).

(** ** Events ([events.rs]) *)

Record TxEventConfirmation := mkTxEvent {
  tx_message_id : string;
  tx_destination_address : string;
  tx_destination_chain : string;
  tx_source_address : string;
  tx_payload_hash : string
}.

Record PollMetadata := mkMetadata {
  md_poll_id : Z;
  md_source_chain : string;
  md_source_gateway_address : string;
  md_confirmation_height : Z;
  md_expires_at : Z;
  md_participants : list Addr
}.

Inductive Event :=
  | Instantiated (config : Config)
  | PollStartedMessages (messages : list TxEventConfirmation) (metadata : PollMetadata)
  | PollStartedVerifierSet (message_id : string) (verifier_set : verifier_set.VerifierSet)
      (metadata : PollMetadata)
  | Voted (poll_id : Z) (voter : Addr) (votes : list Vote)
  | PollEnded (poll_id : Z) (source_chain : string) (results : list (option Vote))
  | MessageQuorumReached (content : option Message) (status : VerificationStatus) (poll_id : Z)
  | VerifierSetQuorumReached (content : option verifier_set.VerifierSet)
      (status : VerificationStatus) (poll_id : Z).

(** The message to the rewards contract. *)
Inductive OutMsg :=
  | RecordParticipation (contract_addr : Addr) (chain_name event_id verifier_address : string).

Notation VResponse := (Response OutMsg Event).

(** The block height and what the service registry answers:
    [active_verifiers contract service_name chain]. *)
Record Env := mkEnv {
  height : Z;
  active_verifiers : Addr → string → string → option (list Participant)
}.

Section contract.
Context `{Crypto} `{HexCodec} `{Base58Codec} `{Bech32Codec} `{!FeltFormat}
  `{address.AddressParsers} `{Api}.

(** [TryFrom<(Message, &MessageIdFormat)>] *)
Definition TxEventConfirmation_try_from (msg : Message) (format : msg_id.MessageIdFormat)
    : result ContractError TxEventConfirmation :=
  let id := message_id (cc_id msg) in
  _ ← map_err (λ _, InvalidMessageID id) (msg_id.verify_msg_id id format);
  Ok (mkTxEvent id (destination_address msg) (destination_chain msg) (source_address msg)
        (payload_hash msg)).

(** [VerifierSetConfirmation::new] *)
Definition VerifierSetConfirmation_new (id : string) (format : msg_id.MessageIdFormat)
    : result ContractError unit :=
  map_err (λ _, InvalidMessageID id) (msg_id.verify_msg_id id format).

(** ** Status ([contract/query.rs]) *)

Definition voting_completed (poll : Poll) (cur_block_height : Z) : bool :=
  match status (weighted_poll poll) cur_block_height with
  | Expired | Finished => true
  | InProgress => false
  end.

Definition verification_status {T} `{EqDecision T} (st : State)
    (stored_poll_content : option (PollContent T)) (c : T) (cur_block_height : Z)
    : result ContractError VerificationStatus :=
  match stored_poll_content with
  | Some stored =>
      _ ← assert_true (bool_decide (content stored = c));
      poll ← expect (POLLS st !! content_poll_id stored);
      consensus ← expect_ok (consensus (weighted_poll poll) (Z.to_nat (index_in_poll stored)));
      Ok match consensus with
         | Some SucceededOnChain => SucceededOnSourceChain
         | Some FailedOnChain => FailedOnSourceChain
         | Some VoteNotFound => NotFoundOnSourceChain
         | None => if voting_completed poll cur_block_height then FailedToVerify
                   else StatusInProgress
         end
  | None => Ok StatusUnknown
  end.

Definition message_status (st : State) (message : Message) (cur_block_height : Z)
    : result ContractError VerificationStatus :=
  verification_status st (poll_messages st !! Message_hash keccak256 message) message
    cur_block_height.

Definition messages_status (st : State) (messages : list Message) (cur_block_height : Z)
    : result ContractError (list (Message * VerificationStatus)) :=
  try_map (λ message, (λ status, (message, status)) <$>
                      message_status st message cur_block_height) messages.

Definition verifier_set_status (st : State) (vs : verifier_set.VerifierSet)
    (cur_block_height : Z) : result ContractError VerificationStatus :=
  verification_status st (poll_verifier_sets st !! verifier_set.hash vs) vs cur_block_height.

Inductive PollData :=
  | DataMessages (msgs : list Message)
  | DataVerifierSet (vs : verifier_set.VerifierSet).

Definition poll_response (st : State) (current_block_height : Z) (poll_id : Z)
    : result ContractError (WeightedPoll * PollData * PollStatus) :=
  poll ← ok_or PollNotFound (POLLS st !! poll_id);
  '(data, s) ←
    match poll with
    | PollMessages poll =>
        let msgs := load_messages st poll_id in
        _ ← assert_true (bool_decide (length (tallies poll) = length msgs));
        Ok (DataMessages msgs, status poll current_block_height)
    | PollConfirmVerifierSet poll =>
        vs ← load_verifier_set st poll_id;
        vs ← expect vs;
        Ok (DataVerifierSet vs, status poll current_block_height)
    end;
  Ok (weighted_poll poll, data, s).

Definition voting_parameters (st : State)
    : result ContractError (threshold.MajorityThreshold * Z * Z) :=
  config ← map_err (λ _, StorageError) (item_load (CONFIG st));
  Ok (voting_threshold config, block_expiry config, confirmation_height config).

(** ** Handlers ([contract/execute.rs]) *)

Definition update_voting_parameters (st : State)
    (new_threshold : option threshold.MajorityThreshold) (new_block_expiry : option Z)
    (new_confirmation_height : option Z) : result ContractError (State * VResponse) :=
  c ← map_err (λ _, StorageError) (item_load (CONFIG st));
  let config := mkConfig (service_registry_contract c) (service_name c)
    (source_gateway_address c) (default (voting_threshold c) new_threshold)
    (default (block_expiry c) new_block_expiry)
    (default (confirmation_height c) new_confirmation_height) (source_chain_name c)
    (rewards_contract c) (config_msg_id_format c) (address_format c) in
  Ok (set_config st (Some config), Response_new).

Definition take_snapshot (st : State) (env : Env) (chain : string)
    : result ContractError Snapshot :=
  config ← expect (CONFIG st);
  participants ← ok_or FailedToBuildSnapshot
    (active_verifiers env (service_registry_contract config) (service_name config) chain);
  participants ← map_err NonEmptyError (nonempty.vec_try_from participants);
  snapshot.new (voting_threshold config) participants.

Definition calculate_expiration (block_height block_expiry : Z) : result ContractError Z :=
  ok_or Overflow (checked_add u64_max block_height block_expiry).

Definition create_verifier_set_poll (st : State) (expires_at : Z) (snapshot : Snapshot)
    : result ContractError (State * Z) :=
  '(counter, id) ← map_err (λ _, StorageError) (counter.incr (POLL_ID st));
  let poll := voting.new id snapshot expires_at 1 in
  Ok (set_polls st counter (<[id := PollConfirmVerifierSet poll]> (POLLS st)), id).

Definition create_messages_poll (st : State) (expires_at : Z) (snapshot : Snapshot)
    (poll_size : nat) : result ContractError (State * Z) :=
  '(counter, id) ← map_err (λ _, StorageError) (counter.incr (POLL_ID st));
  let poll := voting.new id snapshot expires_at poll_size in
  Ok (set_polls st counter (<[id := PollMessages poll]> (POLLS st)), id).

Definition validate_source_chain (message : Message) (source_chain_name : string)
    : result ContractError Message :=
  if bool_decide (source_chain (cc_id message) ≠ source_chain_name)
  then Err (SourceChainMismatch source_chain_name) else Ok message.

Definition validate_source_address (message : Message) (format : address.AddressFormat)
    : result ContractError Message :=
  _ ← map_err (λ _, InvalidSourceAddress)
        (address.validate_address (source_address message) format);
  Ok message.

Definition verify_verifier_set (st : State) (env : Env) (id : string)
    (new_verifier_set : verifier_set.VerifierSet) : result ContractError (State * VResponse) :=
  status ← verifier_set_status st new_verifier_set (height env);
  if is_confirmed status then Ok (st, Response_new)
  else
    config ← expect (CONFIG st);
    snapshot ← take_snapshot st env (source_chain_name config);
    let participants := participants_list snapshot in
    expires_at ← calculate_expiration (height env) (block_expiry config);
    '(st, poll_id) ← create_verifier_set_poll st expires_at snapshot;
    let st := set_poll_verifier_sets st
      (<[verifier_set.hash new_verifier_set :=
           PollContent_verifier_set_new new_verifier_set poll_id]> (poll_verifier_sets st)) in
    _ ← VerifierSetConfirmation_new id (config_msg_id_format config);
    Ok (st, add_event (PollStartedVerifierSet id new_verifier_set
              (mkMetadata poll_id (source_chain_name config) (source_gateway_address config)
                 (confirmation_height config) expires_at participants)) Response_new).

(** Which messages need a (new) poll. *)
Definition needs_poll (s : VerificationStatus) : bool :=
  match s with
  | NotFoundOnSourceChain | FailedToVerify | StatusUnknown => true
  | StatusInProgress | SucceededOnSourceChain | FailedOnSourceChain => false
  end.

(** The loop that stores the messages of a new poll. *)
Definition store_messages (st : State) (poll_id : Z) (msgs : list Message)
    : result ContractError State :=
  try_fold (λ st '(idx, message),
    content ← PollContent_message_new message poll_id idx;
    Ok (set_poll_messages st
          (<[Message_hash keccak256 message := content]> (poll_messages st))))
    st (imap pair msgs).

Definition verify_messages (st : State) (env : Env) (messages : list Message)
    : result ContractError (State * VResponse) :=
  if bool_decide (messages = []) then Err EmptyMessages
  else
    config ← expect (CONFIG st);
    messages ← try_map (λ message,
      message ← validate_source_chain message (source_chain_name config);
      message ← validate_source_address message (address_format config);
      (λ status, (status, message)) <$> message_status st message (height env)) messages;
    let msgs_to_verify := omap (λ '(status, message),
      if needs_poll status then Some message else None) messages in
    if bool_decide (msgs_to_verify = []) then Ok (st, Response_new)
    else
      snapshot ← take_snapshot st env (source_chain_name config);
      let participants := participants_list snapshot in
      expires_at ← calculate_expiration (height env) (block_expiry config);
      '(st, id) ← create_messages_poll st expires_at snapshot (length msgs_to_verify);
      st ← store_messages st id msgs_to_verify;
      messages ← try_map (λ msg, TxEventConfirmation_try_from msg (config_msg_id_format config))
        msgs_to_verify;
      Ok (st, add_event (PollStartedMessages messages
                (mkMetadata id (source_chain_name config) (source_gateway_address config)
                   (confirmation_height config) expires_at participants)) Response_new).

Definition poll_results (poll : Poll) : result ContractError (list (option Vote)) :=
  results (weighted_poll poll).

Definition make_quorum_event (st : State) (vote : option Vote) (index_in_poll poll_id : Z)
    (poll : Poll) : result ContractError (option Event) :=
  let status := (λ vote, match vote with
                         | SucceededOnChain => SucceededOnSourceChain
                         | FailedOnChain => FailedOnSourceChain
                         | VoteNotFound => NotFoundOnSourceChain
                         end) <$> vote in
  match poll with
  | PollMessages _ =>
      msg ← load_message st poll_id index_in_poll;
      Ok ((λ s, MessageQuorumReached msg s poll_id) <$> status)
  | PollConfirmVerifierSet _ =>
      vs ← load_verifier_set st poll_id;
      Ok ((λ s, VerifierSetQuorumReached vs s poll_id) <$> status)
  end.

Definition vote (st : State) (env : Env) (sender : Addr) (poll_id : Z) (votes : list Vote)
    : result ContractError (State * VResponse) :=
  poll ← ok_or PollNotFound (POLLS st !! poll_id);
  results_before_voting ← poll_results poll;
  poll ← Poll_try_map poll (λ poll,
    map_err VoteError (cast_vote poll (height env) sender votes));
  let st := set_polls st (POLL_ID st) (<[poll_id := poll]> (POLLS st)) in
  results_after_voting ← poll_results poll;
  difference ← expect_ok (PollResults_difference results_after_voting results_before_voting);
  quorum_events ← try_map (λ '(index_in_poll, vote),
    idx ← expect (if bool_decide (Z.of_nat index_in_poll ≤ u32_max)
                  then Some (Z.of_nat index_in_poll) else None);
    make_quorum_event st vote idx poll_id poll) (imap pair difference);
  let st := set_votes st (<[poll_id := <[sender := votes]> (poll_votes st poll_id)]> (VOTES st)) in
  Ok (st, add_events (omap id quorum_events)
            (add_event (Voted poll_id sender votes) Response_new)).

Definition end_poll (st : State) (env : Env) (poll_id : Z)
    : result ContractError (State * VResponse) :=
  config ← expect (CONFIG st);
  poll ← ok_or PollNotFound (POLLS st !! poll_id);
  poll ← Poll_try_map poll (λ poll, map_err VoteError (finish poll (height env)));
  let st := set_polls st (POLL_ID st) (<[poll_id := poll]> (POLLS st)) in
  let votes := poll_votes st poll_id in
  poll_result ← state (weighted_poll poll) votes;
  let rewards_msgs := (λ address,
    RecordParticipation (rewards_contract config) (source_chain_name config)
      (uint_to_string poll_id) address) <$> ps_consensus_participants poll_result in
  Ok (st, add_event (PollEnded (ps_poll_id poll_result) (source_chain_name config)
                       (ps_results poll_result))
            (add_messages rewards_msgs Response_new)).

(** ** Entry points ([contract.rs], [msg.rs]) *)

Inductive ExecuteMsg :=
  | EndPoll (poll_id : Z)
  | VoteMsg (poll_id : Z) (votes : list Vote)
  | VerifyMessages (messages : list Message)
  | VerifyVerifierSet (message_id : string) (new_verifier_set : verifier_set.VerifierSet)
  | UpdateVotingParameters (voting_threshold : option threshold.MajorityThreshold)
      (block_expiry confirmation_height : option Z).

Definition permissions (m : ExecuteMsg) : msgs_derive.MsgPermissions :=
  match m with
  | UpdateVotingParameters _ _ _ => msgs_derive.mkPerm [] [permission_control.Governance] []
  | _ => msgs_derive.mkPerm [] [permission_control.Any] []
  end.

Inductive ExecuteError :=
  | Permission (e : permission_control.Error)
  | Contract (e : ContractError)
  | InvalidAddress (address : string).

Record InstantiateMsg := mkInstantiate {
  i_governance_address : string;
  i_service_registry_address : string;
  i_service_name : string;
  i_source_gateway_address : string;
  i_voting_threshold : threshold.MajorityThreshold;
  i_block_expiry : Z;
  i_confirmation_height : Z;
  i_source_chain : string;
  i_rewards_address : string;
  i_msg_id_format : msg_id.MessageIdFormat;
  i_address_format : address.AddressFormat
}.

Definition validate_cosmwasm_address (addr : string) : result ExecuteError Addr :=
  map_err (λ _, InvalidAddress addr) (addr_validate addr).

Definition instantiate (msg : InstantiateMsg) : result ExecuteError (State * VResponse) :=
  governance ← validate_cosmwasm_address (i_governance_address msg);
  let perm := permission_control.set_governance (permission_control.mkStorage None None)
                governance in
  _ ← map_err (λ _, Contract InvalidSourceGatewayAddress)
        (address.validate_address (i_source_gateway_address msg) (i_address_format msg));
  registry ← validate_cosmwasm_address (i_service_registry_address msg);
  rewards ← validate_cosmwasm_address (i_rewards_address msg);
  let config := mkConfig registry (i_service_name msg) (i_source_gateway_address msg)
    (i_voting_threshold msg) (i_block_expiry msg) (i_confirmation_height msg)
    (i_source_chain msg) rewards (i_msg_id_format msg) (i_address_format msg) in
  Ok (mkState perm (Some config) None ∅ ∅ ∅ ∅, add_event (Instantiated config) Response_new).

Definition execute (st : State) (env : Env) (sender : Addr) (msg : ExecuteMsg)
    : result ExecuteError (State * VResponse) :=
  msg ← map_err Permission (msgs_derive.ensure_permissions permissions
          (λ _ _ _, @Ok unit bool false) (perm st) sender msg);
  map_err Contract
    match msg with
    | VerifyMessages messages => verify_messages st env messages
    | VoteMsg poll_id votes => vote st env sender poll_id votes
    | EndPoll poll_id => end_poll st env poll_id
    | VerifyVerifierSet message_id new_verifier_set =>
        verify_verifier_set st env message_id new_verifier_set
    | UpdateVotingParameters voting_threshold block_expiry confirmation_height =>
        update_voting_parameters st voting_threshold block_expiry confirmation_height
    end.

(** ** The stored messages of a poll *)

Definition stored_messages (m : gmap string (PollContent Message)) (poll_id : Z)
    (msgs : list Message) : gmap string (PollContent Message) :=
  foldl (λ m '(idx, message),
    <[Message_hash keccak256 message := mkContent message poll_id (Z.of_nat idx)]> m)
    m (imap pair msgs).

Lemma store_messages_Ok st poll_id msgs st' :
  store_messages st poll_id msgs = Ok st' →
  st' = set_poll_messages st (stored_messages (poll_messages st) poll_id msgs) ∧
  Z.of_nat (length msgs) ≤ u32_max + 1.
Proof.
  unfold store_messages, stored_messages. revert st'.
  induction msgs as [|m msgs IH] using rev_ind; intros st'; cbn; [intros [= <-]; by destruct st|].
  rewrite imap_app, foldl_app, try_fold_app, length_app. cbn. rewrite Nat.add_0_r. intros Hf.
  ok_inv. unfold PollContent_message_new in *. ok_case. breflect. ok_inv.
  apply IH in Hok as [-> _]. split; [done|lia].
Qed.

Lemma stored_messages_snoc m poll_id msgs msg :
  stored_messages m poll_id (msgs ++ [msg]) =
  <[Message_hash keccak256 msg := mkContent msg poll_id (Z.of_nat (length msgs))]>
    (stored_messages m poll_id msgs).
Proof. unfold stored_messages. rewrite imap_app, foldl_app. cbn. by rewrite Nat.add_0_r. Qed.

(** An entry afterwards is the one of a stored message, or an older one. *)
Lemma stored_messages_lookup m poll_id msgs h c :
  stored_messages m poll_id msgs !! h = Some c →
  (∃ i msg, msgs !! i = Some msg ∧ Message_hash keccak256 msg = h ∧
            c = mkContent msg poll_id (Z.of_nat i)) ∨
  (m !! h = Some c ∧ Forall (λ msg, Message_hash keccak256 msg ≠ h) msgs).
Proof.
  induction msgs as [|msg msgs IH] using rev_ind; [by right|].
  rewrite stored_messages_snoc, lookup_insert_Some. intros [[<- <-]|[Hne Hl]].
  - left. exists (length msgs), msg. split; [|done].
    rewrite lookup_app_r, Nat.sub_diag by lia. done.
  - destruct (IH Hl) as [(i & msg' & Hi & Hh & ->)|[Hm Hall]].
    + left. exists i, msg'. split; [|done]. by apply lookup_app_l_Some.
    + right. split; [done|]. apply Forall_app; split; [done|]. by constructor.
Qed.

Lemma stored_messages_old m poll_id msgs h :
  Forall (λ msg, Message_hash keccak256 msg ≠ h) msgs →
  stored_messages m poll_id msgs !! h = m !! h.
Proof.
  induction msgs as [|msg msgs IH] using rev_ind; [done|].
  rewrite stored_messages_snoc, Forall_app, Forall_singleton. intros [Ha Hne].
  rewrite lookup_insert_ne by done. auto.
Qed.

(** ** What a successful call did *)

Lemma take_snapshot_Ok st env chain s :
  take_snapshot st env chain = Ok s →
  ∃ c ps, CONFIG st = Some c ∧
    active_verifiers env (service_registry_contract c) (service_name c) chain = Some ps ∧
    ps ≠ [] ∧ @snapshot.new ContractError (voting_threshold c) ps = Ok s.
Proof.
  unfold take_snapshot, nonempty.vec_try_from. intros Hf. ok_inv. destruct v0; [done|]. ok_inv.
  eauto 10.
Qed.

(** The messages of a batch that a poll is started for. *)
Definition to_verify (st : State) (env : Env) (messages todo : list Message) : Prop :=
  ∃ l, Forall2 (λ m p, p.2 = m ∧ message_status st m (height env) = Ok p.1) messages l ∧
       todo = omap (λ '(status, message), if needs_poll status then Some message else None) l.

Lemma to_verify_elem st env messages todo m :
  to_verify st env messages todo →
  m ∈ todo ↔ m ∈ messages ∧
    ∃ s, message_status st m (height env) = Ok s ∧ needs_poll s = true.
Proof.
  intros (l & Hl & ->). rewrite list_elem_of_omap. split.
  - intros ([s m'] & Hin & Hs). destruct (needs_poll s) eqn:Hn; simplify_eq.
    apply list_elem_of_lookup in Hin as [i Hi].
    destruct (Forall2_lookup_r _ _ _ _ _ Hl Hi) as (m2 & Hm2 & Heq & Hst). cbn in *. subst.
    split; [by eapply list_elem_of_lookup_2|eauto].
  - intros [Hin (s & Hs & Hn)]. apply list_elem_of_lookup in Hin as [i Hi].
    destruct (Forall2_lookup_l _ _ _ _ _ Hl Hi) as ([s' m'] & Hm2 & Heq & Hst). cbn in *.
    assert (s' = s) as -> by congruence. subst m'.
    exists (s, m). split; [by eapply list_elem_of_lookup_2|]. by rewrite Hn.
Qed.

Lemma verify_messages_Ok st env messages st' r :
  verify_messages st env messages = Ok (st', r) →
  ∃ c todo, CONFIG st = Some c ∧ to_verify st env messages todo ∧
    Forall (λ m, source_chain (cc_id m) = source_chain_name c) messages ∧
    ((todo = [] ∧ st' = st ∧ r = Response_new) ∨
     ∃ s expiry id, todo ≠ [] ∧ take_snapshot st env (source_chain_name c) = Ok s ∧
       expiry = height env + block_expiry c ∧ expiry ≤ u64_max ∧
       id = counter.cur (POLL_ID st) + 1 ∧
       Z.of_nat (length todo) ≤ u32_max + 1 ∧
       Forall (λ m, msg_id.verify_msg_id (message_id (cc_id m)) (config_msg_id_format c) = Ok ())
         todo ∧
       st' = mkState (perm st) (CONFIG st) (Some id)
         (<[id := PollMessages (voting.new id s expiry (length todo))]> (POLLS st)) (VOTES st)
         (stored_messages (poll_messages st) id todo) (poll_verifier_sets st)).
Proof.
  unfold verify_messages. intros Hf. ok_case. ok_inv.
  apply try_map_Ok in Hok0. rename v into c, v0 into l.
  exists c, (omap (λ '(status, message), if needs_poll status then Some message else None) l).
  split; [done|]. split.
  { exists l. split; [|done]. eapply Forall2_impl; [exact Hok0|]. intros m [s m'] Hm.
    unfold validate_source_chain, validate_source_address in Hm. ok_inv. ok_case. ok_inv.
    by simplify_eq. }
  split.
  { apply Forall_forall. intros m [i Hi]%list_elem_of_lookup.
    destruct (Forall2_lookup_l _ _ _ _ _ Hok0 Hi) as (y & _ & Hy).
    unfold validate_source_chain in Hy. ok_inv. ok_case. breflect. by apply dec_stable. }
  ok_case; breflect; ok_inv; simplify_eq; [by left|right].
  rename v into s, v0 into expiry. destruct v1 as [st1 id]. ok_inv.
  unfold calculate_expiration in Hok2. ok_inv. checked. destruct Hok2 as [-> Hexp].
  unfold create_messages_poll in Hok3. ok_inv. destruct v1 as [cnt id']. ok_inv. simplify_eq.
  apply counter.incr_Ok in Hok2 as (-> & -> & _).
  apply store_messages_Ok in Hok4 as [-> Hsize]. eexists s, _, _. split_and!; try done.
  apply try_map_Ok in Hok5. apply Forall_forall. intros m [i Hi]%list_elem_of_lookup.
  destruct (Forall2_lookup_l _ _ _ _ _ Hok5 Hi) as (y & _ & Hy).
  unfold TxEventConfirmation_try_from in Hy. ok_inv. done.
Qed.

Lemma verify_verifier_set_Ok st env id vs st' r :
  verify_verifier_set st env id vs = Ok (st', r) →
  ∃ status, verifier_set_status st vs (height env) = Ok status ∧
    ((is_confirmed status = true ∧ st' = st ∧ r = Response_new) ∨
     ∃ c s expiry poll_id, is_confirmed status = false ∧ CONFIG st = Some c ∧
       take_snapshot st env (source_chain_name c) = Ok s ∧
       expiry = height env + block_expiry c ∧ expiry ≤ u64_max ∧
       poll_id = counter.cur (POLL_ID st) + 1 ∧
       st' = mkState (perm st) (CONFIG st) (Some poll_id)
         (<[poll_id := PollConfirmVerifierSet (voting.new poll_id s expiry 1)]> (POLLS st))
         (VOTES st) (poll_messages st)
         (<[verifier_set.hash vs := mkContent vs poll_id 0]> (poll_verifier_sets st))).
Proof.
  unfold verify_verifier_set. intros Hf. ok_inv. rename v into status. exists status.
  split; [done|]. ok_case; ok_inv; simplify_eq; [by left|right].
  rename v into c, v0 into s, v1 into expiry. destruct v2 as [st1 pid]. ok_inv. simplify_eq.
  unfold calculate_expiration in Hok2. ok_inv. checked. destruct Hok2 as [-> Hexp].
  unfold create_verifier_set_poll in Hok3. ok_inv. destruct v as [cnt id']. ok_inv. simplify_eq.
  apply counter.incr_Ok in Hok2 as (-> & -> & _).
  eexists c, s, _, _. by split_and!.
Qed.

(** A poll with its weighted poll replaced. *)
Definition with_poll (p : Poll) (w : WeightedPoll) : Poll :=
  match p with PollMessages _ => PollMessages w | PollConfirmVerifierSet _ => PollConfirmVerifierSet w end.

Lemma weighted_with_poll p w : weighted_poll (with_poll p w) = w.
Proof. by destruct p. Qed.

Lemma Poll_try_map_Ok {E} p (f : WeightedPoll → result E WeightedPoll) p' :
  Poll_try_map p f = Ok p' ↔ ∃ w, f (weighted_poll p) = Ok w ∧ p' = with_poll p w.
Proof. destruct p; cbn; rewrite fmap_Ok; naive_solver. Qed.

Lemma vote_Ok st env sender poll_id votes st' r :
  vote st env sender poll_id votes = Ok (st', r) →
  ∃ p w, POLLS st !! poll_id = Some p ∧
    cast_vote (weighted_poll p) (height env) sender votes = Ok w ∧
    st' = mkState (perm st) (CONFIG st) (POLL_ID st) (<[poll_id := with_poll p w]> (POLLS st))
      (<[poll_id := <[sender := votes]> (poll_votes st poll_id)]> (VOTES st))
      (poll_messages st) (poll_verifier_sets st).
Proof.
  unfold vote. intros Hf. ok_inv. apply Poll_try_map_Ok in Hok1 as (w & Hw & ->). ok_inv.
  simplify_eq. eexists v, w. by split_and!.
Qed.

Lemma end_poll_Ok st env poll_id st' r :
  end_poll st env poll_id = Ok (st', r) →
  ∃ c p w ps, CONFIG st = Some c ∧ POLLS st !! poll_id = Some p ∧
    finish (weighted_poll p) (height env) = Ok w ∧
    @state ContractError w (poll_votes st poll_id) = Ok ps ∧
    st' = mkState (perm st) (CONFIG st) (POLL_ID st) (<[poll_id := with_poll p w]> (POLLS st))
      (VOTES st) (poll_messages st) (poll_verifier_sets st) ∧
    messages r = (λ a, RecordParticipation (rewards_contract c) (source_chain_name c)
                         (uint_to_string poll_id) a) <$> ps_consensus_participants ps ∧
    events r = [PollEnded (ps_poll_id ps) (source_chain_name c) (ps_results ps)].
Proof.
  unfold end_poll. intros Hf. ok_inv. apply Poll_try_map_Ok in Hok1 as (w & Hw & ->). ok_inv.
  rewrite weighted_with_poll in Hok2. simplify_eq. eexists v, v0, w, _. by split_and!.
Qed.

(** ** The invariant *)

(** What the contract relies on the service registry for: a list of verifiers of
    positive weight whose total fits in 128 bits. *)
Definition registry_ok (env : Env) : Prop :=
  ∀ a s c ps, active_verifiers env a s c = Some ps →
    Forall (λ p, 1 ≤ weight p) ps ∧ sum_list (weight <$> ps) ≤ u128_max.

(** The values of the message type. *)
Definition msg_wf (m : ExecuteMsg) : Prop :=
  match m with
  | VerifyMessages messages => Forall Message_wf messages
  | UpdateVotingParameters (Some t) _ _ => threshold.majority_wf t
  | _ => True
  end.

Record inv (st : State) : Prop := {
  inv_config : ∃ c, CONFIG st = Some c ∧ threshold.majority_wf (voting_threshold c);
  inv_ids id : is_Some (POLLS st !! id) ∨ is_Some (VOTES st !! id) →
    1 ≤ id ≤ counter.cur (POLL_ID st);
  inv_count : 0 ≤ counter.cur (POLL_ID st);
  inv_poll id p : POLLS st !! id = Some p →
    poll_id (weighted_poll p) = id ∧
    Z.of_nat (length (tallies (weighted_poll p))) ≤ u32_max + 1 ∧
    ∃ s, snapshot_ok s ∧ poll_reachable s (weighted_poll p) (poll_votes st id);
  inv_message h c : poll_messages st !! h = Some c →
    Message_hash keccak256 (content c) = h ∧ Message_wf (content c) ∧
    ∃ w, POLLS st !! content_poll_id c = Some (PollMessages w) ∧
         0 ≤ index_in_poll c < Z.of_nat (length (tallies w));
  inv_message_unique h h' c c' :
    poll_messages st !! h = Some c → poll_messages st !! h' = Some c' →
    content_poll_id c = content_poll_id c' → index_in_poll c = index_in_poll c' → h = h';
  inv_set h c : poll_verifier_sets st !! h = Some c →
    verifier_set.hash (content c) = h ∧ index_in_poll c = 0 ∧
    ∃ w, POLLS st !! content_poll_id c = Some (PollConfirmVerifierSet w) ∧
         length (tallies w) = 1%nat;
  inv_set_unique h h' c c' :
    poll_verifier_sets st !! h = Some c → poll_verifier_sets st !! h' = Some c' →
    content_poll_id c = content_poll_id c' → h = h'
}.

Lemma inv_instantiate m st r :
  threshold.majority_wf (i_voting_threshold m) → instantiate m = Ok (st, r) → inv st.
Proof.
  unfold instantiate. intros Hm Hf. ok_inv. simplify_eq.
  split; cbn; [by eexists|intros id [[? []%lookup_empty_Some]|[? []%lookup_empty_Some]]|
    done|intros ??; by rewrite lookup_empty..].
Qed.

Lemma fresh_poll st : inv st →
  POLLS st !! (counter.cur (POLL_ID st) + 1) = None ∧
  poll_votes st (counter.cur (POLL_ID st) + 1) = ∅.
Proof.
  intros Hi. unfold poll_votes. split.
  - apply eq_None_not_Some. intros Hs. pose proof (inv_ids _ Hi _ (or_introl Hs)). lia.
  - destruct (VOTES st !! _) eqn:Hv; [|done].
    pose proof (inv_ids _ Hi _ (or_intror (mk_is_Some _ _ Hv))). lia.
Qed.

Lemma snapshot_taken st env chain s :
  inv st → registry_ok env → take_snapshot st env chain = Ok s → snapshot_ok s.
Proof.
  intros Hi Hreg (c & ps & Hc & Hps & Hne & Hs)%take_snapshot_Ok.
  destruct (inv_config _ Hi) as (c' & Hc' & Ht). assert (c' = c) as -> by congruence.
  destruct (snapshot_new_Ok (voting_threshold c) ps Ht) as (s' & Hs' & Hok & _).
  { destruct (Hreg _ _ _ _ Hps). done. }
  rewrite Hs' in Hs. ok_inv. done.
Qed.

Lemma steps_tallies w w' :
  poll_step w w' → length (tallies w') = length (tallies w) ∧ poll_id w' = poll_id w.
Proof.
  destruct 1 as [w b a vs w' (pt & _ & _ & _ & _ & ->)%cast_vote_Ok|w b w' Hf]; cbn.
  - by rewrite tally_votes_length.
  - unfold finish in Hf. repeat ok_case. by ok_inv.
Qed.

(** Starting a poll: the part of the invariant on polls and votes. *)
Lemma new_poll_ids st id p :
  inv st → id = counter.cur (POLL_ID st) + 1 →
  ∀ id', is_Some (<[id := p]> (POLLS st) !! id') ∨ is_Some (VOTES st !! id') → 1 ≤ id' ≤ id.
Proof.
  intros Hi -> id' Hs. pose proof (inv_count _ Hi).
  rewrite lookup_insert_is_Some' in Hs.
  destruct Hs as [[<-|Hs]|Hs]; [lia|pose proof (inv_ids _ Hi id' (or_introl Hs)); lia|].
  pose proof (inv_ids _ Hi id' (or_intror Hs)); lia.
Qed.

Lemma new_poll_reachable st id s expiry n p p' id' :
  inv st → snapshot_ok s → id = counter.cur (POLL_ID st) + 1 →
  weighted_poll p = voting.new id s expiry n → Z.of_nat n ≤ u32_max + 1 →
  <[id := p]> (POLLS st) !! id' = Some p' →
  poll_id (weighted_poll p') = id' ∧
  Z.of_nat (length (tallies (weighted_poll p'))) ≤ u32_max + 1 ∧
  ∃ s', snapshot_ok s' ∧ poll_reachable s' (weighted_poll p') (poll_votes st id').
Proof.
  intros Hi Hs -> Hp Hn. rewrite lookup_insert_Some. intros [[<- <-]|[_ Hl]].
  - rewrite Hp. split; [done|]. cbn. rewrite length_replicate. split; [done|]. exists s. split; [done|].
    destruct (fresh_poll st Hi) as [_ ->]. apply reach_new.
  - by apply (inv_poll _ Hi).
Qed.

Lemma inv_new_messages_poll st s expiry todo id :
  inv st → snapshot_ok s → Forall Message_wf todo → Z.of_nat (length todo) ≤ u32_max + 1 →
  id = counter.cur (POLL_ID st) + 1 →
  inv (mkState (perm st) (CONFIG st) (Some id)
         (<[id := PollMessages (voting.new id s expiry (length todo))]> (POLLS st)) (VOTES st)
         (stored_messages (poll_messages st) id todo) (poll_verifier_sets st)).
Proof.
  intros Hi Hs Hwf Hsize Hid. destruct (fresh_poll st Hi) as [Hfresh _]. rewrite <-Hid in Hfresh.
  assert (∀ h c, poll_messages st !! h = Some c → content_poll_id c ≠ id) as Hold.
  { intros h c Hc. destruct (inv_message _ Hi _ _ Hc) as (_ & _ & w & Hw & _). congruence. }
  assert (∀ h c, stored_messages (poll_messages st) id todo !! h = Some c →
    (∃ i m, todo !! i = Some m ∧ Message_hash keccak256 m = h ∧ c = mkContent m id (Z.of_nat i)) ∨
    poll_messages st !! h = Some c) as Hcases.
  { intros h c [?|[? _]]%stored_messages_lookup; auto. }
  split; cbn.
  - apply (inv_config _ Hi).
  - by apply new_poll_ids.
  - pose proof (inv_count _ Hi). lia.
  - intros id' p'. by apply (new_poll_reachable st id s expiry (length todo)).
  - intros h c [(i & m & Hm & <- & ->)|Hc]%Hcases; cbn.
    + split; [done|]. split; [by eapply (proj1 (Forall_lookup _ _) Hwf)|].
      eexists. rewrite lookup_insert_eq. split; [done|]. cbn. rewrite length_replicate.
      apply lookup_lt_Some in Hm. lia.
    + destruct (inv_message _ Hi _ _ Hc) as (Hh & Hw & w & Hp & Hb). split_and!; try done.
      exists w. rewrite lookup_insert_ne by (apply not_eq_sym; eauto). done.
  - intros h h' c c' [(i & m & Hm & <- & ->)|Hc]%Hcases [(j & m' & Hm' & <- & ->)|Hc']%Hcases; cbn.
    + intros _ Heq. assert (i = j) as -> by lia. by simplify_eq.
    + intros Heq. by destruct (Hold _ _ Hc').
    + intros Heq. by destruct (Hold _ _ Hc).
    + by apply (inv_message_unique _ Hi).
  - intros h c Hc. destruct (inv_set _ Hi _ _ Hc) as (Hh & Hx & w & Hp & Hl).
    split_and!; try done. exists w. rewrite lookup_insert_ne by congruence. done.
  - apply (inv_set_unique _ Hi).
Qed.

Lemma inv_new_set_poll st s expiry vs id :
  inv st → snapshot_ok s → id = counter.cur (POLL_ID st) + 1 →
  inv (mkState (perm st) (CONFIG st) (Some id)
         (<[id := PollConfirmVerifierSet (voting.new id s expiry 1)]> (POLLS st))
         (VOTES st) (poll_messages st)
         (<[verifier_set.hash vs := mkContent vs id 0]> (poll_verifier_sets st))).
Proof.
  intros Hi Hs Hid. destruct (fresh_poll st Hi) as [Hfresh _]. rewrite <-Hid in Hfresh.
  assert (∀ h c, poll_verifier_sets st !! h = Some c → content_poll_id c ≠ id) as Hold.
  { intros h c Hc. destruct (inv_set _ Hi _ _ Hc) as (_ & _ & w & Hw & _). congruence. }
  split; cbn.
  - apply (inv_config _ Hi).
  - by apply new_poll_ids.
  - pose proof (inv_count _ Hi). lia.
  - intros id' p'. by apply (new_poll_reachable st id s expiry 1).
  - intros h c Hc. destruct (inv_message _ Hi _ _ Hc) as (Hh & Hw & w & Hp & Hb).
    split_and!; try done. exists w. rewrite lookup_insert_ne by congruence. done.
  - apply (inv_message_unique _ Hi).
  - intros h c. rewrite lookup_insert_Some. intros [[<- <-]|[_ Hc]]; cbn.
    + split_and!; try done. eexists. rewrite lookup_insert_eq. done.
    + destruct (inv_set _ Hi _ _ Hc) as (Hh & Hx & w & Hp & Hl).
      split_and!; try done. exists w. rewrite lookup_insert_ne by (apply not_eq_sym; eauto). done.
  - intros h h' c c'. rewrite !lookup_insert_Some.
    intros [[<- <-]|[_ Hc]] [[<- <-]|[_ Hc']]; cbn; try done.
    + intros Heq. by destruct (Hold _ _ Hc').
    + intros Heq. by destruct (Hold _ _ Hc).
    + by apply (inv_set_unique _ Hi).
Qed.

(** Voting on a poll and ending it. *)
Lemma inv_poll_step st id p w votes :
  inv st → POLLS st !! id = Some p → poll_step (weighted_poll p) w →
  (∀ s, poll_reachable s (weighted_poll p) (poll_votes st id) →
        poll_reachable s w (default ∅ (votes !! id))) →
  (∀ id', id' ≠ id → votes !! id' = VOTES st !! id') →
  inv (mkState (perm st) (CONFIG st) (POLL_ID st) (<[id := with_poll p w]> (POLLS st)) votes
         (poll_messages st) (poll_verifier_sets st)).
Proof.
  intros Hi Hp Hstep Hreach Hvotes. destruct (steps_tallies _ _ Hstep) as [Hlen Hpid].
  pose proof (inv_ids _ Hi id (or_introl (mk_is_Some _ _ Hp))) as Hid.
  split; cbn.
  - apply (inv_config _ Hi).
  - intros id'. rewrite lookup_insert_is_Some'. destruct (decide (id' = id)) as [->|Hne]; [done|].
    rewrite Hvotes by done. intros [[?|?]|?]; [done|apply (inv_ids _ Hi); auto..].
  - apply (inv_count _ Hi).
  - intros id' p'. rewrite lookup_insert_Some. intros [[<- <-]|[Hne Hl]].
    + destruct (inv_poll _ Hi _ _ Hp) as (Hpid' & Hsize & s & Hs & Hr).
      rewrite weighted_with_poll. split; [congruence|]. split; [lia|]. exists s. split; [done|]. by apply Hreach.
    + unfold poll_votes; cbn. rewrite Hvotes by done. by apply (inv_poll _ Hi).
  - intros h c Hc. destruct (inv_message _ Hi _ _ Hc) as (Hh & Hw & w' & Hp' & Hb).
    split_and!; try done. destruct (decide (content_poll_id c = id)) as [Heq|Hne].
    + assert (p = PollMessages w') as -> by congruence. exists w.
      rewrite Heq, lookup_insert_eq. cbn in *. split; [done|lia].
    + exists w'. by rewrite lookup_insert_ne.
  - apply (inv_message_unique _ Hi).
  - intros h c Hc. destruct (inv_set _ Hi _ _ Hc) as (Hh & Hx & w' & Hp' & Hb).
    split_and!; try done. destruct (decide (content_poll_id c = id)) as [Heq|Hne].
    + assert (p = PollConfirmVerifierSet w') as -> by congruence. exists w.
      rewrite Heq, lookup_insert_eq. cbn in *. split; [done|lia].
    + exists w'. by rewrite lookup_insert_ne.
  - apply (inv_set_unique _ Hi).
Qed.

Lemma execute_handler st env sender m st' r :
  execute st env sender m = Ok (st', r) →
  match m with
  | VerifyMessages messages => verify_messages st env messages
  | VoteMsg poll_id votes => vote st env sender poll_id votes
  | EndPoll poll_id => end_poll st env poll_id
  | VerifyVerifierSet message_id vs => verify_verifier_set st env message_id vs
  | UpdateVotingParameters t b c => update_voting_parameters st t b c
  end = Ok (st', r).
Proof.
  unfold execute. intros Hf. ok_inv. apply msgs_derive.ensure_permissions_same in Hok. by subst.
Qed.

Lemma vv_inv_execute st env sender m st' r :
  inv st → registry_ok env → msg_wf m → execute st env sender m = Ok (st', r) → inv st'.
Proof.
  intros Hi Hreg Hm Hf%execute_handler. destruct m as [id|id votes|messages|mid vs|t b c].
  - apply end_poll_Ok in Hf as (c & p & w & ps & _ & Hp & Hw & _ & -> & _).
    apply inv_poll_step; try done; [by eapply step_finish|]. intros s Hr. by eapply reach_finish.
  - apply vote_Ok in Hf as (p & w & Hp & Hw & ->).
    apply inv_poll_step; try done; [by eapply step_cast| |].
    + intros s Hr. rewrite lookup_insert_eq. by eapply reach_cast.
    + intros id' Hne. by rewrite lookup_insert_ne.
  - apply verify_messages_Ok in Hf as (c & todo & Hc & Htodo & _ &
      [(_ & -> & _)|(s & e & id & _ & Hs & _ & _ & -> & Hsize & _ & ->)]); [done|].
    apply inv_new_messages_poll; [done|by eapply snapshot_taken| |done..].
    apply Forall_forall. intros m [Hin _]%(to_verify_elem st env messages); [|done].
    by eapply Forall_forall.
  - apply verify_verifier_set_Ok in Hf as (status & _ &
      [(_ & -> & _)|(c & s & e & id & _ & Hc & Hs & _ & _ & -> & ->)]); [done|].
    apply inv_new_set_poll; [done|by eapply snapshot_taken|done].
  - unfold update_voting_parameters in Hf. ok_inv. simplify_eq.
    destruct (inv_config _ Hi) as (c' & Hc' & Ht).
    assert (v = c') as -> by (unfold item_load in Hok; ok_inv; congruence).
    destruct Hi. split; try done. cbn. eexists. split; [done|]. cbn. by destruct t.
Qed.

(** ** The storages the contract can reach *)

Definition step (st st' : State) : Prop :=
  ∃ env sender m r, registry_ok env ∧ msg_wf m ∧ execute st env sender m = Ok (st', r).

Inductive reachable : State → Prop :=
  | reachable_init m st r :
      threshold.majority_wf (i_voting_threshold m) → instantiate m = Ok (st, r) → reachable st
  | reachable_step st st' : reachable st → step st st' → reachable st'.

Lemma vv_reachable_inv st : reachable st → inv st.
Proof.
  induction 1 as [m st r Hm Hf|st st' _ IH (env & sender & m & r & Hreg & Hm & Hf)].
  - by eapply inv_instantiate.
  - by eapply vv_inv_execute.
Qed.

(** The messages under verification are of the contract's own chain. *)
Definition sourced (st : State) : Prop :=
  ∃ c, CONFIG st = Some c ∧
    ∀ h x, poll_messages st !! h = Some x → source_chain (cc_id (content x)) = source_chain_name c.

Lemma sourced_instantiate m st r : instantiate m = Ok (st, r) → sourced st.
Proof.
  unfold instantiate. intros Hf. ok_inv. simplify_eq. eexists. split; [done|]. cbn.
  intros h x. by rewrite lookup_empty.
Qed.

Lemma sourced_execute st env sender m st' r :
  sourced st → execute st env sender m = Ok (st', r) → sourced st'.
Proof.
  intros (c & Hc & Hs) Hf%execute_handler. destruct m as [id|id votes|messages|mid vs|t b c'].
  - apply end_poll_Ok in Hf as (? & ? & ? & ? & _ & _ & _ & _ & -> & _). by exists c.
  - apply vote_Ok in Hf as (? & ? & _ & _ & ->). by exists c.
  - apply verify_messages_Ok in Hf as (c' & todo & Hc' & Htodo & Hsrc &
      [(_ & -> & _)|(s & e & id & _ & _ & _ & _ & -> & _ & _ & ->)]); [by exists c|].
    assert (c' = c) as -> by congruence. exists c. split; [done|]. intros h x. cbn.
    intros [(i & m & Hi & _ & ->)|[Hx _]]%stored_messages_lookup; [cbn|by eapply Hs].
    apply list_elem_of_lookup_2, (to_verify_elem st env messages) in Hi as [Hin _]; [|done].
    by apply (proj1 (Forall_forall _ _) Hsrc).
  - apply verify_verifier_set_Ok in Hf as (status & _ &
      [(_ & -> & _)|(c' & s & e & id & _ & _ & _ & _ & _ & -> & ->)]); by exists c.
  - unfold update_voting_parameters, item_load in Hf. ok_inv. simplify_eq. eexists. split; [done|]. done.
Qed.

(** A call leaves the polls that exist alone, or makes one step on one of them. *)
Lemma execute_polls st env sender m st' r id p :
  inv st → execute st env sender m = Ok (st', r) → POLLS st !! id = Some p →
  ∃ w, POLLS st' !! id = Some (with_poll p w) ∧
       (w = weighted_poll p ∨ poll_step (weighted_poll p) w).
Proof.
  intros Hi Hf%execute_handler Hp.
  assert (with_poll p (weighted_poll p) = p) as Hsame by by destruct p.
  destruct (fresh_poll st Hi) as [Hfresh _].
  assert (∀ q, <[counter.cur (POLL_ID st) + 1 := q]> (POLLS st) !! id = Some p) as Hnew.
  { intros q. by rewrite lookup_insert_ne by congruence. }
  destruct m as [id'|id' votes|messages|mid vs|t b c].
  - apply end_poll_Ok in Hf as (c & p' & w & ps & _ & Hp' & Hw & _ & -> & _). cbn.
    destruct (decide (id' = id)) as [->|Hne]; simplify_eq.
    + exists w. rewrite lookup_insert_eq. split; [done|right; by eapply step_finish].
    + exists (weighted_poll p). rewrite lookup_insert_ne, Hsame by done. auto.
  - apply vote_Ok in Hf as (p' & w & Hp' & Hw & ->). cbn.
    destruct (decide (id' = id)) as [->|Hne]; simplify_eq.
    + exists w. rewrite lookup_insert_eq. split; [done|right; by eapply step_cast].
    + exists (weighted_poll p). rewrite lookup_insert_ne, Hsame by done. auto.
  - exists (weighted_poll p). rewrite Hsame. split; [|by left].
    apply verify_messages_Ok in Hf as (c & todo & _ & _ & _ &
      [(_ & -> & _)|(s & e & id' & _ & _ & _ & _ & -> & _ & _ & ->)]); cbn; auto.
  - exists (weighted_poll p). rewrite Hsame. split; [|by left].
    apply verify_verifier_set_Ok in Hf as (status & _ &
      [(_ & -> & _)|(c & s & e & id' & _ & _ & _ & _ & _ & -> & ->)]); cbn; auto.
  - unfold update_voting_parameters in Hf. ok_inv. simplify_eq. exists (weighted_poll p).
    rewrite Hsame. auto.
Qed.

Definition vote_status (v : Vote) : VerificationStatus :=
  match v with
  | SucceededOnChain => SucceededOnSourceChain
  | FailedOnChain => FailedOnSourceChain
  | VoteNotFound => NotFoundOnSourceChain
  end.

#[global] Instance vote_status_inj : Inj (=) (=) vote_status.
Proof. by intros [] []. Qed.

(** The status of a stored item is the consensus of its poll, if there is one. *)
Lemma verification_status_Ok {T} `{EqDecision T} st (c : PollContent T) x h s :
  verification_status st (Some c) x h = Ok s →
  content c = x ∧ ∃ p o, POLLS st !! content_poll_id c = Some p ∧
    consensus (weighted_poll p) (Z.to_nat (index_in_poll c)) = Ok o ∧
    s = match o with
        | Some v => vote_status v
        | None => if voting_completed p h then FailedToVerify else StatusInProgress
        end.
Proof.
  unfold verification_status. intros Hf. ok_inv. breflect. split; [done|].
  eexists _, _. by split_and!.
Qed.

Lemma confirmed_consensus {T} `{EqDecision T} st (c : PollContent T) x h s :
  verification_status st (Some c) x h = Ok s → is_confirmed s = true →
  content c = x ∧ ∃ p v, POLLS st !! content_poll_id c = Some p ∧
    consensus (weighted_poll p) (Z.to_nat (index_in_poll c)) = Ok (Some v) ∧ s = vote_status v.
Proof.
  intros (Hx & p & o & Hp & Ho & ->)%verification_status_Ok Hs. split; [done|].
  destruct o as [v|]; [eauto|]. by destruct (voting_completed p h).
Qed.

(** A confirmed status survives every call that keeps the item's entry. *)
Lemma confirmed_status_kept {T} `{EqDecision T} st env sender m st' r (c : PollContent T) x h s h' :
  inv st → execute st env sender m = Ok (st', r) →
  verification_status st (Some c) x h = Ok s → is_confirmed s = true →
  verification_status st' (Some c) x h' = Ok s.
Proof.
  intros Hi Hf Hst Hs.
  destruct (confirmed_consensus _ _ _ _ _ Hst Hs) as (<- & p & v & Hp & Hv & ->).
  destruct (execute_polls _ _ _ _ _ _ _ _ Hi Hf Hp) as (w & Hw & Hstep).
  unfold verification_status. rewrite bool_decide_eq_true_2 by done. cbn. rewrite Hw. cbn.
  rewrite weighted_with_poll.
  assert (consensus w (Z.to_nat (index_in_poll c)) = Ok (Some v)) as ->; [|by destruct v].
  destruct Hstep as [->|Hstep]; [done|].
  destruct (inv_poll _ Hi _ _ Hp) as (_ & _ & s & Hok & Hr).
  by eapply poll_step_consensus.
Qed.

Lemma confirmed_message_kept st env sender m st' r x h s :
  inv st → execute st env sender m = Ok (st', r) →
  message_status st x h = Ok s → is_confirmed s = true →
  poll_messages st' !! Message_hash keccak256 x = poll_messages st !! Message_hash keccak256 x.
Proof.
  intros Hi Hf%execute_handler Hst Hs. unfold message_status in Hst.
  destruct (poll_messages st !! Message_hash keccak256 x) as [c|] eqn:Hc;
    [|cbn in Hst; ok_inv; by subst].
  destruct m as [id'|id' votes|messages|mid vs|t b c'].
  - by apply end_poll_Ok in Hf as (? & ? & ? & ? & _ & _ & _ & _ & -> & _).
  - by apply vote_Ok in Hf as (? & ? & _ & _ & ->).
  - apply verify_messages_Ok in Hf as (c' & todo & _ & Htodo & _ &
      [(_ & -> & _)|(? & ? & ? & _ & _ & _ & _ & -> & _ & _ & ->)]); [done|]. cbn.
    rewrite stored_messages_old; [done|]. apply Forall_forall. intros y Hin Heq.
    apply (to_verify_elem st env messages todo y Htodo) in Hin as (_ & s' & Hs' & Hn).
    unfold message_status in Hs'. rewrite Heq, Hc in Hs'.
    destruct (confirmed_consensus _ _ _ _ _ Hst Hs) as (Hx & p & v & Hp & Hv & ->).
    apply verification_status_Ok in Hs' as (_ & p' & o & Hp' & Ho & ->).
    assert (p' = p) as -> by congruence. assert (o = Some v) as -> by congruence.
    by destruct v.
  - by apply verify_verifier_set_Ok in Hf as (status & _ &
      [(_ & -> & _)|(? & ? & ? & ? & _ & _ & _ & _ & _ & -> & ->)]).
  - unfold update_voting_parameters in Hf. ok_inv. by simplify_eq.
Qed.

Lemma confirmed_message_step st env sender msg st' r m h s :
  inv st → execute st env sender msg = Ok (st', r) →
  message_status st m h = Ok s → is_confirmed s = true → message_status st' m h = Ok s.
Proof.
  intros Hi Hf Hst Hs. pose proof (confirmed_message_kept _ _ _ _ _ _ _ _ _ Hi Hf Hst Hs) as Hkept.
  unfold message_status in *. rewrite Hkept.
  destruct (poll_messages st !! _) as [c|]; [|cbn in Hst; ok_inv; by subst].
  by eapply confirmed_status_kept.
Qed.

(** C11: Once a message has been confirmed, as succeeded or as failed on its source
    chain, its status is the same at every height in every later storage of the
    contract, and the poll it was confirmed in stays the one it is stored with: no
    vote, no end of a poll and no new request for verification changes it. *)
Theorem confirmed_message_is_final (st st' : State) (m : Message) (h h' : Z)
    (s : VerificationStatus) :
  reachable st → rtc step st st' →
  message_status st m h = Ok s → is_confirmed s = true →
  message_status st' m h' = Ok s ∧
  poll_messages st' !! Message_hash keccak256 m = poll_messages st !! Message_hash keccak256 m.
Proof.
  intros Hr Hsteps. revert h Hr. induction Hsteps as [st|st st1 st' Hstep _ IH]; intros h Hr Hst Hs.
  - split; [|done]. unfold message_status in *. destruct (poll_messages st !! _) as [c|].
    + destruct (confirmed_consensus _ _ _ _ _ Hst Hs) as (<- & p & v & Hp & Hv & ->).
      unfold verification_status. rewrite bool_decide_eq_true_2 by done. cbn. rewrite Hp. cbn.
      rewrite Hv. by destruct v.
    + cbn in Hst. ok_inv. by subst.
  - assert (reachable st1) as Hr1 by by eapply reachable_step.
    destruct Hstep as (env & sender & msg & r & Hreg & Hm & Hf).
    pose proof (vv_reachable_inv _ Hr) as Hi.
    pose proof (confirmed_message_kept _ _ _ _ _ _ _ _ _ Hi Hf Hst Hs) as Hkept.
    rewrite <-Hkept. apply (IH h); [done| |done]. by eapply confirmed_message_step.
Qed.

(** ** The meaning of a status *)

Lemma poll_consensus st id p i :
  inv st → POLLS st !! id = Some p → (i < length (tallies (weighted_poll p)))%nat →
  ∃ s o, snapshot_ok s ∧ poll_reachable s (weighted_poll p) (poll_votes st id) ∧
    consensus (weighted_poll p) i = Ok o ∧
    ∀ v, o = Some v ↔ quorum s ≤ voted_weight (weighted_poll p) (poll_votes st id) i v.
Proof.
  intros Hi Hp Hlen. destruct (inv_poll _ Hi _ _ Hp) as (_ & _ & s & Hs & Hr).
  destruct (poll_consensus_spec _ _ _ _ Hs Hr Hlen) as (o & Ho & Hspec). eauto 10.
Qed.

(** The stored messages do not collide with [m]. *)
Definition no_collision (st : State) (m : Message) : Prop :=
  ∀ c, poll_messages st !! Message_hash keccak256 m = Some c →
    Message_preimage (content c) = Message_preimage m.

Lemma stored_content st m c :
  inv st → Message_wf m → no_collision st m →
  poll_messages st !! Message_hash keccak256 m = Some c → content c = m.
Proof.
  intros Hi Hm Hno Hc. destruct (inv_message _ Hi _ _ Hc) as (_ & Hw & _).
  apply Message_preimage_inj; auto.
Qed.

(** C10: What the status of a message means.  In every reachable storage, for a message
    whose hash does not collide with a stored one, the query does not panic.  A
    message that was never submitted is unknown.  Otherwise it is stored with an item
    of a poll over a majority snapshot; its status is the one of the vote [v] exactly
    when the participants whose recorded vote on that item is [v] hold at least the
    quorum, it is in progress exactly when no vote reached the quorum and the poll is
    neither finished nor expired, and it failed to verify in the remaining case. *)
Theorem message_status_exact (st : State) (m : Message) (h : Z) :
  reachable st → Message_wf m → no_collision st m →
  match poll_messages st !! Message_hash keccak256 m with
  | None => message_status st m h = Ok StatusUnknown
  | Some c =>
      let id := content_poll_id c in let i := Z.to_nat (index_in_poll c) in
      ∃ w s status, POLLS st !! id = Some (PollMessages w) ∧ snapshot_ok s ∧
        poll_reachable s w (poll_votes st id) ∧
        message_status st m h = Ok status ∧
        (∀ v, status = vote_status v ↔ quorum s ≤ voted_weight w (poll_votes st id) i v) ∧
        (status = StatusInProgress ↔
           (∀ v, voted_weight w (poll_votes st id) i v < quorum s) ∧
           finished w = false ∧ h < expires_at w) ∧
        (status = FailedToVerify ↔
           (∀ v, voted_weight w (poll_votes st id) i v < quorum s) ∧
           (finished w = true ∨ expires_at w ≤ h))
  end.
Proof.
  intros Hr%vv_reachable_inv Hm Hno. destruct (poll_messages st !! _) as [c|] eqn:Hc;
    [|unfold message_status; by rewrite Hc]. cbn zeta.
  pose proof (stored_content _ _ _ Hr Hm Hno Hc) as Hx.
  destruct (inv_message _ Hr _ _ Hc) as (_ & _ & w & Hp & Hb).
  destruct (poll_consensus st _ _ (Z.to_nat (index_in_poll c)) Hr Hp) as (s & o & Hs & Hreach & Ho & Hv);
    [cbn; lia|]. cbn [weighted_poll] in *.
  exists w, s. unfold message_status. rewrite Hc. cbn. rewrite bool_decide_eq_true_2 by done.
  cbn. rewrite Hp. cbn. rewrite Ho. cbn. eexists. do 3 (split; [done|]). split; [done|].
  unfold voting_completed, status; cbn. destruct o as [u|].
  - assert (quorum s ≤ voted_weight w (poll_votes st (content_poll_id c)) (Z.to_nat (index_in_poll c)) u)
      as Hu by by apply Hv.
    split; [intros v; rewrite <-Hv; by destruct u, v|].
    split; (split; [by destruct u|]; intros [Hall _]; specialize (Hall u); lia).
  - assert (∀ v, voted_weight w (poll_votes st (content_poll_id c)) (Z.to_nat (index_in_poll c)) v
      < quorum s) as Hlt by (intros v; apply Z.nle_gt; rewrite <-Hv; done).
    destruct (finished w) eqn:Hfin; [|case_bool_decide]; (split; [intros v; specialize (Hlt v);
      split; [by destruct v|lia]|]); naive_solver lia.
Qed.

(** ** Votes and the events of a quorum *)

Lemma single_spec {E T} (l : list (string * PollContent T)) :
  NoDup l → (∀ p q, p ∈ l → q ∈ l → p = q) →
  ∃ o, @single E T l = Ok o ∧ ∀ x, o = Some x ↔ ∃ h c, (h, c) ∈ l ∧ content c = x.
Proof.
  intros Hnd Hu. destruct l as [|[h c] [|q l]]; cbn.
  - exists None. split; [done|]. intros x. split; [done|].
    intros (h & c & Hin & _). inversion Hin.
  - exists (Some (content c)). split; [done|]. intros x. split.
    + intros [= <-]. exists h, c. split; [left|done].
    + intros (h' & c' & Hin%list_elem_of_singleton & <-). by simplify_eq.
  - exfalso. apply NoDup_cons in Hnd as [Hn _]. apply Hn.
    rewrite (Hu (h, c) q); [left|left|right; left].
Qed.

Lemma load_message_spec {E} st id i :
  inv st → ∃ o, @load_message E st id i = Ok o ∧
    ∀ m, o = Some m ↔ ∃ h, poll_messages st !! h = Some (mkContent m id i).
Proof.
  intros Hi. unfold load_message.
  edestruct (@single_spec E Message) as (o & Ho & Hspec); [| |exists o; split; [exact Ho|]].
  - apply NoDup_filter, NoDup_map_to_list.
  - intros [h c] [h' c']. rewrite !list_elem_of_filter, !elem_of_map_to_list. cbn.
    intros [[<- <-] Hc] [[Hid Hix] Hc'].
    assert (h = h') as -> by by apply (inv_message_unique _ Hi _ _ _ _ Hc Hc'). by simplify_eq.
  - intros m. rewrite Hspec. setoid_rewrite list_elem_of_filter. setoid_rewrite elem_of_map_to_list.
    cbn. split; [intros (h & [m' id' i'] & [[<- <-] Hc] & <-); eauto|].
    intros [h Hh]. by exists h, (mkContent m id i).
Qed.

Lemma load_verifier_set_spec {E} st id :
  inv st → ∃ o, @load_verifier_set E st id = Ok o ∧
    ∀ vs, o = Some vs ↔ ∃ h, poll_verifier_sets st !! h = Some (mkContent vs id 0).
Proof.
  intros Hi. unfold load_verifier_set.
  edestruct (@single_spec E verifier_set.VerifierSet) as (o & Ho & Hspec);
    [| |exists o; split; [exact Ho|]].
  - apply NoDup_filter, NoDup_map_to_list.
  - intros [h c] [h' c']. rewrite !list_elem_of_filter, !elem_of_map_to_list. cbn.
    intros [<- Hc] [Hid Hc'].
    assert (h = h') as -> by by apply (inv_set_unique _ Hi _ _ _ _ Hc Hc'). by simplify_eq.
  - intros vs. rewrite Hspec. setoid_rewrite list_elem_of_filter. setoid_rewrite elem_of_map_to_list.
    cbn. split.
    + intros (h & [vs' id' i'] & [<- Hc] & <-). cbn in *.
      destruct (inv_set _ Hi _ _ Hc) as (_ & Hx & _). cbn in Hx. subst. eauto.
    + intros [h Hh]. by exists h, (mkContent vs id 0).
Qed.

(** The event that announces the quorum [v] on item [i] of poll [id]. *)
Definition quorum_event (st : State) (id : Z) (p : Poll) (i : nat) (v : Vote) : Event :=
  match p with
  | PollMessages _ => MessageQuorumReached
      (match @load_message ContractError st id (Z.of_nat i) with Ok o => o | _ => None end)
      (vote_status v) id
  | PollConfirmVerifierSet _ => VerifierSetQuorumReached
      (match @load_verifier_set ContractError st id with Ok o => o | _ => None end)
      (vote_status v) id
  end.

(** The events for the items on which the poll reached its quorum between [w] and [w']. *)
Definition new_quorums (st : State) (id : Z) (p : Poll) (w w' : WeightedPoll) : list Event :=
  omap (λ i, match consensus w i, consensus w' i with
             | Ok None, Ok (Some v) => Some (quorum_event st id p i v)
             | _, _ => None
             end) (seq 0 (length (tallies w))).

Lemma make_quorum_event_Ok st o i id p :
  inv st →
  make_quorum_event st o (Z.of_nat i) id p = Ok (quorum_event st id p i <$> o).
Proof.
  intros Hi. unfold make_quorum_event. destruct p as [w|w]; cbn.
  - destruct (@load_message_spec ContractError st id (Z.of_nat i) Hi) as (x & Hx & _).
    by destruct o as [[]|]; cbn; rewrite Hx.
  - destruct (@load_verifier_set_spec ContractError st id Hi) as (x & Hx & _).
    by destruct o as [[]|]; cbn; rewrite Hx.
Qed.

Lemma omap_id_imap {A B} (g : nat → A → option B) (l : list A) (f : nat → option B) k :
  (∀ i x, l !! i = Some x → g i x = f (k + i)%nat) →
  omap id (imap g l) = omap f (seq k (length l)).
Proof.
  revert g k. induction l as [|x l IH]; intros g k Hg; [done|].
  cbn. rewrite (Hg 0%nat x), Nat.add_0_r by done.
  rewrite (IH (g ∘ S) (S k)); [done|]. intros i y Hi. cbn. rewrite (Hg (S i) y) by done.
  f_equal. lia.
Qed.

Lemma vote_run st env sender id votes p w :
  inv st → POLLS st !! id = Some p →
  cast_vote (weighted_poll p) (height env) sender votes = Ok w →
  ∃ st' r, vote st env sender id votes = Ok (st', r) ∧
    st' = mkState (perm st) (CONFIG st) (POLL_ID st) (<[id := with_poll p w]> (POLLS st))
      (<[id := <[sender := votes]> (poll_votes st id)]> (VOTES st))
      (poll_messages st) (poll_verifier_sets st) ∧
    messages r = [] ∧
    events r = Voted id sender votes :: new_quorums st id p (weighted_poll p) w.
Proof.
  intros Hi Hp Hc. destruct (inv_poll _ Hi _ _ Hp) as (_ & Hsize & s & Hs & Hr).
  pose proof (reach_cast _ _ _ _ _ _ _ Hr Hc) as Hr'. pose proof Hs as (_ & _ & Hmaj).
  destruct (poll_reachable_inv _ _ _ Hs Hr) as (Hinv & Hq & Hw).
  destruct (poll_reachable_inv _ _ _ Hs Hr') as (Hinv' & Hq' & Hw').
  destruct (results_spec _ _ Hinv ltac:(lia)) as (rs & Hrs & Hlen & Hcons).
  destruct (results_spec _ _ Hinv' ltac:(lia)) as (rs' & Hrs' & Hlen' & Hcons').
  destruct (steps_tallies _ _ (step_cast _ _ _ _ _ Hc)) as [Hts _].
  unfold vote. rewrite Hp. cbn. unfold poll_results. rewrite Hrs. cbn.
  rewrite (proj2 (Poll_try_map_Ok p _ (with_poll p w))) by (exists w; by rewrite Hc). cbn.
  rewrite weighted_with_poll, Hrs'. cbn. unfold PollResults_difference.
  rewrite bool_decide_eq_false_2 by lia. cbn.
  set (diff := _ <$> zip rs' rs).
  assert (length diff = length (tallies (weighted_poll p))) as Hdl.
  { unfold diff. rewrite length_fmap, length_zip_with. lia. }
  rewrite (proj2 (try_map_Ok _ _ (imap (λ i o, quorum_event st id p i <$> o) diff))).
  2:{ apply Forall2_same_length_lookup_2; [by rewrite !length_imap|].
      intros i x y. rewrite !list_lookup_imap. destruct (diff !! i) as [o|] eqn:Hd; [|done].
      cbn. intros [= <-] [= <-]. apply lookup_lt_Some in Hd.
      rewrite bool_decide_eq_true_2 by lia. cbn.
      rewrite <-(make_quorum_event_Ok st o i id p Hi). by destruct p. }
  cbn. eexists _, _. split; [done|]. split; [done|]. split; [done|]. cbn. f_equal.
  unfold new_quorums. rewrite <-Hdl. apply (omap_id_imap _ _ _ 0). intros i o Hd. cbn.
  unfold diff in Hd. rewrite list_lookup_fmap, lookup_zip_with in Hd.
  rewrite Hcons, Hcons'. destruct (rs' !! i) as [o1|], (rs !! i) as [o2|]; cbn in Hd; try done.
  case_bool_decide as Hnew; simplify_eq; [destruct Hnew as [[v ->] ->]; done|].
  destruct o2; [done|]. destruct o1; [|done]. exfalso; eauto.
Qed.

(** What a vote does, on every branch.  In every reachable storage, a vote on a
    poll that exists fails exactly with the error of [WeightedPoll::cast_vote], and it
    never panics; otherwise the poll and the voter's record are the only data that
    change, and the emitted events are the vote followed, in the order of the items, by
    one event for each item on which this vote completed the quorum, with the status
    and the content of that item. *)
Theorem vote_exact (st : State) (env : Env) (sender : Addr) (id : Z) (votes : list Vote)
    (p : Poll) :
  reachable st → POLLS st !! id = Some p →
  match cast_vote (weighted_poll p) (height env) sender votes with
  | Ok w =>
      ∃ st' r, vote st env sender id votes = Ok (st', r) ∧
        st' = mkState (perm st) (CONFIG st) (POLL_ID st) (<[id := with_poll p w]> (POLLS st))
          (<[id := <[sender := votes]> (poll_votes st id)]> (VOTES st))
          (poll_messages st) (poll_verifier_sets st) ∧
        messages r = [] ∧
        events r = Voted id sender votes :: new_quorums st id p (weighted_poll p) w
  | Err e => vote st env sender id votes = Err (VoteError e)
  | Panic => False
  end ∧
  (∀ i m, @load_message ContractError st id i = Ok (Some m) ↔
          ∃ h, poll_messages st !! h = Some (mkContent m id i)).
Proof.
  intros Hi%vv_reachable_inv Hp. split.
  - destruct (cast_vote _ _ _ _) as [w|e|] eqn:Hc.
    + by apply vote_run.
    + unfold vote. rewrite Hp. cbn.
      destruct (inv_poll _ Hi _ _ Hp) as (_ & _ & s & Hs & Hr). pose proof Hs as (_ & _ & Hmaj).
      destruct (poll_reachable_inv _ _ _ Hs Hr) as (Hinv & Hq & Hw).
      destruct (results_spec _ _ Hinv ltac:(lia)) as (rs & Hrs & _).
      unfold poll_results. rewrite Hrs. cbn. by destruct p; cbn in *; rewrite Hc.
    + unfold cast_vote in Hc. destruct (participation _ !! _) as [pt|]; cbn in Hc; [|done].
      repeat (case_bool_decide; [done|]). by destruct (voted pt).
  - intros i m. destruct (@load_message_spec ContractError st id i Hi) as (o & -> & Ho).
    rewrite <-Ho. naive_solver.
Qed.

(** ** The end of a poll *)

Lemma finish_Ok w h w' :
  finish w h = Ok w' → finished w = false ∧ finished w' = true ∧ expires_at w ≤ h ∧
    tallies w' = tallies w ∧ poll_quorum w' = poll_quorum w ∧ participation w' = participation w.
Proof. unfold finish. intros Hf. repeat ok_case. breflect. ok_inv. cbn. split_and!; try done; lia. Qed.

Lemma finished_kept st st' id p :
  reachable st → rtc step st st' → POLLS st !! id = Some p → finished (weighted_poll p) = true →
  ∃ p', POLLS st' !! id = Some p' ∧ finished (weighted_poll p') = true.
Proof.
  intros Hr Hsteps. revert p Hr. induction Hsteps as [st|st st1 st' Hstep _ IH]; intros p Hr Hp Hf;
    [eauto|].
  assert (reachable st1) as Hr1 by by eapply reachable_step.
  destruct Hstep as (env & sender & m & r & _ & _ & Hex).
  destruct (execute_polls _ _ _ _ _ _ _ _ (vv_reachable_inv _ Hr) Hex Hp) as (w & Hw & Hcase).
  apply (IH (with_poll p w) Hr1 Hw). rewrite weighted_with_poll.
  destruct Hcase as [->|Hstep]; [done|].
  inversion Hstep as [? ? ? ? ? (pt & _ & _ & _ & _ & ->)%cast_vote_Ok|? ? ? Hfin]; subst; [done|].
  apply finish_Ok in Hfin as (? & _). congruence.
Qed.

(** A poll is ended at most once, after its expiry, and it rewards exactly the right
    voters.  If ending a poll succeeds in a reachable storage then the poll had expired
    and was not finished; the messages to the rewards contract name, once each and with
    the poll's identifier as event, exactly the voters whose recorded votes agree with
    every item that reached the quorum; and in every later storage ending the same poll
    is refused. *)
Theorem end_poll_rewards_once (st st' st'' : State) (env env' : Env) (sender : Addr) (id : Z)
    (r : VResponse) :
  reachable st → registry_ok env → execute st env sender (EndPoll id) = Ok (st', r) →
  rtc step st' st'' →
  ∃ c p rewarded, CONFIG st = Some c ∧ POLLS st !! id = Some p ∧
    expires_at (weighted_poll p) ≤ height env ∧ finished (weighted_poll p) = false ∧
    messages r = (λ a, RecordParticipation (rewards_contract c) (source_chain_name c)
                         (uint_to_string id) a) <$> rewarded ∧
    NoDup rewarded ∧
    (∀ a, a ∈ rewarded ↔ ∃ votes, poll_votes st id !! a = Some votes ∧
       ∀ i v, consensus (weighted_poll p) i = Ok (Some v) → votes !! i = Some v) ∧
    end_poll st'' env' id = Err (VoteError PollNotInProgress).
Proof.
  intros Hr Hreg Hex Hsteps.
  assert (reachable st') as Hr'
    by (eapply reachable_step; [done|]; by exists env, sender, (EndPoll id), r).
  apply execute_handler, end_poll_Ok in Hex
    as (c & p & w & ps & Hc & Hp & Hfin & Hst & -> & Hmsgs & _).
  pose proof (vv_reachable_inv _ Hr) as Hi.
  destruct (inv_poll _ Hi _ _ Hp) as (_ & _ & s & Hs & Hreach).
  destruct (state_spec s w (poll_votes st id) Hs) as (ps' & Hps' & _ & _ & Hnd & _ & Hin);
    [by eapply reach_finish|].
  rewrite Hps' in Hst. apply Ok_inj in Hst. subst ps'.
  destruct (finish_Ok _ _ _ Hfin) as (Hf & Hf' & Hexp & Ht & Hq & _).
  exists c, p, (ps_consensus_participants ps). split_and!; try done.
  - intros a. rewrite Hin. unfold consensus. by rewrite Ht, Hq.
  - destruct (finished_kept _ _ id (with_poll p w) Hr' Hsteps) as (p' & Hp' & Hfp').
    { cbn. by rewrite lookup_insert_eq. } { by rewrite weighted_with_poll. }
    assert (inv st'') as Hi'' by (apply vv_reachable_inv; clear -Hr' Hsteps;
      induction Hsteps; eauto using reachable_step).
    destruct (inv_config _ Hi'') as (c' & Hc' & _).
    unfold end_poll. rewrite Hc', Hp'. cbn. by destruct p'; cbn in *; unfold finish; rewrite Hfp'.
Qed.

(** ** Consistency of the stored content *)

(** The indices of the messages stored for a poll are distinct items of it. *)
Lemma load_messages_indices st id w :
  inv st → POLLS st !! id = Some (PollMessages w) →
  let l := (λ p, Z.to_nat (index_in_poll p.2)) <$>
    filter (λ p, content_poll_id p.2 = id) (map_to_list (poll_messages st)) in
  length (load_messages st id) = length l ∧ NoDup l ∧
  ∀ i, i ∈ l ↔ ∃ h c, poll_messages st !! h = Some c ∧ content_poll_id c = id ∧
                      Z.to_nat (index_in_poll c) = i ∧ (i < length (tallies w))%nat.
Proof.
  intros Hi Hw. cbn zeta. unfold load_messages. rewrite length_fmap, (merge_sort_Permutation _).
  split; [by rewrite length_fmap|]. split.
  - apply NoDup_fmap_2_strong; [|apply NoDup_filter, NoDup_map_to_list].
    intros [h c] [h' c']. rewrite !list_elem_of_filter, !elem_of_map_to_list. cbn.
    intros [Hid Hc] [Hid' Hc'] Heq.
    destruct (inv_message _ Hi _ _ Hc) as (_ & _ & ? & _ & Hb).
    destruct (inv_message _ Hi _ _ Hc') as (_ & _ & ? & _ & Hb').
    assert (h = h') as -> by (eapply (inv_message_unique _ Hi); eauto; [congruence|lia]).
    by simplify_eq.
  - intros i. rewrite list_elem_of_fmap. setoid_rewrite list_elem_of_filter. split.
    + intros ([h c] & -> & Hid & Hc%elem_of_map_to_list). cbn in *. exists h, c.
      destruct (inv_message _ Hi _ _ Hc) as (_ & _ & w' & Hw' & Hb).
      assert (w' = w) as -> by congruence. split_and!; try done. lia.
    + intros (h & c & Hc & Hid & <- & _). exists (h, c). by rewrite elem_of_map_to_list.
Qed.

(** Asking again for a message that a poll did not confirm makes that poll
    unreadable.  When a message stored with poll [id] is neither confirmed nor in
    progress, any request that includes it moves it to a new poll; from then on the query
    for poll [id] panics on its consistency assertion, because a poll's messages are
    found through the index that the message has just left. *)
Theorem reverification_breaks_poll_query (st st' : State) (env : Env) (sender : Addr)
    (messages : list Message) (m : Message) (c : PollContent Message) (s : VerificationStatus)
    (h : Z) (r : VResponse) :
  reachable st → registry_ok env → Forall Message_wf messages →
  poll_messages st !! Message_hash keccak256 m = Some c → m ∈ messages →
  message_status st m (height env) = Ok s → needs_poll s = true →
  execute st env sender (VerifyMessages messages) = Ok (st', r) →
  poll_response st' h (content_poll_id c) = Panic.
Proof.
  intros Hr Hreg Hwf Hc Hin Hs Hneeds Hex. pose proof (vv_reachable_inv _ Hr) as Hi.
  assert (inv st') as Hi' by exact (vv_inv_execute _ _ _ (VerifyMessages messages) _ _ Hi Hreg Hwf Hex).
  destruct (inv_message _ Hi _ _ Hc) as (_ & _ & w & Hw & Hb).
  pose proof Hex as Hex'.
  apply execute_handler, verify_messages_Ok in Hex as (c0 & todo & _ & Htodo & _ & Hcase).
  assert (m ∈ todo) as Hm by (apply (to_verify_elem st env messages todo m Htodo); eauto).
  destruct Hcase as [(-> & _)|(sn & e & id & _ & _ & _ & _ & Hid & _ & _ & Heq)];
    [by inversion Hm|].
  assert (content_poll_id c ≠ id) as Hne.
  { destruct (fresh_poll st Hi) as [Hf _]. congruence. }
  assert (POLLS st' !! content_poll_id c = Some (PollMessages w)) as Hw'.
  { rewrite Heq; cbn. by rewrite lookup_insert_ne by done. }
  destruct (load_messages_indices st' _ w Hi' Hw') as (Hlen & Hnd & Hl).
  set (l := _ <$> filter _ _) in *.
  unfold poll_response. rewrite Hw'. cbn. rewrite bool_decide_eq_false_2; [done|].
  rewrite Hlen. intros Hfull.
  assert (Z.to_nat (index_in_poll c) ∈ l) as (h' & c' & Hc' & Hid' & Hix & _)%Hl.
  { assert (l ≡ₚ seq 0 (length (tallies w))) as ->; [|apply elem_of_seq; lia].
    apply submseteq_length_Permutation; [|rewrite length_seq; lia].
    apply NoDup_submseteq; [done|]. intros i (? & ? & _ & _ & _ & Hlt)%Hl. apply elem_of_seq. lia. }
  rewrite Heq in Hc'; cbn in Hc'. apply stored_messages_lookup in Hc' as [(i & x & _ & _ & ->)|[Hold Hall]].
  - by cbn in Hid'.
  - destruct (inv_message _ Hi _ _ Hold) as (_ & _ & ? & _ & Hb').
    assert (h' = Message_hash keccak256 m) as ->
      by (eapply (inv_message_unique _ Hi); eauto; lia).
    rewrite Forall_forall in Hall. by apply (Hall m Hm).
Qed.

(** The content stored under a verifier set's hash never changes. *)
Lemma set_content_kept st env sender m st' r h c :
  execute st env sender m = Ok (st', r) → poll_verifier_sets st !! h = Some c →
  ∃ c', poll_verifier_sets st' !! h = Some c' ∧ content c' = content c.
Proof.
  intros Hf%execute_handler Hc. destruct m as [id'|id' votes|messages|mid vs|t b c'].
  - apply end_poll_Ok in Hf as (? & ? & ? & ? & _ & _ & _ & _ & -> & _). eauto.
  - apply vote_Ok in Hf as (? & ? & _ & _ & ->). eauto.
  - apply verify_messages_Ok in Hf as (c' & todo & _ & Htodo & _ &
      [(_ & -> & _)|(? & ? & ? & _ & _ & _ & _ & -> & _ & _ & ->)]); eauto.
  - apply verify_verifier_set_Ok in Hf as (status & Hst &
      [(_ & -> & _)|(? & ? & ? & ? & _ & _ & _ & _ & _ & -> & ->)]); [eauto|]. cbn.
    destruct (decide (verifier_set.hash vs = h)) as [<-|Hne].
    + unfold verifier_set_status in Hst. rewrite Hc in Hst.
      apply verification_status_Ok in Hst as [<- _].
      eexists. rewrite lookup_insert_eq. done.
    + exists c. by rewrite lookup_insert_ne.
  - unfold update_voting_parameters in Hf. ok_inv. simplify_eq. eauto.
Qed.

(** Anyone can block the verification of a verifier set for good.  The hash of a set
    does not cover the keys of its signer map, so that a set [vs'] with the same signers
    under other keys has the hash of [vs].  Once a request for [vs'] has been accepted,
    in every later storage both the status query for [vs] and any request to verify it
    panic. *)
Theorem verifier_set_verification_blocked (st st' st'' : State) (env env' : Env)
    (sender : Addr) (mid mid' : string) (vs vs' : verifier_set.VerifierSet) (h : Z)
    (r : VResponse) :
  verifier_set.hash_preimage vs' = verifier_set.hash_preimage vs → vs' ≠ vs →
  execute st env sender (VerifyVerifierSet mid vs') = Ok (st', r) →
  rtc step st' st'' →
  verifier_set_status st'' vs h = Panic ∧ verify_verifier_set st'' env' mid' vs = Panic.
Proof.
  intros Hpre Hne Hex Hsteps.
  assert (∃ c, poll_verifier_sets st' !! verifier_set.hash vs = Some c ∧ content c = vs') as Hc.
  { apply execute_handler, verify_verifier_set_Ok in Hex as (status & Hst & Hcase).
    replace (verifier_set.hash vs) with (verifier_set.hash vs')
      by (unfold verifier_set.hash; by rewrite Hpre).
    destruct Hcase as [(Hconf & -> & _)|(? & ? & ? & ? & _ & _ & _ & _ & _ & -> & ->)].
    - unfold verifier_set_status in Hst. destruct (poll_verifier_sets st !! _) as [c|] eqn:Hc.
      + apply verification_status_Ok in Hst as [Heq _]. eauto.
      + cbn in Hst. ok_inv. done.
    - eexists. cbn. by rewrite lookup_insert_eq. }
  clear Hex. induction Hsteps as [st1|st1 st2 st3 Hstep _ IH].
  - destruct Hc as (c & Hc & Heq).
    assert (∀ h, verifier_set_status st1 vs h = Panic) as Hpanic; [|split; [done|]].
    { intros h'. unfold verifier_set_status. rewrite Hc. cbn.
      by rewrite bool_decide_eq_false_2 by congruence. }
    unfold verify_verifier_set. by rewrite Hpanic.
  - apply IH. destruct Hstep as (? & ? & ? & ? & _ & _ & Hf). destruct Hc as (c & Hc & Heq).
    destruct (set_content_kept _ _ _ _ _ _ _ _ Hf Hc) as (c' & Hc' & Heq'). exists c'.
    split; [done|congruence].
Qed.

End contract.
End voting_verifier.

(** ** A run of the contract

    One message, three verifiers of weight one and a threshold of two thirds. *)
Module voting_verifier_run.
Import router_api voting_verifier.

Definition run_crypto : Crypto := {|
  keccak256 := λ s, s;
  secp256k1_verify := λ _ _ _, None;
  ed25519_verify_bytes := λ _ _ _, None;
  k256_normalize := Some;
  ed25519_normalize := Some
|}.
Definition run_api : Api := {| addr_validate := λ s, Ok s |}.
Definition run_bech32 : Bech32Codec := Build_Bech32Codec (λ _, true) (λ _ _, true) (λ _, None).
Definition run_parsers : address.AddressParsers := {|
  address.parse_checksummed := λ _, true;
  address.sc_address_from_str := λ _, true;
  address.str_to_uppercase := id;
  address.str_to_lowercase := id
|}.
#[local] Existing Instances run_crypto run_api run_bech32 run_parsers.

Definition run_env (h : Z) : Env := mkEnv h (λ _ _ _, Some three_participants).

Lemma run_registry_ok h : registry_ok (run_env h).
Proof. intros a s c ps [= <-]. destruct three_participants_valid as (_ & Hw & Hs). done. Qed.

Definition zeros (n : nat) : string := String.string_of_list_ascii (replicate n "0"%char).
Definition run_message_id : string := "0x" +:+ zeros 64 +:+ "-0".
Definition run_message : Message :=
  mkMessage (mkCcId "eth" run_message_id) "0xsender" "polygon" "0xreceiver" (zeros 32).

Lemma run_message_wf : Message_wf run_message.
Proof. split; vm_compute; try done. Qed.

Definition run_instantiate : InstantiateMsg :=
  mkInstantiate "gov" "registry" "service" "0xgateway" two_thirds 10 1 "eth" "rewards"
    msg_id.HexTxHashAndEventIndex address.Eip55.

Definition next (st : State) (h : Z) (sender : Addr) (m : ExecuteMsg) : State :=
  match execute st (run_env h) sender m with Ok (st', _) => st' | _ => st end.

Definition run0 : State :=
  match instantiate run_instantiate with
  | Ok (st, _) => st
  | _ => mkState (permission_control.mkStorage None None) None None ∅ ∅ ∅ ∅
  end.
Definition run1 : State := next run0 1 "anyone" (VerifyMessages [run_message]).
Definition run2 : State := next run1 2 "a" (VoteMsg 1 [SucceededOnChain]).
Definition run3 : State := next run2 3 "b" (VoteMsg 1 [SucceededOnChain]).
Definition run4 : State := next run3 4 "c" (VoteMsg 1 [VoteNotFound]).
Definition run5 : State := next run4 11 "anyone" (EndPoll 1).
(** From [run2], the poll expires without a quorum and the message is requested again. *)
Definition run6 : State := next run2 20 "anyone" (VerifyMessages [run_message]).

Lemma vv_step_next st h sender m :
  msg_wf m → is_ok (execute st (run_env h) sender m) = true → step st (next st h sender m).
Proof.
  intros Hm Hok. unfold next. destruct (execute st (run_env h) sender m) as [[st' r]|e|] eqn:Hf;
    [|done..]. exists (run_env h), sender, m, r. split; [apply run_registry_ok|done].
Qed.

Lemma run0_reachable : reachable run0.
Proof.
  unfold run0. destruct (instantiate run_instantiate) as [[st r]|e|] eqn:Hf;
    [|vm_compute in Hf; discriminate Hf..].
  apply (reachable_init run_instantiate _ r); [apply two_thirds_wf|done].
Qed.

Lemma step1 : step run0 run1.
Proof.
  apply vv_step_next; [|vm_compute; reflexivity]. apply Forall_singleton, run_message_wf.
Qed.
Lemma step2 : step run1 run2.
Proof. apply vv_step_next; [done|vm_compute; reflexivity]. Qed.
Lemma step3 : step run2 run3.
Proof. apply vv_step_next; [done|vm_compute; reflexivity]. Qed.
Lemma step4 : step run3 run4.
Proof. apply vv_step_next; [done|vm_compute; reflexivity]. Qed.

Lemma vv_run2_reachable : reachable run2.
Proof. exact (reachable_step _ _ (reachable_step _ _ run0_reachable step1) step2). Qed.
Lemma vv_run3_reachable : reachable run3.
Proof. exact (reachable_step _ _ vv_run2_reachable step3). Qed.
Lemma run4_reachable : reachable run4.
Proof. exact (reachable_step _ _ vv_run3_reachable step4). Qed.

(** The poll before and after the vote that completes the quorum, and its message. *)
Definition poll_of (st : State) : Poll := default (PollMessages poll_abc) (POLLS st !! 1).
Definition poll_after : WeightedPoll :=
  match cast_vote (weighted_poll (poll_of run2)) 3 "b" [SucceededOnChain] with
  | Ok w => w | _ => poll_abc end.
Definition run_content : PollContent Message := mkContent run_message 1 0.

Lemma vv_execute_next st h sender m :
  is_ok (execute st (run_env h) sender m) = true →
  ∃ r, execute st (run_env h) sender m = Ok (next st h sender m, r).
Proof. unfold next. intros [[st' r] ->]%is_ok_true. eauto. Qed.

Lemma confirmed_message_is_final_witness :
  message_status run4 run_message 500 = Ok SucceededOnSourceChain.
Proof.
  refine (proj1 (confirmed_message_is_final run3 run4 run_message 3 500 SucceededOnSourceChain
    vv_run3_reachable (rtc_once _ _ step4) _ _)); vm_compute; reflexivity.
Defined.

Lemma message_status_exact_witness :
  ∃ w s status, POLLS run3 !! 1 = Some (PollMessages w) ∧
      snapshot_ok s ∧ message_status run3 run_message 3 = Ok status ∧
      (status = SucceededOnSourceChain ↔
       quorum s ≤ voted_weight w (poll_votes run3 1) 0 SucceededOnChain).
Proof.
  pose proof (message_status_exact run3 run_message 3 vv_run3_reachable run_message_wf) as Hm.
  assert (poll_messages run3 !! Message_hash keccak256 run_message = Some run_content) as Hc
    by (vm_compute; reflexivity).
  rewrite Hc in Hm. destruct Hm as (w & s & status & Hw & Hs & _ & Hst & Hv & _).
  { intros c' Hc'. rewrite Hc in Hc'. by injection Hc' as <-. }
  exists w, s, status. exact (conj Hw (conj Hs (conj Hst (Hv SucceededOnChain)))).
Defined.

Lemma vote_exact_witness :
  ∃ st' r, vote run2 (run_env 3) "b" 1 [SucceededOnChain] = Ok (st', r) ∧
    events r = [Voted 1 "b" [SucceededOnChain];
                MessageQuorumReached (Some run_message) SucceededOnSourceChain 1].
Proof.
  assert (POLLS run2 !! 1 = Some (poll_of run2)) as Hp by (vm_compute; reflexivity).
  destruct (vote_exact run2 (run_env 3) "b" 1 [SucceededOnChain] _ vv_run2_reachable Hp) as [Hv _].
  assert (cast_vote (weighted_poll (poll_of run2)) (height (run_env 3)) "b" [SucceededOnChain]
    = Ok poll_after) as Hc by (vm_compute; reflexivity).
  rewrite Hc in Hv. destruct Hv as (st' & r & Hv & _ & _ & Hev).
  exists st', r. split; [exact Hv|]. rewrite Hev. vm_compute. reflexivity.
Defined.

Lemma end_poll_rewards_once_witness :
  ∃ r rewarded, execute run4 (run_env 11) "anyone" (EndPoll 1) = Ok (run5, r) ∧
    messages r = (λ a, RecordParticipation "rewards" "eth" "1" a) <$> rewarded ∧
    "a" ∈ rewarded ∧
    end_poll run5 (run_env 30) 1 = Err (VoteError PollNotInProgress).
Proof.
  destruct (vv_execute_next run4 11 "anyone" (EndPoll 1)) as [r Hf]; [vm_compute; reflexivity|].
  destruct (end_poll_rewards_once run4 run5 run5 (run_env 11) (run_env 30) "anyone" 1 r
    run4_reachable (run_registry_ok 11) Hf (rtc_refl _ _))
    as (c & p & l & Hc & Hp & _ & _ & Hm & _ & Hin & Hend).
  assert (rewards_contract <$> CONFIG run4 = Some "rewards" ∧
    source_chain_name <$> CONFIG run4 = Some "eth") as [Hr1 Hr2] by (split; vm_compute; reflexivity).
  rewrite Hc in Hr1, Hr2. injection Hr1 as Hr1. injection Hr2 as Hr2. rewrite Hr1, Hr2 in Hm.
  assert (POLLS run4 !! 1 = Some (poll_of run4)) as Hp' by (vm_compute; reflexivity).
  rewrite Hp' in Hp. apply (inj Some) in Hp. rewrite <-Hp in Hin.
  exists r, l. split; [exact Hf|]. split; [exact Hm|]. split; [|exact Hend].
  apply Hin. exists [SucceededOnChain]. split; [vm_compute; reflexivity|].
  intros [|i] v Hv.
  - vm_compute in Hv. by destruct v.
  - vm_compute in Hv. destruct i; discriminate Hv.
Defined.

Lemma reverification_breaks_poll_query_witness : poll_response run6 21 1 = Panic.
Proof.
  destruct (vv_execute_next run2 20 "anyone" (VerifyMessages [run_message])) as [r Hf];
    [vm_compute; reflexivity|].
  refine (reverification_breaks_poll_query run2 run6 (run_env 20) "anyone" [run_message]
    run_message run_content FailedToVerify 21 r vv_run2_reachable (run_registry_ok 20) _ _ _ _ _ Hf);
    [apply Forall_singleton, run_message_wf|vm_compute; reflexivity|left|vm_compute; reflexivity..].
Defined.

Definition run_set : verifier_set.VerifierSet :=
  verifier_set.mkVerifierSet {[ "alice" := verifier_set.mkSigner "alice" 1 (key.PkEcdsa "a") ]} 1 7.
(** The same signer under another key. *)
Definition run_set' : verifier_set.VerifierSet :=
  verifier_set.mkVerifierSet {[ "x" := verifier_set.mkSigner "alice" 1 (key.PkEcdsa "a") ]} 1 7.

Definition run_blocked : State :=
  next run0 1 "anyone" (VerifyVerifierSet run_message_id run_set').

Lemma verifier_set_verification_blocked_witness :
  verify_verifier_set run0 (run_env 2) run_message_id run_set ≠ Panic ∧
  verify_verifier_set run_blocked (run_env 2) run_message_id run_set = Panic.
Proof.
  split; [vm_compute; discriminate|].
  destruct (vv_execute_next run0 1 "anyone" (VerifyVerifierSet run_message_id run_set')) as [r Hf];
    [vm_compute; reflexivity|].
  refine (proj2 (verifier_set_verification_blocked run0 run_blocked run_blocked (run_env 1)
    (run_env 2) "anyone" run_message_id run_message_id run_set run_set' 2 r _ _ Hf
    (rtc_refl _ _))); [vm_compute; reflexivity|].
  intros Heq. apply (f_equal (λ v, verifier_set.signers v !! "alice")) in Heq.
  vm_compute in Heq. discriminate Heq.
Defined.

End voting_verifier_run.
