(* ===== verification/EventVerifier.v ===== *)
(** * The event verifier contract

    [contracts/event-verifier/src] and the messages of [packages/event-verifier-api]: polls on
    arbitrary events of other chains ([contract/execute.rs]), their status ([contract/query.rs]),
    the storage ([state.rs]), the hash that identifies an event ([hash.rs]) and the entry points
    ([contract.rs]).

    The contract is built from the same parts as the voting verifier: weighted polls, an index of
    the items of a poll, a snapshot of the verifiers the service registry reports. What differs is
    proved here: an event is identified by its chain and its data alone, voting is restricted to
    the participants of the poll, and a vote insists that every item of the poll is still stored
    with it. *)

From Stdlib Require Import Ascii.
From S2P Require Import Prelude Std Voting MsgId RouterApi Multisig VotingVerifier.
Import snapshot voting.

Module event_verifier.
Import router_api.
Import voting_verifier(Env, height, active_verifiers, registry_ok, PollContent, mkContent,
  content, content_poll_id, index_in_poll, single, single_spec, index_le, vote_status,
  vote_status_inj, steps_tallies).

(** ** Events to verify ([event-verifier-api/src/msg.rs], [hash.rs]) *)

Record EventToVerify := mkEvent {
  event_source_chain : string;
  event_data : string
}.
#[global] Instance EventToVerify_eq_dec : EqDecision EventToVerify.
Proof. solve_decision. Defined.

(** The bytes that [hash_event_to_verify] feeds to the hasher. *)
Definition event_preimage (e : EventToVerify) : string :=
  event_source_chain e +:+ delimiter +:+ event_data e.

Definition hash_event_to_verify `{Crypto} (e : EventToVerify) : string :=
  keccak256 (event_preimage e).

Inductive ContractError :=
  | Overflow
  | NonEmptyError (e : nonempty.Error)
  | FailedToBuildSnapshot
  | EmptyEvents
  | DuplicateEvents
  | SourceChainMismatch (chain : string)
  | PollNotFound
  | VoteError (e : voting.Error)
  | StorageError.

(** ** Storage ([state.rs]) *)

Record Config := mkConfig {
  service_registry_contract : Addr;
  service_name : string;
  voting_threshold : threshold.MajorityThreshold;
  block_expiry : Z
}.

(** [EventInPoll]: the event, its poll and its index there, the fields of [PollContent]. *)
Notation EventInPoll := (PollContent EventToVerify).

Definition EventInPoll_new {E} (event : EventToVerify) (poll_id : Z) (index : nat)
    : result E EventInPoll :=
  if bool_decide (Z.of_nat index ≤ u32_max)
  then Ok (mkContent event poll_id (Z.of_nat index)) else Panic.

(** [VOTES] is keyed by poll and voter; [poll_events] by the hash of the event, with an index
    by poll and index in poll. *)
Record State := mkState {
  perm : permission_control.Storage;
  CONFIG : option Config;
  POLL_ID : option Z;
  POLLS : gmap Z WeightedPoll;
  VOTES : gmap Z (gmap string (list Vote));
  poll_events : gmap string EventInPoll
}.

Definition set_config (st : State) c : State :=
  mkState (perm st) c (POLL_ID st) (POLLS st) (VOTES st) (poll_events st).
Definition set_polls (st : State) id ps : State :=
  mkState (perm st) (CONFIG st) id ps (VOTES st) (poll_events st).
Definition set_votes (st : State) v : State :=
  mkState (perm st) (CONFIG st) (POLL_ID st) (POLLS st) v (poll_events st).
Definition set_poll_events (st : State) m : State :=
  mkState (perm st) (CONFIG st) (POLL_ID st) (POLLS st) (VOTES st) m.

Definition votes_of (st : State) (poll_id : Z) : gmap string (list Vote) :=
  default ∅ (VOTES st !! poll_id).

Definition load_event {E} (st : State) (poll_id index : Z) : result E (option EventToVerify) :=
  single (filter (λ p, content_poll_id p.2 = poll_id ∧ index_in_poll p.2 = index)
            (map_to_list (poll_events st))).

Definition load_events (st : State) (poll_id : Z) : list EventToVerify :=
  (λ p, content p.2) <$> merge_sort index_le
    (filter (λ p, content_poll_id p.2 = poll_id) (map_to_list (poll_events st))).

(** ** Events emitted by the contract ([events.rs]) *)

Inductive Event :=
  | Instantiated (service_name : string) (service_registry_contract : Addr)
      (voting_threshold : threshold.MajorityThreshold) (block_expiry : Z)
  | EventsPollStarted (events : list EventToVerify) (poll_id : Z) (source_chain : string)
      (expires_at : Z) (participants : list Addr)
  | Voted (poll_id : Z) (voter : Addr) (votes : list Vote)
  | QuorumReached (content : EventToVerify) (status : VerificationStatus) (poll_id : Z).

Notation EResponse := (Response False Event).

Section contract.
Context `{Crypto} `{Api}.

(** ** Status ([contract/query.rs]) *)

Definition voting_completed (poll : WeightedPoll) (cur_block_height : Z) : bool :=
  match status poll cur_block_height with
  | Expired | Finished => true
  | InProgress => false
  end.

Definition verification_status (st : State) (stored_poll_content : option EventInPoll)
    (c : EventToVerify) (cur_block_height : Z) : result ContractError VerificationStatus :=
  match stored_poll_content with
  | Some stored =>
      _ ← assert_true (bool_decide (content stored = c));
      poll ← expect (POLLS st !! content_poll_id stored);
      consensus ← expect_ok (consensus poll (Z.to_nat (index_in_poll stored)));
      Ok match consensus with
         | Some SucceededOnChain => SucceededOnSourceChain
         | Some FailedOnChain => FailedOnSourceChain
         | Some VoteNotFound => NotFoundOnSourceChain
         | None => if voting_completed poll cur_block_height then FailedToVerify
                   else StatusInProgress
         end
  | None => Ok StatusUnknown
  end.

Definition event_status (st : State) (event : EventToVerify) (cur_block_height : Z)
    : result ContractError VerificationStatus :=
  verification_status st (poll_events st !! hash_event_to_verify event) event cur_block_height.

Definition events_status (st : State) (events : list EventToVerify) (cur_block_height : Z)
    : result ContractError (list (EventToVerify * VerificationStatus)) :=
  try_map (λ event, (λ status, (event, status)) <$> event_status st event cur_block_height) events.

Definition poll_response (st : State) (current_block_height : Z) (poll_id : Z)
    : result ContractError (WeightedPoll * list EventToVerify * PollStatus) :=
  poll ← ok_or PollNotFound (POLLS st !! poll_id);
  let events := load_events st poll_id in
  _ ← assert_true (bool_decide (length (tallies poll) = length events));
  Ok (poll, events, status poll current_block_height).

Definition query_voting_threshold (st : State)
    : result ContractError threshold.MajorityThreshold :=
  config ← map_err (λ _, StorageError) (item_load (CONFIG st));
  Ok (voting_threshold config).

(** ** Handlers ([contract/execute.rs]) *)

Definition update_voting_threshold (st : State)
    (new_voting_threshold : threshold.MajorityThreshold)
    : result ContractError (State * EResponse) :=
  c ← map_err (λ _, StorageError) (item_load (CONFIG st));
  Ok (set_config st (Some (mkConfig (service_registry_contract c) (service_name c)
                             new_voting_threshold (block_expiry c))), Response_new).

Definition take_snapshot (st : State) (env : Env) (chain : string)
    : result ContractError Snapshot :=
  config ← expect (CONFIG st);
  participants ← ok_or FailedToBuildSnapshot
    (active_verifiers env (service_registry_contract config) (service_name config) chain);
  participants ← map_err NonEmptyError (nonempty.vec_try_from participants);
  snapshot.new (voting_threshold config) participants.

Definition create_events_poll (st : State) (expires_at : Z) (snapshot : Snapshot)
    (poll_size : nat) : result ContractError (State * Z) :=
  '(counter, id) ← map_err (λ _, StorageError) (counter.incr (POLL_ID st));
  let poll := voting.new id snapshot expires_at poll_size in
  Ok (set_polls st counter (<[id := poll]> (POLLS st)), id).

Definition calculate_expiration (block_height block_expiry : Z) : result ContractError Z :=
  ok_or Overflow (checked_add u64_max block_height block_expiry).

(** Which events need a (new) poll. *)
Definition needs_poll (s : VerificationStatus) : bool :=
  match s with
  | NotFoundOnSourceChain | FailedToVerify | StatusUnknown => true
  | StatusInProgress | SucceededOnSourceChain | FailedOnSourceChain => false
  end.

(** The loop that stores the events of a new poll. *)
Definition store_events (st : State) (poll_id : Z) (events : list EventToVerify)
    : result ContractError State :=
  try_fold (λ st '(idx, event),
    entry ← EventInPoll_new event poll_id idx;
    Ok (set_poll_events st (<[hash_event_to_verify event := entry]> (poll_events st))))
    st (imap pair events).

Definition verify_events (st : State) (env : Env) (events : list EventToVerify)
    : result ContractError (State * EResponse) :=
  if bool_decide (events = []) then Err EmptyEvents
  else
    config ← expect (CONFIG st);
    events ← try_map (λ event,
      (λ status, (status, event)) <$> event_status st event (height env)) events;
    match omap (λ '(status, event), if needs_poll status then Some event else None) events with
    | [] => Ok (st, Response_new)
    | (first :: _) as events_to_verify =>
        let source_chain := event_source_chain first in
        if forallb (λ e, bool_decide (event_source_chain e = source_chain)) events_to_verify then
          let event_hashes : gset string :=
            list_to_set (hash_event_to_verify <$> events_to_verify) in
          if bool_decide (size event_hashes ≠ length events_to_verify) then Err DuplicateEvents
          else
            snapshot ← take_snapshot st env source_chain;
            let participants := participants_list snapshot in
            expires_at ← calculate_expiration (height env) (block_expiry config);
            '(st, id) ← create_events_poll st expires_at snapshot (length events_to_verify);
            st ← store_events st id events_to_verify;
            Ok (st, add_event (EventsPollStarted events_to_verify id source_chain expires_at
                                 participants) Response_new)
        else Err (SourceChainMismatch source_chain)
    end.

Definition poll_results (poll : WeightedPoll) : result ContractError (list (option Vote)) :=
  results poll.

Definition make_quorum_event (st : State) (vote : option Vote) (index_in_poll poll_id : Z)
    : result ContractError (option Event) :=
  let status := (λ vote, match vote with
                         | SucceededOnChain => SucceededOnSourceChain
                         | FailedOnChain => FailedOnSourceChain
                         | VoteNotFound => NotFoundOnSourceChain
                         end) <$> vote in
  event ← load_event st poll_id index_in_poll;
  event ← expect event;
  Ok ((λ s, QuorumReached event s poll_id) <$> status).

Definition vote (st : State) (env : Env) (sender : Addr) (poll_id : Z) (votes : list Vote)
    : result ContractError (State * EResponse) :=
  poll ← ok_or PollNotFound (POLLS st !! poll_id);
  results_before_voting ← poll_results poll;
  poll ← map_err VoteError (cast_vote poll (height env) sender votes);
  let st := set_polls st (POLL_ID st) (<[poll_id := poll]> (POLLS st)) in
  results_after_voting ← poll_results poll;
  difference ← expect_ok (PollResults_difference results_after_voting results_before_voting);
  quorum_events ← try_map (λ '(index_in_poll, vote),
    idx ← expect (if bool_decide (Z.of_nat index_in_poll ≤ u32_max)
                  then Some (Z.of_nat index_in_poll) else None);
    make_quorum_event st vote idx poll_id) (imap pair difference);
  let st := set_votes st (<[poll_id := <[sender := votes]> (votes_of st poll_id)]> (VOTES st)) in
  Ok (st, add_events (omap id quorum_events)
            (add_event (Voted poll_id sender votes) Response_new)).

(** ** Entry points ([contract.rs], [msg.rs]) *)

Inductive ExecuteMsg :=
  | VoteMsg (poll_id : Z) (votes : list Vote)
  | VerifyEvents (events : list EventToVerify)
  | UpdateVotingThreshold (new_voting_threshold : threshold.MajorityThreshold).

Definition permissions (m : ExecuteMsg) : msgs_derive.MsgPermissions :=
  match m with
  | VoteMsg _ _ => msgs_derive.mkPerm ["participants"] [] []
  | VerifyEvents _ => msgs_derive.mkPerm [] [permission_control.Any] []
  | UpdateVotingThreshold _ => msgs_derive.mkPerm [] [permission_control.Governance] []
  end.

Inductive ExecuteError :=
  | Permission (e : permission_control.Error)
  | Contract (e : ContractError)
  | InvalidAddress (address : string).

Record InstantiateMsg := mkInstantiate {
  i_governance_address : string;
  i_service_registry_address : string;
  i_service_name : string;
  i_admin_address : string;
  i_voting_threshold : threshold.MajorityThreshold;
  i_block_expiry : Z
}.

Definition validate_cosmwasm_address (addr : string) : result ExecuteError Addr :=
  map_err (λ _, InvalidAddress addr) (addr_validate addr).

Definition instantiate (msg : InstantiateMsg) : result ExecuteError (State * EResponse) :=
  governance ← validate_cosmwasm_address (i_governance_address msg);
  let perm := permission_control.set_governance (permission_control.mkStorage None None)
                governance in
  registry ← validate_cosmwasm_address (i_service_registry_address msg);
  let config := mkConfig registry (i_service_name msg) (i_voting_threshold msg)
                  (i_block_expiry msg) in
  Ok (mkState perm (Some config) None ∅ ∅ ∅,
      add_event (Instantiated (service_name config) (service_registry_contract config)
                   (voting_threshold config) (block_expiry config)) Response_new).

(** A vote on a poll that does not exist is let through, to be refused by [vote]. *)
Definition match_participant (st : State) (sender_addr : Addr) (m : ExecuteMsg)
    : result permission_control.Error bool :=
  match m with
  | VoteMsg poll_id _ =>
      match POLLS st !! poll_id with
      | Some poll => Ok (bool_decide (is_Some (participation poll !! sender_addr)))
      | None => Ok true
      end
  | _ => Err permission_control.WrongVariant
  end.

Definition execute (st : State) (env : Env) (sender : Addr) (msg : ExecuteMsg)
    : result ExecuteError (State * EResponse) :=
  msg ← map_err Permission (msgs_derive.ensure_permissions permissions
          (λ _, match_participant st) (perm st) sender msg);
  map_err Contract
    match msg with
    | VerifyEvents events => verify_events st env events
    | VoteMsg poll_id votes => vote st env sender poll_id votes
    | UpdateVotingThreshold new_voting_threshold =>
        update_voting_threshold st new_voting_threshold
    end.

(** ** The stored events of a poll *)

Definition stored_events (m : gmap string EventInPoll) (poll_id : Z)
    (events : list EventToVerify) : gmap string EventInPoll :=
  foldl (λ m '(idx, event),
    <[hash_event_to_verify event := mkContent event poll_id (Z.of_nat idx)]> m)
    m (imap pair events).

Lemma store_events_Ok st poll_id events st' :
  store_events st poll_id events = Ok st' →
  st' = set_poll_events st (stored_events (poll_events st) poll_id events) ∧
  Z.of_nat (length events) ≤ u32_max + 1.
Proof.
  unfold store_events, stored_events. revert st'.
  induction events as [|e events IH] using rev_ind; intros st'; cbn; [intros [= <-]; by destruct st|].
  rewrite imap_app, foldl_app, try_fold_app, length_app. cbn. rewrite Nat.add_0_r. intros Hf.
  ok_inv. unfold EventInPoll_new in *. ok_case. breflect. ok_inv.
  apply IH in Hok as [-> _]. split; [done|lia].
Qed.

Lemma stored_events_snoc m poll_id events e :
  stored_events m poll_id (events ++ [e]) =
  <[hash_event_to_verify e := mkContent e poll_id (Z.of_nat (length events))]>
    (stored_events m poll_id events).
Proof. unfold stored_events. rewrite imap_app, foldl_app. cbn. by rewrite Nat.add_0_r. Qed.

(** An entry afterwards is the one of a stored event, or an older one. *)
Lemma stored_events_lookup m poll_id events h c :
  stored_events m poll_id events !! h = Some c →
  (∃ i e, events !! i = Some e ∧ hash_event_to_verify e = h ∧
          c = mkContent e poll_id (Z.of_nat i)) ∨
  (m !! h = Some c ∧ Forall (λ e, hash_event_to_verify e ≠ h) events).
Proof.
  induction events as [|e events IH] using rev_ind; [by right|].
  rewrite stored_events_snoc, lookup_insert_Some. intros [[<- <-]|[Hne Hl]].
  - left. exists (length events), e. split; [|done].
    rewrite lookup_app_r, Nat.sub_diag by lia. done.
  - destruct (IH Hl) as [(i & e' & Hi & Hh & ->)|[Hm Hall]].
    + left. exists i, e'. split; [|done]. by apply lookup_app_l_Some.
    + right. split; [done|]. apply Forall_app; split; [done|]. by constructor.
Qed.

Lemma stored_events_old m poll_id events h :
  Forall (λ e, hash_event_to_verify e ≠ h) events →
  stored_events m poll_id events !! h = m !! h.
Proof.
  induction events as [|e events IH] using rev_ind; [done|].
  rewrite stored_events_snoc, Forall_app, Forall_singleton. intros [Ha Hne].
  rewrite lookup_insert_ne by done. auto.
Qed.

(** Without a repeated hash every event of the batch is stored. *)
Lemma stored_events_new m poll_id events i e :
  NoDup (hash_event_to_verify <$> events) → events !! i = Some e →
  stored_events m poll_id events !! hash_event_to_verify e = Some (mkContent e poll_id (Z.of_nat i)).
Proof.
  induction events as [|x events IH] using rev_ind; [done|].
  rewrite fmap_app, NoDup_app, stored_events_snoc. intros (Hnd & Hdis & _) Hi.
  destruct (decide (i = length events)) as [->|Hne].
  - rewrite lookup_app_r, Nat.sub_diag in Hi by lia. injection Hi as ->. by rewrite lookup_insert_eq.
  - assert (events !! i = Some e) as Hi'.
    { pose proof (lookup_lt_Some _ _ _ Hi) as Hlt. rewrite length_app in Hlt. cbn in Hlt.
      by rewrite lookup_app_l in Hi by lia. }
    rewrite lookup_insert_ne; [by apply IH|]. intros Heq.
    apply (Hdis (hash_event_to_verify e)); [by eapply list_elem_of_fmap_2, list_elem_of_lookup_2|].
    rewrite <-Heq. set_solver.
Qed.

Lemma size_list_to_set_NoDup (l : list string) :
  size (list_to_set l : gset string) = length l ↔ NoDup l.
Proof.
  split; [|apply size_list_to_set].
  induction l as [|x l IH]; [constructor|]. cbn. destruct (decide (x ∈ l)) as [Hin|Hin].
  - intros Hs. exfalso. assert (size (list_to_set l : gset string) ≤ length l)%nat.
    { clear. induction l as [|y l IH]; cbn; [by rewrite size_empty|].
      rewrite size_union_alt, size_singleton.
      assert (size (list_to_set l ∖ {[y]} : gset string) ≤ size (list_to_set l : gset string))%nat
        by (apply subseteq_size; set_solver). lia. }
    rewrite subseteq_union_1_L in Hs by set_solver. lia.
  - rewrite size_union, size_singleton by set_solver. intros Hs. constructor; [done|]. apply IH. lia.
Qed.

(** ** What a successful call did *)

Lemma ev_take_snapshot_Ok st env chain s :
  take_snapshot st env chain = Ok s →
  ∃ c ps, CONFIG st = Some c ∧
    active_verifiers env (service_registry_contract c) (service_name c) chain = Some ps ∧
    ps ≠ [] ∧ @snapshot.new ContractError (voting_threshold c) ps = Ok s.
Proof.
  unfold take_snapshot, nonempty.vec_try_from. intros Hf. ok_inv. destruct v0; [done|]. ok_inv.
  eauto 10.
Qed.

(** The events of a batch that a poll is started for. *)
Definition to_verify (st : State) (env : Env) (events todo : list EventToVerify) : Prop :=
  ∃ l, Forall2 (λ e p, p.2 = e ∧ event_status st e (height env) = Ok p.1) events l ∧
       todo = omap (λ '(status, event), if needs_poll status then Some event else None) l.

Lemma ev_to_verify_elem st env events todo e :
  to_verify st env events todo →
  e ∈ todo ↔ e ∈ events ∧ ∃ s, event_status st e (height env) = Ok s ∧ needs_poll s = true.
Proof.
  intros (l & Hl & ->). rewrite list_elem_of_omap. split.
  - intros ([s e'] & Hin & Hs). destruct (needs_poll s) eqn:Hn; simplify_eq.
    apply list_elem_of_lookup in Hin as [i Hi].
    destruct (Forall2_lookup_r _ _ _ _ _ Hl Hi) as (e2 & He2 & Heq & Hst). cbn in *. subst.
    split; [by eapply list_elem_of_lookup_2|eauto].
  - intros [Hin (s & Hs & Hn)]. apply list_elem_of_lookup in Hin as [i Hi].
    destruct (Forall2_lookup_l _ _ _ _ _ Hl Hi) as ([s' e'] & He2 & Heq & Hst). cbn in *.
    assert (s' = s) as -> by congruence. subst e'.
    exists (s, e). split; [by eapply list_elem_of_lookup_2|]. by rewrite Hn.
Qed.

Lemma verify_events_Ok st env events st' r :
  verify_events st env events = Ok (st', r) →
  ∃ c todo, CONFIG st = Some c ∧ to_verify st env events todo ∧
    ((todo = [] ∧ st' = st ∧ r = Response_new) ∨
     ∃ chain s expiry id, todo ≠ [] ∧ Forall (λ e, event_source_chain e = chain) todo ∧
       NoDup (hash_event_to_verify <$> todo) ∧ take_snapshot st env chain = Ok s ∧
       expiry = height env + block_expiry c ∧ expiry ≤ u64_max ∧
       id = counter.cur (POLL_ID st) + 1 ∧ Z.of_nat (length todo) ≤ u32_max + 1 ∧
       st' = mkState (perm st) (CONFIG st) (Some id)
         (<[id := voting.new id s expiry (length todo)]> (POLLS st)) (VOTES st)
         (stored_events (poll_events st) id todo) ∧
       r = add_event (EventsPollStarted todo id chain expiry (participants_list s)) Response_new).
Proof.
  unfold verify_events. intros Hf. ok_case. apply bind_Ok in Hf as (c & Hc & Hf).
  apply bind_Ok in Hf as (l & Hl & Hf). apply try_map_Ok in Hl.
  exists c, (omap (λ '(status, event), if needs_poll status then Some event else None) l).
  assert (CONFIG st = Some c) as HC by (destruct (CONFIG st); by simplify_eq/=).
  split; [done|]. split.
  { exists l. split; [|done]. eapply Forall2_impl; [exact Hl|]. intros e [s e'] He.
    apply fmap_Ok in He as (s' & Hs' & [= -> ->]). done. }
  destruct (omap _ l) as [|first rest] eqn:Htodo; [ok_inv; simplify_eq; by left|right].
  set (todo := first :: rest) in *. match type of Hf with (if ?b then _ else _) = _ => destruct b eqn:Hsame; [|done] end.
  match type of Hf with (if bool_decide ?P then _ else _) = _ =>
    destruct (bool_decide_reflect P) as [|Hdup%dec_stable]; [done|] end.
  rewrite <-(length_fmap hash_event_to_verify todo) in Hdup. apply size_list_to_set_NoDup in Hdup.
  apply bind_Ok in Hf as (s & Hs & Hf). apply bind_Ok in Hf as (expiry & He & Hf).
  apply bind_Ok in Hf as ([st1 id] & Hp & Hf). apply bind_Ok in Hf as (st2 & Hst & Hf).
  injection Hf as <- <-.
  unfold calculate_expiration in He. ok_inv. checked. destruct He as [-> Hexp].
  unfold create_events_poll in Hp. ok_inv. destruct v as [cnt id']. ok_inv. simplify_eq.
  apply counter.incr_Ok in Hok as (-> & -> & _).
  apply store_events_Ok in Hst as [-> Hsize].
  exists (event_source_chain first), s, (height env + block_expiry c), (counter.cur (POLL_ID st) + 1).
  split_and!; try done. apply Forall_forall. intros e Hin. apply list_elem_of_In in Hin.
  rewrite forallb_forall in Hsame. apply Hsame in Hin. by breflect.
Qed.

Lemma ev_vote_Ok st env sender poll_id votes st' r :
  vote st env sender poll_id votes = Ok (st', r) →
  ∃ p w, POLLS st !! poll_id = Some p ∧ cast_vote p (height env) sender votes = Ok w ∧
    st' = mkState (perm st) (CONFIG st) (POLL_ID st) (<[poll_id := w]> (POLLS st))
      (<[poll_id := <[sender := votes]> (votes_of st poll_id)]> (VOTES st)) (poll_events st).
Proof.
  unfold vote. intros Hf. ok_inv. simplify_eq. eexists v, _. by split_and!.
Qed.

(** ** The invariant *)

(** The values of the message type: chain names are parsed ones. *)
Definition event_wf (e : EventToVerify) : Prop := chain.wf (event_source_chain e).
Definition msg_wf (m : ExecuteMsg) : Prop :=
  match m with
  | VerifyEvents events => Forall event_wf events
  | UpdateVotingThreshold t => threshold.majority_wf t
  | VoteMsg _ _ => True
  end.

Record inv (st : State) : Prop := {
  inv_config : ∃ c, CONFIG st = Some c ∧ threshold.majority_wf (voting_threshold c);
  inv_ids id : is_Some (POLLS st !! id) ∨ is_Some (VOTES st !! id) →
    1 ≤ id ≤ counter.cur (POLL_ID st);
  inv_count : 0 ≤ counter.cur (POLL_ID st);
  inv_poll id p : POLLS st !! id = Some p →
    finished p = false ∧ Z.of_nat (length (tallies p)) ≤ u32_max + 1 ∧
    ∃ s, snapshot_ok s ∧ poll_reachable s p (votes_of st id);
  inv_event h c : poll_events st !! h = Some c →
    hash_event_to_verify (content c) = h ∧ event_wf (content c) ∧
    ∃ p, POLLS st !! content_poll_id c = Some p ∧
         0 ≤ index_in_poll c < Z.of_nat (length (tallies p));
  inv_event_unique h h' c c' :
    poll_events st !! h = Some c → poll_events st !! h' = Some c' →
    content_poll_id c = content_poll_id c' → index_in_poll c = index_in_poll c' → h = h'
}.

Lemma ev_instantiate_inv m st r :
  threshold.majority_wf (i_voting_threshold m) → instantiate m = Ok (st, r) → inv st.
Proof.
  unfold instantiate. intros Hm Hf. ok_inv. simplify_eq.
  split; cbn; [by eexists|intros id [[? []%lookup_empty_Some]|[? []%lookup_empty_Some]]|
    done|intros ??; by rewrite lookup_empty..].
Qed.

Lemma ev_fresh_poll st : inv st →
  POLLS st !! (counter.cur (POLL_ID st) + 1) = None ∧
  votes_of st (counter.cur (POLL_ID st) + 1) = ∅.
Proof.
  intros Hi. unfold votes_of. split.
  - apply eq_None_not_Some. intros Hs. pose proof (inv_ids _ Hi _ (or_introl Hs)). lia.
  - destruct (VOTES st !! _) eqn:Hv; [|done].
    pose proof (inv_ids _ Hi _ (or_intror (mk_is_Some _ _ Hv))). lia.
Qed.

Lemma ev_snapshot_taken st env chain s :
  inv st → registry_ok env → take_snapshot st env chain = Ok s → snapshot_ok s.
Proof.
  intros Hi Hreg (c & ps & Hc & Hps & Hne & Hs)%ev_take_snapshot_Ok.
  destruct (inv_config _ Hi) as (c' & Hc' & Ht). assert (c' = c) as -> by congruence.
  destruct (snapshot_new_Ok (voting_threshold c) ps Ht) as (s' & Hs' & Hok & _).
  { destruct (Hreg _ _ _ _ Hps). done. }
  rewrite Hs' in Hs. ok_inv. done.
Qed.

Lemma ev_new_poll_inv st s expiry todo id :
  inv st → snapshot_ok s → Forall event_wf todo → Z.of_nat (length todo) ≤ u32_max + 1 →
  id = counter.cur (POLL_ID st) + 1 →
  inv (mkState (perm st) (CONFIG st) (Some id)
         (<[id := voting.new id s expiry (length todo)]> (POLLS st)) (VOTES st)
         (stored_events (poll_events st) id todo)).
Proof.
  intros Hi Hs Hwf Hsize Hid. destruct (ev_fresh_poll st Hi) as [Hfresh Hnone].
  rewrite <-Hid in Hfresh, Hnone. pose proof (inv_count _ Hi) as Hcount.
  assert (∀ h c, poll_events st !! h = Some c → content_poll_id c ≠ id) as Hold.
  { intros h c Hc. destruct (inv_event _ Hi _ _ Hc) as (_ & _ & w & Hw & _). congruence. }
  assert (∀ h c, stored_events (poll_events st) id todo !! h = Some c →
    (∃ i e, todo !! i = Some e ∧ hash_event_to_verify e = h ∧ c = mkContent e id (Z.of_nat i)) ∨
    poll_events st !! h = Some c) as Hcases.
  { intros h c [?|[? _]]%stored_events_lookup; auto. }
  split; cbn.
  - apply (inv_config _ Hi).
  - intros id'. rewrite lookup_insert_is_Some'.
    intros [[<-|Hp]|Hv]; [lia|pose proof (inv_ids _ Hi id' (or_introl Hp)); lia|].
    pose proof (inv_ids _ Hi id' (or_intror Hv)); lia.
  - lia.
  - intros id' p'. rewrite lookup_insert_Some. intros [[<- <-]|[_ Hl]]; [|by apply (inv_poll _ Hi)].
    cbn. rewrite length_replicate. split; [done|]. split; [done|]. exists s. split; [done|].
    unfold votes_of in *; cbn. rewrite Hnone. apply reach_new.
  - intros h c [(i & m & Hm & <- & ->)|Hc]%Hcases; cbn.
    + split; [done|]. split; [by eapply (proj1 (Forall_lookup _ _) Hwf)|].
      eexists. rewrite lookup_insert_eq. split; [done|]. cbn. rewrite length_replicate.
      apply lookup_lt_Some in Hm. lia.
    + destruct (inv_event _ Hi _ _ Hc) as (Hh & Hw & w & Hp & Hb). split_and!; try done.
      exists w. rewrite lookup_insert_ne by (apply not_eq_sym; eauto). done.
  - intros h h' c c' [(i & m & Hm & <- & ->)|Hc]%Hcases [(j & m' & Hm' & <- & ->)|Hc']%Hcases; cbn.
    + intros _ Heq. assert (i = j) as -> by lia. by simplify_eq.
    + intros Heq. by destruct (Hold _ _ Hc').
    + intros Heq. by destruct (Hold _ _ Hc).
    + by apply (inv_event_unique _ Hi).
Qed.

Lemma ev_vote_inv st env sender id votes p w :
  inv st → POLLS st !! id = Some p → cast_vote p (height env) sender votes = Ok w →
  inv (mkState (perm st) (CONFIG st) (POLL_ID st) (<[id := w]> (POLLS st))
         (<[id := <[sender := votes]> (votes_of st id)]> (VOTES st)) (poll_events st)).
Proof.
  intros Hi Hp Hc. destruct (steps_tallies _ _ (step_cast _ _ _ _ _ Hc)) as [Hlen _].
  pose proof (inv_ids _ Hi id (or_introl (mk_is_Some _ _ Hp))) as Hid.
  destruct (inv_poll _ Hi _ _ Hp) as (Hfin & Hsize & s & Hs & Hr).
  split; cbn.
  - apply (inv_config _ Hi).
  - intros id'. rewrite !lookup_insert_is_Some'.
    intros [[<-|?]|[<-|?]]; [done|apply (inv_ids _ Hi); auto|done|apply (inv_ids _ Hi); auto].
  - apply (inv_count _ Hi).
  - intros id' p'. rewrite lookup_insert_Some. unfold votes_of; cbn. intros [[<- <-]|[Hne Hl]].
    + split; [by apply cast_vote_Ok in Hc as (pt & _ & _ & _ & _ & ->)|]. split; [lia|].
      exists s. split; [done|]. rewrite lookup_insert_eq. by eapply reach_cast.
    + rewrite lookup_insert_ne by done. by apply (inv_poll _ Hi).
  - intros h c Hh. destruct (inv_event _ Hi _ _ Hh) as (Heq & Hw & p' & Hp' & Hb).
    split_and!; try done. destruct (decide (content_poll_id c = id)) as [Hc'|Hne].
    + exists w. rewrite Hc', lookup_insert_eq. split; [done|]. assert (p' = p) as -> by congruence. lia.
    + exists p'. by rewrite lookup_insert_ne.
  - apply (inv_event_unique _ Hi).
Qed.

Lemma ev_execute_handler st env sender m st' r :
  execute st env sender m = Ok (st', r) →
  match m with
  | VerifyEvents events => verify_events st env events
  | VoteMsg poll_id votes => vote st env sender poll_id votes
  | UpdateVotingThreshold t => update_voting_threshold st t
  end = Ok (st', r).
Proof.
  unfold execute. intros Hf. ok_inv. apply msgs_derive.ensure_permissions_same in Hok. by subst.
Qed.

Lemma ev_execute_inv st env sender m st' r :
  inv st → registry_ok env → msg_wf m → execute st env sender m = Ok (st', r) → inv st'.
Proof.
  intros Hi Hreg Hm Hf%ev_execute_handler. destruct m as [id votes|events|t].
  - apply ev_vote_Ok in Hf as (p & w & Hp & Hw & ->). by eapply ev_vote_inv.
  - apply verify_events_Ok in Hf as (c & todo & Hc & Htodo &
      [(_ & -> & _)|(chain & s & e & id & _ & _ & _ & Hs & _ & _ & -> & Hsize & -> & _)]); [done|].
    apply ev_new_poll_inv; [done|by eapply ev_snapshot_taken| |done..].
    apply Forall_forall. intros x [Hin _]%(ev_to_verify_elem st env events); [|done].
    by eapply Forall_forall.
  - unfold update_voting_threshold in Hf. ok_inv. simplify_eq.
    destruct Hi. split; try done. cbn. eauto.
Qed.

(** ** The storages the contract can reach *)

Definition step (st st' : State) : Prop :=
  ∃ env sender m r, registry_ok env ∧ msg_wf m ∧ execute st env sender m = Ok (st', r).

Inductive reachable : State → Prop :=
  | reachable_init m st r :
      threshold.majority_wf (i_voting_threshold m) → instantiate m = Ok (st, r) → reachable st
  | reachable_step st st' : reachable st → step st st' → reachable st'.

Lemma ev_reachable_inv st : reachable st → inv st.
Proof.
  induction 1 as [m st r Hm Hf|st st' _ IH (env & sender & m & r & Hreg & Hm & Hf)].
  - by eapply ev_instantiate_inv.
  - by eapply ev_execute_inv.
Qed.

(** A call leaves the polls that exist alone, or adds a vote to one of them. *)
Lemma ev_execute_polls st env sender m st' r id p :
  inv st → execute st env sender m = Ok (st', r) → POLLS st !! id = Some p →
  ∃ w, POLLS st' !! id = Some w ∧ expires_at w = expires_at p ∧ (w = p ∨ poll_step p w).
Proof.
  intros Hi Hf%ev_execute_handler Hp. destruct (ev_fresh_poll st Hi) as [Hfresh _].
  destruct m as [id' votes|events|t].
  - apply ev_vote_Ok in Hf as (p' & w & Hp' & Hw & ->). cbn.
    destruct (decide (id' = id)) as [->|Hne]; simplify_eq.
    + exists w. rewrite lookup_insert_eq. split; [done|]. split; [|right; by eapply step_cast].
      by apply cast_vote_Ok in Hw as (pt & _ & _ & _ & _ & ->).
    + exists p. rewrite lookup_insert_ne by done. auto.
  - exists p. split; [|auto]. apply verify_events_Ok in Hf as (c & todo & _ & _ &
      [(_ & -> & _)|(? & s & e & id' & _ & _ & _ & _ & _ & _ & -> & _ & -> & _)]); [done|].
    cbn. by rewrite lookup_insert_ne by congruence.
  - unfold update_voting_threshold in Hf. ok_inv. simplify_eq. eauto.
Qed.

(** The status of a stored event is the consensus of its poll, if there is one. *)
Lemma ev_verification_status_Ok st (c : EventInPoll) x h s :
  verification_status st (Some c) x h = Ok s →
  content c = x ∧ ∃ p o, POLLS st !! content_poll_id c = Some p ∧
    consensus p (Z.to_nat (index_in_poll c)) = Ok o ∧
    s = match o with
        | Some v => vote_status v
        | None => if voting_completed p h then FailedToVerify else StatusInProgress
        end.
Proof.
  unfold verification_status. intros Hf. ok_inv. breflect. split; [done|].
  eexists _, _. by split_and!.
Qed.

Lemma ev_status_run st (c : EventInPoll) h p v :
  POLLS st !! content_poll_id c = Some p →
  consensus p (Z.to_nat (index_in_poll c)) = Ok (Some v) →
  verification_status st (Some c) (content c) h = Ok (vote_status v).
Proof.
  intros Hp Hv. unfold verification_status. rewrite bool_decide_eq_true_2 by done. cbn.
  rewrite Hp. cbn. rewrite Hv. by destruct v.
Qed.

Lemma ev_confirmed_consensus st (c : EventInPoll) x h s :
  verification_status st (Some c) x h = Ok s → is_confirmed s = true →
  content c = x ∧ ∃ p v, POLLS st !! content_poll_id c = Some p ∧
    consensus p (Z.to_nat (index_in_poll c)) = Ok (Some v) ∧ s = vote_status v.
Proof.
  intros (Hx & p & o & Hp & Ho & ->)%ev_verification_status_Ok Hs. split; [done|].
  destruct o as [v|]; [eauto|]. by destruct (voting_completed p h).
Qed.

(** A confirmed event stays with its poll, and so does its status. *)
Lemma confirmed_event_step st env sender m st' r x h h' s :
  inv st → execute st env sender m = Ok (st', r) →
  event_status st x h = Ok s → is_confirmed s = true →
  event_status st' x h' = Ok s ∧
  poll_events st' !! hash_event_to_verify x = poll_events st !! hash_event_to_verify x.
Proof.
  intros Hi Hex Hst Hs. pose proof (ev_execute_handler _ _ _ _ _ _ Hex) as Hf.
  unfold event_status in *. destruct (poll_events st !! hash_event_to_verify x) as [c|] eqn:Hc;
    [|cbn in Hst; ok_inv; by subst].
  destruct (ev_confirmed_consensus _ _ _ _ _ Hst Hs) as (Hx & p & v & Hp & Hv & ->).
  assert (poll_events st' !! hash_event_to_verify x = Some c) as Hc'.
  { destruct m as [id votes|events|t].
    - by apply ev_vote_Ok in Hf as (? & ? & _ & _ & ->).
    - apply verify_events_Ok in Hf as (c' & todo & _ & Htodo &
        [(_ & -> & _)|(? & ? & ? & ? & _ & _ & _ & _ & _ & _ & -> & _ & -> & _)]); [done|]. cbn.
      rewrite stored_events_old; [done|]. apply Forall_forall. intros y Hin Heq.
      apply (ev_to_verify_elem st env events todo y Htodo) in Hin as (_ & s' & Hs' & Hn).
      unfold event_status in Hs'. rewrite Heq, Hc in Hs'.
      apply ev_verification_status_Ok in Hs' as (_ & p' & o & Hp' & Ho & ->).
      assert (p' = p) as -> by congruence. assert (o = Some v) as -> by congruence. by destruct v.
    - unfold update_voting_threshold in Hf. ok_inv. by simplify_eq. }
  split; [|done]. rewrite Hc'.
  destruct (ev_execute_polls _ _ _ _ _ _ _ _ Hi Hex Hp) as (w & Hw & _ & Hstep).
  subst x. apply (ev_status_run _ _ _ w); [done|]. destruct Hstep as [->|Hstep]; [done|].
  destruct (inv_poll _ Hi _ _ Hp) as (_ & _ & s & Hok & Hr). by eapply poll_step_consensus.
Qed.

(** Once an event has been confirmed, as succeeded or as failed on its source chain, its status
    is the same at every height in every later storage of the contract: no vote, no new request
    and no change of the threshold revises it. *)
Theorem confirmed_event_is_final (st st' : State) (e : EventToVerify) (h h' : Z)
    (s : VerificationStatus) :
  reachable st → rtc step st st' →
  event_status st e h = Ok s → is_confirmed s = true → event_status st' e h' = Ok s.
Proof.
  intros Hr Hsteps. revert h Hr. induction Hsteps as [st|st st1 st' Hstep _ IH]; intros h Hr Hst Hs.
  - unfold event_status in *. destruct (poll_events st !! _) as [c|].
    + destruct (ev_confirmed_consensus _ _ _ _ _ Hst Hs) as (<- & p & v & Hp & Hv & ->).
      by apply (ev_status_run _ _ _ p).
    + cbn in Hst. ok_inv. by subst.
  - assert (reachable st1) as Hr1 by by eapply reachable_step.
    destruct Hstep as (env & sender & msg & r & Hreg & Hm & Hf).
    apply (IH h); [done| |done].
    exact (proj1 (confirmed_event_step _ _ _ _ _ _ _ _ _ _ (ev_reachable_inv _ Hr) Hf Hst Hs)).
Qed.

(** ** The meaning of a status *)

Lemma event_preimage_inj e1 e2 :
  event_wf e1 → event_wf e2 → event_preimage e1 = event_preimage e2 → e1 = e2.
Proof.
  intros [H1%chain.raw_wf_no_delimiter _] [H2%chain.raw_wf_no_delimiter _] Heq.
  apply (f_equal text_of) in Heq. unfold event_preimage in Heq. rewrite !chain.text_of_app in Heq.
  change (text_of delimiter) with [FIELD_DELIMITER] in Heq. cbn [app] in Heq.
  apply delimited_inj_l in Heq as [Hc Hd]; [|done..].
  destruct e1, e2. apply chain.text_of_inj in Hc, Hd. cbn in *. by subst.
Qed.

(** The stored events do not collide with [e]. *)
Definition no_collision (st : State) (e : EventToVerify) : Prop :=
  ∀ c, poll_events st !! hash_event_to_verify e = Some c →
    event_preimage (content c) = event_preimage e.

(** What the status of an event means. In every reachable storage, for an event whose hash does
    not collide with a stored one, the query does not panic. An event that was never submitted
    is unknown. Otherwise it is stored with an item of a poll over a majority snapshot; its
    status is the one of the vote [v] exactly when the participants whose recorded vote on that
    item is [v] hold at least the quorum, and without a quorum it is in progress until the poll
    expires and failed to verify from then on. *)
Theorem event_status_exact (st : State) (e : EventToVerify) (h : Z) :
  reachable st → event_wf e → no_collision st e →
  match poll_events st !! hash_event_to_verify e with
  | None => event_status st e h = Ok StatusUnknown
  | Some c =>
      let id := content_poll_id c in let i := Z.to_nat (index_in_poll c) in
      ∃ w s status, POLLS st !! id = Some w ∧ snapshot_ok s ∧
        poll_reachable s w (votes_of st id) ∧ event_status st e h = Ok status ∧
        (∀ v, status = vote_status v ↔ quorum s ≤ voted_weight w (votes_of st id) i v) ∧
        ((∀ v, voted_weight w (votes_of st id) i v < quorum s) →
           status = if bool_decide (h < expires_at w) then StatusInProgress else FailedToVerify)
  end.
Proof.
  intros Hi%ev_reachable_inv He Hno. destruct (poll_events st !! _) as [c|] eqn:Hc;
    [|unfold event_status; by rewrite Hc]. cbn zeta.
  destruct (inv_event _ Hi _ _ Hc) as (_ & Hw & w & Hp & Hb).
  assert (content c = e) as Hx by (apply event_preimage_inj; auto).
  destruct (inv_poll _ Hi _ _ Hp) as (Hfin & _ & s & Hs & Hr).
  destruct (poll_consensus_spec _ _ _ (Z.to_nat (index_in_poll c)) Hs Hr) as (o & Ho & Hv); [lia|].
  exists w, s. unfold event_status. rewrite Hc. cbn. rewrite bool_decide_eq_true_2 by done.
  cbn. rewrite Hp. cbn. rewrite Ho. cbn. eexists. do 4 (split; [done|]).
  unfold voting_completed, status. rewrite Hfin. destruct o as [u|]; cbn.
  - split; [intros v; rewrite <-Hv; by destruct u, v|].
    intros Hlt. specialize (Hlt u). assert (quorum s ≤ voted_weight w (votes_of st (content_poll_id c))
      (Z.to_nat (index_in_poll c)) u) by by apply Hv. lia.
  - assert (∀ v, voted_weight w (votes_of st (content_poll_id c)) (Z.to_nat (index_in_poll c)) v
      < quorum s) as Hlt by (intros v; apply Z.nle_gt; rewrite <-Hv; done).
    split; [intros v; specialize (Hlt v); case_bool_decide; split; [by destruct v|lia|by destruct v|lia]|].
    intros _. repeat case_bool_decide; done || lia.
Qed.

(** ** Votes *)

(** The item [i] of poll [id] is still stored with it. *)
Definition item_stored (st : State) (id : Z) (i : nat) : Prop :=
  ∃ h e, poll_events st !! h = Some (mkContent e id (Z.of_nat i)).

Lemma load_event_spec {E} st id i :
  inv st → ∃ o, @load_event E st id i = Ok o ∧
    ∀ e, o = Some e ↔ ∃ h, poll_events st !! h = Some (mkContent e id i).
Proof.
  intros Hi. unfold load_event.
  edestruct (@single_spec E EventToVerify) as (o & Ho & Hspec); [| |exists o; split; [exact Ho|]].
  - apply NoDup_filter, NoDup_map_to_list.
  - intros [h c] [h' c']. rewrite !list_elem_of_filter, !elem_of_map_to_list. cbn.
    intros [[<- <-] Hc] [[Hid Hix] Hc'].
    assert (h = h') as -> by by apply (inv_event_unique _ Hi _ _ _ _ Hc Hc'). by simplify_eq.
  - intros e. rewrite Hspec. setoid_rewrite list_elem_of_filter. setoid_rewrite elem_of_map_to_list.
    cbn. split; [intros (h & [e' id' i'] & [[<- <-] Hc] & <-); eauto|].
    intros [h Hh]. by exists h, (mkContent e id i).
Qed.

(** The event of item [i], where it is stored. *)
Definition event_of (st : State) (id : Z) (i : nat) : EventToVerify :=
  match @load_event ContractError st id (Z.of_nat i) with
  | Ok (Some e) => e
  | _ => mkEvent EmptyString EmptyString
  end.

(** The events for the items on which the poll reached its quorum between [w] and [w']. *)
Definition new_quorums (st : State) (id : Z) (w w' : WeightedPoll) : list Event :=
  omap (λ i, match consensus w i, consensus w' i with
             | Ok None, Ok (Some v) => Some (QuorumReached (event_of st id i) (vote_status v) id)
             | _, _ => None
             end) (seq 0 (length (tallies w))).

Lemma ev_make_quorum_event st o i id :
  inv st →
  (item_stored st id i → make_quorum_event st o (Z.of_nat i) id =
     Ok ((λ v, QuorumReached (event_of st id i) (vote_status v) id) <$> o)) ∧
  (¬ item_stored st id i → make_quorum_event st o (Z.of_nat i) id = Panic).
Proof.
  intros Hi. unfold make_quorum_event, event_of.
  destruct (@load_event_spec ContractError st id (Z.of_nat i) Hi) as (x & Hx & Hspec). rewrite Hx.
  split.
  - intros (h & e & He). assert (x = Some e) as -> by (apply Hspec; eauto). cbn. by destruct o as [[]|].
  - intros Hno. destruct x as [e|]; [|done]. exfalso. apply Hno.
    destruct (proj1 (Hspec e) eq_refl) as [h Hh]. by exists h, e.
Qed.

Lemma try_map_Panic {E A B} (f : A → result E B) l i x :
  l !! i = Some x → f x = Panic →
  (∀ j y, l !! j = Some y → f y = Panic ∨ ∃ z, f y = Ok z) → try_map f l = Panic.
Proof.
  revert i. induction l as [|y l IH]; intros i Hi Hx Hall; [done|]. cbn.
  destruct (Hall 0%nat y eq_refl) as [->|[z Hz]]; [done|]. rewrite Hz. cbn.
  destruct i as [|i]; cbn in Hi; simplify_eq; [congruence|].
  rewrite (IH i); [done..|]. intros j y' Hy'. by apply (Hall (S j)).
Qed.

(** The results before and after a vote, and the items whose quorum is new. *)
Lemma ev_vote_results st id p env sender votes w :
  inv st → POLLS st !! id = Some p → cast_vote p (height env) sender votes = Ok w →
  ∃ rs rs' diff, poll_results p = Ok rs ∧ poll_results w = Ok rs' ∧
    PollResults_difference rs' rs = Ok diff ∧ length diff = length (tallies p) ∧
    Z.of_nat (length diff) ≤ u32_max + 1 ∧
    ∀ i o, diff !! i = Some o →
      o = match consensus p i, consensus w i with Ok None, Ok (Some v) => Some v | _, _ => None end.
Proof.
  intros Hi Hp Hc. destruct (inv_poll _ Hi _ _ Hp) as (_ & Hsize & s & Hs & Hr).
  pose proof (reach_cast _ _ _ _ _ _ _ Hr Hc) as Hr'. pose proof Hs as (_ & _ & Hmaj).
  destruct (poll_reachable_inv _ _ _ Hs Hr) as (Hinv & Hq & Hw).
  destruct (poll_reachable_inv _ _ _ Hs Hr') as (Hinv' & Hq' & Hw').
  destruct (results_spec _ _ Hinv ltac:(lia)) as (rs & Hrs & Hlen & Hcons).
  destruct (results_spec _ _ Hinv' ltac:(lia)) as (rs' & Hrs' & Hlen' & Hcons').
  destruct (steps_tallies _ _ (step_cast _ _ _ _ _ Hc)) as [Hts _].
  unfold PollResults_difference. eexists rs, rs', _. split; [done|]. split; [done|].
  rewrite bool_decide_eq_false_2 by lia. split; [done|].
  rewrite length_fmap, length_zip_with. split; [lia|]. split; [lia|].
  intros i o. rewrite list_lookup_fmap, lookup_zip_with, Hcons, Hcons'.
  destruct (rs' !! i) as [o1|], (rs !! i) as [o2|]; cbn; try done. intros [= <-].
  case_bool_decide as Hnew; [destruct Hnew as [[v ->] ->]; done|].
  destruct o2; [done|]. destruct o1; [|done]. exfalso; eauto.
Qed.

Lemma ev_vote_run st env sender id votes p w :
  inv st → POLLS st !! id = Some p → cast_vote p (height env) sender votes = Ok w →
  ((∀ i, (i < length (tallies p))%nat → item_stored st id i) →
   ∃ r, vote st env sender id votes = Ok (mkState (perm st) (CONFIG st) (POLL_ID st)
          (<[id := w]> (POLLS st)) (<[id := <[sender := votes]> (votes_of st id)]> (VOTES st))
          (poll_events st), r) ∧
        messages r = [] ∧ events r = Voted id sender votes :: new_quorums st id p w) ∧
  (∀ i, (i < length (tallies p))%nat → ¬ item_stored st id i →
     vote st env sender id votes = Panic).
Proof.
  intros Hi Hp Hc. destruct (ev_vote_results _ _ _ _ _ _ _ Hi Hp Hc)
    as (rs & rs' & diff & Hrs & Hrs' & Hdiff & Hdl & Hsize & Hnew).
  unfold vote. rewrite Hp. cbn. rewrite Hrs. cbn. rewrite Hc. cbn. rewrite Hrs'. cbn. rewrite Hdiff. cbn.
  set (f := λ _, _ : result ContractError (option Event)).
  assert (∀ i o, diff !! i = Some o → f (i, o) = make_quorum_event st o (Z.of_nat i) id) as Hf.
  { intros i o Hd%lookup_lt_Some. unfold f. by rewrite bool_decide_eq_true_2 by lia. }
  split.
  - intros Hall.
    rewrite (proj2 (try_map_Ok f _ (imap (λ i o, (λ v, QuorumReached (event_of st id i)
      (vote_status v) id) <$> o) diff))).
    2:{ apply Forall2_same_length_lookup_2; [by rewrite !length_imap|].
        intros i x y. rewrite !list_lookup_imap. destruct (diff !! i) as [o|] eqn:Hd; [|done].
        cbn. intros [= <-] [= <-]. rewrite Hf by done. apply ev_make_quorum_event; [done|].
        apply Hall. apply lookup_lt_Some in Hd. lia. }
    cbn. eexists. split; [done|]. split; [done|]. cbn. f_equal.
    unfold new_quorums. rewrite <-Hdl. apply (voting_verifier.omap_id_imap _ _ _ 0). intros i o Hd.
    rewrite (Hnew i o Hd). cbn. by destruct (consensus p i) as [[]| |], (consensus w i) as [[]| |].
  - intros i Hlt Hno. rewrite <-Hdl in Hlt. apply lookup_lt_is_Some in Hlt as [o Ho].
    rewrite (try_map_Panic f (imap pair diff) i (i, o)); [done| | |].
    + by rewrite list_lookup_imap, Ho.
    + rewrite Hf by done. by apply ev_make_quorum_event.
    + intros j y. rewrite list_lookup_imap. destruct (diff !! j) as [o'|] eqn:Hd; [|done].
      cbn. intros [= <-]. rewrite Hf by done. unfold make_quorum_event.
      destruct (@load_event_spec ContractError st id (Z.of_nat j) Hi) as (x & -> & _). cbn.
      destruct x; cbn; eauto.
Qed.

Lemma ev_execute_vote st env sender id votes :
  (∀ p, POLLS st !! id = Some p → is_Some (participation p !! sender)) →
  execute st env sender (VoteMsg id votes) = map_err Contract (vote st env sender id votes).
Proof.
  intros Hp. unfold execute.
  rewrite (proj2 (msgs_derive.ensure_permissions_specific permissions _ _ _ (VoteMsg id votes)
    "participants" eq_refl eq_refl)); [done|]. cbn. destruct (POLLS st !! id) as [p|]; [|done]. by rewrite bool_decide_eq_true_2 by auto.
Qed.

(** Who can vote, and what a vote does, on every branch. In every reachable storage a vote on a
    poll that does not exist is refused as such, and one by anybody but a participant is refused
    by the permission check. A participant's vote fails with exactly the errors of the poll;
    otherwise it is accepted exactly when every item of the poll is still stored with it, and
    then the poll and the voter's record are all that changes, and the events announce, in the
    order of the items, each quorum this vote completed. *)
Theorem participant_vote_exact (st : State) (env : Env) (sender : Addr) (id : Z)
    (votes : list Vote) :
  reachable st →
  match POLLS st !! id with
  | None => execute st env sender (VoteMsg id votes) = Err (Contract PollNotFound)
  | Some p =>
      (participation p !! sender = None → execute st env sender (VoteMsg id votes) =
         Err (Permission (permission_control.SpecificPermissionDenied ["participants"]))) ∧
      (is_Some (participation p !! sender) →
       match cast_vote p (height env) sender votes with
       | Err e => execute st env sender (VoteMsg id votes) = Err (Contract (VoteError e))
       | Ok w =>
           ((∀ i, (i < length (tallies p))%nat → item_stored st id i) →
            ∃ r, execute st env sender (VoteMsg id votes) = Ok (mkState (perm st) (CONFIG st)
                   (POLL_ID st) (<[id := w]> (POLLS st))
                   (<[id := <[sender := votes]> (votes_of st id)]> (VOTES st)) (poll_events st), r) ∧
                 messages r = [] ∧ events r = Voted id sender votes :: new_quorums st id p w) ∧
           (∀ i, (i < length (tallies p))%nat → ¬ item_stored st id i →
              execute st env sender (VoteMsg id votes) = Panic)
       | Panic => False
       end)
  end.
Proof.
  intros Hi%ev_reachable_inv. destruct (POLLS st !! id) as [p|] eqn:Hp.
  2:{ rewrite ev_execute_vote by congruence. unfold vote. by rewrite Hp. }
  split; [intros Hno; unfold execute, msgs_derive.ensure_permissions; cbn; rewrite Hp; cbn;
    by rewrite bool_decide_eq_false_2 by (by rewrite Hno)|].
  intros Hpart. rewrite ev_execute_vote by (intros ?; congruence).
  destruct (inv_poll _ Hi _ _ Hp) as (_ & _ & s & Hs & Hr). pose proof Hs as (_ & _ & Hmaj).
  destruct (poll_reachable_inv _ _ _ Hs Hr) as (Hinv & Hq & Hw).
  destruct (results_spec _ _ Hinv ltac:(lia)) as (rs & Hrs & _).
  destruct (cast_vote p (height env) sender votes) as [w|e|] eqn:Hc.
  - destruct (ev_vote_run _ _ _ _ _ _ _ Hi Hp Hc) as [Hok Hbad]. split.
    + intros Hall. destruct (Hok Hall) as (r & -> & Hr'). by exists r.
    + intros i Hlt Hno. by rewrite (Hbad i Hlt Hno).
  - unfold vote. rewrite Hp. cbn. unfold poll_results. rewrite Hrs. cbn. by rewrite Hc.
  - unfold cast_vote in Hc. destruct (participation _ !! _) as [pt|]; cbn in Hc; [|done].
    repeat (case_bool_decide; [done|]). by destruct (voted pt).
Qed.

(** ** Asking again for an event of a poll that is still open *)

Lemma item_gone_step st env sender m st' r id p i :
  inv st → execute st env sender m = Ok (st', r) → POLLS st !! id = Some p →
  ¬ item_stored st id i → ¬ item_stored st' id i.
Proof.
  intros Hi Hf%ev_execute_handler Hp Hno (h & e & Hh). apply Hno.
  destruct (ev_fresh_poll st Hi) as [Hfresh _]. destruct m as [id' votes|events|t].
  - apply ev_vote_Ok in Hf as (? & ? & _ & _ & ->). by exists h, e.
  - apply verify_events_Ok in Hf as (c & todo & _ & _ &
      [(_ & -> & _)|(? & s & ? & id' & _ & _ & _ & _ & _ & _ & -> & _ & -> & _)]); [by exists h, e|].
    apply stored_events_lookup in Hh as [(j & e0 & _ & _ & [=])|[Hh _]]; [congruence|by exists h, e].
  - unfold update_voting_threshold in Hf. ok_inv. simplify_eq. by exists h, e.
Qed.

(** The verifiers of an open poll can be locked out. An event that a poll which is still open
    has found missing on its chain may be requested again; it then moves to a new poll, and
    from there on no vote on the first poll succeeds, although its other events may still lack
    the votes for a decision. *)
Theorem reverification_blocks_votes (st st' st'' : State) (env env' : Env)
    (sender sender' : Addr) (events : list EventToVerify) (e : EventToVerify) (c : EventInPoll)
    (r : EResponse) (votes : list Vote) :
  reachable st → registry_ok env → Forall event_wf events →
  poll_events st !! hash_event_to_verify e = Some c → e ∈ events →
  event_status st e (height env) = Ok NotFoundOnSourceChain →
  execute st env sender (VerifyEvents events) = Ok (st', r) → rtc step st' st'' →
  is_ok (execute st'' env' sender' (VoteMsg (content_poll_id c) votes)) = false.
Proof.
  intros Hr Hreg Hwf Hc Hin Hs Hex Hsteps. pose proof (ev_reachable_inv _ Hr) as Hi.
  assert (reachable st') as Hr'.
  { eapply reachable_step; [exact Hr|]. by exists env, sender, (VerifyEvents events), r. }
  destruct (inv_event _ Hi _ _ Hc) as (_ & _ & p & Hp & Hb).
  set (i := Z.to_nat (index_in_poll c)). set (id := content_poll_id c) in *.
  assert (∃ p', POLLS st' !! id = Some p' ∧ (i < length (tallies p'))%nat ∧ ¬ item_stored st' id i)
    as Hgone.
  { destruct (ev_fresh_poll st Hi) as [Hfresh _].
    apply ev_execute_handler, verify_events_Ok in Hex as (c0 & todo & _ & Htodo & Hcase).
    assert (e ∈ todo) as He by (apply (ev_to_verify_elem st env events todo e Htodo); eauto).
    destruct Hcase as [(-> & _)|(? & sn & ex & id' & _ & _ & _ & _ & _ & _ & -> & _ & -> & _)];
      [by inversion He|]. cbn.
    exists p. rewrite lookup_insert_ne by congruence. split; [done|]. split; [lia|].
    intros (h & e' & Hh). cbn in Hh.
    apply stored_events_lookup in Hh as [(j & e0 & _ & _ & [=])|[Hh Hall]]; [congruence|].
    assert (h = hash_event_to_verify e) as -> by (eapply (inv_event_unique _ Hi); eauto; cbn; lia).
    rewrite Forall_forall in Hall. by apply (Hall e He). }
  clear Hex Hs Hc Hin Hp Hb. revert Hgone. induction Hsteps as [st1|st1 st2 st3 Hstep _ IH].
  - intros (p' & Hp' & Hlt & Hno). destruct (execute st1 env' sender' _) as [[st2 r2]| |] eqn:Hf; [|done..].
    apply ev_execute_handler in Hf. pose proof (ev_vote_Ok _ _ _ _ _ _ _ Hf) as (q & w & Hq & Hw & _).
    assert (q = p') as -> by congruence.
    destruct (ev_vote_run _ _ _ _ _ _ _ (ev_reachable_inv _ Hr') Hq Hw) as [_ Hbad].
    by rewrite (Hbad i Hlt Hno) in Hf.
  - intros (p' & Hp' & Hlt & Hno). apply IH; [by eapply reachable_step|].
    destruct Hstep as (env1 & sender1 & m & r1 & _ & _ & Hf).
    pose proof (ev_reachable_inv _ Hr') as Hi1.
    destruct (ev_execute_polls _ _ _ _ _ _ _ _ Hi1 Hf Hp') as (w & Hw & _ & Hcase).
    exists w. split; [done|]. split; [|by eapply item_gone_step].
    destruct Hcase as [->|Hst]; [done|]. destruct (steps_tallies _ _ Hst). lia.
Qed.

End contract.
End event_verifier.

(** ** A run of the contract

    One poll on two events, three verifiers of weight one and a threshold of two thirds. *)
Module event_verifier_run.
Import event_verifier.
Import voting_verifier(Env, mkEnv, height, registry_ok, mkContent, content_poll_id).

Definition run_crypto : Crypto := {|
  keccak256 := λ s, s;
  secp256k1_verify := λ _ _ _, None;
  ed25519_verify_bytes := λ _ _ _, None;
  k256_normalize := Some;
  ed25519_normalize := Some
|}.
Definition run_api : Api := {| addr_validate := λ s, Ok s |}.
#[local] Existing Instances run_crypto run_api.

Definition run_env (h : Z) : Env := mkEnv h (λ _ _ _, Some three_participants).

Lemma ev_run_registry_ok h : registry_ok (run_env h).
Proof. intros a s c ps [= <-]. destruct three_participants_valid as (_ & Hw & Hs). done. Qed.

Definition run_event (data : string) : EventToVerify := mkEvent "eth" data.
Definition run_events : list EventToVerify := [run_event "deposit"; run_event "withdrawal"].

Lemma run_event_wf data : event_wf (run_event data).
Proof. split; vm_compute; reflexivity. Qed.

Definition next (st : State) (h : Z) (sender : Addr) (m : ExecuteMsg) : State :=
  match execute st (run_env h) sender m with Ok (st', _) => st' | _ => st end.

Definition run_instantiate : InstantiateMsg :=
  mkInstantiate "gov" "registry" "service" "admin" two_thirds 10.
Definition run0 : State :=
  match instantiate run_instantiate with
  | Ok (st, _) => st
  | _ => mkState (permission_control.mkStorage None None) None None ∅ ∅ ∅
  end.
Definition run1 : State := next run0 1 "anyone" (VerifyEvents run_events).
Definition run2 : State := next run1 2 "a" (VoteMsg 1 [VoteNotFound; SucceededOnChain]).
Definition run3 : State := next run2 3 "b" (VoteMsg 1 [VoteNotFound; FailedOnChain]).
Definition run4 : State := next run3 4 "c" (VoteMsg 1 [VoteNotFound; SucceededOnChain]).
(** From [run3], the missing event is requested again while the poll is open. *)
Definition run5 : State := next run3 4 "anyone" (VerifyEvents [run_event "deposit"]).

Lemma ev_step_next st h sender m :
  msg_wf m → is_ok (execute st (run_env h) sender m) = true → step st (next st h sender m).
Proof.
  intros Hm Hok. unfold next. destruct (execute st (run_env h) sender m) as [[st' r]|e|] eqn:Hf;
    [|done..]. exists (run_env h), sender, m, r. split; [apply ev_run_registry_ok|done].
Qed.

Lemma ev_execute_next st h sender m :
  is_ok (execute st (run_env h) sender m) = true →
  ∃ r, execute st (run_env h) sender m = Ok (next st h sender m, r).
Proof. unfold next. intros [[st' r] ->]%is_ok_true. eauto. Qed.

Lemma ev_run0_reachable : reachable run0.
Proof.
  unfold run0. destruct (instantiate run_instantiate) as [[st r]|e|] eqn:Hf;
    [|vm_compute in Hf; discriminate Hf..].
  apply (reachable_init run_instantiate _ r); [apply two_thirds_wf|done].
Qed.

Lemma ev_run_reachable : reachable run3 ∧ step run3 run4.
Proof.
  split; [|apply ev_step_next; [done|vm_compute; reflexivity]].
  apply (reachable_step run2); [|apply ev_step_next; [done|vm_compute; reflexivity]].
  apply (reachable_step run1); [|apply ev_step_next; [done|vm_compute; reflexivity]].
  apply (reachable_step run0); [apply ev_run0_reachable|].
  apply ev_step_next; [repeat constructor; apply run_event_wf|vm_compute; reflexivity].
Qed.

Lemma ev_run4_reachable : reachable run4.
Proof. destruct ev_run_reachable. by eapply reachable_step. Qed.

(** The second event reaches its quorum with the last vote, and stays confirmed. *)
Lemma confirmed_event_is_final_witness :
  event_status run4 (run_event "withdrawal") 500 = Ok SucceededOnSourceChain.
Proof.
  refine (confirmed_event_is_final run4 run4 (run_event "withdrawal") 4 500 SucceededOnSourceChain
    ev_run4_reachable (rtc_refl _ _) _ _); vm_compute; reflexivity.
Defined.

Lemma event_status_exact_witness :
  ∃ w s status, POLLS run3 !! 1 = Some w ∧ snapshot_ok s ∧
    event_status run3 (run_event "withdrawal") 30 = Ok status ∧
    (status = SucceededOnSourceChain ↔
       quorum s ≤ voted_weight w (votes_of run3 1) 1 SucceededOnChain).
Proof.
  pose proof (event_status_exact run3 (run_event "withdrawal") 30 (proj1 ev_run_reachable)
    (run_event_wf _)) as He.
  assert (poll_events run3 !! hash_event_to_verify (run_event "withdrawal") =
    Some (mkContent (run_event "withdrawal") 1 1)) as Hc by (vm_compute; reflexivity).
  rewrite Hc in He. destruct He as (w & s & status & Hw & Hs & _ & Hst & Hv & _).
  { intros c' Hc'. rewrite Hc in Hc'. by injection Hc' as <-. }
  exists w, s, status. exact (conj Hw (conj Hs (conj Hst (Hv SucceededOnChain)))).
Defined.

Definition poll_of (st : State) : WeightedPoll := default poll_abc (POLLS st !! 1).
Definition poll_after : WeightedPoll :=
  match cast_vote (poll_of run3) 4 "c" [VoteNotFound; SucceededOnChain] with
  | Ok w => w | _ => poll_abc end.

Lemma participant_vote_exact_witness :
  ∃ st' r, execute run3 (run_env 4) "c" (VoteMsg 1 [VoteNotFound; SucceededOnChain]) = Ok (st', r) ∧
    events r = [Voted 1 "c" [VoteNotFound; SucceededOnChain];
                QuorumReached (run_event "withdrawal") SucceededOnSourceChain 1].
Proof.
  pose proof (participant_vote_exact run3 (run_env 4) "c" 1 [VoteNotFound; SucceededOnChain]
    (proj1 ev_run_reachable)) as Hv.
  assert (POLLS run3 !! 1 = Some (poll_of run3)) as Hp by (vm_compute; reflexivity).
  rewrite Hp in Hv. destruct Hv as [_ Hv].
  assert (cast_vote (poll_of run3) (height (run_env 4)) "c" [VoteNotFound; SucceededOnChain]
    = Ok poll_after) as Hc by (vm_compute; reflexivity).
  rewrite Hc in Hv. destruct Hv as [Hv _]; [vm_compute; eauto|].
  destruct Hv as (r & Hf & _ & Hev).
  { intros [|[|i]] Hlt; [exists "eth_deposit", (run_event "deposit"); vm_compute; reflexivity|
      exists "eth_withdrawal", (run_event "withdrawal"); vm_compute; reflexivity|].
    vm_compute in Hlt. lia. }
  eexists _, r. split; [exact Hf|]. rewrite Hev. vm_compute. reflexivity.
Defined.

Lemma reverification_blocks_votes_witness :
  is_ok (execute run5 (run_env 5) "c" (VoteMsg 1 [VoteNotFound; SucceededOnChain])) = false.
Proof.
  destruct (ev_execute_next run3 4 "anyone" (VerifyEvents [run_event "deposit"])) as [r Hf];
    [vm_compute; reflexivity|].
  refine (reverification_blocks_votes run3 run5 run5 (run_env 4) (run_env 5) "anyone" "c"
    [run_event "deposit"] (run_event "deposit") (mkContent (run_event "deposit") 1 0) r _
    (proj1 ev_run_reachable) (ev_run_registry_ok 4) _ _ _ _ Hf (rtc_refl _ _));
    [repeat constructor; apply run_event_wf|vm_compute; reflexivity|left|vm_compute; reflexivity].
Defined.

End event_verifier_run.
