(* ===== verification/Router.v ===== *)
(** * The router contract

    [contracts/router/src]: the registry of chains and their gateways ([state.rs]), the
    handlers ([contract/execute.rs]), the queries ([contract/query.rs]) and the entry
    points with their permissions ([contract.rs] and [packages/router-api/src/msg.rs]).

    The core module [nexus] is an argument of the environment: whether it knows a
    chain, or the failure of that query. *)

From Stdlib Require Import Ascii.
From S2P Require Import Prelude Std MsgId RouterApi.

(** [Itertools::chunk_by]: the maximal runs of consecutive elements with one key. *)
Fixpoint chunk_by {A K} `{EqDecision K} (f : A → K) (l : list A) : list (K * list A) :=
  match l with
  | [] => []
  | x :: l =>
      match chunk_by f l with
      | (k, c) :: cs => if bool_decide (f x = k) then (k, x :: c) :: cs
                        else (f x, [x]) :: (k, c) :: cs
      | [] => [(f x, [x])]
      end
  end.

Section chunks.
Context {A K : Type} `{EqDecision K} (f : A → K).

Lemma chunk_by_concat l : mjoin (snd <$> chunk_by f l) = l.
Proof.
  induction l as [|x l IH]; cbn; [done|]. destruct (chunk_by f l) as [|[k c] cs]; csimpl in *.
  - by rewrite <-IH.
  - case_bool_decide; csimpl; by rewrite IH.
Qed.

Lemma chunk_by_keys l : Forall (λ p, p.2 ≠ [] ∧ Forall (λ x, f x = p.1) p.2) (chunk_by f l).
Proof.
  induction l as [|x l IH]; cbn; [constructor|].
  destruct (chunk_by f l) as [|[k c] cs]; [by repeat constructor|].
  apply Forall_cons in IH as [[Hne Hk] Hcs]. case_bool_decide as Hx.
  - constructor; [|done]. split; [done|]. by constructor.
  - constructor; [by repeat constructor|]. by constructor.
Qed.

(** The runs are maximal: two adjacent ones have different keys. *)
Lemma chunk_by_maximal l i k k' :
  (chunk_by f l).*1 !! i = Some k → (chunk_by f l).*1 !! S i = Some k' → k ≠ k'.
Proof.
  revert i. induction l as [|x l IH]; intros i; cbn; [done|].
  destruct (chunk_by f l) as [|[k0 c] cs]; [by destruct i|].
  case_bool_decide as Hx; csimpl in *; [apply IH|].
  destruct i as [|i]; cbn; [intros; by simplify_eq|apply IH].
Qed.
End chunks.

(** A list without repetition all of whose elements are equal has at most one. *)
Lemma at_most_one {A} (l : list A) :
  NoDup l → (∀ x y, x ∈ l → y ∈ l → x = y) → l = [] ∨ ∃ x, l = [x].
Proof.
  intros Hnd Hu. destruct l as [|x [|y l]]; [by left|right; by exists x|].
  exfalso. apply NoDup_cons in Hnd as [Hn _]. apply Hn.
  rewrite (Hu x y); [left|left|right; left].
Qed.

Module router.
Import router_api.

(** ** Storage ([state.rs]) *)

Record Config := mkConfig { axelarnet_gateway : Addr; coordinator : Addr }.

Record State := mkState {
  perm : permission_control.Storage;
  killswitch_state : option killswitch.State;
  CONFIG : option Config;
  chain_endpoints : gmap string ChainEndpoint
}.

Definition set_killswitch (st : State) k : State :=
  mkState (perm st) k (CONFIG st) (chain_endpoints st).
Definition set_endpoints (st : State) m : State :=
  mkState (perm st) (killswitch_state st) (CONFIG st) m.

Definition load_config (st : State) : result Error Config :=
  map_err (λ _, StoreFailure) (item_load (CONFIG st)).

(** [GatewayIndex::load_chain_by_gateway] *)
Definition index_load_chain_by_gateway {E} (st : State) (contract_address : Addr)
    : result E (option ChainEndpoint) :=
  match filter (λ p, gateway p.2 = contract_address) (map_to_list (chain_endpoints st)) with
  | [] => Ok None
  | [(_, chain)] => Ok (Some chain)
  | _ => Panic
  end.

Definition load_chain_by_chain_name {E} (st : State) (chain_name : string)
    : result E (option ChainEndpoint) := Ok (chain_endpoints st !! chain_name).

Definition load_chain_by_gateway (st : State) (gateway : Addr) : result Error ChainEndpoint :=
  o ← index_load_chain_by_gateway st gateway;
  ok_or GatewayNotRegistered o.

(** [IndexedMap::update] *)
Definition update_endpoint (st : State) (chain : string)
    (action : option ChainEndpoint → result Error ChainEndpoint) : result Error State :=
  e ← action (chain_endpoints st !! chain);
  Ok (set_endpoints st (<[chain := e]> (chain_endpoints st))).

(** ** Events and messages *)

Inductive Event :=
  | RouterInstantiated (admin governance axelarnet_gateway coordinator : Addr)
  | ChainRegistered (name : string) (gateway : Addr)
  | GatewayUpgraded (chain : string) (gateway_address : Addr)
  | ChainFrozenEvent (name : string) (direction : Z)
  | ChainUnfrozenEvent (name : string) (direction : Z)
  | MessageRouted (msg : Message)
  | RoutingDisabledEvent
  | RoutingEnabledEvent.

(** [gateway_api::msg::ExecuteMsg::RouteMessages] *)
Inductive OutMsg := RouteMessagesTo (contract_addr : Addr) (msgs : list Message).

Notation RResponse := (Response OutMsg Event).

(** What the [nexus] module answers; [None] is a failed query. *)
Record Env := mkEnv { is_chain_registered : string → option bool }.

(** ** Handlers ([contract/execute.rs]) *)

Definition find_chain_for_gateway {E} (st : State) (contract_address : Addr)
    : result E (option ChainEndpoint) := index_load_chain_by_gateway st contract_address.

Definition register_chain (st : State) (env : Env) (name : string) (gateway : Addr)
    (format : msg_id.MessageIdFormat) : result Error (State * RResponse) :=
  found ← find_chain_for_gateway st gateway;
  if bool_decide (is_Some found) then Err GatewayAlreadyRegistered
  else
    registered ← ok_or Nexus (is_chain_registered env name);
    if (registered : bool) then Err ChainAlreadyExists
    else
      st ← update_endpoint st name (λ chain,
        match chain with
        | Some _ => Err ChainAlreadyExists
        | None => Ok (mkEndpoint name gateway DirectionNone format)
        end);
      Ok (st, add_event (ChainRegistered name gateway) Response_new).

Definition upgrade_gateway (st : State) (chain : string) (contract_address : Addr)
    : result Error (State * RResponse) :=
  found ← find_chain_for_gateway st contract_address;
  if bool_decide (is_Some found) then Err GatewayAlreadyRegistered
  else
    st ← update_endpoint st chain (λ chain,
      match chain with
      | None => Err ChainNotFound
      | Some e => Ok (mkEndpoint (name e) contract_address (frozen_status e) (msg_id_format e))
      end);
    Ok (st, add_event (GatewayUpgraded chain contract_address) Response_new).

Definition freeze_specific_chain (st : State) (chain : string) (direction : Z)
    : result Error (State * Event) :=
  st ← update_endpoint st chain (λ chain,
    match chain with
    | None => Err ChainNotFound
    | Some e => Ok (mkEndpoint (name e) (gateway e) (Z.lor (frozen_status e) direction)
                      (msg_id_format e))
    end);
  Ok (st, ChainFrozenEvent chain direction).

Definition unfreeze_specific_chain (st : State) (chain : string) (direction : Z)
    : result Error (State * Event) :=
  st ← update_endpoint st chain (λ chain,
    match chain with
    | None => Err ChainNotFound
    | Some e => Ok (mkEndpoint (name e) (gateway e) (Z.ldiff (frozen_status e) direction)
                      (msg_id_format e))
    end);
  Ok (st, ChainUnfrozenEvent chain direction).

(** The iteration over a [HashMap] of chains: [chains] lists it in the order in which
    it is visited. *)
Definition for_chains (f : State → string → Z → result Error (State * Event)) (st : State)
    (chains : list (string * Z)) : result Error (State * list Event) :=
  try_fold (λ '(st, evs) '(chain, direction),
    '(st, ev) ← f st chain direction; Ok (st, evs ++ [ev])) (st, []) chains.

Definition freeze_chains (st : State) (chains : list (string * Z))
    : result Error (State * RResponse) :=
  '(st, evs) ← for_chains freeze_specific_chain st chains;
  Ok (st, add_events evs Response_new).

Definition unfreeze_chains (st : State) (chains : list (string * Z))
    : result Error (State * RResponse) :=
  '(st, evs) ← for_chains unfreeze_specific_chain st chains;
  Ok (st, add_events evs Response_new).

Definition disable_routing (st : State) : result Error (State * RResponse) :=
  '(k, r) ← map_err router_api.Std (killswitch.engage (killswitch_state st) RoutingDisabledEvent);
  Ok (set_killswitch st k, r).

Definition enable_routing (st : State) : result Error (State * RResponse) :=
  '(k, r) ← map_err router_api.Std (killswitch.disengage (killswitch_state st) RoutingEnabledEvent);
  Ok (set_killswitch st k, r).

Section contract.
Context `{HexCodec} `{Base58Codec} `{Bech32Codec} `{!FeltFormat} `{Api}.

Definition verify_msg_ids (msgs : list Message) (expected_format : msg_id.MessageIdFormat)
    : result Error unit :=
  map_err (λ _, InvalidMessageId)
    (try_fold (λ _ msg, msg_id.verify_msg_id (message_id (cc_id msg)) expected_format) tt msgs).

Definition validate_msgs (st : State) (config : Config) (sender : Addr) (msgs : list Message)
    : result Error (list Message) :=
  if bool_decide (sender = axelarnet_gateway config) then
    _ ← verify_msg_ids msgs msg_id.HexTxHashAndEventIndex; Ok msgs
  else
    chain ← load_chain_by_gateway st sender;
    if incoming_frozen chain then Err (ChainFrozen (name chain))
    else if existsb (λ msg, bool_decide (source_chain (cc_id msg) ≠ name chain)) msgs
    then Err WrongSourceChain
    else _ ← verify_msg_ids msgs (msg_id_format chain); Ok msgs.

(** The gateway that the messages for one destination go to. *)
Definition destination_gateway (st : State) (env : Env) (config : Config)
    (destination_chain : string) : result Error Addr :=
  chain ← load_chain_by_chain_name st destination_chain;
  match chain with
  | Some destination_chain =>
      if outgoing_frozen destination_chain then Err (ChainFrozen (name destination_chain))
      else Ok (gateway destination_chain)
  | None =>
      registered ← ok_or Nexus (is_chain_registered env destination_chain);
      if (registered : bool) then Ok (axelarnet_gateway config) else Err ChainNotFound
  end.

Definition route_messages (st : State) (env : Env) (sender : Addr) (msgs : list Message)
    : result Error RResponse :=
  _ ← ensure (killswitch.is_contract_active (killswitch_state st)) RoutingDisabled;
  config ← load_config st;
  msgs ← validate_msgs st config sender msgs;
  wasm_msgs ← try_map (λ '(destination_chain, msgs),
    gateway ← destination_gateway st env config destination_chain;
    Ok (RouteMessagesTo gateway msgs)) (chunk_by destination_chain msgs);
  Ok (add_events (MessageRouted <$> msgs) (add_messages wasm_msgs Response_new)).

(** ** Queries ([contract/query.rs]) *)

Definition chain_info (st : State) (chain : string) : result Error ChainEndpoint :=
  ok_or ChainNotFound (chain_endpoints st !! chain).

Definition after (start_after : option string) (p : string * ChainEndpoint) : Prop :=
  match start_after with
  | Some s => ¬ String.le p.1 s
  | None => True
  end.
#[global] Instance after_dec start_after p : Decision (after start_after p).
Proof. unfold after. destruct start_after; apply _. Defined.

Definition chains (st : State) (start_after : option string) (limit : nat) : list ChainEndpoint :=
  snd <$> take limit (filter (after start_after) (entries (chain_endpoints st))).

Definition is_enabled (st : State) : bool := killswitch.is_contract_active (killswitch_state st).

(** ** Entry points *)

Inductive ExecuteMsg :=
  | RegisterChain (chain gateway_address : string) (format : msg_id.MessageIdFormat)
  | UpgradeGateway (chain contract_address : string)
  | FreezeChains (chains : list (string * Z))
  | UnfreezeChains (chains : list (string * Z))
  | DisableRouting
  | EnableRouting
  | RouteMessages (msgs : list Message).

Definition permissions (m : ExecuteMsg) : msgs_derive.MsgPermissions :=
  match m with
  | RegisterChain _ _ _ =>
      msgs_derive.mkPerm [] [permission_control.Governance] ["coordinator"]
  | UpgradeGateway _ _ => msgs_derive.mkPerm [] [permission_control.Governance] []
  | FreezeChains _ | UnfreezeChains _ | DisableRouting | EnableRouting =>
      msgs_derive.mkPerm [] [permission_control.Elevated] []
  | RouteMessages _ => msgs_derive.mkPerm ["gateway"] [] []
  end.

Inductive ExecuteError :=
  | Permission (e : permission_control.Error)
  | Contract (e : Error)
  | InvalidCosmwasmAddress (address : string).

Definition validate_cosmwasm_address (addr : string) : result ExecuteError Addr :=
  map_err (λ _, InvalidCosmwasmAddress addr) (addr_validate addr).

Record InstantiateMsg := mkInstantiate {
  admin_address : string;
  governance_address : string;
  i_axelarnet_gateway : string;
  coordinator_address : string
}.

Definition instantiate (msg : InstantiateMsg) : result ExecuteError (State * RResponse) :=
  admin ← validate_cosmwasm_address (admin_address msg);
  governance ← validate_cosmwasm_address (governance_address msg);
  axelarnet_gateway ← validate_cosmwasm_address (i_axelarnet_gateway msg);
  coordinator ← validate_cosmwasm_address (coordinator_address msg);
  let perm := permission_control.set_governance
    (permission_control.set_admin (permission_control.mkStorage None None) admin) governance in
  Ok (mkState perm (killswitch.init killswitch.Disengaged)
        (Some (mkConfig axelarnet_gateway coordinator)) ∅,
      add_event (RouterInstantiated admin governance axelarnet_gateway coordinator) Response_new).

Definition find_gateway_address (st : State) (sender : Addr) (_ : ExecuteMsg)
    : result Error bool :=
  config ← load_config st;
  if bool_decide (axelarnet_gateway config = sender) then Ok true
  else
    match load_chain_by_gateway st sender with
    | Ok _ => Ok true
    | Err GatewayNotRegistered => Ok true
    | Err e => Err e
    | Panic => Panic
    end.

Definition find_coordinator_address (st : State) : result Error Addr :=
  config ← map_err (λ _, CoordinatorNotFound) (load_config st);
  Ok (coordinator config).

Definition authorize (st : State) (sender : Addr)
    (m : msgs_derive.ExecuteMsgFromProxy ExecuteMsg)
    : result permission_control.Error (ExecuteMsg * Addr) :=
  msgs_derive.authorize permissions (λ _, find_gateway_address st)
    [("coordinator", find_coordinator_address st)] (perm st) sender m.

Definition execute (st : State) (env : Env) (sender : Addr)
    (m : msgs_derive.ExecuteMsgFromProxy ExecuteMsg) : result ExecuteError (State * RResponse) :=
  '(m, sender) ← map_err Permission (authorize st sender m);
  match m with
  | RegisterChain chain gateway_address format =>
      gateway_address ← validate_cosmwasm_address gateway_address;
      map_err Contract (register_chain st env chain gateway_address format)
  | UpgradeGateway chain contract_address =>
      contract_address ← validate_cosmwasm_address contract_address;
      map_err Contract (upgrade_gateway st chain contract_address)
  | FreezeChains chains => map_err Contract (freeze_chains st chains)
  | UnfreezeChains chains => map_err Contract (unfreeze_chains st chains)
  | RouteMessages msgs =>
      r ← map_err Contract (route_messages st env sender msgs); Ok (st, r)
  | DisableRouting => map_err Contract (disable_routing st)
  | EnableRouting => map_err Contract (enable_routing st)
  end.

(** ** The registry *)

Record inv (st : State) : Prop := {
  inv_config : is_Some (CONFIG st);
  inv_killswitch : is_Some (killswitch_state st);
  inv_name k e : chain_endpoints st !! k = Some e → name e = k;
  inv_gateway : index_unique gateway (chain_endpoints st);
  inv_flags k e : chain_endpoints st !! k = Some e → 0 ≤ frozen_status e ≤ 3
}.

Lemma index_load_spec {E} st a :
  inv st → ∃ o, @index_load_chain_by_gateway E st a = Ok o ∧
    ∀ e, o = Some e ↔ chain_endpoints st !! name e = Some e ∧ gateway e = a.
Proof.
  intros Hi. unfold index_load_chain_by_gateway.
  set (l := filter _ _).
  assert (∀ k e, (k, e) ∈ l ↔ gateway e = a ∧ chain_endpoints st !! k = Some e) as Hl.
  { intros k e. unfold l. by rewrite list_elem_of_filter, elem_of_map_to_list. }
  destruct (at_most_one l) as [->|[[k e] ->]].
  - apply NoDup_filter, NoDup_map_to_list.
  - intros [k e] [k' e'] [Hg He]%Hl [Hg' He']%Hl.
    assert (k = k') as -> by (eapply (inv_gateway _ Hi); eauto; congruence). congruence.
  - exists None. split; [done|]. intros e. split; [done|]. intros [He Hg].
    assert ((name e, e) ∈ []) as Hin by (apply Hl; done). inversion Hin.
  - exists (Some e). split; [done|].
    assert (gateway e = a ∧ chain_endpoints st !! k = Some e) as [Hg He] by (apply Hl; left).
    intros e'. split.
    + intros [= <-]. by rewrite (inv_name _ Hi _ _ He).
    + intros [He' Hg']. assert ((name e', e') ∈ [(k, e)]) as Hin by (apply Hl; done).
      apply list_elem_of_singleton in Hin. congruence.
Qed.

Lemma load_gateway_spec st a e :
  inv st → load_chain_by_gateway st a = Ok e ↔ chain_endpoints st !! name e = Some e ∧ gateway e = a.
Proof.
  intros Hi. unfold load_chain_by_gateway.
  destruct (@index_load_spec Error st a Hi) as (o & -> & Ho). cbn. rewrite <-Ho.
  destruct o; cbn; naive_solver.
Qed.

Lemma load_gateway_cases st a :
  inv st → (∃ e, load_chain_by_gateway st a = Ok e) ∨
           load_chain_by_gateway st a = Err GatewayNotRegistered.
Proof.
  intros Hi. unfold load_chain_by_gateway.
  destruct (@index_load_spec Error st a Hi) as (o & -> & Ho). cbn. destruct o; cbn; eauto.
Qed.

(** The flag sets of two bits. *)
Definition direction_wf (d : Z) : Prop := 0 ≤ d ≤ 3.

Lemma direction_cases d : direction_wf d → d = 0 ∨ d = 1 ∨ d = 2 ∨ d = 3.
Proof. unfold direction_wf. lia. Qed.

Lemma direction_lor a b : direction_wf a → direction_wf b → direction_wf (Z.lor a b).
Proof.
  intros [-> | [-> | [-> | ->]]]%direction_cases [-> | [-> | [-> | ->]]]%direction_cases; done.
Qed.
Lemma direction_ldiff a b : direction_wf a → direction_wf b → direction_wf (Z.ldiff a b).
Proof.
  intros [-> | [-> | [-> | ->]]]%direction_cases [-> | [-> | [-> | ->]]]%direction_cases; done.
Qed.

(** The frozen status of an endpoint replaced. *)
Definition with_status (e : ChainEndpoint) (s : Z) : ChainEndpoint :=
  mkEndpoint (name e) (gateway e) s (msg_id_format e).

(** What the two loops do, with [op] the union or the difference of flags. *)
Definition update_status (op : Z → Z → Z) (st : State) (chains : list (string * Z))
    (st' : State) : Prop :=
  perm st' = perm st ∧ killswitch_state st' = killswitch_state st ∧ CONFIG st' = CONFIG st ∧
  ∀ k, chain_endpoints st' !! k =
    (λ e, with_status e (op (frozen_status e) (default 0 ((list_to_map chains : gmap string Z) !! k))))
    <$> chain_endpoints st !! k.

Section loop.
Context (op : Z → Z → Z) (op_0 : ∀ x, op x 0 = x) (ev : string → Z → Event).
Context (f : State → string → Z → result Error (State * Event)).
Context (f_spec : ∀ st k d, f st k d =
  match chain_endpoints st !! k with
  | Some e => Ok (set_endpoints st (<[k := with_status e (op (frozen_status e) d)]> (chain_endpoints st)),
                  ev k d)
  | None => Err ChainNotFound
  end).

Lemma for_chains_run st chains evs :
  NoDup chains.*1 → Forall (λ p, is_Some (chain_endpoints st !! p.1)) chains →
  ∃ st', try_fold (λ '(st, evs) '(chain, direction),
      '(st, ev) ← f st chain direction; Ok (st, evs ++ [ev])) (st, evs) chains
    = Ok (st', evs ++ ((λ p, ev p.1 p.2) <$> chains)) ∧ update_status op st chains st'.
Proof.
  revert st evs. induction chains as [|[k d] chains IH]; intros st evs Hnd Hall; cbn.
  - exists st. rewrite app_nil_r. split; [done|]. split_and!; try done. intros k.
    destruct (chain_endpoints st !! k) as [e|]; [|done].
    change (Some e = Some (with_status e (op (frozen_status e) 0))). rewrite op_0. by destruct e.
  - csimpl in *. apply NoDup_cons in Hnd as [Hk Hnd]. apply Forall_cons in Hall as [[e He] Hall].
    rewrite f_spec. cbn in He. rewrite He. cbn.
    set (st1 := set_endpoints st _).
    destruct (IH st1 (evs ++ [ev k d]) Hnd) as (st' & Hrun & Hp1 & Hp2 & Hp3 & Hp4).
    { eapply Forall_impl; [exact Hall|]. intros [k' d']. cbn. rewrite lookup_insert_is_Some'. auto. }
    exists st'. rewrite Hrun, <-app_assoc. split; [done|]. split_and!; try done.
    intros k'. rewrite Hp4. cbn. destruct (decide (k' = k)) as [->|Hne].
    + rewrite !lookup_insert_eq, He. cbn.
      rewrite (not_elem_of_list_to_map_1 chains k) by done. cbn. by rewrite op_0.
    + by rewrite !lookup_insert_ne by done.
Qed.

Lemma for_chains_exact st chains :
  NoDup chains.*1 →
  (is_ok (for_chains f st chains) = true ↔
     Forall (λ p, is_Some (chain_endpoints st !! p.1)) chains) ∧
  ∀ st' evs, for_chains f st chains = Ok (st', evs) →
    update_status op st chains st' ∧ evs = (λ p, ev p.1 p.2) <$> chains.
Proof.
  intros Hnd. unfold for_chains.
  assert (∀ st evs, is_ok (try_fold (λ '(st, evs) '(chain, direction),
      '(st, ev) ← f st chain direction; Ok (st, evs ++ [ev])) (st, evs) chains) = true →
      Forall (λ p, is_Some (chain_endpoints st !! p.1)) chains) as Hreg.
  { clear Hnd. induction chains as [|[k d] chains IH]; intros st1 evs; cbn; [constructor|].
    rewrite f_spec. destruct (chain_endpoints st1 !! k) as [e|] eqn:He; cbn; [|done].
    intros Hok%IH. constructor; [cbn; eauto|]. eapply Forall_impl; [exact Hok|].
    intros [k' d']. cbn. rewrite lookup_insert_is_Some'. intros [<-|?]; eauto. }
  split.
  - split; [apply Hreg|]. intros Hall. destruct (for_chains_run st chains [] Hnd Hall) as (st' & -> & _).
    done.
  - intros st' evs Hrun. destruct (for_chains_run st chains [] Hnd) as (st1 & Hrun' & Hup).
    { eapply Hreg. by rewrite Hrun. }
    rewrite Hrun in Hrun'. cbn in Hrun'. by simplify_eq.
Qed.
End loop.

Lemma freeze_specific_spec st k d :
  freeze_specific_chain st k d =
  match chain_endpoints st !! k with
  | Some e => Ok (set_endpoints st (<[k := with_status e (Z.lor (frozen_status e) d)]>
                    (chain_endpoints st)), ChainFrozenEvent k d)
  | None => Err ChainNotFound
  end.
Proof. unfold freeze_specific_chain, update_endpoint. by destruct (chain_endpoints st !! k). Qed.

Lemma unfreeze_specific_spec st k d :
  unfreeze_specific_chain st k d =
  match chain_endpoints st !! k with
  | Some e => Ok (set_endpoints st (<[k := with_status e (Z.ldiff (frozen_status e) d)]>
                    (chain_endpoints st)), ChainUnfrozenEvent k d)
  | None => Err ChainNotFound
  end.
Proof. unfold unfreeze_specific_chain, update_endpoint. by destruct (chain_endpoints st !! k). Qed.

(** Freezing never clears a flag, whatever the list. *)
Definition chains_wf (chains : list (string * Z)) : Prop :=
  NoDup chains.*1 ∧ Forall (λ p, direction_wf p.2) chains.

(** The values of the messages: the maps have distinct keys and directions. *)
Definition msg_wf (m : ExecuteMsg) : Prop :=
  match m with
  | FreezeChains chains | UnfreezeChains chains => chains_wf chains
  | _ => True
  end.

Lemma list_to_map_direction chains k :
  Forall (λ p, direction_wf p.2) chains →
  direction_wf (default 0 ((list_to_map chains : gmap string Z) !! k)).
Proof.
  intros Hall. destruct (list_to_map chains !! k) as [d|] eqn:Hd; cbn; [|done].
  apply elem_of_list_to_map_2 in Hd. by apply (proj1 (Forall_forall _ _) Hall (k, d)).
Qed.

Lemma inv_update_status op st chains st' :
  (∀ a b, direction_wf a → direction_wf b → direction_wf (op a b)) →
  chains_wf chains → update_status op st chains st' → inv st → inv st'.
Proof.
  intros Hop [_ Hdir] (Hp1 & Hp2 & Hp3 & Hp4) [Hc Hk Hn Hg Hf]. split.
  - by rewrite Hp3. - by rewrite Hp2.
  - intros k e. rewrite Hp4. intros (e0 & He0 & ->)%fmap_Some. cbn. eauto.
  - intros k k' e e'. rewrite !Hp4. intros (e0 & He0 & ->)%fmap_Some (e1 & He1 & ->)%fmap_Some. cbn.
    eauto.
  - intros k e. rewrite Hp4. intros (e0 & He0 & ->)%fmap_Some. cbn. apply Hop; [by eapply Hf|].
    by apply list_to_map_direction.
Qed.

Lemma register_chain_Ok st env n g fmt st' r :
  inv st → register_chain st env n g fmt = Ok (st', r) →
  chain_endpoints st !! n = None ∧ is_chain_registered env n = Some false ∧
  (∀ k e, chain_endpoints st !! k = Some e → gateway e ≠ g) ∧
  st' = set_endpoints st (<[n := mkEndpoint n g DirectionNone fmt]> (chain_endpoints st)) ∧
  r = add_event (ChainRegistered n g) Response_new.
Proof.
  intros Hi. unfold register_chain, update_endpoint, find_chain_for_gateway. intros Hf. ok_inv.
  destruct (@index_load_spec Error st g Hi) as (o & Ho & Hspec).
  rewrite Ho in Hok. ok_inv. ok_case. breflect. ok_inv. ok_case. ok_inv. ok_case. ok_inv.
  simplify_eq. split_and!; try done.
  intros k e He Hg. destruct v; [by eauto|].
  assert (None = Some e) by (apply Hspec; by rewrite (inv_name _ Hi _ _ He)). done.
Qed.

Lemma upgrade_gateway_Ok st n g st' r :
  inv st → upgrade_gateway st n g = Ok (st', r) →
  ∃ e, chain_endpoints st !! n = Some e ∧
  (∀ k e, chain_endpoints st !! k = Some e → gateway e ≠ g) ∧
  st' = set_endpoints st (<[n := mkEndpoint (name e) g (frozen_status e) (msg_id_format e)]>
                            (chain_endpoints st)) ∧
  r = add_event (GatewayUpgraded n g) Response_new.
Proof.
  intros Hi. unfold upgrade_gateway, update_endpoint, find_chain_for_gateway. intros Hf. ok_inv.
  destruct (@index_load_spec Error st g Hi) as (o & Ho & Hspec).
  rewrite Ho in Hok. ok_inv. ok_case. breflect. ok_inv. ok_case. ok_inv. simplify_eq.
  eexists. split; [done|]. split_and!; try done.
  intros k e He Hg. destruct v; [by eauto|].
  assert (None = Some e) by (apply Hspec; by rewrite (inv_name _ Hi _ _ He)). done.
Qed.

Lemma freeze_chains_Ok st chains st' r :
  chains_wf chains → freeze_chains st chains = Ok (st', r) → update_status Z.lor st chains st'.
Proof.
  unfold freeze_chains. intros [Hnd _] Hf. ok_inv. destruct v as [st1 evs]. ok_inv. simplify_eq.
  by destruct (for_chains_exact Z.lor Z.lor_0_r ChainFrozenEvent _ freeze_specific_spec st chains Hnd)
    as [_ Hex]; destruct (Hex _ _ Hok).
Qed.

Lemma unfreeze_chains_Ok st chains st' r :
  chains_wf chains → unfreeze_chains st chains = Ok (st', r) → update_status Z.ldiff st chains st'.
Proof.
  unfold unfreeze_chains. intros [Hnd _] Hf. ok_inv. destruct v as [st1 evs]. ok_inv. simplify_eq.
  by destruct (for_chains_exact Z.ldiff Z.ldiff_0_r ChainUnfrozenEvent _ unfreeze_specific_spec st
    chains Hnd) as [_ Hex]; destruct (Hex _ _ Hok).
Qed.

(** A successful call, by message. *)
Lemma execute_Ok st env sender m st' r :
  inv st → msg_wf (msgs_derive.relayed m) → execute st env sender m = Ok (st', r) →
  ∃ sender', authorize st sender m = Ok (msgs_derive.relayed m, sender') ∧
  match msgs_derive.relayed m with
  | RegisterChain n a fmt => ∃ g, addr_validate a = Ok g ∧ chain_endpoints st !! n = None ∧
      is_chain_registered env n = Some false ∧
      (∀ k e, chain_endpoints st !! k = Some e → gateway e ≠ g) ∧
      st' = set_endpoints st (<[n := mkEndpoint n g DirectionNone fmt]> (chain_endpoints st))
  | UpgradeGateway n a => ∃ g e, addr_validate a = Ok g ∧ chain_endpoints st !! n = Some e ∧
      (∀ k e, chain_endpoints st !! k = Some e → gateway e ≠ g) ∧
      st' = set_endpoints st (<[n := mkEndpoint (name e) g (frozen_status e) (msg_id_format e)]>
                                (chain_endpoints st))
  | FreezeChains chains => update_status Z.lor st chains st'
  | UnfreezeChains chains => update_status Z.ldiff st chains st'
  | RouteMessages msgs => st' = st ∧ route_messages st env sender' msgs = Ok r
  | DisableRouting => st' = set_killswitch st (Some killswitch.Engaged)
  | EnableRouting => st' = set_killswitch st (Some killswitch.Disengaged)
  end.
Proof.
  intros Hi Hm Hf. unfold execute in Hf. ok_inv. destruct v as [m' sender'].
  pose proof Hok as Hauth. unfold authorize in Hok.
  apply msgs_derive.authorize_relayed in Hok as [-> _]. exists sender'. split; [done|].
  destruct (msgs_derive.relayed m); ok_inv; unfold validate_cosmwasm_address in *; ok_inv.
  - apply register_chain_Ok in Hf as (? & ? & ? & ? & _); eauto 10.
  - apply upgrade_gateway_Ok in Hf as (? & ? & ? & ? & _); eauto 10.
  - by eapply freeze_chains_Ok.
  - by eapply unfreeze_chains_Ok.
  - unfold disable_routing in Hf. ok_inv. destruct v as [k r']. ok_inv. simplify_eq.
    by apply killswitch.engage_Ok in Hok as (_ & -> & _).
  - unfold enable_routing in Hf. ok_inv. destruct v as [k r']. ok_inv. simplify_eq.
    by apply killswitch.disengage_Ok in Hok as (_ & -> & _).
  - by simplify_eq.
Qed.

Lemma router_inv_execute st env sender m st' r :
  inv st → msg_wf (msgs_derive.relayed m) → execute st env sender m = Ok (st', r) → inv st'.
Proof.
  intros Hi Hm Hf. destruct (execute_Ok _ _ _ _ _ _ Hi Hm Hf) as (sender' & _ & Hcase).
  destruct (msgs_derive.relayed m) as [n a fmt|n a|chains|chains| | |msgs].
  - destruct Hcase as (g & _ & Hn & _ & Hg & ->). destruct Hi as [Hc Hk Hnm Hu Hfl]. split; cbn; try done.
    + intros k e. rewrite lookup_insert_Some. intros [[<- <-]|[_ ?]]; [done|eauto].
    + intros k k' e e'. rewrite !lookup_insert_Some.
      intros [[<- <-]|[_ He]] [[<- <-]|[_ He']]; cbn; try done;
        [intros Heq; by destruct (Hg _ _ He')|intros Heq; by destruct (Hg _ _ He)|by eauto].
    + intros k e. rewrite lookup_insert_Some. intros [[<- <-]|[_ ?]]; [done|eauto].
  - destruct Hcase as (g & e0 & _ & Hn & Hg & ->). destruct Hi as [Hc Hk Hnm Hu Hfl]. split; cbn; try done.
    + intros k e. rewrite lookup_insert_Some. intros [[<- <-]|[_ ?]]; cbn; eauto.
    + intros k k' e e'. rewrite !lookup_insert_Some.
      intros [[<- <-]|[_ He]] [[<- <-]|[_ He']]; cbn; try done;
        [intros Heq; by destruct (Hg _ _ He')|intros Heq; by destruct (Hg _ _ He)|by eauto].
    + intros k e. rewrite lookup_insert_Some. intros [[<- <-]|[_ ?]]; cbn; eauto.
  - by eapply inv_update_status; [apply direction_lor|..].
  - by eapply inv_update_status; [apply direction_ldiff|..].
  - subst. destruct Hi. by split.
  - subst. destruct Hi. by split.
  - by destruct Hcase as [-> _].
Qed.

Lemma config_kept st env sender m st' r :
  inv st → msg_wf (msgs_derive.relayed m) → execute st env sender m = Ok (st', r) →
  CONFIG st' = CONFIG st.
Proof.
  intros Hi Hm Hf. destruct (execute_Ok _ _ _ _ _ _ Hi Hm Hf) as (sender' & _ & Hcase).
  destruct (msgs_derive.relayed m); try by destruct_and?; subst.
  - by destruct Hcase as (g & _ & _ & _ & _ & ->).
  - by destruct Hcase as (g & e & _ & _ & _ & ->).
  - by destruct Hcase as (_ & _ & ? & _).
  - by destruct Hcase as (_ & _ & ? & _).
Qed.

(** Only a direct call to route messages makes the router send any. *)
Lemma execute_sends st env sender m st' r :
  inv st → execute st env sender m = Ok (st', r) → messages r ≠ [] →
  ∃ msgs, m = msgs_derive.Direct (RouteMessages msgs).
Proof.
  intros Hi Hf Hr. unfold execute in Hf. ok_inv. destruct v as [m' sender']. unfold authorize in Hok.
  destruct (msgs_derive.authorize_relayed _ _ _ _ _ _ _ _ Hok) as [Hm' _].
  destruct m' as [n a fmt|n a|chains|chains| | |msgs].
  7: { destruct m as [o x|x]; cbn in Hm'; subst x; [|by exists msgs].
    apply msgs_derive.authorize_relay in Hok as (_ & _ & _ & name & _ & Hin). inversion Hin. }
  all: destruct Hr; unfold validate_cosmwasm_address, disable_routing, enable_routing, freeze_chains,
    unfreeze_chains in *; ok_inv.
  - by apply register_chain_Ok in Hf as (_ & _ & _ & _ & ->).
  - by apply upgrade_gateway_Ok in Hf as (e & _ & _ & _ & ->).
  - destruct v as [st1 evs]. ok_inv. by simplify_eq.
  - destruct v as [st1 evs]. ok_inv. by simplify_eq.
  - destruct v as [k r']. ok_inv. simplify_eq. by apply killswitch.engage_Ok in Hok0 as (_ & _ & ? & _).
  - destruct v as [k r']. ok_inv. simplify_eq. by apply killswitch.disengage_Ok in Hok0 as (_ & _ & ? & _).
Qed.

Definition step (st st' : State) : Prop :=
  ∃ env sender m r, msg_wf (msgs_derive.relayed m) ∧ execute st env sender m = Ok (st', r).

Inductive reachable : State → Prop :=
  | reachable_init m st r : instantiate m = Ok (st, r) → reachable st
  | reachable_step st st' : reachable st → step st st' → reachable st'.

Lemma router_reachable_inv st : reachable st → inv st.
Proof.
  induction 1 as [m st r Hf|st st' _ IH (env & sender & m & r & Hm & Hf)].
  - unfold instantiate in Hf. ok_inv. simplify_eq. by split.
  - by eapply router_inv_execute.
Qed.

(** ** Routing *)

#[local] Arguments msg_id.verify_msg_id : simpl never.
#[local] Arguments destination_gateway : simpl never.

Lemma verify_msg_ids_Ok msgs fmt :
  verify_msg_ids msgs fmt = Ok tt ↔
  Forall (λ m, msg_id.verify_msg_id (message_id (cc_id m)) fmt = Ok tt) msgs.
Proof.
  unfold verify_msg_ids. rewrite map_err_Ok. induction msgs as [|m msgs IH]; cbn.
  - split; [constructor|done].
  - rewrite bind_Ok, Forall_cons, <-IH. split.
    + intros ([] & ? & ?). done.
    + intros [? ?]. by exists tt.
Qed.

(** The sender may send these messages: the core gateway with hash identifiers, or the
    gateway of a chain that is not frozen, with messages from that chain only and
    identifiers in its format. *)
Definition may_send (st : State) (c : Config) (sender : Addr) (msgs : list Message) : Prop :=
  (sender = axelarnet_gateway c ∧
   Forall (λ m, msg_id.verify_msg_id (message_id (cc_id m)) msg_id.HexTxHashAndEventIndex = Ok tt)
     msgs) ∨
  (sender ≠ axelarnet_gateway c ∧
   ∃ e, chain_endpoints st !! name e = Some e ∧ gateway e = sender ∧ incoming_frozen e = false ∧
     Forall (λ m, source_chain (cc_id m) = name e ∧
       msg_id.verify_msg_id (message_id (cc_id m)) (msg_id_format e) = Ok tt) msgs).

(** Messages for chain [d] are delivered to [g]: its gateway when the chain is registered
    and not frozen, the core gateway when only the core knows the chain. *)
Definition delivers (st : State) (env : Env) (c : Config) (d : string) (g : Addr) : Prop :=
  (∃ e, chain_endpoints st !! d = Some e ∧ outgoing_frozen e = false ∧ g = gateway e) ∨
  (chain_endpoints st !! d = None ∧ is_chain_registered env d = Some true ∧
   g = axelarnet_gateway c).

Lemma destination_gateway_Ok st env c d g :
  destination_gateway st env c d = Ok g ↔ delivers st env c d g.
Proof.
  unfold destination_gateway, load_chain_by_chain_name, delivers. cbn.
  destruct (chain_endpoints st !! d) as [e|].
  - destruct (outgoing_frozen e) eqn:Ho; split.
    + done.
    + intros [(e' & [= <-] & ? & _)|[? _]]; congruence.
    + intros [= <-]. left. by exists e.
    + intros [(e' & [= <-] & _ & ->)|[? _]]; done.
  - split.
    + destruct (is_chain_registered env d) as [[]|]; cbn; [|done..]. intros [= <-]. by right.
    + intros [(e' & ? & _)|(_ & -> & ->)]; done.
Qed.

Lemma validate_msgs_Ok st c sender msgs msgs' :
  inv st → validate_msgs st c sender msgs = Ok msgs' ↔ msgs' = msgs ∧ may_send st c sender msgs.
Proof.
  intros Hi. unfold validate_msgs, may_send. case_bool_decide as Hs.
  - destruct (verify_msg_ids _ _) as [[]|e|] eqn:Hv; cbn.
    + apply verify_msg_ids_Ok in Hv. split; [intros [= <-]; auto|by intros [-> _]].
    + split; [done|]. intros (_ & [[_ Hv'%verify_msg_ids_Ok]|[? _]]); congruence.
    + split; [done|]. intros (_ & [[_ Hv'%verify_msg_ids_Ok]|[? _]]); congruence.
  - destruct (load_gateway_cases st sender Hi) as [[e He]|He]; rewrite He; cbn.
    + pose proof (proj1 (load_gateway_spec st sender e Hi) He) as [Hl Hg].
      assert (∀ e', chain_endpoints st !! name e' = Some e' ∧ gateway e' = sender → e' = e) as Hu.
      { intros e'. rewrite <-load_gateway_spec by done. congruence. }
      setoid_rewrite Forall_and. setoid_rewrite <-verify_msg_ids_Ok.
      assert (existsb (λ msg, bool_decide (source_chain (cc_id msg) ≠ name e)) msgs = false ↔
        Forall (λ m, source_chain (cc_id m) = name e) msgs) as Hsrc.
      { rewrite <-not_true_iff_false, existsb_exists, Forall_forall. split.
        - intros Hno m Hin. apply dec_stable. intros Hne. apply Hno. exists m.
          rewrite <-list_elem_of_In. split; [done|]. by apply bool_decide_eq_true.
        - intros Hall (m & Hin%list_elem_of_In & Hne%bool_decide_eq_true). by apply Hne, Hall. }
      destruct (incoming_frozen e) eqn:Hf; [split; [done|]; intros (_ & [[? _]|(_ & e' & ? & ? & ? & _)]);
        [done|]; assert (e' = e) as -> by eauto; congruence|].
      destruct (existsb _ _) eqn:Hex.
      * split; [done|]. intros (_ & [[? _]|(_ & e' & ? & ? & ? & Hall & _)]); [done|].
        assert (e' = e) as -> by eauto. apply Hsrc in Hall. congruence.
      * destruct (verify_msg_ids msgs (msg_id_format e)) as [[]|err|] eqn:Hv; cbn.
        -- split; [intros [= <-]; split; [done|]; right; split; [done|]|by intros [-> _]].
           exists e. split_and!; try done. by apply Hsrc.
        -- split; [done|]. intros (_ & [[? _]|(_ & e' & ? & ? & ? & _ & Hv')]); [done|].
           assert (e' = e) as -> by eauto. congruence.
        -- split; [done|]. intros (_ & [[? _]|(_ & e' & ? & ? & ? & _ & Hv')]); [done|].
           assert (e' = e) as -> by eauto. congruence.
    + split; [done|]. intros (_ & [[? _]|(_ & e' & He' & Hg & _)]); [done|].
      assert (load_chain_by_gateway st sender = Ok e') by by apply load_gateway_spec. congruence.
Qed.

(** Routing a batch, in terms of who may send and where messages are delivered to. *)
Lemma route_messages_spec (st : State) (env : Env) (sender : Addr) (msgs : list Message) :
  inv st →
  ∃ c, CONFIG st = Some c ∧
    (is_ok (route_messages st env sender msgs) = true ↔
       is_enabled st = true ∧ may_send st c sender msgs ∧
       Forall (λ m, ∃ g, delivers st env c (destination_chain m) g) msgs) ∧
    ∀ r, route_messages st env sender msgs = Ok r →
      events r = MessageRouted <$> msgs ∧
      mjoin ((λ '(RouteMessagesTo _ ms), ms) <$> messages r) = msgs ∧
      Forall (λ '(RouteMessagesTo g ms), ms ≠ [] ∧
        Forall (λ m, delivers st env c (destination_chain m) g) ms) (messages r).
Proof.
  intros Hi. destruct (inv_config _ Hi) as [c Hc]. exists c. split; [done|].
  set (send := λ '(d, ms), gateway ← destination_gateway st env c d;
                           Ok (RouteMessagesTo gateway ms)).
  assert (∀ r, route_messages st env sender msgs = Ok r ↔
    is_enabled st = true ∧ may_send st c sender msgs ∧
    ∃ out, try_map send (chunk_by destination_chain msgs) = Ok out ∧
      r = add_events (MessageRouted <$> msgs) (add_messages out Response_new)) as Hroute.
  { intros r. unfold route_messages, load_config. rewrite Hc. cbn. rewrite bind_Ok.
    setoid_rewrite ensure_Ok. setoid_rewrite bind_Ok. setoid_rewrite validate_msgs_Ok; [|done].
    setoid_rewrite bind_Ok. split.
    - intros (_ & Hen & ms & [-> Hsend] & out & Hout & [= <-]). split; [done|]. eauto.
    - intros (Hen & Hsend & out & Hout & ->). exists tt. split; [done|]. exists msgs. eauto. }
  pose proof (chunk_by_keys destination_chain msgs) as Hkeys.
  pose proof (chunk_by_concat destination_chain msgs) as Hconcat.
  split.
  - split.
    + intros [r Hr]%is_ok_true. apply Hroute in Hr as (Hen & Hs & out & Hout & _).
      split; [done|]. split; [done|]. rewrite <-Hconcat. apply Forall_join, Forall_fmap.
      apply try_map_Ok in Hout. apply Forall_lookup. intros i [d ms] Hi'. cbn.
      destruct (Forall2_lookup_l _ _ _ _ _ Hout Hi') as (y & _ & Hy). cbn in Hy. ok_inv.
      destruct (proj1 (Forall_lookup _ _) Hkeys _ _ Hi') as [_ Hd]. cbn in Hd.
      eapply Forall_impl; [exact Hd|]. intros m <-. eexists. by apply destination_gateway_Ok.
    + intros (Hen & Hs & Hall).
      assert (∃ out, try_map send (chunk_by destination_chain msgs) = Ok out) as [out Hout].
      { rewrite <-Hconcat in Hall. clear -Hall Hkeys. unfold send.
        induction (chunk_by destination_chain msgs) as [|[d ms] cs IH]; [by exists []|].
        apply Forall_cons in Hkeys as [[Hne Hd] Hkeys]. csimpl in Hall. apply Forall_app in Hall as [Hms Hall].
        destruct (IH Hkeys Hall) as [out Hout]. destruct ms as [|m ms]; [done|].
        apply Forall_cons in Hms as [[g Hg] _]. apply Forall_cons in Hd as [Hd _]. cbn in Hd.
        rewrite Hd in Hg. apply destination_gateway_Ok in Hg. cbn. rewrite Hg. cbn.
        rewrite Hout. cbn. eauto. }
      assert (route_messages st env sender msgs = Ok (add_events (MessageRouted <$> msgs)
        (add_messages out Response_new))) as -> by (apply Hroute; eauto 10). done.
  - intros r (_ & _ & out & Hout & ->)%Hroute. cbn. split; [done|].
    apply try_map_Ok in Hout. rewrite <-Hconcat at 1. clear Hconcat Hroute.
    induction Hout as [|[d ms] y cs ys Hy Hout IH]; csimpl; [by split|].
    apply Forall_cons in Hkeys as [[Hne Hd] Hkeys]. destruct (IH Hkeys) as [Hj Hall].
    cbn in Hy. ok_inv. cbn in *. split; [by rewrite Hj|]. constructor; [|done].
    split; [done|]. eapply Forall_impl; [exact Hd|]. intros m <-. by apply destination_gateway_Ok.
Qed.

(** C13: What the router lets through, and where it goes.  In every reachable storage,
    routing a batch succeeds exactly when routing is enabled, the sender may send the
    batch (the core gateway, or the gateway of the messages' own source chain while that
    chain is not frozen for incoming messages, with identifiers in the chain's format)
    and every destination can be delivered to.  On success the outgoing calls carry all
    messages of the batch, in order and once each, in non-empty groups, every group to
    the gateway of the destination of each of its messages; one event is emitted per
    message. *)
Theorem route_messages_exact (st : State) (env : Env) (sender : Addr) (msgs : list Message) :
  reachable st →
  ∃ c, CONFIG st = Some c ∧
    (is_ok (route_messages st env sender msgs) = true ↔
       is_enabled st = true ∧ may_send st c sender msgs ∧
       Forall (λ m, ∃ g, delivers st env c (destination_chain m) g) msgs) ∧
    ∀ r, route_messages st env sender msgs = Ok r →
      events r = MessageRouted <$> msgs ∧
      mjoin ((λ '(RouteMessagesTo _ ms), ms) <$> messages r) = msgs ∧
      Forall (λ '(RouteMessagesTo g ms), ms ≠ [] ∧
        Forall (λ m, delivers st env c (destination_chain m) g) ms) (messages r).
Proof. intros Hi%router_reachable_inv. by apply route_messages_spec. Qed.

(** ** Freezing *)

Lemma contains_bit s b : 0 ≤ b → permission_control.contains s (2 ^ b) = Z.testbit s b.
Proof.
  intros Hb0. unfold permission_control.contains. apply eq_true_iff_eq.
  rewrite bool_decide_eq_true. split.
  - intros Heq. assert (Z.testbit (Z.land s (2 ^ b)) b = true) as Hb
      by (rewrite Heq; by apply Z.pow2_bits_true).
    rewrite Z.land_spec in Hb. by apply andb_true_iff in Hb as [Hb _].
  - intros Hb. apply Z.bits_inj'. intros n Hn. rewrite Z.land_spec.
    destruct (decide (n = b)) as [->|Hne]; [by rewrite Hb|].
    rewrite (Z.pow2_bits_false b n) by congruence. by rewrite andb_false_r.
Qed.

(** A flag of a chain, incoming or outgoing, as the bit of its status. *)
Lemma endpoint_flag (d : Z) :
  d = Incoming ∨ d = Outgoing →
  ∃ b, 0 ≤ b ∧ ∀ s, permission_control.contains s d = Z.testbit s b.
Proof.
  intros [-> | ->]; [exists 0|exists 1]; (split; [done|]); intros s;
    [by apply (contains_bit s 0)|by apply (contains_bit s 1)].
Qed.

(** A frozen chain stays frozen until an administrator unfreezes it.  If a chain is
    frozen in a direction in a reachable storage, a call after which it is not registered
    and frozen in that direction is a request to unfreeze this chain in a direction that
    includes it, sent by the administrator or by governance; in particular neither an
    upgrade of its gateway nor a new registration clears the flag. *)
Theorem frozen_until_unfrozen (st st' : State) (env : Env) (sender : Addr)
    (m : msgs_derive.ExecuteMsgFromProxy ExecuteMsg) (r : RResponse) (k : string)
    (e : ChainEndpoint) (d : Z) :
  reachable st → msg_wf (msgs_derive.relayed m) → execute st env sender m = Ok (st', r) →
  chain_endpoints st !! k = Some e → d = Incoming ∨ d = Outgoing →
  permission_control.contains (frozen_status e) d = true →
  (∃ e', chain_endpoints st' !! k = Some e' ∧
         permission_control.contains (frozen_status e') d = true) ∨
  (∃ chains dir, m = msgs_derive.Direct (UnfreezeChains chains) ∧ (k, dir) ∈ chains ∧
     permission_control.contains dir d = true ∧
     (permission_control.ADMIN (perm st) = Some sender ∨
      permission_control.GOVERNANCE (perm st) = Some sender)).
Proof.
  intros Hr Hm Hf Hk Hd Hfr. pose proof (router_reachable_inv _ Hr) as Hi.
  destruct (endpoint_flag d Hd) as (b & Hb0 & Hb). rewrite Hb in Hfr.
  destruct (execute_Ok _ _ _ _ _ _ Hi Hm Hf) as (sender' & Hauth & Hcase).
  destruct (msgs_derive.relayed m) as [n a fmt|n a|chains|chains| | |msgs] eqn:Hrel.
  - left. destruct Hcase as (g & _ & Hn & _ & _ & ->). exists e. rewrite Hb. cbn.
    by rewrite lookup_insert_ne by congruence.
  - left. destruct Hcase as (g & e0 & _ & Hn & _ & ->). cbn. destruct (decide (n = k)) as [->|Hne].
    + simplify_eq. eexists. rewrite lookup_insert_eq, Hb. done.
    + exists e. by rewrite Hb, lookup_insert_ne.
  - left. destruct Hcase as (_ & _ & _ & Hup). rewrite Hup, Hk. eexists. split; [done|].
    rewrite Hb. cbn. by rewrite Z.lor_spec, Hfr.
  - destruct Hcase as (_ & _ & _ & Hup).
    destruct ((list_to_map chains : gmap string Z) !! k) as [dir|] eqn:Hdir.
    + destruct (Z.testbit dir b) eqn:Hbit.
      * right. exists chains, dir. apply elem_of_list_to_map_2 in Hdir.
        unfold authorize in Hauth. destruct m as [o m|m]; cbn in Hrel; subst.
        -- apply msgs_derive.authorize_relay in Hauth as (_ & _ & _ & n & _ & Hin). by inversion Hin.
        -- apply msgs_derive.authorize_direct in Hauth as (_ & _ & Hp).
           apply msgs_derive.ensure_permissions_general in Hp as [Hp|Hp]; [by vm_compute in Hp| |done].
           cbn in Hp. rewrite Z.lor_0_r in Hp. apply msgs_derive.land_elevated in Hp.
           by rewrite Hb.
      * left. rewrite Hup, Hk, Hdir. eexists. split; [done|]. rewrite Hb. cbn.
        by rewrite Z.ldiff_spec, Hfr, Hbit.
    + left. rewrite Hup, Hk, Hdir. eexists. split; [done|]. rewrite Hb. cbn. by rewrite Z.ldiff_0_r.
  - left. subst. rewrite <-Hb in Hfr. eauto.
  - left. subst. rewrite <-Hb in Hfr. eauto.
  - left. destruct Hcase as [-> _]. rewrite <-Hb in Hfr. eauto.
Qed.

(** Freezing and unfreezing do the same whatever the order in which the requested map
    is visited.  For a map of chains to directions, freezing succeeds exactly when every
    chain of the map is registered; it then adds the requested direction to the status of
    each of them and changes nothing else, and it emits one event per chain.  Unfreezing
    is the same with the direction removed. *)
Theorem freeze_unfreeze_exact (st : State) (chains : list (string * Z)) :
  NoDup chains.*1 →
  (is_ok (freeze_chains st chains) = true ↔
     Forall (λ p, is_Some (chain_endpoints st !! p.1)) chains) ∧
  (is_ok (unfreeze_chains st chains) = true ↔
     Forall (λ p, is_Some (chain_endpoints st !! p.1)) chains) ∧
  (∀ st' r, freeze_chains st chains = Ok (st', r) →
     update_status Z.lor st chains st' ∧ messages r = [] ∧
     events r = (λ p, ChainFrozenEvent p.1 p.2) <$> chains) ∧
  (∀ st' r, unfreeze_chains st chains = Ok (st', r) →
     update_status Z.ldiff st chains st' ∧ messages r = [] ∧
     events r = (λ p, ChainUnfrozenEvent p.1 p.2) <$> chains).
Proof.
  intros Hnd.
  destruct (for_chains_exact Z.lor Z.lor_0_r ChainFrozenEvent _ freeze_specific_spec st chains Hnd)
    as [Hok Hex].
  destruct (for_chains_exact Z.ldiff Z.ldiff_0_r ChainUnfrozenEvent _ unfreeze_specific_spec st
    chains Hnd) as [Hok' Hex'].
  unfold freeze_chains, unfreeze_chains. split_and!.
  - rewrite <-Hok. destruct (for_chains freeze_specific_chain _ _) as [[]| |]; cbn; tauto.
  - rewrite <-Hok'. destruct (for_chains unfreeze_specific_chain _ _) as [[]| |]; cbn; tauto.
  - intros st' r Hf. destruct (for_chains freeze_specific_chain _ _) as [[st1 evs]| |];
      cbn in Hf; ok_inv; simplify_eq.
    destruct (Hex _ _ eq_refl) as [? ->]. done.
  - intros st' r Hf. destruct (for_chains unfreeze_specific_chain _ _) as [[st1 evs]| |];
      cbn in Hf; ok_inv; simplify_eq.
    destruct (Hex' _ _ eq_refl) as [? ->]. done.
Qed.

(** ** The registry over time *)

(** The chain registry is consistent in every reachable storage and only grows.  The
    look-up of a chain by gateway never panics and finds exactly the chain registered
    under its own name with that gateway, so no two chains share a gateway; a call never
    removes a chain nor changes its identifier format, and it changes the gateway only
    for governance. *)
Theorem registry_consistent (st st' : State) (env : Env) (sender : Addr)
    (m : msgs_derive.ExecuteMsgFromProxy ExecuteMsg) (r : RResponse) :
  reachable st → msg_wf (msgs_derive.relayed m) → execute st env sender m = Ok (st', r) →
  (∀ a, ∃ o, @find_chain_for_gateway Error st' a = Ok o ∧
     ∀ e, o = Some e ↔ chain_endpoints st' !! name e = Some e ∧ gateway e = a) ∧
  ∀ k e, chain_endpoints st !! k = Some e →
    ∃ e', chain_endpoints st' !! k = Some e' ∧ name e' = k ∧
      msg_id_format e' = msg_id_format e ∧
      (gateway e' = gateway e ∨
       permission_control.GOVERNANCE (perm st) = Some sender).
Proof.
  intros Hr Hm Hf. pose proof (router_reachable_inv _ Hr) as Hi. split.
  { intros a. apply index_load_spec. by eapply router_inv_execute. }
  intros k e Hk. pose proof (inv_name _ Hi _ _ Hk) as Hname.
  destruct (execute_Ok _ _ _ _ _ _ Hi Hm Hf) as (sender' & Hauth & Hcase).
  destruct (msgs_derive.relayed m) as [n a fmt|n a|chains|chains| | |msgs] eqn:Hrel.
  - destruct Hcase as (g & _ & Hn & _ & _ & ->). exists e. cbn.
    rewrite lookup_insert_ne by congruence. auto.
  - destruct Hcase as (g & e0 & _ & Hn & _ & ->). cbn. destruct (decide (n = k)) as [->|Hne].
    + assert (e0 = e) as -> by congruence. eexists. rewrite lookup_insert_eq. split; [done|]. cbn.
      split_and!; try done. right. unfold authorize in Hauth.
      destruct m as [o m|m]; cbn in Hrel; subst.
      * apply msgs_derive.authorize_relay in Hauth as (_ & _ & _ & n & _ & Hin). by inversion Hin.
      * apply msgs_derive.authorize_direct in Hauth as (_ & _ & Hp).
        apply msgs_derive.ensure_permissions_general in Hp as [Hp|Hp]; [by vm_compute in Hp| |done].
        cbn in Hp. rewrite Z.lor_0_r in Hp. by apply msgs_derive.land_governance in Hp.
    + exists e. rewrite lookup_insert_ne by done. auto.
  - destruct Hcase as (_ & _ & _ & Hup). rewrite Hup, Hk. eexists. split; [done|]. auto.
  - destruct Hcase as (_ & _ & _ & Hup). rewrite Hup, Hk. eexists. split; [done|]. auto.
  - subst. eauto 10.
  - subst. eauto 10.
  - destruct Hcase as [-> _]. eauto 10.
Qed.

(** A message that the core gateway sends to a chain only the core knows is sent back
    to the core gateway: the case of an unknown destination does not look at the sender. *)
Theorem core_message_returns_to_core (st : State) (env : Env) (c : Config) (m : Message) :
  CONFIG st = Some c → is_enabled st = true →
  chain_endpoints st !! destination_chain m = None →
  is_chain_registered env (destination_chain m) = Some true →
  msg_id.verify_msg_id (message_id (cc_id m)) msg_id.HexTxHashAndEventIndex = Ok tt →
  ∃ r, route_messages st env (axelarnet_gateway c) [m] = Ok r ∧
    messages r = [RouteMessagesTo (axelarnet_gateway c) [m]].
Proof.
  intros Hc Hen Hd Hn Hid. unfold route_messages, load_config.
  unfold is_enabled in Hen. rewrite Hen, Hc. cbn.
  unfold validate_msgs. rewrite bool_decide_eq_true_2 by done.
  rewrite (proj2 (verify_msg_ids_Ok [m] _)) by by constructor. cbn.
  assert (destination_gateway st env c (destination_chain m) = Ok (axelarnet_gateway c)) as ->
    by (apply destination_gateway_Ok; right; done).
  cbn. eauto.
Qed.

(** ** Pagination *)

Lemma filter_after_app (l1 l2 : list (string * ChainEndpoint)) k e :
  StronglySorted key_le (l1 ++ (k, e) :: l2) → NoDup (l1 ++ (k, e) :: l2).*1 →
  filter (after (Some k)) (l1 ++ (k, e) :: l2) = l2.
Proof.
  induction l1 as [|[k1 e1] l1 IH]; intros Hs Hnd; cbn [app] in *; csimpl in Hnd;
    apply StronglySorted_inv in Hs as [Hs Hle];
    apply NoDup_cons in Hnd as [Hnot Hnd].
  - rewrite filter_cons_False by (cbn; auto). clear Hs.
    induction l2 as [|[k2 e2] l2 IH]; [done|]. csimpl in Hnot. csimpl in Hnd.
    apply Forall_cons in Hle as [Hle2 Hle]. apply not_elem_of_cons in Hnot as [Hne Hnot].
    apply NoDup_cons in Hnd as [_ Hnd].
    rewrite filter_cons_True, IH; try done. cbn. intros Hle'. by apply Hne, (anti_symm String.le).
  - rewrite filter_cons_False; [by apply IH|]. cbn. intros Hn. apply Hn.
    apply Forall_app in Hle as [_ Hle]. apply Forall_cons in Hle as [Hle _]. exact Hle.
Qed.

(** The key a client passes on: the last one of the page, or the one it had. *)
Definition next_start (start_after : option string) (page : list ChainEndpoint) : option string :=
  match last page with Some e => Some (name e) | None => start_after end.

Lemma after_next st start n :
  inv st →
  filter (after (next_start start (chains st start n))) (entries (chain_endpoints st)) =
  drop n (filter (after start) (entries (chain_endpoints st))).
Proof.
  intros Hi. unfold chains, next_start. set (l := entries _). set (f := filter (after start) l).
  destruct (last (take n f)) as [[k e]|] eqn:Hlast.
  - rewrite fmap_last, Hlast. cbn.
    apply last_Some in Hlast as [p' Hp'].
    assert (f = p' ++ (k, e) :: drop n f) as Hf.
    { rewrite <-(take_drop n f) at 1. rewrite Hp'. by rewrite <-app_assoc. }
    assert ((k, e) ∈ f) as Hin by (rewrite Hf; set_solver).
    apply list_elem_of_filter in Hin as [Hafter Hin]. apply elem_of_entries in Hin.
    rewrite (inv_name _ Hi _ _ Hin).
    assert (filter (after (Some k)) l = filter (after (Some k)) f) as ->.
    { unfold f. rewrite list_filter_filter. apply list_filter_iff. intros [k' e']. cbn. split; [|tauto].
      intros Hk'. split; [done|]. destruct start as [s0|]; cbn in *; [|done].
      intros Hle. destruct (total String.le k' k) as [?|?]; [done|]. apply Hafter. by etrans. }
    rewrite Hf at 1. apply filter_after_app; rewrite <-Hf.
    + eapply StronglySorted_sublist; [apply sublist_filter|apply entries_sorted].
    + eapply sublist_NoDup; [apply (entries_NoDup_fst (chain_endpoints st))|];
      apply fmap_sublist, sublist_filter.
  - rewrite fmap_last, Hlast. cbn. apply last_None in Hlast.
    destruct n; [done|]. fold f. clearbody f. by destruct f.
Qed.

(** Paging through the chains lists every chain once, in order.  In every reachable
    storage, a page of [n] chains followed by the page of [m] chains that starts after
    the last one of it is the page of [n + m] chains, and an unlimited page from the
    start holds every registered chain. *)
Theorem pagination_complete (st : State) (start : option string) (n m : nat) :
  reachable st →
  chains st start (n + m) =
    chains st start n ++ chains st (next_start start (chains st start n)) m ∧
  ((size (chain_endpoints st) ≤ n)%nat →
     chains st None n = snd <$> entries (chain_endpoints st)).
Proof.
  intros Hi%router_reachable_inv. split.
  - unfold chains at 3. rewrite after_next by done. unfold chains.
    by rewrite <-fmap_app, take_take_drop.
  - intros Hn. unfold chains.
    assert (∀ l, filter (after None) l = l) as -> by (induction l; [done|];
      rewrite filter_cons_True by done; by f_equal).
    rewrite take_ge; [done|]. by rewrite entries_length.
Qed.

End contract.
End router.

(** ** A run of the contract *)
Module router_run.
Import router_api router.

Definition run_api : Api := {| addr_validate := λ s, Ok s |}.
Definition run_bech32 : Bech32Codec := Build_Bech32Codec (λ _, true) (λ _ _, true) (λ _, None).
#[local] Existing Instances run_api run_bech32.

(** The core knows the chain "cosmos" only. *)
Definition run_env : Env := mkEnv (λ c, Some (bool_decide (c = "cosmos"))).

Definition next (st : State) (sender : Addr) (m : ExecuteMsg) : State :=
  match execute st run_env sender (msgs_derive.Direct m) with Ok (st', _) => st' | _ => st end.

Definition run0 : State :=
  match instantiate (mkInstantiate "admin" "gov" "core" "coord") with
  | Ok (st, _) => st
  | _ => mkState (permission_control.mkStorage None None) None None ∅
  end.
Definition run1 : State :=
  next run0 "gov" (RegisterChain "eth" "gw-eth" msg_id.HexTxHashAndEventIndex).
Definition run2 : State :=
  next run1 "gov" (RegisterChain "sui" "gw-sui" msg_id.Base58TxDigestAndEventIndex).
Definition run3 : State := next run2 "admin" (FreezeChains [("sui", Outgoing)]).

Lemma router_step_next st sender m :
  msg_wf m → is_ok (execute st run_env sender (msgs_derive.Direct m)) = true →
  step st (next st sender m).
Proof.
  intros Hm [[st' r] Hf]%is_ok_true. unfold next. rewrite Hf.
  by exists run_env, sender, (msgs_derive.Direct m), r.
Qed.

Lemma router_execute_next st sender m :
  is_ok (execute st run_env sender (msgs_derive.Direct m)) = true →
  ∃ r, execute st run_env sender (msgs_derive.Direct m) = Ok (next st sender m, r).
Proof. unfold next. intros [[st' r] ->]%is_ok_true. eauto. Qed.

Lemma run_chains_wf d : direction_wf d → chains_wf [("sui", d)].
Proof.
  intros Hd. split; [apply NoDup_singleton|]. by apply Forall_singleton.
Qed.

Lemma router_run2_reachable : reachable run2.
Proof.
  apply (reachable_step run1); [|apply router_step_next; [done|vm_compute; reflexivity]].
  apply (reachable_step run0); [|apply router_step_next; [done|vm_compute; reflexivity]].
  apply (reachable_init (mkInstantiate "admin" "gov" "core" "coord") run0
    (add_event (RouterInstantiated "admin" "gov" "core" "coord") Response_new)).
  vm_compute. reflexivity.
Qed.

Lemma router_run3_reachable : reachable run3.
Proof.
  apply (reachable_step run2); [apply router_run2_reachable|].
  apply router_step_next; [by apply run_chains_wf|vm_compute; reflexivity].
Qed.

Definition zeros (n : nat) : string := String.string_of_list_ascii (replicate n "0"%char).
Definition msg_to (d : string) : Message :=
  mkMessage (mkCcId "eth" ("0x" +:+ zeros 64 +:+ "-0")) "a" d "b" (zeros 32).

(** Two messages to the same chain are one call. *)
Lemma route_messages_exact_witness :
  ∃ r, route_messages run2 run_env "gw-eth" [msg_to "sui"; msg_to "sui"; msg_to "cosmos"] = Ok r ∧
    mjoin ((λ '(RouteMessagesTo _ ms), ms) <$> messages r) =
      [msg_to "sui"; msg_to "sui"; msg_to "cosmos"] ∧ length (messages r) = 2%nat.
Proof.
  destruct (route_messages_exact run2 run_env "gw-eth" [msg_to "sui"; msg_to "sui"; msg_to "cosmos"]
    router_run2_reachable) as (c & _ & _ & Hr).
  destruct (is_ok_true (route_messages run2 run_env "gw-eth"
    [msg_to "sui"; msg_to "sui"; msg_to "cosmos"])) as [r Hf]; [vm_compute; reflexivity|].
  exists r. destruct (Hr r Hf) as (_ & Hj & _). split; [exact Hf|]. split; [exact Hj|].
  assert (length <$> (messages <$> route_messages run2 run_env "gw-eth"
    [msg_to "sui"; msg_to "sui"; msg_to "cosmos"]) = Ok 2%nat) as Hlen by (vm_compute; reflexivity).
  rewrite Hf in Hlen. by injection Hlen.
Defined.

(** Upgrading the gateway of a frozen chain leaves it frozen. *)
Lemma frozen_until_unfrozen_witness :
  let st' := next run3 "gov" (UpgradeGateway "sui" "gw-sui-2") in
  ∃ e, chain_endpoints st' !! "sui" = Some e ∧ outgoing_frozen e = true.
Proof.
  destruct (router_execute_next run3 "gov" (UpgradeGateway "sui" "gw-sui-2")) as [r Hf];
    [vm_compute; reflexivity|].
  destruct (frozen_until_unfrozen run3 _ run_env "gov"
    (msgs_derive.Direct (UpgradeGateway "sui" "gw-sui-2")) r "sui"
    (mkEndpoint "sui" "gw-sui" Outgoing msg_id.Base58TxDigestAndEventIndex) Outgoing
    router_run3_reachable I Hf) as [(e' & He' & Hfr)|(chains & dir & Hm & _)];
    [vm_compute; reflexivity|by right|vm_compute; reflexivity|exists e'; exact (conj He' Hfr)|
     discriminate Hm].
Defined.

Lemma freeze_unfreeze_exact_witness :
  is_ok (freeze_chains run2 [("sui", Outgoing)]) = true ∧
  is_ok (freeze_chains run2 [("cosmos", Outgoing)]) = false.
Proof.
  split; [|vm_compute; reflexivity].
  apply (freeze_unfreeze_exact run2 [("sui", Outgoing)]); [apply NoDup_singleton|].
  apply Forall_singleton. eexists. vm_compute. reflexivity.
Defined.

Lemma registry_consistent_witness :
  ∃ e', chain_endpoints run3 !! "eth" = Some e' ∧ gateway e' = "gw-eth".
Proof.
  destruct (router_execute_next run2 "admin" (FreezeChains [("sui", Outgoing)])) as [r Hf];
    [vm_compute; reflexivity|].
  destruct (registry_consistent run2 (next run2 "admin" (FreezeChains [("sui", Outgoing)])) run_env
    "admin" (msgs_derive.Direct (FreezeChains [("sui", Outgoing)])) r router_run2_reachable
    (run_chains_wf Outgoing ltac:(split; discriminate)) Hf) as [_ Hk].
  destruct (Hk "eth" (mkEndpoint "eth" "gw-eth" DirectionNone msg_id.HexTxHashAndEventIndex))
    as (e' & He' & _ & _ & [Hg|Hgov]); [vm_compute; reflexivity| |].
  - exists e'. exact (conj He' Hg).
  - vm_compute in Hgov. discriminate Hgov.
Defined.

Lemma core_message_returns_to_core_witness :
  ∃ r, route_messages run2 run_env "core" [msg_to "cosmos"] = Ok r ∧
    messages r = [RouteMessagesTo "core" [msg_to "cosmos"]].
Proof.
  apply (core_message_returns_to_core run2 run_env (mkConfig "core" "coord") (msg_to "cosmos"));
    vm_compute; reflexivity.
Defined.

Lemma pagination_complete_witness :
  name <$> chains run2 None 1 = ["eth"] ∧
  chains run2 None 2 = chains run2 None 1 ++ chains run2 (Some "eth") 1.
Proof.
  split; [vm_compute; reflexivity|].
  exact (proj1 (pagination_complete run2 None 1 1 router_run2_reachable)).
Defined.

End router_run.
