(* ===== verification/Rewards.v ===== *)
(** * The rewards contract

    [contracts/rewards/src]: epochs, tallies and pools ([state.rs]), the handlers
    ([contract/execute.rs]), the queries ([contract/query.rs]) and the entry points with
    their permissions ([contract.rs], [msg.rs]). *)

From S2P Require Import Prelude Std.

Module rewards.

Inductive ContractError :=
  | UpdateRewardsPool
  | RewardsPoolNotFound
  | RewardsPoolAlreadyExists
  | BlockHeightInPast
  | Overflow
  | PoolBalanceInsufficient
  | NoRewardsToDistribute
  | WrongDenom
  | ZeroRewards.

(** ** Data ([state.rs], [msg.rs]) *)

Record Params := mkParams {
  epoch_duration : Z;
  rewards_per_epoch : Z;
  participation_threshold : threshold.Threshold
}.

Record Epoch := mkEpoch { epoch_num : Z; block_height_started : Z }.

Record ParamsSnapshot := mkParamsSnapshot { params : Params; created_at : Epoch }.

Record PoolId := mkPoolId { chain_name : string; contract : Addr }.
#[global] Instance PoolId_eq_dec : EqDecision PoolId.
Proof. solve_decision. Defined.
#[global] Instance PoolId_countable : Countable PoolId.
Proof.
  apply (inj_countable' (λ p, (chain_name p, contract p)) (λ p, mkPoolId p.1 p.2)). by intros [].
Defined.

Record EpochTally := mkTally {
  tally_pool_id : PoolId;
  event_count : Z;
  participation : gmap string Z;
  epoch : Epoch;
  tally_params : Params
}.

Record Event := mkEvent { event_id : string; event_pool_id : PoolId; event_epoch_num : Z }.

Record RewardsPool := mkPool { id : PoolId; balance : Z; pool_params : ParamsSnapshot }.

Record Verifier := mkVerifier { verifier_address : Addr; proxy_address : option Addr }.

Record RewardsDistribution := mkDistribution {
  distributed : list (Verifier * Z);
  epochs_processed : list Z;
  current_epoch : Epoch;
  can_distribute_more : bool
}.

Record State := mkState {
  perm : permission_control.Storage;
  CONFIG : option string;
  TALLIES : gmap (PoolId * Z) EpochTally;
  EVENTS : gmap (string * PoolId) Event;
  POOLS : gmap PoolId RewardsPool;
  WATERMARKS : gmap PoolId Z;
  VERIFIER_PROXY_ADDRESSES : gmap string Addr
}.

Definition set_tallies (st : State) m : State :=
  mkState (perm st) (CONFIG st) m (EVENTS st) (POOLS st) (WATERMARKS st)
    (VERIFIER_PROXY_ADDRESSES st).
Definition set_events (st : State) m : State :=
  mkState (perm st) (CONFIG st) (TALLIES st) m (POOLS st) (WATERMARKS st)
    (VERIFIER_PROXY_ADDRESSES st).
Definition set_pools (st : State) m : State :=
  mkState (perm st) (CONFIG st) (TALLIES st) (EVENTS st) m (WATERMARKS st)
    (VERIFIER_PROXY_ADDRESSES st).
Definition set_watermarks (st : State) m : State :=
  mkState (perm st) (CONFIG st) (TALLIES st) (EVENTS st) (POOLS st) m
    (VERIFIER_PROXY_ADDRESSES st).
Definition set_proxies (st : State) m : State :=
  mkState (perm st) (CONFIG st) (TALLIES st) (EVENTS st) (POOLS st) (WATERMARKS st) m.

(** ** Tallies *)

Definition EpochTally_new (pool_id : PoolId) (epoch : Epoch) (params : Params) : EpochTally :=
  mkTally pool_id 0 ∅ epoch params.

(** [EpochTally::record_participation] *)
Definition tally_record (self : EpochTally) (verifier : Addr) : EpochTally :=
  let count := match participation self !! verifier with
               | Some count => saturating_add u64_max count 1
               | None => 1
               end in
  mkTally (tally_pool_id self) (event_count self) (<[verifier := count]> (participation self))
    (epoch self) (tally_params self).

(** Whether a verifier met the threshold. *)
Definition meets_threshold (self : EpochTally) (participated : Z) : bool :=
  match threshold.try_from (participated, event_count self) with
  | Ok participation => threshold.ge participation (participation_threshold (tally_params self))
  | _ => false
  end.

(** The source iterates a [HashMap]; [map_to_list] stands for its order. *)
Definition verifiers_to_reward (self : EpochTally) : list Addr :=
  omap (λ '(verifier, participated),
    if meets_threshold self participated then Some verifier else None)
    (map_to_list (participation self)).

Definition rewards_by_verifier (self : EpochTally) : gmap string Z :=
  let verifiers := verifiers_to_reward self in
  let total_rewards := rewards_per_epoch (tally_params self) in
  let rewards_per_verifier :=
    default 0 (checked_div total_rewards (Z.of_nat (length verifiers))) in
  if bool_decide (rewards_per_verifier = 0) then ∅
  else list_to_map ((λ verifier, (verifier, rewards_per_verifier)) <$> verifiers).

(** [Epoch::current] *)
Definition Epoch_current (current_params : ParamsSnapshot) (cur_block_height : Z)
    : result ContractError Epoch :=
  let duration := epoch_duration (params current_params) in
  let last_updated_epoch := created_at current_params in
  if bool_decide (cur_block_height < block_height_started last_updated_epoch)
  then Err BlockHeightInPast
  else
    epochs_elapsed ← expect (checked_div
      (saturating_sub cur_block_height (block_height_started last_updated_epoch)) duration);
    epoch_num ← expect (checked_add u64_max (epoch_num last_updated_epoch) epochs_elapsed);
    started ← expect (checked_add u64_max (block_height_started last_updated_epoch)
                        (saturating_mul u64_max epochs_elapsed duration));
    Ok (mkEpoch epoch_num started).

(** [RewardsPool::sub_reward] *)
Definition sub_reward (self : RewardsPool) (reward : Z) : result ContractError RewardsPool :=
  b ← ok_or PoolBalanceInsufficient (checked_sub (balance self) reward);
  Ok (mkPool (id self) b (pool_params self)).

(** ** Storage accessors *)

Definition load_config {E} (st : State) : result E string := expect (CONFIG st).

Definition load_rewards_watermark (st : State) (pool_id : PoolId) : option Z :=
  WATERMARKS st !! pool_id.

Definition load_event (st : State) (event_id : string) (pool_id : PoolId) : option Event :=
  EVENTS st !! (event_id, pool_id).

Definition load_epoch_tally (st : State) (pool_id : PoolId) (epoch_num : Z) : option EpochTally :=
  TALLIES st !! (pool_id, epoch_num).

Definition load_rewards_pool (st : State) (pool_id : PoolId) : result ContractError RewardsPool :=
  ok_or RewardsPoolNotFound (POOLS st !! pool_id).

Definition load_rewards_pool_params (st : State) (pool_id : PoolId)
    : result ContractError ParamsSnapshot :=
  pool_params <$> ok_or RewardsPoolNotFound (POOLS st !! pool_id).

Definition save_rewards_watermark (st : State) (pool_id : PoolId) (epoch_num : Z) : State :=
  set_watermarks st (<[pool_id := epoch_num]> (WATERMARKS st)).

Definition save_event (st : State) (event : Event) : State :=
  set_events st (<[(event_id event, event_pool_id event) := event]> (EVENTS st)).

Definition save_epoch_tally (st : State) (tally : EpochTally) : State :=
  set_tallies st (<[(tally_pool_id tally, epoch_num (epoch tally)) := tally]> (TALLIES st)).

Definition save_rewards_pool (st : State) (pool : RewardsPool) : State :=
  set_pools st (<[id pool := pool]> (POOLS st)).

Definition state_update_pool_params (st : State) (pool_id : PoolId)
    (updated_params : ParamsSnapshot) : result ContractError State :=
  pool ← map_err (λ _, UpdateRewardsPool) (ok_or RewardsPoolNotFound (POOLS st !! pool_id));
  Ok (set_pools st (<[pool_id := mkPool pool_id (balance pool) updated_params]> (POOLS st))).

Definition pool_exists (st : State) (pool_id : PoolId) : bool :=
  bool_decide (is_Some (POOLS st !! pool_id)).

Definition state_current_epoch (st : State) (pool_id : PoolId) (cur_block_height : Z)
    : result ContractError Epoch :=
  p ← load_rewards_pool_params st pool_id;
  Epoch_current p cur_block_height.

Definition save_verifier_proxy (st : State) (proxy_address verifier_addr : Addr) : State :=
  set_proxies st (<[verifier_addr := proxy_address]> (VERIFIER_PROXY_ADDRESSES st)).

Definition state_remove_verifier_proxy (st : State) (verifier_addr : Addr) : State :=
  set_proxies st (delete verifier_addr (VERIFIER_PROXY_ADDRESSES st)).

Definition may_load_verifier_proxy (st : State) (verifier_addr : Addr) : option Addr :=
  VERIFIER_PROXY_ADDRESSES st !! verifier_addr.

Definition load_verifier (st : State) (verifier_addr : Addr) : Verifier :=
  mkVerifier verifier_addr (may_load_verifier_proxy st verifier_addr).

(** ** Handlers ([contract/execute.rs]) *)

Definition DEFAULT_EPOCHS_TO_PROCESS : Z := 10.
Definition EPOCH_PAYOUT_DELAY : Z := 2.

Inductive StorageState (T : Type) := Existing (value : T) | New (value : T).
Arguments Existing {T} value.
Arguments New {T} value.
Definition deref {T} (s : StorageState T) : T := match s with Existing v | New v => v end.

Definition load_or_store_event (st : State) (event_id : string) (pool_id : PoolId)
    (cur_epoch_num : Z) : State * StorageState Event :=
  match load_event st event_id pool_id with
  | None =>
      let event := mkEvent event_id pool_id cur_epoch_num in
      (save_event st event, New event)
  | Some event => (st, Existing event)
  end.

Definition record_participation (st : State) (event_id : string) (verifier : Addr)
    (pool_id : PoolId) (block_height : Z) : result ContractError State :=
  current_params ← load_rewards_pool_params st pool_id;
  cur_epoch ← Epoch_current current_params block_height;
  let '(st, event) := load_or_store_event st event_id pool_id (epoch_num cur_epoch) in
  let tally := default (EpochTally_new pool_id cur_epoch (params current_params))
    (load_epoch_tally st pool_id (event_epoch_num (deref event))) in
  let tally := tally_record tally verifier in
  let tally := match event with
               | New _ => mkTally (tally_pool_id tally)
                            (saturating_add u64_max (event_count tally) 1)
                            (participation tally) (epoch tally) (tally_params tally)
               | Existing _ => tally
               end in
  Ok (save_epoch_tally st tally).

(** [merge_rewards]: a fold over the entries of the second map. *)
Definition merge_rewards (rewards_1 rewards_2 : gmap string Z)
    : result ContractError (gmap string Z) :=
  try_fold (λ rewards '(addr, amt),
    r ← ok_or Overflow (checked_add u128_max (default 0 (rewards !! addr)) amt);
    Ok (<[addr := r]> rewards)) rewards_1 (map_to_list rewards_2).

(** The tallies of the inclusive range of epochs. *)
Definition iterate_epoch_tallies (st : State) (pool_id : PoolId) (from to : Z)
    : list EpochTally :=
  omap (load_epoch_tally st pool_id) (seqZ from (to - from + 1)).

Definition cumulate_rewards (st : State) (pool_id : PoolId) (from to : Z)
    : result ContractError (gmap string Z) :=
  try_fold merge_rewards ∅ (rewards_by_verifier <$> iterate_epoch_tallies st pool_id from to).

Definition process_rewards_for_epochs (st : State) (pool_id : PoolId) (from to : Z)
    : result ContractError (State * gmap string Z) :=
  rewards ← cumulate_rewards st pool_id from to;
  pool ← load_rewards_pool st pool_id;
  total ← sum_u128 (map_to_list rewards).*2;
  pool ← sub_reward pool total;
  Ok (save_rewards_pool st pool, rewards).

(** The rewards are listed in the order of the verifier addresses, in which the entry
    point sorts them. *)
Definition distribute_rewards (st : State) (pool_id : PoolId) (cur_block_height : Z)
    (epoch_process_limit : option Z) : result ContractError (State * RewardsDistribution) :=
  let epoch_process_limit := default DEFAULT_EPOCHS_TO_PROCESS epoch_process_limit in
  cur_epoch ← state_current_epoch st pool_id cur_block_height;
  let from := match load_rewards_watermark st pool_id with
              | Some last_processed => saturating_add u64_max last_processed 1
              | None => 0
              end in
  let to := Z.min (saturating_sub (saturating_add u64_max from epoch_process_limit) 1)
                  (saturating_sub (epoch_num cur_epoch) EPOCH_PAYOUT_DELAY) in
  if bool_decide (to < from) || bool_decide (epoch_num cur_epoch < EPOCH_PAYOUT_DELAY)
  then Err NoRewardsToDistribute
  else
    '(st, rewards) ← process_rewards_for_epochs st pool_id from to;
    let st := save_rewards_watermark st pool_id to in
    Ok (st, mkDistribution
              ((λ '(addr, amount), (load_verifier st addr, amount)) <$> entries rewards)
              (seqZ from (to - from + 1)) cur_epoch
              (bool_decide (to < saturating_sub (epoch_num cur_epoch) EPOCH_PAYOUT_DELAY))).

Definition create_pool (st : State) (params : Params) (block_height : Z) (pool_id : PoolId)
    : result ContractError State :=
  _ ← ensure (negb (pool_exists st pool_id)) RewardsPoolAlreadyExists;
  let cur_epoch := mkEpoch 0 block_height in
  Ok (save_rewards_pool st (mkPool pool_id 0 (mkParamsSnapshot params cur_epoch))).

Definition update_pool_params (st : State) (pool_id : PoolId) (new_params : Params)
    (block_height : Z) : result ContractError State :=
  cur_epoch ← state_current_epoch st pool_id block_height;
  ends_at ← ok_or Overflow (checked_add u64_max (block_height_started cur_epoch)
                              (epoch_duration new_params));
  let should_end := bool_decide (ends_at < block_height) in
  new_epoch ← (if should_end
               then n ← expect (checked_add u64_max (epoch_num cur_epoch) 1);
                    Ok (mkEpoch n block_height)
               else Ok cur_epoch);
  let snapshot := mkParamsSnapshot new_params new_epoch in
  st ← state_update_pool_params st pool_id snapshot;
  Ok match load_epoch_tally st pool_id (epoch_num cur_epoch) with
     | Some tally => save_epoch_tally st
         (mkTally (tally_pool_id tally) (event_count tally) (participation tally) (epoch tally)
            (params snapshot))
     | None => st
     end.

Definition add_rewards (st : State) (pool_id : PoolId) (amount : Z) : result ContractError State :=
  pool ← load_rewards_pool st pool_id;
  b ← ok_or Overflow (checked_add u128_max (balance pool) amount);
  Ok (save_rewards_pool st (mkPool (id pool) b (pool_params pool))).

Definition set_verifier_proxy (st : State) (proxy_address verifier_addr : Addr) : State :=
  save_verifier_proxy st proxy_address verifier_addr.

Definition remove_verifier_proxy (st : State) (verifier_addr : Addr) : State :=
  state_remove_verifier_proxy st verifier_addr.

(** ** Queries ([contract/query.rs]) *)

Record RewardsPoolResponse := mkPoolResponse {
  r_balance : Z;
  r_epoch_duration : Z;
  r_rewards_per_epoch : Z;
  r_participation_threshold : threshold.Threshold;
  r_current_epoch_num : Z;
  r_last_distribution_epoch : option Z
}.

Definition query_rewards_pool (st : State) (pool_id : PoolId) (block_height : Z)
    : result ContractError RewardsPoolResponse :=
  pool ← load_rewards_pool st pool_id;
  cur_epoch ← Epoch_current (pool_params pool) block_height;
  let params := params (pool_params pool) in
  Ok (mkPoolResponse (balance pool) (epoch_duration params) (rewards_per_epoch params)
        (participation_threshold params) (epoch_num cur_epoch)
        (load_rewards_watermark st pool_id)).

Record ParticipationResponse := mkParticipationResponse {
  r_event_count : Z;
  r_participation : gmap string Z;
  r_rewards_by_verifier : gmap string Z;
  r_epoch : Epoch;
  r_params : Params
}.

Definition query_participation (st : State) (pool_id : PoolId) (epoch_num' : option Z)
    (block_height : Z) : result ContractError (option ParticipationResponse) :=
  n ← match epoch_num' with
      | Some num => Ok num
      | None =>
          current_params ← load_rewards_pool_params st pool_id;
          e ← Epoch_current current_params block_height;
          Ok (epoch_num e)
      end;
  Ok ((λ tally, mkParticipationResponse (event_count tally) (participation tally)
         (rewards_by_verifier tally) (epoch tally) (tally_params tally))
      <$> load_epoch_tally st pool_id n).

(** ** Entry points ([contract.rs], [msg.rs]) *)

Inductive ExecuteMsg :=
  | RecordParticipation (chain_name event_id verifier_address : string)
  | DistributeRewards (pool_id : PoolId) (epoch_count : option Z)
  | AddRewards (pool_id : PoolId)
  | UpdatePoolParams (params : Params) (pool_id : PoolId)
  | CreatePool (params : Params) (pool_id : PoolId)
  | SetVerifierProxy (proxy_address : string)
  | RemoveVerifierProxy.

Definition permissions (m : ExecuteMsg) : msgs_derive.MsgPermissions :=
  match m with
  | UpdatePoolParams _ _ | CreatePool _ _ =>
      msgs_derive.mkPerm [] [permission_control.Governance] []
  | _ => msgs_derive.mkPerm [] [permission_control.Any] []
  end.

Inductive OutEvent := RewardsDistributed (d : RewardsDistribution).

(** [BankMsg::Send] of one coin. *)
Inductive OutMsg := BankSend (to_address : Addr) (coin : Coin).

Notation WResponse := (Response OutMsg OutEvent).

Inductive ExecuteError :=
  | Permission (e : permission_control.Error)
  | Contract (e : ContractError)
  | InvalidAddress (address : string).

Section contract.
Context `{Api}.

Definition validate_cosmwasm_address (addr : string) : result ExecuteError Addr :=
  map_err (λ _, InvalidAddress addr) (addr_validate addr).

Definition try_from_msg_pool_id (pool_id : PoolId) : result ExecuteError PoolId :=
  contract ← validate_cosmwasm_address (contract pool_id);
  Ok (mkPoolId (chain_name pool_id) contract).

Record InstantiateMsg := mkInstantiate { governance_address : string; rewards_denom : string }.

Definition instantiate (msg : InstantiateMsg) : result ExecuteError (State * WResponse) :=
  governance ← validate_cosmwasm_address (governance_address msg);
  let perm := permission_control.set_governance (permission_control.mkStorage None None)
                governance in
  Ok (mkState perm (Some (rewards_denom msg)) ∅ ∅ ∅ ∅ ∅, Response_new).

(** The amount attached to [AddRewards]: the single coin of the rewards denomination. *)
Definition attached_amount (st : State) (funds : list Coin) : result ContractError Z :=
  match funds with
  | [] => Err WrongDenom
  | coin :: rest =>
      config ← load_config st;
      match list_find (λ c, denom c = config) (coin :: rest) with
      | Some (_, c) => if bool_decide (length (coin :: rest) = 1%nat) then Ok (amount c)
                       else Err WrongDenom
      | None => Err WrongDenom
      end
  end.

Definition execute (st : State) (block_height : Z) (sender : Addr) (funds : list Coin)
    (m : ExecuteMsg) : result ExecuteError (State * WResponse) :=
  m ← map_err Permission (msgs_derive.ensure_permissions permissions
        (λ _ _ _, @Ok unit bool false) (perm st) sender m);
  match m with
  | RecordParticipation chain_name event_id verifier_address =>
      verifier_address ← validate_cosmwasm_address verifier_address;
      let pool_id := mkPoolId chain_name sender in
      st ← map_err Contract
        (record_participation st event_id verifier_address pool_id block_height);
      Ok (st, Response_new)
  | AddRewards pool_id =>
      amount ← map_err Contract (attached_amount st funds);
      pool_id ← try_from_msg_pool_id pool_id;
      amount ← map_err (λ _, Contract ZeroRewards) (nonempty.uint_try_from amount);
      st ← map_err Contract (add_rewards st pool_id amount);
      Ok (st, Response_new)
  | DistributeRewards pool_id epoch_count =>
      pool_id ← try_from_msg_pool_id pool_id;
      '(st, d) ← map_err Contract (distribute_rewards st pool_id block_height epoch_count);
      msgs ← try_map (λ '(verifier, amount),
        config ← load_config st;
        Ok (BankSend (default (verifier_address verifier) (proxy_address verifier))
                     (mkCoin config amount))) (distributed d);
      Ok (st, add_event (RewardsDistributed d) (add_messages msgs Response_new))
  | UpdatePoolParams params pool_id =>
      pool_id ← try_from_msg_pool_id pool_id;
      st ← map_err Contract (update_pool_params st pool_id params block_height);
      Ok (st, Response_new)
  | CreatePool params pool_id =>
      pool_id ← try_from_msg_pool_id pool_id;
      st ← map_err Contract (create_pool st params block_height pool_id);
      Ok (st, Response_new)
  | SetVerifierProxy proxy_address =>
      proxy_address ← validate_cosmwasm_address proxy_address;
      Ok (set_verifier_proxy st proxy_address sender, Response_new)
  | RemoveVerifierProxy => Ok (remove_verifier_proxy st sender, Response_new)
  end.

(** ** Rewards of an epoch *)

(** The type invariants of the parameters. *)
Definition params_wf (p : Params) : Prop :=
  1 ≤ epoch_duration p ≤ u64_max ∧ 1 ≤ rewards_per_epoch p ≤ u128_max ∧
  threshold.wf (participation_threshold p).

Definition tally_wf (t : EpochTally) : Prop :=
  params_wf (tally_params t) ∧ 0 ≤ event_count t ≤ u64_max ∧
  ∀ a c, participation t !! a = Some c → 1 ≤ c ≤ u64_max.

(** The participation of a verifier with [c] records reaches the threshold. *)
Definition qualifies (t : EpochTally) (c : Z) : Prop :=
  c ≤ event_count t ∧
  threshold.numerator (participation_threshold (tally_params t)) * event_count t
    ≤ c * threshold.denominator (participation_threshold (tally_params t)).
#[global] Instance qualifies_dec t c : Decision (qualifies t c).
Proof. unfold qualifies. apply _. Defined.

Lemma meets_threshold_spec t c :
  0 ≤ event_count t ≤ u64_max → 1 ≤ c ≤ u64_max →
  meets_threshold t c = true ↔ qualifies t c.
Proof.
  intros He Hc. unfold meets_threshold, qualifies.
  pose proof (λ p, threshold.try_from_Ok c (event_count t) p ltac:(lia) ltac:(lia)) as Hok.
  destruct (decide (c ≤ event_count t)) as [Hle|Hgt].
  - rewrite (proj2 (Hok (threshold.mkThreshold c (event_count t)))) by (split; [done|lia]).
    rewrite threshold.ge_spec. cbn. lia.
  - destruct (threshold.try_from _) as [p|e|]; [|split; [done|lia]..].
    destruct (proj1 (Hok p) eq_refl). lia.
Qed.

(** The verifiers that share the rewards of an epoch, and the share of each. *)
Definition rewarded (t : EpochTally) : gmap string Z :=
  filter (λ p, qualifies t p.2) (participation t).
Definition epoch_reward (t : EpochTally) (a : Addr) : Z :=
  if bool_decide (is_Some (rewarded t !! a))
  then rewards_per_epoch (tally_params t) / Z.of_nat (size (rewarded t)) else 0.

Lemma elem_of_verifiers_to_reward t a :
  tally_wf t → a ∈ verifiers_to_reward t ↔ is_Some (rewarded t !! a).
Proof.
  intros (_ & He & Hp). unfold verifiers_to_reward, rewarded. rewrite list_elem_of_omap. split.
  - intros ([a' c] & Hin%elem_of_map_to_list & Hm). cbn in Hm.
    destruct (meets_threshold t c) eqn:Hc; simplify_eq. exists c.
    apply map_lookup_filter_Some. split; [done|]. apply meets_threshold_spec; eauto.
  - intros [c [Hc Hq]%map_lookup_filter_Some]. exists (a, c).
    split; [by apply elem_of_map_to_list|]. cbn.
    by rewrite (proj2 (meets_threshold_spec t c He (Hp _ _ Hc))).
Qed.

Lemma NoDup_verifiers_to_reward t : NoDup (verifiers_to_reward t).
Proof.
  unfold verifiers_to_reward. pose proof (NoDup_fst_map_to_list (participation t)) as Hnd.
  revert Hnd. generalize (map_to_list (participation t)) as l.
  induction l as [|[a c] l IH]; intros Hnd; [constructor|]. csimpl in *.
  apply NoDup_cons in Hnd as [Hn Hnd]. destruct (meets_threshold t c); [|by apply IH].
  constructor; [|by apply IH]. rewrite list_elem_of_omap. intros ([a' c'] & Hin & Hm).
  cbn in Hm. destruct (meets_threshold t c'); simplify_eq. apply Hn.
  apply list_elem_of_fmap. by exists (a, c').
Qed.

Lemma length_verifiers_to_reward t :
  tally_wf t → length (verifiers_to_reward t) = size (rewarded t).
Proof.
  intros Hwf. rewrite <-size_dom. rewrite <-(size_list_to_set (C := gset string)).
  - f_equal. apply set_eq. intros a.
    rewrite elem_of_list_to_set, elem_of_dom. by apply elem_of_verifiers_to_reward.
  - apply NoDup_verifiers_to_reward.
Qed.

(** The amount a map of rewards gives to an address. *)
Definition reward_of (m : gmap string Z) (a : Addr) : Z := default 0 (m !! a).
Definition total (m : gmap string Z) : Z := map_sum (λ _ v, v) m.

Lemma total_const (l : list Addr) x :
  NoDup l → total (list_to_map ((λ v, (v, x)) <$> l)) = Z.of_nat (length l) * x.
Proof.
  induction 1 as [|a l Ha Hnd IH]; [done|]. csimpl. unfold total in *.
  rewrite map_sum_insert_new.
  - rewrite IH. lia.
  - apply not_elem_of_list_to_map_1. rewrite list_elem_of_fmap.
    intros ([a' y] & -> & Hin). apply list_elem_of_fmap in Hin as (b & [= -> ->] & Hb). done.
Qed.

Lemma lookup_const (l : list Addr) (x : Z) a :
  NoDup l → (list_to_map ((λ v, (v, x)) <$> l) : gmap string Z) !! a =
    if bool_decide (a ∈ l) then Some x else None.
Proof.
  induction 1 as [|b l Hb Hnd IH]; [done|]. csimpl. destruct (decide (b = a)) as [->|Hne].
  - by rewrite lookup_insert_eq, bool_decide_eq_true_2 by left.
  - rewrite lookup_insert_ne, IH by done.
    rewrite (bool_decide_ext (a ∈ b :: l) (a ∈ l)); [done|]. rewrite elem_of_cons.
    split; [by intros [->|?]|by right].
Qed.

Lemma rewards_by_verifier_spec t :
  tally_wf t →
  (∀ a, reward_of (rewards_by_verifier t) a = epoch_reward t a) ∧
  (∀ a v, rewards_by_verifier t !! a = Some v → 1 ≤ v) ∧
  total (rewards_by_verifier t) ≤ rewards_per_epoch (tally_params t) ∧
  0 ≤ total (rewards_by_verifier t).
Proof.
  intros Hwf. pose proof Hwf as ((_ & Hr & _) & _).
  pose proof (length_verifiers_to_reward t Hwf) as Hlen.
  pose proof (NoDup_verifiers_to_reward t) as Hnd.
  unfold rewards_by_verifier, epoch_reward. rewrite Hlen.
  set (n := Z.of_nat (size (rewarded t))). set (q := default 0 _).
  assert (0 ≤ n) as Hn by (unfold n; lia).
  assert (n ≠ 0 → q = rewards_per_epoch (tally_params t) / n) as Hq.
  { intros Hn0. unfold q, checked_div. by rewrite bool_decide_eq_false_2. }
  assert (n = 0 → q = 0) as Hq0.
  { intros Hn0. unfold q, checked_div. by rewrite bool_decide_eq_true_2. }
  assert (∀ a, is_Some (rewarded t !! a) → n ≠ 0) as Hin.
  { intros a [c Hc]. unfold n. intros Hz. assert (size (rewarded t) = 0%nat) as Hz' by lia.
    apply map_size_empty_inv in Hz'. by rewrite Hz', lookup_empty in Hc. }
  case_bool_decide as Hz.
  - split_and!; try (intros; by rewrite lookup_empty in *); try (unfold total; rewrite map_sum_empty; lia).
    intros a. unfold reward_of. rewrite lookup_empty. cbn. case_bool_decide as Ha; [|done].
    rewrite <-Hq, Hz; [done|]. by eapply Hin.
  - split_and!.
    + intros a. unfold reward_of. rewrite lookup_const by done.
      rewrite (bool_decide_ext _ _ (elem_of_verifiers_to_reward t a Hwf)).
      case_bool_decide as Ha; cbn; [|done]. apply Hq. by eapply Hin.
    + intros a v. rewrite lookup_const by done. case_bool_decide; [|done]. intros [= <-].
      assert (n ≠ 0) as Hn0 by (intros ?; apply Hz; auto). specialize (Hq Hn0).
      pose proof (Z.div_pos (rewards_per_epoch (tally_params t)) n). lia.
    + rewrite total_const, Hlen by done. fold n. destruct (decide (n = 0)) as [->|Hn0]; [lia|].
      rewrite Hq by done. apply Z.mul_div_le. lia.
    + rewrite total_const, Hlen by done. fold n. destruct (decide (n = 0)) as [->|Hn0]; [lia|].
      rewrite Hq by done. apply Z.mul_nonneg_nonneg; [lia|]. apply Z.div_pos; lia.
Qed.

(** ** Accumulation over epochs *)

Lemma merge_fold (l : list (string * Z)) m m' :
  NoDup l.*1 →
  try_fold (λ rewards '(addr, amt),
    r ← ok_or Overflow (checked_add u128_max (default 0 (rewards !! addr)) amt);
    Ok (<[addr := r]> rewards)) m l = Ok m' →
  (∀ a, reward_of m' a = reward_of m a + reward_of (list_to_map l) a) ∧
  total m' = total m + sum_list l.*2 ∧
  (∀ a, is_Some (m' !! a) ↔ is_Some (m !! a) ∨ a ∈ l.*1).
Proof.
  revert m. induction l as [|[a x] l IH]; intros m Hnd Hf; csimpl in *; ok_inv.
  - split_and!; [|lia|].
    + intros a. symmetry. apply Z.add_0_r.
    + intros a. split; [by left|]. intros [?|Hin]; [done|inversion Hin].
  - apply NoDup_cons in Hnd as [Hn Hnd]. checked. destruct Hok0 as [-> Hle].
    destruct (IH _ Hnd Hf) as (Hr & Ht & Hd). split_and!.
    + intros b. rewrite Hr. unfold reward_of. destruct (decide (a = b)) as [->|Hne].
      * rewrite !lookup_insert_eq, (not_elem_of_list_to_map_1 l b) by done. cbn. lia.
      * by rewrite !lookup_insert_ne by done.
    + rewrite Ht. unfold total. rewrite map_sum_insert.
      destruct (m !! a) as [y|]; cbn; lia.
    + intros b. rewrite Hd, lookup_insert_is_Some', elem_of_cons. naive_solver.
Qed.

Lemma merge_rewards_Ok m1 m2 m :
  merge_rewards m1 m2 = Ok m →
  (∀ a, reward_of m a = reward_of m1 a + reward_of m2 a) ∧ total m = total m1 + total m2 ∧
  (∀ a, is_Some (m !! a) ↔ is_Some (m1 !! a) ∨ is_Some (m2 !! a)).
Proof.
  unfold merge_rewards. intros Hf.
  destruct (merge_fold _ _ _ (NoDup_fst_map_to_list m2) Hf) as (Hr & Ht & Hd). split_and!.
  - intros a. by rewrite Hr, list_to_map_to_list.
  - rewrite Ht. unfold total. by rewrite (map_sum_list _ m2).
  - intros a. rewrite Hd. f_equiv. rewrite list_elem_of_fmap. split.
    + intros ([a' x] & -> & Hin%elem_of_map_to_list). cbn. eauto.
    + intros [x Hx]. exists (a, x). by rewrite elem_of_map_to_list.
Qed.

Lemma cumulate_Ok (l : list EpochTally) m m' :
  Forall tally_wf l →
  try_fold merge_rewards m (rewards_by_verifier <$> l) = Ok m' →
  (∀ a, reward_of m' a = reward_of m a + sum_list ((λ t, epoch_reward t a) <$> l)) ∧
  total m' = total m + sum_list ((λ t, total (rewards_by_verifier t)) <$> l) ∧
  (∀ a v, m' !! a = Some v → is_Some (m !! a) ∨ 1 ≤ reward_of m' a - reward_of m a).
Proof.
  intros Hwf. revert m. induction Hwf as [|t l Ht Hwf IH]; intros m Hf; csimpl in *; ok_inv.
  - split_and!; [intros a; lia|lia|eauto].
  - destruct (rewards_by_verifier_spec t Ht) as (Hre & Hpos & _ & _).
    destruct (merge_rewards_Ok _ _ _ Hok) as (Hr & Hto & Hd).
    destruct (IH _ Hf) as (Hr' & Hto' & Hd'). split_and!.
    + intros a. rewrite Hr', Hr, Hre. lia.
    + lia.
    + intros a x Ha. assert (0 ≤ sum_list ((λ t0 : EpochTally, epoch_reward t0 a) <$> l)) as Hn.
      { apply sum_list_nonneg, Forall_fmap. eapply Forall_impl; [exact Hwf|]. intros t' Ht'. cbn.
        rewrite <-(proj1 (rewards_by_verifier_spec t' Ht')). unfold reward_of.
        destruct (rewards_by_verifier t' !! a) as [y|] eqn:Hy; cbn; [|lia].
        destruct (rewards_by_verifier_spec t' Ht') as (_ & Hp & _). specialize (Hp a y Hy). lia. }
      assert (0 ≤ reward_of (rewards_by_verifier t) a) as Hn'.
      { unfold reward_of. destruct (rewards_by_verifier t !! a) as [y|] eqn:Hy; cbn; [|lia].
        specialize (Hpos a y Hy). lia. }
      rewrite Hr', Hr, Hre. rewrite Hre in Hn'.
      destruct (Hd' _ _ Ha) as [Hs|Hs]; [|rewrite Hr', Hr, Hre in Hs; lia].
      apply Hd in Hs as [Hs|[y Hy]]; [by left|right].
      specialize (Hpos a y Hy). rewrite <-Hre. unfold reward_of at 2. rewrite Hy. cbn. lia.
Qed.

(** ** The invariant *)

Record inv (st : State) : Prop := {
  inv_config : is_Some (CONFIG st);
  inv_pool p pool : POOLS st !! p = Some pool →
    id pool = p ∧ 0 ≤ balance pool ≤ u128_max ∧ params_wf (params (pool_params pool)) ∧
    0 ≤ epoch_num (created_at (pool_params pool))
      ≤ block_height_started (created_at (pool_params pool));
  inv_tally p n t : TALLIES st !! (p, n) = Some t →
    tally_pool_id t = p ∧ epoch_num (epoch t) = n ∧ tally_wf t;
  inv_event e p ev : EVENTS st !! (e, p) = Some ev →
    is_Some (TALLIES st !! (p, event_epoch_num ev));
  inv_watermark p w : WATERMARKS st !! p = Some w → 0 ≤ w ≤ u64_max
}.

(** The sum of all pool balances. *)
Definition pools_total (st : State) : Z := map_sum (λ _ pool, balance pool) (POOLS st).

Lemma pools_total_save st pool :
  pools_total (save_rewards_pool st pool) =
  pools_total st - default 0 (balance <$> POOLS st !! id pool) + balance pool.
Proof.
  unfold pools_total, save_rewards_pool; cbn. rewrite map_sum_insert.
  destruct (POOLS st !! id pool); cbn; lia.
Qed.

(** *** Epochs *)

Lemma Epoch_current_spec ps h :
  params_wf (params ps) → 0 ≤ epoch_num (created_at ps) ≤ block_height_started (created_at ps) →
  block_height_started (created_at ps) ≤ h ≤ u64_max →
  let d := epoch_duration (params ps) in
  let k := (h - block_height_started (created_at ps)) / d in
  Epoch_current ps h = Ok (mkEpoch (epoch_num (created_at ps) + k)
                                   (block_height_started (created_at ps) + k * d)) ∧
  0 ≤ k ∧ k * d ≤ h - block_height_started (created_at ps) < k * d + d.
Proof.
  intros (Hd & _) He Hh. cbn zeta. unfold Epoch_current.
  set (s0 := block_height_started (created_at ps)) in *. set (d := epoch_duration (params ps)) in *.
  rewrite bool_decide_eq_false_2 by lia. unfold saturating_sub. rewrite Z.max_l by lia.
  unfold checked_div. rewrite bool_decide_eq_false_2 by lia. cbn.
  set (k := (h - s0) / d).
  assert (k * d ≤ h - s0 < k * d + d) as Hk.
  { unfold k. pose proof (Z.div_mod (h - s0) d ltac:(lia)) as Hm.
    pose proof (Z.mod_pos_bound (h - s0) d ltac:(lia)). lia. }
  assert (0 ≤ k) as Hk0 by (apply Z.div_pos; lia).
  assert (k ≤ k * d) by nia.
  unfold saturating_mul. rewrite (Z.min_l (k * d)) by lia. unfold checked_add.
  rewrite !bool_decide_eq_true_2 by lia. cbn. split; [done|]. lia.
Qed.

Lemma Epoch_current_Ok ps h e :
  params_wf (params ps) → 0 ≤ epoch_num (created_at ps) ≤ block_height_started (created_at ps) →
  h ≤ u64_max → Epoch_current ps h = Ok e →
  block_height_started (created_at ps) ≤ h ∧
  0 ≤ epoch_num e ≤ block_height_started e ∧
  block_height_started e ≤ h < block_height_started e + epoch_duration (params ps) ∧
  epoch_num (created_at ps) ≤ epoch_num e ∧
  block_height_started (created_at ps) ≤ block_height_started e.
Proof.
  intros Hp He Hh Hf. destruct (decide (h < block_height_started (created_at ps))) as [Hlt|Hge].
  { unfold Epoch_current in Hf. by rewrite bool_decide_eq_true_2 in Hf. }
  destruct (Epoch_current_spec ps h Hp He ltac:(lia)) as (Hs & Hk & Hb). rewrite Hs in Hf. ok_inv.
  cbn. destruct Hp as (Hd & _).
  set (k := (h - block_height_started (created_at ps)) / epoch_duration (params ps)) in *.
  assert (k ≤ k * epoch_duration (params ps)) by nia. lia.
Qed.

Lemma Epoch_current_mono ps h h' e e' :
  params_wf (params ps) → 0 ≤ epoch_num (created_at ps) ≤ block_height_started (created_at ps) →
  h ≤ h' ≤ u64_max → Epoch_current ps h = Ok e → Epoch_current ps h' = Ok e' →
  epoch_num e ≤ epoch_num e'.
Proof.
  intros Hp He Hh Hf Hf'. pose proof (Epoch_current_Ok ps h e Hp He ltac:(lia) Hf) as (Hs & _).
  destruct (Epoch_current_spec ps h Hp He ltac:(lia)) as (Hs1 & _).
  destruct (Epoch_current_spec ps h' Hp He ltac:(lia)) as (Hs2 & _).
  rewrite Hs1 in Hf. rewrite Hs2 in Hf'. ok_inv. cbn. destruct Hp as (Hd & _).
  pose proof (Z.div_le_mono (h - block_height_started (created_at ps))
    (h' - block_height_started (created_at ps)) (epoch_duration (params ps))). lia.
Qed.

(** *** What a successful call did *)

(** The first epoch that has not been paid. *)
Definition first_unpaid (st : State) (pool_id : PoolId) : Z :=
  match WATERMARKS st !! pool_id with Some w => saturating_add u64_max w 1 | None => 0 end.

Lemma process_rewards_Ok st p from to st' rewards :
  inv st → process_rewards_for_epochs st p from to = Ok (st', rewards) →
  ∃ pool, POOLS st !! p = Some pool ∧
    cumulate_rewards st p from to = Ok rewards ∧
    0 ≤ total rewards ≤ balance pool ∧
    st' = set_pools st (<[p := mkPool p (balance pool - total rewards) (pool_params pool)]> (POOLS st)).
Proof.
  intros Hi. unfold process_rewards_for_epochs, load_rewards_pool, sub_reward. intros Hf. ok_inv.
  simplify_eq. destruct (inv_pool _ Hi _ _ Hok0) as (Hid & Hb & _).
  assert (Forall tally_wf (iterate_epoch_tallies st p from to)) as Hwf.
  { apply Forall_forall. intros t (n & _ & Ht)%list_elem_of_omap.
    by apply (inv_tally _ Hi p n t) in Ht as (_ & _ & ?). }
  destruct (cumulate_Ok _ _ _ Hwf Hok) as (Hr & Ht & Hd).
  assert (∀ a v, rewards !! a = Some v → 1 ≤ v) as Hpos.
  { intros a v Hv. destruct (Hd _ _ Hv) as [[? Hx]|Hx]; [by rewrite lookup_empty in Hx|].
    unfold reward_of in Hx. rewrite Hv, lookup_empty in Hx. cbn in Hx. lia. }
  assert (Forall (λ x, 0 ≤ x) (map_to_list rewards).*2) as Hnn.
  { apply Forall_forall. intros x ([a v] & -> & Hin%elem_of_map_to_list)%list_elem_of_fmap. cbn.
    specialize (Hpos a v Hin). lia. }
  apply sum_u128_Ok in Hok1 as [Hsum _]; [|done]. checked. destruct Hok3 as [-> Hle].
  assert (total rewards = v1) as Htot by (rewrite Hsum; unfold total; by rewrite map_sum_list).
  exists v0. rewrite Htot. split_and!; try done.
  - rewrite Hsum. by apply sum_list_nonneg.
  - unfold save_rewards_pool; cbn. by rewrite Hid.
Qed.

Lemma distribute_rewards_Ok st p h limit st' d :
  inv st → h ≤ u64_max → 0 ≤ default DEFAULT_EPOCHS_TO_PROCESS limit ≤ u64_max →
  distribute_rewards st p h limit = Ok (st', d) →
  ∃ pool e rewards to,
    POOLS st !! p = Some pool ∧ Epoch_current (pool_params pool) h = Ok e ∧
    first_unpaid st p ≤ to ∧ to + EPOCH_PAYOUT_DELAY ≤ epoch_num e ∧ 0 ≤ to ≤ u64_max ∧
    (to = epoch_num e - EPOCH_PAYOUT_DELAY ∨
     to = Z.max (first_unpaid st p + default DEFAULT_EPOCHS_TO_PROCESS limit - 1) 0) ∧
    cumulate_rewards st p (first_unpaid st p) to = Ok rewards ∧
    0 ≤ total rewards ≤ balance pool ∧
    st' = set_watermarks
            (set_pools st (<[p := mkPool p (balance pool - total rewards) (pool_params pool)]>
                             (POOLS st)))
            (<[p := to]> (WATERMARKS st)) ∧
    d = mkDistribution ((λ '(a, x), (load_verifier st a, x)) <$> entries rewards)
          (seqZ (first_unpaid st p) (to - first_unpaid st p + 1)) e
          (bool_decide (to < epoch_num e - EPOCH_PAYOUT_DELAY)).
Proof.
  intros Hi Hh Hlim. unfold distribute_rewards, state_current_epoch, load_rewards_pool_params,
    load_rewards_watermark. fold (first_unpaid st p).
  set (lim := default DEFAULT_EPOCHS_TO_PROCESS limit) in *. intros Hf.
  assert (0 ≤ first_unpaid st p ≤ u64_max) as Hfrom.
  { unfold first_unpaid, saturating_add. destruct (WATERMARKS st !! p) as [w|] eqn:Hw; [|done].
    pose proof (inv_watermark _ Hi _ _ Hw). lia. }
  ok_inv. subst v0. rename v into e, v1 into pool. destruct (inv_pool _ Hi _ _ Hok1) as (_ & _ & Hpw & Hcr).
  destruct (Epoch_current_Ok _ _ _ Hpw Hcr Hh Hok) as (_ & He & Heh & _).
  set (to := Z.min _ _) in *. destruct (_ || _) eqn:Hg; [done|]. breflect.
  unfold saturating_sub, saturating_add, EPOCH_PAYOUT_DELAY in *.
  ok_inv. destruct v as [st1 rewards]. ok_inv. simplify_eq.
  apply process_rewards_Ok in Hok0 as (pool' & Hpool' & Hcum & Htot & ->); [|done].
  assert (pool' = pool) as -> by congruence.
  exists pool, e, rewards, to. split_and!; try done; try (unfold to in *; lia).
  f_equal. apply bool_decide_ext. lia.
Qed.

Lemma update_pool_params_Ok st p new h st' :
  inv st → h ≤ u64_max → params_wf new → update_pool_params st p new h = Ok st' →
  ∃ pool e e' tallies,
    POOLS st !! p = Some pool ∧ Epoch_current (pool_params pool) h = Ok e ∧
    ((e' = e ∧ h ≤ block_height_started e + epoch_duration new) ∨
     (e' = mkEpoch (epoch_num e + 1) h ∧ block_height_started e + epoch_duration new < h)) ∧
    st' = set_tallies (set_pools st
            (<[p := mkPool p (balance pool) (mkParamsSnapshot new e')]> (POOLS st))) tallies ∧
    (∀ k, tallies !! k =
       if bool_decide (k = (p, epoch_num e))
       then (λ t, mkTally (tally_pool_id t) (event_count t) (participation t) (epoch t) new)
              <$> TALLIES st !! k
       else TALLIES st !! k).
Proof.
  intros Hi Hh Hnew. unfold update_pool_params, state_current_epoch, load_rewards_pool_params,
    state_update_pool_params. intros Hf. ok_inv. checked. destruct Hok0 as [-> Hend].
  rename v into e. rename v3 into pool.
  assert (v5 = pool) as -> by congruence. exists pool, e, v1.
  exists (match TALLIES st !! (p, epoch_num e) with
          | Some t => <[(p, epoch_num e) :=
              mkTally (tally_pool_id t) (event_count t) (participation t) (epoch t) new]> (TALLIES st)
          | None => TALLIES st end).
  split; [done|]. split; [done|]. split_and!.
  - case_bool_decide; ok_inv; [right|left; split; [done|lia]]. checked.
    destruct Hok0 as [-> _]. done.
  - unfold load_epoch_tally. cbn. destruct (TALLIES st !! (p, epoch_num e)) as [t|] eqn:Ht; [|done].
    destruct (inv_tally _ Hi _ _ _ Ht) as (Htp & Hte & _). unfold save_epoch_tally; cbn.
    by rewrite Htp, Hte.
  - intros k. destruct (decide (k = (p, epoch_num e))) as [->|Hk];
      [rewrite bool_decide_eq_true_2 by done|rewrite bool_decide_eq_false_2 by done];
      destruct (TALLIES st !! (p, epoch_num e)) as [t|] eqn:Ht; cbn; try done.
    + by rewrite lookup_insert_eq.
    + by rewrite lookup_insert_ne by done.
Qed.

(** A tally with one more event. *)
Definition count_event (t : EpochTally) : EpochTally :=
  mkTally (tally_pool_id t) (saturating_add u64_max (event_count t) 1) (participation t) (epoch t)
    (tally_params t).

Lemma record_participation_Ok st eid v p h st' :
  inv st → record_participation st eid v p h = Ok st' →
  ∃ pool e, POOLS st !! p = Some pool ∧ Epoch_current (pool_params pool) h = Ok e ∧
  ((∃ ev t, EVENTS st !! (eid, p) = Some ev ∧ TALLIES st !! (p, event_epoch_num ev) = Some t ∧
     st' = set_tallies st (<[(p, event_epoch_num ev) := tally_record t v]> (TALLIES st))) ∨
   (EVENTS st !! (eid, p) = None ∧
     st' = set_tallies (set_events st (<[(eid, p) := mkEvent eid p (epoch_num e)]> (EVENTS st)))
       (<[(p, epoch_num e) := count_event (tally_record
            (default (EpochTally_new p e (params (pool_params pool))) (TALLIES st !! (p, epoch_num e))) v)]>
          (TALLIES st)))).
Proof.
  intros Hi. unfold record_participation, load_rewards_pool_params, load_or_store_event, load_event,
    load_epoch_tally. intros Hf. ok_inv. subst v0. rename v2 into pool, v1 into e.
  exists pool, e. split; [done|]. split; [done|].
  destruct (EVENTS st !! (eid, p)) as [ev|] eqn:Hev; ok_inv; cbn.
  - left. destruct (inv_event _ Hi _ _ _ Hev) as [t Ht]. exists ev, t. rewrite Ht. cbn.
    split; [done|]. split; [done|]. destruct (inv_tally _ Hi _ _ _ Ht) as (Htp & Hte & _).
    unfold save_epoch_tally; cbn. by replace (tally_pool_id t, epoch_num (epoch t)) with (p, event_epoch_num ev) by congruence.
  - right. split; [done|].
    destruct (TALLIES st !! (p, epoch_num e)) as [t|] eqn:Ht; cbn; [|done].
    destruct (inv_tally _ Hi _ _ _ Ht) as (Htp & Hte & _).
    unfold save_epoch_tally; cbn. by replace (tally_pool_id t, epoch_num (epoch t)) with (p, epoch_num e) by congruence.
Qed.

Lemma tally_record_wf t v : tally_wf t → tally_wf (tally_record t v).
Proof.
  intros (Hp & He & Hc). split; [done|]. split; [done|]. intros a c. cbn. rewrite lookup_insert_Some.
  intros [[<- <-]|[_ ?]]; [|eauto]. destruct (participation t !! v) as [x|] eqn:Hx; [|unfold u64_max; lia].
  specialize (Hc v x Hx). unfold saturating_add. lia.
Qed.

Lemma count_event_wf t : tally_wf t → tally_wf (count_event t).
Proof. intros (Hp & He & Hc). split; [done|]. split; [cbn; unfold saturating_add; lia|done]. Qed.

Lemma EpochTally_new_wf p e ps : params_wf ps → tally_wf (EpochTally_new p e ps).
Proof. intros Hp. split; [done|]. split; [cbn; unfold u64_max; lia|]. intros a c. cbn. by rewrite lookup_empty. Qed.

(** *** The handlers preserve the invariant *)

Lemma inv_set_tally st p n t :
  inv st → tally_pool_id t = p → epoch_num (epoch t) = n → tally_wf t →
  inv (set_tallies st (<[(p, n) := t]> (TALLIES st))).
Proof.
  intros [Hc Hp Ht He Hw] Htp Hte Hwf. split; cbn; try done.
  - intros p' n' t'. rewrite lookup_insert_Some. intros [[[= <- <-] <-]|[_ ?]]; [done|eauto].
  - intros e p' ev Hev. rewrite lookup_insert_is_Some'. eauto.
Qed.

Lemma inv_set_pool st p pool :
  inv st → id pool = p → 0 ≤ balance pool ≤ u128_max → params_wf (params (pool_params pool)) →
  0 ≤ epoch_num (created_at (pool_params pool))
    ≤ block_height_started (created_at (pool_params pool)) →
  inv (set_pools st (<[p := pool]> (POOLS st))).
Proof.
  intros [Hc Hp Ht He Hw] Hid Hb Hpw Hcr. split; cbn; try done.
  intros p' pool'. rewrite lookup_insert_Some. intros [[<- <-]|[_ ?]]; [done|eauto].
Qed.

Lemma inv_record st eid v p h st' :
  inv st → h ≤ u64_max → record_participation st eid v p h = Ok st' → inv st'.
Proof.
  intros Hi Hh Hf. destruct (record_participation_Ok _ _ _ _ _ _ Hi Hf)
    as (pool & e & Hp & He & [(ev & t & Hev & Ht & ->)|(Hev & ->)]).
  - destruct (inv_tally _ Hi _ _ _ Ht) as (Htp & Hte & Hwf).
    apply inv_set_tally; try done. by apply tally_record_wf.
  - destruct (inv_pool _ Hi _ _ Hp) as (_ & _ & Hpw & _).
    set (t := default _ _).
    assert (tally_pool_id t = p ∧ epoch_num (epoch t) = epoch_num e ∧ tally_wf t) as (Htp & Hte & Hwf).
    { unfold t. destruct (TALLIES st !! (p, epoch_num e)) as [t0|] eqn:Ht; cbn.
      - by apply (inv_tally _ Hi).
      - split_and!; try done; by apply EpochTally_new_wf. }
    assert (inv (set_tallies st (<[(p, epoch_num e) := count_event (tally_record t v)]> (TALLIES st))))
      as Hi' by (apply inv_set_tally; try done; by apply count_event_wf, tally_record_wf).
    destruct Hi' as [Hc' Hp' Ht' He' Hw']. split; try done. cbn in *.
    intros eid' p' ev'. rewrite (lookup_insert_Some (EVENTS st)).
    intros [[[= <- <-] <-]|[_ Hev']]; [|by eapply He'].
    cbn. rewrite lookup_insert_eq. eauto.
Qed.

Lemma inv_distribute st p h limit st' d :
  inv st → h ≤ u64_max → 0 ≤ default DEFAULT_EPOCHS_TO_PROCESS limit ≤ u64_max →
  distribute_rewards st p h limit = Ok (st', d) → inv st'.
Proof.
  intros Hi Hh Hlim Hf. apply distribute_rewards_Ok in Hf
    as (pool & e & rewards & to & Hp & He & _ & _ & Hto & _ & _ & Htot & -> & _); [|done..].
  destruct (inv_pool _ Hi _ _ Hp) as (Hid & Hb & Hpw & Hcr).
  assert (inv (set_pools st (<[p := mkPool p (balance pool - total rewards) (pool_params pool)]> (POOLS st))))
    as [Hc' Hp' Ht' He' Hw'] by (apply inv_set_pool; try done; cbn; lia).
  split; try done. cbn. intros p' w. rewrite lookup_insert_Some. intros [[<- <-]|[_ ?]]; [done|eauto].
Qed.

Lemma inv_update_params st p new h st' :
  inv st → h ≤ u64_max → params_wf new → update_pool_params st p new h = Ok st' → inv st'.
Proof.
  intros Hi Hh Hnew Hf. apply update_pool_params_Ok in Hf
    as (pool & e & e' & tallies & Hp & He & Hcase & -> & Ht); [|done..].
  destruct (inv_pool _ Hi _ _ Hp) as (Hid & Hb & Hpw & Hcr).
  destruct (Epoch_current_Ok _ _ _ Hpw Hcr Hh He) as (_ & Hn & Hs & _).
  assert (inv (set_pools st (<[p := mkPool p (balance pool) (mkParamsSnapshot new e')]> (POOLS st))))
    as [Hc' Hp' Ht' He' Hw'].
  { apply inv_set_pool; try done. cbn. destruct Hnew as (Hd & _).
    destruct Hcase as [[-> _]|[-> ?]]; cbn; lia. }
  split; try done; cbn.
  - intros p' n t. rewrite Ht. case_bool_decide as Hk.
    + injection Hk as -> ->. intros (t0 & Ht0 & ->)%fmap_Some.
      destruct (inv_tally _ Hi _ _ _ Ht0) as (Htp & Hte & (_ & Hwf)). split_and!; done.
    + by apply (inv_tally _ Hi).
  - intros eid p' ev Hev. destruct (inv_event _ Hi _ _ _ Hev) as [t Htt].
    rewrite Ht, Htt. case_bool_decide; cbn; eauto.
Qed.

Lemma rewards_inv_instantiate msg st r : instantiate msg = Ok (st, r) → inv st.
Proof.
  unfold instantiate. intros Hf. ok_inv. simplify_eq. split; cbn; try done; eauto;
    intros *; by rewrite lookup_empty.
Qed.

(** *** Calls, deposits and time *)

(** Parameters carried by a message are of their types' ranges. *)
Definition msg_wf (m : ExecuteMsg) : Prop :=
  match m with
  | UpdatePoolParams ps _ | CreatePool ps _ => params_wf ps
  | DistributeRewards _ (Some n) => 0 ≤ n ≤ u64_max
  | _ => True
  end.

Lemma inv_create st ps h p st' :
  inv st → params_wf ps → 0 ≤ h → create_pool st ps h p = Ok st' →
  POOLS st !! p = None ∧
  st' = set_pools st (<[p := mkPool p 0 (mkParamsSnapshot ps (mkEpoch 0 h))]> (POOLS st)) ∧ inv st'.
Proof.
  intros Hi Hps Hh. unfold create_pool, pool_exists. intros Hf. ok_inv. breflect.
  apply eq_None_not_Some in Hok. split; [done|]. split; [done|].
  apply inv_set_pool; try done; cbn; unfold u128_max; lia.
Qed.

Lemma add_rewards_Ok st p x st' :
  inv st → 0 ≤ x → add_rewards st p x = Ok st' →
  ∃ pool, POOLS st !! p = Some pool ∧
    st' = set_pools st (<[p := mkPool p (balance pool + x) (pool_params pool)]> (POOLS st)) ∧ inv st'.
Proof.
  intros Hi Hx. unfold add_rewards, load_rewards_pool. intros Hf. ok_inv. rename v into pool.
  checked. destruct Hok0 as [-> Hle]. destruct (inv_pool _ Hi _ _ Hok) as (<- & Hb & Hp & Hc).
  exists pool. split; [done|]. split; [done|]. apply inv_set_pool; try done; cbn; lia.
Qed.

(** Where the rewards of a verifier go: to its proxy, if it registered one. *)
Definition recipient (s : State) (a : Addr) : Addr :=
  default (verifier_address (load_verifier s a)) (proxy_address (load_verifier s a)).

(** The rewards denomination and the amount of it among the transfers of a response. *)
Definition denom_of (st : State) : string := default EmptyString (CONFIG st).
Definition funds_out (d : string) (r : WResponse) : Z :=
  funds_in d ((λ '(BankSend _ c), c) <$> messages r).

(** What a call paid: the transfers that it ordered, the pool that they are from, and the
    storage in which they were decided. *)
Record Payment := mkPayment {
  pay_pool : option PoolId;
  pay_state : State;
  pay_transfers : list OutMsg
}.

Definition paid (s : State) (m : ExecuteMsg) (r : WResponse) : list Payment :=
  match m, messages r with
  | DistributeRewards p _, transfers => [mkPayment (ok (try_from_msg_pool_id p)) s transfers]
  | _, [] => []
  | _, transfers => [mkPayment None s transfers]
  end.

(** The contract on its chain: its storage, the height of the last block that called it, and
    what it holds of the rewards denomination. *)
Record World := mkWorld { st : State; now : Z; held : Z }.

(** The runs of the contract, with the list of the payments so far.  Calls arrive at
    non-decreasing heights with their funds; anyone may also send coins to the contract. *)
Inductive run : World → list Payment → Prop :=
  | run_instantiate msg s r h x :
      instantiate msg = Ok (s, r) → 0 ≤ h ≤ u64_max → 0 ≤ x → run (mkWorld s h x) []
  | run_execute w log h sender funds m s r :
      run w log → now w ≤ h ≤ u64_max → msg_wf m → Forall (λ c, 0 ≤ amount c) funds →
      execute (st w) h sender funds m = Ok (s, r) →
      run (mkWorld s h (held w + funds_in (denom_of (st w)) funds - funds_out (denom_of (st w)) r))
          (log ++ paid (st w) m r)
  | run_deposit w log x :
      run w log → 0 ≤ x → run (mkWorld (st w) (now w) (held w + x)) log.

Lemma attached_amount_Ok st funds x :
  attached_amount st funds = Ok x →
  ∃ c, funds = [c] ∧ CONFIG st = Some (denom c) ∧ x = amount c.
Proof.
  unfold attached_amount, load_config. destruct funds as [|c l]; [done|]. intros Hf. ok_inv.
  destruct (list_find _ _) as [[i c']|] eqn:Hl; [|done]. case_bool_decide as Hlen; ok_inv.
  destruct l; [|done]. apply list_find_Some in Hl as (Hl & <- & _).
  apply list_lookup_singleton_Some in Hl as [_ <-]. by exists c.
Qed.

(** The transfers of a distribution carry its total. *)
Lemma transfers_Ok s d l msgs :
  CONFIG s = Some d →
  try_map (λ '(verifier, amount),
        config ← @load_config ExecuteError s;
        Ok (BankSend (default (verifier_address verifier) (proxy_address verifier))
                     (mkCoin config amount))) l = Ok msgs →
  msgs = (λ '(v, x), BankSend (default (verifier_address v) (proxy_address v)) (mkCoin d x)) <$> l.
Proof.
  intros Hc Hf. apply try_map_Ok in Hf. induction Hf as [|[v x] y l ys Hy Hf IH]; [done|].
  csimpl. rewrite IH. unfold load_config in Hy. rewrite Hc in Hy. cbn in Hy. ok_inv. done.
Qed.

Lemma transfers_total d (g : string → Verifier) (rewards : gmap string Z) :
  funds_in d ((λ '(BankSend _ c), c) <$>
    ((λ '(v, x), BankSend (default (verifier_address v) (proxy_address v)) (mkCoin d x)) <$>
      ((λ '(a, x), (g a, x)) <$> entries rewards))) = total rewards.
Proof.
  unfold total. rewrite map_sum_list, <-entries_Permutation.
  induction (entries rewards) as [|[a x] l IH]; [done|]. csimpl. unfold funds_in in *. csimpl.
  rewrite bool_decide_eq_true_2 by done. cbn in IH. by rewrite IH.
Qed.

(** What an accepted call did, one constructor per branch of [execute]. *)
Inductive effect (s : State) (h : Z) (funds : list Coin) : ExecuteMsg → State → WResponse → Prop :=
  | effect_record c eid a v p s' :
      record_participation s eid v p h = Ok s' →
      effect s h funds (RecordParticipation c eid a) s' Response_new
  | effect_distribute pid limit p s' d den :
      try_from_msg_pool_id pid = Ok p → CONFIG s = Some den →
      distribute_rewards s p h limit = Ok (s', d) →
      effect s h funds (DistributeRewards pid limit) s' (add_event (RewardsDistributed d)
        (add_messages ((λ '(v, x), BankSend (default (verifier_address v) (proxy_address v))
                                     (mkCoin den x)) <$> distributed d) Response_new))
  | effect_add pid p c s' :
      funds = [c] → CONFIG s = Some (denom c) → add_rewards s p (amount c) = Ok s' →
      effect s h funds (AddRewards pid) s' Response_new
  | effect_update ps pid p s' :
      update_pool_params s p ps h = Ok s' →
      effect s h funds (UpdatePoolParams ps pid) s' Response_new
  | effect_create ps pid p s' :
      create_pool s ps h p = Ok s' →
      effect s h funds (CreatePool ps pid) s' Response_new
  | effect_set_proxy a l :
      effect s h funds (SetVerifierProxy a) (set_proxies s l) Response_new
  | effect_remove_proxy l :
      effect s h funds RemoveVerifierProxy (set_proxies s l) Response_new.

Lemma distribute_config s p h limit s' d :
  distribute_rewards s p h limit = Ok (s', d) → CONFIG s' = CONFIG s.
Proof.
  unfold distribute_rewards, process_rewards_for_epochs. intros Hf. ok_inv. ok_case. ok_all.
  by simplify_eq.
Qed.

Lemma execute_effect s h sender funds m s' r :
  inv s → execute s h sender funds m = Ok (s', r) → effect s h funds m s' r.
Proof.
  intros Hi. unfold execute. intros Hf. apply bind_Ok in Hf as (m' & Hperm & Hf).
  apply map_err_Ok, msgs_derive.ensure_permissions_same in Hperm as ->.
  destruct m; ok_all; simplify_eq; try by econstructor.
  - destruct (inv_config _ Hi) as [den Hden].
    pose proof (distribute_config _ _ _ _ _ _ Hok0) as Hc. rewrite Hden in Hc.
    apply (transfers_Ok _ _ _ _ Hc) in Hok1 as ->. by econstructor.
  - apply attached_amount_Ok in Hok as (c & -> & Hc & ->).
    apply nonempty.uint_try_from_Ok in Hok1 as [-> _]. by econstructor.
Qed.

Lemma effect_inv s h funds m s' r :
  inv s → 0 ≤ h ≤ u64_max → msg_wf m → Forall (λ c, 0 ≤ amount c) funds →
  effect s h funds m s' r → inv s' ∧ CONFIG s' = CONFIG s.
Proof.
  intros Hi Hh Hm Hfunds Hf. destruct Hf as [? ? ? ? ? ? Hf|? limit ? ? ? ? ? ? Hf|? ? c ? -> ? Hf|
    ? ? ? ? Hf|? ? ? ? Hf|?|?].
  - split; [by eapply inv_record; [|apply Hh|]|]. apply record_participation_Ok in Hf
      as (? & ? & _ & _ & [(? & ? & _ & _ & ->)|[_ ->]]); done.
  - split; [|by eapply distribute_config]. eapply inv_distribute; [done| |..|done]; [lia|].
    destruct limit as [n|]; cbn; [done|unfold DEFAULT_EPOCHS_TO_PROCESS, u64_max; lia].
  - apply Forall_cons in Hfunds as [Hc _].
    destruct (add_rewards_Ok _ _ _ _ Hi Hc Hf) as (? & _ & -> & ?). done.
  - split; [exact (inv_update_params _ _ _ _ _ Hi (proj2 Hh) Hm Hf)|].
    apply update_pool_params_Ok in Hf as (? & ? & ? & ? & _ & _ & _ & -> & _); done || lia.
  - destruct (inv_create _ _ _ _ _ Hi Hm (proj1 Hh) Hf) as (_ & -> & ?). done.
  - split; [|done]. destruct Hi; by split.
  - split; [|done]. destruct Hi; by split.
Qed.

(** At height [h] the pool [p] exists and is in epoch [n] or later. *)
Definition at_least (s : State) (h : Z) (p : PoolId) (n : Z) : Prop :=
  ∃ pool e, POOLS s !! p = Some pool ∧ Epoch_current (pool_params pool) h = Ok e ∧ n ≤ epoch_num e.

Lemma at_least_time s h h' p n :
  inv s → h ≤ h' ≤ u64_max → at_least s h p n → at_least s h' p n.
Proof.
  intros Hi Hh (pool & e & Hp & He & Hn).
  destruct (inv_pool _ Hi _ _ Hp) as (_ & _ & Hpw & Hcr).
  pose proof (Epoch_current_Ok _ h e Hpw Hcr ltac:(lia) He) as (Hs & _).
  destruct (Epoch_current_spec (pool_params pool) h' Hpw Hcr ltac:(lia)) as (He' & _).
  eexists pool, _. split; [done|]. split; [exact He'|].
  pose proof (Epoch_current_mono _ _ _ _ _ Hpw Hcr Hh He He'). lia.
Qed.

(** Replacing a pool by one whose epoch is not earlier. *)
Lemma at_least_insert s s' h p pool' e' p' n :
  POOLS s' = <[p := pool']> (POOLS s) → Epoch_current (pool_params pool') h = Ok e' →
  (p = p' → n ≤ epoch_num e') → at_least s h p' n → at_least s' h p' n.
Proof.
  intros Hs He Hn (pool & e & Hp & He' & Hn'). unfold at_least. rewrite Hs.
  destruct (decide (p = p')) as [<-|Hne].
  - exists pool', e'. rewrite lookup_insert_eq. auto.
  - exists pool, e. by rewrite lookup_insert_ne.
Qed.

(** In particular by one with the same parameters. *)
Lemma at_least_same s s' h p pool pool' p' n :
  POOLS s !! p = Some pool → pool_params pool' = pool_params pool →
  POOLS s' = <[p := pool']> (POOLS s) → at_least s h p' n → at_least s' h p' n.
Proof.
  intros Hp Hpp Hs (pool1 & e & Hp1 & He & Hn). unfold at_least. rewrite Hs.
  destruct (decide (p = p')) as [<-|Hne].
  - assert (pool1 = pool) as -> by congruence. exists pool', e.
    by rewrite lookup_insert_eq, Hpp.
  - exists pool1, e. by rewrite lookup_insert_ne.
Qed.

Lemma update_advances s p new h s' p' n :
  inv s → h ≤ u64_max → params_wf new → update_pool_params s p new h = Ok s' →
  at_least s h p' n → at_least s' h p' n.
Proof.
  intros Hi Hh Hnew Hf Hal. apply update_pool_params_Ok in Hf
    as (pool & e & e' & tallies & Hp & He & Hcase & -> & _); [|done..].
  destruct (inv_pool _ Hi _ _ Hp) as (_ & _ & Hpw & Hcr).
  pose proof (Epoch_current_Ok _ _ _ Hpw Hcr Hh He) as (_ & Hn0 & Hs & _).
  destruct (Epoch_current_spec (mkParamsSnapshot new e') h) as (He' & Hk & _); [done|..].
  { destruct Hnew as (? & _), Hcase as [[-> ?]|[-> ?]]; cbn in *; lia. }
  { destruct Hcase as [[-> ?]|[-> ?]]; cbn in *; lia. }
  eapply (at_least_insert s _ h p _ _ p' n); [reflexivity|exact He'| |exact Hal].
  intros <-. cbn. destruct Hal as (pool1 & e1 & Hp1 & He1 & Hle).
  assert (pool1 = pool) as -> by congruence. assert (e1 = e) as -> by congruence.
  cbn in Hk. destruct Hcase as [[-> ?]|[-> ?]]; cbn in *; lia.
Qed.

(** A call never moves a pool back to an earlier epoch. *)
Lemma effect_advances s h funds m s' r p n :
  inv s → 0 ≤ h ≤ u64_max → msg_wf m → Forall (λ c, 0 ≤ amount c) funds →
  effect s h funds m s' r → at_least s h p n → at_least s' h p n.
Proof.
  intros Hi Hh Hm Hfunds Hf Hal. destruct Hf as [? ? ? ? ? ? Hf|? limit q ? ? ? ? ? Hf|? q c ? -> ? Hf|
    ? ? q ? Hf|? ? q ? Hf|?|?].
  - apply record_participation_Ok in Hf
      as (? & ? & _ & _ & [(? & ? & _ & _ & ->)|[_ ->]]); done.
  - apply distribute_rewards_Ok in Hf
      as (pool & e & rw & to & Hp & He & _ & _ & _ & _ & _ & _ & -> & _); [|done|lia|].
    + eapply (at_least_same s _ h q pool _ p n Hp); [|reflexivity|exact Hal]; done.
    + destruct limit as [x|]; cbn; [done|unfold DEFAULT_EPOCHS_TO_PROCESS, u64_max; lia].
  - apply Forall_cons in Hfunds as [Hc _].
    destruct (add_rewards_Ok _ _ _ _ Hi Hc Hf) as (pool & Hp & -> & _).
    eapply (at_least_same s _ h q pool _ p n Hp); [|reflexivity|exact Hal]; done.
  - exact (update_advances _ _ _ _ _ _ _ Hi (proj2 Hh) Hm Hf Hal).
  - destruct (inv_create _ _ _ _ _ Hi Hm (proj1 Hh) Hf) as (Hnone & -> & _).
    destruct Hal as (pool1 & e1 & Hp1 & He1 & Hle). exists pool1, e1. cbn.
    rewrite lookup_insert_ne; [done|]. congruence.
  - done.
  - done.
Qed.

Record world_inv (w : World) : Prop := {
  wi_inv : inv (st w);
  wi_now : 0 ≤ now w ≤ u64_max;
  wi_backed : pools_total (st w) ≤ held w;
  wi_pool p : is_Some (POOLS (st w) !! p) → at_least (st w) (now w) p 0;
  wi_watermark p x : WATERMARKS (st w) !! p = Some x →
    at_least (st w) (now w) p (x + EPOCH_PAYOUT_DELAY)
}.

Lemma pools_total_insert s s' p pool :
  POOLS s' = <[p := pool]> (POOLS s) →
  pools_total s' = pools_total s - default 0 (balance <$> POOLS s !! p) + balance pool.
Proof.
  intros Hs. unfold pools_total. rewrite Hs, map_sum_insert. destruct (POOLS s !! p); cbn; lia.
Qed.

Lemma limit_range pid limit :
  msg_wf (DistributeRewards pid limit) → 0 ≤ default DEFAULT_EPOCHS_TO_PROCESS limit ≤ u64_max.
Proof. destruct limit; cbn; [done|]. unfold DEFAULT_EPOCHS_TO_PROCESS, u64_max; lia. Qed.

(** What a call adds to the pools is at most what it received minus what it sent. *)
Lemma effect_backed s h funds m s' r :
  inv s → 0 ≤ h ≤ u64_max → msg_wf m → Forall (λ c, 0 ≤ amount c) funds →
  effect s h funds m s' r →
  pools_total s' ≤ pools_total s + funds_in (denom_of s) funds - funds_out (denom_of s) r.
Proof.
  intros Hi Hh Hm Hfunds Hf. pose proof (funds_in_nonneg (denom_of s) funds Hfunds) as Hnn.
  destruct Hf as [? ? ? ? ? ? Hf|pid limit q ? ? den ? Hden Hf|? q c ? -> Hden Hf|
    ? ? q ? Hf|? ? q ? Hf|?|?]; try change (funds_out (denom_of s) Response_new) with 0.
  - apply record_participation_Ok in Hf
      as (? & ? & _ & _ & [(? & ? & _ & _ & ->)|[_ ->]]); [..|done];
      unfold pools_total in *; cbn; lia.
  - apply distribute_rewards_Ok in Hf
      as (pool & e & rw & to & Hp & He & _ & _ & _ & _ & _ & _ & -> & ->);
      [|done|lia|by eapply limit_range].
    unfold denom_of in *. rewrite Hden in *. change (default EmptyString (Some den)) with den in *. unfold funds_out.
    cbn [messages add_event add_messages distributed Response_new app].
    rewrite (transfers_total den).
    erewrite pools_total_insert by done. rewrite Hp. cbn. lia.
  - apply Forall_cons in Hfunds as [Hc _].
    destruct (add_rewards_Ok _ _ _ _ Hi Hc Hf) as (pool & Hp & -> & _).
    erewrite pools_total_insert by done. rewrite Hp. unfold denom_of, funds_in. rewrite Hden. cbn.
    rewrite bool_decide_eq_true_2 by done. lia.
  - apply update_pool_params_Ok in Hf as (pool & ? & ? & ? & Hp & _ & _ & -> & _); [|done|lia|done].
    erewrite pools_total_insert by done. rewrite Hp. cbn. lia.
  - destruct (inv_create _ _ _ _ _ Hi Hm (proj1 Hh) Hf) as (Hnone & -> & _).
    erewrite pools_total_insert by done. rewrite Hnone. cbn. lia.
  - unfold pools_total in *; cbn; lia.
  - unfold pools_total in *; cbn; lia.
Qed.

(** A pool that exists after a call existed before it, or has just been created. *)
Lemma effect_new_pool s h funds m s' r p :
  inv s → 0 ≤ h ≤ u64_max → msg_wf m → Forall (λ c, 0 ≤ amount c) funds →
  effect s h funds m s' r → is_Some (POOLS s' !! p) →
  is_Some (POOLS s !! p) ∨ at_least s' h p 0.
Proof.
  intros Hi Hh Hm Hfunds Hf. destruct Hf as [? ? ? ? ? ? Hf|pid limit q ? ? den ? Hden Hf|? q c ? -> Hden Hf|
    ? ? q ? Hf|ps ? q ? Hf|?|?].
  - apply record_participation_Ok in Hf
      as (? & ? & _ & _ & [(? & ? & _ & _ & ->)|[_ ->]]); [..|done]; by left.
  - apply distribute_rewards_Ok in Hf
      as (pool & e & rw & to & Hp & He & _ & _ & _ & _ & _ & _ & -> & ->);
      [|done|lia|by eapply limit_range]. cbn. rewrite lookup_insert_is_Some'. intros [<-|?]; eauto.
  - apply Forall_cons in Hfunds as [Hc _].
    destruct (add_rewards_Ok _ _ _ _ Hi Hc Hf) as (pool & Hp & -> & _).
    cbn. rewrite lookup_insert_is_Some'. intros [<-|?]; eauto.
  - apply update_pool_params_Ok in Hf as (pool & ? & ? & ? & Hp & _ & _ & -> & _); [|done|lia|done].
    cbn. rewrite lookup_insert_is_Some'. intros [<-|?]; eauto.
  - destruct (inv_create _ _ _ _ _ Hi Hm (proj1 Hh) Hf) as (Hnone & -> & _).
    cbn. rewrite lookup_insert_is_Some'. intros [<-|?]; [right|by left].
    destruct (Epoch_current_spec (mkParamsSnapshot ps (mkEpoch 0 h)) h) as (He & Hk & _);
      [done|cbn; lia..|].
    eexists _, _. cbn [POOLS set_pools]. rewrite lookup_insert_eq. split; [done|].
    split; [exact He|]. cbn in *. lia.
  - by left.
  - by left.
Qed.

(** A call moves no watermark, or the one of the pool that it pays from. *)
Lemma effect_watermark s h funds m s' r :
  inv s → 0 ≤ h ≤ u64_max → msg_wf m → effect s h funds m s' r →
  (paid s m r = [] ∧ WATERMARKS s' = WATERMARKS s) ∨
  (∃ q to, paid s m r = [mkPayment (Some q) s (messages r)] ∧
     WATERMARKS s' = <[q := to]> (WATERMARKS s) ∧ 0 ≤ first_unpaid s q ≤ to ∧
     at_least s' h q (to + EPOCH_PAYOUT_DELAY) ∧ to + EPOCH_PAYOUT_DELAY ≤ u64_max ∧
     ∃ rw den, cumulate_rewards s q (first_unpaid s q) to = Ok rw ∧ CONFIG s = Some den ∧
       messages r = (λ '(a, x), BankSend (recipient s a) (mkCoin den x)) <$> entries rw).
Proof.
  intros Hi Hh Hm Hf. destruct Hf as [? ? ? ? ? ? Hf|pid limit q ? ? den Hq Hden Hf|? q c ? -> Hden Hf|
    ? ? q ? Hf|? ps q ? Hf|?|?]; try (left; split; [done|]).
  - apply record_participation_Ok in Hf
      as (? & ? & _ & _ & [(? & ? & _ & _ & ->)|[_ ->]]); done.
  - apply distribute_rewards_Ok in Hf
      as (pool & e & rw & to & Hp & He & Hfrom & Hto & _ & _ & Hcum & _ & -> & ->);
      [|done|lia|by eapply limit_range]. right. exists q, to.
    cbn [paid ok]. rewrite Hq. split; [done|]. split; [done|]. split; [split; [|done]|split; [|split]].
    + unfold first_unpaid, saturating_add. destruct (WATERMARKS s !! q) as [w|] eqn:Hw; [|done].
      pose proof (inv_watermark _ Hi _ _ Hw). unfold u64_max. lia.
    + eexists _, e. cbn. rewrite lookup_insert_eq. done.
    + destruct (inv_pool _ Hi _ _ Hp) as (_ & _ & Hpw & Hcr).
      pose proof (Epoch_current_Ok _ _ _ Hpw Hcr (proj2 Hh) He). lia.
    + exists rw, den. split; [done|]. split; [done|]. cbn. rewrite <-list_fmap_compose.
      apply list_fmap_ext. by intros i [a x] _.
  - unfold add_rewards in Hf. by ok_inv; subst.
  - apply update_pool_params_Ok in Hf as (pool & ? & ? & ? & Hp & _ & _ & -> & _); [|done|lia|done]. done.
  - unfold create_pool in Hf. by ok_inv; subst.
  - done.
  - done.
Qed.

Lemma run_inv w log : run w log → world_inv w.
Proof.
  induction 1 as [msg s r h x Hf Hh Hx|w log h sender funds m s r _ IH Hh Hm Hfunds Hf|w log x _ IH Hx].
  - pose proof (rewards_inv_instantiate _ _ _ Hf) as Hi. unfold instantiate in Hf. ok_inv. simplify_eq.
    split; cbn; try done; intros p; try (intros [? Hs]; by rewrite lookup_empty in Hs);
      try (intros ? Hs; by rewrite lookup_empty in Hs).
  - destruct IH as [Hi Hn Hb Hp Hw].
    apply execute_effect in Hf; [|done]. assert (0 ≤ h ≤ u64_max) as Hh' by lia.
    pose proof (effect_inv _ _ _ _ _ _ Hi Hh' Hm Hfunds Hf) as [Hi' _].
    pose proof (effect_backed _ _ _ _ _ _ Hi Hh' Hm Hfunds Hf).
    assert (∀ p n, at_least (st w) (now w) p n → at_least s h p n) as Hal.
    { intros p n Ha. apply (effect_advances (st w) h funds m s r p n Hi Hh' Hm Hfunds Hf).
      by apply (at_least_time _ (now w)). }
    split; cbn; [done|lia|lia|..].
    + intros p Hs. destruct (effect_new_pool (st w) h funds m s r p Hi Hh' Hm Hfunds Hf Hs) as [Hs'|?];
        [by apply Hal, Hp|done].
    + intros p x Hx. destruct (effect_watermark _ _ _ _ _ _ Hi Hh' Hm Hf)
        as [[_ Hwm]|(q & to & _ & Hwm & _ & Ht & _)]; rewrite Hwm in Hx; [by apply Hal, Hw|].
      apply lookup_insert_Some in Hx as [[-> ->]|[_ Hx]]; [done|by apply Hal, Hw].
  - destruct IH as [Hi Hn Hb Hp Hw]. split; cbn; try done. lia.
Qed.

(** *** What is due *)

(** What a verifier is due for an epoch of a pool, and what the epoch costs. *)
Definition epoch_due (s : State) (p : PoolId) (a : Addr) (n : Z) : Z :=
  from_option (λ t, epoch_reward t a) 0 (TALLIES s !! (p, n)).
Definition epoch_cost (s : State) (p : PoolId) (n : Z) : Z :=
  from_option (λ t, total (rewards_by_verifier t)) 0 (TALLIES s !! (p, n)).
Definition epoch_budget (s : State) (p : PoolId) (n : Z) : Z :=
  from_option (λ t, rewards_per_epoch (tally_params t)) 0 (TALLIES s !! (p, n)).

Lemma sum_omap {A B} (f : A → option B) (g : B → Z) l :
  sum_list (g <$> omap f l) = sum_list ((λ x, from_option g 0 (f x)) <$> l).
Proof.
  induction l as [|x l IH]; [done|]. csimpl. destruct (f x) as [y|]; csimpl; rewrite IH; lia.
Qed.

Lemma iterate_wf s p from to : inv s → Forall tally_wf (iterate_epoch_tallies s p from to).
Proof.
  intros Hi. apply Forall_forall. intros t (n & _ & Ht)%list_elem_of_omap.
  by apply (inv_tally _ Hi p n t) in Ht as (_ & _ & ?).
Qed.

Lemma cumulate_rewards_Ok s p from to rewards :
  inv s → cumulate_rewards s p from to = Ok rewards →
  let epochs := seqZ from (to - from + 1) in
  (∀ a x, rewards !! a = Some x ↔ x = sum_list (epoch_due s p a <$> epochs) ∧ 1 ≤ x) ∧
  total rewards = sum_list (epoch_cost s p <$> epochs).
Proof.
  intros Hi Hc. cbn zeta.
  destruct (cumulate_Ok _ _ _ (iterate_wf s p from to Hi) Hc) as (Hr & Ht & Hd).
  assert (∀ a, reward_of rewards a = sum_list (epoch_due s p a <$> seqZ from (to - from + 1))) as Hr'.
  { intros a. rewrite Hr. unfold iterate_epoch_tallies. rewrite sum_omap. unfold reward_of at 1.
    by rewrite lookup_empty. }
  split.
  - intros a x. rewrite <-Hr'. unfold reward_of. split.
    + intros Ha. rewrite Ha. split; [done|]. destruct (Hd a x Ha) as [[? He]|He].
      { by rewrite lookup_empty in He. }
      unfold reward_of in He. rewrite Ha, lookup_empty in He. cbn in He. lia.
    + intros [-> Hx]. destruct (rewards !! a); cbn in *; [done|lia].
  - rewrite Ht. unfold total at 1. rewrite map_sum_empty. unfold iterate_epoch_tallies.
    by rewrite sum_omap.
Qed.

Lemma epoch_cost_budget s p n : inv s → 0 ≤ epoch_cost s p n ≤ epoch_budget s p n.
Proof.
  intros Hi. unfold epoch_cost, epoch_budget.
  destruct (TALLIES s !! (p, n)) as [t|] eqn:Ht; [|done].
  apply (inv_tally _ Hi) in Ht as (_ & _ & Hwf). cbn.
  destruct (rewards_by_verifier_spec t Hwf) as (_ & _ & ? & ?). lia.
Qed.

Lemma sum_list_fmap_le {A} (f g : A → Z) l :
  (∀ x, f x ≤ g x) → sum_list (f <$> l) ≤ sum_list (g <$> l).
Proof. intros Hfg. induction l as [|x l IH]; [done|]. csimpl. specialize (Hfg x). lia. Qed.

(** Merging succeeds when the total fits. *)
Lemma merge_fold_live (l : list (string * Z)) m :
  NoDup l.*1 → Forall (λ x, 0 ≤ x) l.*2 → (∀ a x, m !! a = Some x → 0 ≤ x) →
  total m + sum_list l.*2 ≤ u128_max →
  ∃ m', try_fold (λ rewards '(addr, amt),
    r ← ok_or Overflow (checked_add u128_max (default 0 (rewards !! addr)) amt);
    Ok (<[addr := r]> rewards)) m l = Ok m' ∧ (∀ a x, m' !! a = Some x → 0 ≤ x).
Proof.
  revert m. induction l as [|[a x] l IH]; intros m Hnd Hl Hm Hle; csimpl in *; [eauto|].
  apply NoDup_cons in Hnd as [Hn Hnd]. apply Forall_cons in Hl as [Hx Hl].
  pose proof (sum_list_nonneg _ Hl) as Hs.
  assert (0 ≤ default 0 (m !! a) ≤ total m) as Ha.
  { destruct (m !! a) as [y|] eqn:Hy; cbn.
    - split; [by eapply Hm|]. by apply (map_sum_lookup_le (λ _ v, v) m a y).
    - split; [done|]. by apply map_sum_nonneg. }
  assert (checked_add u128_max (default 0 (m !! a)) x = Some (default 0 (m !! a) + x)) as ->.
  { checked. lia. }
  cbn. apply IH; [done..| |].
  - intros b y. rewrite lookup_insert_Some. intros [[<- <-]|[_ ?]]; [lia|eauto].
  - unfold total in *. rewrite map_sum_insert. destruct (m !! a); cbn in *; lia.
Qed.

Lemma cumulate_live (l : list EpochTally) m :
  Forall tally_wf l → (∀ a x, m !! a = Some x → 0 ≤ x) →
  total m + sum_list ((λ t, total (rewards_by_verifier t)) <$> l) ≤ u128_max →
  ∃ m', try_fold merge_rewards m (rewards_by_verifier <$> l) = Ok m'.
Proof.
  intros Hwf. revert m. induction Hwf as [|t l Ht Hwf IH]; intros m Hm Hle; csimpl in *; [eauto|].
  destruct (rewards_by_verifier_spec t Ht) as (_ & Hpos & _ & Hnn).
  assert (0 ≤ sum_list ((λ t, total (rewards_by_verifier t)) <$> l)) as Hs.
  { apply sum_list_nonneg, Forall_fmap. eapply Forall_impl; [exact Hwf|]. intros t' Ht'.
    by destruct (rewards_by_verifier_spec t' Ht') as (_ & _ & _ & ?). }
  destruct (merge_fold_live (map_to_list (rewards_by_verifier t)) m) as (m' & Hm' & Hnn').
  - apply NoDup_fst_map_to_list.
  - apply Forall_forall. intros x ([a y] & -> & Hin%elem_of_map_to_list)%list_elem_of_fmap.
    specialize (Hpos a y Hin). cbn. lia.
  - done.
  - assert (total (rewards_by_verifier t) = sum_list (map_to_list (rewards_by_verifier t)).*2)
      by (unfold total; by rewrite map_sum_list). lia.
  - fold (merge_rewards m (rewards_by_verifier t)) in Hm'. rewrite Hm'. cbn. apply IH; [done|].
    destruct (merge_rewards_Ok _ _ _ Hm') as (_ & Htot & _). lia.
Qed.

Lemma cumulate_nonneg s p from to rw a x :
  inv s → cumulate_rewards s p from to = Ok rw → rw !! a = Some x → 1 ≤ x.
Proof. intros Hi Hc Hx. apply (cumulate_rewards_Ok _ _ _ _ _ Hi Hc) in Hx. lia. Qed.

Lemma distribute_live_step s p h limit pool e rw to :
  inv s → POOLS s !! p = Some pool → Epoch_current (pool_params pool) h = Ok e →
  0 ≤ first_unpaid s p → epoch_num e ≤ u64_max → 1 ≤ default DEFAULT_EPOCHS_TO_PROCESS limit →
  first_unpaid s p + EPOCH_PAYOUT_DELAY ≤ epoch_num e →
  to = Z.min (first_unpaid s p + default DEFAULT_EPOCHS_TO_PROCESS limit - 1)
             (epoch_num e - EPOCH_PAYOUT_DELAY) →
  cumulate_rewards s p (first_unpaid s p) to = Ok rw → total rw ≤ balance pool →
  ∃ s' d, distribute_rewards s p h limit = Ok (s', d) ∧ WATERMARKS s' !! p = Some to ∧
          CONFIG s' = CONFIG s.
Proof.
  intros Hi Hp He Hf He64 Hlim Hun Hto Hrw Hbal.
  destruct (inv_pool _ Hi _ _ Hp) as (Hid & Hb & _).
  unfold distribute_rewards, state_current_epoch, load_rewards_pool_params, load_rewards_watermark.
  fold (first_unpaid s p). rewrite Hp. cbn [ok_or fmap result_fmap]. cbn. rewrite He. cbn.
  unfold EPOCH_PAYOUT_DELAY in *.
  replace (Z.min (saturating_sub (saturating_add u64_max (first_unpaid s p)
     (default DEFAULT_EPOCHS_TO_PROCESS limit)) 1) (saturating_sub (epoch_num e) 2)) with to
    by (unfold saturating_sub, saturating_add; lia).
  rewrite !bool_decide_eq_false_2 by lia. cbn. unfold process_rewards_for_epochs, load_rewards_pool.
  rewrite Hrw, Hp. cbn.
  assert (total rw = sum_list (map_to_list rw).*2) as Ht by (unfold total; by rewrite map_sum_list).
  assert (sum_u128 (E := ContractError) (map_to_list rw).*2 = Ok (total rw)) as ->.
  { rewrite Ht. apply sum_u128_fits; [|lia].
    apply Forall_forall. intros x ([a y] & -> & Hin%elem_of_map_to_list)%list_elem_of_fmap. cbn.
    pose proof (cumulate_nonneg _ _ _ _ _ _ _ Hi Hrw Hin). lia. }
  cbn. unfold sub_reward.
  assert (checked_sub (balance pool) (total rw) = Some (balance pool - total rw)) as -> by (checked; lia).
  cbn.
  eexists _, _. split; [done|]. cbn. by rewrite lookup_insert_eq.
Qed.

Lemma transfers_pure {E} s d (l : list (Verifier * Z)) :
  CONFIG s = Some d →
  try_map (λ '(verifier, amount),
        config ← @load_config E s;
        Ok (BankSend (default (verifier_address verifier) (proxy_address verifier))
                     (mkCoin config amount))) l =
  Ok ((λ '(v, x), BankSend (default (verifier_address v) (proxy_address v)) (mkCoin d x)) <$> l).
Proof.
  intros Hc. apply try_map_Ok. induction l as [|[v x] l IH]; constructor; [|done].
  unfold load_config. by rewrite Hc.
Qed.

(** ** Properties *)

(** C30: The pools are backed.  In every run, whatever the messages, the attached funds and
    the heights, the contract holds at least the sum of the balances its pools promise, so
    that every payment it orders can be made. *)
Theorem pools_backed w log : run w log → pools_total (st w) ≤ held w.
Proof. intros Hr. apply (run_inv _ _ Hr). Qed.

(** The transfers that pay a list of epochs of a pool: one for each verifier that is due
    something for them, of exactly what it is due. *)
Definition settles (s : State) (p : PoolId) (epochs : list Z) (transfers : list OutMsg) : Prop :=
  ∃ den dues, CONFIG s = Some den ∧ NoDup dues.*1 ∧
    transfers = (λ '(a, x), BankSend (recipient s a) (mkCoin den x)) <$> dues ∧
    ∀ a x, (a, x) ∈ dues ↔ x = sum_list (epoch_due s p a <$> epochs) ∧ 1 ≤ x.

(** The payments from a pool, in their order, pay the epochs before [n]: each of them pays those
    that follow the ones paid before, one by one. *)
Inductive settled (p : PoolId) : list Payment → Z → Prop :=
  | settled_none : settled p [] 0
  | settled_more l n s transfers to :
      settled p l n → n ≤ to → settles s p (seqZ n (to - n + 1)) transfers →
      settled p (l ++ [mkPayment (Some p) s transfers]) (to + 1).

Definition payments_from (p : PoolId) (log : list Payment) : list Payment :=
  filter (λ x, pay_pool x = Some p) log.

Lemma rewards_run_settled w log p :
  run w log →
  Forall (λ x, is_Some (pay_pool x)) log ∧ settled p (payments_from p log) (first_unpaid (st w) p).
Proof.
  induction 1 as [msg s r h x Hf Hh Hx|w log h sender funds m s r Hrun [IHa IHs] Hh Hm Hfunds Hf|
    w log x _ IH Hx]; [| |done].
  - split; [constructor|]. unfold instantiate in Hf. ok_inv. simplify_eq. apply settled_none.
  - destruct (run_inv _ _ Hrun) as [Hi Hn _ _ _].
    apply execute_effect in Hf; [|done]. assert (0 ≤ h ≤ u64_max) as Hh' by lia. cbn [st].
    destruct (effect_watermark _ _ _ _ _ _ Hi Hh' Hm Hf)
      as [[-> Hw]|(q & to & -> & Hw & Hfrom & _ & Hmax & rw & den & Hcum & Hden & Hmsgs)].
    { rewrite app_nil_r. split; [done|]. unfold first_unpaid. rewrite Hw. exact IHs. }
    split; [apply Forall_app; split; [done|]; apply Forall_singleton; by eexists|].
    unfold payments_from. rewrite filter_app. unfold first_unpaid. rewrite Hw.
    destruct (decide (q = p)) as [->|Hne].
    + rewrite filter_cons_True, filter_nil, lookup_insert_eq by done. unfold saturating_add, EPOCH_PAYOUT_DELAY in *.
      rewrite Z.min_l by lia. eapply settled_more; [exact IHs|lia|]. rewrite Hmsgs.
      destruct (cumulate_rewards_Ok _ _ _ _ _ Hi Hcum) as [Hr _].
      exists den, (entries rw). split_and!; [done|apply entries_NoDup_fst|done|].
      intros a x. rewrite elem_of_entries. apply Hr.
    + rewrite filter_cons_False, filter_nil, lookup_insert_ne, app_nil_r by (cbn; congruence). exact IHs.
Qed.

(** C8: No epoch is paid twice and none is skipped.  The transfers that the contract orders over a
    whole run are all from a pool, and those from one pool pay the epochs 0, 1, 2, ... up to its
    watermark, each exactly once: every payment consists of one transfer to each verifier that is
    due something for the epochs that follow those paid before, of exactly the sum of its shares
    of these epochs, and of nothing else.  The watermark always stays [EPOCH_PAYOUT_DELAY] epochs behind
    the current one. *)
Theorem no_epoch_paid_twice w log p :
  run w log →
  Forall (λ x, is_Some (pay_pool x)) log ∧ settled p (payments_from p log) (first_unpaid (st w) p) ∧
  (∀ x, WATERMARKS (st w) !! p = Some x →
     first_unpaid (st w) p = x + 1 ∧ at_least (st w) (now w) p (x + EPOCH_PAYOUT_DELAY)).
Proof.
  intros Hr. destruct (rewards_run_settled _ _ p Hr) as [Hall Hs]. apply run_inv in Hr as [Hi Hn Hb Hp Hw].
  split; [done|]. split; [done|]. intros x Hx. specialize (Hw _ _ Hx).
  split; [|done]. unfold first_unpaid. rewrite Hx.
  destruct Hw as (pool & e & Hpool & He & Hle).
  destruct (inv_pool _ Hi _ _ Hpool) as (_ & _ & Hpw & Hcr).
  pose proof (Epoch_current_Ok _ _ _ Hpw Hcr (proj2 Hn) He).
  unfold saturating_add, EPOCH_PAYOUT_DELAY in *. lia.
Qed.

(** A distribution pays exactly what is due.  The epochs processed start at the first
    unpaid one and stop at least [EPOCH_PAYOUT_DELAY] before the current one.  The recipients
    are the verifiers due a positive amount, each is sent the sum of its shares of these
    epochs, to its proxy if it registered one, and the pool is debited by the cost of the
    epochs, which is within their budgets. *)
Theorem distribution_exact w log h sender funds pid limit s' r :
  run w log → now w ≤ h ≤ u64_max → msg_wf (DistributeRewards pid limit) →
  execute (st w) h sender funds (DistributeRewards pid limit) = Ok (s', r) →
  ∃ p pool e to den d,
    try_from_msg_pool_id pid = Ok p ∧ POOLS (st w) !! p = Some pool ∧
    Epoch_current (pool_params pool) h = Ok e ∧ CONFIG (st w) = Some den ∧
    first_unpaid (st w) p ≤ to ∧ to + EPOCH_PAYOUT_DELAY ≤ epoch_num e ∧
    let epochs := seqZ (first_unpaid (st w) p) (to - first_unpaid (st w) p + 1) in
    r = add_event (RewardsDistributed d) (add_messages
          ((λ '(v, x), BankSend (default (verifier_address v) (proxy_address v)) (mkCoin den x))
             <$> distributed d) Response_new) ∧
    epochs_processed d = epochs ∧
    (∀ v x, (v, x) ∈ distributed d ↔
       v = load_verifier (st w) (verifier_address v) ∧
       x = sum_list (epoch_due (st w) p (verifier_address v) <$> epochs) ∧ 1 ≤ x) ∧
    (balance <$> POOLS s' !! p) =
      Some (balance pool - sum_list (epoch_cost (st w) p <$> epochs)) ∧
    sum_list (epoch_cost (st w) p <$> epochs) ≤ sum_list (epoch_budget (st w) p <$> epochs).
Proof.
  intros [Hi Hn _ _ _]%run_inv Hh Hm Hf. apply execute_effect in Hf; [|done].
  inversion Hf as [|? ? p ? d den Hp Hden Hd| | | | |]; subst; clear Hf.
  apply distribute_rewards_Ok in Hd
    as (pool & e & rw & to & Hpool & He & Hfrom & Hto & _ & _ & Hcum & _ & -> & ->);
    [|done|lia|by eapply limit_range].
  exists p, pool, e, to, den. eexists. cbn zeta. do 7 (split; [done|]). split; [done|].
  destruct (cumulate_rewards_Ok _ _ _ _ _ Hi Hcum) as [Hr Ht]. cbn zeta in Hr. split_and!.
  - intros v x. cbn. rewrite list_elem_of_fmap. split.
    + intros ([a y] & [= -> ->] & Hin%elem_of_entries). cbn. split; [done|]. by apply Hr.
    + intros (-> & Hx%Hr). exists (verifier_address v, x). cbn. by rewrite elem_of_entries.
  - cbn. rewrite lookup_insert_eq. cbn. by rewrite Ht.
  - apply sum_list_fmap_le. intros n. by apply epoch_cost_budget.
Qed.

(** C34: A funded pool can always be paid out.  When an epoch is closed and unpaid, at least
    one epoch is asked for and the pool covers the cost of the epochs to process, then
    [DistributeRewards] succeeds for any caller: no sum overflows and nothing panics. *)
Theorem distribution_live w log h sender funds pid limit p pool e :
  run w log → now w ≤ h ≤ u64_max → msg_wf (DistributeRewards pid limit) →
  try_from_msg_pool_id pid = Ok p → POOLS (st w) !! p = Some pool →
  Epoch_current (pool_params pool) h = Ok e →
  first_unpaid (st w) p + EPOCH_PAYOUT_DELAY ≤ epoch_num e →
  1 ≤ default DEFAULT_EPOCHS_TO_PROCESS limit →
  let to := Z.min (first_unpaid (st w) p + default DEFAULT_EPOCHS_TO_PROCESS limit - 1)
                  (epoch_num e - EPOCH_PAYOUT_DELAY) in
  sum_list (epoch_cost (st w) p <$> seqZ (first_unpaid (st w) p) (to - first_unpaid (st w) p + 1))
    ≤ balance pool →
  ∃ s' r, execute (st w) h sender funds (DistributeRewards pid limit) = Ok (s', r) ∧
          WATERMARKS s' !! p = Some to.
Proof.
  intros [Hi Hn _ _ _]%run_inv Hh Hm Hp Hpool He Hun Hlim to Hbal.
  pose proof (limit_range _ _ Hm) as Hlim'.
  destruct (inv_pool _ Hi _ _ Hpool) as (Hid & Hb & Hpw & Hcr).
  pose proof (Epoch_current_Ok _ _ _ Hpw Hcr (proj2 Hh) He) as (_ & He1 & He2 & _).
  destruct (inv_config _ Hi) as [den Hden].
  assert (0 ≤ first_unpaid (st w) p) as Hfrom.
  { unfold first_unpaid, saturating_add. destruct (WATERMARKS (st w) !! p) as [x|] eqn:Hx; [|done].
    pose proof (inv_watermark _ Hi _ _ Hx). unfold u64_max in *. lia. }
  unfold EPOCH_PAYOUT_DELAY in *.
  assert (∃ rw, cumulate_rewards (st w) p (first_unpaid (st w) p) to = Ok rw) as [rw Hrw].
  { apply cumulate_live; [by apply iterate_wf|intros ? ?; by rewrite lookup_empty|].
    unfold iterate_epoch_tallies. rewrite sum_omap. unfold total at 1. rewrite map_sum_empty.
    unfold epoch_cost in Hbal. unfold load_epoch_tally. lia. }
  destruct (distribute_live_step (st w) p h limit pool e rw to) as (s' & d & Hd & Hwm & Hc);
    [done|done|done|done|lia|done|done|done|done| |].
  { destruct (cumulate_rewards_Ok _ _ _ _ _ Hi Hrw) as [_ ->]. done. }
  eexists s', _. split; [|done]. unfold execute.
  rewrite (proj2 (msgs_derive.ensure_permissions_general permissions _ (perm (st w)) sender
    (DistributeRewards pid limit) eq_refl)) by (left; reflexivity).
  cbn -[try_from_msg_pool_id distribute_rewards]. rewrite Hp.
  cbn -[distribute_rewards]. rewrite Hd. cbn.
  erewrite (transfers_pure s' den) by congruence. done.
Qed.

(** Paid epochs are closed.  No later call changes the number of events, the parameters or
    the existence of the tally of an epoch that is at or below the watermark of its pool, nor
    assigns a new event to it: participation in a new event counts for an unpaid epoch. *)
Theorem paid_epochs_are_closed w log h sender funds m s' r p x n :
  run w log → now w ≤ h ≤ u64_max → msg_wf m → Forall (λ c, 0 ≤ amount c) funds →
  execute (st w) h sender funds m = Ok (s', r) →
  WATERMARKS (st w) !! p = Some x → n ≤ x →
  (λ t, (event_count t, tally_params t)) <$> TALLIES s' !! (p, n) =
    (λ t, (event_count t, tally_params t)) <$> TALLIES (st w) !! (p, n) ∧
  (∀ eid ev, EVENTS s' !! (eid, p) = Some ev → event_epoch_num ev = n →
             EVENTS (st w) !! (eid, p) = Some ev).
Proof.
  intros [Hi Hn _ _ Hw]%run_inv Hh Hm Hfunds Hf Hx Hnx.
  destruct (at_least_time _ _ h _ _ Hi Hh (Hw _ _ Hx)) as (pool & e & Hpool & He & Hle).
  unfold EPOCH_PAYOUT_DELAY in Hle.
  apply execute_effect in Hf; [|done]. destruct Hf as [? ? ? ? q ? Hf|pid limit q ? ? den Hq Hden Hf|
    ? q c ? -> Hden Hf|? ? q ? Hf|? ps q ? Hf|?|?]; try by split.
  - apply record_participation_Ok in Hf
      as (pool1 & e1 & Hp1 & He1 & [(ev & t & Hev & Ht & ->)|[Hnone ->]]); [..|done]; cbn; split; try done.
    + destruct (decide ((q, event_epoch_num ev) = (p, n))) as [[= -> <-]|Hne].
      * by rewrite lookup_insert_eq, Ht.
      * by rewrite lookup_insert_ne by done.
    + rewrite lookup_insert_ne; [done|]. intros [= -> <-].
      assert (pool1 = pool) as -> by congruence. assert (e1 = e) as -> by congruence. lia.
    + intros eid0 ev. rewrite lookup_insert_Some. intros [[[= <- ->] <-]|[_ ?]]; [|done]. cbn. intros <-.
      assert (pool1 = pool) as -> by congruence. assert (e1 = e) as -> by congruence. lia.
  - apply distribute_rewards_Ok in Hf
      as (? & ? & ? & ? & _ & _ & _ & _ & _ & _ & _ & _ & -> & _);
      [|done|lia|by eapply limit_range]. done.
  - unfold add_rewards in Hf. by ok_inv; subst.
  - apply update_pool_params_Ok in Hf
      as (pool1 & e1 & ? & tallies & Hp1 & He1 & _ & -> & Ht); [|done|lia|done]. cbn.
    split; [|done]. rewrite Ht. case_bool_decide as Hk; [|done]. injection Hk as -> ->.
    assert (pool1 = pool) as -> by congruence. assert (e1 = e) as -> by congruence. lia.
  - unfold create_pool in Hf. by ok_inv; subst.
Qed.

(** Epochs number the blocks.  For every pool of a reachable state and every height that is
    not in the past there is a current epoch, it contains the height, it never decreases, and
    changing the parameters of the pool moves it by at most one. *)
Theorem epoch_numbering w log p pool h :
  run w log → POOLS (st w) !! p = Some pool → now w ≤ h ≤ u64_max →
  ∃ e, Epoch_current (pool_params pool) h = Ok e ∧
    block_height_started e ≤ h < block_height_started e + epoch_duration (params (pool_params pool)) ∧
    (∀ h' e', h ≤ h' ≤ u64_max → Epoch_current (pool_params pool) h' = Ok e' →
       epoch_num e ≤ epoch_num e') ∧
    (∀ new s', params_wf new → update_pool_params (st w) p new h = Ok s' →
       ∃ pool' e', POOLS s' !! p = Some pool' ∧ params (pool_params pool') = new ∧
         balance pool' = balance pool ∧
         Epoch_current (pool_params pool') h = Ok e' ∧
         epoch_num e ≤ epoch_num e' ≤ epoch_num e + 1).
Proof.
  intros [Hi Hn _ Hp _]%run_inv Hpool Hh.
  destruct (at_least_time _ _ h _ _ Hi Hh (Hp p (ex_intro _ _ Hpool))) as (pool1 & e & Hpool1 & He & _).
  assert (pool1 = pool) as -> by congruence. exists e. split; [done|].
  destruct (inv_pool _ Hi _ _ Hpool) as (_ & _ & Hpw & Hcr).
  pose proof (Epoch_current_Ok _ _ _ Hpw Hcr (proj2 Hh) He) as (_ & Hn0 & Hs & _).
  split; [done|]. split.
  { intros h' e' Hh' He'. exact (Epoch_current_mono _ _ _ _ _ Hpw Hcr Hh' He He'). }
  intros new s' Hnew Hf. apply update_pool_params_Ok in Hf
    as (pool1 & e1 & e' & tallies & Hp1 & He1 & Hcase & -> & _); [|done|lia|done].
  assert (pool1 = pool) as -> by congruence. assert (e1 = e) as -> by congruence.
  destruct (Epoch_current_spec (mkParamsSnapshot new e') h) as (He' & Hk & Hk'); [done|..].
  { destruct Hnew as (? & _), Hcase as [[-> ?]|[-> ?]]; cbn in *; lia. }
  { destruct Hcase as [[-> ?]|[-> ?]]; cbn in *; lia. }
  eexists _, _. cbn [POOLS set_tallies set_pools]. rewrite lookup_insert_eq.
  split; [done|]. split; [done|]. split; [done|]. split; [exact He'|].
  destruct Hnew as (Hd & _). cbn in *. set (k := (h - _) / _) in *.
  destruct Hcase as [[-> ?]|[-> ?]]; cbn in *; nia.
Qed.

(** A limit of zero epochs.  On a pool that was never distributed a limit of zero processes
    the first epoch exactly as a limit of one does, while afterwards it is refused with
    [NoRewardsToDistribute]. *)
Theorem zero_limit_processes_first_epoch s p h :
  inv s → h ≤ u64_max →
  (WATERMARKS s !! p = None →
     distribute_rewards s p h (Some 0) = distribute_rewards s p h (Some 1)) ∧
  (∀ x e, WATERMARKS s !! p = Some x → state_current_epoch s p h = Ok e →
     distribute_rewards s p h (Some 0) = Err NoRewardsToDistribute).
Proof.
  intros Hi Hh. unfold distribute_rewards, load_rewards_watermark. split.
  - intros ->. done.
  - intros x e Hx He. rewrite Hx, He. cbn.
    pose proof (inv_watermark _ Hi _ _ Hx) as Hw. unfold u64_max in *.
    rewrite (bool_decide_eq_true_2 (Z.min _ _ < _)); [done|].
    unfold saturating_sub, saturating_add, u64_max. lia.
Qed.

End contract.
End rewards.

(** ** A run *)
Module rewards_run.
Import rewards.

Definition run_api : Api := {| addr_validate := λ s, Ok s |}.
#[local] Existing Instance run_api.

Definition run_pool : PoolId := mkPoolId "eth" "vv".
Definition run_params : Params := mkParams 10 100 (threshold.mkThreshold 1 2).

(** One accepted call on a world. *)
Definition next (w : World) (h : Z) (sender : Addr) (funds : list Coin) (m : ExecuteMsg) : World :=
  match execute (st w) h sender funds m with
  | Ok (s, r) => mkWorld s h (held w + funds_in (denom_of (st w)) funds
                                - funds_out (denom_of (st w)) r)
  | _ => w
  end.

Definition run0 : World :=
  match instantiate (mkInstantiate "gov" "uaxl") with
  | Ok (s, _) => mkWorld s 100 0
  | _ => mkWorld (mkState (permission_control.mkStorage None None) None ∅ ∅ ∅ ∅ ∅) 0 0
  end.
Definition run1 : World := next run0 100 "gov" [] (CreatePool run_params run_pool).
Definition run2 : World := next run1 100 "donor" [mkCoin "uaxl" 1000] (AddRewards run_pool).
Definition run3 : World := next run2 101 "vv" [] (RecordParticipation "eth" "e1" "v1").
Definition run4 : World := next run3 101 "vv" [] (RecordParticipation "eth" "e1" "v2").
Definition run5 : World := next run4 102 "vv" [] (RecordParticipation "eth" "e2" "v1").
Definition run6 : World := next run5 125 "anyone" [] (DistributeRewards run_pool None).
Definition run7 : World := next run6 137 "anyone" [] (DistributeRewards run_pool None).

Lemma rewards_run_next w log h sender funds m :
  run w log → now w ≤ h ≤ u64_max → msg_wf m → Forall (λ c, 0 ≤ amount c) funds →
  is_ok (execute (st w) h sender funds m) = true →
  ∃ s r, execute (st w) h sender funds m = Ok (s, r) ∧ s = st (next w h sender funds m) ∧
         run (next w h sender funds m) (log ++ paid (st w) m r).
Proof.
  intros Hr Hh Hm Hfunds [[s r] Hf]%is_ok_true. exists s, r. unfold next. rewrite Hf.
  split; [done|]. split; [done|]. by eapply run_execute.
Qed.

Lemma run_params_wf : params_wf run_params.
Proof. unfold params_wf, threshold.wf, u64_max, u128_max. cbn. lia. Qed.

(** The transfers of a call, and the log with the payment that they are. *)
Definition sends (w : World) (h : Z) (sender : Addr) (m : ExecuteMsg) : list OutMsg :=
  match execute (st w) h sender [] m with Ok (_, r) => messages r | _ => [] end.
Definition log6 : list Payment :=
  [mkPayment (Some run_pool) (st run5) (sends run5 125 "anyone" (DistributeRewards run_pool None))].
Definition log7 : list Payment :=
  log6 ++ [mkPayment (Some run_pool) (st run6) (sends run6 137 "anyone" (DistributeRewards run_pool None))].

Lemma rewards_run2 : run run2 [].
Proof.
  destruct (rewards_run_next run1 [] 100 "donor" [mkCoin "uaxl" 1000] (AddRewards run_pool))
    as (s & r & Hf & _ & Hr); [|vm_compute; split; discriminate|done| |vm_compute; reflexivity|].
  - destruct (rewards_run_next run0 [] 100 "gov" [] (CreatePool run_params run_pool))
      as (s & r & Hf & _ & Hr); [|vm_compute; split; discriminate|apply run_params_wf|constructor|
      vm_compute; reflexivity|].
    + by apply (run_instantiate (mkInstantiate "gov" "uaxl") _ Response_new 100 0).
    + vm_compute in Hf. injection Hf as <- <-. exact Hr.
  - constructor; [|constructor]. vm_compute. discriminate.
  - vm_compute in Hf. injection Hf as <- <-. exact Hr.
Qed.

Lemma rewards_run_record w log h eid v :
  run w log → now w ≤ h ≤ u64_max →
  is_ok (execute (st w) h "vv" [] (RecordParticipation "eth" eid v)) = true →
  sends w h "vv" (RecordParticipation "eth" eid v) = [] →
  run (next w h "vv" [] (RecordParticipation "eth" eid v)) log.
Proof.
  intros Hr Hh Hok. destruct (rewards_run_next w log h "vv" [] (RecordParticipation "eth" eid v))
    as (s & r & Hf & _ & Hr'); [done|done|done|constructor|done|].
  unfold sends. rewrite Hf. intros Hs. unfold paid in Hr'. rewrite Hs in Hr'. by rewrite app_nil_r in Hr'.
Qed.

Lemma rewards_run5 : run run5 [].
Proof.
  do 3 (apply rewards_run_record;
    [|vm_compute; split; discriminate|vm_compute; reflexivity|vm_compute; reflexivity]).
  exact rewards_run2.
Qed.

Lemma rewards_run_distribute w log h :
  run w log → now w ≤ h ≤ u64_max →
  is_ok (execute (st w) h "anyone" [] (DistributeRewards run_pool None)) = true →
  ∃ r, execute (st w) h "anyone" [] (DistributeRewards run_pool None) =
      Ok (st (next w h "anyone" [] (DistributeRewards run_pool None)), r) ∧
    run (next w h "anyone" [] (DistributeRewards run_pool None))
      (log ++ [mkPayment (Some run_pool) (st w) (sends w h "anyone" (DistributeRewards run_pool None))]).
Proof.
  intros Hr Hh Hok.
  destruct (rewards_run_next w log h "anyone" [] (DistributeRewards run_pool None))
    as (s & r & Hf & -> & Hr'); [done|done|done|constructor|done|].
  exists r. split; [exact Hf|]. unfold sends. rewrite Hf. exact Hr'.
Qed.

Lemma rewards_run6 : ∃ r, run run6 log6 ∧
  execute (st run5) 125 "anyone" [] (DistributeRewards run_pool None) = Ok (st run6, r).
Proof.
  destruct (rewards_run_distribute run5 [] 125 rewards_run5) as (r & Hf & Hr);
    [vm_compute; split; discriminate|vm_compute; reflexivity|]. exists r. exact (conj Hr Hf).
Qed.
Lemma rewards_run7 : run run7 log7.
Proof.
  destruct rewards_run6 as (_ & Hr & _). destruct (rewards_run_distribute run6 log6 137 Hr) as (r & _ & Hr');
    [vm_compute; split; discriminate|vm_compute; reflexivity|]. exact Hr'.
Qed.

(** After the payment of one epoch the pool still promises 900, which the contract holds. *)
Lemma pools_backed_witness : pools_total (st run6) ≤ held run6 ∧ pools_total (st run6) = 900.
Proof.
  destruct rewards_run6 as (r & Hr & _). split; [exact (pools_backed run6 log6 Hr)|].
  vm_compute. reflexivity.
Defined.

(** Two distributions: the first pays epoch 0, the second epoch 1, in which nothing is due. *)
Lemma no_epoch_paid_twice_witness :
  run run7 log7 ∧ payments_from run_pool log7 = log7 ∧ settled run_pool log7 2 ∧
  (pay_transfers <$> log7) =
    [[BankSend "v1" (mkCoin "uaxl" 50); BankSend "v2" (mkCoin "uaxl" 50)]; []].
Proof.
  split; [exact rewards_run7|]. split; [vm_compute; reflexivity|]. split; [|vm_compute; reflexivity].
  exact (proj1 (proj2 (no_epoch_paid_twice run7 log7 run_pool rewards_run7))).
Defined.

(** Both verifiers reached half of the two events of epoch 0 and share its 100 tokens. *)
Lemma distribution_exact_witness :
  ∃ d r, execute (st run5) 125 "anyone" [] (DistributeRewards run_pool None) = Ok (st run6, r) ∧
    r = add_event (RewardsDistributed d) (add_messages
          ((λ '(v, x), BankSend (default (verifier_address v) (proxy_address v)) (mkCoin "uaxl" x))
             <$> distributed d) Response_new) ∧
    (mkVerifier "v2" None, 50) ∈ distributed d.
Proof.
  pose proof rewards_run5 as Hr. destruct rewards_run6 as (r & _ & Hf).
  destruct (distribution_exact run5 [] 125 "anyone" [] run_pool None (st run6) r Hr)
    as (p & pool & e & to & den & d & Hp & Hpool & He & Hden & Hfrom & Hto & Hr' & _ & Hd & _ & _);
    [vm_compute; split; discriminate|done|exact Hf|].
  exists d, r. split; [exact Hf|].
  assert (p = run_pool) as -> by (vm_compute in Hp; injection Hp as <-; reflexivity).
  assert (den = "uaxl") as -> by (vm_compute in Hden; congruence).
  split; [exact Hr'|]. apply Hd.
  assert (e = mkEpoch 2 120) as -> by (vm_compute in Hpool; injection Hpool as <-; vm_compute in He; congruence).
  assert (first_unpaid (st run5) run_pool = 0) as Hz by (vm_compute; reflexivity).
  rewrite Hz in *. unfold EPOCH_PAYOUT_DELAY in Hto. cbn in Hto. assert (to = 0) as -> by lia.
  split; [vm_compute; reflexivity|]. split; [vm_compute; reflexivity|lia].
Defined.

Lemma distribution_live_witness :
  ∃ s r, execute (st run5) 125 "v2" [] (DistributeRewards run_pool (Some 1)) = Ok (s, r) ∧
         WATERMARKS s !! run_pool = Some 0.
Proof.
  pose proof rewards_run5 as Hr.
  apply (distribution_live run5 [] 125 "v2" [] run_pool (Some 1) run_pool
    (mkPool run_pool 1000 (mkParamsSnapshot run_params (mkEpoch 0 100))) (mkEpoch 2 120) Hr);
    try (vm_compute; reflexivity); vm_compute; try split; discriminate.
Defined.

(** The late vote of v2 on e2 is recorded and leaves the paid epoch as it was. *)
Lemma paid_epochs_are_closed_witness :
  ∃ s r, execute (st run6) 130 "vv" [] (RecordParticipation "eth" "e2" "v2") = Ok (s, r) ∧
    (λ t, (event_count t, tally_params t)) <$> TALLIES s !! (run_pool, 0) =
    (λ t, (event_count t, tally_params t)) <$> TALLIES (st run6) !! (run_pool, 0).
Proof.
  destruct rewards_run6 as (_ & Hr & _).
  destruct (is_ok_true (execute (st run6) 130 "vv" [] (RecordParticipation "eth" "e2" "v2")))
    as [[s r] Hf]; [vm_compute; reflexivity|]. exists s, r. split; [exact Hf|].
  apply (paid_epochs_are_closed run6 log6 130 "vv" [] (RecordParticipation "eth" "e2" "v2") s r
    run_pool 0 0 Hr);
    [vm_compute; split; discriminate|done|constructor|exact Hf|vm_compute; reflexivity|done].
Defined.

Lemma epoch_numbering_witness :
  ∃ pool e, POOLS (st run6) !! run_pool = Some pool ∧
    Epoch_current (pool_params pool) 137 = Ok e ∧ block_height_started e ≤ 137.
Proof.
  destruct rewards_run6 as (_ & Hr & _).
  destruct (epoch_numbering run6 log6 run_pool
    (mkPool run_pool 900 (mkParamsSnapshot run_params (mkEpoch 0 100))) 137 Hr)
    as (e & He & Hs & _); [vm_compute; reflexivity|vm_compute; split; discriminate|].
  eexists _, e. split; [vm_compute; reflexivity|]. split; [exact He|]. apply Hs.
Defined.

Lemma zero_limit_processes_first_epoch_witness :
  distribute_rewards (st run5) run_pool 125 (Some 0) =
  distribute_rewards (st run5) run_pool 125 (Some 1) ∧
  distribute_rewards (st run6) run_pool 145 (Some 0) = Err NoRewardsToDistribute.
Proof.
  pose proof rewards_run5 as Hr. destruct rewards_run6 as (_ & Hr' & _). split.
  - apply (proj1 (zero_limit_processes_first_epoch (st run5) run_pool 125
      (wi_inv _ (run_inv _ _ Hr)) ltac:(vm_compute; discriminate))).
    vm_compute. reflexivity.
  - apply (proj2 (zero_limit_processes_first_epoch (st run6) run_pool 145
      (wi_inv _ (run_inv _ _ Hr')) ltac:(vm_compute; discriminate)) 0 (mkEpoch 4 140));
      vm_compute; reflexivity.
Defined.

End rewards_run.
