(* ===== verification/ServiceRegistry.v ===== *)
(** * The service registry contract

    [contracts/service-registry/src]: services, verifiers and their bonds ([state.rs]), the
    handlers ([contract/execute.rs]), the queries ([contract/query.rs]) and the entry points
    with their permissions ([contract.rs]); the types are those of
    [packages/service-registry-api/src].

    Sections: the data and the storage accessors, the handlers, the queries (with the choice
    of the verifiers when a service limits their number), then the invariant of the storage,
    the runs of the contract with the coins it holds, and the properties. *)

From S2P Require Import Prelude Std MsgId Voting.

Module service_registry.
Import snapshot.

(** ** Data ([service-registry-api/src/primitives.rs], [error.rs], [msg.rs]) *)

(** A time is a number of nanoseconds since the epoch ([cosmwasm_std::Timestamp]). *)
Inductive BondingState :=
  | Bonded (amount : Z)
  | RequestedUnbonding (amount : Z)
  | Unbonding (amount : Z) (unbonded_at : Z)
  | Unbonded.
#[global] Instance BondingState_eq_dec : EqDecision BondingState.
Proof. solve_decision. Defined.

Inductive AuthorizationState := NotAuthorized | Authorized | Jailed.
#[global] Instance AuthorizationState_eq_dec : EqDecision AuthorizationState.
Proof. solve_decision. Defined.

Record Service := mkService {
  name : string;
  coordinator_contract : Addr;
  min_num_verifiers : Z;
  max_num_verifiers : option Z;
  min_verifier_bond : Z;
  bond_denom : string;
  unbonding_period_days : Z;
  description : string
}.

Record Verifier := mkVerifier {
  verifier_address : Addr;
  bonding_state : BondingState;
  authorization_state : AuthorizationState;
  service_name : string
}.

#[global] Instance Verifier_eq_dec : EqDecision Verifier.
Proof. solve_decision. Defined.

Record WeightedVerifier := mkWeighted { verifier_info : Verifier; w_weight : Z }.
#[global] Instance WeightedVerifier_eq_dec : EqDecision WeightedVerifier.
Proof. solve_decision. Defined.

(** [From<WeightedVerifier> for Participant] *)
Definition Participant_from (v : WeightedVerifier) : Participant :=
  mkParticipant (verifier_address (verifier_info v)) (w_weight v).

Inductive ContractError :=
  | Overflow
  | NonEmpty (e : nonempty.Error)
  | AuthorizedVerifiersIntegerOverflow
  | VerifierLimitExceeded
  | MaxVerifiersSetBelowCurrent (max current : Z)
  | ServiceAlreadyExists
  | ServiceNotFound
  | ServiceOverrideNotFound
  | WrongDenom
  | VerifierNotFound
  | InvalidBondingState (s : BondingState)
  | NoFundsToBond
  | NotEnoughVerifiers
  | VerifierJailed
  | FailedToUnbondVerifier
  | StorageError.

Record UpdatedServiceParams := mkUpdatedParams {
  u_min_num_verifiers : option Z;
  u_max_num_verifiers : option (option Z);
  u_min_verifier_bond : option Z;
  u_unbonding_period_days : option Z
}.

Record ServiceParamsOverride := mkOverride {
  o_min_num_verifiers : option Z;
  o_max_num_verifiers : option (option Z)
}.

Definition u16_max : Z := 65535.
Definition i16_min : Z := -32768.
Definition i16_max : Z := 32767.

(** [VERIFIERS_PER_CHAIN] is nested by its key prefix: service, chain, verifier. *)
Record State := mkState {
  perm : permission_control.Storage;
  SERVICES : gmap string Service;
  SERVICE_OVERRIDES : gmap (string * string) ServiceParamsOverride;
  AUTHORIZED_VERIFIER_COUNT : gmap string Z;
  VERIFIERS : gmap (string * string) Verifier;
  VERIFIERS_PER_CHAIN : gmap (string * string) (gmap string unit)
}.

Definition set_services (st : State) m : State :=
  mkState (perm st) m (SERVICE_OVERRIDES st) (AUTHORIZED_VERIFIER_COUNT st) (VERIFIERS st)
    (VERIFIERS_PER_CHAIN st).
Definition set_overrides (st : State) m : State :=
  mkState (perm st) (SERVICES st) m (AUTHORIZED_VERIFIER_COUNT st) (VERIFIERS st)
    (VERIFIERS_PER_CHAIN st).
Definition set_counts (st : State) m : State :=
  mkState (perm st) (SERVICES st) (SERVICE_OVERRIDES st) m (VERIFIERS st)
    (VERIFIERS_PER_CHAIN st).
Definition set_verifiers (st : State) m : State :=
  mkState (perm st) (SERVICES st) (SERVICE_OVERRIDES st) (AUTHORIZED_VERIFIER_COUNT st) m
    (VERIFIERS_PER_CHAIN st).
Definition set_per_chain (st : State) m : State :=
  mkState (perm st) (SERVICES st) (SERVICE_OVERRIDES st) (AUTHORIZED_VERIFIER_COUNT st)
    (VERIFIERS st) m.

(** ** Storage ([state.rs]) *)

Definition VERIFIER_WEIGHT : Z := 1.

Definition service (st : State) (service_name : string) (chain : option string)
    : result ContractError Service :=
  s ← ok_or ServiceNotFound (SERVICES st !! service_name);
  Ok match chain ≫= (λ chain, SERVICE_OVERRIDES st !! (service_name, chain)) with
     | Some o =>
         mkService (name s) (coordinator_contract s)
           (default (min_num_verifiers s) (o_min_num_verifiers o))
           (default (max_num_verifiers s) (o_max_num_verifiers o))
           (min_verifier_bond s) (bond_denom s) (unbonding_period_days s) (description s)
     | None => s
     end.

Definition save_new_service (st : State) (service_name : string) (s : Service)
    : result ContractError State :=
  _ ← ensure (bool_decide (AUTHORIZED_VERIFIER_COUNT st !! service_name = None)) StorageError;
  let st := set_counts st (<[service_name := 0]> (AUTHORIZED_VERIFIER_COUNT st)) in
  _ ← ensure (bool_decide (SERVICES st !! service_name = None)) ServiceAlreadyExists;
  Ok (set_services st (<[service_name := s]> (SERVICES st))).

Definition has_service (st : State) (service_name : string) : bool :=
  bool_decide (is_Some (SERVICES st !! service_name)).

Definition number_of_authorized_verifiers (st : State) (service_name : string)
    : result ContractError Z :=
  ok_or ServiceNotFound (AUTHORIZED_VERIFIER_COUNT st !! service_name).

Definition state_update_service (st : State) (service_name : string) (p : UpdatedServiceParams)
    : result ContractError State :=
  _ ← match u_max_num_verifiers p with
      | Some (Some max_verifiers_limit) =>
          current_authorized ← number_of_authorized_verifiers st service_name;
          ensure (bool_decide (current_authorized ≤ max_verifiers_limit))
            (MaxVerifiersSetBelowCurrent max_verifiers_limit current_authorized)
      | _ => Ok tt
      end;
  s ← ok_or ServiceNotFound (SERVICES st !! service_name);
  Ok (set_services st (<[service_name :=
        mkService (name s) (coordinator_contract s)
          (default (min_num_verifiers s) (u_min_num_verifiers p))
          (default (max_num_verifiers s) (u_max_num_verifiers p))
          (default (min_verifier_bond s) (u_min_verifier_bond p))
          (bond_denom s)
          (default (unbonding_period_days s) (u_unbonding_period_days p))
          (description s)]> (SERVICES st))).

Definition save_service_override (st : State) (service_name chain : string)
    (o : ServiceParamsOverride) : result ContractError State :=
  _ ← ensure (has_service st service_name) ServiceNotFound;
  Ok (set_overrides st (<[(service_name, chain) := o]> (SERVICE_OVERRIDES st))).

Definition remove_service_override (st : State) (service_name chain : string)
    : result ContractError State :=
  _ ← ensure (bool_decide (is_Some (SERVICE_OVERRIDES st !! (service_name, chain))))
        ServiceOverrideNotFound;
  Ok (set_overrides st (delete (service_name, chain) (SERVICE_OVERRIDES st))).

Definition may_load_service_params_override (st : State) (service_name chain : string)
    : option ServiceParamsOverride := SERVICE_OVERRIDES st !! (service_name, chain).

Definition calculate_auth_verifier_count_change (previous_state : option AuthorizationState)
    (auth_state : AuthorizationState) : Z :=
  match previous_state, auth_state with
  | Some Authorized, Authorized => 0
  | Some Authorized, _ => -1
  | _, Authorized => 1
  | _, _ => 0
  end.

(** [u16::checked_add_signed] *)
Definition checked_add_signed (current change : Z) : option Z :=
  if bool_decide (0 ≤ current + change ≤ u16_max) then Some (current + change) else None.

Definition apply_authorized_count_change (st : State) (service_name : string) (change : Z)
    : result ContractError State :=
  if bool_decide (change = 0) then Ok st
  else
    count ← map_err (λ _, StorageError)
      (current ← ok_or ServiceNotFound (AUTHORIZED_VERIFIER_COUNT st !! service_name);
       ok_or AuthorizedVerifiersIntegerOverflow (checked_add_signed current change));
    Ok (set_counts st (<[service_name := count]> (AUTHORIZED_VERIFIER_COUNT st))).

(** [i16::checked_add] *)
Definition checked_add_i16 (a b : Z) : option Z :=
  if bool_decide (i16_min ≤ a + b ≤ i16_max) then Some (a + b) else None.

(** One turn of the loop over the verifiers: the storage and the running change. *)
Definition authorize_one (service_name' : string) (auth_state : AuthorizationState)
    (acc : State * Z) (verifier_addr : Addr) : result ContractError (State * Z) :=
  let '(st, change) := acc in
  let existing := VERIFIERS st !! (service_name', verifier_addr) in
  change ← map_err (λ _, StorageError) (ok_or AuthorizedVerifiersIntegerOverflow
    (checked_add_i16 change
       (calculate_auth_verifier_count_change (authorization_state <$> existing) auth_state)));
  let v := match existing with
           | Some v => mkVerifier (verifier_address v) (bonding_state v) auth_state
                         (service_name v)
           | None => mkVerifier verifier_addr Unbonded auth_state service_name'
           end in
  Ok (set_verifiers st (<[(service_name', verifier_addr) := v]> (VERIFIERS st)), change).

Definition state_update_verifier_authorization_status (st : State) (service_name : string)
    (auth_state : AuthorizationState) (verifiers : list Addr) : result ContractError State :=
  '(st, authorized_count_change) ← try_fold (authorize_one service_name auth_state) (st, 0)
                                     verifiers;
  apply_authorized_count_change st service_name authorized_count_change.

Definition state_bond_verifier (verifier : Verifier) (to_add : option Z)
    : result ContractError Verifier :=
  amount ← match bonding_state verifier with
           | Bonded amount | RequestedUnbonding amount | Unbonding amount _ =>
               sum ← ok_or Overflow (checked_add u128_max amount (default 0 to_add));
               map_err NonEmpty (nonempty.uint_try_from sum)
           | Unbonded => ok_or NoFundsToBond to_add
           end;
  Ok (mkVerifier (verifier_address verifier) (Bonded amount) (authorization_state verifier)
        (service_name verifier)).

Definition state_unbond_verifier (verifier : Verifier) (can_unbond : bool) (time : Z)
    : result ContractError Verifier :=
  _ ← ensure (bool_decide (authorization_state verifier ≠ Jailed)) VerifierJailed;
  s ← match bonding_state verifier with
      | Bonded amount | RequestedUnbonding amount =>
          Ok (if can_unbond then Unbonding amount time else RequestedUnbonding amount)
      | s => Err (InvalidBondingState s)
      end;
  Ok (mkVerifier (verifier_address verifier) s (authorization_state verifier)
        (service_name verifier)).

(** The nanoseconds of a day; [Timestamp::plus_days] panics on overflow. *)
Definition DAY : Z := 24 * 60 * 60 * 1000000000.
Definition plus_days {E} (t days : Z) : result E Z := expect (checked_add u64_max t (days * DAY)).

Definition claim_verifier_stake (verifier : Verifier) (time unbonding_period_days : Z)
    : result ContractError (Verifier * Z) :=
  _ ← ensure (bool_decide (authorization_state verifier ≠ Jailed)) VerifierJailed;
  match bonding_state verifier with
  | Unbonding amount unbonded_at as s =>
      claimable_at ← plus_days unbonded_at unbonding_period_days;
      if bool_decide (claimable_at ≤ time)
      then Ok (mkVerifier (verifier_address verifier) Unbonded (authorization_state verifier)
                 (service_name verifier), amount)
      else Err (InvalidBondingState s)
  | s => Err (InvalidBondingState s)
  end.

Definition verifiers_of (st : State) (service_name chain : string) : gmap string unit :=
  default ∅ (VERIFIERS_PER_CHAIN st !! (service_name, chain)).

Definition state_register_chains_support (st : State) (service_name : string)
    (chains : list string) (verifier : Addr) : State :=
  foldl (λ st chain, set_per_chain st
    (<[(service_name, chain) := <[verifier := tt]> (verifiers_of st service_name chain)]>
       (VERIFIERS_PER_CHAIN st))) st chains.

Definition state_deregister_chains_support (st : State) (service_name : string)
    (chains : list string) (verifier : Addr) : State :=
  foldl (λ st chain, set_per_chain st
    (<[(service_name, chain) := delete verifier (verifiers_of st service_name chain)]>
       (VERIFIERS_PER_CHAIN st))) st chains.

(** ** Handlers ([contract/execute.rs]) *)

(** The block and what the coordinator contract answers: [ready_to_unbond contract verifier]. *)
Record Env := mkEnv {
  height : Z;
  time : Z;
  ready_to_unbond : Addr → Addr → option bool
}.

Inductive Event :=
  | ChainsSupportRegistered (verifier : Addr) (service_name : string) (chains : list string)
  | ChainsSupportDeregistered (verifier : Addr) (service_name : string) (chains : list string).

(** [BankMsg::Send] of one coin. *)
Inductive OutMsg := BankSend (to_address : Addr) (coin : Coin).

Notation SResponse := (Response OutMsg Event).

Definition ensure_service_exists (st : State) (service_name : string) : result ContractError unit :=
  ensure (has_service st service_name) ServiceNotFound.

Definition ensure_authorization_max_limit_respected (st : State) (service_name : string)
    : result ContractError unit :=
  s ← service st service_name None;
  match max_num_verifiers s with
  | Some max_limit =>
      count ← number_of_authorized_verifiers st service_name;
      ensure (bool_decide (count ≤ max_limit)) VerifierLimitExceeded
  | None => Ok tt
  end.

Definition register_service (st : State) (s : Service) : result ContractError (State * SResponse) :=
  st ← save_new_service st (name s) s;
  Ok (st, Response_new).

Definition update_verifier_authorization_status (st : State) (verifiers : list Addr)
    (service_name : string) (auth_state : AuthorizationState)
    : result ContractError (State * SResponse) :=
  _ ← ensure_service_exists st service_name;
  st ← state_update_verifier_authorization_status st service_name auth_state verifiers;
  _ ← (if bool_decide (auth_state = Authorized)
       then ensure_authorization_max_limit_respected st service_name else Ok tt);
  Ok (st, Response_new).

Definition update_service (st : State) (service_name : string) (p : UpdatedServiceParams)
    : result ContractError (State * SResponse) :=
  st ← state_update_service st service_name p;
  Ok (st, Response_new).

Definition override_service_params (st : State) (service_name chain : string)
    (o : ServiceParamsOverride) : result ContractError (State * SResponse) :=
  st ← save_service_override st service_name chain o;
  Ok (st, Response_new).

Definition remove_service_params_override (st : State) (service_name chain : string)
    : result ContractError (State * SResponse) :=
  st ← remove_service_override st service_name chain;
  Ok (st, Response_new).

(** The bond attached to a message: none, or the first coin of the bond denomination. *)
Definition attached_bond (s : Service) (funds : list Coin) : result ContractError (option Z) :=
  match funds with
  | [] => Ok None
  | _ =>
      '(_, coin) ← ok_or WrongDenom (list_find (λ c, denom c = bond_denom s) funds);
      a ← map_err NonEmpty (nonempty.uint_try_from (amount coin));
      Ok (Some a)
  end.

Definition bond_verifier (st : State) (sender : Addr) (funds : list Coin) (service_name : string)
    : result ContractError (State * SResponse) :=
  s ← service st service_name None;
  bond ← attached_bond s funds;
  v ← match VERIFIERS st !! (service_name, sender) with
      | Some verifier => state_bond_verifier verifier bond
      | None =>
          amount ← ok_or NoFundsToBond bond;
          Ok (mkVerifier sender (Bonded amount) NotAuthorized service_name)
      end;
  Ok (set_verifiers st (<[(service_name, sender) := v]> (VERIFIERS st)), Response_new).

Definition register_chains_support (st : State) (sender : Addr) (service_name : string)
    (chains : list string) : result ContractError (State * SResponse) :=
  _ ← ensure_service_exists st service_name;
  Ok (state_register_chains_support st service_name chains sender,
      add_event (ChainsSupportRegistered sender service_name chains) Response_new).

Definition deregister_chains_support (st : State) (sender : Addr) (service_name : string)
    (chains : list string) : result ContractError (State * SResponse) :=
  _ ← ensure_service_exists st service_name;
  Ok (state_deregister_chains_support st service_name chains sender,
      add_event (ChainsSupportDeregistered sender service_name chains) Response_new).

Definition unbond_verifier (st : State) (env : Env) (sender : Addr) (service_name : string)
    : result ContractError (State * SResponse) :=
  s ← service st service_name None;
  verifier ← ok_or VerifierNotFound (VERIFIERS st !! (service_name, sender));
  ready ← ok_or FailedToUnbondVerifier
    (ready_to_unbond env (coordinator_contract s) (verifier_address verifier));
  verifier ← state_unbond_verifier verifier ready (time env);
  Ok (set_verifiers st (<[(service_name, sender) := verifier]> (VERIFIERS st)), Response_new).

Definition claim_stake (st : State) (env : Env) (sender : Addr) (service_name : string)
    : result ContractError (State * SResponse) :=
  s ← service st service_name None;
  verifier ← ok_or VerifierNotFound (VERIFIERS st !! (service_name, sender));
  '(verifier, released_bond) ← claim_verifier_stake verifier (time env) (unbonding_period_days s);
  Ok (set_verifiers st (<[(service_name, sender) := verifier]> (VERIFIERS st)),
      add_message (BankSend sender (mkCoin (bond_denom s) released_bond)) Response_new).

(** ** Queries ([contract/query.rs]) *)

(** [slice::select_nth_unstable_by] leaves the order unspecified beyond what
    [SelectNthSpec] says, hence an operation of a class. *)
Class SelectNth := { select_nth : ∀ {A}, (A → A → comparison) → nat → list A → list A }.

(** [Keccak256] *)
Class Keccak := { keccak : string → string }.

Section queries.
Context `{SelectNth} `{Keccak}.

Definition hash_address_with_seed (address : Addr) (seed : Z) : string :=
  keccak (address +:+ to_be_bytes 8 seed).

(** The comparison of the first selection: heavier verifiers first. *)
Definition by_weight (a b : WeightedVerifier) : comparison := Z.compare (w_weight b) (w_weight a).

(** The comparison of the second one: among the verifiers of the cutoff weight, by hash. *)
Definition by_weight_then_hash (cutoff_weight block_height : Z) (a b : WeightedVerifier)
    : comparison :=
  match by_weight a b with
  | Eq =>
      if bool_decide (w_weight a = cutoff_weight)
      then String.compare
             (hash_address_with_seed (verifier_address (verifier_info a)) block_height)
             (hash_address_with_seed (verifier_address (verifier_info b)) block_height)
      else Eq
  | c => c
  end.

Definition select_top_verifiers {E} (verifiers : list WeightedVerifier) (max_verifiers : Z)
    (block_height : Z) : result E (list WeightedVerifier) :=
  if bool_decide (Z.of_nat (length verifiers) ≤ max_verifiers) then Ok verifiers
  else
    let cutoff_idx := Z.to_nat (saturating_sub max_verifiers 1) in
    let verifiers := select_nth by_weight cutoff_idx verifiers in
    cutoff ← expect (verifiers !! cutoff_idx);
    let verifiers := select_nth (by_weight_then_hash (w_weight cutoff) block_height) cutoff_idx
                       verifiers in
    Ok (take (Z.to_nat max_verifiers) verifiers).

(** Bonded with enough stake. *)
Definition is_bonded (s : Service) (v : Verifier) : bool :=
  match bonding_state v with
  | Bonded amount => bool_decide (min_verifier_bond s ≤ amount)
  | _ => false
  end.

(** The verifiers that support the chain, in the order of their addresses. *)
Definition eligible_verifiers (st : State) (s : Service) (service_name chain_name : string)
    : list WeightedVerifier :=
  (λ v, mkWeighted v VERIFIER_WEIGHT) <$>
    filter (λ v, authorization_state v = Authorized)
      (filter (λ v, is_bonded s v)
        (omap (λ '(addr, _), VERIFIERS st !! (service_name, addr))
           (entries (verifiers_of st service_name chain_name)))).

Definition active_verifiers (st : State) (block_height : Z) (service_name chain_name : string)
    : result ContractError (list WeightedVerifier) :=
  s ← service st service_name (Some chain_name);
  let verifiers := eligible_verifiers st s service_name chain_name in
  _ ← ensure (negb (bool_decide (Z.of_nat (length verifiers) < min_num_verifiers s)))
        NotEnoughVerifiers;
  match max_num_verifiers s with
  | Some max_verifiers => select_top_verifiers verifiers max_verifiers block_height
  | None => Ok verifiers
  end.

Record VerifierDetails := mkDetails {
  d_verifier : Verifier;
  d_weight : Z;
  d_supported_chains : list string
}.

(** The chains of a verifier come from an index whose keys are length-prefixed: shorter
    names first. *)
Definition key_order (c d : string) : Prop :=
  (String.length c < String.length d)%nat ∨
  (String.length c = String.length d ∧ String.le c d).
#[global] Instance key_order_dec : RelDecision key_order.
Proof. intros c d. unfold key_order. apply _. Defined.

Definition supported_chains (st : State) (service_name : string) (verifier : Addr) : list string :=
  merge_sort key_order (omap (λ '((s, chain), vs),
    if bool_decide (s = service_name ∧ is_Some (vs !! verifier)) then Some chain else None)
    (map_to_list (VERIFIERS_PER_CHAIN st))).

Definition query_verifier `{Api} (st : State) (service_name verifier : string)
    : result (ContractError + StdError) VerifierDetails :=
  verifier_addr ← map_err inr (addr_validate verifier);
  v ← ok_or (inl VerifierNotFound) (VERIFIERS st !! (service_name, verifier_addr));
  Ok (mkDetails v VERIFIER_WEIGHT (supported_chains st service_name verifier_addr)).

Definition query_service (st : State) (service_name : string) (chain_name : option string)
    : result ContractError Service := service st service_name chain_name.

Definition query_service_params_override (st : State) (service_name chain_name : string)
    : option ServiceParamsOverride := may_load_service_params_override st service_name chain_name.

End queries.

(** ** Entry points ([contract.rs]) *)

Inductive ExecuteMsg :=
  | RegisterService (s : Service)
  | UpdateService (service_name : string) (p : UpdatedServiceParams)
  | OverrideServiceParams (service_name chain_name : string) (o : ServiceParamsOverride)
  | RemoveServiceParamsOverride (service_name chain_name : string)
  | AuthorizeVerifiers (verifiers : list string) (service_name : string)
  | UnauthorizeVerifiers (verifiers : list string) (service_name : string)
  | JailVerifiers (verifiers : list string) (service_name : string)
  | RegisterChainSupport (service_name : string) (chains : list string)
  | DeregisterChainSupport (service_name : string) (chains : list string)
  | BondVerifier (service_name : string)
  | UnbondVerifier (service_name : string)
  | ClaimStake (service_name : string).

Definition permissions (m : ExecuteMsg) : msgs_derive.MsgPermissions :=
  match m with
  | RegisterChainSupport _ _ | DeregisterChainSupport _ _ =>
      msgs_derive.mkPerm ["verifier"] [] []
  | BondVerifier _ | UnbondVerifier _ | ClaimStake _ =>
      msgs_derive.mkPerm [] [permission_control.Any] []
  | _ => msgs_derive.mkPerm [] [permission_control.Governance] []
  end.

Definition match_verifier (st : State) (sender_addr : Addr) (m : ExecuteMsg)
    : result permission_control.Error bool :=
  service_name ← match m with
                 | RegisterChainSupport service_name _
                 | DeregisterChainSupport service_name _ => Ok service_name
                 | _ => Err permission_control.WrongVariant
                 end;
  match VERIFIERS st !! (service_name, sender_addr) with
  | Some v => Ok (bool_decide (verifier_address v = sender_addr))
  | None =>
      _ ← map_err (λ _, permission_control.Unauthorized) (service st service_name None);
      Err permission_control.Unauthorized
  end.

Inductive ExecuteError :=
  | Permission (e : permission_control.Error)
  | Contract (e : ContractError)
  | InvalidAddress (address : string).

Section contract.
Context `{Api}.

Definition validate_cosmwasm_address (addr : string) : result ExecuteError Addr :=
  map_err (λ _, InvalidAddress addr) (addr_validate addr).

Definition instantiate (governance_account : string) : result ExecuteError (State * SResponse) :=
  governance ← validate_cosmwasm_address governance_account;
  let perm := permission_control.set_governance (permission_control.mkStorage None None)
                governance in
  Ok (mkState perm ∅ ∅ ∅ ∅ ∅, Response_new).

(** In [RegisterService] the coordinator of the message is validated first. *)
Definition execute (st : State) (env : Env) (sender : Addr) (funds : list Coin) (m : ExecuteMsg)
    : result ExecuteError (State * SResponse) :=
  m ← map_err Permission (msgs_derive.ensure_permissions permissions
        (λ _, match_verifier st) (perm st) sender m);
  match m with
  | RegisterService s =>
      coordinator ← validate_cosmwasm_address (coordinator_contract s);
      map_err Contract (register_service st
        (mkService (name s) coordinator (min_num_verifiers s) (max_num_verifiers s)
           (min_verifier_bond s) (bond_denom s) (unbonding_period_days s) (description s)))
  | UpdateService service_name p => map_err Contract (update_service st service_name p)
  | OverrideServiceParams service_name chain_name o =>
      map_err Contract (override_service_params st service_name chain_name o)
  | RemoveServiceParamsOverride service_name chain_name =>
      map_err Contract (remove_service_params_override st service_name chain_name)
  | AuthorizeVerifiers verifiers service_name =>
      verifiers ← try_map validate_cosmwasm_address verifiers;
      map_err Contract
        (update_verifier_authorization_status st verifiers service_name Authorized)
  | UnauthorizeVerifiers verifiers service_name =>
      verifiers ← try_map validate_cosmwasm_address verifiers;
      map_err Contract
        (update_verifier_authorization_status st verifiers service_name NotAuthorized)
  | JailVerifiers verifiers service_name =>
      verifiers ← try_map validate_cosmwasm_address verifiers;
      map_err Contract (update_verifier_authorization_status st verifiers service_name Jailed)
  | RegisterChainSupport service_name chains =>
      map_err Contract (register_chains_support st sender service_name chains)
  | DeregisterChainSupport service_name chains =>
      map_err Contract (deregister_chains_support st sender service_name chains)
  | BondVerifier service_name => map_err Contract (bond_verifier st sender funds service_name)
  | UnbondVerifier service_name => map_err Contract (unbond_verifier st env sender service_name)
  | ClaimStake service_name => map_err Contract (claim_stake st env sender service_name)
  end.

End contract.

(** ** The invariant *)

(** The number of authorized verifiers of a service. *)
Definition authorized_count (st : State) (s : string) : Z :=
  map_sum (λ k v, if bool_decide (k.1 = s ∧ authorization_state v = Authorized) then 1 else 0)
    (VERIFIERS st).

(** The stake of a verifier, whatever its bonding state. *)
Definition stake (b : BondingState) : Z :=
  match b with Bonded x | RequestedUnbonding x | Unbonding x _ => x | Unbonded => 0 end.

Definition bonding_wf (b : BondingState) : Prop :=
  match b with
  | Bonded x | RequestedUnbonding x => 1 ≤ x ≤ u128_max
  | Unbonding x t => 1 ≤ x ≤ u128_max ∧ 0 ≤ t ≤ u64_max
  | Unbonded => True
  end.

Record inv (st : State) : Prop := {
  inv_service s x : SERVICES st !! s = Some x →
    name x = s ∧ 0 ≤ unbonding_period_days x ≤ u16_max ∧ is_Some (AUTHORIZED_VERIFIER_COUNT st !! s);
  inv_count s n : AUTHORIZED_VERIFIER_COUNT st !! s = Some n →
    is_Some (SERVICES st !! s) ∧ n = authorized_count st s ∧ n ≤ u16_max;
  inv_max s x m n : SERVICES st !! s = Some x → max_num_verifiers x = Some m →
    AUTHORIZED_VERIFIER_COUNT st !! s = Some n → n ≤ m;
  inv_verifier s a v : VERIFIERS st !! (s, a) = Some v →
    verifier_address v = a ∧ service_name v = s ∧ is_Some (SERVICES st !! s) ∧
    bonding_wf (bonding_state v);
  inv_per_chain s c a : is_Some (verifiers_of st s c !! a) → is_Some (VERIFIERS st !! (s, a))
}.

Lemma authorized_count_nonneg st s : 0 ≤ authorized_count st s.
Proof. apply map_sum_nonneg. intros k v _. case_bool_decide; lia. Qed.

Lemma stake_nonneg b : bonding_wf b → 0 ≤ stake b.
Proof. destruct b; cbn; lia. Qed.

Lemma authorized_count_insert st s a v s' :
  authorized_count (set_verifiers st (<[(s, a) := v]> (VERIFIERS st))) s' =
  authorized_count st s' +
  (if bool_decide (s' = s)
   then (if bool_decide (authorization_state v = Authorized) then 1 else 0) -
        (if bool_decide (authorization_state <$> VERIFIERS st !! (s, a) = Some Authorized) then 1 else 0)
   else 0).
Proof.
  unfold authorized_count. cbn. rewrite map_sum_insert. cbn.
  destruct (decide (s' = s)) as [->|Hne].
  - rewrite (bool_decide_eq_true_2 (s = s)) by done.
    rewrite (bool_decide_ext (s = s ∧ _) (authorization_state v = Authorized)) by naive_solver.
    destruct (VERIFIERS st !! (s, a)) as [v0|]; cbn;
      [|rewrite (bool_decide_eq_false_2 (None = Some Authorized)) by done; lia].
    rewrite (bool_decide_ext (s = s ∧ _) (authorization_state v0 = Authorized)) by naive_solver.
    rewrite (bool_decide_ext (Some _ = Some _) (authorization_state v0 = Authorized)) by (split; congruence).
    lia.
  - rewrite (bool_decide_eq_false_2 (s' = s)) by done.
    rewrite (bool_decide_eq_false_2 (s = s' ∧ authorization_state v = Authorized)) by naive_solver.
    destruct (VERIFIERS st !! (s, a)) as [v0|]; cbn; [|lia].
    rewrite (bool_decide_eq_false_2 (s = s' ∧ authorization_state v0 = Authorized)) by naive_solver.
    lia.
Qed.

Lemma count_change_spec prev auth :
  calculate_auth_verifier_count_change prev auth =
  (if bool_decide (auth = Authorized) then 1 else 0) -
  (if bool_decide (prev = Some Authorized) then 1 else 0).
Proof. destruct prev as [[]|], auth; reflexivity. Qed.

(** The entry of a verifier after its authorization was set. *)
Definition reauthorized (s : string) (a : Addr) (auth : AuthorizationState)
    (existing : option Verifier) : Verifier :=
  match existing with
  | Some v => mkVerifier (verifier_address v) (bonding_state v) auth (service_name v)
  | None => mkVerifier a Unbonded auth s
  end.

Lemma reauthorized_twice s a auth e :
  reauthorized s a auth (Some (reauthorized s a auth e)) = reauthorized s a auth e.
Proof. by destruct e. Qed.

Lemma authorize_loop s auth l st ch st' ch' :
  try_fold (authorize_one s auth) (st, ch) l = Ok (st', ch') →
  (∃ vs, st' = set_verifiers st vs) ∧
  (∀ s', authorized_count st' s' =
     authorized_count st s' + (if bool_decide (s' = s) then ch' - ch else 0)) ∧
  (∀ s' a, VERIFIERS st' !! (s', a) =
     if bool_decide (s' = s ∧ a ∈ l)
     then Some (reauthorized s a auth (VERIFIERS st !! (s, a))) else VERIFIERS st !! (s', a)).
Proof.
  revert st ch. induction l as [|b l IH]; intros st ch; cbn [try_fold].
  - intros [= <- <-]. split; [exists (VERIFIERS st); by destruct st|]. split.
    + intros s'. case_bool_decide; lia.
    + intros s' a. rewrite bool_decide_eq_false_2; [done|]. intros [_ Ha]. by apply not_elem_of_nil in Ha.
  - intros Hf. apply bind_Ok in Hf as ([st1 ch1] & H1 & Hf). unfold authorize_one in H1. ok_inv.
    simplify_eq. unfold checked_add_i16 in Hok. case_bool_decide; [|done]. injection Hok as <-.
    rewrite count_change_spec in Hf. set (v := match _ with Some _ => _ | None => _ end) in Hf.
    assert (v = reauthorized s b auth (VERIFIERS st !! (s, b))) as Hv by done.
    destruct (IH _ _ Hf) as ((vs & ->) & Hcount & Hlook). split; [by exists vs|]. split.
    + intros s'. rewrite Hcount, authorized_count_insert.
      assert (authorization_state v = auth) as -> by (rewrite Hv; by destruct (VERIFIERS st !! (s, b))).
      destruct (bool_decide (s' = s)); lia.
    + intros s' a. rewrite Hlook. cbn.
      destruct (decide (s' = s)) as [->|Hne]; [|rewrite !bool_decide_eq_false_2 by naive_solver;
        by rewrite lookup_insert_ne by congruence].
      destruct (decide (a ∈ l)) as [Hin|Hin]; destruct (decide (b = a)) as [->|Hba].
      * rewrite !bool_decide_eq_true_2 by (split; [done|]; rewrite ?elem_of_cons; auto).
        by rewrite lookup_insert_eq, Hv, reauthorized_twice.
      * rewrite !bool_decide_eq_true_2 by (split; [done|]; rewrite ?elem_of_cons; auto).
        by rewrite lookup_insert_ne by congruence.
      * rewrite bool_decide_eq_false_2 by naive_solver.
        rewrite bool_decide_eq_true_2 by (split; [done|]; rewrite ?elem_of_cons; auto).
        by rewrite lookup_insert_eq, Hv.
      * rewrite !bool_decide_eq_false_2 by (rewrite ?elem_of_cons; naive_solver).
        by rewrite lookup_insert_ne by congruence.
Qed.

(** Setting another state than [Authorized] never adds to the count. *)
Lemma authorize_loop_nonpos s auth l st ch st' ch' :
  auth ≠ Authorized → try_fold (authorize_one s auth) (st, ch) l = Ok (st', ch') → ch' ≤ ch.
Proof.
  intros Ha. revert st ch. induction l as [|b l IH]; intros st ch; cbn [try_fold].
  - intros [= <- <-]. done.
  - intros Hf. apply bind_Ok in Hf as ([st1 ch1] & H1 & Hf). unfold authorize_one in H1. ok_inv.
    simplify_eq. unfold checked_add_i16 in Hok. case_bool_decide; [|done]. injection Hok as <-.
    apply IH in Hf. rewrite count_change_spec, (bool_decide_eq_false_2 (auth = _)) in Hf by done.
    destruct (bool_decide _); lia.
Qed.

Lemma service_Ok st s x : service st s None = Ok x ↔ SERVICES st !! s = Some x.
Proof. unfold service. cbn. destruct (SERVICES st !! s); cbn; split; congruence. Qed.

Lemma apply_count_Ok st s ch st' :
  is_Some (AUTHORIZED_VERIFIER_COUNT st !! s) →
  apply_authorized_count_change st s ch = Ok st' →
  ∃ n, AUTHORIZED_VERIFIER_COUNT st !! s = Some n ∧
    st' = set_counts st (<[s := n + ch]> (AUTHORIZED_VERIFIER_COUNT st)) ∧
    (ch = 0 ∨ n + ch ≤ u16_max).
Proof.
  intros [n Hn]. unfold apply_authorized_count_change. case_bool_decide as Hch.
  - subst ch. intros [= <-]. exists n. split; [done|]. split; [|by left].
    rewrite Z.add_0_r, insert_id by done. by destruct st.
  - intros Hf. ok_inv. rewrite Hn in Hok0. simplify_eq. unfold checked_add_signed in Hok.
    case_bool_decide; [|done]. injection Hok as <-. exists v0. split; [done|]. split; [done|lia].
Qed.

Lemma update_auth_Ok st l s auth st' r :
  inv st → update_verifier_authorization_status st l s auth = Ok (st', r) →
  r = Response_new ∧ is_Some (SERVICES st !! s) ∧
  ∃ vs n, st' = set_counts (set_verifiers st vs) (<[s := n]> (AUTHORIZED_VERIFIER_COUNT st)) ∧
    n = authorized_count st' s ∧ n ≤ u16_max ∧
    (∀ s', s' ≠ s → authorized_count st' s' = authorized_count st s') ∧
    (∀ n0, AUTHORIZED_VERIFIER_COUNT st !! s = Some n0 → auth ≠ Authorized → n ≤ n0) ∧
    (∀ x m, SERVICES st !! s = Some x → max_num_verifiers x = Some m → auth = Authorized → n ≤ m) ∧
    (∀ s' a, vs !! (s', a) =
       if bool_decide (s' = s ∧ a ∈ l)
       then Some (reauthorized s a auth (VERIFIERS st !! (s, a))) else VERIFIERS st !! (s', a)).
Proof.
  intros Hi. unfold update_verifier_authorization_status, ensure_service_exists, has_service,
    state_update_verifier_authorization_status. intros Hf. ok_inv. breflect.
  injection Hf as -> <-. split; [done|]. split; [done|]. destruct v2 as [st1 ch].
  destruct Hok as [x Hx]. destruct (inv_service _ Hi _ _ Hx) as (_ & _ & [n0 Hn0]).
  destruct (inv_count _ Hi _ _ Hn0) as (_ & Hn0' & Hn0max).
  pose proof (authorize_loop _ _ _ _ _ _ _ Hok2) as ((vs & ->) & Hcount & Hlook).
  apply apply_count_Ok in Hok0 as (n & Hn & -> & Hle); [|by exists n0].
  cbn in Hn. rewrite Hn0 in Hn. injection Hn as <-. exists vs, (n0 + ch).
  pose proof (Hcount s) as Hs. rewrite bool_decide_eq_true_2 in Hs by done.
  split; [done|]. split; [unfold authorized_count in *; cbn in *; lia|]. split; [lia|]. split_and!.
  - intros s' Hne. pose proof (Hcount s') as Hs'. rewrite bool_decide_eq_false_2 in Hs' by done.
    unfold authorized_count in *; cbn in *; lia.
  - intros n1 Hn1 Hauth. assert (n1 = n0) as -> by congruence.
    cut (ch ≤ 0); [lia|]. eapply (authorize_loop_nonpos s auth l); [done|exact Hok2].
  - intros x' m Hx' Hm ->. rewrite bool_decide_eq_true_2 in Hok1 by done.
    unfold ensure_authorization_max_limit_respected in Hok1. apply bind_Ok in Hok1 as (y & Hy%service_Ok & Hok1).
    cbn in Hy. assert (y = x') as -> by congruence. rewrite Hm in Hok1.
    unfold number_of_authorized_verifiers in Hok1. apply bind_Ok in Hok1 as (c & Hc & Hok1).
    ok_inv. breflect. cbn in Hc. rewrite lookup_insert_eq in Hc. by injection Hc as <-.
  - done.
Qed.

Lemma inv_update_auth st l s auth st' r :
  inv st → update_verifier_authorization_status st l s auth = Ok (st', r) → inv st'.
Proof.
  intros Hi (_ & [x Hx] & vs & n & Hst & Hn & Hmax & Hother & Hdec & Hlim & Hlook)%update_auth_Ok; [|done].
  assert (SERVICES st' = SERVICES st ∧ VERIFIERS st' = vs ∧
    AUTHORIZED_VERIFIER_COUNT st' = <[s := n]> (AUTHORIZED_VERIFIER_COUNT st) ∧
    VERIFIERS_PER_CHAIN st' = VERIFIERS_PER_CHAIN st) as (Hs & Hv & Hc & Hp) by (rewrite Hst; done).
  clear Hst. destruct (inv_service _ Hi _ _ Hx) as (_ & _ & [n0 Hn0]). split.
  - intros s' y. rewrite Hs, Hc. intros Hy. destruct (inv_service _ Hi _ _ Hy) as (? & ? & ?).
    split; [done|]. split; [done|]. rewrite lookup_insert_is_Some'. by right.
  - intros s' k. rewrite Hs, Hc, lookup_insert_Some. intros [[<- <-]|[Hne Hk]]; [by eauto|].
    rewrite Hother by done. by apply (inv_count _ Hi).
  - intros s' y m k. rewrite Hs, Hc, lookup_insert_Some. intros Hy Hm [[<- <-]|[Hne Hk]].
    + destruct (decide (auth = Authorized)) as [->|Ha]; [by eapply Hlim|].
      specialize (Hdec _ Hn0 Ha). pose proof (inv_max _ Hi _ _ _ _ Hy Hm Hn0). lia.
    + by eapply (inv_max _ Hi).
  - intros s' a v. rewrite Hs, Hv, Hlook. case_bool_decide as Hk; [|by apply (inv_verifier _ Hi)].
    destruct Hk as [-> _]. intros [= <-].
    destruct (VERIFIERS st !! (s, a)) as [w|] eqn:Hw; cbn; [by apply (inv_verifier _ Hi)|].
    split_and!; eauto.
  - intros s' c a. unfold verifiers_of. rewrite Hp, Hv, Hlook. intros Ha.
    apply (inv_per_chain _ Hi) in Ha. case_bool_decide; eauto.
Qed.

Lemma inv_set_verifier st s a v :
  inv st → is_Some (SERVICES st !! s) → verifier_address v = a → service_name v = s →
  bonding_wf (bonding_state v) →
  (authorization_state v = Authorized ↔ authorization_state <$> VERIFIERS st !! (s, a) = Some Authorized) →
  inv (set_verifiers st (<[(s, a) := v]> (VERIFIERS st))).
Proof.
  intros Hi Hs Ha Hn Hb Hauth.
  assert (∀ s', authorized_count (set_verifiers st (<[(s, a) := v]> (VERIFIERS st))) s' =
    authorized_count st s') as Hcount.
  { intros s'. rewrite authorized_count_insert, (bool_decide_ext _ _ Hauth). case_bool_decide; lia. }
  destruct Hi as [H1 H2 H3 H4 H5]. split; cbn; try done.
  - intros s' n. rewrite Hcount. apply H2.
  - intros s' a' v'. rewrite lookup_insert_Some. intros [[[= <- <-] <-]|[_ ?]]; [done|eauto].
  - intros s' c a' Ha'. rewrite lookup_insert_is_Some'. right. by eapply H5.
Qed.

(** *** Stakes *)

(** The verifiers with a stake, and the stake of each. *)
Definition stakes (st : State) : gmap (string * string) Z :=
  omap (λ v, match bonding_state v with Unbonded => None | b => Some (stake b) end) (VERIFIERS st).

(** What the contract owes in a denomination. *)
Definition staked (st : State) (d : string) : Z :=
  map_sum (λ k x, if bool_decide (bond_denom <$> SERVICES st !! k.1 = Some d) then x else 0)
    (stakes st).

Lemma stakes_lookup st k :
  stakes st !! k = VERIFIERS st !! k ≫= (λ v, match bonding_state v with Unbonded => None
                                             | b => Some (stake b) end).
Proof. apply lookup_omap. Qed.

Lemma stake_of_lookup st s a v :
  VERIFIERS st !! (s, a) = Some v → default 0 (stakes st !! (s, a)) = stake (bonding_state v).
Proof. intros Hv. rewrite stakes_lookup, Hv. cbn. by destruct (bonding_state v). Qed.

Lemma stakes_set_verifier st k v :
  stakes (set_verifiers st (<[k := v]> (VERIFIERS st))) =
  match bonding_state v with
  | Unbonded => delete k (stakes st)
  | b => <[k := stake b]> (stakes st)
  end.
Proof. unfold stakes. cbn. rewrite omap_insert. by destruct (bonding_state v). Qed.

(** Every service is still there, with its denomination and coordinator. *)
Definition services_kept (st st' : State) : Prop :=
  ∀ s x, SERVICES st !! s = Some x → ∃ x', SERVICES st' !! s = Some x' ∧
    bond_denom x' = bond_denom x ∧ coordinator_contract x' = coordinator_contract x.

Lemma services_kept_same st st' : SERVICES st' = SERVICES st → services_kept st st'.
Proof. intros Hs s x Hx. exists x. by rewrite Hs. Qed.

(** The denominations after a call give the same sum. *)
Lemma staked_services st st' d :
  inv st → services_kept st st' →
  map_sum (λ k x, if bool_decide (bond_denom <$> SERVICES st' !! k.1 = Some d) then x else 0)
    (stakes st) = staked st d.
Proof.
  intros Hi Hk. apply map_sum_ext. intros [s a] x Hx.
  rewrite stakes_lookup in Hx. apply bind_Some in Hx as (v & Hv & _).
  destruct (inv_verifier _ Hi _ _ _ Hv) as (_ & _ & [y Hy] & _).
  destruct (Hk _ _ Hy) as (y' & Hy' & Hd & _). cbn. rewrite Hy, Hy'. cbn. by rewrite Hd.
Qed.

(** ** Handlers *)

(** Values of the message types. *)
Definition service_wf (s : Service) : Prop := 0 ≤ unbonding_period_days s ≤ u16_max ∧
  from_option (λ m, 0 ≤ m ≤ u16_max) True (max_num_verifiers s).
Definition msg_wf (m : ExecuteMsg) : Prop :=
  match m with
  | RegisterService s => service_wf s
  | UpdateService _ p => from_option (λ d, 0 ≤ d ≤ u16_max) True (u_unbonding_period_days p)
  | _ => True
  end.
Definition funds_wf (funds : list Coin) : Prop := Forall (λ c, 0 ≤ amount c ≤ u128_max) funds.
Definition env_wf (env : Env) : Prop := 0 ≤ time env ≤ u64_max.

Lemma register_service_Ok st x st' r :
  inv st → service_wf x → register_service st x = Ok (st', r) →
  r = Response_new ∧ SERVICES st !! name x = None ∧ inv st' ∧ services_kept st st' ∧
  VERIFIERS st' = VERIFIERS st.
Proof.
  intros Hi [Hd Hm]. unfold register_service, save_new_service. intros Hf. ok_inv. breflect.
  cbn in Hok1. injection Hf as <- <-. split; [done|]. split; [done|].
  assert (authorized_count st (name x) = 0) as Hz.
  { apply map_sum_zero. intros [s a] v Hv. cbn. rewrite bool_decide_eq_false_2; [done|].
    intros [-> _]. destruct (inv_verifier _ Hi _ _ _ Hv) as (_ & _ & [y Hy] & _). congruence. }
  split; [|split; [|done]].
  - destruct Hi as [H1 H2 H3 H4 H5]. split; cbn.
    + intros s y. rewrite !lookup_insert_is_Some', lookup_insert_Some.
      intros [[<- <-]|[Hne Hy]]; [split_and!; [done|lia..|by left]|].
      destruct (H1 _ _ Hy) as (? & ? & ?). split_and!; [done|lia..|by right].
    + intros s n. rewrite lookup_insert_is_Some', lookup_insert_Some.
      intros [[<- <-]|[Hne Hn]].
      * split; [by left|]. unfold authorized_count in *. cbn. unfold u16_max. lia.
      * destruct (H2 _ _ Hn) as (? & ? & ?). split; [by right|done].
    + intros s y m n. rewrite !lookup_insert_Some.
      intros [[<- <-]|[Hne Hy]] Hy2 [[? <-]|[? Hn]]; try congruence; [|by eapply H3].
      rewrite Hy2 in Hm. cbn in Hm. lia.
    + intros s a v Hv. destruct (H4 _ _ _ Hv) as (? & ? & ? & ?). split_and!; try done.
      rewrite lookup_insert_is_Some'. by right.
    + done.
  - intros s y Hy. exists y. cbn. rewrite lookup_insert_ne by congruence. done.
Qed.

Lemma update_service_Ok st s p st' r :
  inv st → from_option (λ d, 0 ≤ d ≤ u16_max) True (u_unbonding_period_days p) →
  update_service st s p = Ok (st', r) →
  r = Response_new ∧ inv st' ∧ services_kept st st' ∧ VERIFIERS st' = VERIFIERS st.
Proof.
  intros Hi Hp. unfold update_service, state_update_service. intros Hf.
  apply bind_Ok in Hf as (st1 & Hf & [= <- <-]). apply bind_Ok in Hf as (u & Hmax & Hf).
  apply bind_Ok in Hf as (x & Hx%ok_or_Ok & [= <-]). split; [done|].
  destruct (inv_service _ Hi _ _ Hx) as (Hn & Hd & [n0 Hn0]). split; [|split; [|done]].
  - destruct Hi as [H1 H2 H3 H4 H5]. split; cbn; [..|done].
    + intros s' y. rewrite lookup_insert_Some. intros [[<- <-]|[Hne Hy]]; [|by apply H1].
      cbn. split; [done|]. split; [|eauto]. destruct (u_unbonding_period_days p); cbn in *; lia.
    + intros s' n Hc. destruct (H2 _ _ Hc) as (? & ? & ?). rewrite lookup_insert_is_Some'.
      split; [by right|done].
    + intros s' y m n. rewrite lookup_insert_Some. intros [[<- <-]|[Hne Hy]]; [|by apply H3].
      cbn. intros Hm Hc. destruct (u_max_num_verifiers p) as [[m'|]|] eqn:Hum; cbn in Hm.
      * simplify_eq. unfold number_of_authorized_verifiers in Hmax. ok_inv. breflect. congruence.
      * done.
      * by eapply H3.
    + intros s' a v Hv. destruct (H4 _ _ _ Hv) as (? & ? & ? & ?). split_and!; try done.
      rewrite lookup_insert_is_Some'. by right.
  - intros s' y Hy. cbn. destruct (decide (s = s')) as [<-|Hne].
    + rewrite lookup_insert_eq. eexists. split; [done|]. by simplify_eq.
    + rewrite lookup_insert_ne by done. eauto.
Qed.

Lemma attached_bond_Ok x funds b :
  funds_wf funds → attached_bond x funds = Ok b →
  (funds = [] ∧ b = None) ∨
  (∃ c, c ∈ funds ∧ denom c = bond_denom x ∧ b = Some (amount c) ∧ 1 ≤ amount c ≤ u128_max).
Proof.
  unfold attached_bond, funds_wf. intros Hw Hf. destruct funds as [|c l]; [left; by simplify_eq|].
  right. ok_inv. destruct v as [i c']. ok_inv.
  apply nonempty.uint_try_from_Ok in Hok0 as [-> Hnz].
  apply list_find_Some in Hok as (Hl & Hd & _). apply list_elem_of_lookup_2 in Hl.
  exists c'. split_and!; try done; rewrite Forall_forall in Hw; specialize (Hw _ Hl); cbn in Hw; lia.
Qed.

Lemma bond_verifier_Ok st sender funds s st' r :
  inv st → funds_wf funds → bond_verifier st sender funds s = Ok (st', r) →
  r = Response_new ∧ inv st' ∧
  ∃ x b amt v, SERVICES st !! s = Some x ∧ attached_bond x funds = Ok b ∧
    amt = default 0 (stakes st !! (s, sender)) + default 0 b ∧ 1 ≤ amt ∧
    bonding_state v = Bonded amt ∧
    st' = set_verifiers st (<[(s, sender) := v]> (VERIFIERS st)).
Proof.
  intros Hi Hw. unfold bond_verifier. intros Hf. apply bind_Ok in Hf as (x & Hx%service_Ok & Hf).
  apply bind_Ok in Hf as (b & Hb & Hf). apply bind_Ok in Hf as (v & Hv & [= <- <-]).
  split; [done|].
  assert (0 ≤ default 0 b ≤ u128_max ∧ from_option (λ y, 1 ≤ y ≤ u128_max) True b) as [Hb0 Hb1].
  { destruct (attached_bond_Ok _ _ _ Hw Hb) as [[_ ->]|(c & _ & _ & -> & ?)]; cbn; [|lia].
    unfold u128_max. lia. }
  assert (∃ amt, amt = default 0 (stakes st !! (s, sender)) + default 0 b ∧ 1 ≤ amt ≤ u128_max ∧
    bonding_state v = Bonded amt ∧ verifier_address v = sender ∧ service_name v = s ∧
    (authorization_state v = Authorized ↔
       authorization_state <$> VERIFIERS st !! (s, sender) = Some Authorized))
    as (amt & Hamt & Hr & Hbs & Ha & Hn & Hauth).
  { destruct (VERIFIERS st !! (s, sender)) as [w|] eqn:Hvw.
    - destruct (inv_verifier _ Hi _ _ _ Hvw) as (Ha & Hn & _ & Hbw).
      rewrite (stake_of_lookup _ _ _ _ Hvw). unfold state_bond_verifier in Hv.
      apply bind_Ok in Hv as (amt & Hamt & [= <-]). exists amt. cbn.
      assert (amt = stake (bonding_state w) + default 0 b ∧ 1 ≤ amt ≤ u128_max) as [Heq Hle].
      { destruct (bonding_state w); cbn in *; ok_inv; checked;
          try (apply nonempty.uint_try_from_Ok in Hamt as [-> ?]; checked; lia).
        destruct b; cbn in *; [|done]. simplify_eq. lia. }
      split_and!; try done; try lia; split; congruence.
    - ok_inv. exists v0. rewrite stakes_lookup, Hvw. cbn in *. split_and!; try done; lia. }
  split; [apply inv_set_verifier; try done; by rewrite Hbs|].
  exists x, b, amt, v. split_and!; try done. lia.
Qed.

Lemma unbond_verifier_Ok st env sender s st' r :
  inv st → env_wf env → unbond_verifier st env sender s = Ok (st', r) →
  r = Response_new ∧ inv st' ∧
  ∃ x w b ready, SERVICES st !! s = Some x ∧ VERIFIERS st !! (s, sender) = Some w ∧
    authorization_state w ≠ Jailed ∧
    ready_to_unbond env (coordinator_contract x) sender = Some ready ∧
    stake b = stake (bonding_state w) ∧ b ≠ Unbonded ∧ bonding_state w ≠ Unbonded ∧
    b = (if ready then Unbonding (stake b) (time env) else RequestedUnbonding (stake b)) ∧
    st' = set_verifiers st (<[(s, sender) :=
            mkVerifier sender b (authorization_state w) s]> (VERIFIERS st)).
Proof.
  intros Hi He. unfold unbond_verifier. intros Hf. apply bind_Ok in Hf as (x & Hx%service_Ok & Hf).
  apply bind_Ok in Hf as (w & Hw%ok_or_Ok & Hf). apply bind_Ok in Hf as (ready & Hr%ok_or_Ok & Hf).
  apply bind_Ok in Hf as (v & Hv & [= <- <-]). split; [done|].
  destruct (inv_verifier _ Hi _ _ _ Hw) as (Ha & Hn & _ & Hbw). rewrite Ha in Hr.
  unfold state_unbond_verifier in Hv. apply bind_Ok in Hv as (u & Hj%ensure_Ok & Hv). breflect.
  apply bind_Ok in Hv as (v1 & Hv1 & [= <-]). rewrite Ha, Hn.
  assert (stake v1 = stake (bonding_state w) ∧ v1 ≠ Unbonded ∧ bonding_state w ≠ Unbonded ∧
    bonding_wf v1 ∧
    v1 = (if ready then Unbonding (stake v1) (time env) else RequestedUnbonding (stake v1)))
    as (Hst & Hu & Hu' & Hwf & Heq).
  { unfold env_wf in He. destruct (bonding_state w), ready; try done; injection Hv1 as <-; cbn in *;
      split_and!; done || lia. }
  split; [apply inv_set_verifier; try done; by rewrite Hw; cbn; split; congruence|].
  exists x, w, v1, ready. split_and!; done.
Qed.

Lemma claim_stake_Ok st env sender s st' r :
  inv st → claim_stake st env sender s = Ok (st', r) →
  inv st' ∧
  ∃ x w amt t, SERVICES st !! s = Some x ∧ VERIFIERS st !! (s, sender) = Some w ∧
    authorization_state w ≠ Jailed ∧ bonding_state w = Unbonding amt t ∧
    t + unbonding_period_days x * DAY ≤ time env ∧
    r = add_message (BankSend sender (mkCoin (bond_denom x) amt)) Response_new ∧
    st' = set_verifiers st (<[(s, sender) :=
            mkVerifier sender Unbonded (authorization_state w) s]> (VERIFIERS st)).
Proof.
  intros Hi. unfold claim_stake. intros Hf. apply bind_Ok in Hf as (x & Hx%service_Ok & Hf).
  apply bind_Ok in Hf as (w & Hw%ok_or_Ok & Hf). apply bind_Ok in Hf as ([v amt] & Hv & [= <- <-]).
  destruct (inv_verifier _ Hi _ _ _ Hw) as (Ha & Hn & _ & Hbw).
  unfold claim_verifier_stake, plus_days in Hv. apply bind_Ok in Hv as (u & Hj%ensure_Ok & Hv). breflect.
  destruct (bonding_state w) as [| |amt' t|] eqn:Hbs; try done.
  apply bind_Ok in Hv as (at_ & Hat%expect_Ok & Hv). checked. destruct Hat as [-> _].
  case_bool_decide as Ht; [|done]. injection Hv as <- <-. rewrite Ha, Hn.
  split; [apply inv_set_verifier; try done; by rewrite Hw; cbn; split; congruence|].
  exists x, w, amt', t. split_and!; done.
Qed.

Lemma foldl_per_chain (f : State → string → gmap (string * string) (gmap string unit)) chains st :
  ∃ m, foldl (λ st c, set_per_chain st (f st c)) st chains = set_per_chain st m.
Proof.
  revert st. induction chains as [|c l IH]; intros st; cbn; [exists (VERIFIERS_PER_CHAIN st); by destruct st|].
  destruct (IH (set_per_chain st (f st c))) as [m ->]. by exists m.
Qed.

Lemma inv_per_chain_only st m :
  inv st → (∀ s c a, is_Some (default ∅ (m !! (s, c)) !! a) → is_Some (VERIFIERS st !! (s, a))) →
  inv (set_per_chain st m).
Proof. intros [H1 H2 H3 H4 H5] Hm. by split. Qed.

Lemma inv_register_chains st s chains a :
  inv st → is_Some (VERIFIERS st !! (s, a)) → inv (state_register_chains_support st s chains a).
Proof.
  unfold state_register_chains_support. revert st.
  induction chains as [|c l IH]; intros st Hi Ha; cbn; [done|]. apply IH; [|done].
  apply inv_per_chain_only; [done|]. intros s' c' b.
  destruct (decide ((s, c) = (s', c'))) as [[= <- <-]|Hne].
  - rewrite lookup_insert_eq. cbn. rewrite lookup_insert_is_Some'. intros [<-|Hb]; [done|].
    by apply (inv_per_chain _ Hi) in Hb.
  - rewrite lookup_insert_ne by done. apply (inv_per_chain _ Hi).
Qed.

Lemma inv_deregister_chains st s chains a :
  inv st → inv (state_deregister_chains_support st s chains a).
Proof.
  unfold state_deregister_chains_support. revert st.
  induction chains as [|c l IH]; intros st Hi; cbn; [done|]. apply IH.
  apply inv_per_chain_only; [done|]. intros s' c' b.
  destruct (decide ((s, c) = (s', c'))) as [[= <- <-]|Hne].
  - rewrite lookup_insert_eq. cbn. rewrite lookup_delete_is_Some. intros [_ Hb].
    by apply (inv_per_chain _ Hi) in Hb.
  - rewrite lookup_insert_ne by done. apply (inv_per_chain _ Hi).
Qed.

Lemma stakes_update_auth st l s auth st' r :
  inv st → update_verifier_authorization_status st l s auth = Ok (st', r) →
  stakes st' = stakes st ∧ r = Response_new ∧ SERVICES st' = SERVICES st ∧
  (∀ k, bonding_state <$> VERIFIERS st' !! k = bonding_state <$> VERIFIERS st !! k ∨
        VERIFIERS st !! k = None ∧ bonding_state <$> VERIFIERS st' !! k = Some Unbonded).
Proof.
  intros Hi (-> & _ & vs & n & -> & _ & _ & _ & _ & _ & Hlook)%update_auth_Ok; [|done].
  assert (∀ k, bonding_state <$> vs !! k = bonding_state <$> VERIFIERS st !! k ∨
        VERIFIERS st !! k = None ∧ bonding_state <$> vs !! k = Some Unbonded) as Hk.
  { intros [s' a]. rewrite Hlook. case_bool_decide as Hin; [|by left]. destruct Hin as [-> _].
    destruct (VERIFIERS st !! (s, a)); cbn; auto. }
  split; [|done]. apply map_eq. intros k. rewrite !stakes_lookup. cbn.
  destruct (Hk k) as [Hb|[Hn Hb]].
  - destruct (vs !! k) as [v|], (VERIFIERS st !! k) as [w|]; cbn in *; try done.
    injection Hb as Hb. by rewrite Hb.
  - rewrite Hn. destruct (vs !! k) as [v|]; cbn in *; [|done]. injection Hb as ->. done.
Qed.

(** What an accepted call does to the stakes: nothing, adding the attached bond to the stake
    of the sender, or paying the stake of the sender back. *)
Inductive stake_effect (st : State) (env : Env) (sender : Addr) (funds : list Coin)
    : ExecuteMsg → State → SResponse → Prop :=
  | stakes_same m st' r :
      stakes st' = stakes st → messages r = [] → stake_effect st env sender funds m st' r
  | stake_bonded s x b st' r :
      SERVICES st !! s = Some x → attached_bond x funds = Ok b →
      stakes st' = <[(s, sender) := default 0 (stakes st !! (s, sender)) + default 0 b]> (stakes st) →
      messages r = [] → stake_effect st env sender funds (BondVerifier s) st' r
  | stake_claimed s x w amt t st' r :
      SERVICES st !! s = Some x → VERIFIERS st !! (s, sender) = Some w →
      authorization_state w ≠ Jailed → bonding_state w = Unbonding amt t →
      t + unbonding_period_days x * DAY ≤ time env →
      stakes st' = delete (s, sender) (stakes st) →
      messages r = [BankSend sender (mkCoin (bond_denom x) amt)] →
      stake_effect st env sender funds (ClaimStake s) st' r.

(** An unbonding that has begun was asked for by the verifier itself, and the coordinator
    allowed it. *)
Definition unbonding_begun (st : State) (env : Env) (sender : Addr) (m : ExecuteMsg)
    (s : string) (a : Addr) (t : Z) : Prop :=
  m = UnbondVerifier s ∧ a = sender ∧ t = time env ∧
  ∃ x, SERVICES st !! s = Some x ∧ ready_to_unbond env (coordinator_contract x) a = Some true.

(** What is shown of every accepted call. *)
Record call_ok (st : State) (env : Env) (sender : Addr) (funds : list Coin) (m : ExecuteMsg)
    (st' : State) (r : SResponse) : Prop := {
  call_inv : inv st';
  call_services : services_kept st st';
  call_stakes : stake_effect st env sender funds m st' r;
  call_unbonding s a v' amt t : VERIFIERS st' !! (s, a) = Some v' →
    bonding_state v' = Unbonding amt t →
    (∃ v, VERIFIERS st !! (s, a) = Some v ∧ bonding_state v = Unbonding amt t) ∨
    unbonding_begun st env sender m s a t
}.

Lemma call_same_verifiers st env sender funds m st' r :
  inv st' → services_kept st st' → VERIFIERS st' = VERIFIERS st → messages r = [] →
  call_ok st env sender funds m st' r.
Proof.
  intros Hi Hs Hv Hm. split; [done|done| |rewrite Hv; eauto].
  apply stakes_same; [|done]. unfold stakes. by rewrite Hv.
Qed.

Lemma call_update_auth st env sender funds m l s auth st' r :
  inv st → update_verifier_authorization_status st l s auth = Ok (st', r) →
  call_ok st env sender funds m st' r.
Proof.
  intros Hi Hu. destruct (stakes_update_auth _ _ _ _ _ _ Hi Hu) as (Hs & -> & Hsv & Hb).
  split; [by eapply inv_update_auth|by apply services_kept_same|by apply stakes_same|].
  intros s' a v' amt t Hv Ht. left. destruct (Hb (s', a)) as [Hk|[_ Hk]];
    rewrite Hv in Hk; cbn in Hk; rewrite Ht in Hk; [|done].
  destruct (VERIFIERS st !! (s', a)) as [w|]; [|done]. exists w. cbn in Hk. split; congruence.
Qed.

Lemma call_set_verifier st env sender funds m st' r s v :
  inv st' → st' = set_verifiers st (<[(s, sender) := v]> (VERIFIERS st)) →
  stake_effect st env sender funds m st' r →
  (∀ amt t, bonding_state v = Unbonding amt t → unbonding_begun st env sender m s sender t) →
  call_ok st env sender funds m st' r.
Proof.
  intros Hi -> Hs Hu. split; [done|by apply services_kept_same|done|].
  intros s' a v' amt t. cbn. rewrite lookup_insert_Some.
  intros [[[= <- <-] <-]|[_ Hv]] Ht; [right; by eapply Hu|left; eauto].
Qed.

Lemma call_bond st env sender funds s st' r :
  inv st → funds_wf funds → bond_verifier st sender funds s = Ok (st', r) →
  call_ok st env sender funds (BondVerifier s) st' r.
Proof.
  intros Hi Hw (-> & Hi' & x & b & amt & v & Hx & Hb & Hamt & _ & Hbs & Hst)%bond_verifier_Ok; [|done..].
  eapply call_set_verifier; [done|exact Hst| |intros ? ?; by rewrite Hbs].
  eapply stake_bonded; [done|done| |done]. rewrite Hst, stakes_set_verifier, Hbs. cbn. by rewrite Hamt.
Qed.

Lemma call_unbond st env sender funds s st' r :
  inv st → env_wf env → unbond_verifier st env sender s = Ok (st', r) →
  call_ok st env sender funds (UnbondVerifier s) st' r.
Proof.
  intros Hi He (-> & Hi' & x & w & b & ready & Hx & Hv & _ & Hr & Hsb & Hb & Hw & Heq & Hst)%unbond_verifier_Ok;
    [|done..].
  eapply call_set_verifier; [done|exact Hst| |].
  - apply stakes_same; [|done]. rewrite Hst, stakes_set_verifier. cbn.
    assert (stakes st !! (s, sender) = Some (stake b)) as Hl.
    { rewrite stakes_lookup, Hv, Hsb. cbn. by destruct (bonding_state w). }
    destruct b; try done; by apply insert_id.
  - cbn. intros amt t ->. destruct ready; [|done]. injection Heq as ->. split_and!; eauto.
Qed.

Lemma call_claim st env sender funds s st' r :
  inv st → claim_stake st env sender s = Ok (st', r) →
  call_ok st env sender funds (ClaimStake s) st' r.
Proof.
  intros Hi (Hi' & x & w & amt & t & Hx & Hv & Hj & Hb & Ht & -> & Hst)%claim_stake_Ok; [|done].
  eapply call_set_verifier; [done|exact Hst| |done].
  eapply stake_claimed; try done. by rewrite Hst, stakes_set_verifier.
Qed.

Lemma call_chains st env sender funds m s chains st' r :
  inv st → is_Some (VERIFIERS st !! (s, sender)) →
  register_chains_support st sender s chains = Ok (st', r) ∨
  deregister_chains_support st sender s chains = Ok (st', r) →
  call_ok st env sender funds m st' r.
Proof.
  intros Hi Hv [Hf|Hf].
  - unfold register_chains_support in Hf. ok_inv. injection Hf as <- <-.
    pose proof (inv_register_chains st s chains sender Hi Hv) as Hi'.
    unfold state_register_chains_support in *.
    destruct (foldl_per_chain (λ st c, <[(s, c) := <[sender := tt]> (verifiers_of st s c)]>
      (VERIFIERS_PER_CHAIN st)) chains st) as [m' Hm']. rewrite Hm' in *.
    by apply call_same_verifiers; [|apply services_kept_same|..].
  - unfold deregister_chains_support in Hf. ok_inv. injection Hf as <- <-.
    pose proof (inv_deregister_chains st s chains sender Hi) as Hi'.
    unfold state_deregister_chains_support in *.
    destruct (foldl_per_chain (λ st c, <[(s, c) := delete sender (verifiers_of st s c)]>
      (VERIFIERS_PER_CHAIN st)) chains st) as [m' Hm']. rewrite Hm' in *.
    by apply call_same_verifiers; [|apply services_kept_same|..].
Qed.

Lemma inv_set_overrides st m : inv st → inv (set_overrides st m).
Proof. intros [H1 H2 H3 H4 H5]. by split. Qed.

Section execute.
Context `{Api}.

(** Chain support is only open to the verifiers of the service. *)
Lemma match_verifier_Ok st sender m :
  match_verifier st sender m = Ok true →
  ∃ s, is_Some (VERIFIERS st !! (s, sender)) ∧
    match m with RegisterChainSupport s' _ | DeregisterChainSupport s' _ => s = s' | _ => False end.
Proof.
  intros Hf. unfold match_verifier in Hf.
  destruct m as [| | | | | | |s chains|s chains| | |]; try done; cbn in Hf;
    (destruct (VERIFIERS st !! (s, sender)) eqn:Hv; [eauto|by ok_inv]).
Qed.

Lemma registry_execute_Ok st env sender funds m st' r :
  inv st → msg_wf m → funds_wf funds → env_wf env →
  execute st env sender funds m = Ok (st', r) → call_ok st env sender funds m st' r.
Proof.
  intros Hi Hm Hw He. unfold execute. intros Hf. apply bind_Ok in Hf as (m' & Hperm & Hf).
  apply map_err_Ok in Hperm. pose proof (msgs_derive.ensure_permissions_same _ _ _ _ _ _ Hperm) as ->.
  destruct m.
  - apply bind_Ok in Hf as (c & _ & Hf%map_err_Ok).
    apply register_service_Ok in Hf as (-> & _ & Hi' & Hs & Hv); [|done..]. by apply call_same_verifiers.
  - apply map_err_Ok, update_service_Ok in Hf as (-> & Hi' & Hs & Hv); [|done..].
    by apply call_same_verifiers.
  - unfold override_service_params, save_service_override in Hf. ok_inv. injection Hf as <- <-.
    apply call_same_verifiers; try done; [by apply inv_set_overrides|by apply services_kept_same].
  - unfold remove_service_params_override, remove_service_override in Hf. ok_inv. injection Hf as <- <-.
    apply call_same_verifiers; try done; [by apply inv_set_overrides|by apply services_kept_same].
  - apply bind_Ok in Hf as (l & _ & Hf%map_err_Ok). by eapply call_update_auth.
  - apply bind_Ok in Hf as (l & _ & Hf%map_err_Ok). by eapply call_update_auth.
  - apply bind_Ok in Hf as (l & _ & Hf%map_err_Ok). by eapply call_update_auth.
  - rewrite (msgs_derive.ensure_permissions_specific _ _ _ _ _ "verifier") in Hperm by done.
    apply match_verifier_Ok in Hperm as (s & Hv & ->).
    apply map_err_Ok in Hf. eapply call_chains; eauto.
  - rewrite (msgs_derive.ensure_permissions_specific _ _ _ _ _ "verifier") in Hperm by done.
    apply match_verifier_Ok in Hperm as (s & Hv & ->).
    apply map_err_Ok in Hf. eapply call_chains; eauto.
  - apply map_err_Ok in Hf. by apply call_bond.
  - apply map_err_Ok in Hf. by apply call_unbond.
  - apply map_err_Ok in Hf. by apply call_claim.
Qed.

(** ** Runs *)

(** The contract on its chain: its storage and what it holds of each denomination. *)
Record World := mkWorld { st : State; held : string → Z }.

Definition funds_out (d : string) (r : SResponse) : Z :=
  funds_in d ((λ '(BankSend _ c), c) <$> messages r).

(** The unbondings a call begins: service, verifier and time. *)
Definition unbondings (s : State) (env : Env) (sender : Addr) (m : ExecuteMsg)
    : list (string * Addr * Z) :=
  match m with
  | UnbondVerifier n =>
      match SERVICES s !! n with
      | Some x => if bool_decide (ready_to_unbond env (coordinator_contract x) sender = Some true)
                  then [(n, sender, time env)] else []
      | None => []
      end
  | _ => []
  end.

(** The runs, with the unbondings begun so far. *)
Inductive run : World → list (string * Addr * Z) → Prop :=
  | run_instantiate g s r (x : string → Z) :
      instantiate g = Ok (s, r) → (∀ d, 0 ≤ x d) → run (mkWorld s x) []
  | run_execute w log env sender funds m s r :
      run w log → env_wf env → msg_wf m → funds_wf funds →
      execute (st w) env sender funds m = Ok (s, r) →
      run (mkWorld s (λ d, held w d + funds_in d funds - funds_out d r))
          (log ++ unbondings (st w) env sender m)
  | run_deposit w log (x : string → Z) :
      run w log → (∀ d, 0 ≤ x d) → run (mkWorld (st w) (λ d, held w d + x d)) log.

Record world_inv (w : World) (log : list (string * Addr * Z)) : Prop := {
  wi_inv : inv (st w);
  wi_backed d : staked (st w) d ≤ held w d;
  wi_unbonding s a v amt t : VERIFIERS (st w) !! (s, a) = Some v →
    bonding_state v = Unbonding amt t → (s, a, t) ∈ log
}.

Lemma funds_wf_nonneg funds : funds_wf funds → Forall (λ c, 0 ≤ amount c) funds.
Proof. intros Hw. eapply Forall_impl; [exact Hw|]. cbn. lia. Qed.

Lemma stake_effect_backed s env sender funds m s' r d :
  inv s → funds_wf funds → services_kept s s' → stake_effect s env sender funds m s' r →
  staked s' d ≤ staked s d + funds_in d funds - funds_out d r.
Proof.
  intros Hi Hw Hk Hf. pose proof (funds_wf_nonneg _ Hw) as Hn.
  pose proof (funds_in_nonneg d funds Hn) as Hfd.
  pose proof (staked_services s s' d Hi Hk) as Hst.
  destruct Hf as [m s' r Hs Hr|n x b s' r Hx Hb Hs Hr|n x w amt t s' r Hx Hv _ Hbs _ Hs Hr];
    unfold funds_out; rewrite Hr.
  - unfold staked at 1. rewrite Hs, Hst. cbn. lia.
  - destruct (Hk _ _ Hx) as (x' & Hx' & Hd & _). unfold staked at 1. rewrite Hs, map_sum_insert.
    cbn [fst]. rewrite Hx'. cbn.
    rewrite Hst, Hd.
    destruct (attached_bond_Ok _ _ _ Hw Hb) as [[-> ->]|(c & Hc & Hcd & -> & _)]; cbn.
    + case_bool_decide; destruct (stakes s !! (n, sender)); cbn; lia.
    + pose proof (funds_in_elem _ _ Hn Hc) as Hle. rewrite Hcd in Hle.
      case_bool_decide as Hdd; [injection Hdd as <-|]; destruct (stakes s !! (n, sender)); cbn; lia.
  - destruct (Hk _ _ Hx) as (x' & Hx' & Hd & _).
    assert (stakes s !! (n, sender) = Some amt) as Hl by (by rewrite stakes_lookup, Hv; cbn; rewrite Hbs).
    unfold staked at 1. rewrite Hs. rewrite (map_sum_delete _ _ _ _ Hl) in Hst. cbn [fst] in Hst. rewrite Hx' in Hst. cbn in Hst.
    rewrite Hd in Hst.
    change (funds_in d ((λ '(BankSend _ c), c) <$> [BankSend sender (mkCoin (bond_denom x) amt)]))
      with ((if bool_decide (bond_denom x = d) then amt else 0) + 0).
    rewrite (bool_decide_ext (bond_denom x = d) (Some (bond_denom x) = Some d)) by (split; congruence).
    lia.
Qed.

Lemma registry_run_inv w log : run w log → world_inv w log.
Proof.
  induction 1 as [g s r x Hf Hx|w log env sender funds m s r _ IH He Hm Hw Hf|w log x _ IH Hx].
  - unfold instantiate in Hf. ok_inv. injection Hf as <- <-. split; cbn.
    + split; cbn; intros *; try (by rewrite lookup_empty). unfold verifiers_of. cbn.
      rewrite lookup_empty. cbn. rewrite lookup_empty. by intros [? ?].
    + intros d. apply Hx.
    + intros *. by rewrite lookup_empty.
  - destruct IH as [Hi Hb Hu]. destruct (registry_execute_Ok _ _ _ _ _ _ _ Hi Hm Hw He Hf)
      as [Hi' Hk Hs Hun]. split; cbn; [done| |].
    + intros d. pose proof (stake_effect_backed _ _ _ _ _ _ _ d Hi Hw Hk Hs). specialize (Hb d). lia.
    + intros n a v amt t Hv Ht. apply elem_of_app. destruct (Hun _ _ _ _ _ Hv Ht) as [(v0 & ? & ?)|Hbg].
      { left. by eapply Hu. }
      right. destruct Hbg as (-> & -> & -> & y & Hy & Hr). unfold unbondings.
      rewrite Hy, bool_decide_eq_true_2 by done. left.
  - destruct IH as [Hi Hb Hu]. split; cbn; [done| |done].
    intros d. specialize (Hb d). specialize (Hx d). lia.
Qed.

End execute.

(** ** Active verifiers *)

(** What [select_nth_unstable_by] promises for an ordering: a permutation with the element of
    the given rank in its place, nothing greater before it and nothing smaller after it. *)
Class SelectNthSpec `{SelectNth} : Prop := select_nth_spec :
  ∀ A (cmp : A → A → comparison) (idx : nat) (l : list A),
    (∀ x y, cmp y x = CompOpp (cmp x y)) →
    (∀ x y z, cmp x y ≠ Gt → cmp y z ≠ Gt → cmp x z ≠ Gt) →
    (idx < length l)%nat →
    select_nth cmp idx l ≡ₚ l ∧
    ∀ x, select_nth cmp idx l !! idx = Some x →
      (∀ i y, (i < idx)%nat → select_nth cmp idx l !! i = Some y → cmp y x ≠ Gt) ∧
      (∀ i y, (idx < i)%nat → select_nth cmp idx l !! i = Some y → cmp x y ≠ Gt).

Lemma StronglySorted_lookup_lt {A} (R : A → A → Prop) (l : list A) :
  StronglySorted R l → ∀ i j x y, (i < j)%nat → l !! i = Some x → l !! j = Some y → R x y.
Proof.
  induction 1 as [|a l _ IH Ha]; intros i j x y Hij Hi Hj; [done|].
  destruct j as [|j]; [lia|]. destruct i as [|i]; cbn in *.
  - injection Hi as <-. rewrite Forall_forall in Ha. apply Ha. by eapply list_elem_of_lookup_2.
  - eapply (IH i j); [lia|done|done].
Qed.

(** Sorting is one implementation of it. *)
Definition sorted_select : SelectNth :=
  {| select_nth := λ A cmp _ l, merge_sort (λ x y, cmp x y ≠ Gt) l |}.

Lemma sorted_select_spec : @SelectNthSpec sorted_select.
Proof.
  intros A cmp idx l Hsym Htrans Hidx. cbn. split; [apply merge_sort_Permutation|].
  assert (StronglySorted (λ x y, cmp x y ≠ Gt) (merge_sort (λ x y, cmp x y ≠ Gt) l)) as Hs.
  { apply StronglySorted_merge_sort; [exact Htrans|]. intros x y. rewrite (Hsym x y).
    destruct (cmp x y); auto. }
  revert Hs. generalize (merge_sort (λ x y, cmp x y ≠ Gt) l) as k. intros k Hs x Hx.
  split; intros i y Hi Hy.
  - by eapply (StronglySorted_lookup_lt _ k Hs i idx).
  - by eapply (StronglySorted_lookup_lt _ k Hs idx i).
Qed.

Definition address_of (v : WeightedVerifier) : Addr := verifier_address (verifier_info v).

Lemma compare_le c d : String.compare c d ≠ Gt ↔ String.le c d.
Proof.
  unfold String.le, String.leb. destruct (String.compare c d); cbn; split; done.
Qed.

Section active.
Context `{SelectNth} `{Keccak}.

Lemma by_weight_sym x y : by_weight y x = CompOpp (by_weight x y).
Proof. unfold by_weight. apply Z.compare_antisym. Qed.

Lemma by_weight_trans x y z :
  by_weight x y ≠ Gt → by_weight y z ≠ Gt → by_weight x z ≠ Gt.
Proof. unfold by_weight. rewrite !Z.compare_le_iff. lia. Qed.

Lemma by_hash_sym w h x y :
  by_weight_then_hash w h y x = CompOpp (by_weight_then_hash w h x y).
Proof.
  unfold by_weight_then_hash. rewrite by_weight_sym.
  destruct (by_weight x y) eqn:Hc; cbn; try done.
  apply Z.compare_eq in Hc. rewrite Hc. case_bool_decide; [|done]. apply String.compare_antisym.
Qed.

Lemma by_hash_spec w h x y :
  by_weight_then_hash w h x y ≠ Gt ↔
  w_weight y < w_weight x ∨
  (w_weight y = w_weight x ∧ (w_weight x = w →
    String.le (hash_address_with_seed (address_of x) h) (hash_address_with_seed (address_of y) h))).
Proof.
  unfold by_weight_then_hash, by_weight. destruct (Z.compare_spec (w_weight y) (w_weight x)).
  - case_bool_decide as Hw.
    + rewrite compare_le. unfold address_of. split; [intros; right; auto|intros [?|[_ Hh]]; [lia|auto]].
    + split; [intros; right; split; [done|]; intros; congruence|done].
  - split; [by left|done].
  - split; [done|]. intros [?|[? _]]; lia.
Qed.

Lemma by_hash_trans w h x y z :
  by_weight_then_hash w h x y ≠ Gt → by_weight_then_hash w h y z ≠ Gt →
  by_weight_then_hash w h x z ≠ Gt.
Proof.
  rewrite !by_hash_spec. intros [Hxy|[Exy Hxy]] [Hyz|[Eyz Hyz]]; try (left; lia).
  right. split; [lia|]. intros Hw. etrans; [by apply Hxy|]. apply Hyz. lia.
Qed.

(** The selection among verifiers of the same weight: as many as allowed, and those with the
    lowest hashes. *)
Lemma select_top_spec `{!SelectNthSpec} {E} (l : list WeightedVerifier) w max h :
  0 ≤ max → Forall (λ v, w_weight v = w) l →
  ∃ l', select_top_verifiers (E := E) l max h = Ok l' ∧ l' ⊆+ l ∧
    Z.of_nat (length l') = Z.min (Z.of_nat (length l)) max ∧
    (∀ v u, v ∈ l' → u ∈ l → u ∉ l' →
       String.le (hash_address_with_seed (address_of v) h) (hash_address_with_seed (address_of u) h)).
Proof.
  intros Hmax Hw. unfold select_top_verifiers. case_bool_decide as Hlen.
  { exists l. split; [done|]. split; [done|]. split; [lia|]. intros v u _ Hu Hn. done. }
  set (idx := Z.to_nat (saturating_sub max 1)).
  assert (idx < length l)%nat as Hidx by (unfold idx, saturating_sub; lia).
  destruct (select_nth_spec _ by_weight idx l by_weight_sym by_weight_trans Hidx) as [Hp1 _].
  set (l1 := select_nth by_weight idx l) in *.
  assert (idx < length l1)%nat as Hidx1 by (by rewrite Hp1).
  destruct (lookup_lt_is_Some_2 l1 idx Hidx1) as [cut Hcut]. rewrite Hcut. cbn.
  assert (w_weight cut = w) as ->.
  { rewrite Forall_forall in Hw. apply Hw. rewrite <-Hp1. by eapply list_elem_of_lookup_2. }
  destruct (select_nth_spec _ (by_weight_then_hash w h) idx l1 (by_hash_sym w h) (by_hash_trans w h) Hidx1)
    as [Hp2 Hsel].
  set (l2 := select_nth (by_weight_then_hash w h) idx l1) in *.
  assert (l2 ≡ₚ l) as Hp by (by rewrite Hp2).
  exists (take (Z.to_nat max) l2). split; [done|]. split; [|split].
  - rewrite <-Hp. apply sublist_submseteq, sublist_take.
  - rewrite length_take, Hp. lia.
  - intros v u Hv Hu Hn. rewrite <-Hp in Hu.
    apply list_elem_of_lookup in Hu as [j Hj]. apply list_elem_of_lookup in Hv as [i Hi].
    apply lookup_take_Some in Hi as [Hi Hilt].
    assert (Z.to_nat max ≤ j)%nat as Hjge.
    { destruct (decide (j < Z.to_nat max)%nat); [|lia]. exfalso. apply Hn.
      apply (list_elem_of_lookup_2 _ j). by apply lookup_take_Some. }
    assert (idx < length l2)%nat as Hidx2 by (by rewrite Hp2).
    destruct (lookup_lt_is_Some_2 l2 idx Hidx2) as [x Hx]. destruct (Hsel x Hx) as [Hbefore Hafter].
    rewrite Forall_forall in Hw.
    assert (∀ k y, l2 !! k = Some y → w_weight y = w) as Hwk.
    { intros k y Hy. apply Hw. rewrite <-Hp. by eapply list_elem_of_lookup_2. }
    assert (by_weight_then_hash w h v x ≠ Gt) as Hvx.
    { destruct (decide (i = idx)) as [->|Hne].
      - assert (x = v) as -> by congruence. apply by_hash_spec. right. auto.
      - apply (Hbefore i); [|done]. unfold idx, saturating_sub in *. lia. }
    assert (by_weight_then_hash w h x u ≠ Gt) as Hxu.
    { apply (Hafter j); [|done]. unfold idx, saturating_sub. lia. }
    pose proof (by_hash_trans _ _ _ _ _ Hvx Hxu) as Hvu. apply by_hash_spec in Hvu.
    rewrite (Hwk _ _ Hi), (Hwk _ _ Hj) in Hvu. destruct Hvu as [?|[_ Hvu]]; [lia|by apply Hvu].
Qed.

End active.

(** Who may be chosen: authorized verifiers that support the chain and are bonded with
    enough stake. *)
Definition eligible (st : State) (x : Service) (s c : string) (v : Verifier) : Prop :=
  VERIFIERS st !! (s, verifier_address v) = Some v ∧
  is_Some (verifiers_of st s c !! verifier_address v) ∧
  authorization_state v = Authorized ∧
  ∃ amt, bonding_state v = Bonded amt ∧ min_verifier_bond x ≤ amt.

Lemma is_bonded_spec x v :
  is_bonded x v ↔ ∃ amt, bonding_state v = Bonded amt ∧ min_verifier_bond x ≤ amt.
Proof.
  unfold is_bonded. destruct (bonding_state v); cbn;
    try (split; [done|intros (? & ? & _); done]).
  rewrite bool_decide_spec. split; [eauto|]. by intros (? & [= <-] & ?).
Qed.

Lemma elem_of_eligible_verifiers st x s c u :
  inv st → u ∈ eligible_verifiers st x s c ↔
    w_weight u = VERIFIER_WEIGHT ∧ eligible st x s c (verifier_info u).
Proof.
  intros Hi. unfold eligible_verifiers. rewrite list_elem_of_fmap. split.
  - intros (v & -> & Hv). rewrite !list_elem_of_filter in Hv. destruct Hv as (Ha & Hb & Hin).
    apply list_elem_of_omap in Hin as ([a []] & Hin%elem_of_entries & Hl). cbn in Hl.
    destruct (inv_verifier _ Hi _ _ _ Hl) as (Hva & _). cbn. split; [done|].
    unfold eligible. rewrite Hva. split_and!; [done|by eexists|done|by apply is_bonded_spec].
  - intros (Hw & Hv & [[] Hc] & Ha & Hb). exists (verifier_info u). split.
    { destruct u. cbn in *. by rewrite Hw. }
    rewrite !list_elem_of_filter. split; [done|]. split; [by apply is_bonded_spec|].
    apply list_elem_of_omap. exists (verifier_address (verifier_info u), tt).
    split; [by apply elem_of_entries|done].
Qed.

Lemma eligible_addresses st x s c :
  inv st → address_of <$> eligible_verifiers st x s c `sublist_of`
    (entries (verifiers_of st s c)).*1.
Proof.
  intros Hi. unfold eligible_verifiers.
  induction (entries (verifiers_of st s c)) as [|[a []] l IH]; [constructor|]. csimpl.
  destruct (VERIFIERS st !! (s, a)) as [v|] eqn:Hv; [|by constructor].
  destruct (inv_verifier _ Hi _ _ _ Hv) as (Hva & _).
  rewrite (filter_cons (λ v0, is_bonded x v0)). destruct (decide (is_bonded x v)); [|by constructor].
  rewrite filter_cons. destruct (decide (authorization_state v = Authorized)); [|by constructor].
  csimpl. unfold address_of at 1. cbn. rewrite Hva. by constructor.
Qed.

Lemma eligible_NoDup st x s c :
  inv st → NoDup (address_of <$> eligible_verifiers st x s c).
Proof.
  intros Hi. eapply sublist_NoDup; [|by apply eligible_addresses]. apply entries_NoDup_fst.
Qed.

(** Eligible verifiers are authorized, hence at most as many as the stored count. *)
Lemma NoDup_map_sum {K} `{Countable K} {V} (P : K → V → Prop) `{∀ k v, Decision (P k v)}
    (m : gmap K V) (l : list K) :
  NoDup l → (∀ k, k ∈ l → ∃ v, m !! k = Some v ∧ P k v) →
  Z.of_nat (length l) ≤ map_sum (λ k v, if bool_decide (P k v) then 1 else 0) m.
Proof.
  intros Hnd. revert m. induction Hnd as [|k l Hk Hnd IH]; intros m Hl.
  - apply map_sum_nonneg. intros. case_bool_decide; lia.
  - destruct (Hl k) as (v & Hv & Hp); [by left|].
    rewrite (map_sum_delete _ _ _ _ Hv), bool_decide_eq_true_2 by done.
    assert (Z.of_nat (length l) ≤
      map_sum (λ k v, if bool_decide (P k v) then 1 else 0) (delete k m)); [|cbn; lia].
    apply IH. intros k' Hk'. destruct (Hl k') as (v' & Hv' & Hp'); [by right|]. exists v'.
    rewrite lookup_delete_ne; [done|]. by intros ->.
Qed.

Lemma eligible_count st x s c :
  inv st → Z.of_nat (length (eligible_verifiers st x s c)) ≤ authorized_count st s.
Proof.
  intros Hi. rewrite <-(length_fmap address_of), <-(length_fmap (λ a, (s, a))).
  apply (NoDup_map_sum (λ k v, k.1 = s ∧ authorization_state v = Authorized)).
  - apply NoDup_fmap_2; [|by apply eligible_NoDup]. intros a b [= ->]. done.
  - intros k (a & -> & (v & -> & Hv)%list_elem_of_fmap)%list_elem_of_fmap.
    apply elem_of_eligible_verifiers in Hv as (_ & Hv & _ & Ha & _); [|done].
    exists (verifier_info v). done.
Qed.

Lemma submseteq_NoDup {A} (l k : list A) : l ⊆+ k → NoDup k → NoDup l.
Proof.
  intros Hs Hk. apply submseteq_Permutation in Hs as [k' Hs]. rewrite Hs in Hk.
  by apply NoDup_app in Hk as [? _].
Qed.

Lemma NoDup_submseteq_address (l k : list WeightedVerifier) :
  l ⊆+ k → NoDup (address_of <$> k) → NoDup (address_of <$> l).
Proof. intros Hs. apply submseteq_NoDup. by apply fmap_submseteq. Qed.

(** Two choices of the same size with the lowest keys, for keys that differ, are the same. *)
Lemma lowest_unique {A} `{EqDecision A} (key : A → string) (l l1 l2 : list A) :
  NoDup l1 → NoDup l2 → l1 ⊆+ l → l2 ⊆+ l → length l1 = length l2 →
  (∀ u v, u ∈ l → v ∈ l → key u = key v → u = v) →
  (∀ v u, v ∈ l1 → u ∈ l → u ∉ l1 → String.le (key v) (key u)) →
  (∀ v u, v ∈ l2 → u ∈ l → u ∉ l2 → String.le (key v) (key u)) → l1 ≡ₚ l2.
Proof.
  intros Hn1 Hn2 Hs1 Hs2 Hlen Hinj Hlow1 Hlow2.
  assert (∀ a b : list A, NoDup a → length a = length b → (∀ x, x ∈ a → x ∈ b) → a ≡ₚ b) as Hperm.
  { intros a b Ha Hab Hsub. apply submseteq_length_Permutation; [|lia].
    apply NoDup_submseteq; done. }
  apply Hperm; [done..|]. intros v Hv. destruct (decide (v ∈ l2)) as [?|Hv2]; [done|]. exfalso.
  assert (∃ u, u ∈ l2 ∧ u ∉ l1) as (u & Hu2 & Hu1).
  { apply Exists_exists. apply (not_Forall_Exists (λ u, u ∈ l1)).
    rewrite Forall_forall. intros Hsub. apply Hv2.
    assert (l2 ≡ₚ l1) as -> by (apply Hperm; [done|lia|done]). done. }
  assert (v ∈ l ∧ u ∈ l) as [Hvl Hul] by (split; [by eapply elem_of_submseteq|by eapply elem_of_submseteq]).
  apply Hv2. rewrite (Hinj v u Hvl Hul); [done|].
  apply (anti_symm String.le); [by apply Hlow1|by apply Hlow2].
Qed.

Lemma active_verifiers_spec `{SelectNth} `{!SelectNthSpec} `{Keccak} st s c x h :
  inv st → service st s (Some c) = Ok x →
  from_option (λ m, 0 ≤ m ≤ u16_max) True (max_num_verifiers x) →
  let el := eligible_verifiers st x s c in
  (∀ u, u ∈ el ↔ w_weight u = VERIFIER_WEIGHT ∧ eligible st x s c (verifier_info u)) ∧
  (Z.of_nat (length el) < min_num_verifiers x →
     active_verifiers st h s c = Err NotEnoughVerifiers) ∧
  (min_num_verifiers x ≤ Z.of_nat (length el) →
     ∃ l, active_verifiers st h s c = Ok l ∧ l ⊆+ el ∧ NoDup (address_of <$> l) ∧
       Z.of_nat (length l) = Z.min (Z.of_nat (length el)) (default (Z.of_nat (length el)) (max_num_verifiers x)) ∧
       (∀ v u, v ∈ l → u ∈ el → u ∉ l →
          String.le (hash_address_with_seed (address_of v) h) (hash_address_with_seed (address_of u) h))).
Proof.
  intros Hi Hx Hmax el. split; [intros u; by apply elem_of_eligible_verifiers|].
  unfold active_verifiers. rewrite Hx. cbn [mbind result_bind]. fold el. split.
  { intros Hlt. rewrite bool_decide_eq_true_2 by done. done. }
  intros Hge. rewrite bool_decide_eq_false_2 by lia. cbn.
  pose proof (eligible_NoDup st x s c Hi) as Hnd. fold el in Hnd.
  destruct (max_num_verifiers x) as [max|]; cbn in *.
  - destruct (select_top_spec (E := ContractError) el VERIFIER_WEIGHT max h)
      as (l & Hl & Hsub & Hlen & Hh); [lia| |].
    { apply Forall_forall. intros u Hu. by apply elem_of_eligible_verifiers in Hu as [? _]. }
    exists l. split; [done|]. split; [done|]. split; [|done].
    by eapply NoDup_submseteq_address.
  - exists el. split_and!; try done. lia.
Qed.

(** ** Properties *)

Section properties.
Context `{Api}.

(** The stored count of authorized verifiers is exact.  After any run, the counter of each
    service is the number of its verifiers whose state is [Authorized], fits in 16 bits and
    respects the limit of the service, whatever was authorized, revoked or jailed and in
    whatever batches (repeated addresses included). *)
Theorem authorized_count_exact w log s x :
  run w log → SERVICES (st w) !! s = Some x →
  AUTHORIZED_VERIFIER_COUNT (st w) !! s = Some (authorized_count (st w) s) ∧
  0 ≤ authorized_count (st w) s ≤ u16_max ∧
  (∀ m, max_num_verifiers x = Some m → authorized_count (st w) s ≤ m).
Proof.
  intros [Hi _ _]%registry_run_inv Hx. destruct (inv_service _ Hi _ _ Hx) as (_ & _ & [n Hn]).
  destruct (inv_count _ Hi _ _ Hn) as (_ & -> & Hle). split; [done|].
  split; [split; [apply authorized_count_nonneg|done]|]. intros m Hm.
  by eapply (inv_max _ Hi).
Qed.

(** C31: The stakes are backed.  After any run the contract holds, in every denomination, at
    least the sum of the stakes of the services bonded in it, whatever funds were attached. *)
Theorem stakes_backed w log d : run w log → staked (st w) d ≤ held w d.
Proof. intros Hr. apply (registry_run_inv _ _ Hr). Qed.

(** A stake leaves the contract only by its verifier's claim.  If a call lowers the stake of
    a verifier, then it is [ClaimStake] sent by that verifier for that service, the verifier is
    not jailed, it had asked to unbond at a time recorded in the run, with the agreement of
    the coordinator and at least the unbonding period ago, and it is paid exactly its whole
    stake.  Conversely every transfer a call orders is such a payment. *)
Theorem stake_released_only_by_claim w log env sender funds m s' r :
  run w log → env_wf env → msg_wf m → funds_wf funds →
  execute (st w) env sender funds m = Ok (s', r) →
  (∀ n a, default 0 (stakes s' !! (n, a)) < default 0 (stakes (st w) !! (n, a)) →
     m = ClaimStake n ∧ a = sender ∧
     ∃ x v t, SERVICES (st w) !! n = Some x ∧ VERIFIERS (st w) !! (n, a) = Some v ∧
       authorization_state v ≠ Jailed ∧
       bonding_state v = Unbonding (default 0 (stakes (st w) !! (n, a))) t ∧
       (n, a, t) ∈ log ∧ t + unbonding_period_days x * DAY ≤ time env ∧
       messages r = [BankSend a (mkCoin (bond_denom x) (default 0 (stakes (st w) !! (n, a))))] ∧
       stakes s' !! (n, a) = None) ∧
  (∀ to c, BankSend to c ∈ messages r →
     ∃ n, m = ClaimStake n ∧ to = sender ∧
       default 0 (stakes s' !! (n, to)) < default 0 (stakes (st w) !! (n, to))).
Proof.
  intros [Hi _ Hu]%registry_run_inv He Hm Hw Hf.
  destruct (registry_execute_Ok _ _ _ _ _ _ _ Hi Hm Hw He Hf) as [_ _ Hs _].
  destruct Hs as [m s' r Hs Hr|n' x b s' r Hx Hb Hs Hr|n' x v amt t s' r Hx Hv Hj Hbs Ht Hs Hr];
    rewrite Hr; (split; [|try (intros ? ? Hin; by apply not_elem_of_nil in Hin)]).
  - intros n a Hlt. rewrite Hs in Hlt. lia.
  - intros n a Hlt. rewrite Hs in Hlt. exfalso.
    destruct (decide ((n', sender) = (n, a))) as [[= <- <-]|Hne].
    + rewrite lookup_insert_eq in Hlt. cbn in Hlt.
      destruct (attached_bond_Ok _ _ _ Hw Hb) as [[_ ->]|(c & _ & _ & -> & ?)]; cbn in Hlt; lia.
    + rewrite lookup_insert_ne in Hlt by done. lia.
  - intros n a Hlt. rewrite Hs in Hlt. destruct (decide ((n', sender) = (n, a))) as [[= <- <-]|Hne];
      [|rewrite lookup_delete_ne in Hlt by done; lia].
    split; [done|]. split; [done|]. rewrite (stake_of_lookup _ _ _ _ Hv), Hbs. cbn.
    exists x, v, t. split_and!; try done; [by eapply Hu|]. by rewrite Hs, lookup_delete_eq.
  - intros to c [= -> ->]%list_elem_of_singleton. exists n'. split; [done|]. split; [done|].
    rewrite Hs, lookup_delete_eq, (stake_of_lookup _ _ _ _ Hv).
    destruct (inv_verifier _ Hi _ _ _ Hv) as (_ & _ & _ & Hwf). rewrite Hbs in *. cbn in *. lia.
Qed.

(** The active verifiers of a service on a chain.  The query fails exactly when fewer
    verifiers than the minimum are eligible (authorized, bonded with enough stake and
    supporting the chain), never panics, and otherwise answers eligible verifiers without
    repetition, each of weight one: all of them, or as many as the limit allows, and then
    those whose hash with the block height is lowest. *)
Theorem active_verifiers_exact `{SelectNth} `{!SelectNthSpec} `{Keccak} w log s c x h :
  run w log → service (st w) s (Some c) = Ok x →
  from_option (λ m, 0 ≤ m ≤ u16_max) True (max_num_verifiers x) →
  let el := eligible_verifiers (st w) x s c in
  (∀ u, u ∈ el ↔ w_weight u = VERIFIER_WEIGHT ∧ eligible (st w) x s c (verifier_info u)) ∧
  (Z.of_nat (length el) < min_num_verifiers x →
     active_verifiers (st w) h s c = Err NotEnoughVerifiers) ∧
  (min_num_verifiers x ≤ Z.of_nat (length el) →
     ∃ l, active_verifiers (st w) h s c = Ok l ∧ l ⊆+ el ∧ NoDup (address_of <$> l) ∧
       Z.of_nat (length l) = Z.min (Z.of_nat (length el)) (default (Z.of_nat (length el)) (max_num_verifiers x)) ∧
       (∀ v u, v ∈ l → u ∈ el → u ∉ l →
          String.le (hash_address_with_seed (address_of v) h) (hash_address_with_seed (address_of u) h))).
Proof. intros [Hi _ _]%registry_run_inv Hx Hmax. by apply active_verifiers_spec. Qed.

(** The answer is determined.  Whatever order [select_nth_unstable_by] leaves, two
    implementations of it give the same answer up to the order, as long as the hashes of the
    eligible addresses differ: nodes agree on who is active. *)
Theorem active_verifiers_determined (S1 S2 : SelectNth) `{Keccak} w log s c x h :
  @SelectNthSpec S1 → @SelectNthSpec S2 → run w log → service (st w) s (Some c) = Ok x →
  from_option (λ m, 0 ≤ m ≤ u16_max) True (max_num_verifiers x) →
  (∀ u v, u ∈ eligible_verifiers (st w) x s c → v ∈ eligible_verifiers (st w) x s c →
     hash_address_with_seed (address_of u) h = hash_address_with_seed (address_of v) h →
     address_of u = address_of v) →
  match @active_verifiers S1 _ (st w) h s c, @active_verifiers S2 _ (st w) h s c with
  | Ok l1, Ok l2 => l1 ≡ₚ l2
  | Err e1, Err e2 => e1 = e2
  | _, _ => False
  end.
Proof.
  intros HS1 HS2 [Hi _ _]%registry_run_inv Hx Hmax Hinj.
  destruct (@active_verifiers_spec S1 HS1 _ (st w) s c x h Hi Hx Hmax) as (_ & Herr1 & Hok1).
  destruct (@active_verifiers_spec S2 HS2 _ (st w) s c x h Hi Hx Hmax) as (_ & Herr2 & Hok2).
  destruct (decide (min_num_verifiers x ≤ Z.of_nat (length (eligible_verifiers (st w) x s c))))
    as [Hge|Hlt]; [|by rewrite Herr1, Herr2 by lia].
  destruct (Hok1 Hge) as (l1 & -> & Hs1 & Hn1 & Hl1 & Hh1).
  destruct (Hok2 Hge) as (l2 & -> & Hs2 & Hn2 & Hl2 & Hh2).
  apply (lowest_unique (λ v, hash_address_with_seed (address_of v) h)
           (eligible_verifiers (st w) x s c)); try done; try lia.
  - by eapply NoDup_fmap_1.
  - by eapply NoDup_fmap_1.
  - intros u v Hu Hv Heq. specialize (Hinj u v Hu Hv Heq).
    apply elem_of_eligible_verifiers in Hu as (Hwu & Hu & _), Hv as (Hwv & Hv & _); [|done..].
    unfold address_of in Hinj. rewrite Hinj, Hv in Hu. destruct u, v; cbn in *. congruence.
Qed.

(** A limit below the minimum disables the minimum.  The number of verifiers is compared
    with the minimum before the limit cuts the answer down, and nothing orders the two
    parameters of a service: with a limit below the minimum the query succeeds with fewer
    verifiers than the minimum instead of failing with [NotEnoughVerifiers]. *)
Theorem limit_below_minimum `{SelectNth} `{!SelectNthSpec} `{Keccak} w log s c x h max :
  run w log → service (st w) s (Some c) = Ok x →
  max_num_verifiers x = Some max → 0 ≤ max < min_num_verifiers x → min_num_verifiers x ≤ u16_max →
  min_num_verifiers x ≤ Z.of_nat (length (eligible_verifiers (st w) x s c)) →
  ∃ l, active_verifiers (st w) h s c = Ok l ∧ Z.of_nat (length l) < min_num_verifiers x.
Proof.
  intros [Hi _ _]%registry_run_inv Hx Hm Hlt Hu Hge.
  destruct (active_verifiers_spec (st w) s c x h Hi Hx) as (_ & _ & Hok); [rewrite Hm; cbn; lia|].
  destruct (Hok Hge) as (l & Hl & _ & _ & Hlen & _). exists l. split; [done|].
  rewrite Hlen, Hm. cbn. lia.
Qed.

(** Coins of other denominations are kept without being staked.  When the first coin
    attached to [BondVerifier] is of the bond denomination, the call has the same outcome and
    the same storage whatever other coins are attached: they are neither recorded as stake nor
    returned. *)
Theorem bond_ignores_other_coins s sender n x c others :
  SERVICES s !! n = Some x → denom c = bond_denom x →
  bond_verifier s sender (c :: others) n = bond_verifier s sender [c] n.
Proof.
  intros Hx Hd. unfold bond_verifier, attached_bond.
  rewrite (proj2 (service_Ok s n x) Hx). cbn. by rewrite !decide_True by done.
Qed.

End properties.

End service_registry.

(** ** A run *)
Module service_registry_run.
Import service_registry.

Definition run_api : Api := {| addr_validate := λ s, Ok s |}.
Definition run_keccak : Keccak := {| keccak := λ s, s |}.
#[local] Existing Instances run_api run_keccak sorted_select sorted_select_spec.

Definition run_env (t : Z) : Env := mkEnv 100 t (λ _ _, Some true).

(** One accepted call on a world. *)
Definition next (w : World) (t : Z) (sender : Addr) (funds : list Coin) (m : ExecuteMsg) : World :=
  match execute (st w) (run_env t) sender funds m with
  | Ok (s, r) => mkWorld s (λ d, held w d + funds_in d funds - funds_out d r)
  | _ => w
  end.

Definition run_service : Service :=
  mkService "amp" "coord" 2 None 100 "uaxl" 7 "a service".

Definition run0 : World :=
  match instantiate "gov" with
  | Ok (s, _) => mkWorld s (λ _, 0)
  | _ => mkWorld (mkState (permission_control.mkStorage None None) ∅ ∅ ∅ ∅ ∅) (λ _, 0)
  end.
Definition run1 : World := next run0 0 "gov" [] (RegisterService run_service).
Definition run2 : World := next run1 0 "gov" [] (AuthorizeVerifiers ["v1"; "v2"; "v1"] "amp").
Definition run3 : World := next run2 0 "v1" [mkCoin "uaxl" 150] (BondVerifier "amp").
Definition run4 : World := next run3 0 "v2" [mkCoin "uaxl" 100] (BondVerifier "amp").
Definition run5 : World := next run4 0 "v1" [] (RegisterChainSupport "amp" ["eth"; "sui"]).
Definition run6 : World := next run5 0 "v2" [] (RegisterChainSupport "amp" ["eth"]).
Definition run7 : World :=
  next run6 0 "gov" [] (OverrideServiceParams "amp" "eth" (mkOverride None (Some (Some 1)))).
Definition run8 : World := next run7 5 "v1" [] (UnbondVerifier "amp").

Lemma registry_run_next w log t sender funds m :
  run w log → env_wf (run_env t) → msg_wf m → funds_wf funds →
  is_ok (execute (st w) (run_env t) sender funds m) = true →
  run (next w t sender funds m) (log ++ unbondings (st w) (run_env t) sender m).
Proof.
  intros Hr He Hm Hw [[s r] Hf]%is_ok_true. unfold next. rewrite Hf. by eapply run_execute.
Qed.

Lemma run_funds d x : 0 ≤ x ≤ u128_max → funds_wf [mkCoin d x].
Proof. intros Hx. by apply Forall_singleton. Qed.

Lemma registry_run2 : run run2 [].
Proof.
  apply (registry_run_next run1 []); [|by vm_compute|done|constructor|by vm_compute].
  apply (registry_run_next run0 []);
    [|by vm_compute|by vm_compute|constructor|by vm_compute].
  by apply (run_instantiate "gov" _ Response_new).
Qed.

Lemma registry_run6 : run run6 [].
Proof.
  apply (registry_run_next run5 []); [|by vm_compute|done|constructor|by vm_compute].
  apply (registry_run_next run4 []); [|by vm_compute|done|constructor|by vm_compute].
  apply (registry_run_next run3 []); [|by vm_compute|done|by apply run_funds|by vm_compute].
  apply (registry_run_next run2 []); [|by vm_compute|done|by apply run_funds|by vm_compute].
  apply registry_run2.
Qed.

Lemma registry_run7 : run run7 [].
Proof.
  apply (registry_run_next run6 []); [|by vm_compute|done|constructor|by vm_compute].
  apply registry_run6.
Qed.

Lemma registry_run8 : run run8 [("amp", "v1", 5)].
Proof.
  apply (registry_run_next run7 [] 5 "v1"); [|by vm_compute|done|constructor|by vm_compute].
  apply registry_run7.
Qed.

(** The repeated address counts once. *)
Lemma authorized_count_exact_witness :
  AUTHORIZED_VERIFIER_COUNT (st run8) !! "amp" = Some 2.
Proof.
  destruct (authorized_count_exact run8 _ "amp" run_service registry_run8) as (Hc & _ & _);
    [by vm_compute|]. rewrite Hc. by vm_compute.
Defined.

Lemma stakes_backed_witness : staked (st run8) "uaxl" = 250 ∧ staked (st run8) "uaxl" ≤ held run8 "uaxl".
Proof.
  split; [by vm_compute|]. exact (stakes_backed run8 _ "uaxl" registry_run8).
Defined.

(** After seven days the first verifier gets its 150 tokens back. *)
Definition run9 : World := next run8 (5 + 7 * DAY) "v1" [] (ClaimStake "amp").

Lemma run9_executed :
  execute (st run8) (run_env (5 + 7 * DAY)) "v1" [] (ClaimStake "amp") =
  Ok (st run9, add_message (BankSend "v1" (mkCoin "uaxl" 150)) Response_new).
Proof. vm_compute. reflexivity. Qed.

Lemma stake_released_only_by_claim_witness :
  ("amp", "v1", 5) ∈ [("amp", "v1", 5)] ∧ stakes (st run9) !! ("amp", "v1") = None.
Proof.
  destruct (stake_released_only_by_claim run8 _ (run_env (5 + 7 * DAY)) "v1" [] (ClaimStake "amp")
    (st run9) (add_message (BankSend "v1" (mkCoin "uaxl" 150)) Response_new) registry_run8
    ltac:(vm_compute; split; discriminate) I (Forall_nil_2 _) run9_executed) as [Hdec _].
  destruct (Hdec "amp" "v1") as (_ & _ & x & v & t & _ & _ & _ & _ & Hlog & _ & _ & Hnone);
    [vm_compute; reflexivity|].
  split; [by left|exact Hnone].
Defined.

Lemma active_verifiers_exact_witness :
  ∃ l, active_verifiers (st run6) 100 "amp" "eth" = Ok l ∧ length l = 2%nat.
Proof.
  destruct (active_verifiers_exact run6 _ "amp" "eth" run_service 100 registry_run6)
    as (_ & _ & Hok); [by vm_compute|done|].
  destruct Hok as (l & Hl & _ & _ & Hlen & _); [by vm_compute|]. exists l. split; [exact Hl|].
  apply Nat2Z.inj. rewrite Hlen. by vm_compute.
Defined.

Lemma active_verifiers_determined_witness :
  match active_verifiers (st run7) 100 "amp" "eth", active_verifiers (st run7) 100 "amp" "eth" with
  | Ok l1, Ok l2 => l1 ≡ₚ l2 | Err e1, Err e2 => e1 = e2 | _, _ => False end.
Proof.
  apply (active_verifiers_determined sorted_select sorted_select run7 [] "amp" "eth"
    (mkService "amp" "coord" 2 (Some 1) 100 "uaxl" 7 "a service") 100);
    [apply sorted_select_spec|apply sorted_select_spec|apply registry_run7|by vm_compute|by vm_compute|].
  intros u v Hu Hv. vm_compute in Hu, Hv.
  repeat (apply elem_of_cons in Hu as [->|Hu]); [..|by apply not_elem_of_nil in Hu];
    (repeat (apply elem_of_cons in Hv as [->|Hv]); [..|by apply not_elem_of_nil in Hv]);
    by vm_compute.
Defined.

(** One verifier is active although the service asks for two. *)
Lemma limit_below_minimum_witness :
  ∃ l, active_verifiers (st run7) 100 "amp" "eth" = Ok l ∧ Z.of_nat (length l) < 2.
Proof.
  apply (limit_below_minimum run7 [] "amp" "eth"
    (mkService "amp" "coord" 2 (Some 1) 100 "uaxl" 7 "a service") 100 1);
    [apply registry_run7|by vm_compute|done|done|by vm_compute|by vm_compute].
Defined.

(** The second coin is lost to the sender: only 150 are staked. *)
Lemma bond_ignores_other_coins_witness :
  ∃ s r, bond_verifier (st run2) "v1" [mkCoin "uaxl" 150; mkCoin "uatom" 9] "amp" = Ok (s, r) ∧
    staked s "uatom" = 0 ∧ messages r = [].
Proof.
  rewrite (bond_ignores_other_coins (st run2) "v1" "amp" run_service (mkCoin "uaxl" 150)
    [mkCoin "uatom" 9]) by (vm_compute; reflexivity).
  eexists _, _. split; [vm_compute; reflexivity|]. split; vm_compute; reflexivity.
Defined.

End service_registry_run.
