(* ===== verification/Gateway.v ===== *)
(** * The gateway of a connected chain

    [contracts/gateway/src]: the outgoing messages ([state.rs]), the handlers
    ([contract/execute.rs]), the query ([contract/query.rs]) and the entry points
    ([contract.rs], with the messages of [packages/gateway-api/src/msg.rs]).

    The answers of the verifier contract are an argument of the environment; the file
    [Composition] puts the model of that contract there. *)

From S2P Require Import Prelude Std MsgId RouterApi Multisig.

Module gateway.
Import router_api.

(** The error of the storage functions and the context errors of the handlers. *)
Inductive StateError :=
  | MissingConfig
  | StoredMessageMismatch (id : CrossChainId)
  | MessageNotFound (id : CrossChainId).

Inductive Error :=
  | DuplicateMessageIds
  | MessageStatusError
  | VerifyMessagesError
  | RouteOutgoingMessages
  | RouteIncomingMessages
  | SaveOutgoingMessage
  | ExecuteError.

Record Config := mkConfig { verifier : Addr; router : Addr }.

Record State := mkState {
  CONFIG : option Config;
  OUTGOING_MESSAGES : gmap CrossChainId Message
}.

(** What the verifier contract answers to [MessagesStatus]. *)
Record Env := mkEnv {
  query_messages_status : Addr → list Message → option (list (Message * VerificationStatus))
}.

Inductive GatewayEvent :=
  | Verifying (msg : Message)
  | AlreadyVerified (msg : Message)
  | AlreadyRejected (msg : Message)
  | Routing (msg : Message)
  | UnfitForRouting (msg : Message).

(** The calls to the verifier and to the router. *)
Inductive OutMsg :=
  | VerifyMessagesAt (contract : Addr) (msgs : list Message)
  | RouteMessagesAt (contract : Addr) (msgs : list Message).

Notation GResponse := (Response OutMsg GatewayEvent).

(** ** Storage ([state.rs]) *)

Definition load_config (st : State) : result StateError Config := ok_or MissingConfig (CONFIG st).

Definition load_outgoing_message (st : State) (id : CrossChainId) : result StateError Message :=
  ok_or (MessageNotFound id) (OUTGOING_MESSAGES st !! id).

Section contract.
Context `{Crypto}.

Definition save_outgoing_message (st : State) (id : CrossChainId) (msg : Message)
    : result StateError State :=
  match OUTGOING_MESSAGES st !! id with
  | Some existing =>
      if bool_decide (Message_hash keccak256 msg ≠ Message_hash keccak256 existing)
      then Err (StoredMessageMismatch (cc_id msg))
      else Ok st
  | None => Ok (mkState (CONFIG st) (<[id := msg]> (OUTGOING_MESSAGES st)))
  end.

(** ** Handlers ([contract/execute.rs]) *)

Definition check_for_duplicates (msgs : list Message) : result Error (list Message) :=
  if bool_decide (NoDup (cc_id <$> msgs)) then Ok msgs else Err DuplicateMessageIds.

(** The statuses in the order in which they are declared, which is their order. *)
Definition statuses : list VerificationStatus :=
  [SucceededOnSourceChain; FailedOnSourceChain; NotFoundOnSourceChain; FailedToVerify;
   StatusInProgress; StatusUnknown].

(** One group per status that occurs, in the order of the statuses, the messages of a group in
    the order of the answer. *)
Definition group_of (msgs_with_status : list (Message * VerificationStatus))
    (status : VerificationStatus) : option (VerificationStatus * list Message) :=
  match filter (λ p, p.2 = status) msgs_with_status with
  | [] => None
  | group => Some (status, group.*1)
  end.

Definition group_by_status (msgs_with_status : list (Message * VerificationStatus))
    : list (VerificationStatus * list Message) :=
  omap (group_of msgs_with_status) statuses.
#[local] Arguments group_by_status : simpl never.

Definition filter_verifiable_messages (status : VerificationStatus) (msgs : list Message)
    : list Message :=
  match status with
  | StatusUnknown | NotFoundOnSourceChain | FailedToVerify => msgs
  | _ => []
  end.

Definition into_verify_events (status : VerificationStatus) (msgs : list Message)
    : list GatewayEvent :=
  match status with
  | StatusUnknown | NotFoundOnSourceChain | FailedToVerify | StatusInProgress =>
      Verifying <$> msgs
  | SucceededOnSourceChain => AlreadyVerified <$> msgs
  | FailedOnSourceChain => AlreadyRejected <$> msgs
  end.

Definition filter_routable_messages (status : VerificationStatus) (msgs : list Message)
    : list Message :=
  if bool_decide (status = SucceededOnSourceChain) then msgs else [].

Definition into_route_events (status : VerificationStatus) (msgs : list Message)
    : list GatewayEvent :=
  match status with
  | SucceededOnSourceChain => Routing <$> msgs
  | _ => UnfitForRouting <$> msgs
  end.

Definition flat_unzip {A B} (x : list (list A * list B)) : list A * list B :=
  (mjoin x.*1, mjoin x.*2).

(** [to_none_if_empty] of the client functions. *)
Definition call (f : list Message → OutMsg) (msgs : list Message) : list OutMsg :=
  match msgs with [] => [] | _ => [f msgs] end.

Definition verify (verifier : Addr) (msgs_by_status : list (VerificationStatus * list Message))
    : list OutMsg * list GatewayEvent :=
  let '(msgs, events) := flat_unzip ((λ '(status, msgs),
    (filter_verifiable_messages status msgs, into_verify_events status msgs)) <$> msgs_by_status) in
  (call (VerifyMessagesAt verifier) msgs, events).

Definition route (router : Addr) (msgs_by_status : list (VerificationStatus * list Message))
    : list OutMsg * list GatewayEvent :=
  let '(msgs, events) := flat_unzip ((λ '(status, msgs),
    (filter_routable_messages status msgs, into_route_events status msgs)) <$> msgs_by_status) in
  (call (RouteMessagesAt router) msgs, events).

(** The client does not query for no messages. *)
Definition messages_status (env : Env) (verifier : Addr) (msgs : list Message)
    : option (list (Message * VerificationStatus)) :=
  match msgs with [] => Some [] | _ => query_messages_status env verifier msgs end.

Definition apply (env : Env) (verifier : Addr) (msgs : list Message)
    (action : list (VerificationStatus * list Message) → list OutMsg * list GatewayEvent)
    : result Error GResponse :=
  msgs ← check_for_duplicates msgs;
  answer ← ok_or MessageStatusError (messages_status env verifier msgs);
  let '(msgs, events) := action (group_by_status answer) in
  Ok (add_events events (add_messages msgs Response_new)).

Definition verify_messages (env : Env) (verifier : Addr) (msgs : list Message)
    : result Error GResponse := apply env verifier msgs (verify verifier).

Definition route_incoming_messages (env : Env) (verifier router : Addr) (msgs : list Message)
    : result Error GResponse := apply env verifier msgs (route router).

Definition route_outgoing_messages (st : State) (verified : list Message)
    : result Error (State * GResponse) :=
  msgs ← check_for_duplicates verified;
  st ← try_fold (λ st msg, map_err (λ _, SaveOutgoingMessage)
                   (save_outgoing_message st (cc_id msg) msg)) st msgs;
  Ok (st, add_events (Routing <$> msgs) Response_new).

(** ** Query ([contract/query.rs]): the errors accumulate *)

Definition accumulate_errs (acc : result (list StateError) (list Message))
    (msg : result StateError Message) : result (list StateError) (list Message) :=
  match acc, msg with
  | Panic, _ | _, Panic => Panic
  | Ok msgs, Ok msg => Ok (msgs ++ [msg])
  | Err report, Ok _ => Err report
  | Ok _, Err e => Err [e]
  | Err report, Err e => Err (report ++ [e])
  end.

Definition outgoing_messages (st : State) (ids : list CrossChainId)
    : result (list StateError) (list Message) :=
  foldl accumulate_errs (Ok []) (load_outgoing_message st <$> ids).

(** ** Entry points ([contract.rs]); both messages are open to [Any] sender *)

Record InstantiateMsg := mkInstantiate { verifier_address : string; router_address : string }.

Inductive ExecuteMsg := VerifyMessages (msgs : list Message) | RouteMessages (msgs : list Message).

Definition instantiate `{Api} (msg : InstantiateMsg) : result StdError (State * GResponse) :=
  router ← addr_validate (router_address msg);
  verifier ← addr_validate (verifier_address msg);
  Ok (mkState (Some (mkConfig verifier router)) ∅, Response_new).

Definition execute (st : State) (env : Env) (sender : Addr) (msg : ExecuteMsg)
    : result Error (State * GResponse) :=
  config ← map_err (λ _, ExecuteError) (load_config st);
  match msg with
  | VerifyMessages msgs =>
      r ← map_err (λ _, VerifyMessagesError) (verify_messages env (verifier config) msgs);
      Ok (st, r)
  | RouteMessages msgs =>
      if bool_decide (sender = router config)
      then map_err (λ _, RouteOutgoingMessages) (route_outgoing_messages st msgs)
      else
        r ← map_err (λ _, RouteIncomingMessages)
              (route_incoming_messages env (verifier config) (router config) msgs);
        Ok (st, r)
  end.

(** ** What the handlers do *)

Lemma join_cons {A} (x : list A) l : mjoin (x :: l) = x ++ mjoin l.
Proof. done. Qed.

(** Grouping and flattening again applies a function per status. *)
Lemma groups_flatten {A} (F : VerificationStatus → list Message → list A)
    (answer : list (Message * VerificationStatus)) :
  (∀ s, F s [] = []) →
  mjoin ((λ '(s, ms), F s ms) <$> group_by_status answer) =
  mjoin ((λ s, F s (filter (λ p, p.2 = s) answer).*1) <$> statuses).
Proof.
  intros HF. unfold group_by_status. induction statuses as [|s l IH]; [done|].
  rewrite fmap_cons, (join_cons _ (_ <$> l)), <-IH.
  change (omap (group_of answer) (s :: l)) with
    (match group_of answer s with Some y => y :: omap (group_of answer) l
     | None => omap (group_of answer) l end).
  unfold group_of at 1. destruct (filter (λ p, p.2 = s) answer) as [|p k]; [by rewrite HF|done].
Qed.

(** The messages of an answer with one of some statuses. *)
Definition with_status (f : VerificationStatus → bool) (answer : list (Message * VerificationStatus))
    : list Message :=
  mjoin ((λ s, if f s then (filter (λ p, p.2 = s) answer).*1 else []) <$> statuses).
#[local] Arguments with_status : simpl never.

Lemma elem_of_with_status f answer m :
  m ∈ with_status f answer ↔ ∃ s, (m, s) ∈ answer ∧ f s = true.
Proof.
  unfold with_status. rewrite list_elem_of_join. split.
  - intros (l & Hm & (s & -> & _)%list_elem_of_fmap). destruct (f s) eqn:Hf; [|by apply not_elem_of_nil in Hm].
    apply list_elem_of_fmap in Hm as ([m' s'] & -> & [Hs Hin]%list_elem_of_filter). cbn in *. subst. eauto.
  - intros (s & Hin & Hf). exists ((filter (λ p, p.2 = s) answer).*1). split.
    + apply list_elem_of_fmap. exists (m, s). by rewrite list_elem_of_filter.
    + apply list_elem_of_fmap. exists s. rewrite Hf. split; [done|]. unfold statuses.
      destruct s; repeat (left || right).
Qed.

Definition verifiable (s : VerificationStatus) : bool :=
  match s with StatusUnknown | NotFoundOnSourceChain | FailedToVerify => true | _ => false end.
Definition succeeded (s : VerificationStatus) : bool := bool_decide (s = SucceededOnSourceChain).

Lemma verify_spec v answer :
  (verify v (group_by_status answer)).1 = call (VerifyMessagesAt v) (with_status verifiable answer).
Proof.
  unfold verify, flat_unzip. cbn [fst]. f_equal. unfold with_status.
  rewrite <-(groups_flatten (λ s ms, if verifiable s then ms else [])) by (intros []; done).
  induction (group_by_status answer) as [|[s ms] l IH]; [done|]. csimpl. rewrite IH. by destruct s.
Qed.

Lemma route_spec v answer :
  (route v (group_by_status answer)).1 = call (RouteMessagesAt v) (with_status succeeded answer).
Proof.
  unfold route, flat_unzip. cbn [fst]. f_equal. unfold with_status.
  rewrite <-(groups_flatten (λ s ms, if succeeded s then ms else [])) by (intros []; done).
  induction (group_by_status answer) as [|[s ms] l IH]; [done|]. csimpl. rewrite IH. by destruct s.
Qed.

Lemma apply_Ok env v msgs action r :
  apply env v msgs action = Ok r ↔
  NoDup (cc_id <$> msgs) ∧ ∃ answer, messages_status env v msgs = Some answer ∧
    r = mkResponse (action (group_by_status answer)).1 (action (group_by_status answer)).2.
Proof.
  unfold apply, check_for_duplicates. case_bool_decide as Hnd; cbn; [|naive_solver].
  destruct (messages_status env v msgs) as [answer|]; cbn; [|split; [done|by intros (_ & ? & ? & _)]].
  destruct (action (group_by_status answer)) as [ms es] eqn:Ha. split.
  - intros <-%Ok_inj. split; [done|]. exists answer. by rewrite Ha.
  - intros (_ & ? & <-%(inj Some) & ->). by rewrite Ha.
Qed.

Lemma apply_is_ok env v msgs action :
  is_ok (apply env v msgs action) = true ↔
  NoDup (cc_id <$> msgs) ∧ is_Some (messages_status env v msgs).
Proof.
  unfold apply, check_for_duplicates. case_bool_decide as Hnd; cbn; [|split; [done|by intros [? _]]].
  destruct (messages_status env v msgs) as [answer|]; cbn; [|split; [done|by intros [_ [? ?]]]].
  destruct (action (group_by_status answer)). cbn. split; [|done]. intros _. split; [done|by eexists].
Qed.

(** Saving a list of messages. *)
Definition compatible (st : State) (m : Message) : Prop :=
  ∀ m', OUTGOING_MESSAGES st !! cc_id m = Some m' → Message_hash keccak256 m = Message_hash keccak256 m'.
#[global] Instance compatible_dec st m : Decision (compatible st m).
Proof.
  unfold compatible. destruct (OUTGOING_MESSAGES st !! cc_id m) as [m'|].
  - destruct (decide (Message_hash keccak256 m = Message_hash keccak256 m')) as [He|He];
      [left; by intros ? [= <-]|right; intros Hc; by apply He, Hc].
  - by left.
Defined.

Definition stored_all (st : State) (msgs : list Message) : gmap CrossChainId Message :=
  OUTGOING_MESSAGES st ∪ list_to_map ((λ m, (cc_id m, m)) <$> msgs).

Lemma save_outgoing_spec st m :
  save_outgoing_message st (cc_id m) m =
  if bool_decide (compatible st m)
  then Ok (mkState (CONFIG st) (OUTGOING_MESSAGES st ∪ {[cc_id m := m]}))
  else Err (StoredMessageMismatch (cc_id m)).
Proof.
  unfold save_outgoing_message. destruct (OUTGOING_MESSAGES st !! cc_id m) as [m'|] eqn:Hl.
  - rewrite (bool_decide_ext (compatible st m) (Message_hash keccak256 m = Message_hash keccak256 m')).
    2:{ unfold compatible. rewrite Hl. split; [intros Hc; by apply Hc|]. by intros He ? [= <-]. }
    destruct (decide (Message_hash keccak256 m = Message_hash keccak256 m')) as [He|He].
    + rewrite bool_decide_eq_false_2 by naive_solver. rewrite bool_decide_eq_true_2 by done.
      assert (OUTGOING_MESSAGES st ∪ {[cc_id m := m]} = OUTGOING_MESSAGES st) as ->;
        [|by destruct st].
      apply map_eq. intros k. destruct (OUTGOING_MESSAGES st !! k) eqn:Hk;
        [by apply lookup_union_Some_l|].
      apply lookup_union_None. split; [done|]. apply lookup_singleton_ne. congruence.
    + rewrite bool_decide_eq_true_2 by done. by rewrite bool_decide_eq_false_2.
  - rewrite bool_decide_eq_true_2 by (intros ? ?; congruence).
    do 2 f_equal. rewrite insert_union_singleton_l. apply map_union_comm.
    by apply map_disjoint_singleton_l.
Qed.

Lemma save_all msgs st :
  NoDup (cc_id <$> msgs) →
  try_fold (λ st msg, map_err (λ _, SaveOutgoingMessage) (save_outgoing_message st (cc_id msg) msg)) st msgs =
  if bool_decide (Forall (compatible st) msgs)
  then Ok (mkState (CONFIG st) (stored_all st msgs)) else Err SaveOutgoingMessage.
Proof.
  revert st. induction msgs as [|m l IH]; intros st Hnd; cbn [try_fold].
  { rewrite bool_decide_eq_true_2 by constructor. unfold stored_all. cbn.
    rewrite map_union_empty. by destruct st. }
  csimpl in Hnd. apply NoDup_cons in Hnd as [Hm Hnd]. rewrite save_outgoing_spec.
  destruct (decide (compatible st m)) as [Hc|Hc].
  2:{ rewrite bool_decide_eq_false_2 by done. cbn. rewrite bool_decide_eq_false_2; [done|].
      by intros [? _]%Forall_cons. }
  rewrite (bool_decide_eq_true_2 (compatible st m)) by done. cbn. rewrite IH by done.
  set (st1 := mkState _ _).
  rewrite (bool_decide_ext (Forall (compatible st) (m :: l)) (Forall (compatible st1) l)).
  - case_bool_decide; [|done]. do 2 f_equal. unfold stored_all, st1. csimpl.
    by rewrite <-map_union_assoc, <-insert_union_singleton_l.
  - rewrite Forall_cons, !Forall_forall.
    assert (∀ x, x ∈ l → OUTGOING_MESSAGES st1 !! cc_id x = OUTGOING_MESSAGES st !! cc_id x) as Hsame.
    { intros x Hx. unfold st1. cbn. rewrite lookup_union_l; [done|].
      apply lookup_singleton_ne. intros Heq. apply Hm, list_elem_of_fmap. eauto. }
    unfold compatible. split.
    + intros [_ Hl] x Hx. rewrite Hsame by done. by apply Hl.
    + intros Hl. split; [done|]. intros x Hx. rewrite <-Hsame by done. by apply Hl.
Qed.

(** The groups of an answer are a permutation of it. *)
Lemma buckets_perm {A} (G : VerificationStatus → Message → A) (answer : list (Message * VerificationStatus)) :
  mjoin ((λ s, G s <$> (filter (λ p, p.2 = s) answer).*1) <$> statuses) ≡ₚ (λ p, G p.2 p.1) <$> answer.
Proof.
  assert (∀ m s l, s ∈ l → NoDup l → ∀ k : VerificationStatus → list A,
    mjoin ((λ s', if decide (s = s') then G s m :: k s' else k s') <$> l) ≡ₚ G s m :: mjoin (k <$> l)) as Hone.
  { intros m s l Hin Hnd k. induction Hnd as [|s' l Hs' Hnd IH]; [by apply not_elem_of_nil in Hin|].
    rewrite !fmap_cons, !join_cons. destruct (decide (s = s')) as [<-|Hne].
    - cbn. f_equiv. f_equiv. apply reflexive_eq. f_equal. apply list_fmap_ext. intros i x Hx.
      rewrite decide_False; [done|]. intros <-. by apply Hs', (list_elem_of_lookup_2 _ i).
    - apply elem_of_cons in Hin as [->|Hin]; [done|]. rewrite IH by done.
      by rewrite Permutation_middle. }
  induction answer as [|[m s] answer IH].
  - reflexivity.
  - cbn [fmap list_fmap fst snd]. rewrite <-IH, <-(Hone m s statuses).
    + apply reflexive_eq. f_equal. apply list_fmap_ext. intros i s' _. rewrite filter_cons. cbn.
      destruct (decide (s = s')) as [<-|Hne]; done.
    + unfold statuses. destruct s; repeat (left || right).
    + unfold statuses. repeat constructor; rewrite ?elem_of_cons, ?elem_of_nil; intuition discriminate.
Qed.

Definition route_event (s : VerificationStatus) (m : Message) : GatewayEvent :=
  if succeeded s then Routing m else UnfitForRouting m.

Lemma route_events v answer :
  (route v (group_by_status answer)).2 ≡ₚ (λ p, route_event p.2 p.1) <$> answer.
Proof.
  rewrite <-buckets_perm. unfold route, flat_unzip. cbn [snd]. apply reflexive_eq.
  rewrite <-(groups_flatten (λ s ms, route_event s <$> ms)) by done.
  induction (group_by_status answer) as [|[s ms] l IH]; [done|]. csimpl. rewrite IH. by destruct s.
Qed.

(** ** Runs *)

Definition step (st st' : State) : Prop :=
  ∃ env sender m r, execute st env sender m = Ok (st', r).

Inductive reachable `{Api} : State → Prop :=
  | reachable_init msg st r : instantiate msg = Ok (st, r) → reachable st
  | reachable_step st st' : reachable st → step st st' → reachable st'.

Lemma execute_cases st env sender m st' r c :
  CONFIG st = Some c → execute st env sender m = Ok (st', r) →
  st' = st ∨
  ∃ msgs, m = RouteMessages msgs ∧ sender = router c ∧ NoDup (cc_id <$> msgs) ∧
    Forall (compatible st) msgs ∧ st' = mkState (CONFIG st) (stored_all st msgs) ∧
    r = add_events (Routing <$> msgs) Response_new.
Proof.
  intros Hc. unfold execute, load_config. rewrite Hc. cbn. destruct m as [msgs|msgs].
  - intros Hf. ok_inv. left. by injection Hf as <- <-.
  - case_bool_decide as Hs; [|intros Hf; ok_inv; left; by injection Hf as <- <-].
    intros Hf%map_err_Ok. unfold route_outgoing_messages, check_for_duplicates in Hf.
    case_bool_decide as Hnd; [|done]. cbn in Hf. rewrite save_all in Hf by done.
    case_bool_decide as Hcomp; [|done]. cbn in Hf. injection Hf as <- <-. right. exists msgs.
    split_and!; try done. by rewrite Hc.
Qed.

Record inv (st : State) : Prop := {
  inv_config : is_Some (CONFIG st);
  inv_key id m : OUTGOING_MESSAGES st !! id = Some m → cc_id m = id
}.

Lemma gateway_step_inv st st' :
  inv st → step st st' → inv st' ∧ CONFIG st' = CONFIG st ∧ OUTGOING_MESSAGES st ⊆ OUTGOING_MESSAGES st'.
Proof.
  intros Hi (env & sender & m & r & Hf). destruct (inv_config _ Hi) as [c Hc].
  destruct (execute_cases _ _ _ _ _ _ _ Hc Hf) as [->|(msgs & _ & _ & _ & _ & -> & _)]; [done|].
  split; [|split; [done|apply map_union_subseteq_l]]. split; [by exists c|]. intros id m'. cbn.
  unfold stored_all. rewrite lookup_union_Some_raw. intros [?|[_ Hl]]; [by apply (inv_key _ Hi)|].
  apply elem_of_list_to_map_2, list_elem_of_fmap in Hl as (x & [= -> ->] & _). done.
Qed.

Lemma gateway_reachable_inv `{Api} st : reachable st → inv st.
Proof.
  induction 1 as [msg st r Hf|st st' _ IH Hs]; [|by destruct (gateway_step_inv _ _ IH Hs)].
  unfold instantiate in Hf. ok_inv. injection Hf as <- <-. split; cbn; [by eexists|].
  intros id m. by rewrite lookup_empty.
Qed.

Lemma gateway_steps_grow st st' :
  inv st → rtc step st st' → inv st' ∧ CONFIG st' = CONFIG st ∧ OUTGOING_MESSAGES st ⊆ OUTGOING_MESSAGES st'.
Proof.
  intros Hi Hs. revert Hi. induction Hs as [st|st1 st2 st3 H1 _ IH]; intros Hi; [done|].
  destruct (gateway_step_inv _ _ Hi H1) as (Hi2 & Hc & Hsub). destruct (IH Hi2) as (Hi3 & Hc' & Hsub').
  split; [done|]. split; [congruence|by etrans].
Qed.

(** ** Properties *)

(** Messages that come from elsewhere than the router. *)
Lemma incoming_messages_spec st env sender c msgs :
  CONFIG st = Some c → sender ≠ router c →
  (is_ok (execute st env sender (RouteMessages msgs)) = true ↔
     NoDup (cc_id <$> msgs) ∧ is_Some (messages_status env (verifier c) msgs)) ∧
  (∀ st' r, execute st env sender (RouteMessages msgs) = Ok (st', r) →
     ∃ answer, messages_status env (verifier c) msgs = Some answer ∧ st' = st ∧
       messages r = call (RouteMessagesAt (router c)) (with_status succeeded answer) ∧
       (∀ m, m ∈ with_status succeeded answer ↔ (m, SucceededOnSourceChain) ∈ answer) ∧
       events r ≡ₚ (λ p, route_event p.2 p.1) <$> answer).
Proof.
  intros Hc Hs. unfold execute, load_config. rewrite Hc. cbn. rewrite bool_decide_eq_false_2 by done.
  unfold route_incoming_messages. split.
  - rewrite <-apply_is_ok with (action := route (router c)).
    by destruct (apply env (verifier c) msgs (route (router c))).
  - intros st' r Hf. ok_inv. injection Hf as <- <-.
    apply apply_Ok in Hok as (Hnd & answer & Hans & ->). exists answer. cbn.
    split; [done|]. split; [done|]. split; [apply route_spec|].
    split; [|exact (route_events (router c) answer)].
    intros m. rewrite elem_of_with_status. unfold succeeded. split.
    + intros (s & Hin & Hsu). breflect. by subst.
    + intros Hin. exists SucceededOnSourceChain. by rewrite bool_decide_eq_true_2.
Qed.

(** What the gateway passes on.  Messages that do not come from the router are accepted exactly
    when their identifiers are distinct and the verifier answers; the storage is not touched,
    the router is sent precisely the messages whose status is a success on the source chain,
    and one event is emitted per message of the answer. *)
Theorem incoming_messages_exact st env sender c msgs :
  CONFIG st = Some c → sender ≠ router c →
  (is_ok (execute st env sender (RouteMessages msgs)) = true ↔
     NoDup (cc_id <$> msgs) ∧ is_Some (messages_status env (verifier c) msgs)) ∧
  (∀ st' r, execute st env sender (RouteMessages msgs) = Ok (st', r) →
     ∃ answer, messages_status env (verifier c) msgs = Some answer ∧ st' = st ∧
       messages r = call (RouteMessagesAt (router c)) (with_status succeeded answer) ∧
       (∀ m, m ∈ with_status succeeded answer ↔ (m, SucceededOnSourceChain) ∈ answer) ∧
       events r ≡ₚ (λ p, route_event p.2 p.1) <$> answer).
Proof. apply incoming_messages_spec. Qed.

(** Outgoing messages are final.  Only the router can change the storage, a message is stored
    under its own identifier, and a stored message is never changed or removed, whatever is
    executed afterwards: a message under the same identifier is refused unless its hash is the
    hash of the stored one. *)
Theorem outgoing_messages_final `{Api} st id m :
  reachable st → OUTGOING_MESSAGES st !! id = Some m →
  cc_id m = id ∧
  (∀ st', rtc step st st' → OUTGOING_MESSAGES st' !! id = Some m) ∧
  (∀ env sender msg st' r, execute st env sender msg = Ok (st', r) → st' ≠ st →
     ∃ c msgs, CONFIG st = Some c ∧ sender = router c ∧ msg = RouteMessages msgs ∧
       (∀ m', m' ∈ msgs → cc_id m' = id → Message_hash keccak256 m' = Message_hash keccak256 m)).
Proof.
  intros Hr Hm. pose proof (gateway_reachable_inv _ Hr) as Hi. split; [by apply (inv_key _ Hi)|]. split.
  - intros st' Hs. destruct (gateway_steps_grow _ _ Hi Hs) as (_ & _ & Hsub).
    by apply (lookup_weaken _ _ _ _ Hm).
  - intros env sender msg st' r Hf Hne. destruct (inv_config _ Hi) as [c Hc].
    destruct (execute_cases _ _ _ _ _ _ _ Hc Hf) as [->|(msgs & -> & -> & _ & Hcomp & _)]; [done|].
    exists c, msgs. split_and!; try done. intros m' Hin Hid.
    rewrite Forall_forall in Hcomp. apply (Hcomp m' Hin). by rewrite Hid.
Qed.

Lemma outgoing_fold st ids acc :
  foldl accumulate_errs (Ok acc) (load_outgoing_message st <$> ids) =
  match filter (λ id, OUTGOING_MESSAGES st !! id = None) ids with
  | [] => Ok (acc ++ omap (λ id, OUTGOING_MESSAGES st !! id) ids)
  | missing => Err (MessageNotFound <$> missing)
  end.
Proof.
  assert (∀ ids errs, foldl accumulate_errs (Err errs) (load_outgoing_message st <$> ids) =
    Err (errs ++ (MessageNotFound <$> filter (λ id, OUTGOING_MESSAGES st !! id = None) ids))) as Herr.
  { clear ids. induction ids as [|id ids IH]; intros errs; [by rewrite app_nil_r|].
    rewrite fmap_cons, filter_cons. cbn [foldl].
    destruct (OUTGOING_MESSAGES st !! id) as [m|] eqn:Hm.
    - rewrite decide_False, <-IH by done. do 2 f_equal.
      unfold load_outgoing_message. by rewrite Hm.
    - rewrite decide_True, fmap_cons, cons_middle, app_assoc, <-IH by done. do 2 f_equal.
      unfold load_outgoing_message. by rewrite Hm. }
  revert acc. induction ids as [|id ids IH]; intros acc; [by rewrite app_nil_r|].
  rewrite fmap_cons, filter_cons. cbn [foldl]. unfold load_outgoing_message at 1.
  change (omap (λ id0, OUTGOING_MESSAGES st !! id0) (id :: ids)) with
    (match OUTGOING_MESSAGES st !! id with
     | Some m => m :: omap (λ id0, OUTGOING_MESSAGES st !! id0) ids
     | None => omap (λ id0, OUTGOING_MESSAGES st !! id0) ids end).
  destruct (OUTGOING_MESSAGES st !! id) as [m|] eqn:Hm; cbn [ok_or accumulate_errs].
  - rewrite decide_False, IH by done. by rewrite <-app_assoc.
  - rewrite decide_True by done. by rewrite Herr.
Qed.

(** The query answers all the messages asked for, in order, or an error that names every missing
    one, in order, and not only the first. *)
Theorem outgoing_query_exact st ids :
  outgoing_messages st ids =
  match filter (λ id, OUTGOING_MESSAGES st !! id = None) ids with
  | [] => Ok (omap (λ id, OUTGOING_MESSAGES st !! id) ids)
  | missing => Err (MessageNotFound <$> missing)
  end.
Proof. unfold outgoing_messages. by rewrite outgoing_fold. Qed.

End contract.
End gateway.

(** ** A run *)
Module gateway_run.
Import router_api gateway.

Definition run_api : Api := {| addr_validate := λ s, Ok s |}.
Definition run_crypto : Crypto :=
  Build_Crypto (λ s, s) (λ _ _ _, Some true) (λ _ _ _, Some true) Some Some.
#[local] Existing Instances run_api run_crypto.

Definition run_msg (i d : string) : Message := mkMessage (mkCcId "eth" i) "src" d "dst" "hash".

(** The verifier has confirmed the message "a" only. *)
Definition run_env : Env := mkEnv (λ _ msgs, Some ((λ m,
  (m, if bool_decide (message_id (cc_id m) = "a") then SucceededOnSourceChain else StatusUnknown))
  <$> msgs)).

Definition run0 : State := mkState (Some (mkConfig "verifier" "router")) ∅.
Definition run1 : State :=
  match execute run0 run_env "router" (RouteMessages [run_msg "a" "sui"; run_msg "b" "sui"]) with
  | Ok (s, _) => s
  | _ => run0
  end.

Lemma run0_init : reachable run0.
Proof. by apply (reachable_init (mkInstantiate "verifier" "router") run0 Response_new). Qed.

Lemma gateway_run1 : reachable run1.
Proof.
  apply (reachable_step run0); [apply run0_init|].
  exists run_env, "router", (RouteMessages [run_msg "a" "sui"; run_msg "b" "sui"]). eexists.
  vm_compute. reflexivity.
Qed.

(** Of two messages only the confirmed one goes to the router. *)
Lemma incoming_messages_exact_witness :
  ∃ r, execute run0 run_env "anyone" (RouteMessages [run_msg "a" "sui"; run_msg "b" "sui"]) =
         Ok (run0, r) ∧ messages r = [RouteMessagesAt "router" [run_msg "a" "sui"]].
Proof.
  destruct (incoming_messages_exact run0 run_env "anyone" (mkConfig "verifier" "router")
    [run_msg "a" "sui"; run_msg "b" "sui"] eq_refl ltac:(discriminate)) as [Hok Hr].
  destruct (is_ok_true _ (proj2 Hok ltac:(split; [apply (bool_decide_unpack _); vm_compute; exact I|by eexists]))) as [[s r] Hf].
  destruct (Hr s r Hf) as (answer & Hans & -> & Hm & _). exists r. split; [exact Hf|].
  rewrite Hm. vm_compute in Hans. injection Hans as <-. vm_compute. reflexivity.
Defined.

Lemma outgoing_messages_final_witness :
  cc_id (run_msg "a" "sui") = mkCcId "eth" "a" ∧
  ∀ st', rtc step run1 st' → OUTGOING_MESSAGES st' !! mkCcId "eth" "a" = Some (run_msg "a" "sui").
Proof.
  destruct (outgoing_messages_final run1 (mkCcId "eth" "a") (run_msg "a" "sui") gateway_run1)
    as (Hid & Hkeep & _); [vm_compute; reflexivity|]. exact (conj Hid Hkeep).
Defined.

End gateway_run.
