(* ===== verification/AxelarnetGateway.v ===== *)
(** * The gateway of the Axelar network

    [contracts/axelarnet-gateway/src]: routable and executable messages ([state.rs]), the
    handlers ([contract/execute.rs]), the queries ([contract/query.rs]) and the entry points
    ([contract.rs], [msg.rs]); and the message format of the core module nexus with its
    conversions ([packages/axelar-core-std/src/nexus/execute.rs]).

    The answers of the core module are an argument of the environment. *)

From S2P Require Import Prelude Std MsgId RouterApi Multisig Router.

(** ** Messages of the core module ([nexus/execute.rs]) *)
Module nexus.
Import router_api.

Record Message := mkMessage {
  n_source_chain : string;
  n_source_address : string;
  n_destination_chain : string;
  n_destination_address : string;
  n_payload_hash : string;
  source_tx_id : Hash;
  source_tx_index : Z;
  id : string
}.

Inductive Error := InvalidMessageId (id : string).

Section conversions.
Context `{HexCodec}.

Definition parse_message_id (message_id : string) : result Error (Hash * Z) :=
  id ← map_err (λ _, InvalidMessageId message_id)
         (msg_id.hex_index_from_str (text_of message_id));
  tx_id ← map_err (λ _, InvalidMessageId message_id) (nonempty.vec_try_from (msg_id.hex_tx_hash id));
  Ok (tx_id, msg_id.hex_event_index id).

(** [From<router_api::Message>]: all zeros when the identifier has another format. *)
Definition from_router (msg : router_api.Message) : Message :=
  let zeroed_message_id := replicate 32 (byte_of 0) in
  let '(source_tx_id, source_tx_index) :=
    match parse_message_id (message_id (cc_id msg)) with
    | Ok p => p
    | _ => (zeroed_message_id, 0)
    end in
  mkMessage (source_chain (cc_id msg)) (source_address msg) (destination_chain msg)
    (destination_address msg) (payload_hash msg) source_tx_id source_tx_index
    (message_id (cc_id msg)).

(** [TryFrom<Message> for router_api::Message] *)
Definition try_into_router (msg : Message) : result Error router_api.Message :=
  message_id ← map_err (λ _, InvalidMessageId (id msg)) (nonempty.string_try_from (id msg));
  Ok (router_api.mkMessage (mkCcId (n_source_chain msg) message_id) (n_source_address msg)
        (n_destination_chain msg) (n_destination_address msg) (n_payload_hash msg)).

(** Messages survive the way through the core format.  Converting a message of the router and
    converting it back gives the message, whatever the format of its identifier; and when the
    identifier is the text of a transaction hash and an index, these are the transaction
    reference of the core message. *)
Theorem nexus_message_roundtrip (m : router_api.Message) :
  message_id (cc_id m) ≠ EmptyString →
  try_into_router (from_router m) = Ok m ∧
  (∀ h i, length h = 32%nat → 0 ≤ i ≤ u64_max →
     text_of (message_id (cc_id m)) = msg_id.hex_index_to_string (msg_id.mkHexIndex h i) →
     source_tx_id (from_router m) = h ∧ source_tx_index (from_router m) = i).
Proof.
  intros Hid. split.
  - unfold from_router, try_into_router.
    destruct (match parse_message_id _ with Ok p => p | _ => _ end). cbn.
    unfold nonempty.string_try_from. rewrite bool_decide_eq_false_2 by done. by destruct m as [[]].
  - intros h i Hh Hi Ht. unfold from_router, parse_message_id. rewrite Ht.
    assert (msg_id.hex_index_from_str (msg_id.hex_index_to_string (msg_id.mkHexIndex h i))
      = Ok (msg_id.mkHexIndex h i)) as ->.
    { refine (proj2 (msg_id.from_str_spec (T := msg_id.HexTxHashAndEventIndex_id)
        (msg_id.hex_index_to_string (msg_id.mkHexIndex h i)) (msg_id.mkHexIndex h i)) _). done. }
    cbn. destruct h; [done|]. done.
Qed.

End conversions.
End nexus.

(** ** The contract *)
Module axelarnet_gateway.
Import router_api.

Inductive StateError :=
  | StoredMessageMismatch (id : CrossChainId)
  | MessageNotFound (id : CrossChainId)
  | MessageNotApproved (id : CrossChainId)
  | MessageAlreadyExecuted (id : CrossChainId)
  | MessageAlreadyExists (id : CrossChainId)
  | PayloadHashMismatch.

Inductive Error :=
  | SaveExecutableMessage
  | MessageMismatch (id : CrossChainId)
  | MarkExecuted (id : CrossChainId)
  | InvalidDestination (expected actual : string)
  | SaveRoutableMessage
  | InvalidCrossChainId
  | InvalidSourceAddress (a : Addr)
  | InvalidDestinationAddress (a : string)
  | NexusError
  | NonceOverflow
  | InvalidRoutingDestination
  | InvalidNexusMessageForRouter.

Record Config := mkConfig { chain_name : string; router : Addr; nexus_addr : Addr }.

Inductive ExecutableMessage :=
  | Approved (msg : Message)
  | Executed (msg : Message).

Definition executable_msg (e : ExecutableMessage) : Message :=
  match e with Approved msg | Executed msg => msg end.

Record State := mkState {
  CONFIG : option Config;
  ROUTABLE_MESSAGES : gmap CrossChainId Message;
  EXECUTABLE_MESSAGES : gmap CrossChainId ExecutableMessage
}.

Definition set_routable (st : State) m : State :=
  mkState (CONFIG st) m (EXECUTABLE_MESSAGES st).
Definition set_executable (st : State) m : State :=
  mkState (CONFIG st) (ROUTABLE_MESSAGES st) m.

(** What the core module answers; the nonce is an unsigned 64-bit integer. *)
Record Env := mkEnv {
  tx_hash_and_nonce : option (Hash * Z);
  is_chain_registered : string → option bool
}.

Inductive Event :=
  | ContractCalled (msg : Message) (payload : string)
  | Routing (msg : Message)
  | MessageExecuted (msg : Message).

(** [AxelarExecutableMsg] *)
Record ExternalMsg := mkExternal {
  ext_cc_id : CrossChainId;
  ext_source_address : string;
  ext_payload : string
}.

Inductive OutMsg :=
  | RouteMessagesAt (contract : Addr) (msgs : list Message)
  | RouteToNexus (msg : nexus.Message)
  | ExecuteAt (destination : Addr) (msg : ExternalMsg).

Notation AResponse := (Response OutMsg Event).

(** *** Storage ([state.rs]) *)

Definition load_config {E} (st : State) : result E Config := expect (CONFIG st).

Definition save_unique_routable_msg (st : State) (id : CrossChainId) (msg : Message)
    : result StateError State :=
  _ ← ensure (bool_decide (ROUTABLE_MESSAGES st !! id = None)) (MessageAlreadyExists id);
  Ok (set_routable st (<[id := msg]> (ROUTABLE_MESSAGES st))).

Definition may_load_routable_msg (st : State) (id : CrossChainId) : option Message :=
  ROUTABLE_MESSAGES st !! id.

Definition load_routable_msg (st : State) (id : CrossChainId) : result StateError Message :=
  ok_or (MessageNotFound id) (may_load_routable_msg st id).

Definition may_load_executable_msg (st : State) (id : CrossChainId) : option ExecutableMessage :=
  EXECUTABLE_MESSAGES st !! id.

Definition load_executable_msg (st : State) (id : CrossChainId)
    : result StateError ExecutableMessage :=
  ok_or (MessageNotApproved id) (may_load_executable_msg st id).

Definition save_executable_msg (st : State) (id : CrossChainId) (msg : Message)
    : result StateError State :=
  match may_load_executable_msg st id with
  | Some existing =>
      if bool_decide (executable_msg existing ≠ msg) then Err (StoredMessageMismatch (cc_id msg))
      else Ok st
  | None => Ok (set_executable st (<[id := Approved msg]> (EXECUTABLE_MESSAGES st)))
  end.

Definition mark_as_executed (st : State) (id : CrossChainId)
    (validate : Message → result StateError unit) : result StateError (State * Message) :=
  msg ← match may_load_executable_msg st id with
        | None => Err (MessageNotApproved id)
        | Some (Executed _) => Err (MessageAlreadyExecuted id)
        | Some (Approved msg) => _ ← validate msg; Ok msg
        end;
  Ok (set_executable st (<[id := Executed msg]> (EXECUTABLE_MESSAGES st)), msg).

(** *** Handlers ([contract/execute.rs]) *)

Section contract.
Context `{Crypto} `{HexCodec} `{Api}.

Record CallContractData := mkCall {
  c_destination_chain : string;
  c_destination_address : string;
  c_payload : string
}.

Definition to_message (self : CallContractData) (id : CrossChainId) (source_address : string)
    : Message :=
  mkMessage id source_address (c_destination_chain self) (c_destination_address self)
    (keccak256 (c_payload self)).

Inductive RoutingDestination := ToNexus | ToRouter | ToThis.

Definition u32_max : Z := 4294967295.

Definition unique_cross_chain_id (env : Env) (chain_name : string) : result Error CrossChainId :=
  '(tx_hash, nonce) ← ok_or NexusError (tx_hash_and_nonce env);
  nonce ← (if bool_decide (nonce ≤ u32_max) then Ok nonce else Err NonceOverflow);
  map_err (λ _, InvalidCrossChainId) (CrossChainId_new chain_name
    (String.string_of_list_ascii (msg_id.hex_index_to_string (msg_id.mkHexIndex tx_hash nonce)))).

Definition determine_routing_destination (env : Env) (sender : Addr) (dest_chain : string)
    (router : Addr) (this_chain : string) : result Error RoutingDestination :=
  registered ← ok_or NexusError (is_chain_registered env dest_chain);
  if (registered : bool) then Ok ToNexus
  else if bool_decide (sender = router) then
    _ ← ensure (bool_decide (dest_chain = this_chain)) InvalidRoutingDestination;
    Ok ToThis
  else Ok ToRouter.

Definition prepare_for_execution (st : State) (chain_name : string) (msgs : list Message)
    : result Error (State * (list OutMsg * list Event)) :=
  st ← try_fold (λ st msg,
    _ ← ensure (bool_decide (chain_name = destination_chain msg))
          (InvalidDestination chain_name (destination_chain msg));
    map_err (λ _, SaveExecutableMessage) (save_executable_msg st (cc_id msg) msg)) st msgs;
  Ok (st, ([], Routing <$> msgs)).

(** [to_none_if_empty] of the router client. *)
Definition route_call (router : Addr) (msgs : list Message) : list OutMsg :=
  match msgs with [] => [] | _ => [RouteMessagesAt router msgs] end.

Definition route_to_router (router : Addr) (msgs : list Message) : list OutMsg * list Event :=
  (route_call router msgs, Routing <$> msgs).

Definition route_to_nexus (msgs : list Message) : list OutMsg * list Event :=
  ((λ msg, RouteToNexus (nexus.from_router msg)) <$> msgs, Routing <$> msgs).

Definition try_load_routable_msg (st : State) (msg : Message) : result Error (option Message) :=
  match may_load_routable_msg st (cc_id msg) with
  | Some stored_msg =>
      if bool_decide (stored_msg ≠ msg) then Err (MessageMismatch (cc_id msg))
      else Ok (Some stored_msg)
  | None => Ok None
  end.

(** [Itertools::unique]: the first occurrences. *)
Fixpoint unique (seen : list Message) (msgs : list Message) : list Message :=
  match msgs with
  | [] => []
  | m :: msgs => if bool_decide (m ∈ seen) then unique seen msgs
                 else m :: unique (m :: seen) msgs
  end.

(** The messages to route: those of the router, or the stored ones among the given. *)
Definition routable (st : State) (router sender : Addr) (msgs : list Message)
    : result Error (list Message) :=
  if bool_decide (sender ≠ router) then
    loaded ← try_map (try_load_routable_msg st) (unique [] msgs);
    Ok (omap (λ msg : option Message, msg) (loaded : list (option Message)))
  else Ok msgs.

(** One chunk: the messages of one destination. *)
Definition route_chunk (env : Env) (config : Config) (sender : Addr)
    (acc : State * AResponse) (chunk : string * list Message) : result Error (State * AResponse) :=
  let '(st, r) := acc in
  let '(dest_chain, msgs) := chunk in
  destination ← determine_routing_destination env sender dest_chain (router config)
                  (chain_name config);
  '(st, (messages, events)) ← match destination with
    | ToThis => prepare_for_execution st (chain_name config) msgs
    | ToNexus => Ok (st, route_to_nexus msgs)
    | ToRouter => Ok (st, route_to_router (router config) msgs)
    end;
  Ok (st, add_events events (add_messages messages r)).

Definition route_messages (st : State) (env : Env) (sender : Addr) (msgs : list Message)
    : result Error (State * AResponse) :=
  config ← load_config st;
  msgs ← routable st (router config) sender msgs;
  try_fold (route_chunk env config sender) (st, Response_new) (chunk_by destination_chain msgs).

(** A message identifier that exists already is a panic. *)
Definition call_contract (st : State) (env : Env) (sender : Addr) (data : CallContractData)
    : result Error (State * AResponse) :=
  config ← load_config st;
  id ← unique_cross_chain_id env (chain_name config);
  source_address ← map_err (λ _, InvalidSourceAddress sender) (Address_try_from sender);
  let msg := to_message data id source_address in
  st ← match save_unique_routable_msg st (cc_id msg) msg with
       | Err (MessageAlreadyExists _) => Panic
       | r => map_err (λ _, SaveRoutableMessage) r
       end;
  '(st, res) ← route_messages st env sender [msg];
  Ok (st, add_event (ContractCalled msg (c_payload data)) res).

Definition ensure_same_payload_hash (payload_hash' : string) (msg : Message)
    : result StateError unit :=
  ensure (bool_decide (payload_hash' = payload_hash msg)) PayloadHashMismatch.

Definition execute_message (st : State) (id : CrossChainId) (payload : string)
    : result Error (State * AResponse) :=
  '(st, msg) ← map_err (λ _, MarkExecuted id)
    (mark_as_executed st id (ensure_same_payload_hash (keccak256 payload)));
  destination ← map_err (λ _, InvalidDestinationAddress (destination_address msg))
                  (addr_validate (destination_address msg));
  Ok (st, add_event (MessageExecuted msg)
            (add_message (ExecuteAt destination (mkExternal id (source_address msg) payload))
               Response_new)).

Definition route_messages_from_nexus (st : State) (msgs : list nexus.Message)
    : result Error (State * AResponse) :=
  msgs ← map_err (λ _, InvalidNexusMessageForRouter) (try_map nexus.try_into_router msgs);
  config ← load_config st;
  Ok (st, add_messages (route_call (router config) msgs) Response_new).

(** *** Queries ([contract/query.rs]) *)

Definition routable_messages (st : State) (ids : list CrossChainId)
    : result StateError (list Message) := try_map (load_routable_msg st) ids.

Definition executable_messages (st : State) (ids : list CrossChainId)
    : result StateError (list ExecutableMessage) := try_map (load_executable_msg st) ids.

Definition query_chain_name {E} (st : State) : result E string :=
  chain_name <$> load_config st.

(** *** Entry points ([contract.rs], [msg.rs]) *)

Record InstantiateMsg := mkInstantiate {
  i_chain_name : string;
  router_address : string;
  i_nexus : string
}.

Inductive ExecuteMsg :=
  | RouteMessages (msgs : list Message)
  | Execute (id : CrossChainId) (payload : string)
  | CallContract (data : CallContractData)
  | RouteMessagesFromNexus (msgs : list nexus.Message).

Definition permissions (m : ExecuteMsg) : msgs_derive.MsgPermissions :=
  match m with
  | RouteMessagesFromNexus _ => msgs_derive.mkPerm ["nexus"] [] []
  | _ => msgs_derive.mkPerm [] [permission_control.Any] []
  end.

Inductive ExecuteError :=
  | Permission (e : permission_control.Error)
  | Contract (e : Error).

Definition instantiate (msg : InstantiateMsg) : result StdError (State * AResponse) :=
  router ← addr_validate (router_address msg);
  nexus ← addr_validate (i_nexus msg);
  Ok (mkState (Some (mkConfig (i_chain_name msg) router nexus)) ∅ ∅, Response_new).

Definition match_nexus (st : State) (sender_addr : Addr) (_ : ExecuteMsg) : result Error bool :=
  config ← load_config st;
  Ok (bool_decide (sender_addr = nexus_addr config)).

Definition execute (st : State) (env : Env) (sender : Addr)
    (m : msgs_derive.ExecuteMsgFromProxy ExecuteMsg) : result ExecuteError (State * AResponse) :=
  '(m, sender) ← map_err Permission
    (msgs_derive.authorize (PE := unit) permissions (λ _, match_nexus st) []
       (permission_control.mkStorage None None) sender m);
  map_err Contract
    match m with
    | CallContract data => call_contract st env sender data
    | RouteMessages msgs => route_messages st env sender msgs
    | Execute id payload => execute_message st id payload
    | RouteMessagesFromNexus msgs => route_messages_from_nexus st msgs
    end.

(** *** What the handlers do *)

(** The effect of routing the messages [ms]: existing executable messages are kept, new ones
    are approvals of messages of the router for this chain, and each destination gets messages
    of [ms] only. *)
Record routed (st : State) (env : Env) (c : Config) (sender : Addr) (ms : list Message)
    (st' : State) (r : AResponse) : Prop := {
  routed_config : CONFIG st' = CONFIG st;
  routed_routable : ROUTABLE_MESSAGES st' = ROUTABLE_MESSAGES st;
  routed_kept : EXECUTABLE_MESSAGES st ⊆ EXECUTABLE_MESSAGES st';
  routed_new id e : EXECUTABLE_MESSAGES st' !! id = Some e →
    EXECUTABLE_MESSAGES st !! id = Some e ∨
    (sender = router c ∧ is_chain_registered env (chain_name c) = Some false ∧
     ∃ m, m ∈ ms ∧ e = Approved m ∧ cc_id m = id ∧ destination_chain m = chain_name c);
  routed_messages out : out ∈ messages r →
    match out with
    | RouteMessagesAt a l => a = router c ∧ sender ≠ router c ∧ (∀ m, m ∈ l → m ∈ ms)
    | RouteToNexus n => ∃ m, m ∈ ms ∧ n = nexus.from_router m ∧
                             is_chain_registered env (destination_chain m) = Some true
    | ExecuteAt _ _ => False
    end;
  routed_events e : e ∈ events r → ∃ m, m ∈ ms ∧ e = Routing m
}.

Lemma prepare_Ok c msgs st st' out :
  prepare_for_execution st c msgs = Ok (st', out) →
  out = ([], Routing <$> msgs) ∧ CONFIG st' = CONFIG st ∧
  ROUTABLE_MESSAGES st' = ROUTABLE_MESSAGES st ∧
  EXECUTABLE_MESSAGES st ⊆ EXECUTABLE_MESSAGES st' ∧
  (∀ id e, EXECUTABLE_MESSAGES st' !! id = Some e →
     EXECUTABLE_MESSAGES st !! id = Some e ∨
     ∃ m, m ∈ msgs ∧ e = Approved m ∧ cc_id m = id ∧ destination_chain m = c).
Proof.
  unfold prepare_for_execution. intros Hf. ok_inv. injection Hf as <- <-. split; [done|].
  revert v Hok. revert st. induction msgs as [|m l IH]; intros st st' Hf; cbn in Hf; ok_inv;
    [by eauto 10|].
  breflect. unfold save_executable_msg in Hok.
  assert (CONFIG v = CONFIG st ∧ ROUTABLE_MESSAGES v = ROUTABLE_MESSAGES st ∧
    EXECUTABLE_MESSAGES st ⊆ EXECUTABLE_MESSAGES v ∧
    (∀ id e, EXECUTABLE_MESSAGES v !! id = Some e →
       EXECUTABLE_MESSAGES st !! id = Some e ∨ e = Approved m ∧ cc_id m = id)) as (E1 & E2 & E3 & E4).
  { destruct (may_load_executable_msg st (cc_id m)) eqn:Hl.
    - case_bool_decide; [done|]. ok_inv. split_and!; try done. by left.
    - ok_inv. cbn. split_and!; try done; [by apply insert_subseteq|].
      intros id e. rewrite lookup_insert_Some. intros [[<- <-]|[_ ?]]; auto. }
  destruct (IH _ _ Hf) as (E1' & E2' & E3' & E4'). split_and!; try congruence; [by etrans|].
  intros id e He. destruct (E4' id e He) as [He'|(m' & Hin & -> & Hid & Hd)].
  - destruct (E4 id e He') as [?|[-> Hid]]; [by left|]. right. exists m. split_and!; try done. left.
  - right. exists m'. split_and!; try done. by right.
Qed.

Lemma routed_nil st env c sender : routed st env c sender [] st Response_new.
Proof.
  split; cbn; try done; try (intros ? Hin; by apply not_elem_of_nil in Hin). by left.
Qed.

Lemma route_chunk_Ok env c sender st0 ms st r d k st' r' :
  routed st0 env c sender ms st r → Forall (λ m, destination_chain m = d) k →
  route_chunk env c sender (st, r) (d, k) = Ok (st', r') →
  routed st0 env c sender (ms ++ k) st' r'.
Proof.
  intros [Hc Hr Hk Hn Hm He] Hd. unfold route_chunk, determine_routing_destination. intros Hf.
  apply bind_Ok in Hf as (dest & Hdest & Hf). apply bind_Ok in Hf as ([st1 [outs evs]] & Hch & Hf).
  injection Hf as <- <-. apply bind_Ok in Hdest as (reg & Hreg%ok_or_Ok & Hdest).
  assert (∀ id e, EXECUTABLE_MESSAGES st !! id = Some e →
    EXECUTABLE_MESSAGES st0 !! id = Some e ∨
    (sender = router c ∧ is_chain_registered env (chain_name c) = Some false ∧
     ∃ m, m ∈ ms ++ k ∧ e = Approved m ∧ cc_id m = id ∧ destination_chain m = chain_name c)) as Hn'.
  { intros id e Hl. destruct (Hn id e Hl) as [?|(? & ? & m & ? & ?)]; [by left|right].
    split; [done|]. split; [done|]. exists m. rewrite elem_of_app. auto. }
  assert (∀ e, e ∈ events r ++ (Routing <$> k) → ∃ m, m ∈ ms ++ k ∧ e = Routing m) as He'.
  { intros e [Hin|Hin]%elem_of_app.
    - destruct (He e Hin) as (m & ? & ->). exists m. rewrite elem_of_app. auto.
    - apply list_elem_of_fmap in Hin as (m & -> & ?). exists m. rewrite elem_of_app. auto. }
  assert (∀ out, out ∈ messages r →
    match out with
    | RouteMessagesAt a l => a = router c ∧ sender ≠ router c ∧ (∀ m, m ∈ l → m ∈ ms ++ k)
    | RouteToNexus n => ∃ m, m ∈ ms ++ k ∧ n = nexus.from_router m ∧
                             is_chain_registered env (destination_chain m) = Some true
    | ExecuteAt _ _ => False
    end) as Hm'.
  { intros out Hin. specialize (Hm out Hin). destruct out as [a l|n|]; [..|done].
    - destruct Hm as (? & ? & Hl). split_and!; try done. intros m Hml. rewrite elem_of_app. auto.
    - destruct Hm as (m & ? & ?). exists m. rewrite elem_of_app. auto. }
  rewrite Forall_forall in Hd. destruct reg; [|case_bool_decide as Hs; [|]]; ok_inv.
  - (* the core *)
    injection Hch as <- <- <-. split; cbn; try done. intros out [Hin|Hin]%elem_of_app; [by apply Hm'|].
    apply list_elem_of_fmap in Hin as (m & -> & Hmk). exists m. rewrite elem_of_app, (Hd m Hmk). auto.
  - (* this chain *)
    breflect. subst d. apply prepare_Ok in Hch as ([= -> ->] & Hc1 & Hr1 & Hk1 & Hn1).
    split; cbn; try congruence; [by etrans|..|done].
    + intros id e Hl. destruct (Hn1 id e Hl) as [?|(m & Hmk & -> & Hid & Hdm)]; [by apply Hn'|right].
      split; [done|]. split; [done|]. exists m. rewrite elem_of_app. auto.
    + intros out. rewrite app_nil_r. apply Hm'.
  - (* the router *)
    injection Hch as <- <- <-. split; cbn; try done. intros out [Hin|Hin]%elem_of_app; [by apply Hm'|].
    unfold route_call in Hin. destruct k as [|m0 k0]; [by apply not_elem_of_nil in Hin|].
    apply list_elem_of_singleton in Hin as ->. split; [done|]. split; [done|].
    intros m Hmk. rewrite elem_of_app. auto.
Qed.

Lemma route_messages_Ok c st env sender msgs st' r :
  CONFIG st = Some c → route_messages st env sender msgs = Ok (st', r) →
  ∃ ms, routable st (router c) sender msgs = Ok ms ∧ routed st env c sender ms st' r.
Proof.
  intros Hc. unfold route_messages, load_config. rewrite Hc. cbn. intros Hf.
  apply bind_Ok in Hf as (ms & Hms & Hf). exists ms. split; [done|].
  pose proof (chunk_by_keys destination_chain ms) as Hkeys. rewrite Forall_forall in Hkeys.
  rewrite <- (chunk_by_concat destination_chain ms).
  refine (try_fold_Ok_ind (λ k acc, routed st env c sender (mjoin (snd <$> k)) acc.1 acc.2)
    _ _ _ _ Hf _ _); [apply routed_nil|].
  intros k [d x] [st1 r1] [st2 r2] Hr Hin Hstep. cbn in Hr |- *.
  rewrite fmap_app, join_app. cbn. rewrite app_nil_r.
  exact (route_chunk_Ok _ _ _ _ _ _ _ _ _ _ _ Hr (proj2 (Hkeys _ Hin)) Hstep).
Qed.

(** Someone other than the router only routes messages that are stored. *)
Lemma routable_stored st router sender msgs ms m :
  routable st router sender msgs = Ok ms → sender ≠ router → m ∈ ms →
  ROUTABLE_MESSAGES st !! cc_id m = Some m.
Proof.
  unfold routable. intros Hf Hs Hm. rewrite bool_decide_eq_true_2 in Hf by done.
  apply bind_Ok in Hf as (loaded & Hl & Hf). injection Hf as <-.
  apply list_elem_of_omap in Hm as (o & Ho & ->). apply try_map_Ok in Hl.
  apply list_elem_of_lookup in Ho as [i Hi].
  destruct (Forall2_lookup_r _ _ _ _ _ Hl Hi) as (x & _ & Hx).
  unfold try_load_routable_msg, may_load_routable_msg in Hx.
  destruct (ROUTABLE_MESSAGES st !! cc_id x) as [stored|] eqn:Hlk; [|by ok_inv].
  destruct (decide (stored = x)) as [->|Hne]; [|by rewrite bool_decide_eq_true_2 in Hx].
  rewrite bool_decide_eq_false_2 in Hx by (by intros Hn). congruence.
Qed.

(** The four ways in which a call succeeds. *)
Inductive effect (st : State) (env : Env) (c : Config) (sender : Addr)
    : msgs_derive.ExecuteMsgFromProxy ExecuteMsg → State → AResponse → Prop :=
  | effect_route msgs ms st' r :
      routable st (router c) sender msgs = Ok ms → routed st env c sender ms st' r →
      effect st env c sender (msgs_derive.Direct (RouteMessages msgs)) st' r
  | effect_call data id st1 ms st' r :
      unique_cross_chain_id env (chain_name c) = Ok id →
      ROUTABLE_MESSAGES st !! id = None →
      st1 = set_routable st (<[id := to_message data id sender]> (ROUTABLE_MESSAGES st)) →
      routable st1 (router c) sender [to_message data id sender] = Ok ms →
      routed st1 env c sender ms st' r →
      effect st env c sender (msgs_derive.Direct (CallContract data)) st'
        (add_event (ContractCalled (to_message data id sender) (c_payload data)) r)
  | effect_execute id payload msg dest :
      EXECUTABLE_MESSAGES st !! id = Some (Approved msg) → keccak256 payload = payload_hash msg →
      addr_validate (destination_address msg) = Ok dest →
      effect st env c sender (msgs_derive.Direct (Execute id payload))
        (set_executable st (<[id := Executed msg]> (EXECUTABLE_MESSAGES st)))
        (add_event (MessageExecuted msg)
          (add_message (ExecuteAt dest (mkExternal id (source_address msg) payload)) Response_new))
  | effect_nexus nmsgs msgs :
      sender = nexus_addr c → try_map nexus.try_into_router nmsgs = Ok msgs →
      effect st env c sender (msgs_derive.Direct (RouteMessagesFromNexus nmsgs)) st
        (add_messages (route_call (router c) msgs) Response_new).

Lemma axelarnet_execute_effect st env c sender m st' r :
  CONFIG st = Some c → execute st env sender m = Ok (st', r) → effect st env c sender m st' r.
Proof.
  intros Hc. unfold execute. intros Hf. apply bind_Ok in Hf as ([m1 s1] & Ha%map_err_Ok & Hf).
  destruct m as [o m|m]; [done|]. apply msgs_derive.authorize_direct in Ha as (-> & -> & Hp).
  apply map_err_Ok in Hf. destruct m as [msgs|id payload|data|nmsgs].
  - destruct (route_messages_Ok _ _ _ _ _ _ _ Hc Hf) as (ms & ? & ?). by eapply effect_route.
  - unfold execute_message, mark_as_executed, may_load_executable_msg in Hf.
    destruct (EXECUTABLE_MESSAGES st !! id) as [[msg|msg]|] eqn:Hl; [|done..].
    unfold ensure_same_payload_hash in Hf. cbn in Hf. case_bool_decide as Hh; [|done]. cbn in Hf.
    apply bind_Ok in Hf as (dest & Hd%map_err_Ok & Hf). injection Hf as <- <-.
    by apply effect_execute.
  - unfold call_contract, load_config in Hf. rewrite Hc in Hf. cbn in Hf.
    apply bind_Ok in Hf as (id & Hid & Hf). apply bind_Ok in Hf as (a & Haddr%map_err_Ok & Hf).
    assert (a = sender) as ->.
    { unfold Address_try_from, nonempty.string_try_from in Haddr.
      case_bool_decide; [done|]. cbn in Haddr. destruct (is_address sender); [|done].
      cbn in Haddr. congruence. }
    unfold save_unique_routable_msg in Hf. change (cc_id (to_message data id sender)) with id in Hf.
    case_bool_decide as Hn; [|done]. cbn [ensure mbind result_bind map_err] in Hf.
    apply bind_Ok in Hf as ([st1 r1] & Hr & Hf). injection Hf as <- <-.
    apply (route_messages_Ok c) in Hr as (ms & ? & ?); [|exact Hc]. by eapply effect_call.
  - unfold route_messages_from_nexus, load_config in Hf. rewrite Hc in Hf.
    apply bind_Ok in Hf as (msgs & Hmsgs%map_err_Ok & Hf). injection Hf as <- <-.
    apply effect_nexus; [|done].
    apply (msgs_derive.ensure_permissions_specific _ _ _ _ _ "nexus") in Hp; [|done..].
    unfold match_nexus, load_config in Hp. rewrite Hc in Hp. cbn in Hp. injection Hp as Hp.
    by apply bool_decide_eq_true in Hp.
Qed.

(** *** Runs *)

(** The contract calls made so far, with their callers, and the executions sent so far. *)
Record Log := mkLog {
  called : list (Addr * Message * string);
  executed : list (Addr * ExternalMsg)
}.

Definition contract_calls (sender : Addr) (r : AResponse) : list (Addr * Message * string) :=
  omap (λ e, match e with ContractCalled m p => Some (sender, m, p) | _ => None end) (events r).

Definition executions (r : AResponse) : list (Addr * ExternalMsg) :=
  omap (λ o, match o with ExecuteAt a x => Some (a, x) | _ => None end) (messages r).

Definition record (sender : Addr) (r : AResponse) (l : Log) : Log :=
  mkLog (called l ++ contract_calls sender r) (executed l ++ executions r).

Inductive run : State → Log → Prop :=
  | run_init msg st r : instantiate msg = Ok (st, r) → run st (mkLog [] [])
  | run_step st env sender m st' r l :
      run st l → execute st env sender m = Ok (st', r) → run st' (record sender r l).

Definition step (st st' : State) : Prop :=
  ∃ env sender m r, execute st env sender m = Ok (st', r).

Lemma routed_no_execution st env c sender ms st' r :
  routed st env c sender ms st' r → executions r = [].
Proof.
  intros Hr. unfold executions. pose proof (routed_messages _ _ _ _ _ _ _ Hr) as Hm.
  induction (messages r) as [|o l IH]; [done|]. cbn.
  pose proof (Hm o ltac:(left)) as Ho. destruct o; [..|done]; apply IH; intros; apply Hm; by right.
Qed.

Lemma routed_no_call st env c sender ms st' r sender' :
  routed st env c sender ms st' r → contract_calls sender' r = [].
Proof.
  intros Hr. unfold contract_calls. pose proof (routed_events _ _ _ _ _ _ _ Hr) as He.
  induction (events r) as [|e l IH]; [done|]. cbn.
  destruct (He e ltac:(left)) as (m & _ & ->). apply IH. intros; apply He; by right.
Qed.

(** How one executable message may change: it is approved once, by the router, for this chain,
    and executed once. *)
Inductive ex_step (c : Config) (sender : Addr) (id : CrossChainId)
    : option ExecutableMessage → option ExecutableMessage → list (Addr * ExternalMsg) → Prop :=
  | ex_same e x : (∀ p, p ∈ x → ext_cc_id p.2 ≠ id) → ex_step c sender id e e x
  | ex_approve m : sender = router c → cc_id m = id → destination_chain m = chain_name c →
      ex_step c sender id None (Some (Approved m)) []
  | ex_execute m dest payload : keccak256 payload = payload_hash m →
      addr_validate (destination_address m) = Ok dest →
      ex_step c sender id (Some (Approved m)) (Some (Executed m))
        [(dest, mkExternal id (source_address m) payload)].

Lemma routed_ex_step st env c sender ms st' r id :
  routed st env c sender ms st' r →
  ex_step c sender id (EXECUTABLE_MESSAGES st !! id) (EXECUTABLE_MESSAGES st' !! id) [].
Proof.
  intros Hr. destruct (EXECUTABLE_MESSAGES st !! id) as [e|] eqn:He.
  - rewrite (lookup_weaken _ _ _ _ He (routed_kept _ _ _ _ _ _ _ Hr)). apply ex_same. set_solver.
  - destruct (EXECUTABLE_MESSAGES st' !! id) as [e|] eqn:He'; [|apply ex_same; set_solver].
    destruct (routed_new _ _ _ _ _ _ _ Hr id e He') as [?|(Hs & _ & m & _ & -> & ? & ?)];
      [congruence|]. by apply ex_approve.
Qed.

Lemma effect_ex_step st env c sender m st' r id :
  effect st env c sender m st' r →
  ex_step c sender id (EXECUTABLE_MESSAGES st !! id) (EXECUTABLE_MESSAGES st' !! id) (executions r).
Proof.
  intros [msgs ms s r0 _ Hr|data i s1 ms s r0 _ _ -> _ Hr|i payload msg dest Hl Hh Hd|nmsgs msgs _ _].
  - rewrite (routed_no_execution _ _ _ _ _ _ _ Hr). by eapply routed_ex_step.
  - change (executions (add_event _ r0)) with (executions r0).
    rewrite (routed_no_execution _ _ _ _ _ _ _ Hr).
    apply (routed_ex_step _ _ _ _ _ _ _ id) in Hr. exact Hr.
  - change (executions _) with [(dest, mkExternal i (source_address msg) payload)].
    cbn. destruct (decide (i = id)) as [->|Hne].
    + rewrite Hl, lookup_insert_eq. by apply ex_execute.
    + rewrite lookup_insert_ne by done. apply ex_same.
      by intros p ->%list_elem_of_singleton.
  - apply ex_same. unfold executions, route_call. destruct msgs; cbn; set_solver.
Qed.

(** A contract call: made by its source address, from this chain, with this payload. *)
Definition genuine (c : Config) (p : Addr * Message * string) : Prop :=
  let '(sender, m, payload) := p in
  source_address m = sender ∧ source_chain (cc_id m) = chain_name c ∧
  payload_hash m = keccak256 payload.

(** An execution of a message that was approved for this chain. *)
Definition justified (st : State) (c : Config) (p : Addr * ExternalMsg) : Prop :=
  let '(dest, x) := p in
  ∃ m, EXECUTABLE_MESSAGES st !! ext_cc_id x = Some (Executed m) ∧ cc_id m = ext_cc_id x ∧
    source_address m = ext_source_address x ∧ payload_hash m = keccak256 (ext_payload x) ∧
    destination_chain m = chain_name c ∧ addr_validate (destination_address m) = Ok dest.

Definition call_id (p : Addr * Message * string) : CrossChainId := cc_id p.1.2.

Record inv (st : State) (c : Config) (l : Log) : Prop := {
  inv_config : CONFIG st = Some c;
  inv_genuine : Forall (genuine c) (called l);
  inv_called p : p ∈ called l → ROUTABLE_MESSAGES st !! call_id p = Some p.1.2;
  inv_called_once : NoDup (call_id <$> called l);
  inv_routable id m : ROUTABLE_MESSAGES st !! id = Some m →
    cc_id m = id ∧ ∃ payload, (source_address m, m, payload) ∈ called l;
  inv_executable id e : EXECUTABLE_MESSAGES st !! id = Some e →
    cc_id (executable_msg e) = id ∧ destination_chain (executable_msg e) = chain_name c;
  inv_justified : Forall (justified st c) (executed l);
  inv_executed_once : NoDup ((ext_cc_id ∘ snd) <$> executed l)
}.

Lemma unique_id_chain env chain id :
  unique_cross_chain_id env chain = Ok id → source_chain id = chain.
Proof.
  unfold unique_cross_chain_id. intros Hf. ok_inv. destruct v as [h n]. ok_inv.
  unfold CrossChainId_new in Hf. apply bind_Ok in Hf as (ch & Hch%map_err_Ok & Hf).
  apply bind_Ok in Hf as (i & _ & Hf). injection Hf as <-. cbn.
  unfold chain.raw_from_str in Hch. by destruct (negb _); simplify_eq.
Qed.

(** The part of the invariant about contract calls. *)
Lemma effect_calls st env c sender m st' r :
  effect st env c sender m st' r →
  CONFIG st' = CONFIG st ∧
  ((contract_calls sender r = [] ∧ ROUTABLE_MESSAGES st' = ROUTABLE_MESSAGES st) ∨
   ∃ p, contract_calls sender r = [p] ∧ p.1.1 = sender ∧ genuine c p ∧
     ROUTABLE_MESSAGES st !! call_id p = None ∧
     ROUTABLE_MESSAGES st' = <[call_id p := p.1.2]> (ROUTABLE_MESSAGES st)).
Proof.
  intros [msgs ms s r0 _ Hr|data i s1 ms s r0 Hid Hn -> _ Hr|i payload msg dest Hl Hh Hd|nmsgs msgs _ _].
  - split; [by apply (routed_config _ _ _ _ _ _ _ Hr)|left].
    split; [by eapply routed_no_call|by apply (routed_routable _ _ _ _ _ _ _ Hr)].
  - split; [apply (routed_config _ _ _ _ _ _ _ Hr)|right].
    exists (sender, to_message data i sender, c_payload data).
    rewrite (routed_routable _ _ _ _ _ _ _ Hr). split_and!; try done.
    + unfold contract_calls. cbn. rewrite omap_app. cbn.
      pose proof (routed_no_call _ _ _ _ _ _ _ sender Hr) as Hno. unfold contract_calls in Hno.
      by rewrite Hno.
    + by apply unique_id_chain in Hid.
  - split; [done|left]. done.
  - split; [done|left]. by destruct msgs.
Qed.

Lemma ex_step_inv c sender id e e' x :
  ex_step c sender id e e' x →
  (∀ y, e = Some y → cc_id (executable_msg y) = id ∧
     destination_chain (executable_msg y) = chain_name c) →
  (∀ y, e' = Some y → cc_id (executable_msg y) = id ∧
     destination_chain (executable_msg y) = chain_name c) ∧
  (∀ m, e = Some (Executed m) → e' = Some (Executed m) ∧ ∀ p, p ∈ x → ext_cc_id p.2 ≠ id).
Proof.
  intros [e0 x0 Hx|m Hs Hid Hd|m dest payload Hh Hd] Hi; split; try done.
  - by intros y [= <-].
  - intros y [= <-]. by apply (Hi (Approved m)).
Qed.

(** The executions of one call: at most one, of a message approved before. *)
Lemma effect_executions st env c sender m st' r :
  effect st env c sender m st' r →
  executions r = [] ∨
  ∃ id payload msg dest, m = msgs_derive.Direct (Execute id payload) ∧
    executions r = [(dest, mkExternal id (source_address msg) payload)] ∧
    EXECUTABLE_MESSAGES st !! id = Some (Approved msg) ∧
    EXECUTABLE_MESSAGES st' !! id = Some (Executed msg) ∧
    keccak256 payload = payload_hash msg ∧ addr_validate (destination_address msg) = Ok dest.
Proof.
  intros [msgs ms s r0 _ Hr|data i s1 ms s r0 Hid Hn -> _ Hr|i payload msg dest Hl Hh Hd|nmsgs msgs _ _].
  - left. by eapply routed_no_execution.
  - left. change (executions (add_event _ r0)) with (executions r0). by eapply routed_no_execution.
  - right. exists i, payload, msg, dest. split_and!; try done. cbn. by rewrite lookup_insert_eq.
  - left. by destruct msgs.
Qed.

Lemma axelarnet_inv_step st env c sender m st' r l :
  inv st c l → execute st env sender m = Ok (st', r) → inv st' c (record sender r l).
Proof.
  intros Hi Hf. pose proof (axelarnet_execute_effect _ _ _ _ _ _ _ (inv_config _ _ _ Hi) Hf) as He.
  destruct (effect_calls _ _ _ _ _ _ _ He) as [Hc Hcalls].
  assert (∀ id, _) as Hstep by (intros id; exact (ex_step_inv _ _ _ _ _ _
    (effect_ex_step _ _ _ _ _ _ _ id He) (λ y Hy, inv_executable _ _ _ Hi id y Hy))).
  split; cbn.
  - rewrite Hc. apply (inv_config _ _ _ Hi).
  - apply Forall_app. split; [apply (inv_genuine _ _ _ Hi)|].
    destruct Hcalls as [[-> _]|(p & -> & _ & Hg & _)]; auto.
  - intros p Hp. destruct Hcalls as [[Hno ->]|(q & Hq & _ & _ & Hn & ->)].
    + rewrite Hno, app_nil_r in Hp. by apply (inv_called _ _ _ Hi).
    + rewrite Hq in Hp. apply elem_of_app in Hp as [Hp| ->%list_elem_of_singleton].
      * pose proof (inv_called _ _ _ Hi p Hp) as Hl. rewrite lookup_insert_ne; [done|]. congruence.
      * apply lookup_insert_eq.
  - destruct Hcalls as [[-> _]|(q & -> & _ & _ & Hn & _)].
    + rewrite app_nil_r. apply (inv_called_once _ _ _ Hi).
    + rewrite fmap_app. apply NoDup_app. split; [apply (inv_called_once _ _ _ Hi)|].
      split; [|apply NoDup_singleton]. intros id Hid%list_elem_of_fmap ->%list_elem_of_singleton.
      destruct Hid as (p & Hpq & Hp). pose proof (inv_called _ _ _ Hi p Hp). congruence.
  - intros id m0. destruct Hcalls as [[-> ->]|(q & -> & Hs & Hg & Hn & ->)].
    + rewrite app_nil_r. apply (inv_routable _ _ _ Hi).
    + rewrite lookup_insert_Some. intros [[<- <-]|[_ Hl]].
      * split; [done|]. destruct q as [[s0 m0] payload]. destruct Hg as (<- & _). exists payload. set_solver.
      * destruct (inv_routable _ _ _ Hi id m0 Hl) as (? & payload & ?). split; [done|].
        exists payload. set_solver.
  - intros id e He'. by apply (Hstep id).
  - apply Forall_app. split.
    + pose proof (inv_justified _ _ _ Hi) as Hj. rewrite Forall_forall in Hj |- *.
      intros [d x] Hx. destruct (Hj _ Hx) as (m0 & Hl & Hrest). exists m0. split; [|done].
      by apply (Hstep (ext_cc_id x)).
    + destruct (effect_executions _ _ _ _ _ _ _ He) as [->|(id & p & m0 & d & _ & -> & Hl & Hl' & Hh & Hd)];
        [done|]. apply Forall_singleton. exists m0. cbn.
      destruct (inv_executable _ _ _ Hi id _ Hl) as [? ?]. by split_and!.
  - rewrite fmap_app. apply NoDup_app. split; [apply (inv_executed_once _ _ _ Hi)|].
    destruct (effect_executions _ _ _ _ _ _ _ He) as [->|(id & p & m0 & d & _ & -> & Hl & Hl' & Hh & Hd)];
      [split; [set_solver|constructor]|]. split; [|apply NoDup_singleton].
    intros i Hin%list_elem_of_fmap ->%list_elem_of_singleton. destruct Hin as ([d' x] & Hx & Hin).
    pose proof (inv_justified _ _ _ Hi) as Hj. rewrite Forall_forall in Hj.
    destruct (Hj _ Hin) as (m1 & Hl1 & _). cbn in Hx. subst id. cbn in Hl. congruence.
Qed.

Lemma axelarnet_run_inv st l : run st l → ∃ c, inv st c l.
Proof.
  induction 1 as [msg st r Hf|st env sender m st' r l _ [c IH] Hf].
  - unfold instantiate in Hf. apply bind_Ok in Hf as (a & _ & Hf).
    apply bind_Ok in Hf as (b & _ & Hf). injection Hf as <- <-. eexists.
    split; cbn; try done; try constructor; try set_solver; by rewrite lookup_empty in *.
  - exists c. by eapply axelarnet_inv_step.
Qed.

Lemma axelarnet_step_later st st' id m c l :
  inv st c l → rtc step st st' →
  (∃ l', inv st' c l') ∧
  (EXECUTABLE_MESSAGES st !! id = Some (Executed m) →
   EXECUTABLE_MESSAGES st' !! id = Some (Executed m)) ∧
  (EXECUTABLE_MESSAGES st !! id = Some (Approved m) →
   EXECUTABLE_MESSAGES st' !! id = Some (Approved m) ∨
   EXECUTABLE_MESSAGES st' !! id = Some (Executed m)).
Proof.
  intros Hi Hs. revert l Hi.
  induction Hs as [st|st st1 st' (env & sender & msg & r & Hf) _ IH]; intros l Hi;
    [split; [by exists l|tauto]|].
  destruct (IH _ (axelarnet_inv_step _ _ _ _ _ _ _ _ Hi Hf)) as (Hl & He & Ha).
  split; [done|]. clear IH.
  pose proof (effect_ex_step _ _ _ _ _ _ _ id
    (axelarnet_execute_effect _ _ _ _ _ _ _ (inv_config _ _ _ Hi) Hf)) as Hx.
  inversion Hx as [e x Hne E1 E2|m0 Hs Hid Hd E1 E2|m0 d p Hh Hd E1 E2 E3].
  - rewrite E2. tauto.
  - split; intros Hl'; congruence.
  - split; intros Hl'; [congruence|]. right. apply He. congruence.
Qed.

Lemma execute_refused st env sender id payload m :
  EXECUTABLE_MESSAGES st !! id = Some (Executed m) →
  execute st env sender (msgs_derive.Direct (Execute id payload)) = Err (Contract (MarkExecuted id)).
Proof.
  intros Hl. change (map_err Contract (execute_message st id payload) =
    Err (Contract (MarkExecuted id))).
  unfold execute_message, mark_as_executed, may_load_executable_msg. by rewrite Hl.
Qed.

Lemma execute_accepted st env sender id payload m dest :
  EXECUTABLE_MESSAGES st !! id = Some (Approved m) → keccak256 payload = payload_hash m →
  addr_validate (destination_address m) = Ok dest →
  ∃ r, execute st env sender (msgs_derive.Direct (Execute id payload)) =
         Ok (set_executable st (<[id := Executed m]> (EXECUTABLE_MESSAGES st)), r) ∧
       messages r = [ExecuteAt dest (mkExternal id (source_address m) payload)].
Proof.
  intros Hl Hh Hd. eexists. split.
  - change (execute st env sender _) with (map_err Contract (execute_message st id payload)).
    unfold execute_message, mark_as_executed, may_load_executable_msg, ensure_same_payload_hash.
    rewrite Hl. cbn. rewrite bool_decide_eq_true_2 by done. cbn. rewrite Hd. cbn. reflexivity.
  - reflexivity.
Qed.

(** C9: In every run of the Axelarnet gateway no message is executed twice, and every execution
    sent to a contract is of a message approved for this chain: the contract is the message's
    destination address, and it is given the source address of the message and a payload whose
    Keccak hash is the payload hash of the message. *)
Theorem executed_at_most_once st l :
  run st l →
  NoDup ((ext_cc_id ∘ snd) <$> executed l) ∧
  ∃ c, CONFIG st = Some c ∧ Forall (justified st c) (executed l).
Proof.
  intros [c Hi]%axelarnet_run_inv. split; [apply (inv_executed_once _ _ _ Hi)|].
  exists c. split; [apply (inv_config _ _ _ Hi)|apply (inv_justified _ _ _ Hi)].
Qed.

(** A message approved in a reachable state of the Axelarnet gateway stays executable until it
    is executed, whatever calls are made in between: in every later state either it is still
    approved, and then anyone who gives a payload with its payload hash has it executed at its
    destination (when that address is valid), or it has been executed, and then every further
    request to execute it is refused. *)
Theorem approved_message_executable st l id m st' :
  run st l → EXECUTABLE_MESSAGES st !! id = Some (Approved m) → rtc step st st' →
  (EXECUTABLE_MESSAGES st' !! id = Some (Approved m) ∧
   ∀ env sender payload dest, keccak256 payload = payload_hash m →
     addr_validate (destination_address m) = Ok dest →
     ∃ st'' r, execute st' env sender (msgs_derive.Direct (Execute id payload)) = Ok (st'', r) ∧
       messages r = [ExecuteAt dest (mkExternal id (source_address m) payload)] ∧
       EXECUTABLE_MESSAGES st'' = <[id := Executed m]> (EXECUTABLE_MESSAGES st')) ∨
  (EXECUTABLE_MESSAGES st' !! id = Some (Executed m) ∧
   ∀ env sender payload,
     execute st' env sender (msgs_derive.Direct (Execute id payload)) =
     Err (Contract (MarkExecuted id))).
Proof.
  intros [c Hi]%axelarnet_run_inv Hl Hs.
  destruct (axelarnet_step_later _ _ id m _ _ Hi Hs) as (_ & _ & Ha).
  destruct (Ha Hl) as [Hl'|Hl']; [left|right]; (split; [done|]).
  - intros env sender payload dest Hh Hd.
    destruct (execute_accepted st' env sender id payload m dest Hl' Hh Hd) as (r & Hf & Hr).
    by eexists _, r.
  - intros env sender payload. by eapply execute_refused.
Qed.

(** What is sent when someone routes messages: stored messages, unless it is the router. *)
Lemma routed_stored st env c sender msgs ms st' r out :
  routable st (router c) sender msgs = Ok ms → routed st env c sender ms st' r →
  out ∈ messages r →
  match out with
  | RouteMessagesAt a l => a = router c ∧ sender ≠ router c ∧
      ∀ m, m ∈ l → ROUTABLE_MESSAGES st' !! cc_id m = Some m
  | RouteToNexus n => sender = router c ∨ ∃ m, n = nexus.from_router m ∧
      ROUTABLE_MESSAGES st' !! cc_id m = Some m
  | ExecuteAt _ _ => True
  end.
Proof.
  intros Hms Hr Hin. pose proof (routed_messages _ _ _ _ _ _ _ Hr _ Hin) as Ho.
  rewrite (routed_routable _ _ _ _ _ _ _ Hr). destruct out as [a k|n|]; [..|done].
  - destruct Ho as (Ha & Hs & Hk). split_and!; try done.
    intros m0 Hm0. by eapply routable_stored, Hk.
  - destruct Ho as (m0 & Hm0 & -> & _). destruct (decide (sender = router c)); [by left|right].
    exists m0. split; [done|]. by eapply routable_stored.
Qed.

(** C33: The Axelarnet gateway hands the router authentic messages only. In every run, a message
    sent to the router comes from the core's nexus module, or is one that its source address sent
    from this chain by calling [CallContract] with a payload of that hash, under an identifier no
    other call has; messages sent to nexus by someone other than the router are authentic in the
    same way. *)
Theorem routed_messages_authentic st l env sender m st' r out :
  run st l → execute st env sender m = Ok (st', r) → out ∈ messages r →
  ∃ c, CONFIG st = Some c ∧ NoDup (call_id <$> called (record sender r l)) ∧
  match out with
  | RouteMessagesAt a msgs => a = router c ∧
      (sender = nexus_addr c ∧ (∃ nmsgs, m = msgs_derive.Direct (RouteMessagesFromNexus nmsgs)) ∨
       sender ≠ router c ∧ ∀ msg, msg ∈ msgs → ∃ payload,
         genuine c (source_address msg, msg, payload) ∧
         (source_address msg, msg, payload) ∈ called (record sender r l))
  | RouteToNexus n => sender = router c ∨ ∃ msg payload, n = nexus.from_router msg ∧
         genuine c (source_address msg, msg, payload) ∧
         (source_address msg, msg, payload) ∈ called (record sender r l)
  | ExecuteAt _ _ => True
  end.
Proof.
  intros [c Hi]%axelarnet_run_inv Hf Hout. exists c. split; [apply (inv_config _ _ _ Hi)|].
  pose proof (axelarnet_inv_step _ _ _ _ _ _ _ _ Hi Hf) as Hi'.
  split; [apply (inv_called_once _ _ _ Hi')|].
  assert (∀ msg, ROUTABLE_MESSAGES st' !! cc_id msg = Some msg → ∃ payload,
    genuine c (source_address msg, msg, payload) ∧
    (source_address msg, msg, payload) ∈ called (record sender r l)) as Hstored.
  { intros msg Hl. destruct (inv_routable _ _ _ Hi' _ _ Hl) as (_ & payload & Hin).
    exists payload. split; [|done]. pose proof (inv_genuine _ _ _ Hi') as Hg.
    rewrite Forall_forall in Hg. exact (Hg _ Hin). }
  pose proof (axelarnet_execute_effect _ _ _ _ _ _ _ (inv_config _ _ _ Hi) Hf) as He.
  destruct He as [msgs ms s r0 Hms Hr|data i s1 ms s r0 Hid Hn Hs1 Hms Hr|i payload msg dest Hl Hh Hd
    |nmsgs msgs Hs Hm].
  1,2: pose proof (routed_stored _ _ _ _ _ _ _ _ _ Hms Hr Hout) as Hrouted; destruct out as [a k|n|]; [..|done];
    [destruct Hrouted as (? & ? & Hk); split; [done|right; split; [done|]]; auto
    |destruct Hrouted as [?|(m0 & -> & Hm0)]; [by left|right];
     destruct (Hstored _ Hm0) as (payload & ?); by exists m0, payload].
  - apply list_elem_of_singleton in Hout as ->. done.
  - cbn in Hout. unfold route_call in Hout. destruct msgs; [by apply not_elem_of_nil in Hout|].
    apply list_elem_of_singleton in Hout as ->. split; [done|left]. eauto.
Qed.

End contract.
End axelarnet_gateway.

(** ** A run: a call out, an approval by the router and an execution *)
Module axelarnet_run.
Import router_api axelarnet_gateway.

Definition run_api : Api := {| addr_validate := λ s, Ok s |}.
Definition run_crypto : Crypto :=
  Build_Crypto (λ s, s) (λ _ _ _, Some true) (λ _ _ _, Some true) Some Some.
#[local] Existing Instances run_api run_crypto codecs.hex_codec.

Definition run_hash : Hash := replicate 32 (Ascii.ascii_of_nat 7).
Definition run_env : Env :=
  mkEnv (Some (run_hash, 5)) (λ chain, Some (bool_decide (chain = "cosmoshub"))).
Definition run_in : Message :=
  mkMessage (mkCcId "eth" "tx-1") "0xsrc" "axelarnet" "axelar1dst" "payload".
Definition run_call : CallContractData := mkCall "eth" "0xdst" "hello".

Definition run_state : State * Log → ExecuteMsg → Addr → State * Log := λ '(st, l) m sender,
  match execute st run_env sender (msgs_derive.Direct m) with
  | Ok (st', r) => (st', record sender r l)
  | _ => (st, l)
  end.

Definition run0 : State * Log :=
  (mkState (Some (mkConfig "axelarnet" "router" "nexus")) ∅ ∅, mkLog [] []).
Definition run1 := run_state run0 (CallContract run_call) "axelar1user".
Definition run2 := run_state run1 (RouteMessages [run_in]) "router".
Definition run3 := run_state run2 (Execute (mkCcId "eth" "tx-1") "payload") "anyone".

Lemma axelarnet_run_state p m sender :
  run p.1 p.2 → run (run_state p m sender).1 (run_state p m sender).2.
Proof.
  destruct p as [st l]. intros Hr. unfold run_state.
  destruct (execute st run_env sender (msgs_derive.Direct m)) as [[st' r]| |] eqn:Hf; [|done..].
  exact (run_step st run_env sender _ st' r l Hr Hf).
Qed.

Lemma axelarnet_run0 : run run0.1 run0.2.
Proof. apply (run_init (mkInstantiate "axelarnet" "router" "nexus") _ Response_new). reflexivity. Qed.
Lemma axelarnet_run2 : run run2.1 run2.2.
Proof. do 2 apply axelarnet_run_state. exact axelarnet_run0. Qed.
Lemma axelarnet_run3 : run run3.1 run3.2.
Proof. apply axelarnet_run_state. exact axelarnet_run2. Qed.

(** One execution has been sent. *)
Lemma executed_at_most_once_witness :
  executed run3.2 = [("axelar1dst", mkExternal (mkCcId "eth" "tx-1") "0xsrc" "payload")] ∧
  NoDup ((ext_cc_id ∘ snd) <$> executed run3.2).
Proof.
  split; [vm_compute; reflexivity|].
  exact (proj1 (executed_at_most_once _ _ axelarnet_run3)).
Defined.

Lemma approved_message_executable_witness :
  EXECUTABLE_MESSAGES run2.1 !! mkCcId "eth" "tx-1" = Some (Approved run_in) ∧
  ∃ st'' r, execute run2.1 run_env "anyone"
      (msgs_derive.Direct (Execute (mkCcId "eth" "tx-1") "payload")) = Ok (st'', r) ∧
    messages r = [ExecuteAt "axelar1dst" (mkExternal (mkCcId "eth" "tx-1") "0xsrc" "payload")].
Proof.
  assert (EXECUTABLE_MESSAGES run2.1 !! mkCcId "eth" "tx-1" = Some (Approved run_in)) as Hl
    by (vm_compute; reflexivity).
  split; [exact Hl|].
  destruct (approved_message_executable _ _ _ _ _ axelarnet_run2 Hl (rtc_refl _ _))
    as [[_ Hex]|[Hbad _]].
  - destruct (Hex run_env "anyone" "payload" "axelar1dst" eq_refl eq_refl) as (st & r & Hf & Hr & _).
    exists st, r. exact (conj Hf Hr).
  - exfalso. rewrite Hl in Hbad. inversion Hbad.
Defined.

Definition run_response : AResponse :=
  match execute run0.1 run_env "axelar1user" (msgs_derive.Direct (CallContract run_call)) with
  | Ok (_, r) => r
  | _ => Response_new
  end.
Definition run_out : Message := to_message run_call (mkCcId "axelarnet"
  (String.string_of_list_ascii (msg_id.hex_index_to_string (msg_id.mkHexIndex run_hash 5))))
  "axelar1user".

Lemma axelarnet_run1_Ok :
  execute run0.1 run_env "axelar1user" (msgs_derive.Direct (CallContract run_call)) =
  Ok (run1.1, run_response).
Proof. vm_cast_no_check (@eq_refl (result ExecuteError (State * AResponse)) (Ok (run1.1, run_response))). Qed.

Lemma axelarnet_run1_out : RouteMessagesAt "router" [run_out] ∈ messages run_response.
Proof.
  assert (messages run_response = [RouteMessagesAt "router" [run_out]]) as ->
    by (vm_compute; reflexivity). left.
Qed.

(** The message of the contract call goes to the router, on behalf of its caller. *)
Lemma routed_messages_authentic_witness :
  ∃ payload, genuine (mkConfig "axelarnet" "router" "nexus") ("axelar1user", run_out, payload).
Proof.
  destruct (routed_messages_authentic _ _ _ _ _ _ _ _ axelarnet_run0 axelarnet_run1_Ok
    axelarnet_run1_out) as (c & Hc & _ & _ & Hg).
  injection Hc as <-. destruct Hg as [[Hs _]|[_ Hg]]; [inversion Hs|].
  destruct (Hg _ ltac:(left)) as (payload & Hgen & _). exists payload. exact Hgen.
Defined.

Lemma nexus_message_roundtrip_witness :
  nexus.try_into_router (nexus.from_router run_in) = Ok run_in.
Proof. apply (nexus.nexus_message_roundtrip run_in). discriminate. Defined.

End axelarnet_run.
