(* ===== verification/Its.v ===== *)
(** * The interchain token service hub

    [packages/interchain-token-service-std/src/primitives.rs]: the messages of the service;
    [contracts/interchain-token-service/src]: widths ([shared.rs]), storage ([state.rs]), the
    checks and changes made to each message ([contract/execute/interceptors.rs]), translation of
    payloads ([contract/execute/msg_translation.rs]), the handlers ([contract/execute/mod.rs]), the
    queries ([contract/query.rs]) and the entry points ([contract.rs], [msg.rs]).

    The answers of the translation contracts and of the Axelarnet gateway are arguments of the
    environment. Identifiers of tokens and addresses of tokens are strings of bytes. *)

From S2P Require Import Prelude Std MsgId RouterApi Multisig Router AxelarnetGateway.

(** ** Messages of the service ([primitives.rs]) *)
Module its_std.

Definition TokenId := string.

Record InterchainTransfer := mkTransfer {
  t_token_id : TokenId;
  t_source_address : string;
  t_destination_address : string;
  t_amount : Z;
  t_data : option string
}.

Record DeployInterchainToken := mkDeploy {
  d_token_id : TokenId;
  d_name : string;
  d_symbol : string;
  d_decimals : Z;
  d_minter : option string
}.

Record RegisterTokenMetadata := mkMetadata { r_decimals : Z; r_token_address : string }.

Record LinkToken := mkLink {
  l_token_id : TokenId;
  l_token_manager_type : Z;
  l_source_token_address : string;
  l_destination_token_address : string;
  l_params : option string
}.

Inductive Message :=
  | MInterchainTransfer (transfer : InterchainTransfer)
  | MDeployInterchainToken (deploy : DeployInterchainToken)
  | MLinkToken (link : LinkToken).

Inductive HubMessage :=
  | SendToHub (destination_chain : string) (message : Message)
  | ReceiveFromHub (source_chain : string) (message : Message)
  | HRegisterTokenMetadata (metadata : RegisterTokenMetadata).

Definition message_token_id (m : Message) : TokenId :=
  match m with
  | MInterchainTransfer t => t_token_id t
  | MDeployInterchainToken d => d_token_id d
  | MLinkToken l => l_token_id l
  end.

Definition hub_message {E} (m : HubMessage) : result E Message :=
  match m with
  | SendToHub _ m | ReceiveFromHub _ m => Ok m
  | HRegisterTokenMetadata _ => Panic
  end.

Definition hub_token_id {E} (m : HubMessage) : result E TokenId :=
  message_token_id <$> hub_message m.

(** The values of the types: the ranges of the integers, no empty text. *)
Definition u8 (n : Z) : Prop := 0 ≤ n ≤ 255.
Definition nonempty_u256 (n : Z) : Prop := 0 < n ≤ u256_max.
Definition filled (s : string) : Prop := s ≠ EmptyString.
Definition opt_filled (o : option string) : Prop := match o with Some s => filled s | None => True end.

Definition token_id_wf (t : TokenId) : Prop := String.length t = 32%nat.

Definition message_wf (m : Message) : Prop :=
  match m with
  | MInterchainTransfer t => token_id_wf (t_token_id t) ∧ filled (t_source_address t) ∧
      filled (t_destination_address t) ∧ nonempty_u256 (t_amount t) ∧ opt_filled (t_data t)
  | MDeployInterchainToken d => token_id_wf (d_token_id d) ∧ filled (d_name d) ∧
      filled (d_symbol d) ∧ u8 (d_decimals d) ∧ opt_filled (d_minter d)
  | MLinkToken l => token_id_wf (l_token_id l) ∧ 0 ≤ l_token_manager_type l ≤ u256_max ∧
      filled (l_source_token_address l) ∧ filled (l_destination_token_address l) ∧
      opt_filled (l_params l)
  end.

Definition hub_message_wf (m : HubMessage) : Prop :=
  match m with
  | SendToHub c m | ReceiveFromHub c m => chain.is_raw_chain_name c = true ∧ message_wf m
  | HRegisterTokenMetadata r => u8 (r_decimals r) ∧ filled (r_token_address r)
  end.

End its_std.

(** ** The contract *)
Module its.
Import its_std.

(** *** Widths ([shared.rs]) *)

(** [NumBits] holds the number of bits less one, in 8 bits. *)
Definition NumBits := Z.
Inductive SharedError := InvalidNumberOfBits (n : Z).

Definition num_bits_try_from (value : Z) : result SharedError NumBits :=
  if bool_decide (1 ≤ value ≤ 256) then Ok (value - 1) else Err (InvalidNumberOfBits value).

Definition num_bits_into (bits : NumBits) : Z := bits + 1.

(** *** Storage ([state.rs]) *)

Inductive StateError :=
  | ItsContractNotFound (chain : string)
  | ChainNotFound (chain : string)
  | InvalidTranslationContractAddress (a : string).

Record Config := mkConfig { axelarnet_gateway : Addr; operator : Addr }.

Record TruncationConfig := mkTruncation {
  max_uint_bits : NumBits;
  max_decimals_when_truncating : Z
}.

Record ChainConfig := mkChainConfig {
  truncation : TruncationConfig;
  its_address : string;
  frozen : bool;
  msg_translator : Addr
}.

Inductive TokenSupply :=
  | Tracked (amount : Z)
  | Untracked.
#[global] Instance TokenSupply_eq_dec : EqDecision TokenSupply.
Proof. solve_decision. Defined.

Record TokenInstance := mkInstance { supply : TokenSupply; decimals : Z }.

Inductive TokenDeploymentType := Trustless | CustomMinter.

Record TokenConfig := mkTokenConfig { origin_chain : string }.

Record CustomTokenMetadata := mkCustom {
  m_chain : string;
  m_decimals : Z;
  m_token_address : string
}.

Record State := mkState {
  perm : permission_control.Storage;
  switch : option killswitch.State;
  CONFIG : option Config;
  CHAIN_CONFIGS : gmap string ChainConfig;
  TOKEN_INSTANCE : gmap (string * TokenId) TokenInstance;
  TOKEN_CONFIGS : gmap TokenId TokenConfig;
  CUSTOM_TOKEN_METADATA : gmap (string * string) CustomTokenMetadata
}.

Definition set_switch (st : State) s : State :=
  mkState (perm st) s (CONFIG st) (CHAIN_CONFIGS st) (TOKEN_INSTANCE st) (TOKEN_CONFIGS st)
    (CUSTOM_TOKEN_METADATA st).
Definition set_chains (st : State) m : State :=
  mkState (perm st) (switch st) (CONFIG st) m (TOKEN_INSTANCE st) (TOKEN_CONFIGS st)
    (CUSTOM_TOKEN_METADATA st).
Definition set_instances (st : State) m : State :=
  mkState (perm st) (switch st) (CONFIG st) (CHAIN_CONFIGS st) m (TOKEN_CONFIGS st)
    (CUSTOM_TOKEN_METADATA st).
Definition set_tokens (st : State) m : State :=
  mkState (perm st) (switch st) (CONFIG st) (CHAIN_CONFIGS st) (TOKEN_INSTANCE st) m
    (CUSTOM_TOKEN_METADATA st).
Definition set_custom (st : State) m : State :=
  mkState (perm st) (switch st) (CONFIG st) (CHAIN_CONFIGS st) (TOKEN_INSTANCE st)
    (TOKEN_CONFIGS st) m.

(** [TokenSupply::checked_add] and [TokenSupply::checked_sub]; [None] is an overflow. *)
Definition supply_checked_add (s : TokenSupply) (amount : Z) : option TokenSupply :=
  match s with
  | Untracked => Some Untracked
  | Tracked supply => Tracked <$> checked_add u256_max supply amount
  end.

Definition supply_checked_sub (s : TokenSupply) (amount : Z) : option TokenSupply :=
  match s with
  | Untracked => Some Untracked
  | Tracked supply => Tracked <$> checked_sub supply amount
  end.

Definition new_on_origin (decimals : Z) : TokenInstance := mkInstance Untracked decimals.

Definition new_instance (deployment_type : TokenDeploymentType) (decimals : Z) : TokenInstance :=
  mkInstance match deployment_type with Trustless => Tracked 0 | CustomMinter => Untracked end
    decimals.

Definition load_config {E} (st : State) : result E Config := expect (CONFIG st).

Definition may_load_chain_config (st : State) (chain : string) : option ChainConfig :=
  CHAIN_CONFIGS st !! chain.

Definition load_chain_config (st : State) (chain : string) : result StateError ChainConfig :=
  ok_or (ChainNotFound chain) (may_load_chain_config st chain).

Definition save_chain_config (st : State) (chain : string) (config : ChainConfig) : State :=
  set_chains st (<[chain := config]> (CHAIN_CONFIGS st)).

Definition may_load_its_contract (st : State) (chain : string) : option string :=
  its_address <$> CHAIN_CONFIGS st !! chain.

Definition load_its_contract (st : State) (chain : string) : result StateError string :=
  ok_or (ItsContractNotFound chain) (may_load_its_contract st chain).

Definition is_chain_frozen (st : State) (chain : string) : result StateError bool :=
  frozen <$> ok_or (ChainNotFound chain) (CHAIN_CONFIGS st !! chain).

Definition set_frozen (b : bool) (x : ChainConfig) : ChainConfig :=
  mkChainConfig (truncation x) (its_address x) b (msg_translator x).

Definition state_freeze_chain (st : State) (chain : string) : result StateError State :=
  x ← ok_or (ChainNotFound chain) (CHAIN_CONFIGS st !! chain);
  Ok (save_chain_config st chain (set_frozen true x)).

Definition state_unfreeze_chain (st : State) (chain : string) : result StateError State :=
  x ← ok_or (ChainNotFound chain) (CHAIN_CONFIGS st !! chain);
  Ok (save_chain_config st chain (set_frozen false x)).

Definition save_token_instance (st : State) (chain : string) (token_id : TokenId)
    (token_instance : TokenInstance) : State :=
  set_instances st (<[(chain, token_id) := token_instance]> (TOKEN_INSTANCE st)).

Definition may_load_token_instance (st : State) (chain : string) (token_id : TokenId)
    : option TokenInstance := TOKEN_INSTANCE st !! (chain, token_id).

Definition may_load_token_config (st : State) (token_id : TokenId) : option TokenConfig :=
  TOKEN_CONFIGS st !! token_id.

Definition save_token_config (st : State) (token_id : TokenId) (token_config : TokenConfig)
    : State := set_tokens st (<[token_id := token_config]> (TOKEN_CONFIGS st)).

Definition save_custom_token_metadata (st : State) (chain : string) (m : RegisterTokenMetadata)
    : State :=
  set_custom st (<[(chain, r_token_address m) :=
    mkCustom chain (r_decimals m) (r_token_address m)]> (CUSTOM_TOKEN_METADATA st)).

Definition may_load_custom_token (st : State) (source_chain token_address : string)
    : option CustomTokenMetadata := CUSTOM_TOKEN_METADATA st !! (source_chain, token_address).

(** [load_chain_configs]: the filter comes before the limit. *)
Definition after (start_after : option string) (p : string * ChainConfig) : Prop :=
  match start_after with
  | Some key => ¬ String.le p.1 key
  | None => True
  end.
#[global] Instance its_after_dec start_after p : Decision (after start_after p).
Proof. unfold after. destruct start_after; apply _. Defined.

Definition load_chain_configs (st : State) (keep : ChainConfig → bool) (start_after : option string)
    (limit : nat) : list (string * ChainConfig) :=
  take limit (filter (λ p, keep p.2 = true)
    (filter (after start_after) (entries (CHAIN_CONFIGS st)))).

Definition load_all_its_contracts (st : State) : gmap string string :=
  its_address <$> CHAIN_CONFIGS st.

(** *** Errors, events and messages *)

Inductive Error :=
  | UnknownItsContract (a : string)
  | InvalidPayload
  | InvalidMessageType
  | ExecutionDisabledErr
  | ChainFrozen (chain : string)
  | InvalidTransferAmount (source_chain destination_chain : string) (amount : Z)
  | StateErr
  | ChainAlreadyRegistered (chain : string)
  | ChainNotRegistered (chain : string)
  | TokenNotDeployed (token_id : TokenId) (chain : string)
  | TokenAlreadyDeployed (token_id : TokenId) (chain : string)
  | TokenDeployedFromNonOriginChain (token_id : TokenId) (origin_chain chain : string)
  | WrongOriginChain (token_id : TokenId) (origin_chain : string)
  | TokenDeployedDecimalsMismatch (token_id : TokenId) (chain : string) (expected actual : Z)
  | TokenSupplyInvariantViolated (token_id : TokenId) (chain : string)
  | TokenNotRegistered (a : string)
  | TokenDecimalsMismatch (token_address : string) (existing_decimals new_decimals : Z)
  | FailedToQueryAxelarnetGateway (a : Addr)
  | ModifySupplyOverflow (s : TokenSupply)
  | TranslationFailed.

Inductive SupplyModifier := IncreaseSupply (amount : Z) | DecreaseSupply (amount : Z).

Inductive Event :=
  | MessageReceived (cc_id : router_api.CrossChainId) (destination_chain : string)
      (message : Message)
  | TokenMetadataRegistered (source_chain token_address : string) (decimals : Z)
  | ExecutionDisabled
  | ExecutionEnabled
  | SupplyModified (token_id : TokenId) (chain : string) (supply_modifier : SupplyModifier)
  | InterchainTransferEvent (token_id : TokenId) (source_address destination_chain
      destination_address : string) (amount : Z) (data_hash : option string)
  | LinkTokenStarted (token_id : TokenId) (destination_chain : string) (token_manager_type : Z)
      (source_token_address destination_token_address : string) (params : option string)
  | InterchainTokenDeploymentStarted (token_id : TokenId) (token_name token_symbol : string)
      (token_decimals : Z) (minter : option string) (destination_chain : string).

(** A call of [CallContract] at the Axelarnet gateway. *)
Inductive OutMsg := CallContractAt (gateway : Addr) (data : axelarnet_gateway.CallContractData).

Notation IResponse := (Response OutMsg Event).

(** What the translation contracts answer, by address, and the name of this chain as the
    Axelarnet gateway tells it; [None] is a failed query. *)
Record Env := mkEnv {
  from_bytes : Addr → string → option HubMessage;
  to_bytes : Addr → HubMessage → option string;
  axelar_chain : option string
}.

(** *** Checks and changes ([contract/execute/interceptors.rs]) *)

Definition state_err {A} (r : result StateError A) : result Error A := map_err (λ _, StateErr) r.

Definition try_load_token_instance (st : State) (chain : string) (token_id : TokenId)
    : result Error TokenInstance :=
  ok_or (TokenNotDeployed token_id chain) (may_load_token_instance st chain token_id).

Definition subtract_supply_amount (st : State) (chain : string) (transfer : InterchainTransfer)
    : result Error State :=
  token ← try_load_token_instance st chain (t_token_id transfer);
  supply ← ok_or (TokenSupplyInvariantViolated (t_token_id transfer) chain)
             (supply_checked_sub (supply token) (t_amount transfer));
  Ok (save_token_instance st chain (t_token_id transfer) (mkInstance supply (decimals token))).

Definition add_supply_amount (st : State) (chain : string) (transfer : InterchainTransfer)
    : result Error State :=
  token ← try_load_token_instance st chain (t_token_id transfer);
  supply ← ok_or (TokenSupplyInvariantViolated (t_token_id transfer) chain)
             (supply_checked_add (supply token) (t_amount transfer));
  Ok (save_token_instance st chain (t_token_id transfer) (mkInstance supply (decimals token))).

(** [Uint256::checked_pow] and [Uint256::checked_shr]; [None] is an overflow. *)
Definition checked_pow (b e : Z) : option Z :=
  if bool_decide (b ^ e ≤ u256_max) then Some (b ^ e) else None.
Definition checked_shr (a n : Z) : option Z :=
  if bool_decide (n < 256) then Some (Z.shiftr a n) else None.

Definition amount_overflows (amount : Z) (target_chain_max_bits : NumBits) : bool :=
  match checked_shr amount (num_bits_into target_chain_max_bits) with
  | Some res => bool_decide (0 < res)
  | None => false
  end.

Definition destination_amount (st : State) (source_chain destination_chain : string)
    (token_id : TokenId) (source_amount : Z) : result Error Z :=
  source_token ← try_load_token_instance st source_chain token_id;
  destination_token ← try_load_token_instance st destination_chain token_id;
  let source_decimals := decimals source_token in
  let destination_decimals := decimals destination_token in
  let invalid := InvalidTransferAmount source_chain destination_chain source_amount in
  if bool_decide (source_decimals = destination_decimals) then Ok source_amount
  else
    destination_chain_config ← state_err (load_chain_config st destination_chain);
    let destination_max_uint_bits := max_uint_bits (truncation destination_chain_config) in
    scaling_factor ← ok_or invalid (checked_pow 10 (Z.abs (source_decimals - destination_decimals)));
    destination_amount ←
      (if bool_decide (destination_decimals < source_decimals)
       then expect (checked_div source_amount scaling_factor)
       else ok_or invalid (checked_mul u256_max source_amount scaling_factor));
    if amount_overflows destination_amount destination_max_uint_bits then Err invalid
    else if bool_decide (destination_amount = 0) then Err invalid else Ok destination_amount.

Definition apply_scaling_factor_to_amount (st : State) (source_chain destination_chain : string)
    (transfer : InterchainTransfer) : result Error InterchainTransfer :=
  amount ← destination_amount st source_chain destination_chain (t_token_id transfer)
             (t_amount transfer);
  Ok (mkTransfer (t_token_id transfer) (t_source_address transfer)
        (t_destination_address transfer) amount (t_data transfer)).

Definition ensure_matching_original_deployment (st : State) (origin_chain chain : string)
    (token_id : TokenId) (decimals' : Z) : result Error unit :=
  _ ← ensure (bool_decide (origin_chain = chain))
        (TokenDeployedFromNonOriginChain token_id origin_chain chain);
  token_instance ← ok_or (TokenNotDeployed token_id origin_chain)
                     (may_load_token_instance st origin_chain token_id);
  ensure (bool_decide (decimals token_instance = decimals'))
    (TokenDeployedDecimalsMismatch token_id chain (decimals token_instance) decimals').

Definition deploy_token_to_source_chain (st : State) (chain : string) (token_id : TokenId)
    (decimals : Z) : result Error State :=
  match may_load_token_config st token_id with
  | Some config =>
      _ ← ensure_matching_original_deployment st (origin_chain config) chain token_id decimals;
      Ok st
  | None =>
      let st := save_token_config st token_id (mkTokenConfig chain) in
      Ok (save_token_instance st chain token_id (new_on_origin decimals))
  end.

Definition deploy_token_to_destination_chain (st : State) (chain : string) (token_id : TokenId)
    (decimals : Z) (deployment_type : TokenDeploymentType) : result Error State :=
  _ ← ensure (negb (bool_decide (is_Some (may_load_token_instance st chain token_id))))
        (TokenAlreadyDeployed token_id chain);
  Ok (save_token_instance st chain token_id (new_instance deployment_type decimals)).

Definition destination_token_decimals (st : State) (source_chain destination_chain : string)
    (source_token_decimals : Z) : result Error Z :=
  source_chain_config ← state_err (load_chain_config st source_chain);
  destination_chain_config ← state_err (load_chain_config st destination_chain);
  Ok (if bool_decide (max_uint_bits (truncation source_chain_config)
                      ≤ max_uint_bits (truncation destination_chain_config))
      then source_token_decimals
      else Z.min (max_decimals_when_truncating (truncation destination_chain_config))
             source_token_decimals).

Definition calculate_scaling_factor (st : State) (source_chain destination_chain : string)
    (deploy_token : DeployInterchainToken) : result Error DeployInterchainToken :=
  decimals ← destination_token_decimals st source_chain destination_chain
               (d_decimals deploy_token);
  Ok (mkDeploy (d_token_id deploy_token) (d_name deploy_token) (d_symbol deploy_token) decimals
        (d_minter deploy_token)).

Definition register_custom_token (st : State) (source_chain : string)
    (register_token : RegisterTokenMetadata) : result Error State :=
  match may_load_custom_token st source_chain (r_token_address register_token) with
  | Some existing_token =>
      _ ← ensure (bool_decide (m_decimals existing_token = r_decimals register_token))
            (TokenDecimalsMismatch (r_token_address register_token) (m_decimals existing_token)
               (r_decimals register_token));
      Ok st
  | None => Ok (save_custom_token_metadata st source_chain register_token)
  end.

(** *** Handlers ([contract/execute/mod.rs], [msg_translation.rs]) *)

Definition ensure_chain_not_frozen (st : State) (chain : string) : result Error unit :=
  is_frozen ← state_err (is_chain_frozen st chain);
  ensure (negb is_frozen) (ChainFrozen chain).

Definition ensure_is_its_source_address (st : State) (source_chain source_address : string)
    : result Error unit :=
  source_its_contract ← state_err (load_its_contract st source_chain);
  ensure (bool_decide (source_address = source_its_contract)) (UnknownItsContract source_address).

Definition ensure_chain_is_registered (st : State) (chain : string) : result Error unit :=
  ensure (bool_decide (is_Some (may_load_chain_config st chain))) (ChainNotRegistered chain).

Definition hub_message_from_bytes (st : State) (env : Env) (source_chain payload : string)
    : result Error HubMessage :=
  chain_config ← state_err (load_chain_config st source_chain);
  ok_or InvalidPayload (from_bytes env (msg_translator chain_config) payload).

Definition hub_message_to_bytes (st : State) (env : Env) (destination_chain : string)
    (hub_message : HubMessage) : result Error string :=
  chain_config ← state_err (load_chain_config st destination_chain);
  ok_or TranslationFailed (to_bytes env (msg_translator chain_config) hub_message).

Definition axelar_chain_name (st : State) (env : Env) : result Error string :=
  config ← load_config st;
  ok_or (FailedToQueryAxelarnetGateway (axelarnet_gateway config)) (axelar_chain env).

Definition apply_to_transfer (st : State) (source_chain destination_chain : string)
    (transfer : InterchainTransfer) : result Error (State * InterchainTransfer) :=
  st ← subtract_supply_amount st source_chain transfer;
  transfer ← apply_scaling_factor_to_amount st source_chain destination_chain transfer;
  st ← add_supply_amount st destination_chain transfer;
  Ok (st, transfer).

Definition deployment_type (deploy_token : DeployInterchainToken) : TokenDeploymentType :=
  if bool_decide (is_Some (d_minter deploy_token)) then CustomMinter else Trustless.

Definition apply_to_token_deployment (st : State) (source_chain destination_chain : string)
    (deploy_token : DeployInterchainToken) : result Error (State * DeployInterchainToken) :=
  st ← deploy_token_to_source_chain st source_chain (d_token_id deploy_token)
         (d_decimals deploy_token);
  deploy_token ← calculate_scaling_factor st source_chain destination_chain deploy_token;
  st ← deploy_token_to_destination_chain st destination_chain (d_token_id deploy_token)
         (d_decimals deploy_token) (deployment_type deploy_token);
  Ok (st, deploy_token).

Definition apply_to_link_token (st : State) (source_chain destination_chain : string)
    (link_token : LinkToken) : result Error (State * LinkToken) :=
  source_token ← ok_or (TokenNotRegistered (l_source_token_address link_token))
    (may_load_custom_token st source_chain (l_source_token_address link_token));
  st ← deploy_token_to_source_chain st source_chain (l_token_id link_token)
         (m_decimals source_token);
  destination_token ← ok_or (TokenNotRegistered (l_destination_token_address link_token))
    (may_load_custom_token st destination_chain (l_destination_token_address link_token));
  st ← deploy_token_to_destination_chain st destination_chain (l_token_id link_token)
         (m_decimals destination_token) CustomMinter;
  Ok (st, link_token).

Definition apply_to_hub (st : State) (source_chain destination_chain : string) (message : Message)
    : result Error (State * Message) :=
  _ ← ensure_chain_not_frozen st source_chain;
  _ ← ensure_chain_not_frozen st destination_chain;
  match message with
  | MInterchainTransfer transfer =>
      '(st, transfer) ← apply_to_transfer st source_chain destination_chain transfer;
      Ok (st, MInterchainTransfer transfer)
  | MDeployInterchainToken deploy_token =>
      '(st, deploy_token) ← apply_to_token_deployment st source_chain destination_chain deploy_token;
      Ok (st, MDeployInterchainToken deploy_token)
  | MLinkToken link_token =>
      '(st, link_token) ← apply_to_link_token st source_chain destination_chain link_token;
      Ok (st, MLinkToken link_token)
  end.

Definition send_to_destination (st : State) (env : Env) (destination_chain payload : string)
    : result Error IResponse :=
  axelar ← axelar_chain_name st env;
  if bool_decide (destination_chain = axelar) then Ok Response_new
  else
    destination_address ← map_err (λ _, ChainNotRegistered destination_chain)
      (load_its_contract st destination_chain);
    config ← load_config st;
    Ok (add_message (CallContractAt (axelarnet_gateway config)
          (axelarnet_gateway.mkCall (chain.normalize destination_chain) destination_address payload))
          Response_new).

Section handlers.
Context `{Crypto} `{Api}.

(** [make_message_event] ([events.rs]) *)
Definition make_message_event (destination_chain : string) (message : Message) : Event :=
  match message with
  | MInterchainTransfer t =>
      InterchainTransferEvent (t_token_id t) (t_source_address t) destination_chain
        (t_destination_address t) (t_amount t) (keccak256 <$> t_data t)
  | MLinkToken l =>
      LinkTokenStarted (l_token_id l) destination_chain (l_token_manager_type l)
        (l_source_token_address l) (l_destination_token_address l) (l_params l)
  | MDeployInterchainToken d =>
      InterchainTokenDeploymentStarted (d_token_id d) (d_name d) (d_symbol d) (d_decimals d)
        (d_minter d) destination_chain
  end.

Definition execute_message_on_hub (st : State) (env : Env) (cc_id : router_api.CrossChainId)
    (destination_chain : string) (message : Message) : result Error (State * IResponse) :=
  '(st, message) ← apply_to_hub st (router_api.source_chain cc_id) destination_chain message;
  let hub_message := ReceiveFromHub (router_api.source_chain cc_id) message in
  destination_payload ← hub_message_to_bytes st env destination_chain hub_message;
  r ← send_to_destination st env destination_chain destination_payload;
  Ok (st, add_event (make_message_event destination_chain message)
            (add_event (MessageReceived cc_id destination_chain message) r)).

Definition execute_register_token_metadata (st : State) (source_chain : string)
    (m : RegisterTokenMetadata) : result Error (State * IResponse) :=
  _ ← ensure_chain_not_frozen st source_chain;
  st ← register_custom_token st source_chain m;
  Ok (st, add_event (TokenMetadataRegistered source_chain (r_token_address m) (r_decimals m))
            Response_new).

Definition execute_message (st : State) (env : Env) (cc_id : router_api.CrossChainId)
    (source_address payload : string) : result Error (State * IResponse) :=
  _ ← ensure (killswitch.is_contract_active (switch st)) ExecutionDisabledErr;
  _ ← ensure_is_its_source_address st (router_api.source_chain cc_id) source_address;
  hub_message ← hub_message_from_bytes st env (router_api.source_chain cc_id) payload;
  match hub_message with
  | SendToHub destination_chain message =>
      execute_message_on_hub st env cc_id destination_chain message
  | HRegisterTokenMetadata msg =>
      execute_register_token_metadata st (router_api.source_chain cc_id) msg
  | ReceiveFromHub _ _ => Err InvalidMessageType
  end.

Definition freeze_chain (st : State) (chain : string) : result Error (State * IResponse) :=
  st ← state_err (state_freeze_chain st chain); Ok (st, Response_new).

Definition unfreeze_chain (st : State) (chain : string) : result Error (State * IResponse) :=
  st ← state_err (state_unfreeze_chain st chain); Ok (st, Response_new).

Definition disable_execution (st : State) : result Error (State * IResponse) :=
  '(s, r) ← map_err (λ _, StateErr) (killswitch.engage (switch st) ExecutionDisabled);
  Ok (set_switch st s, r).

Definition enable_execution (st : State) : result Error (State * IResponse) :=
  '(s, r) ← map_err (λ _, StateErr) (killswitch.disengage (switch st) ExecutionEnabled);
  Ok (set_switch st s, r).

(** [msg::ChainConfig] *)
Record MsgChainConfig := mkMsgChainConfig {
  c_chain : string;
  its_edge_contract : string;
  c_truncation : TruncationConfig;
  c_msg_translator : string
}.

(** [ChainConfig::new] *)
Definition chain_config_new (input : MsgChainConfig) : result StateError ChainConfig :=
  translator ← map_err (λ _, InvalidTranslationContractAddress (c_msg_translator input))
                 (addr_validate (c_msg_translator input));
  Ok (mkChainConfig (c_truncation input) (its_edge_contract input) false translator).

Definition register_chain (st : State) (input : MsgChainConfig) : result Error State :=
  config ← state_err (chain_config_new input);
  match may_load_chain_config st (c_chain input) with
  | Some _ => Err (ChainAlreadyRegistered (c_chain input))
  | None => Ok (save_chain_config st (c_chain input) config)
  end.

Definition register_chains (st : State) (chains : list MsgChainConfig)
    : result Error (State * IResponse) :=
  st ← try_fold register_chain st chains; Ok (st, Response_new).

Definition update_chain (st : State) (input : MsgChainConfig) : result Error State :=
  config ← state_err (chain_config_new input);
  match may_load_chain_config st (c_chain input) with
  | None => Err (ChainNotRegistered (c_chain input))
  | Some _ => Ok (save_chain_config st (c_chain input) config)
  end.

Definition update_chains (st : State) (chains : list MsgChainConfig)
    : result Error (State * IResponse) :=
  st ← try_fold update_chain st chains; Ok (st, Response_new).

Definition modify_supply (st : State) (chain : string) (token_id : TokenId)
    (supply_modifier : SupplyModifier) : result Error (State * IResponse) :=
  token_instance ← ok_or (TokenNotDeployed token_id chain)
                     (may_load_token_instance st chain token_id);
  let tracked := match supply token_instance with Untracked => Tracked 0 | s => s end in
  supply ← ok_or (ModifySupplyOverflow tracked)
    match supply_modifier with
    | IncreaseSupply amount => supply_checked_add tracked amount
    | DecreaseSupply amount => supply_checked_sub tracked amount
    end;
  let st := save_token_instance st chain token_id (mkInstance supply (decimals token_instance)) in
  Ok (st, add_event (SupplyModified token_id chain supply_modifier) Response_new).

Definition register_p2p_token_instance (st : State) (token_id : TokenId)
    (chain origin_chain' : string) (decimals : Z) (supply : TokenSupply)
    : result Error (State * IResponse) :=
  _ ← ensure_chain_is_registered st chain;
  _ ← ensure_chain_is_registered st origin_chain';
  st ← match may_load_token_config st token_id with
       | Some config =>
           _ ← ensure (bool_decide (origin_chain config = origin_chain'))
                 (WrongOriginChain token_id (origin_chain config));
           Ok st
       | None => Ok (save_token_config st token_id (mkTokenConfig origin_chain'))
       end;
  if bool_decide (is_Some (may_load_token_instance st chain token_id))
  then Err (TokenAlreadyDeployed token_id chain)
  else Ok (save_token_instance st chain token_id (mkInstance supply decimals), Response_new).

(** *** Queries ([contract/query.rs]) *)

Record ChainConfigResponse := mkChainResponse {
  q_chain : string;
  q_its_edge_contract : string;
  q_truncation : TruncationConfig;
  q_frozen : bool;
  q_msg_translator : Addr
}.

Definition chain_response (chain : string) (config : ChainConfig) : ChainConfigResponse :=
  mkChainResponse chain (its_address config) (truncation config) (frozen config)
    (msg_translator config).

Inductive ChainStatusFilter := Frozen | Active.

Definition its_chain (st : State) (chain : string) : option ChainConfigResponse :=
  chain_response chain <$> may_load_chain_config st chain.

Definition convert_chain_filter (status : option ChainStatusFilter) (config : ChainConfig) : bool :=
  match status with
  | Some Frozen => frozen config
  | Some Active => negb (frozen config)
  | None => true
  end.

Definition its_chains (st : State) (status : option ChainStatusFilter)
    (start_after : option string) (limit : nat) : list ChainConfigResponse :=
  (λ p, chain_response p.1 p.2) <$>
    load_chain_configs st (convert_chain_filter status) start_after limit.

Definition custom_token_metadata (st : State) (chain token_address : string) : option Z :=
  m_decimals <$> may_load_custom_token st chain token_address.

(** *** Entry points ([contract.rs], [msg.rs]) *)

Record InstantiateMsg := mkInstantiate {
  governance_address : string;
  admin_address : string;
  operator_address : string;
  axelarnet_gateway_address : string
}.

Inductive ExecuteMsg :=
  | Execute (msg : axelarnet_gateway.ExternalMsg)
  | RegisterP2pTokenInstance (chain : string) (token_id : TokenId) (origin_chain : string)
      (decimals : Z) (supply : TokenSupply)
  | RegisterChains (chains : list MsgChainConfig)
  | ModifySupply (chain : string) (token_id : TokenId) (supply_modifier : SupplyModifier)
  | UpdateChains (chains : list MsgChainConfig)
  | FreezeChain (chain : string)
  | UnfreezeChain (chain : string)
  | DisableExecution
  | EnableExecution.

Definition permissions (m : ExecuteMsg) : msgs_derive.MsgPermissions :=
  match m with
  | Execute _ => msgs_derive.mkPerm ["gateway"] [] []
  | RegisterP2pTokenInstance _ _ _ _ _ | ModifySupply _ _ _ =>
      msgs_derive.mkPerm ["operator"] [permission_control.Elevated] []
  | RegisterChains _ | UpdateChains _ => msgs_derive.mkPerm [] [permission_control.Governance] []
  | FreezeChain _ | UnfreezeChain _ | DisableExecution | EnableExecution =>
      msgs_derive.mkPerm [] [permission_control.Elevated] []
  end.

Inductive ExecuteError :=
  | Permission (e : permission_control.Error)
  | Contract (e : Error).

Definition match_gateway (st : State) (sender_addr : Addr) : result Error bool :=
  config ← load_config st; Ok (bool_decide (sender_addr = axelarnet_gateway config)).

Definition match_operator (st : State) (sender_addr : Addr) : result Error bool :=
  config ← load_config st; Ok (bool_decide (sender_addr = operator config)).

(** The functions of the roles named in the permissions. *)
Definition roles (st : State) (role : string) (sender : Addr) (_ : ExecuteMsg)
    : result Error bool :=
  if bool_decide (role = "gateway") then match_gateway st sender else match_operator st sender.

Definition instantiate (msg : InstantiateMsg) : result StdError (State * IResponse) :=
  admin ← addr_validate (admin_address msg);
  governance ← addr_validate (governance_address msg);
  operator ← addr_validate (operator_address msg);
  let perm := permission_control.set_governance
    (permission_control.set_admin (permission_control.mkStorage None None) admin) governance in
  axelarnet_gateway ← addr_validate (axelarnet_gateway_address msg);
  Ok (mkState perm (killswitch.init killswitch.Disengaged)
        (Some (mkConfig axelarnet_gateway operator)) ∅ ∅ ∅ ∅, Response_new).

Definition execute (st : State) (env : Env) (sender : Addr) (m : ExecuteMsg)
    : result ExecuteError (State * IResponse) :=
  m ← map_err Permission (msgs_derive.ensure_permissions permissions (roles st) (perm st) sender m);
  map_err Contract
    match m with
    | Execute msg =>
        execute_message st env (axelarnet_gateway.ext_cc_id msg)
          (axelarnet_gateway.ext_source_address msg) (axelarnet_gateway.ext_payload msg)
    | RegisterP2pTokenInstance chain token_id origin_chain decimals supply =>
        register_p2p_token_instance st token_id chain origin_chain decimals supply
    | ModifySupply chain token_id supply_modifier => modify_supply st chain token_id supply_modifier
    | RegisterChains chains => register_chains st chains
    | UpdateChains chains => update_chains st chains
    | FreezeChain chain => freeze_chain st chain
    | UnfreezeChain chain => unfreeze_chain st chain
    | DisableExecution => disable_execution st
    | EnableExecution => enable_execution st
    end.


(** *** Scaling of amounts *)

(** The amount in the units of the destination: an exact quotient, rounded down. *)
Definition scaled (amount source_decimals destination_decimals : Z) : Z :=
  amount * 10 ^ destination_decimals / 10 ^ source_decimals.

Lemma scaled_down a sd dd : 0 ≤ dd ≤ sd → scaled a sd dd = a / 10 ^ (sd - dd).
Proof.
  intros Hd. unfold scaled. replace (10 ^ sd) with (10 ^ (sd - dd) * 10 ^ dd).
  - rewrite Z.div_mul_cancel_r; [done|apply Z.pow_nonzero; lia..].
  - rewrite <- Z.pow_add_r by lia. f_equal. lia.
Qed.

Lemma scaled_up a sd dd : 0 ≤ sd ≤ dd → scaled a sd dd = a * 10 ^ (dd - sd).
Proof.
  intros Hd. unfold scaled. replace (10 ^ dd) with (10 ^ (dd - sd) * 10 ^ sd).
  - rewrite Z.mul_assoc, Z.div_mul; [done|apply Z.pow_nonzero; lia].
  - rewrite <- Z.pow_add_r by lia. f_equal. lia.
Qed.

Lemma amount_overflows_spec a bits :
  0 ≤ a ≤ u256_max → 0 ≤ bits ≤ 255 →
  amount_overflows a bits = bool_decide (2 ^ (bits + 1) ≤ a).
Proof.
  intros Ha Hb. unfold amount_overflows, checked_shr, num_bits_into. unfold u256_max in Ha.
  case_bool_decide as Hlt; cbn.
  - apply bool_decide_ext. rewrite Z.shiftr_div_pow2 by lia.
    assert (0 < 2 ^ (bits + 1)) by (apply Z.pow_pos_nonneg; lia).
    split; intros Hx; [|apply Z.div_str_pos; lia].
    destruct (Z_lt_le_dec a (2 ^ (bits + 1))) as [Hs|]; [|done].
    rewrite Z.div_small in Hx; lia.
  - assert (bits = 255) as -> by lia. symmetry. apply bool_decide_eq_false_2. lia.
Qed.

(** The computation step by step, without the lookups. *)
Lemma scaling_spec a sd dd bits (invalid : Error) :
  nonempty_u256 a → u8 sd → u8 dd → sd ≠ dd → 0 ≤ bits ≤ 255 →
  (scaling_factor ← ok_or invalid (checked_pow 10 (Z.abs (sd - dd)));
   destination_amount ←
      (if bool_decide (dd < sd)
       then expect (checked_div a scaling_factor)
       else ok_or invalid (checked_mul u256_max a scaling_factor));
   if amount_overflows destination_amount bits then Err invalid
   else if bool_decide (destination_amount = 0) then Err invalid else Ok destination_amount)
  = let b := scaled a sd dd in
    if bool_decide (0 < b < 2 ^ (bits + 1)) then Ok b else Err invalid.
Proof.
  unfold nonempty_u256, u8. intros Ha Hsd Hdd Hne Hb. unfold checked_pow.
  assert (2 ^ (bits + 1) ≤ 2 ^ 256) as Hbits by (apply Z.pow_le_mono_r; lia).
  assert (2 ^ 256 = u256_max + 1) as H256 by done.
  destruct (Z_lt_le_dec dd sd) as [Hlt|Hge].
  - rewrite Z.abs_eq by lia. rewrite scaled_down by lia. cbv zeta.
    rewrite (bool_decide_eq_true_2 (dd < sd)) by done.
    assert (0 < 10 ^ (sd - dd)) as Hpos by (apply Z.pow_pos_nonneg; lia).
    case_bool_decide as Hpow; cbn [ok_or mbind result_bind].
    + unfold checked_div. rewrite (bool_decide_eq_false_2 (10 ^ _ = 0)) by lia.
      cbn [expect mbind result_bind].
      pose proof (Z.div_pos a (10 ^ (sd - dd)) ltac:(lia) Hpos) as Hq.
      pose proof (Z.div_le_upper_bound a (10 ^ (sd - dd)) a Hpos ltac:(nia)) as Hq'.
      rewrite amount_overflows_spec by lia. repeat case_bool_decide; try done; lia.
    + rewrite Z.div_small by lia. by rewrite bool_decide_eq_false_2 by lia.
  - rewrite Z.abs_neq by lia. rewrite scaled_up by lia. cbv zeta.
    rewrite (bool_decide_eq_false_2 (dd < sd)) by lia.
    replace (- (sd - dd)) with (dd - sd) by lia.
    assert (0 < 10 ^ (dd - sd)) as Hpos by (apply Z.pow_pos_nonneg; lia).
    case_bool_decide as Hpow; cbn [ok_or mbind result_bind].
    + unfold checked_mul. case_bool_decide as Hmul; cbn [ok_or mbind result_bind].
      * rewrite amount_overflows_spec by nia. repeat case_bool_decide; try done; nia.
      * rewrite bool_decide_eq_false_2 by lia. done.
    + rewrite bool_decide_eq_false_2 by nia. done.
Qed.

(** *** Invariant *)

Definition supply_wf (s : TokenSupply) : Prop :=
  match s with Tracked amount => 0 ≤ amount ≤ u256_max | Untracked => True end.

Definition truncation_wf (t : TruncationConfig) : Prop :=
  0 ≤ max_uint_bits t ≤ 255 ∧ u8 (max_decimals_when_truncating t).

Record inv (st : State) : Prop := {
  inv_config : is_Some (CONFIG st);
  inv_chain c cfg : CHAIN_CONFIGS st !! c = Some cfg → truncation_wf (truncation cfg);
  inv_instance k i : TOKEN_INSTANCE st !! k = Some i → u8 (decimals i) ∧ supply_wf (supply i);
  inv_token c id i : TOKEN_INSTANCE st !! (c, id) = Some i → is_Some (TOKEN_CONFIGS st !! id);
  inv_custom k m : CUSTOM_TOKEN_METADATA st !! k = Some m → u8 (m_decimals m)
}.

(** What no call takes back: deployments, their decimals, the origins and the metadata. *)
Record keeps (st st' : State) : Prop := {
  keeps_perm : perm st' = perm st;
  keeps_config : CONFIG st' = CONFIG st;
  keeps_instance k i : TOKEN_INSTANCE st !! k = Some i →
    ∃ i', TOKEN_INSTANCE st' !! k = Some i' ∧ decimals i' = decimals i;
  keeps_token : TOKEN_CONFIGS st ⊆ TOKEN_CONFIGS st';
  keeps_custom : CUSTOM_TOKEN_METADATA st ⊆ CUSTOM_TOKEN_METADATA st'
}.

Definition sound (st st' : State) : Prop := inv st → inv st' ∧ keeps st st'.

Lemma its_keeps_refl st : keeps st st.
Proof. split; eauto. Qed.

Lemma its_keeps_trans st1 st2 st3 : keeps st1 st2 → keeps st2 st3 → keeps st1 st3.
Proof.
  intros [P C I T M] [P' C' I' T' M']. split; try congruence; [|by etrans..].
  intros k i Hi. destruct (I k i Hi) as (i1 & Hi1 & <-). destruct (I' k i1 Hi1) as (i2 & Hi2 & <-).
  eauto.
Qed.

Lemma sound_refl st : sound st st.
Proof. intros Hi. split; [done|apply its_keeps_refl]. Qed.

Lemma sound_trans st1 st2 st3 : sound st1 st2 → sound st2 st3 → sound st1 st3.
Proof.
  intros S1 S2 Hi. destruct (S1 Hi) as [Hi1 K1]. destruct (S2 Hi1) as [Hi2 K2].
  split; [done|by eapply its_keeps_trans].
Qed.

Lemma sound_update_instance st c id i s :
  TOKEN_INSTANCE st !! (c, id) = Some i → (inv st → supply_wf s) →
  sound st (save_token_instance st c id (mkInstance s (decimals i))).
Proof.
  intros Hl Hs Hi. pose proof (inv_instance _ Hi _ _ Hl) as [Hd _]. split; split; cbn; try apply Hi; try done.
  - intros k i'. rewrite lookup_insert_Some. intros [[<- <-]|[_ ?]]; [|by apply (inv_instance _ Hi k)].
    split; [done|by apply Hs].
  - intros c' id' i'. rewrite lookup_insert_Some. intros [[Heq _]|[_ ?]]; [|by eapply inv_token].
    injection Heq as <- <-. by eapply inv_token.
  - intros k i' Hk. destruct (decide (k = (c, id))) as [->|Hne].
    + rewrite lookup_insert_eq. assert (i' = i) as -> by congruence. eauto.
    + rewrite lookup_insert_ne by done. eauto.
Qed.

Lemma sound_new_instance st c id i :
  TOKEN_INSTANCE st !! (c, id) = None → is_Some (TOKEN_CONFIGS st !! id) →
  (inv st → u8 (decimals i) ∧ supply_wf (supply i)) → sound st (save_token_instance st c id i).
Proof.
  intros Hn Ht Hw Hi. split; split; cbn; try apply Hi; try done.
  - intros k i'. rewrite lookup_insert_Some. intros [[<- <-]|[_ ?]]; [by apply Hw|].
    by apply (inv_instance _ Hi k).
  - intros c' id' i'. rewrite lookup_insert_Some. intros [[[= <- <-] _]|[_ ?]]; [done|].
    by eapply inv_token.
  - intros k i' Hk. exists i'. split; [|done]. rewrite lookup_insert_ne; [done|congruence].
Qed.

Lemma sound_new_token st id c : TOKEN_CONFIGS st !! id = None → sound st (save_token_config st id c).
Proof.
  intros Hn Hi. split; split; cbn; try apply Hi; try done.
  - intros c' id' i' Hl. destruct (decide (id' = id)) as [->|Hne]; [by rewrite lookup_insert_eq; eauto|].
    rewrite lookup_insert_ne by done. by eapply inv_token.
  - eauto.
  - by apply insert_subseteq.
Qed.

Lemma sound_new_custom st c m :
  CUSTOM_TOKEN_METADATA st !! (c, r_token_address m) = None → u8 (r_decimals m) →
  sound st (save_custom_token_metadata st c m).
Proof.
  intros Hn Hd Hi. split; split; cbn; try apply Hi; try done.
  - intros k m'. rewrite lookup_insert_Some. intros [[<- <-]|[_ ?]]; [done|by eapply inv_custom].
  - eauto.
  - by apply insert_subseteq.
Qed.

Lemma sound_chain st c cfg : truncation_wf (truncation cfg) → sound st (save_chain_config st c cfg).
Proof.
  intros Hw Hi. split; split; cbn; try apply Hi; try done; [|by eauto].
  intros c' cfg'. rewrite lookup_insert_Some. intros [[<- <-]|[_ ?]]; [done|by eapply inv_chain].
Qed.

Lemma sound_switch st s : sound st (set_switch st s).
Proof. intros Hi. split; split; cbn; try apply Hi; try done. eauto. Qed.

(** *** What the handlers do *)

Lemma try_load_Ok st c id i :
  try_load_token_instance st c id = Ok i ↔ TOKEN_INSTANCE st !! (c, id) = Some i.
Proof. apply ok_or_Ok. Qed.

(** The amounts do not depend on the supplies. *)
Lemma destination_amount_supply st c id i s src dst tid a :
  TOKEN_INSTANCE st !! (c, id) = Some i →
  destination_amount (save_token_instance st c id (mkInstance s (decimals i))) src dst tid a =
  destination_amount st src dst tid a.
Proof.
  intros Hl. assert (∀ k, decimals <$> TOKEN_INSTANCE
    (save_token_instance st c id (mkInstance s (decimals i))) !! k =
    decimals <$> TOKEN_INSTANCE st !! k) as Hd.
  { intros k. cbn. destruct (decide (k = (c, id))) as [->|Hne];
      [by rewrite lookup_insert_eq, Hl|by rewrite lookup_insert_ne]. }
  unfold destination_amount, try_load_token_instance, may_load_token_instance.
  pose proof (Hd (src, tid)) as H1. pose proof (Hd (dst, tid)) as H2.
  destruct (TOKEN_INSTANCE (save_token_instance _ _ _ _) !! (src, tid)),
    (TOKEN_INSTANCE st !! (src, tid)); try done; cbn [ok_or mbind result_bind].
  destruct (TOKEN_INSTANCE (save_token_instance _ _ _ _) !! (dst, tid)),
    (TOKEN_INSTANCE st !! (dst, tid)); try done; cbn [ok_or mbind result_bind].
  cbn in H1, H2. injection H1 as ->. injection H2 as ->. done.
Qed.

(** A transfer: the source's supply is lowered, then the destination's is raised. *)
Lemma apply_to_transfer_Ok st src dst t st' t' :
  apply_to_transfer st src dst t = Ok (st', t') ↔
  ∃ i s1 st1 j s2 b,
    TOKEN_INSTANCE st !! (src, t_token_id t) = Some i ∧
    supply_checked_sub (supply i) (t_amount t) = Some s1 ∧
    st1 = save_token_instance st src (t_token_id t) (mkInstance s1 (decimals i)) ∧
    TOKEN_INSTANCE st1 !! (dst, t_token_id t) = Some j ∧
    destination_amount st src dst (t_token_id t) (t_amount t) = Ok b ∧
    supply_checked_add (supply j) b = Some s2 ∧
    st' = save_token_instance st1 dst (t_token_id t) (mkInstance s2 (decimals j)) ∧
    t' = mkTransfer (t_token_id t) (t_source_address t) (t_destination_address t) b (t_data t).
Proof.
  unfold apply_to_transfer, subtract_supply_amount, apply_scaling_factor_to_amount,
    add_supply_amount. split.
  - intros Hf. apply bind_Ok in Hf as (st1 & Hf1 & Hf).
    apply bind_Ok in Hf1 as (i & Hi%try_load_Ok & Hf1).
    apply bind_Ok in Hf1 as (s1 & Hs1%ok_or_Ok & Hf1). injection Hf1 as <-.
    apply bind_Ok in Hf as (t1 & Hf1 & Hf). apply bind_Ok in Hf1 as (b & Hb & Hf1).
    injection Hf1 as <-. cbn [t_token_id t_amount] in *.
    apply bind_Ok in Hf as (st2 & Hf1 & Hf). injection Hf as <- <-.
    apply bind_Ok in Hf1 as (j & Hj%try_load_Ok & Hf1).
    apply bind_Ok in Hf1 as (s2 & Hs2%ok_or_Ok & Hf1). injection Hf1 as <-.
    rewrite destination_amount_supply in Hb by done.
    eexists i, s1, _, j, s2, b. by split_and!.
  - intros (i & s1 & st1 & j & s2 & b & Hi & Hs1 & -> & Hj & Hb & Hs2 & -> & ->).
    rewrite (proj2 (try_load_Ok _ _ _ _) Hi). cbn [mbind result_bind]. rewrite Hs1.
    cbn [ok_or mbind result_bind]. rewrite destination_amount_supply by done. rewrite Hb.
    cbn [ok_or mbind result_bind t_token_id t_amount].
    rewrite (proj2 (try_load_Ok _ _ _ _) Hj). cbn [mbind result_bind]. rewrite Hs2. done.
Qed.

Lemma supply_sub_wf s a s' :
  supply_checked_sub s a = Some s' → 0 ≤ a → supply_wf s → supply_wf s'.
Proof.
  destruct s as [x|]; cbn; [|by intros [= <-]]. unfold checked_sub.
  case_bool_decide; cbn; [|done]. intros [= <-]. cbn. lia.
Qed.

Lemma supply_add_wf s a s' :
  supply_checked_add s a = Some s' → 0 ≤ a → supply_wf s → supply_wf s'.
Proof.
  destruct s as [x|]; cbn; [|by intros [= <-]]. unfold checked_add.
  case_bool_decide; cbn; [|done]. intros [= <-]. cbn. lia.
Qed.

Lemma deploy_source_sound st c id d st' :
  deploy_token_to_source_chain st c id d = Ok st' → u8 d →
  sound st st' ∧ is_Some (TOKEN_CONFIGS st' !! id).
Proof.
  unfold deploy_token_to_source_chain, may_load_token_config. intros Hf Hd.
  destruct (TOKEN_CONFIGS st !! id) as [cfg|] eqn:Hc.
  - apply bind_Ok in Hf as ([] & _ & Hf). injection Hf as <-. split; [apply sound_refl|by eauto].
  - injection Hf as <-. split; [|cbn; rewrite lookup_insert_eq; eauto].
    intros Hi. assert (TOKEN_INSTANCE st !! (c, id) = None) as Hn.
    { destruct (TOKEN_INSTANCE st !! (c, id)) eqn:Hl; [|done].
      destruct (inv_token _ Hi _ _ _ Hl). congruence. }
    revert Hi. eapply sound_trans; [by apply sound_new_token|].
    apply sound_new_instance; cbn; [done|rewrite lookup_insert_eq; eauto|done].
Qed.

Lemma deploy_destination_sound st c id d ty st' :
  deploy_token_to_destination_chain st c id d ty = Ok st' → (inv st → u8 d) →
  is_Some (TOKEN_CONFIGS st !! id) → sound st st'.
Proof.
  unfold deploy_token_to_destination_chain, may_load_token_instance. intros Hf Hd Ht.
  apply bind_Ok in Hf as ([] & He & Hf). injection Hf as <-.
  apply sound_new_instance; [|done|].
  - apply ensure_Ok in He. rewrite negb_true_iff, bool_decide_eq_false in He.
    by apply eq_None_not_Some.
  - intros Hi. split; [by apply Hd|]. by destruct ty; cbn; unfold u256_max; lia || done.
Qed.

(** The amount delivered, as the reference computes it: rounded down to the units of the
    destination, positive, and of the width of the destination when the decimals differ. *)
Definition deliverable (a sd dd bits b : Z) : Prop :=
  b = scaled a sd dd ∧ 0 < b ≤ u256_max ∧ (sd ≠ dd → b < 2 ^ (bits + 1)).

Lemma destination_amount_spec st src dst id i j cfg a b :
  inv st → TOKEN_INSTANCE st !! (src, id) = Some i → TOKEN_INSTANCE st !! (dst, id) = Some j →
  CHAIN_CONFIGS st !! dst = Some cfg → nonempty_u256 a →
  destination_amount st src dst id a = Ok b ↔
  deliverable a (decimals i) (decimals j) (max_uint_bits (truncation cfg)) b.
Proof.
  intros Hi Hs Hd Hc Ha. pose proof (inv_instance _ Hi _ _ Hs) as [Hsd _].
  pose proof (inv_instance _ Hi _ _ Hd) as [Hdd _]. pose proof (inv_chain _ Hi _ _ Hc) as [Hb _].
  unfold destination_amount, state_err, load_chain_config, may_load_chain_config.
  rewrite (proj2 (try_load_Ok _ _ _ _) Hs). cbn [mbind result_bind].
  rewrite (proj2 (try_load_Ok _ _ _ _) Hd). cbn [mbind result_bind]. unfold deliverable.
  case_bool_decide as Heq.
  - rewrite Heq, scaled_up by (unfold u8 in *; lia). rewrite Z.sub_diag, Z.pow_0_r, Z.mul_1_r.
    unfold nonempty_u256 in Ha. split; [intros [= <-]; naive_solver|intros (-> & _); done].
  - rewrite Hc. cbn [ok_or map_err mbind result_bind]. rewrite scaling_spec by done. cbv zeta.
    assert (2 ^ (max_uint_bits (truncation cfg) + 1) ≤ u256_max + 1) as Hle.
    { change (u256_max + 1) with (2 ^ 256). apply Z.pow_le_mono_r; lia. }
    case_bool_decide as Hr.
    + split; [intros [= <-]; split_and!; lia|]. by intros (-> & _).
    + split; [done|]. intros (-> & ? & Hlt). specialize (Hlt Heq). lia.
Qed.

Lemma destination_amount_range st src dst id a b :
  inv st → destination_amount st src dst id a = Ok b → nonempty_u256 a → nonempty_u256 b.
Proof.
  intros Hi Hf Ha. pose proof Hf as Hf0. unfold destination_amount in Hf.
  apply bind_Ok in Hf as (i & Hs%try_load_Ok & Hf). apply bind_Ok in Hf as (j & Hd%try_load_Ok & Hf).
  case_bool_decide as Heq; [by injection Hf as <-|].
  apply bind_Ok in Hf as (cfg & Hc%map_err_Ok%ok_or_Ok & _).
  by destruct (proj1 (destination_amount_spec _ _ _ _ _ _ _ _ _ Hi Hs Hd Hc Ha) Hf0) as (_ & ? & _).
Qed.

Lemma apply_to_transfer_sound st src dst t st' t' :
  apply_to_transfer st src dst t = Ok (st', t') → nonempty_u256 (t_amount t) → sound st st'.
Proof.
  intros (i & s1 & st1 & j & s2 & b & Hi & Hs1 & -> & Hj & Hb & Hs2 & -> & _)%apply_to_transfer_Ok Ha.
  intros Hinv. pose proof (destination_amount_range _ _ _ _ _ _ Hinv Hb Ha) as [Hb0 _].
  revert Hinv. eapply sound_trans; eapply sound_update_instance; try done.
  - intros Hinv. apply (supply_sub_wf _ _ _ Hs1); [unfold nonempty_u256 in Ha; lia|].
    by apply (inv_instance _ Hinv _ _ Hi).
  - intros Hinv. apply (supply_add_wf _ _ _ Hs2); [lia|]. by apply (inv_instance _ Hinv _ _ Hj).
Qed.

Lemma apply_to_hub_sound st src dst m st' m' :
  apply_to_hub st src dst m = Ok (st', m') → message_wf m → sound st st'.
Proof.
  unfold apply_to_hub. intros Hf Hw. apply bind_Ok in Hf as ([] & _ & Hf).
  apply bind_Ok in Hf as ([] & _ & Hf). destruct m as [t|d|l].
  - apply bind_Ok in Hf as ([st1 t'] & Hf1 & Hf). injection Hf as <- <-.
    eapply apply_to_transfer_sound; [done|]. apply Hw.
  - destruct Hw as (_ & _ & _ & Hd & _).
    apply bind_Ok in Hf as ([st1 d'] & Hf1 & Hf). injection Hf as <- <-.
    unfold apply_to_token_deployment in Hf1. apply bind_Ok in Hf1 as (sta & Ha & Hf1).
    apply bind_Ok in Hf1 as (d1 & Hd1 & Hf1). apply bind_Ok in Hf1 as (stb & Hb & Hf1).
    injection Hf1 as <- <-. unfold calculate_scaling_factor in Hd1.
    apply bind_Ok in Hd1 as (dec & Hdec & Hd1). injection Hd1 as <-.
    destruct (deploy_source_sound _ _ _ _ _ Ha Hd) as [Hs Ht]. eapply sound_trans; [done|].
    eapply deploy_destination_sound; [done| |done]. intros Hi. cbn.
    unfold destination_token_decimals in Hdec.
    apply bind_Ok in Hdec as (c1 & Hc1%map_err_Ok & Hdec).
    apply bind_Ok in Hdec as (c2 & Hc2%map_err_Ok%ok_or_Ok & Hdec). injection Hdec as <-.
    destruct (inv_chain _ Hi _ _ Hc2) as [_ Hm]. unfold u8 in *. case_bool_decide; lia.
  - apply bind_Ok in Hf as ([st1 l'] & Hf1 & Hf). injection Hf as <- <-.
    unfold apply_to_link_token in Hf1. apply bind_Ok in Hf1 as (c1 & Hc1%ok_or_Ok & Hf1).
    apply bind_Ok in Hf1 as (sta & Ha & Hf1). apply bind_Ok in Hf1 as (c2 & Hc2%ok_or_Ok & Hf1).
    apply bind_Ok in Hf1 as (stb & Hb & Hf1). injection Hf1 as <- <-.
    intros Hi. destruct (deploy_source_sound _ _ _ _ _ Ha (inv_custom _ Hi _ _ Hc1)) as [Hs Ht].
    revert Hi. eapply sound_trans; [done|]. eapply deploy_destination_sound; [done| |done].
    intros Hi. by eapply inv_custom.
Qed.

(** The values of the types of the messages and of the answers of a translation contract. *)
Definition modifier_amount (m : SupplyModifier) : Z :=
  match m with IncreaseSupply a | DecreaseSupply a => a end.

Definition msg_wf (m : ExecuteMsg) : Prop :=
  match m with
  | RegisterP2pTokenInstance _ _ _ d s => u8 d ∧ supply_wf s
  | ModifySupply _ _ s => nonempty_u256 (modifier_amount s)
  | RegisterChains cs | UpdateChains cs => Forall (λ c, truncation_wf (c_truncation c)) cs
  | _ => True
  end.

Definition env_wf (env : Env) : Prop :=
  ∀ a payload m, from_bytes env a payload = Some m → hub_message_wf m.

Lemma register_chain_sound st c st' :
  register_chain st c = Ok st' → truncation_wf (c_truncation c) → sound st st'.
Proof.
  unfold register_chain, chain_config_new. intros Hf Hw. apply bind_Ok in Hf as (cfg & Hc%map_err_Ok & Hf).
  apply bind_Ok in Hc as (a & _ & Hc). injection Hc as <-. destruct (may_load_chain_config _ _); [done|].
  injection Hf as <-. by apply sound_chain.
Qed.

Lemma update_chain_sound st c st' :
  update_chain st c = Ok st' → truncation_wf (c_truncation c) → sound st st'.
Proof.
  unfold update_chain, chain_config_new. intros Hf Hw. apply bind_Ok in Hf as (cfg & Hc%map_err_Ok & Hf).
  apply bind_Ok in Hc as (a & _ & Hc). injection Hc as <-. destruct (may_load_chain_config _ _); [|done].
  injection Hf as <-. by apply sound_chain.
Qed.

Lemma sound_fold {A} (f : State → A → result Error State) (P : A → Prop) st l st' :
  (∀ st x st', f st x = Ok st' → P x → sound st st') →
  try_fold f st l = Ok st' → Forall P l → sound st st'.
Proof.
  intros Hf. revert st. induction l as [|x l IH]; intros st Hl HP; cbn in Hl.
  - injection Hl as <-. apply sound_refl.
  - apply Forall_cons in HP as [Hx HP]. apply bind_Ok in Hl as (st1 & H1 & Hl).
    eapply sound_trans; [by eapply Hf|by apply IH].
Qed.

Lemma frozen_sound st c st' (b : bool) :
  (x ← ok_or (ChainNotFound c) (CHAIN_CONFIGS st !! c);
   Ok (save_chain_config st c (set_frozen b x))) = Ok st' → sound st st'.
Proof.
  intros Hf. apply bind_Ok in Hf as (x & Hx%ok_or_Ok & Hf). injection Hf as <-.
  intros Hi. pose proof (inv_chain _ Hi _ _ Hx) as Hw. revert Hi. by apply sound_chain.
Qed.

Lemma modify_supply_sound st c id m st' r :
  modify_supply st c id m = Ok (st', r) → nonempty_u256 (modifier_amount m) → sound st st'.
Proof.
  unfold modify_supply. intros Hf [Hm _]. apply bind_Ok in Hf as (i & Hi%ok_or_Ok & Hf).
  apply bind_Ok in Hf as (s & Hs%ok_or_Ok & Hf). injection Hf as <- _.
  apply sound_update_instance; [done|]. intros Hinv.
  assert (supply_wf match supply i with Untracked => Tracked 0 | s => s end) as Hw.
  { destruct (inv_instance _ Hinv _ _ Hi) as [_ Hw]. destruct (supply i); [done|].
    cbn. unfold u256_max. lia. }
  destruct m; cbn in Hm; [eapply supply_add_wf|eapply supply_sub_wf]; (exact Hs || exact Hw || lia).
Qed.

Lemma register_p2p_sound st id c o d s st' r :
  register_p2p_token_instance st id c o d s = Ok (st', r) → u8 d → supply_wf s → sound st st'.
Proof.
  unfold register_p2p_token_instance. intros Hf Hd Hs. apply bind_Ok in Hf as ([] & _ & Hf).
  apply bind_Ok in Hf as ([] & _ & Hf). apply bind_Ok in Hf as (st1 & H1 & Hf).
  assert (sound st st1 ∧ is_Some (TOKEN_CONFIGS st1 !! id)) as [Hs1 Ht].
  { unfold may_load_token_config in H1. destruct (TOKEN_CONFIGS st !! id) eqn:Hc.
    - apply bind_Ok in H1 as ([] & _ & H1). injection H1 as <-. split; [apply sound_refl|eauto].
    - injection H1 as <-. split; [by apply sound_new_token|cbn; rewrite lookup_insert_eq; eauto]. }
  case_bool_decide as Hn; [done|]. injection Hf as <- _. eapply sound_trans; [done|].
  apply sound_new_instance; [|done|done]. by apply eq_None_not_Some.
Qed.

Lemma execute_message_sound st env cc a p st' r :
  execute_message st env cc a p = Ok (st', r) → env_wf env → sound st st'.
Proof.
  unfold execute_message, hub_message_from_bytes. intros Hf Hw. apply bind_Ok in Hf as ([] & _ & Hf).
  apply bind_Ok in Hf as ([] & _ & Hf). apply bind_Ok in Hf as (m & Hm & Hf).
  apply bind_Ok in Hm as (cfg & _ & Hm%ok_or_Ok%Hw). destruct m as [dst m| |md]; [|done|].
  - unfold execute_message_on_hub in Hf. apply bind_Ok in Hf as ([st1 m1] & H1 & Hf).
    apply bind_Ok in Hf as (dp & _ & Hf). apply bind_Ok in Hf as (r1 & _ & Hf). injection Hf as <- _.
    eapply apply_to_hub_sound; [done|apply Hm].
  - unfold execute_register_token_metadata in Hf. apply bind_Ok in Hf as ([] & _ & Hf).
    apply bind_Ok in Hf as (st1 & H1 & Hf). injection Hf as <- _.
    unfold register_custom_token, may_load_custom_token in H1.
    destruct (CUSTOM_TOKEN_METADATA st !! _) eqn:Hc.
    + apply bind_Ok in H1 as ([] & _ & H1). injection H1 as <-. apply sound_refl.
    + injection H1 as <-. apply sound_new_custom; [done|apply Hm].
Qed.

Lemma its_execute_inner st env sender m st' r :
  execute st env sender m = Ok (st', r) →
  msgs_derive.ensure_permissions permissions (roles st) (perm st) sender m = Ok m ∧
  match m with
  | Execute msg =>
      execute_message st env (axelarnet_gateway.ext_cc_id msg)
        (axelarnet_gateway.ext_source_address msg) (axelarnet_gateway.ext_payload msg)
  | RegisterP2pTokenInstance chain token_id origin_chain decimals supply =>
      register_p2p_token_instance st token_id chain origin_chain decimals supply
  | ModifySupply chain token_id supply_modifier => modify_supply st chain token_id supply_modifier
  | RegisterChains chains => register_chains st chains
  | UpdateChains chains => update_chains st chains
  | FreezeChain chain => freeze_chain st chain
  | UnfreezeChain chain => unfreeze_chain st chain
  | DisableExecution => disable_execution st
  | EnableExecution => enable_execution st
  end = Ok (st', r).
Proof.
  unfold execute. intros Hf. apply bind_Ok in Hf as (m' & Hp%map_err_Ok & Hf%map_err_Ok).
  pose proof (msgs_derive.ensure_permissions_same _ _ _ _ _ _ Hp) as ->. done.
Qed.

Lemma its_execute_sound st env sender m st' r :
  execute st env sender m = Ok (st', r) → msg_wf m → env_wf env → sound st st'.
Proof.
  intros [_ Hf]%its_execute_inner Hm He. destruct m; cbn in Hm.
  - by eapply execute_message_sound.
  - destruct Hm as [Hd Hs]. exact (register_p2p_sound _ _ _ _ _ _ _ _ Hf Hd Hs).
  - apply bind_Ok in Hf as (st1 & H1 & Hf). injection Hf as <- _.
    eapply sound_fold; [|done|done]. apply register_chain_sound.
  - by eapply modify_supply_sound.
  - apply bind_Ok in Hf as (st1 & H1 & Hf). injection Hf as <- _.
    eapply sound_fold; [|done|done]. apply update_chain_sound.
  - apply bind_Ok in Hf as (st1 & H1%map_err_Ok & Hf). injection Hf as <- _. by eapply frozen_sound.
  - apply bind_Ok in Hf as (st1 & H1%map_err_Ok & Hf). injection Hf as <- _. by eapply frozen_sound.
  - apply bind_Ok in Hf as ([s r1] & _ & Hf). injection Hf as <- _. apply sound_switch.
  - apply bind_Ok in Hf as ([s r1] & _ & Hf). injection Hf as <- _. apply sound_switch.
Qed.

(** *** The value of a token across chains *)

(** Amounts on chains with different decimals, in one unit: the smallest of 255 decimals. *)
Definition value (decimals amount : Z) : Z := amount * 10 ^ (255 - decimals).

Definition tracked_value (id : TokenId) (k : string * TokenId) (i : TokenInstance) : Z :=
  if bool_decide (k.2 = id) then
    match supply i with Tracked s => value (decimals i) s | Untracked => 0 end
  else 0.

(** The value of a token that the tracked chains may still send back. *)
Definition tracked_total (st : State) (id : TokenId) : Z :=
  map_sum (tracked_value id) (TOKEN_INSTANCE st).

(** A flow of value: what chains without tracking send and receive, and what the tracked chains
    receive and send. *)
Record Flow := mkFlow { f_token : TokenId; f_in : Z; f_out : Z; f_credit : Z; f_debit : Z }.

Definition untracked_value (i : TokenInstance) (a : Z) : Z :=
  match supply i with Untracked => value (decimals i) a | Tracked _ => 0 end.
Definition credited_value (i : TokenInstance) (a : Z) : Z :=
  match supply i with Untracked => 0 | Tracked _ => value (decimals i) a end.

(** A transfer that a chain sent, and one that a chain receives. *)
Definition sent_from (st : State) (src : string) (t : InterchainTransfer) : list Flow :=
  match TOKEN_INSTANCE st !! (src, t_token_id t) with
  | Some i =>
      [mkFlow (t_token_id t) (untracked_value i (t_amount t)) 0 0 (credited_value i (t_amount t))]
  | None => []
  end.
Definition received_at (st : State) (dst : string) (t : InterchainTransfer) : list Flow :=
  match TOKEN_INSTANCE st !! (dst, t_token_id t) with
  | Some j =>
      [mkFlow (t_token_id t) 0 (untracked_value j (t_amount t)) (credited_value j (t_amount t)) 0]
  | None => []
  end.

(** What the destination chain reads in the calls that the hub sends: the messages in their
    payloads. The hub's own chain gets no call, only the event. *)
Definition delivered (st : State) (env : Env) (dst : string) (r : IResponse) : list Message :=
  match messages r with
  | [] => match events r with MessageReceived _ _ m :: _ => [m] | _ => [] end
  | calls => omap (λ '(CallContractAt _ call),
      cfg ← CHAIN_CONFIGS st !! dst;
      match from_bytes env (msg_translator cfg) (axelarnet_gateway.c_payload call) with
      | Some (ReceiveFromHub _ m) => Some m
      | _ => None
      end) calls
  end.

Definition transfers (ms : list Message) : list InterchainTransfer :=
  omap (λ m, match m with MInterchainTransfer t => Some t | _ => None end) ms.

(** The flows of an accepted call: the transfer that was received, and those that are sent on; a
    supply changed, or registered, by the operator. *)
Definition flows (st : State) (env : Env) (m : ExecuteMsg) (r : IResponse) : list Flow :=
  match m with
  | Execute x =>
      let src := router_api.source_chain (axelarnet_gateway.ext_cc_id x) in
      match hub_message_from_bytes st env src (axelarnet_gateway.ext_payload x) with
      | Ok (SendToHub dst m) =>
          (t ← transfers [m]; sent_from st src t) ++
          (t ← transfers (delivered st env dst r); received_at st dst t)
      | _ => []
      end
  | ModifySupply c id s =>
      match TOKEN_INSTANCE st !! (c, id), s with
      | Some i, IncreaseSupply a => [mkFlow id (value (decimals i) a) 0 (value (decimals i) a) 0]
      | Some i, DecreaseSupply a => [mkFlow id 0 (value (decimals i) a) 0 (value (decimals i) a)]
      | None, _ => []
      end
  | RegisterP2pTokenInstance _ id _ d (Tracked s) => [mkFlow id (value d s) 0 (value d s) 0]
  | _ => []
  end.

(** The runs with translation contracts of which [P] holds. *)
Inductive run_with (P : Env → Prop) : State → list Flow → Prop :=
  | run_init msg st r : instantiate msg = Ok (st, r) → run_with P st []
  | run_step st l env sender m st' r :
      run_with P st l → msg_wf m → P env → execute st env sender m = Ok (st', r) →
      run_with P st' (l ++ flows st env m r).
Definition run : State → list Flow → Prop := run_with env_wf.

(** A translation contract reads back the messages that it wrote. *)
Definition reads_back (env : Env) : Prop :=
  ∀ a src m payload, to_bytes env a (ReceiveFromHub src m) = Some payload →
    from_bytes env a payload = Some (ReceiveFromHub src m).

Lemma its_inv_instantiate msg st r : instantiate msg = Ok (st, r) → inv st.
Proof.
  unfold instantiate. intros Hf. do 4 (apply bind_Ok in Hf as (? & _ & Hf)). injection Hf as <- _.
  split; cbn; try (intros *; rewrite lookup_empty; done). eauto.
Qed.

Lemma its_run_with_inv P st l : (∀ env, P env → env_wf env) → run_with P st l → inv st.
Proof.
  intros HP. induction 1 as [msg st r Hf|st l env sender m st' r _ Hi Hm He Hf].
  - by eapply its_inv_instantiate.
  - by destruct (its_execute_sound _ _ _ _ _ _ Hf Hm (HP _ He) Hi).
Qed.
Lemma its_run_inv st l : run st l → inv st.
Proof. by apply its_run_with_inv. Qed.

Definition total (f : Flow → Z) (id : TokenId) (l : list Flow) : Z :=
  sum_list ((λ x, if bool_decide (f_token x = id) then f x else 0) <$> l).

Definition step (st st' : State) : Prop :=
  ∃ env sender m r, msg_wf m ∧ env_wf env ∧ execute st env sender m = Ok (st', r).

Lemma its_steps_keep st st' : inv st → rtc step st st' → inv st' ∧ keeps st st'.
Proof.
  intros Hi Hs. induction Hs as [st|st st1 st' (env & sender & m & r & Hm & He & Hf) _ IH].
  - split; [done|apply its_keeps_refl].
  - destruct (its_execute_sound _ _ _ _ _ _ Hf Hm He Hi) as [Hi1 K1]. destruct (IH Hi1) as [Hi2 K2].
    split; [done|by eapply its_keeps_trans].
Qed.

(** C29: The amount a transfer delivers is computed exactly. For two chains where a token is
    deployed, the computation (with its checked power, division and multiplication in 256 bits)
    succeeds exactly when the amount in the units of the destination, rounded down, is positive,
    fits 256 bits, and when the decimals differ fits the width of the destination chain; and then
    it returns that amount: no intermediate overflow refuses a deliverable amount. *)
Theorem destination_amount_exact st l src dst id i j cfg a b :
  run st l → TOKEN_INSTANCE st !! (src, id) = Some i → TOKEN_INSTANCE st !! (dst, id) = Some j →
  CHAIN_CONFIGS st !! dst = Some cfg → nonempty_u256 a →
  destination_amount st src dst id a = Ok b ↔
  (b = a * 10 ^ decimals j / 10 ^ decimals i ∧ 0 < b ≤ u256_max ∧
   (decimals i ≠ decimals j → b < 2 ^ num_bits_into (max_uint_bits (truncation cfg)))).
Proof. intros Hi%its_run_inv. apply destination_amount_spec. done. Qed.

(** What the token service has recorded is never redefined: in every later state a token
    deployed on a chain is still deployed there with the same decimals, its origin is the same,
    and the metadata of a custom token is the same. *)
Theorem tokens_never_redefined st l st' :
  run st l → rtc step st st' →
  (∀ c id i, TOKEN_INSTANCE st !! (c, id) = Some i →
     ∃ i', TOKEN_INSTANCE st' !! (c, id) = Some i' ∧ decimals i' = decimals i) ∧
  TOKEN_CONFIGS st ⊆ TOKEN_CONFIGS st' ∧ CUSTOM_TOKEN_METADATA st ⊆ CUSTOM_TOKEN_METADATA st' ∧
  (∀ c id i, TOKEN_INSTANCE st' !! (c, id) = Some i → is_Some (TOKEN_CONFIGS st' !! id)).
Proof.
  intros Hi%its_run_inv Hs. destruct (its_steps_keep _ _ Hi Hs) as [Hi' K]. split_and!.
  - intros c id i Hl. exact (keeps_instance _ _ K _ _ Hl).
  - apply K.
  - apply K.
  - intros c id i. by apply inv_token.
Qed.

Lemma gateway_permission st sender x c :
  CONFIG st = Some c →
  msgs_derive.ensure_permissions permissions (roles st) (perm st) sender (Execute x) = Ok (Execute x)
  ↔ sender = axelarnet_gateway c.
Proof.
  intros Hc. rewrite (msgs_derive.ensure_permissions_specific _ _ _ _ _ "gateway") by done.
  change (roles st "gateway" sender (Execute x)) with (match_gateway st sender).
  unfold match_gateway, load_config. rewrite Hc. cbn. split.
  - intros [= Hd]. by apply bool_decide_eq_true in Hd.
  - intros ->. by rewrite bool_decide_eq_true_2.
Qed.

Lemma not_frozen_Ok st c u :
  ensure_chain_not_frozen st c = Ok u ↔
  ∃ cfg, CHAIN_CONFIGS st !! c = Some cfg ∧ frozen cfg = false.
Proof.
  unfold ensure_chain_not_frozen, is_chain_frozen, state_err.
  destruct (CHAIN_CONFIGS st !! c) as [cfg|] eqn:Hc; cbn.
  - destruct (frozen cfg) eqn:Hf, u; cbn; split; try done.
    + intros (cfg' & Heq & Hn). congruence.
    + intros _. by exists cfg.
  - split; [done|by intros (? & ? & _)].
Qed.

Lemma source_address_Ok st c a u :
  ensure_is_its_source_address st c a = Ok u ↔ may_load_its_contract st c = Some a.
Proof.
  unfold ensure_is_its_source_address, load_its_contract, state_err.
  destruct (may_load_its_contract st c) as [x|]; cbn; [|done]. destruct u.
  case_bool_decide; cbn; split; try done; naive_solver.
Qed.

(** What is sent for a message of the hub: nothing for this chain, else one call to the contract
    registered for the destination. *)
Definition forwarded (c : Config) (axelar dst address payload : string) : list OutMsg :=
  if bool_decide (dst = axelar) then []
  else [CallContractAt (axelarnet_gateway c)
          (axelarnet_gateway.mkCall (chain.normalize dst) address payload)].

Lemma send_to_destination_Ok st env dst payload r c :
  CONFIG st = Some c →
  send_to_destination st env dst payload = Ok r ↔
  ∃ axelar, axelar_chain env = Some axelar ∧ events r = [] ∧
    (dst = axelar ∧ messages r = [] ∨
     ∃ a, dst ≠ axelar ∧ may_load_its_contract st dst = Some a ∧
          messages r = forwarded c axelar dst a payload).
Proof.
  intros Hc. unfold send_to_destination, axelar_chain_name, load_config, load_its_contract, forwarded.
  rewrite Hc. cbn. destruct (axelar_chain env) as [ax|]; cbn; [|split; [done|by intros (? & ? & _)]].
  destruct r as [ms es]. case_bool_decide as Hd; cbn.
  - split; [intros [= <- <-]; exists ax; split_and!; try done; by left|].
    intros (ax' & [= <-] & -> & [[_ ->]|(a & Hn & _)]); done.
  - destruct (may_load_its_contract st dst) as [a|]; cbn.
    + split; [intros [= <- <-]; exists ax; split_and!; try done; right; exists a; by rewrite bool_decide_eq_false_2|].
      intros (ax' & [= <-] & -> & [[? _]|(a' & _ & [= <-] & ->)]); [done|].
      by rewrite bool_decide_eq_false_2.
    + split; [done|]. intros (ax' & [= <-] & _ & [[? _]|(a' & _ & ? & _)]); done.
Qed.

(** Applying a message changes tokens only. *)
Lemma deploy_source_frame st c id d st' :
  deploy_token_to_source_chain st c id d = Ok st' →
  CHAIN_CONFIGS st' = CHAIN_CONFIGS st ∧ CONFIG st' = CONFIG st.
Proof.
  unfold deploy_token_to_source_chain. intros Hf.
  destruct (may_load_token_config st id); [|by injection Hf as <-].
  apply bind_Ok in Hf as ([] & _ & Hf). by injection Hf as <-.
Qed.

Lemma deploy_destination_frame st c id d ty st' :
  deploy_token_to_destination_chain st c id d ty = Ok st' →
  CHAIN_CONFIGS st' = CHAIN_CONFIGS st ∧ CONFIG st' = CONFIG st.
Proof. intros Hf. apply bind_Ok in Hf as ([] & _ & Hf). by injection Hf as <-. Qed.

Lemma apply_to_hub_frame st src dst m st' m' :
  apply_to_hub st src dst m = Ok (st', m') →
  CHAIN_CONFIGS st' = CHAIN_CONFIGS st ∧ CONFIG st' = CONFIG st.
Proof.
  unfold apply_to_hub. intros Hf. apply bind_Ok in Hf as ([] & _ & Hf).
  apply bind_Ok in Hf as ([] & _ & Hf). destruct m as [t|d|l];
    apply bind_Ok in Hf as ([st1 x] & Hf1 & Hf); injection Hf as <- <-.
  - by apply apply_to_transfer_Ok in Hf1 as (i & s1 & st2 & j & s2 & b & _ & _ & -> & _ & _ & _ & -> & _).
  - unfold apply_to_token_deployment in Hf1. apply bind_Ok in Hf1 as (sta & Ha & Hf1).
    apply bind_Ok in Hf1 as (d1 & _ & Hf1). apply bind_Ok in Hf1 as (stb & Hb & Hf1).
    injection Hf1 as <- _. apply deploy_source_frame in Ha as [Ha Ha'].
    apply deploy_destination_frame in Hb as [Hb Hb']. split; congruence.
  - unfold apply_to_link_token in Hf1. apply bind_Ok in Hf1 as (c1 & _ & Hf1).
    apply bind_Ok in Hf1 as (sta & Ha & Hf1). apply bind_Ok in Hf1 as (c2 & _ & Hf1).
    apply bind_Ok in Hf1 as (stb & Hb & Hf1). injection Hf1 as <- _.
    apply deploy_source_frame in Ha as [Ha Ha']. apply deploy_destination_frame in Hb as [Hb Hb'].
    split; congruence.
Qed.

(** The guards that every message of a chain passes. *)
Definition admitted (st : State) (c : Config) (cs : ChainConfig) (sender : Addr)
    (x : axelarnet_gateway.ExternalMsg) : Prop :=
  sender = axelarnet_gateway c ∧ killswitch.is_contract_active (switch st) = true ∧
  CHAIN_CONFIGS st !! router_api.source_chain (axelarnet_gateway.ext_cc_id x) = Some cs ∧
  its_address cs = axelarnet_gateway.ext_source_address x.

Lemma execute_admitted st env c sender x st' r :
  CONFIG st = Some c →
  execute st env sender (Execute x) = Ok (st', r) ↔
  ∃ cs hub, admitted st c cs sender x ∧
    from_bytes env (msg_translator cs) (axelarnet_gateway.ext_payload x) = Some hub ∧
    match hub with
    | SendToHub dst m => execute_message_on_hub st env (axelarnet_gateway.ext_cc_id x) dst m
    | HRegisterTokenMetadata m => execute_register_token_metadata st
        (router_api.source_chain (axelarnet_gateway.ext_cc_id x)) m
    | ReceiveFromHub _ _ => Err InvalidMessageType
    end = Ok (st', r).
Proof.
  intros Hc. unfold admitted. split.
  - intros [Hp Hf]%its_execute_inner. apply (gateway_permission _ _ _ _ Hc) in Hp.
    unfold execute_message, hub_message_from_bytes, load_chain_config, may_load_chain_config in Hf.
    apply bind_Ok in Hf as ([] & Hk%ensure_Ok & Hf).
    apply bind_Ok in Hf as ([] & Ha%source_address_Ok & Hf). apply bind_Ok in Hf as (hub & Hm & Hf).
    apply bind_Ok in Hm as (cs & Hcs%map_err_Ok%ok_or_Ok & Hm%ok_or_Ok).
    unfold may_load_its_contract in Ha. rewrite Hcs in Ha. injection Ha as Ha.
    exists cs, hub. by split_and!.
  - intros (cs & hub & (Hp & Hk & Hcs & Ha) & Hm & Hf). apply (gateway_permission _ _ x _ Hc) in Hp.
    unfold execute. rewrite Hp. cbn [map_err mbind result_bind].
    unfold execute_message. rewrite Hk. cbn [ensure mbind result_bind].
    assert (ensure_is_its_source_address st (router_api.source_chain (axelarnet_gateway.ext_cc_id x))
      (axelarnet_gateway.ext_source_address x) = Ok tt) as ->.
    { apply source_address_Ok. unfold may_load_its_contract. rewrite Hcs. cbn. by rewrite Ha. }
    unfold hub_message_from_bytes, load_chain_config, may_load_chain_config. rewrite Hcs.
    cbn [ok_or state_err map_err mbind result_bind]. rewrite Hm. cbn [ok_or mbind result_bind].
    by rewrite Hf.
Qed.

(** The message of a chain to another one, accepted. *)
Lemma on_hub_Ok st env cc dst m st' r c :
  CONFIG st = Some c →
  execute_message_on_hub st env cc dst m = Ok (st', r) ↔
  ∃ m' cd payload axelar, apply_to_hub st (router_api.source_chain cc) dst m = Ok (st', m') ∧
    CHAIN_CONFIGS st !! dst = Some cd ∧
    to_bytes env (msg_translator cd) (ReceiveFromHub (router_api.source_chain cc) m') = Some payload ∧
    axelar_chain env = Some axelar ∧
    messages r = forwarded c axelar dst (its_address cd) payload ∧
    events r = [MessageReceived cc dst m'; make_message_event dst m'].
Proof.
  intros Hc. unfold execute_message_on_hub, hub_message_to_bytes, load_chain_config,
    may_load_chain_config. split.
  - intros Hf. apply bind_Ok in Hf as ([st1 m'] & Ha & Hf).
    destruct (apply_to_hub_frame _ _ _ _ _ _ Ha) as [Hf1 Hf2]. apply bind_Ok in Hf as (p & Hp & Hf).
    apply bind_Ok in Hp as (cd & Hcd%map_err_Ok%ok_or_Ok & Hp%ok_or_Ok).
    apply bind_Ok in Hf as (r1 & Hr & Hf). injection Hf as <- <-.
    apply (send_to_destination_Ok _ _ _ _ _ c) in Hr as (ax & Hax & He & Hr); [|congruence].
    exists m', cd, p, ax. rewrite <- Hf1. split_and!; try done.
    + cbn. destruct Hr as [[-> ->]|(a & Hne & Ha' & ->)].
      * unfold forwarded. by rewrite bool_decide_eq_true_2.
      * unfold may_load_its_contract in Ha'. rewrite Hcd in Ha'. by injection Ha' as <-.
    + cbn. by rewrite He.
  - intros (m' & cd & p & ax & Ha & Hcd & Hp & Hax & Hm & He). rewrite Ha. cbn [mbind result_bind].
    destruct (apply_to_hub_frame _ _ _ _ _ _ Ha) as [Hf1 Hf2]. rewrite Hf1, Hcd.
    cbn [ok_or state_err map_err mbind result_bind]. rewrite Hp. cbn [ok_or mbind result_bind].
    assert (send_to_destination st' env dst p = Ok (mkResponse (messages r) [])) as ->.
    { apply (send_to_destination_Ok _ _ _ _ _ c); [congruence|]. exists ax. split_and!; try done. cbn.
      rewrite Hm. unfold forwarded, may_load_its_contract. rewrite Hf1, Hcd.
      destruct (decide (dst = ax)) as [->|Hne]; [left|right; exists (its_address cd)];
        [by rewrite bool_decide_eq_true_2|by rewrite bool_decide_eq_false_2]. }
    cbn. destruct r as [ms es]. cbn in *. by rewrite He.
Qed.

Lemma value_scaled a sd dd :
  0 ≤ a → u8 sd → u8 dd → value dd (scaled a sd dd) ≤ value sd a.
Proof.
  unfold value, scaled, u8. intros Ha Hs Hd.
  assert (0 < 10 ^ sd) as Hps by (apply Z.pow_pos_nonneg; lia).
  assert (0 < 10 ^ dd) as Hpd by (apply Z.pow_pos_nonneg; lia).
  assert (10 ^ (255 - dd) * 10 ^ dd = 10 ^ (255 - sd) * 10 ^ sd) as HT
    by (rewrite <- !Z.pow_add_r by lia; f_equal; lia).
  assert (0 < 10 ^ (255 - dd)) as Hx by (apply Z.pow_pos_nonneg; lia).
  pose proof (Z.mul_div_le (a * 10 ^ dd) (10 ^ sd) Hps) as Hq.
  set (b := a * 10 ^ dd / 10 ^ sd) in *. set (X := 10 ^ (255 - dd)) in *.
  set (Y := 10 ^ (255 - sd)) in *. set (P := 10 ^ dd) in *. set (Q := 10 ^ sd) in *.
  apply (Z.mul_le_mono_pos_r _ _ Q Hps).
  replace (a * Y * Q) with (a * P * X) by nia. nia.
Qed.

Lemma tracked_total_save st c id j i :
  tracked_total (save_token_instance st c id i) j =
  tracked_total st j - from_option (tracked_value j (c, id)) 0 (TOKEN_INSTANCE st !! (c, id))
  + tracked_value j (c, id) i.
Proof. apply map_sum_insert. Qed.

(** Every save adds to the total what the supply of its instance gains. *)
Lemma tracked_value_sub c id i a s j :
  supply_checked_sub (supply i) a = Some s →
  tracked_value j (c, id) (mkInstance s (decimals i)) =
  tracked_value j (c, id) i -
    (if bool_decide (id = j) then credited_value i a else 0).
Proof.
  unfold tracked_value, credited_value, value, supply_checked_sub, checked_sub. intros Hs. cbn.
  case_bool_decide; [|lia]. destruct (supply i); [|injection Hs as <-; lia].
  case_bool_decide; [|done]. injection Hs as <-. lia.
Qed.

Lemma tracked_value_add c id i a s j :
  supply_checked_add (supply i) a = Some s →
  tracked_value j (c, id) (mkInstance s (decimals i)) =
  tracked_value j (c, id) i +
    (if bool_decide (id = j) then credited_value i a else 0).
Proof.
  unfold tracked_value, credited_value, value, supply_checked_add, checked_add. intros Hs. cbn.
  case_bool_decide; [|lia]. destruct (supply i); [|injection Hs as <-; lia].
  case_bool_decide; [|done]. injection Hs as <-. lia.
Qed.

(** Whatever is delivered is the amount sent, in the units of the destination. *)
Lemma destination_amount_scaled st src dst id i j a b :
  inv st → destination_amount st src dst id a = Ok b → nonempty_u256 a →
  TOKEN_INSTANCE st !! (src, id) = Some i → TOKEN_INSTANCE st !! (dst, id) = Some j →
  b = scaled a (decimals i) (decimals j).
Proof.
  intros Hinv Hb Ha Hi Hj. pose proof Hb as Hb0. unfold destination_amount in Hb0.
  destruct (inv_instance _ Hinv _ _ Hi) as [Hdi _].
  rewrite (proj2 (try_load_Ok _ _ _ _) Hi) in Hb0. cbn [mbind result_bind] in Hb0.
  rewrite (proj2 (try_load_Ok _ _ _ _) Hj) in Hb0. cbn [mbind result_bind] in Hb0.
  case_bool_decide as Heq.
  - injection Hb0 as <-. rewrite Heq, scaled_up by (unfold u8 in *; lia).
    by rewrite Z.sub_diag, Z.pow_0_r, Z.mul_1_r.
  - apply bind_Ok in Hb0 as (cfg & Hc%map_err_Ok%ok_or_Ok & _).
    by destruct (proj1 (destination_amount_spec _ _ _ _ _ _ _ _ _ Hinv Hi Hj Hc Ha) Hb).
Qed.

(** The balance of one call: the tracked supplies change by what the tracked chains receive and
    send, and no more is received than was sent. *)
Definition balanced (st st' : State) (l : list Flow) : Prop :=
  ∀ id, tracked_total st' id = tracked_total st id + total f_credit id l - total f_debit id l ∧
    total f_out id l + total f_credit id l ≤ total f_in id l + total f_debit id l.

Lemma balanced_same st st' l :
  (∀ id, tracked_total st' id = tracked_total st id) → l = [] → balanced st st' l.
Proof. intros Hs -> id. rewrite Hs. unfold total. cbn. lia. Qed.

Lemma total_app f id l l' : total f id (l ++ l') = total f id l + total f id l'.
Proof. unfold total. by rewrite fmap_app, sum_list_app. Qed.

Lemma value_split i a : untracked_value i a + credited_value i a = value (decimals i) a.
Proof. unfold untracked_value, credited_value. destruct (supply i); lia. Qed.

(** A transfer moves value out of the source and no more than that into the destination. *)
Lemma transfer_total st src dst t st' t' :
  inv st → apply_to_transfer st src dst t = Ok (st', t') → nonempty_u256 (t_amount t) →
  balanced st st' (sent_from st src t ++ received_at st dst t').
Proof.
  intros Hinv (i & s1 & st1 & j1 & s2 & b & Hi & Hs1 & -> & Hj1 & Hb & Hs2 & -> & ->)%apply_to_transfer_Ok Ha.
  assert (∃ j, TOKEN_INSTANCE st !! (dst, t_token_id t) = Some j ∧
    credited_value j1 b = credited_value j b ∧ untracked_value j b + credited_value j b = value (decimals j) b)
    as (j & Hj & Hu & Hsp).
  { cbn in Hj1. destruct (decide ((dst, t_token_id t) = (src, t_token_id t))) as [Heq|Hne].
    - rewrite Heq, lookup_insert_eq in Hj1. injection Hj1 as <-. exists i. rewrite Heq.
      split_and!; [done| |apply value_split]. unfold credited_value. cbn.
      unfold supply_checked_sub in Hs1. destruct (supply i) as [x|]; [|by injection Hs1 as <-].
      unfold checked_sub in Hs1. case_bool_decide; [|done]. by injection Hs1 as <-.
    - rewrite lookup_insert_ne in Hj1 by done. exists j1. split_and!; [done..|apply value_split]. }
  unfold sent_from, received_at. cbn [t_token_id t_amount]. rewrite Hi, Hj. intros id.
  rewrite !total_app, tracked_total_save, Hj1. cbn [from_option]. rewrite tracked_total_save, Hi.
  cbn [from_option]. rewrite (tracked_value_add _ _ _ _ _ _ Hs2), (tracked_value_sub _ _ _ _ _ _ Hs1).
  unfold total. csimpl.
  rewrite Hu. case_bool_decide; [|cbn; lia].
  assert (value (decimals j) b ≤ value (decimals i) (t_amount t)); [|pose proof (value_split i (t_amount t)); cbn; lia].
  destruct (inv_instance _ Hinv _ _ Hi) as [Hdi _]. destruct (inv_instance _ Hinv _ _ Hj) as [Hdj _].
  enough (b = scaled (t_amount t) (decimals i) (decimals j)) as -> by
    (apply value_scaled; [unfold nonempty_u256 in Ha; lia|done..]).
  by eapply destination_amount_scaled.
Qed.

(** Value is created nowhere else. *)
Lemma tracked_total_new st c id i j :
  TOKEN_INSTANCE st !! (c, id) = None →
  tracked_total (save_token_instance st c id i) j = tracked_total st j + tracked_value j (c, id) i.
Proof. intros Hn. rewrite tracked_total_save, Hn. cbn. lia. Qed.

Lemma deploy_source_total st c id d st' j :
  inv st → deploy_token_to_source_chain st c id d = Ok st' → tracked_total st' j = tracked_total st j.
Proof.
  unfold deploy_token_to_source_chain, may_load_token_config. intros Hi Hf.
  destruct (TOKEN_CONFIGS st !! id) as [cfg|] eqn:Hc.
  - apply bind_Ok in Hf as ([] & _ & Hf). by injection Hf as <-.
  - injection Hf as <-. rewrite tracked_total_new.
    + change (tracked_total (save_token_config _ _ _) j) with (tracked_total st j).
      unfold tracked_value. cbn. case_bool_decide; lia.
    + cbn. destruct (TOKEN_INSTANCE st !! (c, id)) eqn:Hl; [|done].
      destruct (inv_token _ Hi _ _ _ Hl). congruence.
Qed.

Lemma deploy_destination_total st c id d ty st' j :
  deploy_token_to_destination_chain st c id d ty = Ok st' → tracked_total st' j = tracked_total st j.
Proof.
  unfold deploy_token_to_destination_chain, may_load_token_instance. intros Hf.
  apply bind_Ok in Hf as ([] & He%ensure_Ok & Hf). injection Hf as <-.
  rewrite negb_true_iff, bool_decide_eq_false in He. rewrite tracked_total_new.
  - unfold tracked_value, value. destruct ty; cbn; case_bool_decide; lia.
  - by apply eq_None_not_Some.
Qed.

(** What the destination reads is the message that the hub made. *)
Lemma on_hub_delivered st env cc dst m st' r :
  inv st → reads_back env → execute_message_on_hub st env cc dst m = Ok (st', r) →
  ∃ m', apply_to_hub st (router_api.source_chain cc) dst m = Ok (st', m') ∧ delivered st env dst r = [m'].
Proof.
  intros Hi Hrb Hf. destruct (inv_config _ Hi) as [c Hc].
  destruct (proj1 (on_hub_Ok _ _ _ _ _ _ _ _ Hc) Hf) as (m' & cd & p & ax & Ha & Hcd & Hp & _ & Hm & He).
  exists m'. split; [done|]. unfold delivered. rewrite Hm, He. unfold forwarded.
  case_bool_decide; [done|]. cbn. rewrite Hcd. cbn. by rewrite (Hrb _ _ _ _ Hp).
Qed.

Lemma apply_to_hub_balanced st src dst m st' m' :
  inv st → message_wf m → apply_to_hub st src dst m = Ok (st', m') →
  balanced st st' ((t ← transfers [m]; sent_from st src t) ++ (t ← transfers [m']; received_at st dst t)).
Proof.
  intros Hi Hw H1. unfold apply_to_hub in H1.
  apply bind_Ok in H1 as ([] & _ & H1). apply bind_Ok in H1 as ([] & _ & H1).
  destruct m as [t|d|l]; apply bind_Ok in H1 as ([st2 t'] & H1 & H2); injection H2 as <- <-.
  - cbn. rewrite !app_nil_r. eapply transfer_total; [done..|]. by destruct Hw as (_ & _ & _ & ? & _).
  - apply balanced_same; [|done]. intros id. unfold apply_to_token_deployment in H1.
    apply bind_Ok in H1 as (sta & Ha & H1). apply bind_Ok in H1 as (d1 & _ & H1).
    apply bind_Ok in H1 as (stb & Hb & H1). injection H1 as <- _.
    by rewrite (deploy_destination_total _ _ _ _ _ _ _ Hb), (deploy_source_total _ _ _ _ _ _ Hi Ha).
  - apply balanced_same; [|done]. intros id. unfold apply_to_link_token in H1.
    apply bind_Ok in H1 as (c1 & _ & H1). apply bind_Ok in H1 as (sta & Ha & H1).
    apply bind_Ok in H1 as (c2 & _ & H1). apply bind_Ok in H1 as (stb & Hb & H1).
    injection H1 as <- _.
    by rewrite (deploy_destination_total _ _ _ _ _ _ _ Hb), (deploy_source_total _ _ _ _ _ _ Hi Ha).
Qed.

Lemma execute_message_balanced st env x st' r :
  inv st → env_wf env → reads_back env →
  execute_message st env (axelarnet_gateway.ext_cc_id x) (axelarnet_gateway.ext_source_address x)
    (axelarnet_gateway.ext_payload x) = Ok (st', r) →
  balanced st st' (flows st env (Execute x) r).
Proof.
  intros Hi Hw Hrb. unfold execute_message, flows. intros Hf. apply bind_Ok in Hf as ([] & _ & Hf).
  apply bind_Ok in Hf as ([] & _ & Hf). apply bind_Ok in Hf as (m & Hm & Hf). rewrite Hm.
  assert (hub_message_wf m) as Hmw.
  { apply bind_Ok in Hm as (cfg & _ & Hm%ok_or_Ok). by eapply Hw. }
  destruct m as [dst m| |md]; [|done|].
  - destruct (on_hub_delivered _ _ _ _ _ _ _ Hi Hrb Hf) as (m' & Ha & ->).
    apply apply_to_hub_balanced; [done|by destruct Hmw|done].
  - apply balanced_same; [|done]. intros id. unfold execute_register_token_metadata in Hf.
    apply bind_Ok in Hf as ([] & _ & Hf). apply bind_Ok in Hf as (st1 & H1 & Hf). injection Hf as <- _.
    unfold register_custom_token in H1. destruct (may_load_custom_token _ _ _); [|by injection H1 as <-].
    apply bind_Ok in H1 as ([] & _ & H1). by injection H1 as <-.
Qed.

Lemma modify_supply_balanced st env c id s st' r :
  modify_supply st c id s = Ok (st', r) → balanced st st' (flows st env (ModifySupply c id s) r).
Proof.
  unfold modify_supply, flows. intros Hf j. apply bind_Ok in Hf as (i & Hi%ok_or_Ok & Hf).
  apply bind_Ok in Hf as (s' & Hs%ok_or_Ok & Hf). injection Hf as <- _.
  unfold may_load_token_instance in Hi. rewrite Hi, tracked_total_save, Hi. cbn [from_option].
  set (i0 := mkInstance match supply i with Untracked => Tracked 0 | s => s end (decimals i)).
  assert (tracked_value j (c, id) i0 = tracked_value j (c, id) i) as Ht.
  { unfold tracked_value, i0. cbn. by destruct (supply i). }
  assert (∀ a, credited_value i0 a = value (decimals i) a) as Hu by
    (intros a; unfold credited_value, i0; cbn; by destruct (supply i)).
  rewrite <- Ht. unfold total. destruct s as [a|a]; csimpl; rewrite !Z.add_0_r.
  - rewrite (tracked_value_add _ _ i0 _ _ _ Hs), Hu. cbn. case_bool_decide; lia.
  - rewrite (tracked_value_sub _ _ i0 _ _ _ Hs), Hu. cbn. case_bool_decide; lia.
Qed.

Lemma balanced_fold {A} (f : State → A → result Error State) st (l : list A) st' :
  (∀ st x st', f st x = Ok st' → TOKEN_INSTANCE st' = TOKEN_INSTANCE st) →
  try_fold f st l = Ok st' → balanced st st' [].
Proof.
  intros Hf Hfold. apply balanced_same; [|done]. intros id. unfold tracked_total. f_equal.
  refine (try_fold_Ok_ind (λ _ s, TOKEN_INSTANCE s = TOKEN_INSTANCE st) _ _ _ _ Hfold _ _); [done|].
  intros k c s1 s2 Hs _ Hst. rewrite <- Hs. by eapply Hf.
Qed.

Lemma its_execute_balanced st env sender m st' r :
  inv st → msg_wf m → env_wf env → reads_back env → execute st env sender m = Ok (st', r) →
  balanced st st' (flows st env m r).
Proof.
  intros Hi Hm He Hrb [_ Hf]%its_execute_inner.
  destruct m as [x|c id o d s|cs|c id s|cs|c|c| |]; cbn in Hm.
  - by eapply execute_message_balanced.
  - unfold register_p2p_token_instance in Hf. apply bind_Ok in Hf as ([] & _ & Hf).
    apply bind_Ok in Hf as ([] & _ & Hf). apply bind_Ok in Hf as (st1 & H1 & Hf).
    assert (TOKEN_INSTANCE st1 = TOKEN_INSTANCE st) as Hst.
    { destruct (may_load_token_config st id); [|by injection H1 as <-].
      apply bind_Ok in H1 as ([] & _ & H1). by injection H1 as <-. }
    case_bool_decide as Hn; [done|]. injection Hf as <- _. intros j. rewrite tracked_total_new by
      (by apply eq_None_not_Some). unfold tracked_total. rewrite Hst.
    unfold flows, tracked_value, total, value. destruct s; cbn; repeat case_bool_decide; lia.
  - apply bind_Ok in Hf as (st1 & H1 & Hf). injection Hf as <- _. eapply balanced_fold; [|done].
    intros s c s' Hc. apply bind_Ok in Hc as (cfg & _ & Hc).
    destruct (may_load_chain_config _ _); [done|]. by injection Hc as <-.
  - by eapply modify_supply_balanced.
  - apply bind_Ok in Hf as (st1 & H1 & Hf). injection Hf as <- _. eapply balanced_fold; [|done].
    intros s c s' Hc. apply bind_Ok in Hc as (cfg & _ & Hc).
    destruct (may_load_chain_config _ _); [|done]. by injection Hc as <-.
  - apply balanced_same; [|done]. apply bind_Ok in Hf as (st1 & H1%map_err_Ok & Hf). injection Hf as <- _.
    apply bind_Ok in H1 as (y & _ & H1). by injection H1 as <-.
  - apply balanced_same; [|done]. apply bind_Ok in Hf as (st1 & H1%map_err_Ok & Hf). injection Hf as <- _.
    apply bind_Ok in H1 as (y & _ & H1). by injection H1 as <-.
  - apply balanced_same; [|done]. apply bind_Ok in Hf as ([k r1] & _ & Hf). by injection Hf as <- _.
  - apply balanced_same; [|done]. apply bind_Ok in Hf as ([k r1] & _ & Hf). by injection Hf as <- _.
Qed.

Lemma its_run_balanced st l :
  run_with (λ env, env_wf env ∧ reads_back env) st l →
  balanced (mkState (perm st) None None ∅ ∅ ∅ ∅) st l.
Proof.
  induction 1 as [msg st r Hf|st l env sender m st' r Hrun Hb Hm [He Hrb] Hf].
  - unfold instantiate in Hf.
    do 4 (apply bind_Ok in Hf as (? & _ & Hf)). injection Hf as <- _. by apply balanced_same.
  - assert (inv st) as Hi by (eapply its_run_with_inv, Hrun; by intros ? []). intros id.
    pose proof (Hb id) as Hb1.
    pose proof (its_execute_balanced _ _ _ _ _ _ Hi Hm He Hrb Hf id) as Hb2.
    rewrite !total_app.
    change (tracked_total (mkState (perm st') None None ∅ ∅ ∅ ∅) id)
      with (tracked_total (mkState (perm st) None None ∅ ∅ ∅ ∅) id). lia.
Qed.

(** C2: The token service creates no value. Take any run, with translation contracts that read
    back what they wrote, and read the amounts that reach a chain off the payloads that the hub
    sends there. Then, for every token, the value delivered to chains whose supply is not tracked
    (such as its origin) together with all the value the tracked chains may still send back never
    exceeds the value that chains without tracking sent, plus what the operator registered or
    added. And what the tracked chains may still send back is exactly the value delivered to them
    or added by the operator, less what they sent or the operator removed. Amounts are compared in
    one unit across chains with different decimals; in particular no tracked chain can send back
    more than it received, and rounding never creates value. *)
Theorem no_inflation st l id :
  run_with (λ env, env_wf env ∧ reads_back env) st l →
  0 ≤ tracked_total st id ∧ total f_out id l + tracked_total st id ≤ total f_in id l ∧
  tracked_total st id = total f_credit id l - total f_debit id l.
Proof.
  intros Hr. pose proof (its_run_balanced _ _ Hr id) as Hb.
  assert (inv st) as Hi by (eapply its_run_with_inv, Hr; by intros ? []).
  assert (tracked_total (mkState (perm st) None None ∅ ∅ ∅ ∅) id = 0) by apply map_sum_empty.
  split; [|lia]. apply map_sum_nonneg. intros k i Hk. destruct (inv_instance _ Hi _ _ Hk) as [Hd Hs].
  unfold tracked_value, value. case_bool_decide; [|done]. destruct (supply i); [|done].
  destruct Hs as [Hs _]. apply Z.mul_nonneg_nonneg; [done|]. apply Z.pow_nonneg. lia.
Qed.

(** The hub only acts for the Axelarnet gateway on messages of the contract registered for
    their chain, while it is enabled and neither chain is frozen. An accepted message for another
    chain is answered with exactly one call, to the contract registered for that chain, with the
    translated message of the true source chain (for this chain itself, with none); an accepted
    registration of metadata sends nothing. *)
Theorem hub_messages_guarded st l env sender x st' r :
  run st l → execute st env sender (Execute x) = Ok (st', r) →
  let src := router_api.source_chain (axelarnet_gateway.ext_cc_id x) in
  ∃ c cs, CONFIG st = Some c ∧ admitted st c cs sender x ∧ frozen cs = false ∧
  ((∃ m, from_bytes env (msg_translator cs) (axelarnet_gateway.ext_payload x) =
           Some (HRegisterTokenMetadata m) ∧ messages r = []) ∨
   (∃ dst m m' cd payload axelar,
      from_bytes env (msg_translator cs) (axelarnet_gateway.ext_payload x) = Some (SendToHub dst m) ∧
      CHAIN_CONFIGS st !! dst = Some cd ∧ frozen cd = false ∧
      apply_to_hub st src dst m = Ok (st', m') ∧
      to_bytes env (msg_translator cd) (ReceiveFromHub src m') = Some payload ∧
      axelar_chain env = Some axelar ∧
      messages r = if bool_decide (dst = axelar) then []
                   else [CallContractAt (axelarnet_gateway c)
                           (axelarnet_gateway.mkCall (chain.normalize dst) (its_address cd) payload)])).
Proof.
  intros Hi%its_run_inv Hf src. destruct (inv_config _ Hi) as [c Hc].
  apply (execute_admitted _ _ _ _ _ _ _ Hc) in Hf as (cs & hub & Had & Hb & Hf).
  exists c, cs. split; [done|]. split; [done|]. destruct Had as (_ & _ & Hcs & _).
  destruct hub as [dst m| |m]; [|done|].
  - apply (on_hub_Ok _ _ _ _ _ _ _ _ Hc) in Hf as (m' & cd & p & ax & Ha & Hcd & Hp & Hax & Hm & _).
    pose proof Ha as Ha0. unfold apply_to_hub in Ha0.
    apply bind_Ok in Ha0 as ([] & (cs' & Hcs' & Hfs)%not_frozen_Ok & Ha0).
    apply bind_Ok in Ha0 as ([] & (cd' & Hcd' & Hfd)%not_frozen_Ok & _).
    assert (cs' = cs) as -> by congruence. assert (cd' = cd) as -> by congruence.
    split; [done|]. right. by exists dst, m, m', cd, p, ax.
  - unfold execute_register_token_metadata in Hf.
    apply bind_Ok in Hf as ([] & (cs' & Hcs' & Hfs)%not_frozen_Ok & Hf).
    assert (cs' = cs) as -> by congruence. split; [done|]. left. exists m. split; [done|].
    apply bind_Ok in Hf as (st1 & _ & Hf). by injection Hf as _ <-.
Qed.

Definition debit (s : TokenSupply) (a : Z) : TokenSupply :=
  match s with Tracked x => Tracked (x - a) | Untracked => Untracked end.
Definition credit (s : TokenSupply) (a : Z) : TokenSupply :=
  match s with Tracked x => Tracked (x + a) | Untracked => Untracked end.
Definition covers (s : TokenSupply) (a : Z) : Prop :=
  match s with Tracked x => a ≤ x | Untracked => True end.
Definition has_room (s : TokenSupply) (a : Z) : Prop :=
  match s with Tracked x => x + a ≤ u256_max | Untracked => True end.

Lemma supply_sub_spec s a s' : supply_checked_sub s a = Some s' ↔ covers s a ∧ s' = debit s a.
Proof.
  destruct s as [x|]; cbn; [|naive_solver]. unfold checked_sub. case_bool_decide; cbn; naive_solver.
Qed.

Lemma supply_add_spec s a s' : supply_checked_add s a = Some s' ↔ has_room s a ∧ s' = credit s a.
Proof.
  destruct s as [x|]; cbn; [|naive_solver]. unfold checked_add. case_bool_decide; cbn; naive_solver.
Qed.

(** A transfer between two chains. *)
Lemma apply_transfer_spec st src dst t i j cd st' t' :
  inv st → src ≠ dst → nonempty_u256 (t_amount t) →
  TOKEN_INSTANCE st !! (src, t_token_id t) = Some i →
  TOKEN_INSTANCE st !! (dst, t_token_id t) = Some j → CHAIN_CONFIGS st !! dst = Some cd →
  apply_to_transfer st src dst t = Ok (st', t') ↔
  ∃ b, deliverable (t_amount t) (decimals i) (decimals j) (max_uint_bits (truncation cd)) b ∧
    covers (supply i) (t_amount t) ∧ has_room (supply j) b ∧
    t' = mkTransfer (t_token_id t) (t_source_address t) (t_destination_address t) b (t_data t) ∧
    st' = set_instances st
      (<[(dst, t_token_id t) := mkInstance (credit (supply j) b) (decimals j)]>
      (<[(src, t_token_id t) := mkInstance (debit (supply i) (t_amount t)) (decimals i)]>
       (TOKEN_INSTANCE st))).
Proof.
  intros Hinv Hne Ha Hi Hj Hc. rewrite apply_to_transfer_Ok. split.
  - intros (i' & s1 & st1 & j' & s2 & b & Hi' & Hs1 & -> & Hj' & Hb & Hs2 & -> & ->).
    assert (i' = i) as -> by congruence. cbn in Hj'. rewrite lookup_insert_ne in Hj' by congruence.
    assert (j' = j) as -> by congruence. apply supply_sub_spec in Hs1 as [Hs1 ->].
    apply supply_add_spec in Hs2 as [Hs2 ->]. exists b.
    rewrite (destination_amount_spec _ _ _ _ _ _ _ _ _ Hinv Hi Hj Hc Ha) in Hb. by split_and!.
  - intros (b & Hb & Hs1 & Hs2 & -> & ->).
    rewrite <- (destination_amount_spec _ _ _ _ _ _ _ _ _ Hinv Hi Hj Hc Ha) in Hb.
    eexists i, _, _, j, _, b. split_and!; try done.
    + by apply supply_sub_spec.
    + cbn. by rewrite lookup_insert_ne by congruence.
    + by apply supply_add_spec.
Qed.

Section transfer.
Context (st : State) (env : Env) (c : Config) (sender : Addr) (x : axelarnet_gateway.ExternalMsg).
Context (cs cd : ChainConfig) (dst : string) (t : InterchainTransfer) (i j : TokenInstance).

(** When a transfer is accepted, and the instances after it. *)
Definition transfer_guard : Prop :=
  let src := router_api.source_chain (axelarnet_gateway.ext_cc_id x) in
  let b := scaled (t_amount t) (decimals i) (decimals j) in
  admitted st c cs sender x ∧ frozen cs = false ∧ frozen cd = false ∧
  covers (supply i) (t_amount t) ∧ 0 < b ≤ u256_max ∧ has_room (supply j) b ∧
  (decimals i ≠ decimals j → b < 2 ^ num_bits_into (max_uint_bits (truncation cd))) ∧
  is_Some (to_bytes env (msg_translator cd) (ReceiveFromHub src (MInterchainTransfer
    (mkTransfer (t_token_id t) (t_source_address t) (t_destination_address t) b (t_data t))))).

Definition transferred : gmap (string * TokenId) TokenInstance :=
  let src := router_api.source_chain (axelarnet_gateway.ext_cc_id x) in
  let b := scaled (t_amount t) (decimals i) (decimals j) in
  <[(dst, t_token_id t) := mkInstance (credit (supply j) b) (decimals j)]>
    (<[(src, t_token_id t) := mkInstance (debit (supply i) (t_amount t)) (decimals i)]>
     (TOKEN_INSTANCE st)).

Hypothesis Hinv : inv st.
Hypothesis Hc : CONFIG st = Some c.
Let src := router_api.source_chain (axelarnet_gateway.ext_cc_id x).
Hypothesis Hcs : CHAIN_CONFIGS st !! src = Some cs.
Hypothesis Hcd : CHAIN_CONFIGS st !! dst = Some cd.
Hypothesis Hne : src ≠ dst.
Hypothesis Hi : TOKEN_INSTANCE st !! (src, t_token_id t) = Some i.
Hypothesis Hj : TOKEN_INSTANCE st !! (dst, t_token_id t) = Some j.
Hypothesis Hb : from_bytes env (msg_translator cs) (axelarnet_gateway.ext_payload x) =
  Some (SendToHub dst (MInterchainTransfer t)).
Hypothesis Ha : nonempty_u256 (t_amount t).

Lemma transfer_effect st' r :
  execute st env sender (Execute x) = Ok (st', r) →
  transfer_guard ∧ TOKEN_INSTANCE st' = transferred.
Proof.
  intros Hf. apply (execute_admitted _ _ _ _ _ _ _ Hc) in Hf as (cs' & hub & Had & Hb' & Hf).
  assert (cs' = cs) as -> by (destruct Had as (_ & _ & Hcs' & _); fold src in Hcs'; congruence).
  rewrite Hb in Hb'. injection Hb' as <-.
  destruct (proj1 (on_hub_Ok _ _ _ _ _ _ _ _ Hc) Hf) as (m' & cd' & p & ax & Hap & Hcd' & Hp & _).
  assert (cd' = cd) as -> by congruence. unfold apply_to_hub in Hap.
  apply bind_Ok in Hap as ([] & (cs' & Hcs' & Hfs)%not_frozen_Ok & Hap). fold src in Hcs', Hap.
  apply bind_Ok in Hap as ([] & (cd' & Hcd'' & Hfd)%not_frozen_Ok & Hap).
  assert (cs' = cs) as -> by congruence. assert (cd' = cd) as -> by congruence.
  apply bind_Ok in Hap as ([st1 t1] & Hap & Heq). injection Heq as <- <-.
  apply (apply_transfer_spec _ _ _ _ _ _ _ _ _ Hinv Hne Ha Hi Hj Hcd) in Hap
    as (b' & (-> & Hb1 & Hb2) & Hcov & Hroom & -> & ->).
  split; [|done]. split; [done|]. do 3 (split; [done|]). split; [exact Hb1|]. split; [exact Hroom|].
  split; [exact Hb2|]. exists p. exact Hp.
Qed.

Lemma transfer_accept axelar :
  axelar_chain env = Some axelar → transfer_guard →
  is_ok (execute st env sender (Execute x)) = true.
Proof.
  intros Hax (Had & Hfs & Hfd & Hcov & Hb1 & Hroom & Hb2 & [p Hp]).
  assert (∃ st' r, execute st env sender (Execute x) = Ok (st', r)) as (st' & r & ->); [|done].
  eexists (set_instances st transferred), (mkResponse (forwarded c axelar dst (its_address cd) p) [_; _]).
  apply (execute_admitted _ _ _ _ _ _ _ Hc). exists cs, (SendToHub dst (MInterchainTransfer t)).
  split; [done|]. split; [done|]. apply (on_hub_Ok _ _ _ _ _ _ _ _ Hc).
  eexists _, cd, p, axelar. split_and!; try done. unfold apply_to_hub. fold src.
  rewrite (proj2 (not_frozen_Ok st src tt)) by eauto. cbn [mbind result_bind].
  rewrite (proj2 (not_frozen_Ok st dst tt)) by eauto. cbn [mbind result_bind].
  erewrite (proj2 (apply_transfer_spec _ _ _ _ _ _ _ (set_instances st transferred) _
    Hinv Hne Ha Hi Hj Hcd)); [done|].
  eexists. by split_and!.
Qed.
End transfer.

(** C32: A transfer between two registered chains is accepted exactly when it comes from the
    gateway for the contract registered for its source, while the hub is enabled and neither chain
    is frozen, the supply of the source covers it, the amount is deliverable at the destination
    (positive, in range, and the supply there has room for it), and the translation contract
    encodes the message. Then the supply of the source falls by the amount sent, that of the
    destination rises by the amount delivered, and no other instance changes. *)
Theorem transfer_exact st l env c sender x cs cd dst t i j axelar :
  let src := router_api.source_chain (axelarnet_gateway.ext_cc_id x) in
  run st l → env_wf env → CONFIG st = Some c → axelar_chain env = Some axelar →
  CHAIN_CONFIGS st !! src = Some cs → CHAIN_CONFIGS st !! dst = Some cd → src ≠ dst →
  TOKEN_INSTANCE st !! (src, t_token_id t) = Some i →
  TOKEN_INSTANCE st !! (dst, t_token_id t) = Some j →
  from_bytes env (msg_translator cs) (axelarnet_gateway.ext_payload x) =
    Some (SendToHub dst (MInterchainTransfer t)) →
  (is_ok (execute st env sender (Execute x)) = true ↔
   transfer_guard st env c sender x cs cd t i j) ∧
  (∀ st' r, execute st env sender (Execute x) = Ok (st', r) →
   TOKEN_INSTANCE st' = transferred st x dst t i j).
Proof.
  intros src Hinv%its_run_inv Hw Hc Hax Hcs Hcd Hne Hi Hj Hb.
  assert (nonempty_u256 (t_amount t)) as Ha by (destruct (Hw _ _ _ Hb) as (_ & _ & _ & _ & Ha & _); done).
  split; [split|].
  - intros [[st' r] Hf]%is_ok_true. by eapply transfer_effect.
  - by eapply transfer_accept.
  - intros st' r Hf. by eapply transfer_effect.
Qed.

(** Updating the configuration of a chain unfreezes it: after an accepted [UpdateChains]
    every chain it names is active, frozen before or not, so that its messages are accepted again
    without a call of [UnfreezeChain]. *)
Theorem update_chains_unfreezes st env sender cs st' r :
  execute st env sender (UpdateChains cs) = Ok (st', r) →
  ∀ input, input ∈ cs → ∃ cfg, CHAIN_CONFIGS st' !! c_chain input = Some cfg ∧ frozen cfg = false.
Proof.
  intros [_ Hf]%its_execute_inner. apply bind_Ok in Hf as (st1 & Hf & Hr). injection Hr as <- _.
  refine (try_fold_Ok_ind (λ k s, ∀ input, input ∈ k →
    ∃ cfg, CHAIN_CONFIGS s !! c_chain input = Some cfg ∧ frozen cfg = false) _ _ _ _ Hf _ _).
  - intros input Hin. by apply not_elem_of_nil in Hin.
  - intros k x s1 s2 IH _ Hx input Hin. unfold update_chain, chain_config_new in Hx.
    apply bind_Ok in Hx as (cfg & Hcfg%map_err_Ok & Hx). apply bind_Ok in Hcfg as (a & _ & Hcfg).
    injection Hcfg as <-. destruct (may_load_chain_config s1 _); [|done]. injection Hx as <-. cbn.
    destruct (decide (c_chain input = c_chain x)) as [->|Hne].
    + rewrite lookup_insert_eq. by eexists.
    + rewrite lookup_insert_ne by done. apply elem_of_app in Hin as [Hin|Hin]; [by apply IH|].
      apply list_elem_of_singleton in Hin as ->. done.
Qed.

End handlers.
End its.

(** ** A run: two chains, a deployment and transfers *)
Module its_run.
Import its_std its.

Definition run_api : Api := {| addr_validate := λ s, Ok s |}.
Definition run_crypto : Crypto :=
  Build_Crypto (λ s, s) (λ _ _ _, Some true) (λ _ _ _, Some true) Some Some.
#[local] Existing Instances run_api run_crypto.

Definition run_token : TokenId := "0123456789abcdef0123456789abcdef".
Definition run_token2 : TokenId := "fedcba9876543210fedcba9876543210".
Definition run_transfer (id : TokenId) (a : Z) : InterchainTransfer :=
  mkTransfer id "alice" "bob" a None.

#[local] Instance InterchainTransfer_eq_dec : EqDecision InterchainTransfer.
Proof. solve_decision. Defined.
#[local] Instance DeployInterchainToken_eq_dec : EqDecision DeployInterchainToken.
Proof. solve_decision. Defined.
#[local] Instance LinkToken_eq_dec : EqDecision LinkToken.
Proof. solve_decision. Defined.
#[local] Instance RegisterTokenMetadata_eq_dec : EqDecision RegisterTokenMetadata.
Proof. solve_decision. Defined.
#[local] Instance Message_eq_dec : EqDecision Message.
Proof. solve_decision. Defined.
#[local] Instance HubMessage_eq_dec : EqDecision HubMessage.
Proof. solve_decision. Defined.

(** The payloads of the run and what they mean. *)
Definition run_payloads : list (string * HubMessage) :=
  [("deploy", SendToHub "sui" (MDeployInterchainToken (mkDeploy run_token "Token" "TKN" 18 None)));
   ("deployed", ReceiveFromHub "ethereum" (MDeployInterchainToken (mkDeploy run_token "Token" "TKN" 6 None)));
   ("deploy2", SendToHub "sui" (MDeployInterchainToken (mkDeploy run_token2 "Token" "TKN" 6 None)));
   ("deployed2", ReceiveFromHub "ethereum" (MDeployInterchainToken (mkDeploy run_token2 "Token" "TKN" 6 None)));
   ("send", SendToHub "sui" (MInterchainTransfer (run_transfer run_token 5000000000000000007)));
   ("sent", ReceiveFromHub "ethereum" (MInterchainTransfer (run_transfer run_token 5000000)));
   ("send2", SendToHub "sui" (MInterchainTransfer (run_transfer run_token2 (2 ^ 100))));
   ("sent2", ReceiveFromHub "ethereum" (MInterchainTransfer (run_transfer run_token2 (2 ^ 100))));
   ("back", SendToHub "ethereum" (MInterchainTransfer (run_transfer run_token 2000000)));
   ("sent back", ReceiveFromHub "sui" (MInterchainTransfer (run_transfer run_token 2000000000000000000)))].

Definition run_env : Env :=
  mkEnv (λ _ payload, snd <$> find (λ p, bool_decide (p.1 = payload)) run_payloads)
    (λ _ m, fst <$> find (λ p, bool_decide (p.2 = m)) run_payloads) (Some "axelarnet").

Lemma run_payload p m : (p, m) ∈ run_payloads →
  hub_message_wf m ∧ find (λ q, bool_decide (q.1 = p)) run_payloads = Some (p, m).
Proof.
  intros H. unfold run_payloads in H.
  repeat (apply elem_of_cons in H as [[= -> ->]|H];
    [split; [repeat split; try done; vm_compute; congruence|vm_compute; reflexivity]|]). inversion H.
Qed.
Lemma its_run_env_wf : env_wf run_env.
Proof.
  intros a payload m ([q m'] & [Hin%list_elem_of_In _]%find_some & ->)%fmap_Some.
  by destruct (run_payload _ _ Hin).
Qed.
Lemma its_run_reads_back : reads_back run_env.
Proof.
  intros a src m payload ([q m'] & [Hin%list_elem_of_In Hm%bool_decide_eq_true]%find_some & ->)%fmap_Some.
  cbn in Hm. subst m'. destruct (run_payload _ _ Hin) as [_ Hf]. cbn [from_bytes run_env fst].
  by rewrite Hf.
Qed.

Definition run_chain (name : string) (bits : Z) : MsgChainConfig :=
  mkMsgChainConfig name "its" (mkTruncation bits 6) "translator".
Definition run_call (i payload : string) : ExecuteMsg :=
  Execute (axelarnet_gateway.mkExternal (router_api.mkCcId "ethereum" i) "its" payload).

(** The calls of the run, with their senders. *)
Definition run_calls : list (Addr * ExecuteMsg) :=
  [("governance", RegisterChains [run_chain "ethereum" 255; run_chain "sui" 63]);
   ("gateway", run_call "1" "deploy"); ("gateway", run_call "2" "deploy2");
   ("gateway", run_call "3" "send"); ("admin", FreezeChain "sui")].

Definition next (p : State * list Flow) (call : Addr * ExecuteMsg) : State * list Flow :=
  match execute p.1 run_env call.1 call.2 with
  | Ok (st', r) => (st', p.2 ++ flows p.1 run_env call.2 r)
  | _ => p
  end.

Definition run0 : State * list Flow :=
  (mkState (permission_control.mkStorage (Some "admin") (Some "governance"))
    (Some killswitch.Disengaged) (Some (mkConfig "gateway" "operator")) ∅ ∅ ∅ ∅, []).
Definition runs (n : nat) : State * list Flow := foldl next run0 (take n run_calls).

Lemma its_next_run (P : Env → Prop) p call :
  P run_env → run_with P p.1 p.2 → msg_wf call.2 → run_with P (next p call).1 (next p call).2.
Proof.
  intros HP Hr Hm. unfold next.
  destruct (execute p.1 run_env call.1 call.2) as [[st' r]| |] eqn:Hf; [|done..].
  exact (run_step _ _ _ _ _ _ _ _ Hr Hm HP Hf).
Qed.

Lemma its_run_calls_wf : Forall (λ call, msg_wf call.2) run_calls.
Proof. repeat constructor; vm_compute; congruence. Qed.

Lemma its_runs_with (P : Env → Prop) n : P run_env → run_with P (runs n).1 (runs n).2.
Proof.
  intros HP. unfold runs. pose proof (Forall_take _ n _ its_run_calls_wf) as Hw.
  assert (run_with P run0.1 run0.2) as H0.
  { apply (run_init _ (mkInstantiate "governance" "admin" "operator" "gateway") _ Response_new). reflexivity. }
  revert Hw H0. generalize run0. induction (take n run_calls) as [|call l IH]; intros p Hw H0; [done|].
  apply Forall_cons in Hw as [Hm Hw]. apply IH; [done|]. by apply its_next_run.
Qed.
Lemma its_runs n : run (runs n).1 (runs n).2.
Proof. apply its_runs_with, its_run_env_wf. Qed.

(** Some of the tokens are sent back to the chain that they come from. *)
Definition run_back : State * list Flow :=
  next (runs 4) ("gateway", Execute (axelarnet_gateway.mkExternal (router_api.mkCcId "sui" "4") "its" "back")).
Lemma its_run_back : run_with (λ env, env_wf env ∧ reads_back env) run_back.1 run_back.2.
Proof.
  apply its_next_run; [exact (conj its_run_env_wf its_run_reads_back)| |exact I].
  apply its_runs_with. exact (conj its_run_env_wf its_run_reads_back).
Qed.

(** Of the value sent to the tracked chain, some came back and the rest may still. *)
Lemma no_inflation_witness :
  total f_out run_token run_back.2 = value 18 2000000000000000000 ∧
  0 < tracked_total run_back.1 run_token ∧
  total f_out run_token run_back.2 + tracked_total run_back.1 run_token
    ≤ total f_in run_token run_back.2.
Proof.
  split; [vm_compute; reflexivity|]. split; [vm_compute; reflexivity|].
  exact (proj1 (proj2 (no_inflation _ _ run_token its_run_back))).
Defined.

Definition run_source : TokenInstance := mkInstance Untracked 18.
Definition run_destination : TokenInstance := mkInstance (Tracked 0) 6.
Definition run_config (bits : Z) : ChainConfig :=
  mkChainConfig (mkTruncation bits 6) "its" false "translator".

(** Of 5000000000000000007 units of 18 decimals, 5000000 units of 6 decimals arrive. *)
Lemma destination_amount_exact_witness :
  destination_amount (runs 3).1 "ethereum" "sui" run_token 5000000000000000007 = Ok 5000000.
Proof.
  apply (destination_amount_exact _ _ "ethereum" "sui" run_token run_source run_destination
    (run_config 63) 5000000000000000007 5000000 (its_runs 3)); try (vm_compute; reflexivity);
    repeat split; vm_compute; congruence.
Defined.

Lemma tokens_never_redefined_witness :
  ∃ i', TOKEN_INSTANCE (runs 3).1 !! ("sui", run_token) = Some i' ∧ decimals i' = 6.
Proof.
  destruct (tokens_never_redefined _ _ _ (its_runs 3) (rtc_refl _ _)) as (Hk & _).
  exact (Hk "sui" run_token run_destination ltac:(vm_compute; reflexivity)).
Defined.

Definition response (p : State * list Flow) (call : Addr * ExecuteMsg) : IResponse :=
  match execute p.1 run_env call.1 call.2 with Ok (_, r) => r | _ => Response_new end.

Lemma its_next_Ok p call :
  is_ok (execute p.1 run_env call.1 call.2) = true →
  execute p.1 run_env call.1 call.2 = Ok ((next p call).1, response p call).
Proof. unfold next, response. by destruct (execute p.1 run_env call.1 call.2) as [[]| |]. Qed.

Lemma its_run4 : runs 4 = next (runs 3) ("gateway", run_call "3" "send").
Proof. reflexivity. Qed.

Definition run4_response : IResponse := response (runs 3) ("gateway", run_call "3" "send").

Lemma its_run4_Ok :
  execute (runs 3).1 run_env "gateway" (run_call "3" "send") = Ok ((runs 4).1, run4_response).
Proof.
  rewrite its_run4. apply (its_next_Ok _ ("gateway", run_call "3" "send")). vm_compute. reflexivity.
Qed.

Lemma hub_messages_guarded_witness :
  messages run4_response = [CallContractAt "gateway" (axelarnet_gateway.mkCall "sui" "its" "sent")] ∧
  ∃ c cs, CONFIG (runs 3).1 = Some c ∧ frozen cs = false ∧
    admitted (runs 3).1 c cs "gateway"
      (axelarnet_gateway.mkExternal (router_api.mkCcId "ethereum" "3") "its" "send").
Proof.
  split; [vm_compute; reflexivity|].
  destruct (hub_messages_guarded _ _ _ _ _ _ _ (its_runs 3) its_run4_Ok)
    as (c & cs & Hc & Had & Hf & _).
  exists c, cs. exact (conj Hc (conj Hf Had)).
Defined.

Lemma transfer_exact_witness :
  is_ok (execute (runs 3).1 run_env "gateway" (run_call "3" "send")) = true.
Proof.
  refine (proj2 (proj1 (transfer_exact _ _ run_env (mkConfig "gateway" "operator") "gateway"
    (axelarnet_gateway.mkExternal (router_api.mkCcId "ethereum" "3") "its" "send")
    (run_config 255) (run_config 63) "sui" (run_transfer run_token 5000000000000000007)
    run_source run_destination "axelarnet" (its_runs 3) its_run_env_wf _ _ _ _ _ _ _ _)) _);
    try (vm_compute; reflexivity); try discriminate.
  repeat split; try (vm_compute; congruence). exists "sent". vm_compute. reflexivity.
Defined.

(** A frozen chain is active again after an update of its configuration. *)
Lemma update_chains_unfreezes_witness :
  frozen <$> CHAIN_CONFIGS (runs 5).1 !! "sui" = Some true ∧
  ∃ st' r cfg, execute (runs 5).1 run_env "governance" (UpdateChains [run_chain "sui" 63]) =
      Ok (st', r) ∧
    CHAIN_CONFIGS st' !! "sui" = Some cfg ∧ frozen cfg = false.
Proof.
  split; [vm_compute; reflexivity|].
  destruct (is_ok_true (execute (runs 5).1 run_env "governance" (UpdateChains [run_chain "sui" 63])))
    as [[st' r] Hf]; [vm_compute; reflexivity|].
  destruct (update_chains_unfreezes _ _ _ _ _ _ Hf (run_chain "sui" 63) ltac:(left)) as (cfg & Hc & Hz).
  exists st', r, cfg. exact (conj Hf (conj Hc Hz)).
Defined.

Definition run_wide : result ExecuteError (State * IResponse) :=
  execute (runs 3).1 run_env "gateway" (run_call "9" "send2").

(** An amount that does not fit the destination chain is delivered when the decimals are
    equal. In a run with a chain of 64-bit amounts, a transfer of 2^100 units of a token with six
    decimals on both chains is accepted and the supply on that chain becomes 2^100. *)
Theorem narrow_chain_receives_wide_amount :
  run (runs 3).1 (runs 3).2 ∧
  num_bits_into (max_uint_bits (truncation (run_config 63))) = 64 ∧
  CHAIN_CONFIGS (runs 3).1 !! "sui" = Some (run_config 63) ∧
  ∃ p, execute (runs 3).1 run_env "gateway" (run_call "9" "send2") = Ok p ∧
    TOKEN_INSTANCE p.1 !! ("sui", run_token2) = Some (mkInstance (Tracked (2 ^ 100)) 6).
Proof.
  split; [exact (its_runs 3)|]. split; [reflexivity|]. split; [vm_compute; reflexivity|].
  fold run_wide.
  assert (match run_wide with
          | Ok p => TOKEN_INSTANCE p.1 !! ("sui", run_token2)
          | _ => None
          end = Some (mkInstance (Tracked (2 ^ 100)) 6)) as Hw by (vm_compute; reflexivity).
  destruct run_wide as [p| |]; [|discriminate Hw..]. exists p. exact (conj eq_refl Hw).
Qed.

End its_run.
