(* ===== verification/ItsAbi.v ===== *)
(** * The ABI translation contract of the token service

    [contracts/its-abi-translator/src]: the payloads of the token service on EVM chains
    ([abi.rs]) and the two queries of the contract ([contract/query.rs], [contract.rs]).

    Encoding of a sequence of parameters is code of a library ([alloy_sol_types]): the class
    [AbiCodec] is what the contract uses of it, with the laws of the ABI specification. The
    module [abi_codec] has the encoding of that specification, an instance of the class. *)

From S2P Require Import Prelude Std MsgId RouterApi Multisig Router AxelarnetGateway Its.

(** ** Parameters *)

Inductive AbiType := TUint256 | TUint8 | TBytes32 | TBytes | TString.

Inductive AbiValue :=
  | VUint256 (n : Z)
  | VUint8 (n : Z)
  | VBytes32 (b : string)
  | VBytes (b : string)
  | VString (s : string).

Definition type_of (v : AbiValue) : AbiType :=
  match v with
  | VUint256 _ => TUint256
  | VUint8 _ => TUint8
  | VBytes32 _ => TBytes32
  | VBytes _ => TBytes
  | VString _ => TString
  end.

Notation bytes_len s := (Z.of_nat (String.length s)).

(** The library: [abi_encode_params], and [abi_decode_params] with validation, which accepts
    only the encoding of what it returns. *)
Class AbiOps := {
  abi_encode_params : list AbiValue → string;
  abi_decode_params : list AbiType → string → option (list AbiValue);
  valid_utf8 : string → Prop
}.

Definition abi_wf `{AbiOps} (v : AbiValue) : Prop :=
  match v with
  | VUint256 n => 0 ≤ n ≤ u256_max
  | VUint8 n => 0 ≤ n ≤ 255
  | VBytes32 b => String.length b = 32%nat
  | VBytes _ => True
  | VString s => valid_utf8 s
  end.

Class AbiCodec := {
  #[global] abi_ops :: AbiOps;
  utf8_ascii s : chain.is_ascii s = true → valid_utf8 s;
  abi_decode_encode vs : Forall abi_wf vs → bytes_len (abi_encode_params vs) ≤ u32_max →
    abi_decode_params (type_of <$> vs) (abi_encode_params vs) = Some vs;
  abi_decode_sound ts p vs : abi_decode_params ts p = Some vs →
    type_of <$> vs = ts ∧ Forall abi_wf vs ∧ abi_encode_params vs = p;
  abi_first_word n vs : 0 ≤ n ≤ u256_max →
    String.substring 0 32 (abi_encode_params (VUint256 n :: vs)) = to_be_bytes 32 n;
  abi_contains b vs : VBytes b ∈ vs → bytes_len b ≤ bytes_len (abi_encode_params vs)
}.

(** ** Bytes of a word *)

Lemma substring_length i n s : (String.length (String.substring i n s) ≤ String.length s)%nat.
Proof.
  revert i n. induction s as [|c s IH]; intros [|i] [|n]; cbn; try lia.
  - specialize (IH 0%nat n). lia.
  - specialize (IH i 0%nat). lia.
  - specialize (IH i (S n)). lia.
Qed.

(** ** The contract *)
Module its_abi.
Import its_std.

Inductive MessageType :=
  | TInterchainTransfer
  | TDeployInterchainToken
  | TDeployTokenManager
  | TSendToHub
  | TReceiveFromHub
  | TLinkToken
  | TRegisterTokenMetadata.

(** [From<MessageType> for U256] *)
Definition message_type_code (t : MessageType) : Z :=
  match t with
  | TInterchainTransfer => 0
  | TDeployInterchainToken => 1
  | TDeployTokenManager => 2
  | TSendToHub => 3
  | TReceiveFromHub => 4
  | TLinkToken => 5
  | TRegisterTokenMetadata => 6
  end.

(** [MessageType::abi_decode] of one word. *)
Definition decode_message_type (word : string) : option MessageType :=
  let n := be_val (text_of word) in
  if bool_decide (n = 0) then Some TInterchainTransfer
  else if bool_decide (n = 1) then Some TDeployInterchainToken
  else if bool_decide (n = 2) then Some TDeployTokenManager
  else if bool_decide (n = 3) then Some TSendToHub
  else if bool_decide (n = 4) then Some TReceiveFromHub
  else if bool_decide (n = 5) then Some TLinkToken
  else if bool_decide (n = 6) then Some TRegisterTokenMetadata
  else None.

Inductive Error :=
  | InsufficientMessageLength
  | InvalidMessageType
  | InvalidChainName
  | NonEmpty
  | AbiDecodeFailed.

Definition into_vec (value : option string) : string := default EmptyString value.

Definition from_vec (value : string) : option string :=
  if bool_decide (value = EmptyString) then None else Some value.

#[local] Arguments into_vec : simpl never.
#[local] Arguments from_vec : simpl never.

(** The fields of the structures, in the order of their declaration. *)
Definition message_type (m : Message) : MessageType :=
  match m with
  | MInterchainTransfer _ => TInterchainTransfer
  | MDeployInterchainToken _ => TDeployInterchainToken
  | MLinkToken _ => TLinkToken
  end.

Definition message_fields (m : Message) : list AbiValue :=
  match m with
  | MInterchainTransfer t =>
      [VBytes32 (t_token_id t); VBytes (t_source_address t); VBytes (t_destination_address t);
       VUint256 (t_amount t); VBytes (into_vec (t_data t))]
  | MDeployInterchainToken d =>
      [VBytes32 (d_token_id d); VString (d_name d); VString (d_symbol d); VUint8 (d_decimals d);
       VBytes (into_vec (d_minter d))]
  | MLinkToken l =>
      [VBytes32 (l_token_id l); VUint256 (l_token_manager_type l);
       VBytes (l_source_token_address l); VBytes (l_destination_token_address l);
       VBytes (into_vec (l_params l))]
  end.

Definition interchain_transfer_types : list AbiType :=
  [TUint256; TBytes32; TBytes; TBytes; TUint256; TBytes].
Definition deploy_types : list AbiType := [TUint256; TBytes32; TString; TString; TUint8; TBytes].
Definition link_types : list AbiType := [TUint256; TBytes32; TUint256; TBytes; TBytes; TBytes].
Definition hub_types : list AbiType := [TUint256; TString; TBytes].
Definition metadata_types : list AbiType := [TUint256; TBytes; TUint8].

Definition nonempty_bytes (b : string) : result Error string :=
  map_err (λ _, NonEmpty) (nonempty.string_try_from b).

Definition nonempty_uint (n : Z) : result Error Z :=
  if bool_decide (n = 0) then Err NonEmpty else Ok n.

Section translation.
Context `{AbiCodec}.

Definition message_abi_encode (m : Message) : string :=
  abi_encode_params (VUint256 (message_type_code (message_type m)) :: message_fields m).

Definition decode_transfer (payload : string) : result Error Message :=
  match abi_decode_params interchain_transfer_types payload with
  | Some [VUint256 _; VBytes32 token_id; VBytes source; VBytes destination; VUint256 amount;
          VBytes data] =>
      source ← nonempty_bytes source;
      destination ← nonempty_bytes destination;
      amount ← nonempty_uint amount;
      Ok (MInterchainTransfer (mkTransfer token_id source destination amount (from_vec data)))
  | _ => Err AbiDecodeFailed
  end.

Definition decode_deploy (payload : string) : result Error Message :=
  match abi_decode_params deploy_types payload with
  | Some [VUint256 _; VBytes32 token_id; VString name; VString symbol; VUint8 decimals;
          VBytes minter] =>
      name ← nonempty_bytes name;
      symbol ← nonempty_bytes symbol;
      Ok (MDeployInterchainToken (mkDeploy token_id name symbol decimals (from_vec minter)))
  | _ => Err AbiDecodeFailed
  end.

Definition decode_link (payload : string) : result Error Message :=
  match abi_decode_params link_types payload with
  | Some [VUint256 _; VBytes32 token_id; VUint256 token_manager_type; VBytes source;
          VBytes destination; VBytes params] =>
      source ← nonempty_bytes source;
      destination ← nonempty_bytes destination;
      Ok (MLinkToken (mkLink token_id token_manager_type source destination (from_vec params)))
  | _ => Err AbiDecodeFailed
  end.

(** The length check and the type of a payload. *)
Definition payload_type (payload : string) : result Error MessageType :=
  _ ← ensure (bool_decide (32 ≤ bytes_len payload)) InsufficientMessageLength;
  ok_or InvalidMessageType (decode_message_type (String.substring 0 32 payload)).

Definition message_abi_decode (payload : string) : result Error Message :=
  message_type ← payload_type payload;
  match message_type with
  | TInterchainTransfer => decode_transfer payload
  | TDeployInterchainToken => decode_deploy payload
  | TLinkToken => decode_link payload
  | _ => Err InvalidMessageType
  end.

Definition hub_type (m : HubMessage) : MessageType :=
  match m with
  | SendToHub _ _ => TSendToHub
  | ReceiveFromHub _ _ => TReceiveFromHub
  | HRegisterTokenMetadata _ => TRegisterTokenMetadata
  end.

Definition hub_fields (m : HubMessage) : list AbiValue :=
  match m with
  | SendToHub chain m | ReceiveFromHub chain m => [VString chain; VBytes (message_abi_encode m)]
  | HRegisterTokenMetadata r => [VBytes (r_token_address r); VUint8 (r_decimals r)]
  end.

Definition hub_message_abi_encode (m : HubMessage) : string :=
  abi_encode_params (VUint256 (message_type_code (hub_type m)) :: hub_fields m).

(** The payload of a message between the hub and a chain. *)
Definition decode_hub (wrap : string → Message → HubMessage) (payload : string)
    : result Error HubMessage :=
  match abi_decode_params hub_types payload with
  | Some [VUint256 _; VString chain; VBytes message] =>
      chain ← map_err (λ _, InvalidChainName) (chain.raw_from_str chain);
      message ← message_abi_decode message;
      Ok (wrap chain message)
  | _ => Err AbiDecodeFailed
  end.

Definition decode_metadata (payload : string) : result Error HubMessage :=
  match abi_decode_params metadata_types payload with
  | Some [VUint256 _; VBytes token_address; VUint8 decimals] =>
      token_address ← nonempty_bytes token_address;
      Ok (HRegisterTokenMetadata (mkMetadata decimals token_address))
  | _ => Err AbiDecodeFailed
  end.

Definition hub_message_abi_decode (payload : string) : result Error HubMessage :=
  message_type ← payload_type payload;
  match message_type with
  | TSendToHub => decode_hub SendToHub payload
  | TReceiveFromHub => decode_hub ReceiveFromHub payload
  | TRegisterTokenMetadata => decode_metadata payload
  | _ => Err InvalidMessageType
  end.

(** *** The queries of the contract *)

Inductive ContractError := SerializationFailed.

Definition query_from_bytes (payload : string) : result ContractError HubMessage :=
  map_err (λ _, SerializationFailed) (hub_message_abi_decode payload).

Definition query_to_bytes (message : HubMessage) : result ContractError string :=
  Ok (hub_message_abi_encode message).

(** *** Types of payloads *)

Lemma decode_message_type_code w t :
  decode_message_type w = Some t ↔ be_val (text_of w) = message_type_code t.
Proof.
  unfold decode_message_type. set (n := be_val (text_of w)). split.
  - intros Hd. repeat (case_bool_decide; [by injection Hd as <-|]). done.
  - intros ->. by destruct t; cbn.
Qed.

Lemma message_type_range t : 0 ≤ message_type_code t ≤ u256_max.
Proof. destruct t; vm_compute; split; congruence. Qed.

(** The type of an encoding is the one in its first parameter. *)
Lemma payload_type_encode t vs :
  payload_type (abi_encode_params (VUint256 (message_type_code t) :: vs)) = Ok t.
Proof.
  unfold payload_type. pose proof (abi_first_word _ vs (message_type_range t)) as Hw.
  rewrite bool_decide_eq_true_2.
  - cbn [ensure mbind result_bind]. rewrite Hw.
    rewrite (proj2 (decode_message_type_code _ t)); [done|]. by apply be_val_to_be_bytes; destruct t.
  - apply (f_equal String.length) in Hw. rewrite to_be_bytes_length in Hw.
    pose proof (substring_length 0 32 (abi_encode_params (VUint256 (message_type_code t) :: vs))). lia.
Qed.

Lemma payload_type_first p t n vs :
  payload_type p = Ok t → abi_encode_params (VUint256 n :: vs) = p → 0 ≤ n ≤ u256_max →
  n = message_type_code t.
Proof.
  unfold payload_type. intros Hf Hp Hn. apply bind_Ok in Hf as ([] & _ & Hd%ok_or_Ok).
  rewrite <- Hp, abi_first_word in Hd by done. apply decode_message_type_code in Hd.
  rewrite be_val_to_be_bytes in Hd; [done|]. unfold u256_max in Hn. lia.
Qed.

Lemma from_into_vec o : opt_filled o → from_vec (into_vec o) = o.
Proof. unfold from_vec, into_vec. destruct o; cbn; intros Ho; [|done]. by rewrite bool_decide_eq_false_2. Qed.

Lemma into_from_vec b : into_vec (from_vec b) = b ∧ opt_filled (from_vec b).
Proof. unfold from_vec. case_bool_decide; by subst. Qed.

Lemma nonempty_bytes_Ok b b' : nonempty_bytes b = Ok b' ↔ b' = b ∧ filled b.
Proof.
  unfold nonempty_bytes, nonempty.string_try_from, filled. case_bool_decide; cbn; naive_solver.
Qed.

Lemma nonempty_uint_Ok n n' : nonempty_uint n = Ok n' ↔ n' = n ∧ n ≠ 0.
Proof. unfold nonempty_uint. case_bool_decide; naive_solver. Qed.

(** *** The codec is exact *)

Ltac unvec := match goal with |- context [into_vec (from_vec ?b)] =>
  let Ho := fresh "Ho" in destruct (into_from_vec b) as [-> Ho] end.

(** The texts of a message are texts of Rust: valid UTF-8. *)
Definition message_text (m : Message) : Prop :=
  match m with
  | MDeployInterchainToken d => valid_utf8 (d_name d) ∧ valid_utf8 (d_symbol d)
  | _ => True
  end.

Definition hub_text (m : HubMessage) : Prop :=
  match m with
  | SendToHub _ m | ReceiveFromHub _ m => message_text m
  | HRegisterTokenMetadata _ => True
  end.

Lemma message_fields_wf m : message_wf m → message_text m → Forall abi_wf (message_fields m).
Proof.
  destruct m as [t|d|l]; cbn; unfold token_id_wf, nonempty_u256, u8;
    intros Hw Ht; repeat constructor; cbn; try apply Hw; try apply Ht; destruct Hw as (_ & Hw); lia.
Qed.

(** A decoded structure is the encoding of its fields, under the type of the payload. *)
Lemma decoded_fields p t ts vs :
  payload_type p = Ok t → abi_decode_params (TUint256 :: ts) p = Some vs →
  ∃ fields, vs = VUint256 (message_type_code t) :: fields ∧ Forall abi_wf fields ∧
    p = abi_encode_params (VUint256 (message_type_code t) :: fields).
Proof.
  intros Hp (Hts & Hw & He)%abi_decode_sound. destruct vs as [|[n| | | |] vs]; try done.
  apply Forall_cons in Hw as [Hn Hw]. pose proof (payload_type_first _ _ _ _ Hp He Hn) as ->.
  by exists vs.
Qed.

Lemma decode_transfer_Ok p m :
  payload_type p = Ok TInterchainTransfer → decode_transfer p = Ok m →
  message_wf m ∧ message_text m ∧ p = message_abi_encode m.
Proof.
  unfold decode_transfer. intros Hp Hf.
  destruct (abi_decode_params _ _) as [vs|] eqn:Hd; [|done].
  destruct (decoded_fields _ _ _ _ Hp Hd) as (fields & -> & Hw & ->).
  do 6 (destruct fields as [|[] fields]; try done).
  rewrite !Forall_cons in Hw. cbn in Hw. destruct Hw as (Hid & _ & _ & Ha & _).
  apply bind_Ok in Hf as (x & [-> Hx]%nonempty_bytes_Ok & Hf).
  apply bind_Ok in Hf as (y & [-> Hy]%nonempty_bytes_Ok & Hf).
  apply bind_Ok in Hf as (z & [-> Hz]%nonempty_uint_Ok & Hf). injection Hf as <-.
  unfold message_abi_encode. cbn. unvec.
  unfold token_id_wf, nonempty_u256. split_and!; try done; lia.
Qed.

Lemma decode_deploy_Ok p m :
  payload_type p = Ok TDeployInterchainToken → decode_deploy p = Ok m →
  message_wf m ∧ message_text m ∧ p = message_abi_encode m.
Proof.
  unfold decode_deploy. intros Hp Hf.
  destruct (abi_decode_params _ _) as [vs|] eqn:Hd; [|done].
  destruct (decoded_fields _ _ _ _ Hp Hd) as (fields & -> & Hw & ->).
  do 6 (destruct fields as [|[] fields]; try done).
  rewrite !Forall_cons in Hw. cbn in Hw. destruct Hw as (Hid & Hn & Hs & Hdec & _).
  apply bind_Ok in Hf as (x & [-> Hx]%nonempty_bytes_Ok & Hf).
  apply bind_Ok in Hf as (y & [-> Hy]%nonempty_bytes_Ok & Hf). injection Hf as <-.
  unfold message_abi_encode. cbn. unvec.
  unfold token_id_wf, u8. split_and!; try done; lia.
Qed.

Lemma decode_link_Ok p m :
  payload_type p = Ok TLinkToken → decode_link p = Ok m →
  message_wf m ∧ message_text m ∧ p = message_abi_encode m.
Proof.
  unfold decode_link. intros Hp Hf.
  destruct (abi_decode_params _ _) as [vs|] eqn:Hd; [|done].
  destruct (decoded_fields _ _ _ _ Hp Hd) as (fields & -> & Hw & ->).
  do 6 (destruct fields as [|[] fields]; try done).
  rewrite !Forall_cons in Hw. cbn in Hw. destruct Hw as (Hid & Hty & _).
  apply bind_Ok in Hf as (x & [-> Hx]%nonempty_bytes_Ok & Hf).
  apply bind_Ok in Hf as (y & [-> Hy]%nonempty_bytes_Ok & Hf). injection Hf as <-.
  unfold message_abi_encode. cbn. unvec.
  unfold token_id_wf. split_and!; try done; lia.
Qed.

Lemma message_decode_encode m :
  message_wf m → message_text m → bytes_len (message_abi_encode m) ≤ u32_max →
  message_abi_decode (message_abi_encode m) = Ok m.
Proof.
  intros Hw Ht Hl. unfold message_abi_decode.
  assert (abi_decode_params (TUint256 :: (type_of <$> message_fields m)) (message_abi_encode m) =
    Some (VUint256 (message_type_code (message_type m)) :: message_fields m)) as Hd.
  { apply (abi_decode_encode (VUint256 (message_type_code (message_type m)) :: message_fields m)); [|done].
    constructor; [apply message_type_range|by apply message_fields_wf]. }
  pose proof (payload_type_encode (message_type m) (message_fields m)) as Hp.
  fold (message_abi_encode m) in Hp. rewrite Hp. cbn [mbind result_bind].
  destruct m as [[id src dst a data]|[id nm sy dec mi]|[id ty src dst pa]]; cbn in Hw, Hd |- *;
    unfold decode_transfer, decode_deploy, decode_link, interchain_transfer_types, deploy_types,
      link_types; rewrite Hd; unfold nonempty_bytes, nonempty_uint, nonempty.string_try_from;
    destruct Hw as (H1 & H2 & H3 & H4 & H5); unfold filled, nonempty_u256 in *;
    repeat (rewrite (bool_decide_eq_false_2) by (done || lia); cbn [map_err mbind result_bind]);
    by rewrite from_into_vec.
Qed.

Lemma message_decode_Ok p m :
  message_abi_decode p = Ok m → message_wf m ∧ message_text m ∧ p = message_abi_encode m.
Proof.
  unfold message_abi_decode. intros Hf. apply bind_Ok in Hf as (t & Hp & Hf).
  destruct t; try done; eauto using decode_transfer_Ok, decode_deploy_Ok, decode_link_Ok.
Qed.

Lemma hub_fields_wf m : hub_message_wf m → hub_text m → Forall abi_wf (hub_fields m).
Proof.
  destruct m as [c m|c m|r]; cbn; intros Hw Ht.
  1,2: destruct Hw as [Hc _]; repeat constructor; apply utf8_ascii;
    unfold chain.is_raw_chain_name in Hc; by destruct (chain.is_ascii c); rewrite ?andb_false_r in Hc.
  destruct Hw as [Hd _]. repeat constructor; cbn; unfold u8 in Hd; lia.
Qed.

Lemma decode_hub_Ok wrap t p m :
  (∀ c m, hub_type (wrap c m) = t ∧ hub_fields (wrap c m) = [VString c; VBytes (message_abi_encode m)] ∧
     (hub_message_wf (wrap c m) ↔ chain.is_raw_chain_name c = true ∧ message_wf m) ∧
     (hub_text (wrap c m) ↔ message_text m)) →
  payload_type p = Ok t → decode_hub wrap p = Ok m →
  hub_message_wf m ∧ hub_text m ∧ p = hub_message_abi_encode m.
Proof.
  intros Hwrap Hp Hf. unfold decode_hub in Hf.
  destruct (abi_decode_params _ _) as [vs|] eqn:Hd; [|done].
  destruct (decoded_fields _ _ _ _ Hp Hd) as (fields & -> & Hw & Hpe).
  do 3 (destruct fields as [|[] fields]; try done).
  apply bind_Ok in Hf as (c & Hc%map_err_Ok & Hf). apply bind_Ok in Hf as (msg & Hm & Hf).
  injection Hf as <-. assert (c = s ∧ chain.is_raw_chain_name s = true) as [-> Hs].
  { unfold chain.raw_from_str in Hc. destruct (chain.is_raw_chain_name s); [|done].
    cbn in Hc. by injection Hc as <-. }
  apply message_decode_Ok in Hm as (Hmw & Hmt & ->).
  destruct (Hwrap s msg) as (Ht & Hfi & Hww & Htt). rewrite Hww, Htt. split_and!; try done.
  rewrite Hpe. unfold hub_message_abi_encode. by rewrite Ht, Hfi.
Qed.

Lemma decode_metadata_Ok p m :
  payload_type p = Ok TRegisterTokenMetadata → decode_metadata p = Ok m →
  hub_message_wf m ∧ hub_text m ∧ p = hub_message_abi_encode m.
Proof.
  unfold decode_metadata. intros Hp Hf.
  destruct (abi_decode_params _ _) as [vs|] eqn:Hd; [|done].
  destruct (decoded_fields _ _ _ _ Hp Hd) as (fields & -> & Hw & ->).
  do 3 (destruct fields as [|[] fields]; try done).
  rewrite !Forall_cons in Hw. cbn in Hw. destruct Hw as (_ & Hdec & _).
  apply bind_Ok in Hf as (x & [-> Hx]%nonempty_bytes_Ok & Hf). injection Hf as <-.
  unfold hub_message_abi_encode. cbn. unfold u8. split_and!; try done; lia.
Qed.

Lemma hub_decode_encode m :
  hub_message_wf m → hub_text m → bytes_len (hub_message_abi_encode m) ≤ u32_max →
  hub_message_abi_decode (hub_message_abi_encode m) = Ok m.
Proof.
  intros Hw Ht Hl. unfold hub_message_abi_decode.
  assert (abi_decode_params (TUint256 :: (type_of <$> hub_fields m)) (hub_message_abi_encode m) =
    Some (VUint256 (message_type_code (hub_type m)) :: hub_fields m)) as Hd.
  { apply (abi_decode_encode (VUint256 (message_type_code (hub_type m)) :: hub_fields m)); [|done].
    constructor; [apply message_type_range|by apply hub_fields_wf]. }
  pose proof (payload_type_encode (hub_type m) (hub_fields m)) as Hp.
  fold (hub_message_abi_encode m) in Hp. rewrite Hp. cbn [mbind result_bind].
  destruct m as [c m|c m|[dec a]].
  1,2: destruct Hw as [Hc Hw]; cbn in Hd |- *; unfold decode_hub, hub_types; rewrite Hd;
    unfold chain.raw_from_str; rewrite Hc; cbn [negb map_err mbind result_bind];
    rewrite message_decode_encode; [done..|];
    etrans; [|exact Hl]; apply abi_contains; right; right; left.
  cbn in Hd |- *. unfold decode_metadata, metadata_types. rewrite Hd.
  unfold nonempty_bytes, nonempty.string_try_from. destruct Hw as [_ Hw].
  by rewrite bool_decide_eq_false_2.
Qed.

Lemma hub_decode_Ok p m :
  hub_message_abi_decode p = Ok m → hub_message_wf m ∧ hub_text m ∧ p = hub_message_abi_encode m.
Proof.
  unfold hub_message_abi_decode. intros Hf. apply bind_Ok in Hf as (t & Hp & Hf).
  destruct t; try done; [| |by apply decode_metadata_Ok].
  - apply (decode_hub_Ok SendToHub TSendToHub p m); [|done..]. by intros c m'.
  - apply (decode_hub_Ok ReceiveFromHub TReceiveFromHub p m); [|done..]. by intros c m'.
Qed.

(** What the hub asks of the answers of a translation contract: they are well-typed. *)
Lemma query_from_bytes_wf p m : query_from_bytes p = Ok m → hub_message_wf m.
Proof. by intros (Hw & _ & _)%map_err_Ok%hub_decode_Ok. Qed.

(** C16: The translation contract decodes exactly the encodings of well-formed messages, each to
    the message it encodes. So decoding reverts encoding, two messages never share a payload,
    every decoded message respects its types (a positive amount, no empty address, name or chain),
    and a payload with trailing bytes, another layout or an unsupported type is refused. *)
Theorem hub_payloads_exact p m :
  bytes_len p ≤ u32_max →
  query_from_bytes p = Ok m ↔
  hub_message_wf m ∧ hub_text m ∧ query_to_bytes m = Ok p.
Proof.
  intros Hl. unfold query_from_bytes, query_to_bytes. split.
  - by intros (? & ? & ->)%map_err_Ok%hub_decode_Ok.
  - intros (Hw & Ht & [= <-]). by rewrite hub_decode_encode.
Qed.

End translation.
End its_abi.

(** ** The encoding of the ABI specification

    A head of one word per parameter, then the tails of the dynamic ones: their length and
    their bytes, padded to whole words; the head of a dynamic parameter is the offset of its
    tail. Decoding with validation compares with the encoding of what it read. *)
Module abi_codec.

Definition word (z : Z) : text := byte_of <$> be_digits 32 z.

#[local] Arguments word : simpl never.

Definition padding (n : nat) : nat := (32 - n mod 32) mod 32.

Definition tail_of (b : string) : text :=
  word (bytes_len b) ++ text_of b ++ replicate (padding (String.length b)) (byte_of 0).

#[local] Arguments tail_of : simpl never.

(** The heads and the tails, where [off] is the offset of the next tail. *)
Fixpoint enc (off : nat) (vs : list AbiValue) : text * text :=
  match vs with
  | [] => ([], [])
  | VUint256 n :: vs | VUint8 n :: vs => let '(h, t) := enc off vs in (word n ++ h, t)
  | VBytes32 b :: vs => let '(h, t) := enc off vs in (text_of b ++ h, t)
  | VBytes b :: vs | VString b :: vs =>
      let '(h, t) := enc (off + length (tail_of b)) vs in
      (word (Z.of_nat off) ++ h, tail_of b ++ t)
  end.

Definition encode (vs : list AbiValue) : text :=
  let '(h, t) := enc (32 * length vs) vs in h ++ t.

(** The bytes at an offset. *)
Definition dec_bytes (w whole : text) : option string :=
  if bool_decide (be_val w ≤ Z.of_nat (length whole)) then
    let d := drop (Z.to_nat (be_val w)) whole in
    let len := be_val (take 32 d) in
    if bool_decide (32 ≤ length d)%nat then
      if bool_decide (len ≤ Z.of_nat (length (drop 32 d)))
      then Some (String.string_of_list_ascii (take (Z.to_nat len) (drop 32 d)))
      else None
    else None
  else None.

#[local] Arguments dec_bytes : simpl never.

Definition dec_one (ty : AbiType) (w whole : text) : option AbiValue :=
  match ty with
  | TUint256 => Some (VUint256 (be_val w))
  | TUint8 => if bool_decide (be_val w ≤ 255) then Some (VUint8 (be_val w)) else None
  | TBytes32 => Some (VBytes32 (String.string_of_list_ascii w))
  | TBytes => VBytes <$> dec_bytes w whole
  | TString => VString <$> dec_bytes w whole
  end.

Fixpoint dec (heads whole : text) (ts : list AbiType) : option (list AbiValue) :=
  match ts with
  | [] => Some []
  | ty :: ts =>
      let w := take 32 heads in
      if bool_decide (length w = 32%nat) then
        v ← dec_one ty w whole; vs ← dec (drop 32 heads) whole ts; Some (v :: vs)
      else None
  end.

Definition decode (ts : list AbiType) (p : text) : option (list AbiValue) :=
  vs ← dec p p ts; if bool_decide (encode vs = p) then Some vs else None.

#[local] Instance ops : AbiOps := {|
  abi_encode_params vs := String.string_of_list_ascii (encode vs);
  abi_decode_params ts p := decode ts (text_of p);
  valid_utf8 _ := True
|}.

Lemma abi_text_of_string l : text_of (String.string_of_list_ascii l) = l.
Proof. apply String.list_ascii_of_string_of_list_ascii. Qed.
Lemma abi_string_of_text s : String.string_of_list_ascii (text_of s) = s.
Proof. apply String.string_of_list_ascii_of_string. Qed.
Lemma abi_length_text s : length (text_of s) = String.length s.
Proof. induction s as [|c s IH]; cbn; [done|]. by rewrite <- IH. Qed.
Lemma abi_length_string l : String.length (String.string_of_list_ascii l) = length l.
Proof. by rewrite <- abi_length_text, abi_text_of_string. Qed.

Lemma word_length z : length (word z) = 32%nat.
Proof.
  unfold word. rewrite length_fmap. generalize 32%nat. intros n. revert z.
  induction n as [|n IH]; intros z; cbn; [done|]. rewrite length_app, IH. cbn. lia.
Qed.

Lemma be_val_word z : 0 ≤ z ≤ u256_max → be_val (word z) = z.
Proof.
  intros Hz. rewrite <- (be_val_to_be_bytes 32 z) at 2 by (unfold u256_max in Hz; lia).
  unfold to_be_bytes. by rewrite abi_text_of_string.
Qed.

Lemma be_val_range w : 0 ≤ be_val w < 256 ^ Z.of_nat (length w).
Proof.
  unfold be_val. assert (Forall (is_digit_of 256) (code <$> w)) as Hd
    by (induction w; constructor; [apply code_range|done]).
  split; [apply digits_val_nonneg; [lia|done]|]. rewrite <- (length_fmap code).
  apply digits_val_bound; [lia|done].
Qed.

Lemma take_word z l : take 32 (word z ++ l) = word z.
Proof. apply take_app_length'. by rewrite word_length. Qed.
Lemma drop_word z l : drop 32 (word z ++ l) = l.
Proof. apply drop_app_length'. by rewrite word_length. Qed.

Lemma dec_bytes_spec pre b post :
  Z.of_nat (length (pre ++ tail_of b ++ post)) ≤ u32_max →
  dec_bytes (word (Z.of_nat (length pre))) (pre ++ tail_of b ++ post) = Some b.
Proof.
  intros Hl. assert (u32_max ≤ u256_max) as Hu by (vm_compute; congruence).
  unfold dec_bytes. rewrite !length_app in Hl. rewrite be_val_word by lia.
  rewrite bool_decide_eq_true_2 by (rewrite !length_app; lia).
  rewrite Nat2Z.id, drop_app_length. unfold tail_of in *.
  rewrite !length_app, word_length, abi_length_text in Hl.
  rewrite bool_decide_eq_true_2 by (rewrite !length_app, word_length; lia).
  rewrite <- !app_assoc, take_word, drop_word, be_val_word by lia.
  rewrite bool_decide_eq_true_2 by (rewrite !length_app, abi_length_text; lia).
  rewrite Nat2Z.id, take_app_length' by apply symmetry, abi_length_text.
  by rewrite abi_string_of_text.
Qed.

#[local] Opaque word tail_of dec_bytes.

Lemma dec_enc vs off pre h t post rest :
  enc off vs = (h, t) → Forall abi_wf vs → length pre = off →
  Z.of_nat (length (pre ++ t ++ post)) ≤ u32_max →
  dec (h ++ rest) (pre ++ t ++ post) (type_of <$> vs) = Some vs.
Proof.
  revert off pre h t. induction vs as [|v vs IH]; intros off pre h t He Hw Hp Hl; [done|].
  apply Forall_cons in Hw as [Hv Hw].
  assert (∀ w h' t' off' pre', enc off' vs = (h', t') → length pre' = off' → length w = 32%nat →
    h = w ++ h' → pre ++ t ++ post = pre' ++ t' ++ post →
    dec_one (type_of v) w (pre ++ t ++ post) = Some v →
    dec (h ++ rest) (pre ++ t ++ post) (type_of <$> v :: vs) = Some (v :: vs)) as Hcons.
  { intros w h' t' off' pre' He' Hp' Hwl -> Heq Hone. cbn [fmap list_fmap dec].
    rewrite <- app_assoc, take_app_length', drop_app_length', bool_decide_eq_true_2 by done.
    change (type_of <$> v :: vs) with (type_of v :: (type_of <$> vs)). cbn [dec].
    rewrite Hone. cbn. rewrite Heq in Hl |- *. by rewrite (IH _ _ _ _ He' Hw Hp' Hl). }
  destruct v as [n|n|b|b|b]; cbn in He; destruct (enc _ vs) as [h' t'] eqn:He'; injection He as <- <-.
  - refine (Hcons (word n) h' t' off pre He' Hp (word_length n) eq_refl eq_refl _).
    cbn. by rewrite be_val_word.
  - refine (Hcons (word n) h' t' off pre He' Hp (word_length n) eq_refl eq_refl _). cbn in Hv |- *.
    rewrite be_val_word by (assert (255 ≤ u256_max) by (vm_compute; congruence); lia).
    by rewrite bool_decide_eq_true_2 by lia.
  - refine (Hcons (text_of b) h' t' off pre He' Hp _ eq_refl eq_refl _);
      [by rewrite abi_length_text|]. cbn. by rewrite abi_string_of_text.
  - refine (Hcons (word (Z.of_nat off)) h' t' _ (pre ++ tail_of b) He' _ (word_length _) eq_refl _ _).
    + rewrite length_app. lia.
    + by rewrite <- !app_assoc.
    + cbn. rewrite <- Hp. rewrite <- app_assoc in Hl |- *. by rewrite dec_bytes_spec.
  - refine (Hcons (word (Z.of_nat off)) h' t' _ (pre ++ tail_of b) He' _ (word_length _) eq_refl _ _).
    + rewrite length_app. lia.
    + by rewrite <- !app_assoc.
    + cbn. rewrite <- Hp. rewrite <- app_assoc in Hl |- *. by rewrite dec_bytes_spec.
Qed.

Lemma enc_heads off vs h t :
  enc off vs = (h, t) → Forall abi_wf vs → length h = (32 * length vs)%nat.
Proof.
  revert off h t. induction vs as [|v vs IH]; intros off h t He Hw; [by injection He as <- <-|].
  apply Forall_cons in Hw as [Hv Hw].
  destruct v; cbn in He; destruct (enc _ vs) as [h' t'] eqn:He'; injection He as <- <-;
    specialize (IH _ _ _ He' Hw); rewrite length_app, ?word_length, ?abi_length_text; cbn in *; lia.
Qed.

Lemma decode_encode vs :
  Forall abi_wf vs → Z.of_nat (length (encode vs)) ≤ u32_max →
  decode (type_of <$> vs) (encode vs) = Some vs.
Proof.
  intros Hw Hl. unfold decode.
  assert (dec (encode vs) (encode vs) (type_of <$> vs) = Some vs) as ->.
  { unfold encode in *. destruct (enc (32 * length vs) vs) as [h t] eqn:He.
    pose proof (dec_enc vs _ h h t [] t He Hw (enc_heads _ _ _ _ He Hw)) as Hd.
    rewrite app_nil_r in Hd. by apply Hd. }
  cbn. by rewrite bool_decide_eq_true_2.
Qed.

Lemma dec_sound heads whole ts vs :
  dec heads whole ts = Some vs → type_of <$> vs = ts ∧ Forall abi_wf vs.
Proof.
  revert heads vs. induction ts as [|ty ts IH]; intros heads vs Hd; cbn in Hd; [by injection Hd as <-|].
  case_bool_decide as Hw; [|done]. destruct (dec_one ty (take 32 heads) whole) as [v|] eqn:Hone; [|done].
  cbn in Hd. destruct (dec (drop 32 heads) whole ts) as [vs'|] eqn:Hrest; [|done].
  cbn in Hd. injection Hd as <-. destruct (IH _ _ Hrest) as [<- Hvs].
  assert (type_of v = ty ∧ abi_wf v) as [<- Hv]; [|by split; [|constructor]].
  pose proof (be_val_range (take 32 heads)) as Hr. rewrite Hw in Hr.
  assert (256 ^ Z.of_nat 32 = u256_max + 1) as Hu by (vm_compute; reflexivity). rewrite Hu in Hr.
  destruct ty; cbn in Hone.
  - injection Hone as <-. split; [done|]. cbn. lia.
  - case_bool_decide; [|done]. injection Hone as <-. split; [done|]. cbn. lia.
  - injection Hone as <-. split; [done|]. cbn. by rewrite abi_length_string.
  - destruct (dec_bytes _ _); [|done]. by injection Hone as <-.
  - destruct (dec_bytes _ _); [|done]. by injection Hone as <-.
Qed.

#[local] Transparent tail_of.

Lemma enc_contains off vs b :
  VBytes b ∈ vs → (String.length b ≤ length (enc off vs).2)%nat.
Proof.
  revert off. induction vs as [|v vs IH]; intros off Hin; [by apply not_elem_of_nil in Hin|].
  apply elem_of_cons in Hin as [<-|Hin].
  - cbn. destruct (enc _ vs). cbn. rewrite length_app. enough (String.length b ≤ length (tail_of b))%nat by lia.
    unfold tail_of. rewrite !length_app, abi_length_text. lia.
  - destruct v as [n|n|c|c|c]; cbn.
    1-3: specialize (IH off Hin); destruct (enc off vs); exact IH.
    all: specialize (IH (off + length (tail_of c))%nat Hin); destruct (enc _ vs); cbn in *;
      rewrite length_app; lia.
Qed.

#[global] Program Instance spec_codec : AbiCodec := {| abi_ops := ops |}.
Next Obligation. done. Qed.
Next Obligation.
  intros vs Hw Hl. cbn in *. rewrite abi_length_string in Hl. rewrite abi_text_of_string.
  by apply decode_encode.
Qed.
Next Obligation.
  intros ts p vs Hd. cbn in Hd. unfold decode in Hd.
  destruct (dec (text_of p) (text_of p) ts) as [vs'|] eqn:He; [|done]. cbn in Hd.
  case_bool_decide as Heq; [|done]. injection Hd as <-. destruct (dec_sound _ _ _ _ He) as [? ?].
  split_and!; try done. cbn. by rewrite Heq, abi_string_of_text.
Qed.
Next Obligation.
  intros n vs Hn. change (String.substring 0 32 (String.string_of_list_ascii
    (encode (VUint256 n :: vs))) = String.string_of_list_ascii (word n)).
  unfold encode. cbn [enc]. destruct (enc _ vs) as [h t].
  rewrite <- app_assoc. rewrite <- (word_length n) at 1. generalize (word n) (h ++ t). intros l l'.
  induction l as [|c l IH]; cbn; [by destruct l'|]. by rewrite IH.
Qed.
Next Obligation.
  intros b vs Hin. cbn. rewrite abi_length_string. unfold encode.
  pose proof (enc_contains (32 * length vs) vs b Hin) as Hl. destruct (enc _ vs). cbn in Hl.
  rewrite length_app. lia.
Qed.

End abi_codec.

(** ** Two payloads *)
Module its_abi_run.
Import its_std its_abi.

Definition run_message : HubMessage :=
  SendToHub "ethereum" (MInterchainTransfer
    (mkTransfer "0123456789abcdef0123456789abcdef" "alice" "bob" 1000 (Some "data"))).

(** The payload of a transfer decodes to it, and nothing decodes to a transfer of nothing. *)
Lemma hub_payloads_exact_witness :
  query_from_bytes (hub_message_abi_encode run_message) = Ok run_message ∧
  query_from_bytes (hub_message_abi_encode (SendToHub "ethereum" (MInterchainTransfer
    (mkTransfer "0123456789abcdef0123456789abcdef" "alice" "bob" 0 None)))) ≠
  Ok (SendToHub "ethereum" (MInterchainTransfer
    (mkTransfer "0123456789abcdef0123456789abcdef" "alice" "bob" 0 None))).
Proof.
  split.
  - apply (hub_payloads_exact (hub_message_abi_encode run_message) run_message).
    + vm_compute. congruence.
    + split; [|split; [exact I|reflexivity]]. repeat split; try discriminate; vm_compute; congruence.
  - intros Hf. apply hub_payloads_exact in Hf as ((_ & _ & _ & _ & [Hz _] & _) & _);
      [inversion Hz|vm_compute; congruence].
Defined.

End its_abi_run.
