(* ===== verification/MultisigProver.v ===== *)
(** * The multisig prover

    [contracts/multisig-prover/src]: payloads and their identifiers ([payload.rs]), storage
    ([state.rs]), the handlers ([contract/execute.rs]), the reply to a new signing session
    ([contract/reply.rs]), the queries ([contract/query.rs]) and the entry points
    ([contract.rs], [msg.rs]); [packages/multisig-prover-api/src].

    What the other contracts answer (the gateway, the service registry, the multisig and the
    voting verifier) is an argument of the environment. The encodings of the chains are behind
    the trait [EncoderExt], the class of that name. *)

From Stdlib Require Import Ascii.
From S2P Require Import Prelude Std Voting MsgId RouterApi Multisig ServiceRegistry.

Module multisig_prover.
Import router_api key.
Notation Signer := verifier_set.Signer (only parsing).
Notation VerifierSet := verifier_set.VerifierSet (only parsing).

(** ** Payloads ([payload.rs]) *)

Inductive Payload :=
  | Messages (msgs : list Message)
  | VerifierSetPayload (vs : VerifierSet).
#[global] Instance Payload_eq_dec : EqDecision Payload.
Proof. solve_decision. Defined.

Definition PayloadId := string.

Definition variant_to_u8 (p : Payload) : Z :=
  match p with Messages _ => 0 | VerifierSetPayload _ => 1 end.

(** [join] of a list of texts. *)
Fixpoint join (sep : string) (l : list string) : string :=
  match l with
  | [] => EmptyString
  | [s] => s
  | s :: l => s +:+ sep +:+ join sep l
  end.

Definition payload_id `{Crypto} (p : Payload) : PayloadId :=
  let hash := match p with
              | Messages msgs =>
                  join delimiter ((λ msg, CrossChainId_to_string (cc_id msg)) <$> msgs)
              | VerifierSetPayload vs => verifier_set.hash vs
              end in
  keccak256 (to_be_bytes 1 (variant_to_u8 p) +:+ hash).

Definition message_ids (p : Payload) : option (list CrossChainId) :=
  match p with Messages msgs => Some (cc_id <$> msgs) | VerifierSetPayload _ => None end.

(** ** Storage ([state.rs]) *)

(** [multisig_prover_api::encoding::Encoder] *)
Inductive Encoder := Abi | Bcs | StellarXdr | Solana.

(** The errors the crate declares; the wrapped errors of other crates carry no data here. *)
Inductive ContractError :=
  | StdErr (e : StdError)
  | ParseReply
  | InvalidMessage
  | InvalidPublicKey
  | InvalidSignature
  | DeprecatedInvalidChainName
  | InvalidParticipants
  | InvalidContractReply
  | PublicKeyNotFound
  | ServiceRegistryError
  | NonEmptyError
  | BcsError
  | VerifierSetUnchanged
  | VerifierSetNotConfirmed
  | VerifierSetConfirmationInProgress
  | NoVerifierSetToConfirm
  | NoVerifierSet
  | SerializeResponse
  | Proof
  | InvalidVerifierSet
  | NotEnoughVerifiers
  | InvalidDestinationChain (actual expected : string)
  | PayloadMismatch
  | SerializeData
  | FailedToGetMessages
  | FailedToBuildVerifierSet
  | FailedToVerifyVerifierSet
  | FailedToUpdateAdmin
  | FailedToCreateWasmExecuteMsg
  | StorageError
  | EncoderNotImplemented.

Record Config := mkConfig {
  gateway : Addr;
  multisig : Addr;
  coordinator : Addr;
  service_registry : Addr;
  voting_verifier : Addr;
  signing_threshold : threshold.MajorityThreshold;
  service_name : string;
  chain_name : string;
  verifier_set_diff_threshold : Z;
  encoder : Encoder;
  key_type : KeyType;
  domain_separator : string
}.

Record State := mkState {
  perm : permission_control.Storage;
  CONFIG : option Config;
  PAYLOAD : gmap PayloadId Payload;
  MULTISIG_SESSION_PAYLOAD : gmap Z PayloadId;
  REPLY_TRACKER : option PayloadId;
  CURRENT_VERIFIER_SET : option VerifierSet;
  NEXT_VERIFIER_SET : option VerifierSet
}.

Definition set_perm (st : State) p : State :=
  mkState p (CONFIG st) (PAYLOAD st) (MULTISIG_SESSION_PAYLOAD st) (REPLY_TRACKER st)
    (CURRENT_VERIFIER_SET st) (NEXT_VERIFIER_SET st).
Definition set_config (st : State) c : State :=
  mkState (perm st) c (PAYLOAD st) (MULTISIG_SESSION_PAYLOAD st) (REPLY_TRACKER st)
    (CURRENT_VERIFIER_SET st) (NEXT_VERIFIER_SET st).
Definition set_payload (st : State) m : State :=
  mkState (perm st) (CONFIG st) m (MULTISIG_SESSION_PAYLOAD st) (REPLY_TRACKER st)
    (CURRENT_VERIFIER_SET st) (NEXT_VERIFIER_SET st).
Definition set_sessions (st : State) m : State :=
  mkState (perm st) (CONFIG st) (PAYLOAD st) m (REPLY_TRACKER st) (CURRENT_VERIFIER_SET st)
    (NEXT_VERIFIER_SET st).
Definition set_tracker (st : State) t : State :=
  mkState (perm st) (CONFIG st) (PAYLOAD st) (MULTISIG_SESSION_PAYLOAD st) t
    (CURRENT_VERIFIER_SET st) (NEXT_VERIFIER_SET st).
Definition set_current (st : State) v : State :=
  mkState (perm st) (CONFIG st) (PAYLOAD st) (MULTISIG_SESSION_PAYLOAD st) (REPLY_TRACKER st) v
    (NEXT_VERIFIER_SET st).
Definition set_next (st : State) v : State :=
  mkState (perm st) (CONFIG st) (PAYLOAD st) (MULTISIG_SESSION_PAYLOAD st) (REPLY_TRACKER st)
    (CURRENT_VERIFIER_SET st) v.

(** ** Encodings ([encoding/mod.rs]) *)

Class EncoderExt := {
  digest : Encoder → string → VerifierSet → Payload → result ContractError string;
  execute_data : Encoder → string → VerifierSet → list (Signer * Signature) → Payload →
    result ContractError string
}.

(** ** Messages and answers *)

Inductive Event :=
  | ProofUnderConstruction (destination_chain : string) (payload_id : PayloadId)
      (multisig_session_id : Z) (msg_ids : list CrossChainId).

Inductive OutMsg :=
  | StartSigningSessionAt (multisig : Addr) (verifier_set_id : string) (msg : string)
      (chain_name : string) (sig_verifier : option string)
  | RegisterVerifierSetAt (multisig : Addr) (verifier_set : VerifierSet)
  | SetActiveVerifiersAt (coordinator : Addr) (verifiers : gset string).

Notation PResponse := (Response OutMsg Event).

(** [None] is a failed query. *)
Record Env := mkEnv {
  height : Z;
  outgoing_messages : list CrossChainId → option (list Message);
  active_verifiers : option (list service_registry.WeightedVerifier);
  min_num_verifiers : option Z;
  public_key : Addr → KeyType → option PublicKey;
  verifier_set_status : VerifierSet → option VerificationStatus
}.

(** ** Handlers ([contract/execute.rs]) *)

Section contract.
Context `{Crypto} `{HexCodec} `{Api} `{EncoderExt}.

Definition load_config (st : State) : result ContractError Config :=
  map_err StdErr (item_load (CONFIG st)).

Definition messages_of (env : Env) (ids : list CrossChainId) (chain_name : string)
    : result ContractError (list Message) :=
  messages ← ok_or FailedToGetMessages (outgoing_messages env ids);
  if negb (bool_decide (length messages = length ids)) then Panic
  else
    match list_find (λ msg, destination_chain msg ≠ chain_name) messages with
    | Some (_, wrong) => Err (InvalidDestinationChain (destination_chain wrong) chain_name)
    | None => Ok messages
    end.

Definition construct_proof (st : State) (env : Env) (ids : list CrossChainId)
    : result ContractError (State * PResponse) :=
  config ← load_config st;
  messages ← messages_of env ids (chain_name config);
  let payload := Messages messages in
  let id := payload_id payload in
  st ← match PAYLOAD st !! id with
       | Some stored_payload =>
           if bool_decide (stored_payload ≠ payload) then Err PayloadMismatch else Ok st
       | None => Ok (set_payload st (<[id := payload]> (PAYLOAD st)))
       end;
  let st := set_tracker st (Some id) in
  verifier_set ← ok_or NoVerifierSet (CURRENT_VERIFIER_SET st);
  digest ← digest (encoder config) (domain_separator config) verifier_set payload;
  Ok (st, add_message (StartSigningSessionAt (multisig config) (verifier_set.id verifier_set)
            digest (chain_name config) None) Response_new).

(** The participants that have a public key of the type. *)
Definition participants_with_pubkeys (env : Env) (config : Config)
    (verifiers : list service_registry.WeightedVerifier)
    : list (snapshot.Participant * PublicKey) :=
  omap (λ verifier,
    pub_key ← public_key env
      (service_registry.verifier_address (service_registry.verifier_info verifier))
      (key_type config);
    Some (service_registry.Participant_from verifier, pub_key)) verifiers.

Definition make_verifier_set (env : Env) (config : Config) : result ContractError VerifierSet :=
  verifiers ← ok_or FailedToBuildVerifierSet (active_verifiers env);
  min_num_verifiers ← ok_or FailedToBuildVerifierSet (min_num_verifiers env);
  let participants := participants_with_pubkeys env config verifiers in
  if bool_decide (Z.of_nat (length participants) < min_num_verifiers) then Err NotEnoughVerifiers
  else
    list ← map_err (λ _, FailedToBuildVerifierSet) (nonempty.vec_try_from (fst <$> participants));
    snapshot ← snapshot.new (signing_threshold config) list;
    Ok (verifier_set.new participants (snapshot.quorum snapshot) (height env)).

(** [usize] has 32 bits on the target of the contracts (wasm32). *)
Definition signers_difference_count (s1 s2 : gmap string Signer) : Z :=
  Z.of_nat (length (filter (λ v, v ∉ (map_to_list s2).*2) (map_to_list s1).*2)).

Definition signers_symetric_difference_count (s1 s2 : gmap string Signer) : Z :=
  saturating_add u32_max (signers_difference_count s1 s2) (signers_difference_count s2 s1).

Definition should_update_verifier_set (new_verifiers cur_verifiers : VerifierSet) (max_diff : Z)
    : bool :=
  bool_decide (verifier_set.threshold new_verifiers ≠ verifier_set.threshold cur_verifiers) ||
  bool_decide (max_diff < signers_symetric_difference_count
    (verifier_set.signers new_verifiers) (verifier_set.signers cur_verifiers)).

Definition next_verifier_set (st : State) (env : Env) (config : Config)
    : result ContractError (option VerifierSet) :=
  match NEXT_VERIFIER_SET st with
  | Some pending_verifier_set => Ok (Some pending_verifier_set)
  | None =>
      new_verifier_set ← make_verifier_set env config;
      match CURRENT_VERIFIER_SET st with
      | Some cur_verifier_set =>
          if should_update_verifier_set new_verifier_set cur_verifier_set
               (verifier_set_diff_threshold config)
          then Ok (Some new_verifier_set) else Ok None
      | None => Err NoVerifierSet
      end
  end.

Definition different_set_in_progress (st : State) (new_verifier_set : VerifierSet) : bool :=
  match NEXT_VERIFIER_SET st with
  | Some next_verifier_set => bool_decide (next_verifier_set ≠ new_verifier_set)
  | None => false
  end.

Definition save_next_verifier_set (st : State) (new_verifier_set : VerifierSet)
    : result ContractError State :=
  if different_set_in_progress st new_verifier_set then Err VerifierSetConfirmationInProgress
  else Ok (set_next st (Some new_verifier_set)).

(** The addresses of the signers of a set. *)
Definition signer_addresses (s : gmap string Signer) : gset string :=
  list_to_set (verifier_set.address <$> (map_to_list s).*2).

Definition all_active_verifiers (st : State) : gset string :=
  let current_signers := default ∅ (verifier_set.signers <$> CURRENT_VERIFIER_SET st) in
  let next_signers := default ∅ (verifier_set.signers <$> NEXT_VERIFIER_SET st) in
  signer_addresses current_signers ∪ signer_addresses next_signers.

Definition update_verifier_set (st : State) (env : Env)
    : result ContractError (State * PResponse) :=
  config ← load_config st;
  match CURRENT_VERIFIER_SET st with
  | None =>
      new_verifier_set ← make_verifier_set env config;
      let st := set_current st (Some new_verifier_set) in
      Ok (st, add_message (SetActiveVerifiersAt (coordinator config)
                 (signer_addresses (verifier_set.signers new_verifier_set)))
              (add_message (RegisterVerifierSetAt (multisig config) new_verifier_set)
                 Response_new))
  | Some cur_verifier_set =>
      next ← next_verifier_set st env config;
      new_verifier_set ← ok_or VerifierSetUnchanged next;
      st ← save_next_verifier_set st new_verifier_set;
      let payload := VerifierSetPayload new_verifier_set in
      let id := payload_id payload in
      let st := set_payload st (<[id := payload]> (PAYLOAD st)) in
      let st := set_tracker st (Some id) in
      digest ← digest (encoder config) (domain_separator config) cur_verifier_set payload;
      Ok (st, add_message (SetActiveVerifiersAt (coordinator config) (all_active_verifiers st))
              (add_message (StartSigningSessionAt (multisig config)
                 (verifier_set.id cur_verifier_set) digest (chain_name config) None)
                 Response_new))
  end.

Definition ensure_verifier_set_verification (env : Env) (vs : VerifierSet)
    : result ContractError unit :=
  status ← ok_or FailedToVerifyVerifierSet (verifier_set_status env vs);
  if bool_decide (status ≠ SucceededOnSourceChain) then Err VerifierSetNotConfirmed else Ok tt.

Definition confirm_verifier_set (st : State) (env : Env) (sender : Addr)
    : result ContractError (State * PResponse) :=
  config ← expect (CONFIG st);
  verifier_set ← ok_or NoVerifierSetToConfirm (NEXT_VERIFIER_SET st);
  let sender_role := permission_control.sender_role (perm st) sender in
  _ ← (if negb (permission_control.contains sender_role permission_control.Governance)
       then ensure_verifier_set_verification env verifier_set else Ok tt);
  let st := set_next (set_current st (Some verifier_set)) None in
  Ok (st, add_message (SetActiveVerifiersAt (coordinator config) (all_active_verifiers st))
          (add_message (RegisterVerifierSetAt (multisig config) verifier_set) Response_new)).

Definition update_signing_threshold (st : State) (new_signing_threshold : threshold.MajorityThreshold)
    : result ContractError (State * PResponse) :=
  config ← map_err (λ _, StorageError) (item_load (CONFIG st));
  Ok (set_config st (Some (mkConfig (gateway config) (multisig config) (coordinator config)
        (service_registry config) (voting_verifier config) new_signing_threshold
        (service_name config) (chain_name config) (verifier_set_diff_threshold config)
        (encoder config) (key_type config) (domain_separator config))), Response_new).

Definition update_admin (st : State) (new_admin_address : string)
    : result ContractError (State * PResponse) :=
  new_admin ← map_err (λ _, FailedToUpdateAdmin) (addr_validate new_admin_address);
  Ok (set_perm st (permission_control.set_admin (perm st) new_admin), Response_new).

(** ** The reply ([contract/reply.rs]) *)

(** What the reply carries: a failure, no data, data that does not parse, an empty response,
    or a response with a session identifier or without one. *)
Inductive ReplyData :=
  | SubMsgFailure
  | MissingData
  | Unparsable
  | NoResponse
  | Session (id : option Z).

Definition start_multisig_reply (st : State) (reply : ReplyData)
    : result ContractError (State * PResponse) :=
  config ← map_err StdErr (item_load (CONFIG st));
  match reply with
  | SubMsgFailure | MissingData => Err ParseReply
  | Unparsable => Panic
  | NoResponse => Err InvalidContractReply
  | Session id =>
      payload_id ← map_err StdErr (item_load (REPLY_TRACKER st));
      session_id ← ok_or InvalidContractReply id;
      let st := set_sessions st (<[session_id := payload_id]> (MULTISIG_SESSION_PAYLOAD st)) in
      payload ← ok_or (StdErr NotFound) (PAYLOAD st !! payload_id);
      Ok (st, add_event (ProofUnderConstruction (chain_name config) payload_id session_id
                (default [] (message_ids payload))) Response_new)
  end.

(** ** Queries ([contract/query.rs]) *)

Inductive ProofStatus := Pending | Completed (execute_data : string).

Record ProofResponse := mkProof {
  p_session : Z;
  p_message_ids : list CrossChainId;
  p_payload : Payload;
  p_status : ProofStatus
}.

(** [m] is the answer of the multisig for the session, [iter] the order in which its signatures
    are iterated. *)
Definition proof (st : State) (m : option multisig.Multisig) (iter : list (string * Signature))
    (session_id : Z) : result ContractError ProofResponse :=
  config ← load_config st;
  payload_id ← ok_or (StdErr NotFound) (MULTISIG_SESSION_PAYLOAD st !! session_id);
  multisig ← ok_or (StdErr NotFound) m;
  payload ← ok_or (StdErr NotFound) (PAYLOAD st !! payload_id);
  status ← match multisig.m_state multisig with
           | multisig.Pending => Ok Pending
           | multisig.Completed _ =>
               sigs ← multisig.optimize_signatures multisig iter;
               data ← execute_data (encoder config) (domain_separator config)
                        (multisig.m_verifier_set multisig) sigs payload;
               Ok (Completed data)
           end;
  Ok (mkProof session_id (default [] (message_ids payload)) payload status).

(** [VerifierSetResponse] *)
Definition verifier_set_response (vs : VerifierSet) : string * VerifierSet :=
  (verifier_set.id vs, vs).

Definition query_current_verifier_set (st : State) : option (string * VerifierSet) :=
  verifier_set_response <$> CURRENT_VERIFIER_SET st.
Definition query_next_verifier_set (st : State) : option (string * VerifierSet) :=
  verifier_set_response <$> NEXT_VERIFIER_SET st.

(** ** Entry points ([contract.rs], [msg.rs]) *)

Record InstantiateMsg := mkInstantiate {
  admin_address : string;
  governance_address : string;
  gateway_address : string;
  multisig_address : string;
  coordinator_address : string;
  service_registry_address : string;
  voting_verifier_address : string;
  i_signing_threshold : threshold.MajorityThreshold;
  i_service_name : string;
  i_chain_name : string;
  i_verifier_set_diff_threshold : Z;
  i_encoder : Encoder;
  i_key_type : KeyType;
  i_domain_separator : string
}.

Inductive ExecuteMsg :=
  | ConstructProof (message_ids : list CrossChainId)
  | UpdateVerifierSet
  | ConfirmVerifierSet
  | UpdateSigningThreshold (new_signing_threshold : threshold.MajorityThreshold)
  | UpdateAdmin (new_admin_address : string).

Definition permissions (m : ExecuteMsg) : msgs_derive.MsgPermissions :=
  match m with
  | ConstructProof _ | ConfirmVerifierSet => msgs_derive.mkPerm [] [permission_control.Any] []
  | UpdateVerifierSet => msgs_derive.mkPerm [] [permission_control.Elevated] []
  | UpdateSigningThreshold _ | UpdateAdmin _ =>
      msgs_derive.mkPerm [] [permission_control.Governance] []
  end.

Inductive ExecuteError :=
  | Permission (e : permission_control.Error)
  | InvalidAddress (a : string)
  | InvalidChainName
  | Contract (e : ContractError).

Definition validate_cosmwasm_address (addr : string) : result ExecuteError Addr :=
  map_err (λ _, InvalidAddress addr) (addr_validate addr).

Definition instantiate (msg : InstantiateMsg) : result ExecuteError (State * PResponse) :=
  gateway ← validate_cosmwasm_address (gateway_address msg);
  multisig ← validate_cosmwasm_address (multisig_address msg);
  coordinator ← validate_cosmwasm_address (coordinator_address msg);
  service_registry ← validate_cosmwasm_address (service_registry_address msg);
  voting_verifier ← validate_cosmwasm_address (voting_verifier_address msg);
  chain_name ← map_err (λ _, InvalidChainName) (chain.from_str (i_chain_name msg));
  let config := mkConfig gateway multisig coordinator service_registry voting_verifier
    (i_signing_threshold msg) (i_service_name msg) chain_name (i_verifier_set_diff_threshold msg)
    (i_encoder msg) (i_key_type msg) (i_domain_separator msg) in
  admin ← validate_cosmwasm_address (admin_address msg);
  governance ← validate_cosmwasm_address (governance_address msg);
  let perm := permission_control.set_governance
    (permission_control.set_admin (permission_control.mkStorage None None) admin) governance in
  Ok (mkState perm (Some config) ∅ ∅ None None None, Response_new).

Definition execute (st : State) (env : Env) (sender : Addr) (m : ExecuteMsg)
    : result ExecuteError (State * PResponse) :=
  m ← map_err Permission (msgs_derive.ensure_permissions permissions
        (λ _ _ _, @Err unit bool tt) (perm st) sender m);
  map_err Contract
    match m with
    | ConstructProof ids => construct_proof st env ids
    | UpdateVerifierSet => update_verifier_set st env
    | ConfirmVerifierSet => confirm_verifier_set st env sender
    | UpdateSigningThreshold new_signing_threshold =>
        update_signing_threshold st new_signing_threshold
    | UpdateAdmin new_admin_address => update_admin st new_admin_address
    end.

(** ** The handlers, taken apart *)

Lemma load_config_Ok st c : load_config st = Ok c ↔ CONFIG st = Some c.
Proof. unfold load_config, item_load. by rewrite map_err_Ok, ok_or_Ok. Qed.

Lemma messages_of_Ok env ids chain ms :
  messages_of env ids chain = Ok ms ↔
    outgoing_messages env ids = Some ms ∧ length ms = length ids ∧
    Forall (λ m, destination_chain m = chain) ms.
Proof.
  unfold messages_of. rewrite bind_Ok. setoid_rewrite ok_or_Ok. split.
  - intros (l & Hl & Hf). ok_case. breflect.
    destruct (list_find _ l) as [[i m]|] eqn:Hfind; ok_inv. split_and!; [done..|].
    apply list_find_None in Hfind. eapply Forall_impl; [exact Hfind|].
    cbn. intros m Hm. by apply dec_stable.
  - intros (Hl & Hlen & Hall). exists ms. split; [done|].
    rewrite bool_decide_eq_true_2 by done. cbn.
    rewrite (proj2 (list_find_None _ ms)); [done|].
    eapply Forall_impl; [exact Hall|]. cbn. auto.
Qed.

(** The storage after a payload has been recorded for signing. *)
Definition track (st : State) (payload : Payload) : State :=
  set_tracker (set_payload st (<[payload_id payload := payload]> (PAYLOAD st)))
    (Some (payload_id payload)).

(** The request for signatures on a payload. *)
Definition signing_request (config : Config) (vs : VerifierSet) (digest : string) : OutMsg :=
  StartSigningSessionAt (multisig config) (verifier_set.id vs) digest (chain_name config) None.

Lemma construct_proof_Ok st env ids st' r :
  construct_proof st env ids = Ok (st', r) ↔
    ∃ config ms vs d, CONFIG st = Some config ∧
      messages_of env ids (chain_name config) = Ok ms ∧
      (∀ p, PAYLOAD st !! payload_id (Messages ms) = Some p → p = Messages ms) ∧
      CURRENT_VERIFIER_SET st = Some vs ∧
      digest (encoder config) (domain_separator config) vs (Messages ms) = Ok d ∧
      st' = track st (Messages ms) ∧
      r = mkResponse [signing_request config vs d] [].
Proof.
  unfold construct_proof. split.
  - intros Hf. apply bind_Ok in Hf as (config & Hc & Hf). apply load_config_Ok in Hc.
    apply bind_Ok in Hf as (ms & Hms & Hf). apply bind_Ok in Hf as (st1 & Hst1 & Hf).
    apply bind_Ok in Hf as (vs & Hvs & Hf). apply ok_or_Ok in Hvs.
    apply bind_Ok in Hf as (d & Hd & Hf). injection Hf as <- <-.
    assert (st1 = set_payload st (<[payload_id (Messages ms) := Messages ms]> (PAYLOAD st)) ∧
            ∀ p, PAYLOAD st !! payload_id (Messages ms) = Some p → p = Messages ms) as [-> Hp].
    { destruct (PAYLOAD st !! _) as [p|] eqn:Hp; [ok_case; breflect|]; injection Hst1 as <-; [|done].
      assert (p = Messages ms) as -> by (by apply dec_stable).
      split; [|congruence]. rewrite insert_id by done. by destruct st. }
    exists config, ms, vs, d. done.
  - intros (config & ms & vs & d & Hc & Hms & Hp & Hvs & Hd & -> & ->).
    rewrite (proj2 (load_config_Ok _ _) Hc). cbn. rewrite Hms. cbn.
    assert (match PAYLOAD st !! payload_id (Messages ms) with
            | Some p => if bool_decide (p ≠ Messages ms) then Err PayloadMismatch else Ok st
            | None => Ok (set_payload st (<[payload_id (Messages ms) := Messages ms]> (PAYLOAD st)))
            end = Ok (set_payload st (<[payload_id (Messages ms) := Messages ms]> (PAYLOAD st))))
      as ->.
    { destruct (PAYLOAD st !! _) as [p|] eqn:Hpl; [|done]. pose proof (Hp _ eq_refl) as ->.
      rewrite bool_decide_eq_false_2 by (intros []; done). rewrite insert_id by done.
      by destruct st. }
    cbn. rewrite Hvs. cbn. rewrite Hd. done.
Qed.

Lemma save_next_verifier_set_Ok st vs st' :
  save_next_verifier_set st vs = Ok st' ↔
    (NEXT_VERIFIER_SET st = None ∨ NEXT_VERIFIER_SET st = Some vs) ∧ st' = set_next st (Some vs).
Proof.
  unfold save_next_verifier_set, different_set_in_progress.
  destruct (NEXT_VERIFIER_SET st) as [next|]; [case_bool_decide|]; naive_solver congruence.
Qed.

(** The set proposed by an update: the pending one, or one built from the registry that
    differs enough from the current one. *)
Definition proposes (st : State) (env : Env) (config : Config) (cur vs : VerifierSet) : Prop :=
  NEXT_VERIFIER_SET st = Some vs ∨
  NEXT_VERIFIER_SET st = None ∧ make_verifier_set env config = Ok vs ∧
  should_update_verifier_set vs cur (verifier_set_diff_threshold config) = true.

Lemma next_verifier_set_Ok st env config cur vs :
  CURRENT_VERIFIER_SET st = Some cur →
  next_verifier_set st env config = Ok (Some vs) ↔ proposes st env config cur vs.
Proof.
  intros Hcur. unfold next_verifier_set, proposes. rewrite Hcur.
  destruct (NEXT_VERIFIER_SET st) as [next|]; [naive_solver|]. split.
  - intros Hf. ok_inv. ok_case. ok_inv. naive_solver.
  - intros [?|(_ & -> & Hs)]; [done|]. cbn. by rewrite Hs.
Qed.

Lemma update_verifier_set_Ok st env st' r :
  update_verifier_set st env = Ok (st', r) ↔
    ∃ config, CONFIG st = Some config ∧
      match CURRENT_VERIFIER_SET st with
      | None => ∃ vs, make_verifier_set env config = Ok vs ∧ st' = set_current st (Some vs) ∧
          r = mkResponse [RegisterVerifierSetAt (multisig config) vs;
                          SetActiveVerifiersAt (coordinator config)
                            (signer_addresses (verifier_set.signers vs))] []
      | Some cur => ∃ vs d, proposes st env config cur vs ∧
          digest (encoder config) (domain_separator config) cur (VerifierSetPayload vs) = Ok d ∧
          st' = track (set_next st (Some vs)) (VerifierSetPayload vs) ∧
          r = mkResponse [signing_request config cur d;
                          SetActiveVerifiersAt (coordinator config) (all_active_verifiers st')] []
      end.
Proof.
  unfold update_verifier_set. rewrite bind_Ok. setoid_rewrite load_config_Ok.
  apply exist_proper. intros config. apply and_iff_compat_l.
  destruct (CURRENT_VERIFIER_SET st) as [cur|] eqn:Hcur.
  - split.
    + intros Hf. apply bind_Ok in Hf as (next & Hnext & Hf).
      apply bind_Ok in Hf as (vs & Hvs & Hf). apply ok_or_Ok in Hvs as ->.
      apply bind_Ok in Hf as (st1 & Hst1 & Hf). apply save_next_verifier_set_Ok in Hst1 as [_ ->].
      apply bind_Ok in Hf as (d & Hd & Hf). injection Hf as <- <-.
      exists vs, d. split_and!; [by apply (next_verifier_set_Ok _ _ _ cur)|done..].
    + intros (vs & d & Hp & Hd & -> & ->).
      rewrite (proj2 (next_verifier_set_Ok _ _ _ _ _ Hcur) Hp). cbn.
      rewrite (proj2 (save_next_verifier_set_Ok st vs _)) by (unfold proposes in Hp; naive_solver).
      cbn. rewrite Hd. done.
  - split.
    + intros Hf. apply bind_Ok in Hf as (vs & Hvs & Hf). injection Hf as <- <-. eauto.
    + intros (vs & -> & -> & ->). done.
Qed.

Lemma confirm_verifier_set_Ok st env sender st' r :
  confirm_verifier_set st env sender = Ok (st', r) ↔
    ∃ config vs, CONFIG st = Some config ∧ NEXT_VERIFIER_SET st = Some vs ∧
      (permission_control.GOVERNANCE (perm st) = Some sender ∨
       verifier_set_status env vs = Some SucceededOnSourceChain) ∧
      st' = set_next (set_current st (Some vs)) None ∧
      r = mkResponse [RegisterVerifierSetAt (multisig config) vs;
                      SetActiveVerifiersAt (coordinator config) (all_active_verifiers st')] [].
Proof.
  assert (permission_control.contains (permission_control.sender_role (perm st) sender)
            permission_control.Governance = true ↔
          permission_control.GOVERNANCE (perm st) = Some sender) as Hgov.
  { rewrite permission_control.sender_role_spec. repeat case_bool_decide; cbn; naive_solver. }
  unfold confirm_verifier_set, ensure_verifier_set_verification. split.
  - intros Hf. apply bind_Ok in Hf as (config & Hc & Hf). apply expect_Ok in Hc.
    apply bind_Ok in Hf as (vs & Hvs & Hf). apply ok_or_Ok in Hvs.
    apply bind_Ok in Hf as ([] & Hv & Hf). injection Hf as <- <-.
    exists config, vs. split_and!; [done..| |done|done].
    destruct (permission_control.contains _ _) eqn:Hcon; [left; tauto|]. cbn in Hv.
    apply bind_Ok in Hv as (s & Hs & Hv). apply ok_or_Ok in Hs. ok_case. breflect. right.
    rewrite Hs. f_equal. by apply dec_stable.
  - intros (config & vs & Hc & Hvs & Hv & -> & ->). rewrite Hc, Hvs. cbn.
    destruct (permission_control.contains _ _) eqn:Hcon; [done|]. cbn.
    destruct Hv as [Hv|Hv]; [apply Hgov in Hv; congruence|]. by rewrite Hv.
Qed.

(** The handler a message is dispatched to. *)
Definition handle (st : State) (env : Env) (sender : Addr) (m : ExecuteMsg)
    : result ContractError (State * PResponse) :=
  match m with
  | ConstructProof ids => construct_proof st env ids
  | UpdateVerifierSet => update_verifier_set st env
  | ConfirmVerifierSet => confirm_verifier_set st env sender
  | UpdateSigningThreshold t => update_signing_threshold st t
  | UpdateAdmin a => update_admin st a
  end.

(** Who may send a message. *)
Definition may_send (st : State) (sender : Addr) (m : ExecuteMsg) : Prop :=
  match m with
  | ConstructProof _ | ConfirmVerifierSet => True
  | UpdateVerifierSet =>
      permission_control.ADMIN (perm st) = Some sender ∨
      permission_control.GOVERNANCE (perm st) = Some sender
  | UpdateSigningThreshold _ | UpdateAdmin _ =>
      permission_control.GOVERNANCE (perm st) = Some sender
  end.

Lemma prover_execute_Ok st env sender m p :
  execute st env sender m = Ok p ↔ may_send st sender m ∧ handle st env sender m = Ok p.
Proof.
  assert (msgs_derive.ensure_permissions permissions (λ _ _ _, @Err unit bool tt) (perm st)
            sender m = Ok m ↔ may_send st sender m) as Hperm.
  { rewrite msgs_derive.ensure_permissions_general by (by destruct m).
    destruct m; cbn [may_send permissions msgs_derive.general foldr]; rewrite Z.lor_0_r.
    - split; [done|]. by left.
    - rewrite msgs_derive.land_elevated. naive_solver.
    - split; [done|]. by left.
    - rewrite msgs_derive.land_governance. naive_solver.
    - rewrite msgs_derive.land_governance. naive_solver. }
  unfold execute. rewrite bind_Ok. setoid_rewrite map_err_Ok. split.
  - intros (m' & Hm & Hf). pose proof (msgs_derive.ensure_permissions_same _ _ _ _ _ _ Hm) as ->.
    split; [by apply Hperm|]. by destruct m.
  - intros [Hm Hf]. exists m. split; [by apply Hperm|]. by destruct m.
Qed.

(** ** The rotation of verifier sets *)

(** The ways in which the current and the pending set can change. *)
Inductive rotation (st : State) (env : Env) (sender : Addr) (m : ExecuteMsg) :
    option VerifierSet → option VerifierSet → Prop :=
  | first_set config vs :
      m = UpdateVerifierSet → CONFIG st = Some config → CURRENT_VERIFIER_SET st = None →
      make_verifier_set env config = Ok vs →
      rotation st env sender m (Some vs) (NEXT_VERIFIER_SET st)
  | proposed_set config cur vs :
      m = UpdateVerifierSet → CONFIG st = Some config → CURRENT_VERIFIER_SET st = Some cur →
      NEXT_VERIFIER_SET st = None → make_verifier_set env config = Ok vs →
      should_update_verifier_set vs cur (verifier_set_diff_threshold config) = true →
      rotation st env sender m (Some cur) (Some vs)
  | confirmed_set vs :
      m = ConfirmVerifierSet → NEXT_VERIFIER_SET st = Some vs →
      permission_control.GOVERNANCE (perm st) = Some sender ∨
      verifier_set_status env vs = Some SucceededOnSourceChain →
      rotation st env sender m (Some vs) None.

Lemma handle_rotation st env sender m st' r :
  handle st env sender m = Ok (st', r) →
  CURRENT_VERIFIER_SET st' = CURRENT_VERIFIER_SET st ∧ NEXT_VERIFIER_SET st' = NEXT_VERIFIER_SET st ∨
  rotation st env sender m (CURRENT_VERIFIER_SET st') (NEXT_VERIFIER_SET st').
Proof.
  destruct m as [ids| | |t|a]; cbn [handle]; intros Hf.
  - apply construct_proof_Ok in Hf as (? & ? & ? & ? & _ & _ & _ & _ & _ & -> & _). by left.
  - apply update_verifier_set_Ok in Hf as (config & Hc & Hf).
    destruct (CURRENT_VERIFIER_SET st) as [cur|] eqn:Hcur.
    + destruct Hf as (vs & d & [Hn|(Hn & Hmake & Hs)] & _ & -> & _); cbn; [left; by rewrite Hn|].
      right. rewrite Hcur. by eapply proposed_set.
    + destruct Hf as (vs & Hmake & -> & _). right. cbn. by eapply first_set.
  - apply confirm_verifier_set_Ok in Hf as (config & vs & _ & Hn & Hv & -> & _).
    right. cbn. by eapply confirmed_set.
  - unfold update_signing_threshold in Hf. ok_inv. injection Hf as <- <-. by left.
  - unfold update_admin in Hf. ok_inv. injection Hf as <- <-. by left.
Qed.

(** ** The active set reported to the coordinator *)

(** The set the coordinator holds for this prover after some messages. *)
Fixpoint reported (old : gset string) (l : list OutMsg) : gset string :=
  match l with
  | [] => old
  | SetActiveVerifiersAt _ verifiers :: l => reported verifiers l
  | _ :: l => reported old l
  end.

(** What a prover does after its creation, with the set it last reported. *)
Inductive run : State → gset string → Prop :=
  | run_instantiate msg st r : instantiate msg = Ok (st, r) → run st ∅
  | run_execute st a env sender m st' r :
      run st a → execute st env sender m = Ok (st', r) → run st' (reported a (messages r))
  | run_reply st a reply st' r :
      run st a → start_multisig_reply st reply = Ok (st', r) → run st' (reported a (messages r)).

(** A pending set has a current set before it, and the active set is the one reported. *)
Record prover_inv (st : State) (a : gset string) : Prop := {
  inv_pending : CURRENT_VERIFIER_SET st = None → NEXT_VERIFIER_SET st = None;
  inv_reported : a = all_active_verifiers st
}.

Lemma start_multisig_reply_Ok st reply st' r :
  start_multisig_reply st reply = Ok (st', r) →
  ∃ config i p payload, CONFIG st = Some config ∧ reply = Session (Some i) ∧
    REPLY_TRACKER st = Some p ∧ PAYLOAD st !! p = Some payload ∧
    st' = set_sessions st (<[i := p]> (MULTISIG_SESSION_PAYLOAD st)) ∧
    r = mkResponse [] [ProofUnderConstruction (chain_name config) p i
                         (default [] (message_ids payload))].
Proof.
  unfold start_multisig_reply, item_load. intros Hf.
  apply bind_Ok in Hf as (config & Hc & Hf). rewrite map_err_Ok, ok_or_Ok in Hc.
  destruct reply as [| | | |i]; try done.
  apply bind_Ok in Hf as (p & Hp & Hf). rewrite map_err_Ok, ok_or_Ok in Hp.
  apply bind_Ok in Hf as (j & Hj & Hf). apply ok_or_Ok in Hj as ->.
  apply bind_Ok in Hf as (payload & Hpl & Hf). apply ok_or_Ok in Hpl. injection Hf as <- <-.
  exists config, j, p, payload. done.
Qed.

Lemma handle_inv st a env sender m st' r :
  prover_inv st a → handle st env sender m = Ok (st', r) →
  prover_inv st' (reported a (messages r)).
Proof.
  intros [Hp Ha] Hf. destruct m as [ids| | |t|addr]; cbn [handle] in Hf.
  - apply construct_proof_Ok in Hf as (? & ? & ? & ? & _ & _ & _ & _ & _ & -> & ->). by split.
  - apply update_verifier_set_Ok in Hf as (config & Hc & Hf).
    destruct (CURRENT_VERIFIER_SET st) as [cur|] eqn:Hcur.
    + destruct Hf as (vs & d & _ & _ & -> & ->). split; [|done]. cbn. congruence.
    + destruct Hf as (vs & _ & -> & ->). split; [done|].
      unfold all_active_verifiers. cbn. rewrite Hp by done. cbn. set_solver.
  - apply confirm_verifier_set_Ok in Hf as (config & vs & _ & Hn & Hv & -> & ->). by split.
  - unfold update_signing_threshold in Hf. ok_inv. injection Hf as <- <-. by split.
  - unfold update_admin in Hf. ok_inv. injection Hf as <- <-. by split.
Qed.

Lemma prover_run_inv st a : run st a → prover_inv st a.
Proof.
  induction 1 as [msg st r Hi|st a env sender m st' r _ IH Hf|st a reply st' r _ IH Hf].
  - unfold instantiate in Hi. ok_inv. injection Hi as <- <-. by split.
  - apply prover_execute_Ok in Hf as [_ Hf]. by eapply handle_inv.
  - apply start_multisig_reply_Ok in Hf as (? & ? & ? & ? & _ & _ & _ & _ & -> & ->).
    destruct IH as [Hp Ha]. by split.
Qed.

(** ** Building a set *)

Lemma participants_with_pubkeys_elem env config ws p pk :
  (p, pk) ∈ participants_with_pubkeys env config ws ↔
    ∃ w, w ∈ ws ∧ p = service_registry.Participant_from w ∧
      public_key env (service_registry.address_of w) (key_type config) = Some pk.
Proof.
  unfold participants_with_pubkeys. rewrite list_elem_of_omap. apply exist_proper. intros w.
  apply and_iff_compat_l. unfold service_registry.address_of.
  destruct (public_key env _ _) as [k|]; cbn; naive_solver.
Qed.

(** The participants with a key are a part of the verifiers. *)
Lemma participants_with_pubkeys_sublist env config ws :
  (participants_with_pubkeys env config ws).*1 `sublist_of` service_registry.Participant_from <$> ws.
Proof.
  induction ws as [|w ws IH]; [done|]. unfold participants_with_pubkeys in *. cbn.
  destruct (public_key env _ _); cbn; by constructor.
Qed.

Lemma sublist_sum_le (l k : list Z) :
  l `sublist_of` k → Forall (λ x, 0 ≤ x) k → sum_list l ≤ sum_list k.
Proof.
  induction 1 as [|x l k _ IH|x l k _ IH]; intros Hk; [done|..];
    apply Forall_cons in Hk as [? Hk]; cbn; specialize (IH Hk); lia.
Qed.

(** The entries of the map of signers, in the order of the participants. *)
Definition signer_entries (ps : list (snapshot.Participant * PublicKey)) : list (string * Signer) :=
  (λ '(participant, pub_key),
    (snapshot.address participant,
     verifier_set.mkSigner (snapshot.address participant) (snapshot.weight participant) pub_key))
  <$> ps.

Lemma signer_entries_NoDup ps :
  NoDup (snapshot.address <$> ps.*1) → NoDup (reverse (signer_entries ps)).*1.
Proof.
  intros Hnd. rewrite fmap_reverse. apply (NoDup_Permutation_proper _ _ (reverse_Permutation _)).
  unfold signer_entries. rewrite <-list_fmap_compose. rewrite <-list_fmap_compose in Hnd.
  erewrite list_fmap_ext; [exact Hnd|]. by intros i [p pk].
Qed.

Lemma new_signers_lookup ps q h a s :
  NoDup (snapshot.address <$> ps.*1) →
  verifier_set.signers (verifier_set.new ps q h) !! a = Some s ↔
    ∃ p pk, (p, pk) ∈ ps ∧ snapshot.address p = a ∧
      s = verifier_set.mkSigner a (snapshot.weight p) pk.
Proof.
  intros Hnd. cbn. rewrite <-elem_of_list_to_map by (by apply signer_entries_NoDup).
  rewrite elem_of_reverse, list_elem_of_fmap. split.
  - intros ([p pk] & [= -> ->] & Hin). eauto.
  - intros (p & pk & Hin & <- & ->). by exists (p, pk).
Qed.

Lemma new_signers_size ps q h :
  NoDup (snapshot.address <$> ps.*1) →
  size (verifier_set.signers (verifier_set.new ps q h)) = length ps ∧
  multisig.total_weight (verifier_set.new ps q h) = sum_list (snapshot.weight <$> ps.*1).
Proof.
  intros Hnd.
  assert (map_to_list (verifier_set.signers (verifier_set.new ps q h)) ≡ₚ signer_entries ps) as Hl.
  { cbn. rewrite map_to_list_to_map by (by apply signer_entries_NoDup).
    apply reverse_Permutation. }
  split.
  - rewrite <-length_map_to_list, Hl. unfold signer_entries. by rewrite length_fmap.
  - unfold multisig.total_weight. rewrite map_sum_list.
    rewrite Hl. unfold signer_entries.
    f_equal. rewrite <-!list_fmap_compose. apply list_fmap_ext. by intros i [p pk].
Qed.

(** What the service registry answers: distinct verifiers with positive weights that add up
    within 128 bits. *)
Definition registry_answer_ok (ws : list service_registry.WeightedVerifier) : Prop :=
  NoDup (service_registry.address_of <$> ws) ∧
  Forall (λ w, 1 ≤ service_registry.w_weight w) ws ∧
  sum_list (service_registry.w_weight <$> ws) ≤ u128_max.

Lemma participants_valid env config ws :
  registry_answer_ok ws →
  let ps := (participants_with_pubkeys env config ws).*1 in
  NoDup (snapshot.address <$> ps) ∧ Forall (λ p, 1 ≤ snapshot.weight p) ps ∧
  sum_list (snapshot.weight <$> ps) ≤ u128_max.
Proof.
  intros (Hnd & Hw & Hsum) ps.
  pose proof (participants_with_pubkeys_sublist env config ws) as Hsub. fold ps in Hsub.
  assert (Forall (λ p, 1 ≤ snapshot.weight p) (service_registry.Participant_from <$> ws)) as Hw'
    by (by apply Forall_fmap).
  split_and!.
  - eapply sublist_NoDup; [|apply (fmap_sublist snapshot.address), Hsub].
    by rewrite <-list_fmap_compose.
  - rewrite Forall_forall in *. intros p Hp. apply Hw'. by eapply elem_of_sublist.
  - etrans; [|exact Hsum]. etrans.
    + apply sublist_sum_le; [apply (fmap_sublist snapshot.weight), Hsub|].
      apply Forall_fmap. eapply Forall_impl; [exact Hw'|]. cbn. lia.
    + by rewrite <-list_fmap_compose.
Qed.

(** ** Properties *)

(** C17: Verifier sets rotate only in the intended way. When an accepted call changes the
    current or the pending verifier set of a prover, then it is one of three: the very first
    set, built from the registry; a proposal, built from the registry while no other is pending
    and different enough from the current set, which leaves the current set in place; or a
    confirmation, by which the pending set becomes the current one, sent by the governance
    account or after the voting verifier has confirmed that set on the external chain. The
    first two are sent by the admin or the governance account. *)
Theorem verifier_sets_rotate (st : State) (env : Env) (sender : Addr) (m : ExecuteMsg)
    (st' : State) (r : PResponse) :
  execute st env sender m = Ok (st', r) →
  (CURRENT_VERIFIER_SET st' = CURRENT_VERIFIER_SET st ∧
   NEXT_VERIFIER_SET st' = NEXT_VERIFIER_SET st) ∨
  rotation st env sender m (CURRENT_VERIFIER_SET st') (NEXT_VERIFIER_SET st') ∧
  (m = UpdateVerifierSet →
   permission_control.ADMIN (perm st) = Some sender ∨
   permission_control.GOVERNANCE (perm st) = Some sender).
Proof.
  intros Hf. apply prover_execute_Ok in Hf as [Hm Hf].
  destruct (handle_rotation _ _ _ _ _ _ Hf) as [Hsame|Hrot]; [by left|right].
  split; [done|]. intros ->. exact Hm.
Qed.

(** The coordinator is told of every active verifier. Through any sequence of calls and
    replies after the creation of a prover, the set it last reported is exactly the set of the
    addresses of the signers of its current and of its pending verifier set. *)
Theorem active_set_reported (st : State) (a : gset string) (v : Addr) :
  run st a →
  v ∈ a ↔ ∃ vs s, (CURRENT_VERIFIER_SET st = Some vs ∨ NEXT_VERIFIER_SET st = Some vs) ∧
    ∃ k, verifier_set.signers vs !! k = Some s ∧ verifier_set.address s = v.
Proof.
  intros [_ ->]%prover_run_inv.
  assert (∀ m, v ∈ signer_addresses m ↔ ∃ k s, m !! k = Some s ∧ verifier_set.address s = v) as Hin.
  { intros m. unfold signer_addresses. rewrite elem_of_list_to_set, list_elem_of_fmap. split.
    - intros (s & -> & Hs). apply list_elem_of_fmap in Hs as ([k s'] & -> & Hs).
      apply elem_of_map_to_list in Hs. eauto.
    - intros (k & s & Hs & <-). exists s. split; [done|].
      apply list_elem_of_fmap. exists (k, s). by rewrite elem_of_map_to_list. }
  assert (∀ o, v ∈ signer_addresses (default ∅ (verifier_set.signers <$> o)) ↔
    ∃ vs s, o = Some vs ∧ ∃ k, verifier_set.signers vs !! k = Some s ∧ verifier_set.address s = v)
    as Ho.
  { intros [vs|]; rewrite Hin; csimpl; [naive_solver|]. split; [|naive_solver].
    intros (k & s & Hk & _). by rewrite lookup_empty in Hk. }
  unfold all_active_verifiers. rewrite elem_of_union, !Ho. clear. naive_solver.
Qed.

(** C38: A new verifier set is the registry's answer with a majority threshold. When the
    registry answers with distinct verifiers of positive weight, the set that a prover builds
    has as signers exactly the active verifiers that have a public key of the prover's key
    type, with their weights; there are at least as many as the service requires; and its
    threshold is more than half and at most all of their weight. *)
Theorem make_verifier_set_sound (env : Env) (config : Config)
    (ws : list service_registry.WeightedVerifier) (vs : VerifierSet) :
  threshold.majority_wf (signing_threshold config) →
  active_verifiers env = Some ws → registry_answer_ok ws →
  make_verifier_set env config = Ok vs →
  (∀ a s, verifier_set.signers vs !! a = Some s ↔
     ∃ w pk, w ∈ ws ∧ service_registry.address_of w = a ∧
       public_key env a (key_type config) = Some pk ∧
       s = verifier_set.mkSigner a (service_registry.w_weight w) pk) ∧
  (∃ n, min_num_verifiers env = Some n ∧ n ≤ Z.of_nat (size (verifier_set.signers vs))) ∧
  multisig.total_weight vs < 2 * verifier_set.threshold vs ∧
  verifier_set.threshold vs ≤ multisig.total_weight vs ∧
  verifier_set.created_at vs = height env.
Proof.
  intros Ht Hws Hok Hf. unfold make_verifier_set in Hf. rewrite Hws in Hf. cbn in Hf.
  apply bind_Ok in Hf as (n & Hn & Hf). apply ok_or_Ok in Hn. ok_case. breflect.
  apply bind_Ok in Hf as (l & Hl & Hf). apply map_err_Ok in Hl.
  apply bind_Ok in Hf as (sn & Hsn & Hf). injection Hf as <-.
  set (ps := participants_with_pubkeys env config ws) in *.
  destruct (participants_valid env config ws Hok) as (Hnd & Hw & Hsum). fold ps in Hnd, Hw, Hsum.
  assert (l = ps.*1 ∧ ps.*1 ≠ []) as [-> Hne].
  { unfold nonempty.vec_try_from in Hl. by destruct ps.*1; ok_inv. }
  destruct (snapshot_new_Ok (signing_threshold config) ps.*1 Ht) as (sn' & Hsn' & _ & _ & Hq & Hc);
    [done|]. pose proof (Hsn' ContractError). assert (sn' = sn) as -> by congruence.
  destruct (new_signers_size ps (snapshot.quorum sn) (height env) Hnd) as [Hsize Htot].
  rewrite Htot, Hsize. split_and!; [|exists n; split; [done|lia]|..|done].
  - intros a s. rewrite new_signers_lookup by done. split.
    + intros (p & pk & Hin & <- & ->). apply participants_with_pubkeys_elem in Hin
        as (w & Hin & -> & Hpk). exists w, pk. done.
    + intros (w & pk & Hin & <- & Hpk & ->). exists (service_registry.Participant_from w), pk.
      split_and!; [|done..]. apply participants_with_pubkeys_elem. by exists w.
  - destruct Ht as [[? ?] ?]; cbn in *. nia.
  - cbn. lia.
Qed.

(** A proof is requested exactly for the gateway's outgoing messages. A call that asks for
    a proof succeeds exactly when the gateway holds a message for every identifier, all of them
    bound for the prover's chain, no other payload is stored under their identifier, and there
    is a current verifier set; then the payload is stored and the multisig is asked to sign the
    digest of exactly those messages for the current set. *)
Theorem construct_proof_exact (st : State) (env : Env) (sender : Addr) (ids : list CrossChainId)
    (st' : State) (r : PResponse) :
  execute st env sender (ConstructProof ids) = Ok (st', r) ↔
  ∃ config ms vs d, CONFIG st = Some config ∧ CURRENT_VERIFIER_SET st = Some vs ∧
    outgoing_messages env ids = Some ms ∧ length ms = length ids ∧
    Forall (λ m, destination_chain m = chain_name config) ms ∧
    (∀ p, PAYLOAD st !! payload_id (Messages ms) = Some p → p = Messages ms) ∧
    digest (encoder config) (domain_separator config) vs (Messages ms) = Ok d ∧
    st' = track st (Messages ms) ∧
    r = mkResponse [signing_request config vs d] [].
Proof.
  rewrite prover_execute_Ok. cbn [may_send handle]. rewrite construct_proof_Ok.
  setoid_rewrite messages_of_Ok. split.
  - intros (_ & config & ms & vs & d & ? & (? & ? & ?) & ?). exists config, ms, vs, d. naive_solver.
  - intros (config & ms & vs & d & ?). split; [done|]. exists config, ms, vs, d. naive_solver.
Qed.

End contract.
End multisig_prover.

(** ** A run: a first set, a proposal, its confirmation and a proof *)
Module multisig_prover_run.
Import router_api key multisig_prover.

Definition run_api : Api := {| addr_validate := λ s, Ok s |}.
Definition run_crypto : Crypto :=
  Build_Crypto (λ s, s) (λ _ _ _, Some true) (λ _ _ _, Some true) Some Some.
(** A digest that lists what is signed. *)
Definition run_encoder : EncoderExt := {|
  digest := λ _ ds vs p, Ok (ds +:+ @verifier_set.hash run_crypto vs +:+ @payload_id run_crypto p);
  execute_data := λ _ _ _ _ p, Ok (@payload_id run_crypto p)
|}.
#[local] Existing Instances run_api run_crypto codecs.hex_codec run_encoder.

Definition run_verifier (a : Addr) : service_registry.WeightedVerifier :=
  service_registry.mkWeighted (service_registry.mkVerifier a (service_registry.Bonded 100)
    service_registry.Authorized "amp") 1.

Definition run_message (n : string) : Message :=
  mkMessage (mkCcId "eth" n) "0xa" "sui" "0xb" (String.string_of_list_ascii (replicate 32 "0"%char)).

(** The verifiers [l] are active, each with a key, and every set is confirmed. *)
Definition run_env (h : Z) (l : list Addr) : Env :=
  mkEnv h (λ ids, Some ((λ c, run_message (message_id c)) <$> ids))
    (Some (run_verifier <$> l)) (Some 1) (λ a _, Some (PkEcdsa a))
    (λ _, Some SucceededOnSourceChain).

Definition run_instantiate_msg : InstantiateMsg :=
  mkInstantiate "admin" "gov" "gateway" "multisig" "coordinator" "registry" "verifier" two_thirds
    "amp" "sui" 0 Bcs Ecdsa "separator".

Definition run0 : State :=
  match instantiate run_instantiate_msg with
  | Ok (st, _) => st
  | _ => mkState (permission_control.mkStorage None None) None ∅ ∅ None None None
  end.

Definition next (st : State) (env : Env) (sender : Addr) (m : ExecuteMsg) : State * PResponse :=
  match execute st env sender m with Ok p => p | _ => (st, Response_new) end.

Definition run1 := next run0 (run_env 1 ["a"; "b"; "c"]) "admin" UpdateVerifierSet.
Definition run2 := next run1.1 (run_env 2 ["b"; "c"; "d"]) "admin" UpdateVerifierSet.
Definition run3 := next run2.1 (run_env 3 []) "anyone" ConfirmVerifierSet.
Definition proof_ids : list CrossChainId := [mkCcId "eth" "m1"].
Definition run4 := next run3.1 (run_env 4 []) "anyone" (ConstructProof proof_ids).

Lemma next_Ok st env sender m :
  is_ok (execute st env sender m) = true →
  execute st env sender m = Ok ((next st env sender m).1, (next st env sender m).2).
Proof. unfold next. by destruct (execute st env sender m) as [[]|e|]. Qed.

Lemma run0_run : run run0 ∅.
Proof. by apply (run_instantiate run_instantiate_msg run0 Response_new). Qed.
Lemma run2_run :
  run run2.1 (reported (reported ∅ (messages run1.2)) (messages run2.2)).
Proof.
  eapply run_execute; [eapply run_execute; [exact run0_run|]|];
    apply next_Ok; vm_compute; reflexivity.
Qed.

Lemma verifier_sets_rotate_witness :
  rotation run2.1 (run_env 3 []) "anyone" ConfirmVerifierSet (CURRENT_VERIFIER_SET run3.1)
    (NEXT_VERIFIER_SET run3.1).
Proof.
  destruct (verifier_sets_rotate run2.1 (run_env 3 []) "anyone" ConfirmVerifierSet run3.1 run3.2)
    as [[_ Hn]|[Hr _]]; [apply next_Ok; vm_compute; reflexivity| |exact Hr].
  assert (match NEXT_VERIFIER_SET run3.1, NEXT_VERIFIER_SET run2.1 with
          | None, Some _ => true | _, _ => false end = true) as Hc by (vm_compute; reflexivity).
  rewrite Hn in Hc. by destruct (NEXT_VERIFIER_SET run2.1).
Defined.

(** The verifier that leaves is reported as long as the new set is pending. *)
Lemma active_set_reported_witness :
  ∃ vs s, (CURRENT_VERIFIER_SET run2.1 = Some vs ∨ NEXT_VERIFIER_SET run2.1 = Some vs) ∧
    ∃ k, verifier_set.signers vs !! k = Some s ∧ verifier_set.address s = "a".
Proof.
  apply (active_set_reported run2.1 _ "a" run2_run).
  apply (bool_decide_unpack _). vm_compute. exact I.
Defined.

Definition run_config : Config :=
  mkConfig "gateway" "multisig" "coordinator" "registry" "verifier" two_thirds "amp" "sui" 0 Bcs
    Ecdsa "separator".
Definition run_set : verifier_set.VerifierSet :=
  match make_verifier_set (run_env 1 ["a"; "b"; "c"]) run_config with
  | Ok vs => vs | _ => verifier_set.mkVerifierSet ∅ 0 0 end.

Lemma make_verifier_set_sound_witness :
  multisig.total_weight run_set < 2 * verifier_set.threshold run_set.
Proof.
  refine (proj1 (proj2 (proj2 (make_verifier_set_sound (run_env 1 ["a"; "b"; "c"]) run_config
    (run_verifier <$> ["a"; "b"; "c"]) run_set two_thirds_wf eq_refl _ _)))).
  - split_and!; [apply (bool_decide_unpack _); vm_compute; exact I| |vm_compute; discriminate].
    repeat apply Forall_cons_2; [done..|apply Forall_nil_2].
  - vm_compute. reflexivity.
Defined.

Lemma construct_proof_exact_witness :
  ∃ ms, PAYLOAD run4.1 !! payload_id (Messages ms) = Some (Messages ms) ∧
    length ms = length proof_ids.
Proof.
  destruct (proj1 (construct_proof_exact run3.1 (run_env 4 []) "anyone" proof_ids run4.1 run4.2))
    as (config & ms & vs & d & _ & _ & _ & Hlen & _ & _ & _ & Hst & _);
    [apply next_Ok; vm_compute; reflexivity|].
  exists ms. split; [|exact Hlen]. rewrite Hst. apply lookup_insert_eq.
Defined.

End multisig_prover_run.
