(* ===== verification/Encoding.v ===== *)
(** * The encoders of the prover

    [contracts/multisig-prover/src/encoding]: what the verifiers sign for a payload
    ([payload_digest]) and what a relayer submits to the external gateway
    ([encode_execute_data]), for EVM chains ([abi.rs], with [packages/evm-gateway]), for Sui
    ([bcs.rs], with [packages/sui-gateway]) and for Stellar ([stellar_xdr.rs], with
    [external-gateways/stellar]), dispatched by [encoding/mod.rs].

    The three crates declare the same structures (weighted signers, a message) with their own
    conversions; the structures are declared once here. The serializers are other crates: they
    are operations on the values they serialize, and what the digests need of them is that they
    are unambiguous for values of one type. A text that goes to Stellar is first read by its crate
    ([string_m_from_str]), which resolves escape sequences. *)

From Stdlib Require Import Ascii.
From S2P Require Import Prelude Std Voting MsgId RouterApi Multisig VotingVerifier MultisigProver.

Module encoding.
Import key.
Import multisig_prover(Payload, Messages, VerifierSetPayload, Encoder, Abi, Bcs, StellarXdr, Solana,
  ContractError, InvalidVerifierSet, InvalidMessage, SerializeData, EncoderNotImplemented,
  EncoderExt, digest, execute_data).
Notation ProofError := multisig_prover.Proof (only parsing).
Notation Signer := verifier_set.Signer (only parsing).
Notation VerifierSet := verifier_set.VerifierSet (only parsing).

(** ** Values that other crates serialize *)

(** [ethers_core::abi::Token] *)
Inductive Token :=
  | TokUint (n : Z)
  | TokAddress (a : string)
  | TokFixedBytes (b : string)
  | TokString (s : string)
  | TokBytes (b : string)
  | TokArray (ts : list Token)
  | TokTuple (ts : list Token).

(** What [serde] passes to [bcs] for the structures below. *)
Inductive BcsValue :=
  | BcsU128 (n : Z)
  | BcsFixed (b : string)
  | BcsBytes (b : string)
  | BcsString (s : string)
  | BcsSeq (vs : list BcsValue)
  | BcsStruct (vs : list BcsValue).

(** [stellar_xdr::curr::ScVal]; the keys of a map are symbols here. *)
Inductive ScVal :=
  | ScBytes (b : string)
  | ScString (s : string)
  | ScSymbol (s : string)
  | ScU128 (n : Z)
  | ScContract (hash : string)
  | ScVec (vs : list ScVal)
  | ScMap (entries : list (string * ScVal)).

Class ChainCodecs := {
  (** [ethers]: [encode], [Address::from_str], the selectors that [abigen!] computes *)
  abi_encode : list Token → string;
  h160_from_str : string → option string;
  approve_messages_selector : string;
  rotate_signers_selector : string;
  (** [k256] and [public_key_to_address]: the address of a SEC1 encoded key, the bytes of a
      signature, and the recovery identifier of a signature of a message by a key *)
  sec1_to_address : string → option string;
  signature_from_slice : string → option string;
  trial_recovery : string → string → string → option Z;
  (** [bcs::to_bytes] *)
  bcs_to_bytes : BcsValue → option string;
  (** [WriteXdr::to_xdr] without limits, [StringM::<max>::from_str], which reads escapes, and
      [Contract::from_string] *)
  to_xdr : ScVal → option string;
  string_m_from_str (max : Z) : string → option string;
  contract_from_string : string → option string
}.

(** ** The structures the gateways share *)

Inductive CommandType := ApproveMessages | RotateSigners.

Record WeightedSigner := mkWeighted { signer : string; weight : Z }.

Record WeightedSigners := mkSigners {
  signers : list WeightedSigner;
  threshold : Z;
  nonce : string
}.

Record Message := mkMsg {
  source_chain : string;
  message_id : string;
  source_address : string;
  destination : string;
  payload_hash : string
}.

(** [From<&Payload> for CommandType] *)
Definition command_type (p : Payload) : CommandType :=
  match p with Messages _ => ApproveMessages | VerifierSetPayload _ => RotateSigners end.

Definition signer_le (s t : WeightedSigner) : Prop := String.le (signer s) (signer t).
#[global] Instance signer_le_dec : RelDecision signer_le.
Proof. intros s t. unfold signer_le. apply _. Defined.

(** [Uint256::from(created_at).to_be_bytes()] *)
Definition nonce_of (vs : VerifierSet) : string := to_be_bytes 32 (verifier_set.created_at vs).

Inductive Error :=
  | EInvalidPublicKey
  | EInvalidAddress
  | EUnsupportedPublicKey
  | EUnsupportedSignature
  | EInvalidSignature.

(** The signers of a verifier set, converted by [f] in the order of the signer map, then sorted. *)
Definition convert_signers (f : PublicKey → result Error string) (vs : VerifierSet)
    : result Error WeightedSigners :=
  signers ← try_map (λ '(_, s), id ← f (verifier_set.pub_key s);
                                Ok (mkWeighted id (verifier_set.weight s)))
              (entries (verifier_set.signers vs));
  Ok (mkSigners (merge_sort signer_le signers) (verifier_set.threshold vs) (nonce_of vs)).

(** The fields of a message, with the destination address parsed by [f]. *)
Definition convert_message (f : string → option string) (m : router_api.Message)
    : result Error Message :=
  dest ← ok_or EInvalidAddress (f (router_api.destination_address m));
  Ok (mkMsg (router_api.source_chain (router_api.cc_id m))
        (router_api.message_id (router_api.cc_id m)) (router_api.source_address m) dest
        (router_api.payload_hash m)).

Section signatures.
Context `{ChainCodecs}.

(** ** Recoverable signatures ([contracts/multisig/src/key.rs]) *)

Definition to_recoverable_signature (sig msg : string) (pub_key : PublicKey)
    (recovery_transform : Z → result ContractError Z) : result ContractError string :=
  sig ← expect (signature_from_slice sig);
  recovery_byte ← expect (trial_recovery (pub_key_bytes pub_key) msg sig);
  byte ← recovery_transform recovery_byte;
  Ok (sig +:+ to_be_bytes 1 byte).

(** [to_recoverable] of [abi.rs] and of [bcs.rs], which differ in the transformation of the
    recovery byte. A signature that cannot be converted is a panic. *)
Definition to_recoverable (recovery_transform : Z → result ContractError Z) (msg : string)
    (sigs : list (Signer * Signature)) : result ContractError (list (Signer * Signature)) :=
  try_map (λ '(s, sig),
    match sig with
    | SigEcdsa nonrecoverable =>
        r ← to_recoverable_signature nonrecoverable msg (verifier_set.pub_key s) recovery_transform;
        Ok (s, SigEcdsaRecoverable r)
    | _ => Ok (s, sig)
    end) sigs.

End signatures.

(** ** EVM chains *)
Module abi.
Section encoder.
Context `{Crypto} `{ChainCodecs}.

Definition evm_address (pub_key : PublicKey) : result Error string :=
  match pub_key with
  | PkEcdsa k => ok_or EInvalidPublicKey (sec1_to_address k)
  | PkEd25519 _ => Err EInvalidPublicKey
  end.

Definition weighted_signers (vs : VerifierSet) : result Error WeightedSigners :=
  convert_signers evm_address vs.

(** [into_tokens]: the fields in the order of [IAxelarAmplifierGateway.json]. *)
Definition signer_token (s : WeightedSigner) : Token :=
  TokTuple [TokAddress (signer s); TokUint (weight s)].
Definition signers_tokens (s : WeightedSigners) : list Token :=
  [TokArray (signer_token <$> signers s); TokUint (threshold s); TokFixedBytes (nonce s)].
Definition message_tokens (m : Message) : list Token :=
  [TokString (source_chain m); TokString (message_id m); TokString (source_address m);
   TokAddress (destination m); TokFixedBytes (payload_hash m)].

Definition signers_hash (s : WeightedSigners) : string :=
  keccak256 (abi_encode [TokTuple (signers_tokens s)]).

Definition strip_0x (s : string) : string :=
  if starknet_checked_felt.starts_with_0x (text_of s)
  then String.string_of_list_ascii (drop 2 (text_of s)) else s.

Definition message_try_from (m : router_api.Message) : result Error Message :=
  convert_message (λ addr, h160_from_str (strip_0x addr)) m.

Definition command_token (c : CommandType) : Token :=
  match c with ApproveMessages => TokUint 0 | RotateSigners => TokUint 1 end.

Definition encode_payload (payload : Payload) : result ContractError string :=
  let command_type := command_token (command_type payload) in
  match payload with
  | Messages messages =>
      messages ← map_err (λ _, InvalidMessage) (try_map message_try_from messages);
      Ok (abi_encode [command_type;
                      TokArray ((λ m, TokTuple (message_tokens m)) <$> (messages : list Message))])
  | VerifierSetPayload vs =>
      s ← map_err (λ _, InvalidVerifierSet) (weighted_signers vs);
      Ok (abi_encode [command_type; TokTuple (signers_tokens s)])
  end.

(** "\x19Ethereum Signed Message:\n96" *)
Definition PREFIX : string :=
  to_be_bytes 1 25 +:+ "Ethereum Signed Message:" +:+ to_be_bytes 1 10 +:+ "96".

Definition payload_digest (domain_separator : string) (vs : VerifierSet) (payload : Payload)
    : result ContractError string :=
  signers ← map_err (λ _, InvalidVerifierSet) (weighted_signers vs);
  data ← encode_payload payload;
  Ok (keccak256 (PREFIX +:+ domain_separator +:+ signers_hash signers +:+ keccak256 data)).

Definition recovery_transform (recovery_byte : Z) : result ContractError Z :=
  expect (checked_add u8_max recovery_byte 27).

(** The order of [sort_by_key]: by address. *)
Definition address_of (s : Signer) : string :=
  match evm_address (verifier_set.pub_key s) with Ok a => a | _ => EmptyString end.
Definition address_le (p q : Signer * Signature) : Prop :=
  String.le (address_of p.1) (address_of q.1).
#[global] Instance address_le_dec : RelDecision address_le.
Proof. intros p q. unfold address_le. apply _. Defined.

(** [Proof::new]: the signers of the set and the signatures in the order of their addresses. The
    key of the sort panics for a key without an address, when there is something to sort. *)
Definition proof_new (vs : VerifierSet) (sigs : list (Signer * Signature))
    : result Error (WeightedSigners * list string) :=
  signers ← weighted_signers vs;
  _ ← assert_true (bool_decide (length sigs < 2)%nat ||
        forallb (λ '(s, _), is_ok (evm_address (verifier_set.pub_key s))) sigs);
  Ok (signers, (λ '(_, sig), signature_bytes sig) <$> merge_sort address_le sigs).

Definition proof_tokens (p : WeightedSigners * list string) : Token :=
  TokTuple [TokTuple (signers_tokens p.1); TokArray (TokBytes <$> p.2)].

Definition encode_execute_data (domain_separator : string) (vs : VerifierSet)
    (sigs : list (Signer * Signature)) (payload : Payload) : result ContractError string :=
  d ← payload_digest domain_separator vs payload;
  sigs ← to_recoverable recovery_transform d sigs;
  proof ← map_err (λ _, ProofError) (proof_new vs sigs);
  '(selector, tokens) ← match payload with
    | Messages messages =>
        messages ← map_err (λ _, InvalidMessage) (try_map message_try_from messages);
        Ok (approve_messages_selector,
            [TokArray ((λ m, TokTuple (message_tokens m)) <$> (messages : list Message));
             proof_tokens proof])
    | VerifierSetPayload new_verifier_set =>
        new_signers ← map_err (λ _, InvalidVerifierSet) (weighted_signers new_verifier_set);
        Ok (rotate_signers_selector, [TokTuple (signers_tokens new_signers); proof_tokens proof])
    end;
  Ok (selector +:+ abi_encode tokens).

End encoder.
End abi.

(** ** Sui *)
Module bcs.
Section encoder.
Context `{Crypto} `{ChainCodecs} `{HexCodec} `{address.AddressParsers}.

Definition key_of (pub_key : PublicKey) : result Error string :=
  match pub_key with PkEcdsa k => Ok k | PkEd25519 _ => Err EUnsupportedPublicKey end.

Definition weighted_signers (vs : VerifierSet) : result Error WeightedSigners :=
  convert_signers key_of vs.

(** The structures as [serde] sees them; [Bytes32] has one field of 32 bytes. *)
Definition bytes32 (b : string) : BcsValue := BcsStruct [BcsFixed b].
Definition signer_value (s : WeightedSigner) : BcsValue :=
  BcsStruct [BcsBytes (signer s); BcsU128 (weight s)].
Definition signers_value (s : WeightedSigners) : BcsValue :=
  BcsStruct [BcsSeq (signer_value <$> signers s); BcsU128 (threshold s); bytes32 (nonce s)].
Definition message_value (m : Message) : BcsValue :=
  BcsStruct [BcsString (source_chain m); BcsString (message_id m); BcsString (source_address m);
             BcsFixed (destination m); bytes32 (payload_hash m)].

Definition signers_hash {E} (s : WeightedSigners) : result E string :=
  bytes ← expect (bcs_to_bytes (signers_value s)); Ok (keccak256 bytes).

(** [SuiAddress::from_str] *)
Definition sui_address (s : string) : option string :=
  match address.sui_from_str s with
  | Ok bytes => Some (String.string_of_list_ascii bytes)
  | _ => None
  end.

Definition message_try_from (m : router_api.Message) : result Error Message :=
  convert_message sui_address m.

Definition encode_payload (payload : Payload) : result ContractError string :=
  match payload with
  | Messages messages =>
      messages ← map_err (λ _, InvalidMessage) (try_map message_try_from messages);
      expect (bcs_to_bytes (BcsSeq (message_value <$> (messages : list Message))))
  | VerifierSetPayload vs =>
      s ← map_err (λ _, InvalidVerifierSet) (weighted_signers vs);
      expect (bcs_to_bytes (signers_value s))
  end.

Definition command_byte (c : CommandType) : Z :=
  match c with ApproveMessages => 0 | RotateSigners => 1 end.

(** [MessageToSign] *)
Definition message_to_sign (domain_separator signers_hash data_hash : string) : BcsValue :=
  BcsStruct [bytes32 domain_separator; bytes32 signers_hash; bytes32 data_hash].

Definition payload_digest (domain_separator : string) (vs : VerifierSet) (payload : Payload)
    : result ContractError string :=
  payload_bytes ← encode_payload payload;
  let data := to_be_bytes 1 (command_byte (command_type payload)) +:+ payload_bytes in
  signers ← map_err (λ _, InvalidVerifierSet) (weighted_signers vs);
  signers_hash ← signers_hash signers;
  bytes ← expect (bcs_to_bytes (message_to_sign domain_separator signers_hash (keccak256 data)));
  Ok (keccak256 bytes).

(** The order of the keys: [Ecdsa] before [Ed25519], then by their bytes. *)
Definition key_le (p q : PublicKey) : Prop :=
  match p, q with
  | PkEcdsa k, PkEcdsa l | PkEd25519 k, PkEd25519 l => String.le k l
  | PkEcdsa _, PkEd25519 _ => True
  | PkEd25519 _, PkEcdsa _ => False
  end.
#[global] Instance key_le_dec : RelDecision key_le.
Proof. intros [] []; cbn; apply _. Defined.

Definition by_key (p q : Signer * Signature) : Prop :=
  key_le (verifier_set.pub_key p.1) (verifier_set.pub_key q.1).
#[global] Instance by_key_dec : RelDecision by_key.
Proof. intros p q. unfold by_key. apply _. Defined.

(** [TryFrom<multisig::key::Signature> for Signature] *)
Definition signature_try_from (sig : Signature) : result Error string :=
  match sig with SigEcdsaRecoverable s => Ok s | _ => Err EUnsupportedSignature end.

Definition proof_try_from (vs : VerifierSet) (sigs : list (Signer * Signature))
    : result Error (WeightedSigners * list string) :=
  signers ← weighted_signers vs;
  sigs ← try_map (λ '(_, sig), signature_try_from sig) (merge_sort by_key sigs);
  Ok (signers, sigs).

Definition proof_value (p : WeightedSigners * list string) : BcsValue :=
  BcsStruct [signers_value p.1; BcsSeq ((λ sig, BcsStruct [BcsBytes sig]) <$> p.2)].

Definition recovery_transform (recovery_byte : Z) : result ContractError Z := Ok recovery_byte.

Definition encode_execute_data (domain_separator : string) (vs : VerifierSet)
    (sigs : list (Signer * Signature)) (payload : Payload) : result ContractError string :=
  d ← payload_digest domain_separator vs payload;
  sigs ← to_recoverable recovery_transform d sigs;
  encoded_payload ← encode_payload payload;
  proof ← map_err (λ _, ProofError) (proof_try_from vs sigs);
  encoded_proof ← expect (bcs_to_bytes (proof_value proof));
  expect (bcs_to_bytes (BcsStruct [BcsBytes encoded_payload; BcsBytes encoded_proof])).

End encoder.
End bcs.

(** ** Stellar *)
Module stellar_xdr.

Section values.
Context `{ChainCodecs}.

(** The containers of [stellar_xdr] ([BytesM], [VecM]) hold at most [max] items. *)
Definition limited {A} (max : Z) (len : nat) (a : A) : result unit A :=
  ensure (bool_decide (Z.of_nat len ≤ max)) tt ≫= λ _, Ok a.
Definition sc_string (s : string) : result unit ScVal :=
  ok_or tt (ScString <$> string_m_from_str u32_max s).
Definition sc_bytes (b : string) : result unit ScVal :=
  limited u32_max (String.length b) (ScBytes b).
Definition sc_vec (vs : list ScVal) : result unit ScVal := limited u32_max (length vs) (ScVec vs).
Definition sc_symbol (s : string) : result unit ScVal :=
  ok_or tt (ScSymbol <$> string_m_from_str 32 s).

(** [sc_map_from_slices] *)
Definition sc_map_from_slices (keys : list string) (vals : list ScVal) : result unit ScVal :=
  entries ← try_map (λ '(key, val), ok_or tt ((λ key, (key, val)) <$> string_m_from_str 32 key))
              (zip keys vals);
  limited u32_max (length entries) (ScMap entries).

(** The conversion of a pair into a vector of two values. *)
Definition sc_pair (r1 r2 : result unit ScVal) : result unit ScVal :=
  v1 ← r1; v2 ← r2; sc_vec [v1; v2].

Definition command_str (c : CommandType) : string :=
  match c with ApproveMessages => "ApproveMessages" | RotateSigners => "RotateSigners" end.
Definition command_val (c : CommandType) : result unit ScVal :=
  s ← sc_symbol (command_str c); sc_vec [s].

Definition message_val (m : Message) : result unit ScVal :=
  id ← sc_string (message_id m);
  hash ← sc_bytes (payload_hash m);
  addr ← sc_string (source_address m);
  chain ← sc_string (source_chain m);
  sc_map_from_slices
    ["contract_address"; "message_id"; "payload_hash"; "source_address"; "source_chain"]
    [ScContract (destination m); id; hash; addr; chain].

Definition messages_val (ms : list Message) : result unit ScVal :=
  vals ← try_map message_val ms; sc_vec vals.

Definition signer_val (s : WeightedSigner) : result unit ScVal :=
  key ← sc_bytes (signer s);
  sc_map_from_slices ["signer"; "weight"] [key; ScU128 (weight s)].

Definition signers_val (s : WeightedSigners) : result unit ScVal :=
  vals ← try_map signer_val (signers s);
  nonce ← sc_bytes (nonce s);
  vec ← sc_vec vals;
  sc_map_from_slices ["nonce"; "signers"; "threshold"] [nonce; vec; ScU128 (threshold s)].

Inductive ProofSignature := Signed (sig : string) | Unsigned.
Record ProofSigner := mkProofSigner { ps_signer : WeightedSigner; ps_signature : ProofSignature }.
Record Proof := mkProof { p_signers : list ProofSigner; p_threshold : Z; p_nonce : string }.

Definition proof_signature_val (sig : ProofSignature) : result unit ScVal :=
  match sig with
  | Signed b => tag ← sc_symbol "Signed"; b ← sc_bytes b; sc_vec [tag; b]
  | Unsigned => tag ← sc_symbol "Unsigned"; sc_vec [tag]
  end.

Definition proof_signer_val (s : ProofSigner) : result unit ScVal :=
  sig ← proof_signature_val (ps_signature s);
  who ← signer_val (ps_signer s);
  sc_map_from_slices ["signature"; "signer"] [sig; who].

Definition proof_val (p : Proof) : result unit ScVal :=
  vals ← try_map proof_signer_val (p_signers p);
  nonce ← sc_bytes (p_nonce p);
  vec ← sc_vec vals;
  sc_map_from_slices ["nonce"; "signers"; "threshold"] [nonce; vec; ScU128 (p_threshold p)].

(** A message with its texts as they are stored in the value. *)
Definition read_message (m : Message) : option Message :=
  id ← string_m_from_str u32_max (message_id m);
  addr ← string_m_from_str u32_max (source_address m);
  chain ← string_m_from_str u32_max (source_chain m);
  Some (mkMsg chain id addr (destination m) (payload_hash m)).

End values.

(** [BytesM<32>::try_from] of a public key *)
Definition key_bytes (b : string) : result Error string :=
  map_err (λ _, EInvalidPublicKey) (limited 32 (String.length b) b).

Definition key_of (pub_key : PublicKey) : result Error string :=
  match pub_key with PkEd25519 k => key_bytes k | PkEcdsa _ => Err EUnsupportedPublicKey end.

Definition weighted_signers (vs : VerifierSet) : result Error WeightedSigners :=
  convert_signers key_of vs.

(** [TryFrom<(Signer, Option<Signature>)> for ProofSigner] *)
Definition proof_signer (s : Signer) (sig : option Signature) : result Error ProofSigner :=
  key ← key_bytes (pub_key_bytes (verifier_set.pub_key s));
  sig ← match sig with
        | Some (SigEd25519 b) =>
            b ← map_err (λ _, EInvalidSignature) (limited 64 (String.length b) b); Ok (Signed b)
        | None => Ok Unsigned
        | _ => Err EUnsupportedSignature
        end;
  Ok (mkProofSigner (mkWeighted key (verifier_set.weight s)) sig).

Definition key_order (p q : Signer) : Prop :=
  bcs.key_le (verifier_set.pub_key p) (verifier_set.pub_key q).
#[global] Instance key_order_dec : RelDecision key_order.
Proof. intros p q. unfold key_order. apply _. Defined.

(** The signatures by key: a map in which a later entry replaces an earlier one, and from which
    the signature of every verifier is removed when it is used. *)
Fixpoint take_signatures (sigs : list (PublicKey * Signature)) (vs : list Signer)
    : list (Signer * option Signature) :=
  match vs with
  | [] => []
  | s :: vs =>
      let key := verifier_set.pub_key s in
      (s, snd <$> (snd <$> list_find (λ p, p.1 = key) sigs)) ::
      take_signatures (filter (λ p, p.1 ≠ key) sigs) vs
  end.

Definition proof_try_from (vs : VerifierSet) (sigs : list (Signer * Signature))
    : result Error Proof :=
  let signatures_by_pub_keys :=
    reverse ((λ '(s, sig), (verifier_set.pub_key s, sig)) <$> sigs) in
  let sorted_verifiers := merge_sort key_order (snd <$> entries (verifier_set.signers vs)) in
  signers ← try_map (λ '(s, sig), proof_signer s sig)
              (take_signatures signatures_by_pub_keys sorted_verifiers);
  Ok (mkProof signers (verifier_set.threshold vs) (nonce_of vs)).

Section encoder.
Context `{Crypto} `{ChainCodecs}.

Definition message_try_from (m : router_api.Message) : result Error Message :=
  convert_message contract_from_string m.

Definition messages_approval_hash (ms : list Message) : result unit string :=
  vals ← try_map message_val ms;
  val ← expect_ok (sc_pair (command_val ApproveMessages) (sc_vec vals));
  bytes ← ok_or tt (to_xdr val); Ok (keccak256 bytes).

Definition signers_rotation_hash (s : WeightedSigners) : result unit string :=
  val ← expect_ok (sc_pair (command_val RotateSigners) (signers_val s));
  bytes ← ok_or tt (to_xdr val); Ok (keccak256 bytes).

Definition signers_hash (s : WeightedSigners) : result unit string :=
  val ← signers_val s;
  bytes ← ok_or tt (to_xdr val); Ok (keccak256 bytes).

Definition payload_digest (domain_separator : string) (vs : VerifierSet) (payload : Payload)
    : result ContractError string :=
  data_hash ← match payload with
    | Messages messages =>
        messages ← map_err (λ _, InvalidMessage) (try_map message_try_from messages);
        map_err (λ _, SerializeData) (messages_approval_hash messages)
    | VerifierSetPayload new_verifier_set =>
        s ← map_err (λ _, InvalidVerifierSet) (weighted_signers new_verifier_set);
        map_err (λ _, SerializeData) (signers_rotation_hash s)
    end;
  s ← map_err (λ _, InvalidVerifierSet) (weighted_signers vs);
  signers_hash ← map_err (λ _, SerializeData) (signers_hash s);
  Ok (keccak256 (domain_separator +:+ signers_hash +:+ data_hash)).

Definition encode_execute_data (vs : VerifierSet) (sigs : list (Signer * Signature))
    (payload : Payload) : result ContractError string :=
  payload ← match payload with
    | Messages messages =>
        messages ← map_err (λ _, InvalidMessage) (try_map message_try_from messages);
        map_err (λ _, SerializeData) (messages_val messages)
    | VerifierSetPayload new_verifier_set =>
        s ← map_err (λ _, InvalidVerifierSet) (weighted_signers new_verifier_set);
        map_err (λ _, SerializeData) (signers_val s)
    end;
  proof ← map_err (λ _, ProofError) (proof_try_from vs sigs);
  val ← expect_ok (sc_pair (Ok payload) (proof_val proof));
  ok_or SerializeData (to_xdr val).

End encoder.
End stellar_xdr.

(** ** The dispatch ([encoding/mod.rs]) *)
Section dispatch.
Context `{Crypto} `{ChainCodecs} `{HexCodec} `{address.AddressParsers}.

#[global] Instance encoders : EncoderExt := {|
  digest self domain_separator vs payload :=
    match self with
    | Abi => abi.payload_digest domain_separator vs payload
    | Bcs => bcs.payload_digest domain_separator vs payload
    | StellarXdr => stellar_xdr.payload_digest domain_separator vs payload
    | Solana => Err EncoderNotImplemented
    end;
  execute_data self domain_separator vs sigs payload :=
    match self with
    | Abi => abi.encode_execute_data domain_separator vs sigs payload
    | Bcs => bcs.encode_execute_data domain_separator vs sigs payload
    | StellarXdr => stellar_xdr.encode_execute_data vs sigs payload
    | Solana => Err EncoderNotImplemented
    end
|}.

End dispatch.

(** ** What the digests need of the serializers *)

(** Types of ABI tokens. *)
Inductive TokenType :=
  | TyUint
  | TyAddress
  | TyBytes32
  | TyString
  | TyBytes
  | TyArray (t : TokenType)
  | TyTuple (ts : list TokenType).

Fixpoint token_typed (t : Token) (ty : TokenType) {struct t} : Prop :=
  match t, ty with
  | TokUint n, TyUint => 0 ≤ n ≤ u256_max
  | TokAddress a, TyAddress => String.length a = 20%nat
  | TokFixedBytes b, TyBytes32 => String.length b = 32%nat
  | TokString _, TyString | TokBytes _, TyBytes => True
  | TokArray ts, TyArray ty => foldr (λ t P, token_typed t ty ∧ P) True ts
  | TokTuple ts, TyTuple tys =>
      (fix go ts tys := match ts, tys with
                        | [], [] => True
                        | t :: ts, ty :: tys => token_typed t ty ∧ go ts tys
                        | _, _ => False
                        end) ts tys
  | _, _ => False
  end.
Definition tokens_typed (ts : list Token) (tys : list TokenType) : Prop :=
  token_typed (TokTuple ts) (TyTuple tys).

(** Types of BCS values. *)
Inductive BcsType :=
  | TyU128
  | TyFixed (n : nat)
  | TyVecU8
  | TyStr
  | TySeq (t : BcsType)
  | TyStruct (ts : list BcsType).

Fixpoint bcs_typed (v : BcsValue) (ty : BcsType) {struct v} : Prop :=
  match v, ty with
  | BcsU128 n, TyU128 => 0 ≤ n ≤ u128_max
  | BcsFixed b, TyFixed n => String.length b = n
  | BcsBytes _, TyVecU8 | BcsString _, TyStr => True
  | BcsSeq vs, TySeq ty => foldr (λ v P, bcs_typed v ty ∧ P) True vs
  | BcsStruct vs, TyStruct tys =>
      (fix go vs tys := match vs, tys with
                        | [], [] => True
                        | v :: vs, ty :: tys => bcs_typed v ty ∧ go vs tys
                        | _, _ => False
                        end) vs tys
  | _, _ => False
  end.

(** Text with no escapes: printable ASCII without a backslash. *)
Definition plain_char (c : ascii) : bool :=
  bool_decide (32 ≤ nat_of_ascii c ≤ 126)%nat && negb (bool_decide (nat_of_ascii c = 92%nat)).
Definition plain_text (s : string) : bool := forallb plain_char (text_of s).

(** The ABI and BCS encodings are unambiguous for values of one type, and the ABI encoding of a
    tuple starts with its first member where that is an integer; XDR encodings of [ScVal] carry
    their tags, and a [StringM] of a text with no escapes is that text. Hashes have 32 bytes,
    addresses 20. *)
Class CodecLaws `{Crypto} `{ChainCodecs} : Prop := {
  abi_encode_inj ts us tys : tokens_typed ts tys → tokens_typed us tys →
    abi_encode ts = abi_encode us → ts = us;
  abi_encode_head n m ts us : 0 ≤ n ≤ u256_max → 0 ≤ m ≤ u256_max →
    abi_encode (TokUint n :: ts) = abi_encode (TokUint m :: us) → n = m;
  bcs_to_bytes_inj v w ty b : bcs_typed v ty → bcs_typed w ty →
    bcs_to_bytes v = Some b → bcs_to_bytes w = Some b → v = w;
  to_xdr_inj v w b : to_xdr v = Some b → to_xdr w = Some b → v = w;
  string_m_plain max s : plain_text s = true → Z.of_nat (String.length s) ≤ max →
    string_m_from_str max s = Some s;
  keccak256_length s : String.length (keccak256 s) = 32%nat;
  sec1_to_address_length k a : sec1_to_address k = Some a → String.length a = 20%nat;
  h160_from_str_length s a : h160_from_str s = Some a → String.length a = 20%nat
}.

(** The numbers of a verifier set and the hash of a message have their widths. *)
Definition set_typed (vs : VerifierSet) : Prop :=
  map_Forall (λ _ s, 0 ≤ verifier_set.weight s ≤ u128_max) (verifier_set.signers vs) ∧
  0 ≤ verifier_set.threshold vs ≤ u128_max ∧ 0 ≤ verifier_set.created_at vs ≤ u64_max.
Definition payload_typed (p : Payload) : Prop :=
  match p with
  | Messages ms => Forall (λ m, String.length (router_api.payload_hash m) = 32%nat) ms
  | VerifierSetPayload vs => set_typed vs
  end.

(** What a chain sees of a verifier set and of a payload. Stellar sees the texts of a message with
    their escapes read. *)
Inductive Content := Approve (ms : list Message) | Rotate (s : WeightedSigners).

Section views.
Context `{Crypto} `{ChainCodecs} `{HexCodec} `{address.AddressParsers}.

Definition signers_of (e : Encoder) (vs : VerifierSet) : result Error WeightedSigners :=
  match e with
  | Abi => abi.weighted_signers vs
  | Bcs => bcs.weighted_signers vs
  | StellarXdr => stellar_xdr.weighted_signers vs
  | Solana => Err EUnsupportedPublicKey
  end.

Definition message_of (e : Encoder) (m : router_api.Message) : result Error Message :=
  match e with
  | Abi => abi.message_try_from m
  | Bcs => bcs.message_try_from m
  | StellarXdr =>
      m ← stellar_xdr.message_try_from m; ok_or EInvalidAddress (stellar_xdr.read_message m)
  | Solana => Err EInvalidAddress
  end.

Definition content_of (e : Encoder) (p : Payload) : result Error Content :=
  match p with
  | Messages ms => Approve <$> try_map (message_of e) ms
  | VerifierSetPayload vs => Rotate <$> signers_of e vs
  end.

End views.

(** ** Splitting what is hashed *)

Lemma append_inj a b x y :
  String.length a = String.length b → a +:+ x = b +:+ y → a = b ∧ x = y.
Proof.
  rewrite <-!chain.text_of_length. intros Hl Heq. apply (f_equal text_of) in Heq.
  rewrite !chain.text_of_app in Heq. apply app_inj_1 in Heq as [Ha Hx]; [|done].
  by apply chain.text_of_inj in Ha, Hx.
Qed.

Lemma text_inj_append a x y : a +:+ x = a +:+ y → x = y.
Proof. by intros [_ ?]%append_inj. Qed.

#[global] Instance signer_le_trans : Transitive signer_le.
Proof. intros s t u. unfold signer_le. by etrans. Qed.
#[global] Instance signer_le_total : Total signer_le.
Proof. intros s t. unfold signer_le. apply (total String.le). Qed.

Lemma convert_signers_Ok f vs s :
  convert_signers f vs = Ok s →
  threshold s = verifier_set.threshold vs ∧ nonce s = nonce_of vs ∧
  StronglySorted signer_le (signers s) ∧
  ∃ l, signers s ≡ₚ l ∧
    Forall2 (λ p w, f (verifier_set.pub_key p.2) = Ok (signer w) ∧
                    weight w = verifier_set.weight p.2) (entries (verifier_set.signers vs)) l.
Proof.
  unfold convert_signers. intros Hf. apply bind_Ok in Hf as (l & Hl & [= <-]). cbn.
  split; [done|]. split; [done|]. split; [apply StronglySorted_merge_sort; apply _|].
  exists l. split; [by rewrite merge_sort_Permutation|]. apply try_map_Ok in Hl.
  eapply Forall2_impl; [exact Hl|]. intros [k m] w Hw. apply bind_Ok in Hw as (id & Hid & [= <-]).
  done.
Qed.

Lemma convert_signers_typed f vs s (P : string → Prop) :
  set_typed vs → (∀ pk id, f pk = Ok id → P id) → convert_signers f vs = Ok s →
  Forall (λ w, P (signer w) ∧ 0 ≤ weight w ≤ u128_max) (signers s) ∧
  0 ≤ threshold s ≤ u128_max ∧ String.length (nonce s) = 32%nat.
Proof.
  intros (Hw & Ht & _) HP (-> & -> & _ & l & Hl & Hf)%convert_signers_Ok. split; [|split; [done|]].
  - rewrite Hl. apply Forall_forall. intros w [i Hi]%list_elem_of_lookup.
    destruct (Forall2_lookup_r _ _ _ _ _ Hf Hi) as ([k m] & Hm & Hid & ->). split; [eauto|].
    apply list_elem_of_lookup_2, elem_of_entries in Hm. exact (Hw _ _ Hm).
  - apply to_be_bytes_length.
Qed.

Lemma signers_eq s t :
  signers s = signers t → threshold s = threshold t → nonce s = nonce t → s = t.
Proof. destruct s, t. cbn. by intros -> -> ->. Qed.

Lemma forall_foldr {A} (P : A → Prop) l : Forall P l → foldr (λ x Q, P x ∧ Q) True l.
Proof. induction 1; cbn; auto. Qed.

(** A destination is converted the same way for every message. *)
Lemma convert_message_typed f ms ms' n :
  Forall (λ m, String.length (router_api.payload_hash m) = 32%nat) ms →
  (∀ s a, f s = Some a → String.length a = n) →
  try_map (convert_message f) ms = Ok ms' →
  Forall (λ m, String.length (destination m) = n ∧ String.length (payload_hash m) = 32%nat) ms'.
Proof.
  intros Hms Hf Ht. apply try_map_Ok in Ht. induction Ht as [|m m' ms ms' Hm _ IH]; [constructor|].
  apply Forall_cons in Hms as [Hlen Hms]. constructor; [|by apply IH].
  unfold convert_message in Hm. apply bind_Ok in Hm as (d & Hd & [= <-]). cbn. split; [|done].
  destruct (f _) as [a|] eqn:Ha; cbn in Hd; simplify_eq. eauto.
Qed.

Section digests.
Context `{Crypto} `{ChainCodecs} `{!CodecLaws} `{HexCodec} `{address.AddressParsers}.

(** *** EVM chains *)

#[local] Instance signer_token_inj : Inj (=) (=) abi.signer_token.
Proof. intros [] []. unfold abi.signer_token. cbn. by intros [= -> ->]. Qed.

Lemma signers_tokens_inj s t : abi.signers_tokens s = abi.signers_tokens t → s = t.
Proof.
  unfold abi.signers_tokens. intros [= Hs Ht Hn]. apply signers_eq; [|done..].
  by apply (inj (fmap abi.signer_token)) in Hs.
Qed.

#[local] Instance message_tokens_inj : Inj (=) (=) (λ m, TokTuple (abi.message_tokens m)).
Proof. intros [] []. unfold abi.message_tokens. cbn. by intros [= -> -> -> -> ->]. Qed.

Definition signers_ty : list TokenType :=
  [TyArray (TyTuple [TyAddress; TyUint]); TyUint; TyBytes32].
Definition message_ty : TokenType := TyTuple [TyString; TyString; TyString; TyAddress; TyBytes32].

Lemma u128_u256 n : 0 ≤ n ≤ u128_max → 0 ≤ n ≤ u256_max.
Proof. unfold u128_max, u256_max. lia. Qed.

Lemma evm_address_length pk a : abi.evm_address pk = Ok a → String.length a = 20%nat.
Proof.
  destruct pk as [k|k]; cbn; [|done]. destruct (sec1_to_address k) as [a'|] eqn:Ha; cbn; [|done].
  intros [= <-]. by eapply sec1_to_address_length.
Qed.

Lemma abi_signers_typed vs s :
  set_typed vs → abi.weighted_signers vs = Ok s → tokens_typed (abi.signers_tokens s) signers_ty.
Proof.
  intros Hvs Hs. destruct (convert_signers_typed _ _ _ _ Hvs evm_address_length Hs) as (Hl & Ht & Hn).
  cbn. split_and!; [|apply u128_u256; lia|apply u128_u256; lia|done|done].
  induction Hl as [|w l [Ha Hw] _ IH]; cbn; [done|]. split; [|done].
  split; [done|]. split; [apply u128_u256; lia|done].
Qed.

Lemma abi_messages_typed ms ms' :
  payload_typed (Messages ms) → try_map abi.message_try_from ms = Ok ms' →
  token_typed (TokArray ((λ m, TokTuple (abi.message_tokens m)) <$> ms')) (TyArray message_ty).
Proof.
  intros Hty Hms. eapply convert_message_typed in Hms; [|exact Hty|intros ??; apply h160_from_str_length].
  cbn. induction Hms as [|m l [Hd Hp] _ IH]; cbn; [done|]. by split_and!.
Qed.

(** What the encoder hashes. *)
Definition abi_preimages (ds : string) (vs : VerifierSet) (p : Payload) : list string :=
  match abi.weighted_signers vs, abi.encode_payload p with
  | Ok s, Ok data =>
      [abi.PREFIX +:+ ds +:+ abi.signers_hash s +:+ keccak256 data;
       abi_encode [TokTuple (abi.signers_tokens s)]; data]
  | _, _ => []
  end.

Lemma abi_payload_inj p p' data :
  payload_typed p → payload_typed p' →
  abi.encode_payload p = Ok data → abi.encode_payload p' = Ok data →
  content_of Abi p = content_of Abi p' ∧ is_ok (content_of Abi p) = true.
Proof.
  intros Hp Hp' Hd Hd'. destruct p as [ms|vs], p' as [ms'|vs']; cbn in Hd, Hd';
    apply bind_Ok in Hd as (x & Hx%map_err_Ok & [= <-]);
    apply bind_Ok in Hd' as (x' & Hx'%map_err_Ok & [= Heq]); symmetry in Heq.
  - apply (abi_encode_inj _ _ [TyUint; TyArray message_ty]) in Heq.
    + injection Heq as Heq. apply (inj (fmap (λ m, TokTuple (abi.message_tokens m)))) in Heq.
      cbn [content_of]. change (message_of Abi) with abi.message_try_from. rewrite Hx, Hx'. by subst.
    + split; [cbn; unfold u256_max; lia|]. split; [exact (abi_messages_typed _ _ Hp Hx)|done].
    + split; [cbn; unfold u256_max; lia|]. split; [exact (abi_messages_typed _ _ Hp' Hx')|done].
  - exfalso. apply abi_encode_head in Heq; unfold u256_max; lia.
  - exfalso. apply abi_encode_head in Heq; unfold u256_max; lia.
  - apply (abi_encode_inj _ _ [TyUint; TyTuple signers_ty]) in Heq.
    + injection Heq as Hs Ht Hn. cbn. rewrite Hx, Hx'. cbn. split; [|done]. do 2 f_equal.
      apply signers_tokens_inj. unfold abi.signers_tokens. congruence.
    + split; [cbn; unfold u256_max; lia|]. split; [exact (abi_signers_typed _ _ Hp Hx)|done].
    + split; [cbn; unfold u256_max; lia|]. split; [exact (abi_signers_typed _ _ Hp' Hx')|done].
Qed.

Lemma abi_digest_binds ds vs p ds' vs' p' d :
  set_typed vs → set_typed vs' → payload_typed p → payload_typed p' →
  String.length ds = String.length ds' →
  (∀ x y, x ∈ abi_preimages ds vs p → y ∈ abi_preimages ds' vs' p' →
     keccak256 x = keccak256 y → x = y) →
  abi.payload_digest ds vs p = Ok d → abi.payload_digest ds' vs' p' = Ok d →
  ds = ds' ∧ signers_of Abi vs = signers_of Abi vs' ∧ content_of Abi p = content_of Abi p'.
Proof.
  intros Hvs Hvs' Hp Hp' Hlen Hinj Hd Hd'. unfold abi.payload_digest in Hd, Hd'.
  apply bind_Ok in Hd as (s & Hs%map_err_Ok & Hd). apply bind_Ok in Hd as (data & Hdata & [= <-]).
  apply bind_Ok in Hd' as (s' & Hs'%map_err_Ok & Hd').
  apply bind_Ok in Hd' as (data' & Hdata' & [= Heq]).
  unfold abi_preimages in Hinj. rewrite Hs, Hs', Hdata, Hdata' in Hinj.
  apply eq_sym, Hinj, text_inj_append in Heq; [|set_solver..].
  apply append_inj in Heq as [-> Heq]; [|done].
  apply append_inj in Heq as [Hh Heq]; [|unfold abi.signers_hash; by rewrite !keccak256_length].
  apply Hinj in Hh; [|set_solver..]. apply Hinj in Heq; [|set_solver..]. subst data'.
  split; [done|]. split.
  - cbn. rewrite Hs, Hs'. f_equal.
    apply (abi_encode_inj _ _ [TyTuple signers_ty]) in Hh;
      [|split; [exact (abi_signers_typed _ _ Hvs Hs)|done]
       |split; [exact (abi_signers_typed _ _ Hvs' Hs')|done]].
    injection Hh as E1 E2 E3. apply signers_tokens_inj. unfold abi.signers_tokens. congruence.
  - by eapply abi_payload_inj.
Qed.

(** *** Sui *)

#[local] Instance signer_value_inj : Inj (=) (=) bcs.signer_value.
Proof. intros [] []. unfold bcs.signer_value. cbn. by intros [= -> ->]. Qed.
#[local] Instance message_value_inj : Inj (=) (=) bcs.message_value.
Proof. intros [] []. unfold bcs.message_value, bcs.bytes32. cbn. by intros [= -> -> -> -> ->]. Qed.

Lemma signers_value_inj s t : bcs.signers_value s = bcs.signers_value t → s = t.
Proof.
  unfold bcs.signers_value, bcs.bytes32. intros [= Hs Ht Hn]. apply signers_eq; [|done..].
  by apply (inj (fmap bcs.signer_value)) in Hs.
Qed.

Definition bytes32_ty : BcsType := TyStruct [TyFixed 32].
Definition signers_bcs_ty : BcsType := TyStruct [TySeq (TyStruct [TyVecU8; TyU128]); TyU128; bytes32_ty].
Definition message_bcs_ty : BcsType := TyStruct [TyStr; TyStr; TyStr; TyFixed 32; bytes32_ty].

Lemma bcs_signers_typed vs s :
  set_typed vs → bcs.weighted_signers vs = Ok s → bcs_typed (bcs.signers_value s) signers_bcs_ty.
Proof.
  intros Hvs Hs.
  destruct (convert_signers_typed _ _ _ (λ _, True) Hvs ltac:(done) Hs) as (Hl & Ht & Hn).
  cbn. split_and!; try done; [|lia..]. induction Hl as [|w l [_ Hw] _ IH]; cbn; [done|].
  by split_and!; [|lia..| |].
Qed.

Lemma sui_address_length s a : bcs.sui_address s = Some a → String.length a = 32%nat.
Proof.
  unfold bcs.sui_address. destruct (address.sui_from_str s) as [b| |] eqn:Hb; [|done..].
  intros [= <-]. unfold address.sui_from_str in Hb. ok_inv. unfold msg_id.to_array in *.
  case_bool_decide; simplify_eq. rewrite <-chain.text_of_length. unfold text_of.
  by rewrite String.list_ascii_of_string_of_list_ascii.
Qed.

Lemma bcs_messages_typed ms ms' :
  payload_typed (Messages ms) → try_map bcs.message_try_from ms = Ok ms' →
  bcs_typed (BcsSeq (bcs.message_value <$> ms')) (TySeq message_bcs_ty).
Proof.
  intros Hty Hms. eapply convert_message_typed in Hms; [|exact Hty|intros ??; apply sui_address_length].
  cbn. induction Hms as [|m l [Hd Hp] _ IH]; cbn; [done|]. by split_and!.
Qed.

Definition bcs_preimages (ds : string) (vs : VerifierSet) (p : Payload) : list string :=
  match bcs.weighted_signers vs, bcs.encode_payload p with
  | Ok s, Ok bytes =>
      let data := to_be_bytes 1 (bcs.command_byte (command_type p)) +:+ bytes in
      data :: omap id [bcs_to_bytes (bcs.signers_value s);
        b ← bcs_to_bytes (bcs.signers_value s);
        bcs_to_bytes (bcs.message_to_sign ds (keccak256 b) (keccak256 data))]
  | _, _ => []
  end.

Lemma bcs_payload_inj p p' b :
  payload_typed p → payload_typed p' → command_type p = command_type p' →
  bcs.encode_payload p = Ok b → bcs.encode_payload p' = Ok b → content_of Bcs p = content_of Bcs p'.
Proof.
  intros Hp Hp' Hc Hd Hd'. destruct p as [ms|vs], p' as [ms'|vs']; try done; cbn in Hd, Hd';
    apply bind_Ok in Hd as (x & Hx%map_err_Ok & Hd); apply bind_Ok in Hd' as (x' & Hx'%map_err_Ok & Hd').
  - destruct (bcs_to_bytes _) eqn:Hb in Hd; [|done]. destruct (bcs_to_bytes _) eqn:Hb' in Hd'; [|done].
    cbn in Hd, Hd'. simplify_eq.
    pose proof (bcs_to_bytes_inj _ _ _ _ (bcs_messages_typed _ _ Hp Hx)
      (bcs_messages_typed _ _ Hp' Hx') Hb Hb') as [= Heq].
    apply (inj (fmap bcs.message_value)) in Heq.
    cbn [content_of]. change (message_of Bcs) with bcs.message_try_from. rewrite Hx, Hx'. by subst.
  - destruct (bcs_to_bytes _) eqn:Hb in Hd; [|done]. destruct (bcs_to_bytes _) eqn:Hb' in Hd'; [|done].
    cbn in Hd, Hd'. simplify_eq.
    pose proof (bcs_to_bytes_inj _ _ _ _ (bcs_signers_typed _ _ Hp Hx)
      (bcs_signers_typed _ _ Hp' Hx') Hb Hb') as ->%signers_value_inj.
    cbn. by rewrite Hx, Hx'.
Qed.

Lemma bcs_digest_binds ds vs p ds' vs' p' d :
  set_typed vs → set_typed vs' → payload_typed p → payload_typed p' →
  String.length ds = 32%nat → String.length ds' = 32%nat →
  (∀ x y, x ∈ bcs_preimages ds vs p → y ∈ bcs_preimages ds' vs' p' →
     keccak256 x = keccak256 y → x = y) →
  bcs.payload_digest ds vs p = Ok d → bcs.payload_digest ds' vs' p' = Ok d →
  ds = ds' ∧ signers_of Bcs vs = signers_of Bcs vs' ∧ content_of Bcs p = content_of Bcs p'.
Proof.
  intros Hvs Hvs' Hp Hp' Hl Hl' Hinj Hd Hd'. unfold bcs.payload_digest, bcs.signers_hash in Hd, Hd'.
  apply bind_Ok in Hd as (x & Hx & Hd). apply bind_Ok in Hd as (s & Hs%map_err_Ok & Hd).
  apply bind_Ok in Hd as (sh & Hsh & Hd). apply bind_Ok in Hsh as (sb & Hsb & [= <-]).
  apply bind_Ok in Hd as (b & Hb & [= <-]).
  apply bind_Ok in Hd' as (x' & Hx' & Hd'). apply bind_Ok in Hd' as (s' & Hs'%map_err_Ok & Hd').
  apply bind_Ok in Hd' as (sh' & Hsh' & Hd'). apply bind_Ok in Hsh' as (sb' & Hsb' & [= <-]).
  apply bind_Ok in Hd' as (b' & Hb' & [= Heq]).
  apply expect_Ok in Hsb, Hb, Hsb', Hb'.
  unfold bcs_preimages in Hinj. rewrite Hs, Hs', Hx, Hx' in Hinj. csimpl in Hinj.
  rewrite Hsb, Hsb' in Hinj. csimpl in Hinj. rewrite Hb, Hb' in Hinj. csimpl in Hinj.
  apply Hinj in Heq; [|set_solver..]. subst b'.
  assert (∀ h, String.length (keccak256 h) = 32%nat) as Hk by apply keccak256_length.
  assert (∀ a h h', String.length a = 32%nat → bcs_typed (bcs.message_to_sign a (keccak256 h)
    (keccak256 h')) (TyStruct [bytes32_ty; bytes32_ty; bytes32_ty])) as Hty.
  { intros a h h' Ha. cbn. by rewrite !Hk. }
  pose proof (bcs_to_bytes_inj _ _ _ _ (Hty _ _ _ Hl) (Hty _ _ _ Hl') Hb Hb') as [= -> Eh Ed].
  apply Hinj in Eh; [|set_solver..]. subst sb'. apply Hinj in Ed; [|set_solver..].
  apply append_inj in Ed as [Ec ->]; [|by rewrite !to_be_bytes_length].
  split; [done|]. split.
  - cbn. rewrite Hs, Hs'. f_equal. apply signers_value_inj.
    exact (bcs_to_bytes_inj _ _ _ _ (bcs_signers_typed _ _ Hvs Hs) (bcs_signers_typed _ _ Hvs' Hs') Hsb Hsb').
  - eapply bcs_payload_inj; [done..| |done|done]. by destruct p, p'.
Qed.

(** *** Stellar *)

(** The values without the length checks of the containers. *)
Definition signer_sc (s : WeightedSigner) : ScVal :=
  ScMap [("signer", ScBytes (signer s)); ("weight", ScU128 (weight s))].
Definition signers_sc (s : WeightedSigners) : ScVal :=
  ScMap [("nonce", ScBytes (nonce s)); ("signers", ScVec (signer_sc <$> signers s));
         ("threshold", ScU128 (threshold s))].
Definition message_sc (m : Message) : ScVal :=
  ScMap [("contract_address", ScContract (destination m)); ("message_id", ScString (message_id m));
         ("payload_hash", ScBytes (payload_hash m));
         ("source_address", ScString (source_address m));
         ("source_chain", ScString (source_chain m))].
Definition command_sc (c : CommandType) : ScVal := ScVec [ScSymbol (stellar_xdr.command_str c)].

#[local] Instance signer_sc_inj : Inj (=) (=) signer_sc.
Proof. intros [] []. unfold signer_sc. cbn. by intros [= -> ->]. Qed.
#[local] Instance message_sc_inj : Inj (=) (=) message_sc.
Proof. intros [] []. unfold message_sc. cbn. by intros [= -> -> -> -> ->]. Qed.
Lemma signers_sc_inj s t : signers_sc s = signers_sc t → s = t.
Proof.
  unfold signers_sc. intros [= Hn Hs Ht]. apply signers_eq; [|done..].
  by apply (inj (fmap signer_sc)) in Hs.
Qed.

Lemma limited_Ok {A} max len (a b : A) : stellar_xdr.limited max len a = Ok b → b = a.
Proof. unfold stellar_xdr.limited. intros Hf. by apply bind_Ok in Hf as (? & _ & [= <-]). Qed.

Lemma try_map_image {E A B} (f : A → result E B) (g : A → B) l l' :
  (∀ x y, f x = Ok y → y = g x) → try_map f l = Ok l' → l' = g <$> l.
Proof.
  intros Hfg Hl%try_map_Ok. induction Hl as [|x y l l' Hx _ ->]; [done|]. cbn. f_equal. by apply Hfg.
Qed.

Lemma map_from_slices_Ok keys vals v :
  Forall (λ k, plain_text k = true ∧ Z.of_nat (String.length k) ≤ 32) keys →
  stellar_xdr.sc_map_from_slices keys vals = Ok v → v = ScMap (zip keys vals).
Proof.
  unfold stellar_xdr.sc_map_from_slices. intros Hk Hf.
  apply bind_Ok in Hf as (l & Hl%try_map_Ok & ->%limited_Ok). f_equal.
  revert vals Hl. generalize l. clear l. induction keys as [|k keys IH]; intros l vals Hl.
  { destruct vals; by inversion Hl. }
  apply Forall_cons in Hk as [[Hp Hn] Hk]. destruct vals as [|v vals]; [by inversion Hl|]. cbn in Hl.
  apply Forall2_cons_inv_l in Hl as (y & l' & Hy & Hl' & ->). cbn. f_equal; [|by apply IH].
  rewrite (string_m_plain _ _ Hp Hn) in Hy. by injection Hy as <-.
Qed.

Lemma signer_val_Ok s v : stellar_xdr.signer_val s = Ok v → v = signer_sc s.
Proof.
  unfold stellar_xdr.signer_val, stellar_xdr.sc_bytes. intros Hf.
  apply bind_Ok in Hf as (k & ->%limited_Ok & ->%map_from_slices_Ok); [done|].
  repeat (constructor; [by split|]). constructor.
Qed.

Lemma message_val_Ok m v :
  stellar_xdr.message_val m = Ok v →
  ∃ m', stellar_xdr.read_message m = Some m' ∧ v = message_sc m'.
Proof.
  unfold stellar_xdr.message_val, stellar_xdr.sc_bytes, stellar_xdr.sc_string, stellar_xdr.read_message.
  intros Hf. apply bind_Ok in Hf as (? & (id & -> & ->)%ok_or_Ok%fmap_Some & Hf).
  apply bind_Ok in Hf as (? & ->%limited_Ok & Hf).
  apply bind_Ok in Hf as (? & (a & -> & ->)%ok_or_Ok%fmap_Some & Hf).
  apply bind_Ok in Hf as (? & (c & -> & ->)%ok_or_Ok%fmap_Some & Hf).
  apply map_from_slices_Ok in Hf as ->; [by eexists|].
  repeat (constructor; [by split|]). constructor.
Qed.

Lemma signers_val_Ok s v : stellar_xdr.signers_val s = Ok v → v = signers_sc s.
Proof.
  unfold stellar_xdr.signers_val, stellar_xdr.sc_bytes, stellar_xdr.sc_vec. intros Hf.
  apply bind_Ok in Hf as (l & Hl & Hf). apply bind_Ok in Hf as (? & ->%limited_Ok & Hf).
  apply bind_Ok in Hf as (? & ->%limited_Ok & Hf). apply map_from_slices_Ok in Hf as ->.
  - apply (try_map_image _ signer_sc) in Hl as ->; [done|]. apply signer_val_Ok.
  - repeat (constructor; [by split|]). constructor.
Qed.

Lemma sc_pair_Ok c r v w :
  (∀ u, r = Ok u → u = w) →
  stellar_xdr.sc_pair (stellar_xdr.command_val c) r = Ok v → v = ScVec [command_sc c; w].
Proof.
  intros Hr Hf. unfold stellar_xdr.sc_pair, stellar_xdr.sc_vec in Hf.
  apply bind_Ok in Hf as (a & Ha & Hf). apply bind_Ok in Hf as (b & Hb & ->%limited_Ok).
  rewrite (Hr _ Hb). unfold stellar_xdr.command_val, stellar_xdr.sc_symbol, stellar_xdr.sc_vec in Ha.
  apply bind_Ok in Ha as (? & Ha & ->%limited_Ok).
  rewrite string_m_plain in Ha by (by destruct c). by injection Ha as <-.
Qed.

(** The value hashed for the content of a payload. *)
Definition content_sc (c : Content) : ScVal :=
  match c with
  | Approve ms => ScVec [command_sc ApproveMessages; ScVec (message_sc <$> ms)]
  | Rotate s => ScVec [command_sc RotateSigners; signers_sc s]
  end.

Lemma content_sc_inj c c' : content_sc c = content_sc c' → c = c'.
Proof.
  destruct c as [ms|s], c' as [ms'|s']; cbn -[signers_sc]; intros Heq; try (by inversion Heq).
  - injection Heq as Heq. apply (inj (fmap message_sc)) in Heq. by subst.
  - assert (signers_sc s = signers_sc s') as ->%signers_sc_inj by congruence. done.
Qed.

Definition xdr_preimages (ds : string) (vs : VerifierSet) (p : Payload) : list string :=
  match stellar_xdr.weighted_signers vs, content_of StellarXdr p with
  | Ok s, Ok c =>
      match to_xdr (signers_sc s), to_xdr (content_sc c) with
      | Some sb, Some cb => [ds +:+ keccak256 sb +:+ keccak256 cb; sb; cb]
      | _, _ => []
      end
  | _, _ => []
  end.

Lemma messages_read ms l vals :
  try_map stellar_xdr.message_try_from ms = Ok l → try_map stellar_xdr.message_val l = Ok vals →
  ∃ l', try_map (message_of StellarXdr) ms = Ok l' ∧ vals = message_sc <$> l'.
Proof.
  intros Hm%try_map_Ok Hv%try_map_Ok.
  assert (∃ l', Forall2 (λ m y, message_of StellarXdr m = Ok y) ms l' ∧ vals = message_sc <$> l')
    as (l' & Hl' & ->); [|exists l'; split; [by apply try_map_Ok|done]].
  revert vals Hv. induction Hm as [|m x ms l Hx _ IH]; intros vals Hv.
  { inversion Hv. exists []. by split; [constructor|]. }
  apply Forall2_cons_inv_l in Hv as (v & vals' & Hv & Hvs & ->). destruct (IH _ Hvs) as (l' & Hl' & ->).
  destruct (message_val_Ok _ _ Hv) as (m' & Hm' & ->). exists (m' :: l'). split; [|done].
  constructor; [|done]. cbn [message_of]. rewrite Hx. cbn. by rewrite Hm'.
Qed.

Lemma xdr_digest_Ok ds vs p d :
  stellar_xdr.payload_digest ds vs p = Ok d →
  ∃ s c sb cb, stellar_xdr.weighted_signers vs = Ok s ∧ content_of StellarXdr p = Ok c ∧
    to_xdr (signers_sc s) = Some sb ∧ to_xdr (content_sc c) = Some cb ∧
    d = keccak256 (ds +:+ keccak256 sb +:+ keccak256 cb).
Proof.
  unfold stellar_xdr.payload_digest, stellar_xdr.signers_hash. intros Hf.
  apply bind_Ok in Hf as (dh & Hdh & Hf). apply bind_Ok in Hf as (s & Hs%map_err_Ok & Hf).
  apply bind_Ok in Hf as (sh & Hsh%map_err_Ok & [= <-]).
  apply bind_Ok in Hsh as (v & ->%signers_val_Ok & Hsh). apply bind_Ok in Hsh as (sb & Hsb & [= <-]).
  apply ok_or_Ok in Hsb.
  assert (∃ c cb, content_of StellarXdr p = Ok c ∧ to_xdr (content_sc c) = Some cb ∧ dh = keccak256 cb)
    as (c & cb & Hc & Hcb & ->); [|eauto 10].
  destruct p as [ms|vs']; apply bind_Ok in Hdh as (x & Hx%map_err_Ok & Hdh%map_err_Ok);
    cbn [content_of].
  - unfold stellar_xdr.messages_approval_hash, stellar_xdr.sc_vec in Hdh.
    apply bind_Ok in Hdh as (l & Hl & Hdh). apply bind_Ok in Hdh as (v & Hv & Hdh).
    apply bind_Ok in Hdh as (b & Hb%ok_or_Ok & [= <-]).
    apply expect_ok_Ok, (sc_pair_Ok _ _ _ (ScVec l)) in Hv as ->; [|intros ? ?%limited_Ok; done].
    destruct (messages_read _ _ _ Hx Hl) as (ms' & Hms & ->). rewrite Hms. eexists _, _. done.
  - cbn [signers_of]. rewrite Hx. unfold stellar_xdr.signers_rotation_hash in Hdh. apply bind_Ok in Hdh as (v & Hv & Hdh).
    apply bind_Ok in Hdh as (b & Hb%ok_or_Ok & [= <-]).
    apply expect_ok_Ok, (sc_pair_Ok _ _ _ (signers_sc x)) in Hv as ->; [|apply signers_val_Ok].
    eexists _, _. done.
Qed.

Lemma xdr_digest_binds ds vs p ds' vs' p' d :
  String.length ds = String.length ds' →
  (∀ x y, x ∈ xdr_preimages ds vs p → y ∈ xdr_preimages ds' vs' p' →
     keccak256 x = keccak256 y → x = y) →
  stellar_xdr.payload_digest ds vs p = Ok d → stellar_xdr.payload_digest ds' vs' p' = Ok d →
  ds = ds' ∧ signers_of StellarXdr vs = signers_of StellarXdr vs' ∧
  content_of StellarXdr p = content_of StellarXdr p'.
Proof.
  intros Hl Hinj (s & c & sb & cb & Hs & Hc & Hsb & Hcb & ->)%xdr_digest_Ok
    (s' & c' & sb' & cb' & Hs' & Hc' & Hsb' & Hcb' & Heq)%xdr_digest_Ok.
  unfold xdr_preimages in Hinj. rewrite Hs, Hs', Hc, Hc', Hsb, Hsb', Hcb, Hcb' in Hinj.
  apply Hinj in Heq; [|set_solver..]. apply append_inj in Heq as [-> Heq]; [|done].
  apply append_inj in Heq as [Eh Ed]; [|by rewrite !keccak256_length].
  apply Hinj in Eh; [|set_solver..]. apply Hinj in Ed; [|set_solver..]. subst sb' cb'.
  split; [done|]. cbn [signers_of]. rewrite Hs, Hs', Hc, Hc'. split; f_equal.
  - apply signers_sc_inj. by eapply to_xdr_inj.
  - apply content_sc_inj. by eapply to_xdr_inj.
Qed.

(** *** What a signature binds *)

(** Everything that is hashed for a digest. *)
Definition digest_preimages (e : Encoder) (ds : string) (vs : VerifierSet) (p : Payload)
    : list string :=
  match e with
  | Abi => abi_preimages ds vs p
  | Bcs => bcs_preimages ds vs p
  | StellarXdr => xdr_preimages ds vs p
  | Solana => []
  end.

(** C12: A digest binds what the chain acts on. If the digests of two payloads agree, and Keccak-256
    does not collide on what was hashed for them, then the domain separators, the weighted
    signers the external gateway will check the signatures against, and the content (the same
    messages in the same order, or the same new signers) agree: signatures for one payload are
    good for no other. What is bound are the values that the chain sees: an EVM destination
    address as parsed, and for Stellar the texts of a message with their escapes read, so that
    two texts that differ only in how they are escaped share a digest there. *)
Theorem digest_binds (e : Encoder) (ds ds' : string) (vs vs' : VerifierSet) (p p' : Payload)
    (d : string) :
  String.length ds = 32%nat → String.length ds' = 32%nat →
  set_typed vs → set_typed vs' → payload_typed p → payload_typed p' →
  (∀ x y, x ∈ digest_preimages e ds vs p → y ∈ digest_preimages e ds' vs' p' →
     keccak256 x = keccak256 y → x = y) →
  digest e ds vs p = Ok d → digest e ds' vs' p' = Ok d →
  ds = ds' ∧ signers_of e vs = signers_of e vs' ∧ content_of e p = content_of e p'.
Proof.
  intros Hl Hl' Hvs Hvs' Hp Hp' Hinj Hd Hd'. destruct e.
  - by apply (abi_digest_binds _ _ _ _ _ _ d); [..|congruence| | |].
  - by apply (bcs_digest_binds _ _ _ _ _ _ d).
  - by apply (xdr_digest_binds _ _ _ _ _ _ d); [congruence|..].
  - done.
Qed.

(** *** The order of the signatures in a proof *)

Lemma sorted_sublist (l k : list string) :
  StronglySorted String.le l → StronglySorted String.le k → NoDup l → l ⊆ k → l `sublist_of` k.
Proof.
  intros Hl Hk. revert l Hl. induction Hk as [|y k Hk IH Hy]; intros l Hl Hnd Hsub.
  - destruct l as [|x l]; [constructor|]. exfalso. specialize (Hsub x ltac:(left)). inversion Hsub.
  - destruct Hl as [|x l Hl Hx]; [apply sublist_nil_l|]. apply NoDup_cons in Hnd as [Hnx Hnd].
    destruct (decide (x = y)) as [->|Hne].
    + apply sublist_skip, IH; [done..|]. intros z Hz.
      assert (z ∈ y :: k) as [->|]%elem_of_cons by (apply Hsub; by right); done.
    + apply sublist_cons, IH; [by constructor|by constructor|]. intros z Hz.
      pose proof (Hsub z Hz) as [->|]%elem_of_cons; [|done].
      exfalso. apply elem_of_cons in Hz as [Hz|Hz]; [done|]. apply Hne.
      pose proof (Hsub x ltac:(left)) as [|Hin]%elem_of_cons; [done|].
      rewrite Forall_forall in Hx, Hy. apply (anti_symm String.le); auto.
Qed.

Lemma StronglySorted_fmap {A B} (R : relation A) (Q : relation B) (f : A → B) l :
  (∀ x y, x ∈ l → y ∈ l → R x y → Q (f x) (f y)) →
  StronglySorted R l → StronglySorted Q (f <$> l).
Proof.
  intros Hf Hl. induction Hl as [|x l Hl IH Hx]; csimpl; constructor.
  - apply IH. intros y z Hy Hz. apply Hf; by right.
  - apply Forall_fmap, Forall_forall. intros y Hy. rewrite Forall_forall in Hx.
    apply Hf; [left|by right|auto].
Qed.

(** The signers of a converted set are sorted by identifier, and hold that of every member. *)
Lemma converted_sorted f vs s :
  convert_signers f vs = Ok s → StronglySorted String.le (signer <$> signers s).
Proof.
  intros (_ & _ & Hs & _)%convert_signers_Ok. by apply (StronglySorted_fmap signer_le).
Qed.

Lemma converted_member f vs s m :
  convert_signers f vs = Ok s → m ∈ snd <$> entries (verifier_set.signers vs) →
  ∃ id, f (verifier_set.pub_key m) = Ok id ∧ id ∈ signer <$> signers s.
Proof.
  intros (_ & _ & _ & l & Hl & Hf)%convert_signers_Ok Hm.
  apply list_elem_of_fmap in Hm as ([k m'] & -> & Hin). apply list_elem_of_lookup in Hin as [i Hi].
  destruct (Forall2_lookup_l _ _ _ _ _ Hf Hi) as (w & Hw & Hfw & _). exists (signer w).
  split; [done|]. rewrite Hl. apply list_elem_of_fmap. exists w.
  split; [done|by eapply list_elem_of_lookup_2].
Qed.

(** Signatures by members, sorted by an order that agrees with their identifiers. *)
Lemma sorted_ids_sublist f vs s (R : relation (Signer * Signature)) `{!RelDecision R}
    `{!Transitive R} `{!Total R} (id : Signer → string) (sigs : list (Signer * Signature)) :
  convert_signers f vs = Ok s →
  (∀ p, p ∈ sigs → p.1 ∈ snd <$> entries (verifier_set.signers vs)) →
  NoDup (id <$> sigs.*1) →
  (∀ p i, p ∈ sigs → f (verifier_set.pub_key p.1) = Ok i → id p.1 = i) →
  (∀ p q, p ∈ sigs → q ∈ sigs → R p q → String.le (id p.1) (id q.1)) →
  (id <$> (merge_sort R sigs).*1) `sublist_of` (signer <$> signers s).
Proof.
  intros Hs Hmem Hnd Hid HR. pose proof (merge_sort_Permutation R sigs) as Hperm. apply sorted_sublist.
  - rewrite <-list_fmap_compose. apply (StronglySorted_fmap R).
    + intros p q. rewrite Hperm. apply HR.
    + apply StronglySorted_merge_sort; apply _.
  - by eapply converted_sorted.
  - by rewrite Hperm.
  - intros x Hx. apply list_elem_of_fmap in Hx as (m & -> & Hm).
    apply list_elem_of_fmap in Hm as (p & -> & Hp). rewrite Hperm in Hp.
    destruct (converted_member _ _ _ _ Hs (Hmem p Hp)) as (i & Hi & Hin). by rewrite (Hid p i).
Qed.

#[local] Instance address_le_trans : Transitive abi.address_le.
Proof. intros p q r. unfold abi.address_le. by etrans. Qed.
#[local] Instance address_le_total : Total abi.address_le.
Proof. intros p q. unfold abi.address_le. apply (total String.le). Qed.
#[local] Instance by_key_trans : Transitive bcs.by_key.
Proof.
  intros p q r. unfold bcs.by_key, bcs.key_le. destruct (verifier_set.pub_key p.1),
    (verifier_set.pub_key q.1), (verifier_set.pub_key r.1); try done; by etrans.
Qed.
#[local] Instance by_key_total : Total bcs.by_key.
Proof.
  intros p q. unfold bcs.by_key, bcs.key_le. destruct (verifier_set.pub_key p.1),
    (verifier_set.pub_key q.1); auto; apply (total String.le).
Qed.

(** The signatures of a proof come in the order of its signers. For an EVM chain and for Sui,
    when the signatures are by distinct members of the verifier set, the proof lists the signers
    of the set in the order of their identifiers and the signatures in an order in which their
    signers' identifiers are a subsequence of it, as the external gateways require, and no
    signature is dropped or repeated. *)
Theorem proof_signatures_in_order (vs : VerifierSet) (sigs : list (Signer * Signature))
    (s : WeightedSigners) (l : list string) :
  (∀ p, p ∈ sigs → p.1 ∈ snd <$> entries (verifier_set.signers vs)) →
  (NoDup (abi.address_of <$> sigs.*1) → abi.proof_new vs sigs = Ok (s, l) →
   ∃ order, order ≡ₚ sigs ∧ l = (λ p, signature_bytes p.2) <$> order ∧
     (abi.address_of <$> order.*1) `sublist_of` (signer <$> signers s)) ∧
  (NoDup ((λ m, pub_key_bytes (verifier_set.pub_key m)) <$> sigs.*1) →
   bcs.proof_try_from vs sigs = Ok (s, l) →
   ∃ order, order ≡ₚ sigs ∧ Forall2 (λ p sig, p.2 = SigEcdsaRecoverable sig) order l ∧
     ((λ m, pub_key_bytes (verifier_set.pub_key m)) <$> order.*1) `sublist_of`
       (signer <$> signers s)).
Proof.
  intros Hmem. split.
  - intros Hnd Hf. unfold abi.proof_new in Hf. apply bind_Ok in Hf as (s' & Hs & Hf).
    apply bind_Ok in Hf as (u & _ & [= -> <-]). exists (merge_sort abi.address_le sigs).
    split; [apply merge_sort_Permutation|]. split; [by apply list_fmap_ext; intros ? []|].
    apply (sorted_ids_sublist abi.evm_address vs s abi.address_le abi.address_of sigs Hs Hmem Hnd);
      [|done].
    intros p i _ Hi. unfold abi.address_of. by rewrite Hi.
  - intros Hnd Hf. unfold bcs.proof_try_from in Hf. apply bind_Ok in Hf as (s' & Hs & Hf).
    apply bind_Ok in Hf as (l' & Hl & [= -> ->]). exists (merge_sort bcs.by_key sigs).
    split; [apply merge_sort_Permutation|]. split.
    { apply try_map_Ok in Hl. eapply Forall2_impl; [exact Hl|].
      intros [m sig] b Hb. destruct sig; cbn in Hb; by simplify_eq. }
    apply (sorted_ids_sublist bcs.key_of vs s bcs.by_key
      (λ m, pub_key_bytes (verifier_set.pub_key m)) sigs Hs Hmem Hnd).
    + intros p i _ Hi. destruct (verifier_set.pub_key p.1); cbn in *; by simplify_eq.
    + intros p q Hp Hq. unfold bcs.by_key, bcs.key_le.
      destruct (converted_member _ _ _ _ Hs (Hmem p Hp)) as (i & Hi & _).
      destruct (converted_member _ _ _ _ Hs (Hmem q Hq)) as (j & Hj & _).
      by destruct (verifier_set.pub_key p.1), (verifier_set.pub_key q.1).
Qed.

(** *** The signers of a Stellar proof *)

(** The signature for a key: the last one given for it. *)
Definition signature_for (sigs : list (Signer * Signature)) (key : PublicKey) : option Signature :=
  snd <$> (snd <$> list_find (λ p, p.1 = key)
                     (reverse ((λ '(s, sig), (verifier_set.pub_key s, sig)) <$> sigs))).

Lemma find_filtered (l : list (PublicKey * Signature)) (k k' : PublicKey) :
  k ≠ k' →
  snd <$> list_find (λ p, p.1 = k') (filter (λ p, p.1 ≠ k) l) = snd <$> list_find (λ p, p.1 = k') l.
Proof.
  intros Hne. induction l as [|p l IH]; [done|]. rewrite filter_cons. cbn [list_find].
  destruct (decide (p.1 = k')) as [Hk'|Hk'].
  - rewrite decide_True by congruence. cbn. by rewrite decide_True.
  - destruct (decide (p.1 ≠ k)) as [Hk|Hk]; cbn; rewrite ?(decide_False (P := p.1 = k')) by done.
    + destruct (list_find _ (filter _ l)) as [[]|], (list_find _ l) as [[]|]; done.
    + rewrite IH. by destruct (list_find _ l) as [[]|].
Qed.

Lemma take_signatures_spec sigs (vs : list Signer) :
  NoDup (verifier_set.pub_key <$> vs) →
  stellar_xdr.take_signatures sigs vs =
    (λ s, (s, snd <$> (snd <$> list_find (λ p, p.1 = verifier_set.pub_key s) sigs))) <$> vs.
Proof.
  revert sigs. induction vs as [|m vs IH]; intros sigs Hnd; [done|]. csimpl in *.
  apply NoDup_cons in Hnd as [Hn Hnd]. f_equal. rewrite IH by done. apply list_fmap_ext.
  intros i m' Hm'. f_equal. f_equal. apply find_filtered. intros Heq. apply Hn. rewrite Heq.
  by eapply list_elem_of_fmap_2, list_elem_of_lookup_2.
Qed.

#[local] Instance key_order_trans : Transitive stellar_xdr.key_order.
Proof.
  intros p q r. unfold stellar_xdr.key_order, bcs.key_le. destruct (verifier_set.pub_key p),
    (verifier_set.pub_key q), (verifier_set.pub_key r); try done; by etrans.
Qed.
#[local] Instance key_order_total : Total stellar_xdr.key_order.
Proof.
  intros p q. unfold stellar_xdr.key_order, bcs.key_le. destruct (verifier_set.pub_key p),
    (verifier_set.pub_key q); auto; apply (total String.le).
Qed.

(** A Stellar proof lists the whole set, with the signatures at their signers. Every member of
    the verifier set has one entry, in the order of the keys, with its weight and its key; the
    entry is signed exactly when a signature by that key was given, with that signature, and it
    is unsigned otherwise. *)
Theorem stellar_proof_exact (vs : VerifierSet) (sigs : list (Signer * Signature))
    (p : stellar_xdr.Proof) :
  NoDup (verifier_set.pub_key <$> (entries (verifier_set.signers vs)).*2) →
  stellar_xdr.proof_try_from vs sigs = Ok p →
  stellar_xdr.p_threshold p = verifier_set.threshold vs ∧ stellar_xdr.p_nonce p = nonce_of vs ∧
  ∃ order, order ≡ₚ (entries (verifier_set.signers vs)).*2 ∧
    StronglySorted stellar_xdr.key_order order ∧
    Forall2 (λ m e, stellar_xdr.ps_signer e =
               mkWeighted (pub_key_bytes (verifier_set.pub_key m)) (verifier_set.weight m) ∧
             match signature_for sigs (verifier_set.pub_key m) with
             | Some sig => sig = SigEd25519 (signature_bytes sig) ∧
                 stellar_xdr.ps_signature e = stellar_xdr.Signed (signature_bytes sig)
             | None => stellar_xdr.ps_signature e = stellar_xdr.Unsigned
             end) order (stellar_xdr.p_signers p).
Proof.
  intros Hnd Hf. unfold stellar_xdr.proof_try_from in Hf. apply bind_Ok in Hf as (l & Hl & [= <-]).
  split; [done|]. split; [done|]. set (order := merge_sort _ _) in *.
  assert (order ≡ₚ (entries (verifier_set.signers vs)).*2) as Hperm by apply merge_sort_Permutation.
  exists order. split; [done|]. split; [apply StronglySorted_merge_sort; apply _|]. cbn.
  rewrite take_signatures_spec in Hl by by rewrite Hperm. apply try_map_Ok in Hl.
  apply Forall2_fmap_l in Hl. eapply Forall2_impl; [exact Hl|]. intros m e He. cbn in He.
  unfold stellar_xdr.proof_signer, stellar_xdr.key_bytes in He.
  apply bind_Ok in He as (key & Hkey%map_err_Ok & He). apply limited_Ok in Hkey as ->.
  apply bind_Ok in He as (sig & Hsig & [= <-]). split; [done|]. cbn. unfold signature_for.
  destruct (snd <$> (snd <$> list_find _ _)) as [[b|b|b]|]; cbn in Hsig; try done.
  - apply bind_Ok in Hsig as (b' & Hb%map_err_Ok & [= <-]). by apply limited_Ok in Hb as ->.
  - by injection Hsig as <-.
Qed.

End digests.

End encoding.

(** ** Concrete serializers *)
Module encoding_run.
Import key encoding.

(** *** Values as trees, trees as strings of bits *)

Definition leaf (x : Z + string) : gen_tree (Z + string) := GenLeaf x.

Fixpoint token_tree (t : Token) : gen_tree (Z + string) :=
  match t with
  | TokUint n => GenNode 0 [leaf (inl n)]
  | TokAddress a => GenNode 1 [leaf (inr a)]
  | TokFixedBytes b => GenNode 2 [leaf (inr b)]
  | TokString s => GenNode 3 [leaf (inr s)]
  | TokBytes b => GenNode 4 [leaf (inr b)]
  | TokArray ts => GenNode 5 (token_tree <$> ts)
  | TokTuple ts => GenNode 6 (token_tree <$> ts)
  end.
Fixpoint bcs_tree (v : BcsValue) : gen_tree (Z + string) :=
  match v with
  | BcsU128 n => GenNode 0 [leaf (inl n)]
  | BcsFixed b => GenNode 1 [leaf (inr b)]
  | BcsBytes b => GenNode 2 [leaf (inr b)]
  | BcsString s => GenNode 3 [leaf (inr s)]
  | BcsSeq vs => GenNode 4 (bcs_tree <$> vs)
  | BcsStruct vs => GenNode 5 (bcs_tree <$> vs)
  end.
Fixpoint sc_tree (v : ScVal) : gen_tree (Z + string) :=
  match v with
  | ScBytes b => GenNode 0 [leaf (inr b)]
  | ScString s => GenNode 1 [leaf (inr s)]
  | ScSymbol s => GenNode 2 [leaf (inr s)]
  | ScU128 n => GenNode 3 [leaf (inl n)]
  | ScContract h => GenNode 4 [leaf (inr h)]
  | ScVec vs => GenNode 5 (sc_tree <$> vs)
  | ScMap kvs => GenNode 6 ((λ '(k, v), GenNode 0 [leaf (inr k); sc_tree v]) <$> kvs)
  end.

(** Lists whose members are determined by their images. *)
Lemma fmap_inj_with {A B} (f : A → B) (l k : list A) :
  (fix go l := match l with [] => True | x :: l => (∀ y, f x = f y → x = y) ∧ go l end) l →
  f <$> l = f <$> k → l = k.
Proof.
  revert k. induction l as [|x l IH]; intros [|y k]; csimpl; try done.
  intros [Hx Hl] [= Hxy Hlk]. f_equal; auto.
Qed.

#[local] Instance token_tree_inj : Inj (=) (=) token_tree.
Proof.
  refine (fix go t u {struct t} := _).
  destruct t as [| | | | |ts|ts], u; intros Heq; try discriminate Heq;
    try (injection Heq as ->; reflexivity).
  all: f_equal; injection Heq as Heq; apply (fmap_inj_with token_tree); [|exact Heq];
    clear Heq; induction ts as [|t ts IH]; [exact I|split; [exact (go t)|exact IH]].
Qed.
#[local] Instance bcs_tree_inj : Inj (=) (=) bcs_tree.
Proof.
  refine (fix go t u {struct t} := _).
  destruct t as [| | | |ts|ts], u; intros Heq; try discriminate Heq;
    try (injection Heq as ->; reflexivity).
  all: f_equal; injection Heq as Heq; apply (fmap_inj_with bcs_tree); [|exact Heq];
    clear Heq; induction ts as [|t ts IH]; [exact I|split; [exact (go t)|exact IH]].
Qed.
#[local] Instance sc_tree_inj : Inj (=) (=) sc_tree.
Proof.
  refine (fix go t u {struct t} := _).
  destruct t as [| | | | |ts|kvs], u; intros Heq; try discriminate Heq;
    try (injection Heq as ->; reflexivity).
  - f_equal. injection Heq as Heq. apply (fmap_inj_with sc_tree); [|exact Heq].
    clear Heq. induction ts as [|t ts IH]; [exact I|split; [exact (go t)|exact IH]].
  - f_equal. injection Heq as Heq.
    apply (fmap_inj_with (λ '(k, v), GenNode 0 [leaf (inr k); sc_tree v])); [|exact Heq].
    clear Heq. induction kvs as [|[k v] kvs IH]; [exact I|split; [|exact IH]].
    intros [k' v'] [= -> Hv]. f_equal. exact (go v v' Hv).
Qed.

Fixpoint bits (p : positive) : string :=
  match p with xH => EmptyString | xO p => "0" +:+ bits p | xI p => "1" +:+ bits p end.
#[local] Instance bits_inj : Inj (=) (=) bits.
Proof. intros p. induction p; intros [] [=]; f_equal; auto. Qed.

Definition tree_bits (t : gen_tree (Z + string)) : string := bits (encode t).
#[local] Instance tree_bits_inj : Inj (=) (=) tree_bits.
Proof. intros t u Heq. apply (inj encode). by apply (inj bits). Qed.

(** *** The serializers and a hash *)

(** The first [n] bytes, filled with zeros. *)
Definition sized (n : nat) (s : string) : string :=
  String.string_of_list_ascii (resize n zero (text_of s)).
Lemma sized_length n s : String.length (sized n s) = n.
Proof.
  unfold sized. rewrite <-chain.text_of_length. unfold text_of.
  by rewrite String.list_ascii_of_string_of_list_ascii, length_resize.
Qed.

Definition run_crypto : Crypto :=
  Build_Crypto
    (λ s, sized 31 s +:+ to_be_bytes 1 (Z.of_nat (String.length s) mod 256))
    (λ _ _ _, Some true) (λ _ _ _, Some true) Some Some.

Definition first_word (ts : list Token) : string :=
  to_be_bytes 32 (match ts with TokUint n :: _ => n | _ => 0 end).

(** The texts of [StringM]: a backslash escapes itself, and [x] starts two hexadecimal digits. *)
Definition hex_digit (c : ascii) : option nat :=
  let n := nat_of_ascii c in
  if bool_decide (48 ≤ n ≤ 57)%nat then Some (n - 48)%nat
  else if bool_decide (97 ≤ n ≤ 102)%nat then Some (n - 87)%nat else None.
Definition backslash : ascii := ascii_of_nat 92.
Fixpoint unescape (l : text) : option text :=
  match l with
  | [] => Some []
  | c :: l =>
      if bool_decide (c = backslash) then
        match l with
        | d :: l' =>
            if bool_decide (d = backslash) then cons backslash <$> unescape l'
            else match l' with
                 | h :: k :: l'' =>
                     if bool_decide (d = "x"%char) then
                       x ← hex_digit h; y ← hex_digit k;
                       cons (ascii_of_nat (16 * x + y)) <$> unescape l''
                     else None
                 | _ => None
                 end
        | [] => None
        end
      else cons c <$> unescape l
  end.

Lemma unescape_plain l : forallb plain_char l = true → unescape l = Some l.
Proof.
  induction l as [|c l IH]; [done|]. cbn. intros [Hc Hl]%andb_true_iff.
  rewrite bool_decide_eq_false_2; [by rewrite IH|]. intros ->. by vm_compute in Hc.
Qed.

Definition run_codecs : ChainCodecs := {|
  abi_encode ts := first_word ts +:+ tree_bits (token_tree (TokTuple ts));
  h160_from_str s := Some (sized 20 s);
  approve_messages_selector := "appr";
  rotate_signers_selector := "rota";
  sec1_to_address k := Some (sized 20 k);
  signature_from_slice := Some;
  trial_recovery _ _ _ := Some 1;
  bcs_to_bytes v := Some (tree_bits (bcs_tree v));
  to_xdr v := Some (tree_bits (sc_tree v));
  string_m_from_str max s :=
    t ← unescape (text_of s);
    if bool_decide (Z.of_nat (length t) ≤ max) then Some (String.string_of_list_ascii t) else None;
  contract_from_string := Some
|}.
#[local] Existing Instances run_crypto run_codecs codecs.hex_codec voting_verifier_run.run_parsers.

#[local] Instance run_laws : CodecLaws.
Proof.
  split.
  - intros ts us tys _ _ Heq. apply append_inj in Heq as [_ Heq];
      [|unfold first_word; by rewrite !to_be_bytes_length].
    apply (inj tree_bits), (inj token_tree) in Heq. by injection Heq.
  - intros n m ts us Hn Hm Heq. apply append_inj in Heq as [Heq _];
      [|unfold first_word; by rewrite !to_be_bytes_length].
    rewrite <-(be_val_to_be_bytes 32 n), <-(be_val_to_be_bytes 32 m) by (unfold u256_max in *; lia).
    unfold first_word in Heq. by rewrite Heq.
  - intros v w ty b _ _ [= <-] [= Heq]. by apply (inj tree_bits), (inj bcs_tree) in Heq.
  - intros v w b [= <-] [= Heq]. by apply (inj tree_bits), (inj sc_tree) in Heq.
  - intros max s Hp Hn. cbn. rewrite unescape_plain by done. cbn.
    rewrite chain.text_of_length, bool_decide_eq_true_2 by done.
    by rewrite String.string_of_list_ascii_of_string.
  - intros s. unfold keccak256, run_crypto. rewrite <-chain.text_of_length, chain.text_of_app,
      length_app, !chain.text_of_length, sized_length, to_be_bytes_length. done.
  - intros k a [= <-]. apply sized_length.
  - intros k a [= <-]. apply sized_length.
Qed.

(** *** Witnesses *)

Definition run_set (key : string → PublicKey) : verifier_set.VerifierSet :=
  verifier_set.new
    ((λ a, (snapshot.mkParticipant a 2, key a)) <$> ["a"; "b"; "c"]) 4 10.
Definition run_signer (key : string → PublicKey) (a : string) : verifier_set.Signer :=
  verifier_set.mkSigner a 2 (key a).
Definition run_sigs (key : string → PublicKey) (sig : string → Signature)
    : list (verifier_set.Signer * Signature) :=
  [(run_signer key "c", sig "signature of c"); (run_signer key "a", sig "signature of a")].

(** The destination with or without its prefix. *)
Definition run_payload (dest : string) : multisig_prover.Payload :=
  multisig_prover.Messages
    [router_api.mkMessage (router_api.mkCcId "sui" "m1") "0xa" "eth" dest (sized 32 "hash")].
Definition run_separator : string := sized 32 "separator".
Definition run_digest : string :=
  match multisig_prover.digest multisig_prover.Abi run_separator (run_set PkEcdsa)
          (run_payload "0xb") with Ok d => d | _ => EmptyString end.

Lemma no_collisions (l k : list string) :
  bool_decide (Forall (λ x, Forall (λ y, keccak256 x = keccak256 y → x = y) k) l) = true →
  ∀ x y, x ∈ l → y ∈ k → keccak256 x = keccak256 y → x = y.
Proof.
  intros Hall%bool_decide_eq_true x y Hx Hy. rewrite Forall_forall in Hall. specialize (Hall x Hx).
  rewrite Forall_forall in Hall. exact (Hall y Hy).
Qed.

Lemma run_set_typed key : set_typed (run_set key).
Proof.
  split; [|cbn; unfold u128_max, u64_max; lia]. cbn.
  repeat apply map_Forall_insert_2; try (cbn; unfold u128_max; lia). apply map_Forall_empty.
Qed.

Definition stellar_payload (source_address : string) : multisig_prover.Payload :=
  multisig_prover.Messages
    [router_api.mkMessage (router_api.mkCcId "sui" "m1") source_address "stellar" "dest" (sized 32 "hash")].
Definition run_stellar_digest : string :=
  match multisig_prover.digest multisig_prover.StellarXdr run_separator (run_set PkEd25519)
          (stellar_payload "AB") with Ok d => d | _ => EmptyString end.

(** An EVM address with and without its prefix, and a text with and without an escape: the
    digests agree, and so does what the chain sees. *)
Lemma digest_binds_witness :
  content_of multisig_prover.Abi (run_payload "0xb") =
  content_of multisig_prover.Abi (run_payload "b") ∧
  content_of multisig_prover.StellarXdr (stellar_payload "AB") =
  content_of multisig_prover.StellarXdr (stellar_payload "\x41B").
Proof.
  split.
  - apply (digest_binds multisig_prover.Abi run_separator run_separator (run_set PkEcdsa)
           (run_set PkEcdsa) (run_payload "0xb") (run_payload "b") run_digest).
    + reflexivity.
    + reflexivity.
    + apply run_set_typed.
    + apply run_set_typed.
    + repeat constructor.
    + repeat constructor.
    + apply no_collisions. vm_compute. reflexivity.
    + vm_compute. reflexivity.
    + vm_compute. reflexivity.
  - apply (digest_binds multisig_prover.StellarXdr run_separator run_separator (run_set PkEd25519)
           (run_set PkEd25519) (stellar_payload "AB") (stellar_payload "\x41B") run_stellar_digest).
    + reflexivity.
    + reflexivity.
    + apply run_set_typed.
    + apply run_set_typed.
    + repeat constructor.
    + repeat constructor.
    + apply no_collisions. vm_compute. reflexivity.
    + vm_compute. reflexivity.
    + vm_compute. reflexivity.
Defined.

Lemma run_sigs_members key sig p :
  p ∈ run_sigs key sig →
  p.1 ∈ snd <$> entries (verifier_set.signers (run_set key)).
Proof.
  intros Hp. apply list_elem_of_fmap.
  apply elem_of_cons in Hp as [->|[->|[]%not_elem_of_nil]%elem_of_cons];
    [exists ("c", run_signer key "c")|exists ("a", run_signer key "a")];
    (split; [reflexivity|apply elem_of_entries]); vm_compute; reflexivity.
Qed.

(** Signatures given by [c] and by [a] are listed as those of [a] and of [c]. *)
Lemma proof_signatures_in_order_witness :
  ∃ s order, order ≡ₚ run_sigs PkEcdsa SigEcdsaRecoverable ∧
    ((λ m, pub_key_bytes (verifier_set.pub_key m)) <$> order.*1) `sublist_of` (signer <$> signers s).
Proof.
  destruct (bcs.proof_try_from (run_set PkEcdsa) (run_sigs PkEcdsa SigEcdsaRecoverable))
    as [[s l]|e|] eqn:Hs; [|exfalso; vm_compute in Hs; discriminate Hs..].
  destruct (proj2 (proof_signatures_in_order (run_set PkEcdsa)
    (run_sigs PkEcdsa SigEcdsaRecoverable) s l (run_sigs_members _ _))) as (order & Ho & _ & Hsub).
  - apply (bool_decide_unpack _). vm_compute. exact I.
  - exact Hs.
  - exact (ex_intro _ s (ex_intro _ order (conj Ho Hsub))).
Defined.

Lemma stellar_proof_exact_witness :
  ∃ p, stellar_xdr.proof_try_from (run_set PkEd25519) (run_sigs PkEd25519 SigEd25519) = Ok p ∧
    stellar_xdr.p_threshold p = 4.
Proof.
  destruct (stellar_xdr.proof_try_from (run_set PkEd25519) (run_sigs PkEd25519 SigEd25519))
    as [p|e|] eqn:Hp; [|exfalso; vm_compute in Hp; discriminate Hp..].
  exists p. split; [reflexivity|].
  apply (stellar_proof_exact (run_set PkEd25519) (run_sigs PkEd25519 SigEd25519) p); [|exact Hp].
  apply (bool_decide_unpack _). vm_compute. exact I.
Defined.

End encoding_run.
