(* ===== verification/Coordinator.v ===== *)
(** * The coordinator

    [contracts/coordinator/src]: the registry of the protocol's contracts and of the contracts
    of every chain, with its three unique indexes, the table of the verifiers that each prover
    holds active ([state.rs]), the handlers ([contract/execute.rs]), the deployment of the
    contracts of a chain, the queries ([contract/query.rs]) and the entry points
    ([contract.rs], [msg.rs]).

    The queries and the address derivation of the CosmWasm interface that a deployment uses are
    arguments of the environment. *)

From S2P Require Import Prelude Std Voting MsgId RouterApi Multisig.
From S2P Require Import VotingVerifier Router ServiceRegistry Gateway MultisigProver.

Module coordinator.
Import key.

(** ** Storage ([state.rs]) *)

Inductive StateError :=
  | PersistingState
  | StateChainNotRegistered (chain : string)
  | StateProverNotRegistered (a : Addr)
  | GatewayNotRegistered (a : Addr)
  | VerifierNotRegistered (a : Addr)
  | StateParseFailed
  | StateRemoveFailed
  | DeploymentNameInUse (name : string)
  | StateDeploymentNotFound (name : string).

Record ProtocolContracts := mkProtocol { service_registry : Addr; router : Addr; multisig : Addr }.

Record ChainContracts := mkContracts {
  c_chain_name : string;
  c_msg_id_format : msg_id.MessageIdFormat;
  c_gateway : Addr;
  c_voting_verifier : Addr;
  c_multisig_prover : Addr
}.

Record ChainContractsRecord := mkRecord {
  chain_name : string;
  prover_address : Addr;
  gateway_address : Addr;
  verifier_address : Addr
}.

Record VerifierProverRecord := mkVPRecord { prover : Addr; verifier : Addr }.

Record State := mkState {
  perm : permission_control.Storage;
  PROTOCOL : option ProtocolContracts;
  DEPLOYED_CHAINS : gmap string ChainContracts;
  CHAIN_CONTRACTS_MAP : gmap string ChainContractsRecord;
  VERIFIER_PROVER_INDEXED_MAP : gmap (Addr * Addr) VerifierProverRecord
}.

Definition set_protocol (st : State) p : State :=
  mkState (perm st) p (DEPLOYED_CHAINS st) (CHAIN_CONTRACTS_MAP st)
    (VERIFIER_PROVER_INDEXED_MAP st).
Definition set_deployed (st : State) m : State :=
  mkState (perm st) (PROTOCOL st) m (CHAIN_CONTRACTS_MAP st) (VERIFIER_PROVER_INDEXED_MAP st).
Definition set_contracts (st : State) m : State :=
  mkState (perm st) (PROTOCOL st) (DEPLOYED_CHAINS st) m (VERIFIER_PROVER_INDEXED_MAP st).
Definition set_active (st : State) m : State :=
  mkState (perm st) (PROTOCOL st) (DEPLOYED_CHAINS st) (CHAIN_CONTRACTS_MAP st) m.

Definition save_protocol_contracts (st : State) (p : ProtocolContracts) : State :=
  set_protocol st (Some p).
Definition protocol_contracts (st : State) : result StdError ProtocolContracts :=
  item_load (PROTOCOL st).

(** Saving goes through the indexes in their order. *)
Definition save_chain_contracts (st : State) (chain : string) (prover gateway verifier : Addr)
    : result StateError State :=
  let record := mkRecord chain prover gateway verifier in
  let save idx := map_err (λ _, PersistingState)
                    (unique_index_save idx (CHAIN_CONTRACTS_MAP st) chain record) in
  _ ← save prover_address;
  _ ← save gateway_address;
  m ← save verifier_address;
  Ok (set_contracts st m).

Definition contracts_by_chain (st : State) (chain : string)
    : result StateError ChainContractsRecord :=
  ok_or (StateChainNotRegistered chain) (CHAIN_CONTRACTS_MAP st !! chain).
Definition contracts_by_prover (st : State) (a : Addr) : result StateError ChainContractsRecord :=
  snd <$> ok_or (StateProverNotRegistered a)
            (unique_index_item prover_address (CHAIN_CONTRACTS_MAP st) a).
Definition contracts_by_gateway (st : State) (a : Addr) : result StateError ChainContractsRecord :=
  snd <$> ok_or (GatewayNotRegistered a)
            (unique_index_item gateway_address (CHAIN_CONTRACTS_MAP st) a).
Definition contracts_by_verifier (st : State) (a : Addr) : result StateError ChainContractsRecord :=
  snd <$> ok_or (VerifierNotRegistered a)
            (unique_index_item verifier_address (CHAIN_CONTRACTS_MAP st) a).

Definition validate_deployment_name_availability (st : State) (name : string)
    : result StateError unit :=
  if bool_decide (is_Some (DEPLOYED_CHAINS st !! name)) then Err (DeploymentNameInUse name)
  else Ok tt.
Definition save_deployed_contracts (st : State) (name : string) (c : ChainContracts) : State :=
  set_deployed st (<[name := c]> (DEPLOYED_CHAINS st)).
Definition deployment (st : State) (name : string) : result StateError ChainContracts :=
  ok_or (StateDeploymentNotFound name) (DEPLOYED_CHAINS st !! name).
(** The exclusive lower bound of a range. *)
Definition after (start_after : option string) (p : string * ChainContracts) : Prop :=
  match start_after with Some s => ¬ String.le p.1 s | None => True end.
#[global] Instance deployment_after_dec start_after p : Decision (after start_after p).
Proof. unfold after. destruct start_after; apply _. Defined.

Definition deployments (st : State) (start_after : option string) (limit : Z)
    : list ChainContracts :=
  take (Z.to_nat limit) (filter (after start_after) (entries (DEPLOYED_CHAINS st))).*2.

Definition is_prover_registered (st : State) (a : Addr) : result StateError bool :=
  Ok (bool_decide (is_Some (unique_index_item prover_address (CHAIN_CONTRACTS_MAP st) a))).

(** The keys under the prefix of a prover. *)
Definition existing_verifiers (st : State) (prover_address : Addr) : gset Addr :=
  list_to_set (omap (λ '((p, v), _), if bool_decide (p = prover_address) then Some v else None)
    (map_to_list (VERIFIER_PROVER_INDEXED_MAP st))).

Definition update_verifier_set_for_prover (st : State) (prover_address : Addr)
    (new_verifiers : gset Addr) : State :=
  let existing := existing_verifiers st prover_address in
  let m := foldr (λ v m, delete (prover_address, v) m) (VERIFIER_PROVER_INDEXED_MAP st)
             (elements (existing ∖ new_verifiers)) in
  let m := foldr (λ v m, <[(prover_address, v) := mkVPRecord prover_address v]> m) m
             (elements (new_verifiers ∖ existing)) in
  set_active st m.

(** ** Messages ([msg.rs], [events.rs]) *)

Record ContractDeploymentInfo (T : Type) := mkInfo {
  code_id : Z;
  label : string;
  contract_admin : Addr;
  msg : T
}.
Arguments mkInfo {T}.
Arguments code_id {T}.
Arguments label {T}.
Arguments contract_admin {T}.
Arguments msg {T}.

Record ProverMsg := mkProverMsg {
  p_governance_address : string;
  p_admin_address : string;
  p_multisig_address : string;
  p_signing_threshold : threshold.MajorityThreshold;
  p_service_name : string;
  p_chain_name : string;
  p_verifier_set_diff_threshold : Z;
  p_encoder : multisig_prover.Encoder;
  p_key_type : KeyType;
  p_domain_separator : string
}.

Record VerifierMsg := mkVerifierMsg {
  v_governance_address : string;
  v_service_name : string;
  v_source_gateway_address : string;
  v_voting_threshold : threshold.MajorityThreshold;
  v_block_expiry : Z;
  v_confirmation_height : Z;
  v_source_chain : string;
  v_rewards_address : string;
  v_msg_id_format : msg_id.MessageIdFormat;
  v_address_format : address.AddressFormat
}.

Record ManualDeploymentParams := mkParams {
  gateway : ContractDeploymentInfo unit;
  verifier_info : ContractDeploymentInfo VerifierMsg;
  prover_info : ContractDeploymentInfo ProverMsg
}.

Inductive DeploymentParams := Manual (params : ManualDeploymentParams).

Inductive ExecuteMsg :=
  | RegisterProtocol (service_registry_address router_address multisig_address : string)
  | RegisterChain (chain prover gateway voting_verifier : string)
  | SetActiveVerifiers (verifiers : gset string)
  | InstantiateChainContracts (deployment_name salt : string) (params : DeploymentParams)
  | RegisterDeployment (deployment_name : string).

Record ContractInstantiation := mkInstantiation { i_address : Addr; i_code_id : Z }.

Inductive Event :=
  | ContractsInstantiated (gateway voting_verifier multisig_prover : ContractInstantiation)
      (chain_name deployment_name : string).

(** The instantiation messages of the three contracts of a chain. *)
Inductive ContractMsg :=
  | GatewayMsg (m : gateway.InstantiateMsg)
  | VotingVerifierMsg (m : voting_verifier.InstantiateMsg)
  | MultisigProverMsg (m : multisig_prover.InstantiateMsg).

Inductive OutMsg :=
  | Instantiate2 (admin : string) (code_id : Z) (msg : ContractMsg) (label salt : string)
  | ToRouter (router : Addr) (msg : msgs_derive.ExecuteMsgFromProxy router.ExecuteMsg)
  | ToMultisig (multisig : Addr) (msg : msgs_derive.ExecuteMsgFromProxy multisig.ExecuteMsg).

Notation CResponse := (Response OutMsg Event).

Inductive Error :=
  | RegisterProtocolError
  | RegisterChainError (chain : string)
  | SetActiveVerifiersError (a : Addr)
  | RegisterDeploymentError (name : string)
  | DeploymentNotFound (name : string)
  | InstantiateChainContractsError
  | ProtocolNotRegistered
  | VerifierSetActivationFailed
  | ChainNotRegistered (chain : string)
  | CanonicalizeAddress
  | HumanizeAddress
  | Instantiate2Address
  | InstantiateContracts
  | QueryCodeInfo (code_id : Z)
  | InstantiateGateway
  | InstantiateVerifier
  | InstantiateProver
  | VerifierDetailsWithProvers (service_name verifier_address : string)
  | ChainContractsInfo
  | UnableToPersistProtocol
  | InvalidAddress (a : string)
  | InvalidLimit.

(** The contract's own address and what the chain answers: the checksum of a code, the
    canonical form of an address and back, the derivation of an address, and the registry's
    record of a verifier. *)
Record Env := mkEnv {
  self : Addr;
  code_info : Z → option string;
  addr_canonicalize : string → option string;
  instantiate2_address : string → string → string → option string;
  addr_humanize : string → option Addr;
  registry_verifier : string → Addr → option service_registry.VerifierDetails
}.

(** ** Queries ([contract/query.rs]) *)

Definition instantiate2_addr (env : Env) (code_id : Z) (salt : string) : result Error Addr :=
  checksum ← ok_or (QueryCodeInfo code_id) (code_info env code_id);
  creator ← ok_or CanonicalizeAddress (addr_canonicalize env (self env));
  canonical ← ok_or Instantiate2Address (instantiate2_address env checksum creator salt);
  ok_or HumanizeAddress (addr_humanize env canonical).

(** The records that the index holds for a verifier. *)
Definition records_of_verifier (st : State) (verifier_address : Addr)
    : list ((Addr * Addr) * VerifierProverRecord) :=
  filter (λ p, verifier p.2 = verifier_address) (map_to_list (VERIFIER_PROVER_INDEXED_MAP st)).

Definition is_verifier_in_any_verifier_set (st : State) (verifier_address : Addr) : bool :=
  bool_decide (records_of_verifier st verifier_address ≠ []).

Definition check_verifier_ready_to_unbond (st : State) (verifier_address : Addr) : bool :=
  negb (is_verifier_in_any_verifier_set st verifier_address).

(** [Itertools::dedup]: drops repetitions that follow one another. *)
Fixpoint dedup (l : list Addr) : list Addr :=
  match l with
  | a :: ((b :: _) as l) => if bool_decide (a = b) then dedup l else a :: dedup l
  | l => l
  end.

(** The index iterates in the order of its length-prefixed keys. *)
Definition provers_for_verifier (st : State) (verifier_address : Addr) : list Addr :=
  dedup (merge_sort service_registry.key_order
    ((λ p, prover p.2) <$> records_of_verifier st verifier_address)).

Record VerifierInfo := mkVerifierInfo {
  vi_verifier : service_registry.Verifier;
  vi_weight : Z;
  vi_supported_chains : list string;
  vi_actively_signing_for : list Addr
}.

Definition verifier_details_with_provers (st : State) (env : Env) (service_name : string)
    (verifier_address : Addr) : result Error VerifierInfo :=
  _ ← map_err (λ _, ProtocolNotRegistered) (protocol_contracts st);
  details ← ok_or (VerifierDetailsWithProvers service_name verifier_address)
              (registry_verifier env service_name verifier_address);
  Ok (mkVerifierInfo (service_registry.d_verifier details) (service_registry.d_weight details)
        (service_registry.d_supported_chains details)
        (merge_sort String.le (provers_for_verifier st verifier_address))).

Inductive ChainContractsKey :=
  | KeyChainName (c : string)
  | KeyProverAddress (a : Addr)
  | KeyGatewayAddress (a : Addr)
  | KeyVerifierAddress (a : Addr).

Definition chain_contracts_info (st : State) (key : ChainContractsKey)
    : result Error ChainContractsRecord :=
  map_err (λ _, ChainContractsInfo)
    match key with
    | KeyChainName c => contracts_by_chain st c
    | KeyProverAddress a => contracts_by_prover st a
    | KeyGatewayAddress a => contracts_by_gateway st a
    | KeyVerifierAddress a => contracts_by_verifier st a
    end.

(** [ChainContractsResponse] of a deployment *)
Definition deployment_response (c : ChainContracts) : ChainContractsRecord :=
  mkRecord (c_chain_name c) (c_multisig_prover c) (c_gateway c) (c_voting_verifier c).

Definition query_deployments (st : State) (start_after : option string) (limit : Z)
    : result Error (list ChainContractsRecord) :=
  limit ← map_err (λ _, InvalidLimit) (nonempty.uint_try_from limit);
  Ok (deployment_response <$> deployments st start_after limit).
Definition query_deployment (st : State) (name : string) : result Error ChainContractsRecord :=
  map_err (λ _, DeploymentNotFound name) (deployment_response <$> deployment st name).

(** ** Handlers ([contract/execute.rs]) *)

Definition register_protocol (st : State) (service_registry router multisig : Addr)
    : State * CResponse :=
  (save_protocol_contracts st (mkProtocol service_registry router multisig), Response_new).

Definition register_chain (st : State) (chain : string) (prover gateway voting_verifier : Addr)
    : result Error (State * CResponse) :=
  st ← map_err (λ _, ChainNotRegistered chain)
         (save_chain_contracts st chain prover gateway voting_verifier);
  Ok (st, Response_new).

Definition set_active_verifier_set (st : State) (sender : Addr) (verifiers : gset Addr)
    : State * CResponse :=
  (update_verifier_set_for_prover st sender verifiers, Response_new).

Definition launch_contract (env : Env) (salt : string) (code_id : Z) (instantiate_msg : ContractMsg)
    (label admin : string) : result Error (OutMsg * Addr) :=
  address ← map_err (λ _, Instantiate2Address) (instantiate2_addr env code_id salt);
  Ok (Instantiate2 admin code_id instantiate_msg label salt, address).

Record InstantiateContext := mkContext {
  ctx_env : Env;
  ctx_salt : string;
  gateway_code_id : Z;
  gateway_contract_admin : string;
  verifier_code_id : Z;
  verifier_contract_admin : string;
  prover_code_id : Z;
  prover_contract_admin : string
}.

Definition instantiate_gateway (ctx : InstantiateContext) (label : string)
    (router_address verifier_address : Addr) : result Error (OutMsg * Addr) :=
  launch_contract (ctx_env ctx) (ctx_salt ctx) (gateway_code_id ctx)
    (GatewayMsg (gateway.mkInstantiate verifier_address router_address)) label
    (gateway_contract_admin ctx).

Definition instantiate_verifier (ctx : InstantiateContext) (label : string)
    (service_registry_address : Addr) (m : VerifierMsg) : result Error (OutMsg * Addr) :=
  service_registry_address ← map_err (λ _, InstantiateVerifier)
                               (nonempty.string_try_from service_registry_address);
  launch_contract (ctx_env ctx) (ctx_salt ctx) (verifier_code_id ctx)
    (VotingVerifierMsg (voting_verifier.mkInstantiate (v_governance_address m)
       service_registry_address (v_service_name m) (v_source_gateway_address m)
       (v_voting_threshold m) (v_block_expiry m) (v_confirmation_height m) (v_source_chain m)
       (v_rewards_address m) (v_msg_id_format m) (v_address_format m))) label
    (verifier_contract_admin ctx).

Definition instantiate_prover (ctx : InstantiateContext) (label : string)
    (gateway_address service_registry_address multisig_address verifier_address : Addr)
    (m : ProverMsg) : result Error (OutMsg * Addr) :=
  launch_contract (ctx_env ctx) (ctx_salt ctx) (prover_code_id ctx)
    (MultisigProverMsg (multisig_prover.mkInstantiate (p_admin_address m) (p_governance_address m)
       gateway_address multisig_address (self (ctx_env ctx)) service_registry_address
       verifier_address (p_signing_threshold m) (p_service_name m) (p_chain_name m)
       (p_verifier_set_diff_threshold m) (p_encoder m) (p_key_type m) (p_domain_separator m)))
    label (prover_contract_admin ctx).

Section contract.
Context `{Api}.

Definition validate_admin (a : Addr) : result Error string :=
  map_err (λ _, InvalidAddress a) (addr_validate a).

Definition instantiate_chain_contracts (st : State) (env : Env) (deployment_name salt : string)
    (params : DeploymentParams) : result Error (State * CResponse) :=
  _ ← map_err (λ _, InstantiateContracts) (validate_deployment_name_availability st deployment_name);
  protocol ← map_err (λ _, ProtocolNotRegistered) (protocol_contracts st);
  match params with
  | Manual params =>
      verifier_address ← map_err (λ _, Instantiate2Address)
                           (instantiate2_addr env (code_id (verifier_info params)) salt);
      gateway_contract_admin ← validate_admin (contract_admin (gateway params));
      verifier_contract_admin ← validate_admin (contract_admin (verifier_info params));
      prover_contract_admin ← validate_admin (contract_admin (prover_info params));
      let ctx := mkContext env salt (code_id (gateway params)) gateway_contract_admin
        (code_id (verifier_info params)) verifier_contract_admin
        (code_id (prover_info params)) prover_contract_admin in
      '(m1, gateway_address) ← map_err (λ _, InstantiateContracts)
        (instantiate_gateway ctx (label (gateway params)) (router protocol) verifier_address);
      '(m2, voting_verifier_address) ←
        instantiate_verifier ctx (label (verifier_info params)) (service_registry protocol)
          (msg (verifier_info params));
      '(m3, multisig_prover_address) ←
        instantiate_prover ctx (label (prover_info params)) gateway_address
          (service_registry protocol) (multisig protocol) voting_verifier_address
          (msg (prover_info params));
      let response := add_event (ContractsInstantiated
          (mkInstantiation gateway_address (code_id (gateway params)))
          (mkInstantiation verifier_address (code_id (verifier_info params)))
          (mkInstantiation multisig_prover_address (code_id (prover_info params)))
          (p_chain_name (msg (prover_info params))) deployment_name)
        (add_message m3 (add_message m2 (add_message m1 Response_new))) in
      let st := save_deployed_contracts st deployment_name
        (mkContracts (p_chain_name (msg (prover_info params)))
           (v_msg_id_format (msg (verifier_info params))) gateway_address voting_verifier_address
           multisig_prover_address) in
      Ok (st, response)
  end.

Definition register_deployment (st : State) (original_sender : Addr) (deployment_name : string)
    : result Error (State * CResponse) :=
  deployed ← map_err (λ _, ChainContractsInfo) (deployment st deployment_name);
  protocol ← map_err (λ _, ProtocolNotRegistered) (protocol_contracts st);
  '(st, _) ← register_chain st (c_chain_name deployed) (c_multisig_prover deployed)
               (c_gateway deployed) (c_voting_verifier deployed);
  Ok (st, add_message (ToMultisig (multisig protocol) (msgs_derive.Relay original_sender
            (multisig.AuthorizeCallers [(c_multisig_prover deployed, c_chain_name deployed)])))
          (add_message (ToRouter (router protocol) (msgs_derive.Relay original_sender
            (router.RegisterChain (c_chain_name deployed) (c_gateway deployed)
               (c_msg_id_format deployed)))) Response_new)).

(** ** Entry points ([contract.rs]) *)

Definition permissions (m : ExecuteMsg) : msgs_derive.MsgPermissions :=
  match m with
  | SetActiveVerifiers _ => msgs_derive.mkPerm ["prover"] [] []
  | _ => msgs_derive.mkPerm [] [permission_control.Governance] []
  end.

Definition find_prover_address (st : State) (sender : Addr) : result StateError bool :=
  is_prover_registered st sender.

Inductive ExecuteError :=
  | Permission (e : permission_control.Error)
  | AddressError (a : string)
  | Contract (e : Error).

Definition validate_cosmwasm_address (addr : string) : result ExecuteError Addr :=
  map_err (λ _, AddressError addr) (addr_validate addr).

Definition instantiate (governance_address : string) : result ExecuteError (State * CResponse) :=
  governance ← validate_cosmwasm_address governance_address;
  Ok (mkState (permission_control.set_governance (permission_control.mkStorage None None)
                 governance) None ∅ ∅ ∅, Response_new).

Definition authorize (st : State) (sender : Addr)
    (m : msgs_derive.ExecuteMsgFromProxy ExecuteMsg)
    : result permission_control.Error (ExecuteMsg * Addr) :=
  msgs_derive.authorize permissions (λ _ sender _, find_prover_address st sender)
    ([] : list (string * result StateError Addr)) (perm st) sender m.

Definition execute (st : State) (env : Env) (sender : Addr)
    (m : msgs_derive.ExecuteMsgFromProxy ExecuteMsg) : result ExecuteError (State * CResponse) :=
  '(m, sender) ← map_err Permission (authorize st sender m);
  match m with
  | RegisterProtocol service_registry router multisig =>
      service_registry ← validate_cosmwasm_address service_registry;
      router ← validate_cosmwasm_address router;
      multisig ← validate_cosmwasm_address multisig;
      Ok (register_protocol st service_registry router multisig)
  | RegisterChain chain prover gateway voting_verifier =>
      prover ← validate_cosmwasm_address prover;
      gateway ← validate_cosmwasm_address gateway;
      voting_verifier ← validate_cosmwasm_address voting_verifier;
      map_err (λ _, Contract (RegisterChainError chain))
        (register_chain st chain prover gateway voting_verifier)
  | SetActiveVerifiers verifiers =>
      verifiers ← try_map validate_cosmwasm_address (elements verifiers);
      Ok (set_active_verifier_set st sender (list_to_set verifiers))
  | InstantiateChainContracts deployment_name salt params =>
      map_err (λ _, Contract InstantiateChainContractsError)
        (instantiate_chain_contracts st env deployment_name salt params)
  | RegisterDeployment deployment_name =>
      map_err (λ _, Contract (RegisterDeploymentError deployment_name))
        (register_deployment st sender deployment_name)
  end.

Definition query_ready_to_unbond (st : State) (verifier_address : string)
    : result ExecuteError bool :=
  a ← validate_cosmwasm_address verifier_address;
  Ok (check_verifier_ready_to_unbond st a).

(** ** The handlers, taken apart *)

Definition registered (st : State) (p : Addr) : Prop :=
  ∃ chain r, CHAIN_CONTRACTS_MAP st !! chain = Some r ∧ prover_address r = p.

Lemma find_prover_address_spec st p : find_prover_address st p = Ok true ↔ registered st p.
Proof.
  unfold find_prover_address, is_prover_registered, registered. split.
  - intros Hf. apply Ok_inj in Hf. breflect. destruct Hf as [[k r] Hi].
    apply unique_index_item_Some in Hi as [Hk Hr]. eauto.
  - intros (k & r & Hk & Hr). f_equal. apply bool_decide_eq_true_2, not_eq_None_Some.
    rewrite unique_index_item_None. intros Hn. by apply (Hn k r).
Qed.

(** Who may send a message. *)
Definition may_send (st : State) (sender : Addr) (m : ExecuteMsg) : Prop :=
  match m with
  | SetActiveVerifiers _ => registered st sender
  | _ => permission_control.GOVERNANCE (perm st) = Some sender
  end.

(** The handler a message is dispatched to. *)
Definition handle (st : State) (env : Env) (sender : Addr) (m : ExecuteMsg)
    : result ExecuteError (State * CResponse) :=
  match m with
  | RegisterProtocol service_registry router multisig =>
      service_registry ← validate_cosmwasm_address service_registry;
      router ← validate_cosmwasm_address router;
      multisig ← validate_cosmwasm_address multisig;
      Ok (register_protocol st service_registry router multisig)
  | RegisterChain chain prover gateway voting_verifier =>
      prover ← validate_cosmwasm_address prover;
      gateway ← validate_cosmwasm_address gateway;
      voting_verifier ← validate_cosmwasm_address voting_verifier;
      map_err (λ _, Contract (RegisterChainError chain))
        (register_chain st chain prover gateway voting_verifier)
  | SetActiveVerifiers verifiers =>
      verifiers ← try_map validate_cosmwasm_address (elements verifiers);
      Ok (set_active_verifier_set st sender (list_to_set verifiers))
  | InstantiateChainContracts deployment_name salt params =>
      map_err (λ _, Contract InstantiateChainContractsError)
        (instantiate_chain_contracts st env deployment_name salt params)
  | RegisterDeployment deployment_name =>
      map_err (λ _, Contract (RegisterDeploymentError deployment_name))
        (register_deployment st sender deployment_name)
  end.

Lemma coordinator_execute_Ok st env sender m p :
  execute st env sender m = Ok p ↔
    ∃ m', m = msgs_derive.Direct m' ∧ may_send st sender m' ∧ handle st env sender m' = Ok p.
Proof.
  assert (∀ m', msgs_derive.ensure_permissions permissions
            (λ _ sender _, find_prover_address st sender) (perm st) sender m' = Ok m' ↔
          may_send st sender m') as Hperm.
  { intros m'. destruct m' as [a b c|a b c d|vs|a b c|a].
    3: { rewrite (msgs_derive.ensure_permissions_specific _ _ _ _ _ "prover") by done.
         apply find_prover_address_spec. }
    all: rewrite msgs_derive.ensure_permissions_general by done; cbn [permissions msgs_derive.general foldr];
      rewrite Z.lor_0_r, msgs_derive.land_governance; cbn [may_send]; naive_solver. }
  unfold execute, authorize. rewrite bind_Ok. setoid_rewrite map_err_Ok. split.
  - intros ([m' s'] & Hm & Hf). destruct m as [o m|m]; [by apply msgs_derive.authorize_relay in Hm
      as (_ & _ & _ & name & Hn & _)|].
    apply msgs_derive.authorize_direct in Hm as (-> & -> & Hm).
    exists m. split_and!; [done|by apply Hperm|]. by destruct m.
  - intros (m' & -> & Hm & Hf). exists (m', sender). split.
    + apply msgs_derive.authorize_direct. split_and!; [done..|by apply Hperm].
    + by destruct m'.
Qed.

Lemma save_chain_contracts_Ok st c p g v st' :
  save_chain_contracts st c p g v = Ok st' ↔
    st' = set_contracts st (<[c := mkRecord c p g v]> (CHAIN_CONTRACTS_MAP st)) ∧
    ∀ c' r, c' ≠ c → CHAIN_CONTRACTS_MAP st !! c' = Some r →
      prover_address r ≠ p ∧ gateway_address r ≠ g ∧ verifier_address r ≠ v.
Proof.
  unfold save_chain_contracts. split.
  - intros Hf. apply bind_Ok in Hf as (m1 & H1 & Hf). apply bind_Ok in Hf as (m2 & H2 & Hf).
    apply bind_Ok in Hf as (m3 & H3 & Hf). injection Hf as <-.
    apply map_err_Ok, unique_index_save_Ok in H1 as [_ H1].
    apply map_err_Ok, unique_index_save_Ok in H2 as [_ H2].
    apply map_err_Ok, unique_index_save_Ok in H3 as [-> H3]. split; [done|].
    intros c' r Hne Hr. split_and!; [by eapply H1|by eapply H2|by eapply H3].
  - intros [-> Hall].
    assert (∀ idx : ChainContractsRecord → Addr,
      (∀ c' r, c' ≠ c → CHAIN_CONTRACTS_MAP st !! c' = Some r → idx r ≠ idx (mkRecord c p g v)) →
      unique_index_save idx (CHAIN_CONTRACTS_MAP st) c (mkRecord c p g v) =
        Ok (<[c := mkRecord c p g v]> (CHAIN_CONTRACTS_MAP st))) as Hs
      by (intros idx Hidx; by apply unique_index_save_Ok).
    rewrite !Hs; [done|..]; intros c' r Hne Hr; by apply (Hall c' r).
Qed.

(** ** The table of active verifiers *)

Lemma elem_of_existing st p v :
  v ∈ existing_verifiers st p ↔ is_Some (VERIFIER_PROVER_INDEXED_MAP st !! (p, v)).
Proof.
  unfold existing_verifiers. rewrite elem_of_list_to_set, list_elem_of_omap. split.
  - intros ([[q w] r] & Hin & Hv). apply elem_of_map_to_list in Hin.
    case_bool_decide; simplify_eq. eauto.
  - intros [r Hr]. exists ((p, v), r). rewrite elem_of_map_to_list. split; [done|].
    by rewrite bool_decide_eq_true_2.
Qed.

Lemma lookup_foldr_delete_key (m : gmap (Addr * Addr) VerifierProverRecord) p l q v :
  foldr (λ v m, delete (p, v) m) m l !! (q, v) =
    if bool_decide (q = p ∧ v ∈ l) then None else m !! (q, v).
Proof.
  induction l as [|w l IH]; cbn; [rewrite bool_decide_eq_false_2; set_solver|].
  destruct (decide ((p, w) = (q, v))) as [[= -> ->]|Hne].
  - rewrite lookup_delete_eq, bool_decide_eq_true_2; [done|]. set_solver.
  - rewrite lookup_delete_ne, IH by done.
    rewrite (bool_decide_ext (q = p ∧ v ∈ w :: l) (q = p ∧ v ∈ l)); [done|]. set_solver.
Qed.

Lemma lookup_foldr_insert_key (m : gmap (Addr * Addr) VerifierProverRecord) p l q v :
  foldr (λ v m, <[(p, v) := mkVPRecord p v]> m) m l !! (q, v) =
    if bool_decide (q = p ∧ v ∈ l) then Some (mkVPRecord q v) else m !! (q, v).
Proof.
  induction l as [|w l IH]; cbn; [rewrite bool_decide_eq_false_2; set_solver|].
  destruct (decide ((p, w) = (q, v))) as [[= -> ->]|Hne].
  - rewrite lookup_insert_eq, bool_decide_eq_true_2; [done|]. set_solver.
  - rewrite lookup_insert_ne, IH by done.
    rewrite (bool_decide_ext (q = p ∧ v ∈ w :: l) (q = p ∧ v ∈ l)); [done|]. set_solver.
Qed.

(** The records are those of their keys. *)
Definition records_ok (st : State) : Prop :=
  ∀ p v r, VERIFIER_PROVER_INDEXED_MAP st !! (p, v) = Some r → r = mkVPRecord p v.

Lemma update_lookup st p vs q v :
  VERIFIER_PROVER_INDEXED_MAP (update_verifier_set_for_prover st p vs) !! (q, v) =
    if bool_decide (q = p ∧ v ∈ vs ∖ existing_verifiers st p) then Some (mkVPRecord q v)
    else if bool_decide (q = p ∧ v ∈ existing_verifiers st p ∖ vs) then None
    else VERIFIER_PROVER_INDEXED_MAP st !! (q, v).
Proof.
  unfold update_verifier_set_for_prover. cbn.
  rewrite lookup_foldr_insert_key, lookup_foldr_delete_key.
  rewrite (bool_decide_ext (q = p ∧ v ∈ elements (vs ∖ _)) (q = p ∧ v ∈ vs ∖ existing_verifiers st p))
    by (by rewrite elem_of_elements).
  by rewrite (bool_decide_ext (q = p ∧ v ∈ elements (_ ∖ vs)) (q = p ∧ v ∈ existing_verifiers st p ∖ vs))
    by (by rewrite elem_of_elements).
Qed.

Lemma update_records_ok st p vs :
  records_ok st → records_ok (update_verifier_set_for_prover st p vs).
Proof.
  intros Hr q v r. rewrite update_lookup. repeat case_bool_decide; [congruence..|]. apply Hr.
Qed.

Lemma update_existing st p vs q :
  existing_verifiers (update_verifier_set_for_prover st p vs) q =
    if bool_decide (q = p) then vs else existing_verifiers st q.
Proof.
  apply set_eq. intros v. rewrite elem_of_existing, update_lookup.
  case_bool_decide as H1; [destruct H1 as [-> H1]|].
  { rewrite bool_decide_eq_true_2 by done. split; [set_solver|by eexists]. }
  case_bool_decide as H2; [destruct H2 as [-> H2]|].
  { rewrite bool_decide_eq_true_2 by done. split; [by intros [? ?]|set_solver]. }
  rewrite <-elem_of_existing. case_bool_decide; [subst|done].
  destruct (decide (v ∈ vs)), (decide (v ∈ existing_verifiers st p)); set_solver.
Qed.

Lemma ready_to_unbond_spec st v :
  records_ok st →
  check_verifier_ready_to_unbond st v = true ↔ ∀ p, v ∉ existing_verifiers st p.
Proof.
  intros Hr. unfold check_verifier_ready_to_unbond, is_verifier_in_any_verifier_set.
  rewrite negb_true_iff, bool_decide_eq_false. split.
  - intros Hn p Hv. apply elem_of_existing in Hv as [r Hv]. apply Hn.
    assert (((p, v), r) ∈ records_of_verifier st v) as Hin.
    { unfold records_of_verifier. rewrite list_elem_of_filter, elem_of_map_to_list.
      split; [|done]. by rewrite (Hr _ _ _ Hv). }
    intros Heq. rewrite Heq in Hin. inversion Hin.
  - intros Hall Hne. destruct (records_of_verifier st v) as [|[[p w] r] l] eqn:Hl; [done|].
    assert (((p, w), r) ∈ records_of_verifier st v) as Hin by (rewrite Hl; left).
    unfold records_of_verifier in Hin. rewrite list_elem_of_filter, elem_of_map_to_list in Hin.
    destruct Hin as [Hw Hin]. pose proof (Hr _ _ _ Hin) as ->. cbn in Hw. subst w.
    apply (Hall p), elem_of_existing. eauto.
Qed.

(** ** The invariant of the storage *)

#[local] Arguments save_chain_contracts : simpl never.

Record inv (st : State) : Prop := {
  inv_records : records_ok st;
  inv_chain : ∀ c r, CHAIN_CONTRACTS_MAP st !! c = Some r → chain_name r = c;
  inv_prover : index_unique prover_address (CHAIN_CONTRACTS_MAP st);
  inv_gateway : index_unique gateway_address (CHAIN_CONTRACTS_MAP st);
  inv_verifier : index_unique verifier_address (CHAIN_CONTRACTS_MAP st)
}.

(** The parts of the storage that the indexes and the table live in. *)
Lemma inv_same st st' :
  CHAIN_CONTRACTS_MAP st' = CHAIN_CONTRACTS_MAP st →
  VERIFIER_PROVER_INDEXED_MAP st' = VERIFIER_PROVER_INDEXED_MAP st → inv st → inv st'.
Proof. intros Hc Hv [Hr Hn Hp Hg Hvf]. split; unfold records_ok; rewrite ?Hc, ?Hv; done. Qed.

Lemma save_chain_contracts_inv st c p g v st' :
  inv st → save_chain_contracts st c p g v = Ok st' → inv st'.
Proof.
  intros [Hr Hn Hp Hg Hv] [-> Hall]%save_chain_contracts_Ok. split; cbn; [done|..].
  - intros c' r. rewrite lookup_insert_Some. intros [[<- <-]|[_ Hc]]; eauto.
  - eapply (index_unique_save prover_address _ c (mkRecord c p g v)); [exact Hp|].
    apply unique_index_save_Ok. split; [done|]. intros c' r Hne Hc. by apply (Hall c' r).
  - eapply (index_unique_save gateway_address _ c (mkRecord c p g v)); [exact Hg|].
    apply unique_index_save_Ok. split; [done|]. intros c' r Hne Hc. by apply (Hall c' r).
  - eapply (index_unique_save verifier_address _ c (mkRecord c p g v)); [exact Hv|].
    apply unique_index_save_Ok. split; [done|]. intros c' r Hne Hc. by apply (Hall c' r).
Qed.

(** The three instantiations of a deployment. *)
Lemma instantiate_chain_contracts_Ok st env name salt params st' r :
  instantiate_chain_contracts st env name salt (Manual params) = Ok (st', r) →
  ∃ protocol g v p ga va pa,
    PROTOCOL st = Some protocol ∧ DEPLOYED_CHAINS st !! name = None ∧
    instantiate2_addr env (code_id (gateway params)) salt = Ok g ∧
    instantiate2_addr env (code_id (verifier_info params)) salt = Ok v ∧
    instantiate2_addr env (code_id (prover_info params)) salt = Ok p ∧
    addr_validate (contract_admin (gateway params)) = Ok ga ∧
    addr_validate (contract_admin (verifier_info params)) = Ok va ∧
    addr_validate (contract_admin (prover_info params)) = Ok pa ∧
    let vm := msg (verifier_info params) in
    let pm := msg (prover_info params) in
    st' = set_deployed st (<[name := mkContracts (p_chain_name pm) (v_msg_id_format vm) g v p]>
            (DEPLOYED_CHAINS st)) ∧
    messages r =
      [Instantiate2 ga (code_id (gateway params))
         (GatewayMsg (gateway.mkInstantiate v (router protocol))) (label (gateway params)) salt;
       Instantiate2 va (code_id (verifier_info params))
         (VotingVerifierMsg (voting_verifier.mkInstantiate (v_governance_address vm)
            (service_registry protocol) (v_service_name vm) (v_source_gateway_address vm)
            (v_voting_threshold vm) (v_block_expiry vm) (v_confirmation_height vm)
            (v_source_chain vm) (v_rewards_address vm) (v_msg_id_format vm)
            (v_address_format vm))) (label (verifier_info params)) salt;
       Instantiate2 pa (code_id (prover_info params))
         (MultisigProverMsg (multisig_prover.mkInstantiate (p_admin_address pm)
            (p_governance_address pm) g (multisig protocol) (self env)
            (service_registry protocol) v (p_signing_threshold pm) (p_service_name pm)
            (p_chain_name pm) (p_verifier_set_diff_threshold pm) (p_encoder pm) (p_key_type pm)
            (p_domain_separator pm))) (label (prover_info params)) salt].
Proof.
  unfold instantiate_chain_contracts, validate_deployment_name_availability, protocol_contracts,
    item_load, validate_admin, instantiate_gateway, instantiate_verifier, instantiate_prover,
    launch_contract, nonempty.string_try_from. intros Hf.
  apply bind_Ok in Hf as ([] & Hname & Hf). apply map_err_Ok in Hname. ok_case. breflect.
  apply bind_Ok in Hf as (protocol & Hp & Hf). rewrite map_err_Ok, ok_or_Ok in Hp.
  apply bind_Ok in Hf as (v & Hv & Hf). apply map_err_Ok in Hv.
  apply bind_Ok in Hf as (ga & Hga & Hf). apply map_err_Ok in Hga.
  apply bind_Ok in Hf as (va & Hva & Hf). apply map_err_Ok in Hva.
  apply bind_Ok in Hf as (pa & Hpa & Hf). apply map_err_Ok in Hpa. cbn -[instantiate2_addr] in Hf.
  apply bind_Ok in Hf as ([m1 g] & Hg & Hf). apply map_err_Ok, bind_Ok in Hg as (g' & Hg & Hm1).
  apply map_err_Ok in Hg. injection Hm1 as <- <-.
  apply bind_Ok in Hf as ([m2 v'] & Hv2 & Hf). apply bind_Ok in Hv2 as (sr & Hsr & Hv2).
  apply map_err_Ok in Hsr. ok_case. injection Hsr as <-. rewrite Hv in Hv2. cbn in Hv2.
  injection Hv2 as <- <-.
  apply bind_Ok in Hf as ([m3 p] & Hp3 & Hf). apply bind_Ok in Hp3 as (p' & Hp3 & Hm3).
  apply map_err_Ok in Hp3. injection Hm3 as <- <-. injection Hf as <- <-.
  exists protocol, g', v, p', ga, va, pa. split_and!; try done.
  by apply eq_None_not_Some.
Qed.

Lemma register_deployment_Ok st sender name st' r :
  register_deployment st sender name = Ok (st', r) ↔
    ∃ d protocol, DEPLOYED_CHAINS st !! name = Some d ∧ PROTOCOL st = Some protocol ∧
      save_chain_contracts st (c_chain_name d) (c_multisig_prover d) (c_gateway d)
        (c_voting_verifier d) = Ok st' ∧
      r = mkResponse
        [ToRouter (router protocol) (msgs_derive.Relay sender
           (router.RegisterChain (c_chain_name d) (c_gateway d) (c_msg_id_format d)));
         ToMultisig (multisig protocol) (msgs_derive.Relay sender
           (multisig.AuthorizeCallers [(c_multisig_prover d, c_chain_name d)]))] [].
Proof.
  unfold register_deployment, deployment, protocol_contracts, item_load, register_chain. split.
  - intros Hf. apply bind_Ok in Hf as (d & Hd & Hf). rewrite map_err_Ok, ok_or_Ok in Hd.
    apply bind_Ok in Hf as (p & Hp & Hf). rewrite map_err_Ok, ok_or_Ok in Hp.
    apply bind_Ok in Hf as ([st1 r1] & Hs & Hf). apply bind_Ok in Hs as (st2 & Hs & Hst).
    apply map_err_Ok in Hs. injection Hst as <- <-. injection Hf as <- <-. eauto 10.
  - intros (d & p & -> & -> & Hs & ->). cbn. by rewrite Hs.
Qed.

Lemma coordinator_register_chain_Ok st c p g v st' r :
  register_chain st c p g v = Ok (st', r) ↔
    save_chain_contracts st c p g v = Ok st' ∧ r = Response_new.
Proof.
  unfold register_chain. split.
  - intros Hf. apply bind_Ok in Hf as (st1 & Hs & Hf). apply map_err_Ok in Hs.
    by injection Hf as <- <-.
  - intros [Hs ->]. by rewrite Hs.
Qed.

(** What an accepted call does to the table and to the contracts of the chains. *)
Inductive effect (st : State) (sender : Addr) : ExecuteMsg → State → Prop :=
  | effect_protocol a b c st' :
      CHAIN_CONTRACTS_MAP st' = CHAIN_CONTRACTS_MAP st →
      VERIFIER_PROVER_INDEXED_MAP st' = VERIFIER_PROVER_INDEXED_MAP st →
      DEPLOYED_CHAINS st' = DEPLOYED_CHAINS st → effect st sender (RegisterProtocol a b c) st'
  | effect_chain c a1 a2 a3 p g v st' :
      addr_validate a1 = Ok p → addr_validate a2 = Ok g → addr_validate a3 = Ok v →
      save_chain_contracts st c p g v = Ok st' → effect st sender (RegisterChain c a1 a2 a3) st'
  | effect_active vs vs' :
      try_map validate_cosmwasm_address (elements vs) = Ok vs' → registered st sender →
      effect st sender (SetActiveVerifiers vs)
        (update_verifier_set_for_prover st sender (list_to_set vs'))
  | effect_deployed name salt params c :
      DEPLOYED_CHAINS st !! name = None →
      effect st sender (InstantiateChainContracts name salt params)
        (set_deployed st (<[name := c]> (DEPLOYED_CHAINS st)))
  | effect_registered name d st' :
      DEPLOYED_CHAINS st !! name = Some d →
      save_chain_contracts st (c_chain_name d) (c_multisig_prover d) (c_gateway d)
        (c_voting_verifier d) = Ok st' →
      effect st sender (RegisterDeployment name) st'.

Lemma coordinator_execute_effect st env sender m st' r :
  execute st env sender m = Ok (st', r) →
  ∃ m', m = msgs_derive.Direct m' ∧ may_send st sender m' ∧ effect st sender m' st'.
Proof.
  intros (m' & -> & Hm & Hf)%coordinator_execute_Ok. exists m'. split_and!; [done..|].
  destruct m' as [a b c|c a1 a2 a3|vs|name salt [params]|name];
    cbn [handle] in Hf; unfold validate_cosmwasm_address in Hf.
  - ok_inv. unfold register_protocol in Hf. injection Hf as <- <-. by apply effect_protocol.
  - apply bind_Ok in Hf as (p & Hp & Hf). apply bind_Ok in Hf as (g & Hg & Hf).
    apply bind_Ok in Hf as (v & Hv & Hf). apply map_err_Ok in Hp, Hg, Hv.
    apply map_err_Ok, coordinator_register_chain_Ok in Hf as [Hf _]. by apply (effect_chain _ _ _ _ _ _ p g v).
  - apply bind_Ok in Hf as (vs' & Hvs & Hf). injection Hf as <- <-. by constructor.
  - apply map_err_Ok, instantiate_chain_contracts_Ok in Hf
      as (? & ? & ? & ? & ? & ? & ? & _ & Hn & _ & _ & _ & _ & _ & _ & -> & _).
    by constructor.
  - apply map_err_Ok, register_deployment_Ok in Hf as (d & p & Hd & _ & Hs & _).
    by econstructor.
Qed.

Inductive reachable : State → Prop :=
  | reachable_instantiate g st r : instantiate g = Ok (st, r) → reachable st
  | reachable_execute st env sender m st' r :
      reachable st → execute st env sender m = Ok (st', r) → reachable st'.

Lemma coordinator_execute_inv st env sender m st' r :
  inv st → execute st env sender m = Ok (st', r) → inv st'.
Proof.
  intros Hi Hf. apply coordinator_execute_effect in Hf as (m' & -> & _ & He).
  destruct He as [a b c st' Hc Hv _|c a1 a2 a3 p g v st' _ _ _ Hs|vs vs' Hvs _|
                  name salt params c Hn|name d st' Hd Hs].
  - by apply (inv_same st).
  - by eapply save_chain_contracts_inv.
  - destruct Hi. split; [by apply update_records_ok|done..].
  - by apply (inv_same st).
  - by eapply save_chain_contracts_inv.
Qed.

Lemma coordinator_reachable_inv st : reachable st → inv st.
Proof.
  induction 1 as [g st r Hi|st env sender m st' r _ IH Hf]; [|by eapply coordinator_execute_inv].
  unfold instantiate in Hi. ok_inv. injection Hi as <- <-.
  split; [intros ???|intros ??|intros ????..]; cbn; by rewrite lookup_empty.
Qed.

(** ** The abstract view: an active set for every prover *)

Definition ActiveSets := Addr → gset Addr.

(** Only a prover's own report changes a set, and it changes that prover's set. *)
Inductive spec_step (a : ActiveSets) (sender : Addr) : ExecuteMsg → ActiveSets → Prop :=
  | spec_set vs (vs' : gset Addr) :
      (∀ v, v ∈ vs' ↔ ∃ s, s ∈ vs ∧ addr_validate s = Ok v) →
      spec_step a sender (SetActiveVerifiers vs)
        (λ q, if bool_decide (q = sender) then vs' else a q)
  | spec_other m : (∀ vs, m ≠ SetActiveVerifiers vs) → spec_step a sender m a.

Definition active_sets (st : State) : ActiveSets := existing_verifiers st.

Lemma validated_set (vs : gset string) vs' :
  try_map validate_cosmwasm_address (elements vs) = Ok vs' →
  ∀ v, v ∈ (list_to_set vs' : gset Addr) ↔ ∃ s, s ∈ vs ∧ addr_validate s = Ok v.
Proof.
  intros Hf%try_map_Ok v. unfold validate_cosmwasm_address in Hf. rewrite elem_of_list_to_set. split.
  - intros (i & Hi)%list_elem_of_lookup. destruct (Forall2_lookup_r _ _ _ _ _ Hf Hi) as (s & Hs & Hv).
    apply map_err_Ok in Hv. exists s. split; [|done].
    apply elem_of_elements. by eapply list_elem_of_lookup_2.
  - intros (s & Hs & Hv). apply elem_of_elements, list_elem_of_lookup in Hs as [i Hi].
    destruct (Forall2_lookup_l _ _ _ _ _ Hf Hi) as (w & Hw & Hv'). apply map_err_Ok in Hv'.
    assert (w = v) as -> by congruence. by eapply list_elem_of_lookup_2.
Qed.

Lemma effect_active_sets st sender m st' :
  effect st sender m st' →
  (∃ vs (vs' : gset Addr), m = SetActiveVerifiers vs ∧ registered st sender ∧
     (∀ v, v ∈ vs' ↔ ∃ s, s ∈ vs ∧ addr_validate s = Ok v) ∧
     ∀ q, active_sets st' q = if bool_decide (q = sender) then vs' else active_sets st q) ∨
  (∀ vs, m ≠ SetActiveVerifiers vs) ∧ ∀ q, active_sets st' q = active_sets st q.
Proof.
  unfold active_sets, existing_verifiers.
  destruct 1 as [a b c st' Hc Hv _|c a1 a2 a3 p g v st' _ _ _ Hs|vs vs' Hvs Hreg|
                 name salt params c Hn|name d st' Hd Hs].
  - right. by rewrite Hv.
  - right. by apply save_chain_contracts_Ok in Hs as [-> _].
  - left. exists vs, (list_to_set vs'). split_and!; [done..|by apply validated_set|].
    apply update_existing.
  - by right.
  - right. by apply save_chain_contracts_Ok in Hs as [-> _].
Qed.

(** A prover that is not registered keeps its set whatever is executed. *)
Lemma unregistered_set_kept st env sender m st' r p :
  execute st env sender m = Ok (st', r) → ¬ registered st p →
  active_sets st' p = active_sets st p.
Proof.
  intros (m' & -> & Hm & He)%coordinator_execute_effect Hp.
  destruct (effect_active_sets _ _ _ _ He) as [(vs & vs' & -> & Hreg & _ & ->)|[_ ->]]; [|done].
  by rewrite bool_decide_eq_false_2 by (by intros ->).
Qed.

(** ** Properties *)

(** C7: The coordinator implements one active set per prover. In every reachable storage the
    table of verifiers stands for a set for every prover: every accepted call either is a report
    of a registered prover and replaces exactly that prover's set by the reported verifiers, or
    leaves all sets as they are; and a verifier is ready to unbond exactly when it is in no
    prover's set. *)
Theorem active_sets_refine (st : State) :
  reachable st →
  (∀ v, check_verifier_ready_to_unbond st v = true ↔ ∀ p, v ∉ active_sets st p) ∧
  ∀ env sender m st' r, execute st env sender m = Ok (st', r) →
    ∃ m' a', m = msgs_derive.Direct m' ∧ spec_step (active_sets st) sender m' a' ∧
      (∀ q, active_sets st' q = a' q) ∧
      (∀ vs, m' = SetActiveVerifiers vs → registered st sender).
Proof.
  intros Hi%coordinator_reachable_inv. split; [intros v; by apply ready_to_unbond_spec; destruct Hi|].
  intros env sender m st' r (m' & -> & Hm & He)%coordinator_execute_effect. exists m'.
  destruct (effect_active_sets _ _ _ _ He) as [(vs & vs' & -> & Hreg & Hvs & Hq)|[Hn Hq]].
  - exists (λ q, if bool_decide (q = sender) then vs' else active_sets st q).
    split_and!; [done|by constructor|done|done].
  - exists (active_sets st). split_and!; [done|by constructor|done|]. intros vs ->. by destruct (Hn vs).
Qed.

(** The contracts of a chain are found by any of their addresses. In every reachable storage
    a record of contracts is the answer for its chain exactly when it is the answer for its
    prover, for its gateway and for its voting verifier; no address serves two chains. *)
Theorem chain_lookups_agree (st : State) (r : ChainContractsRecord) :
  reachable st →
  (contracts_by_chain st (chain_name r) = Ok r ↔ contracts_by_prover st (prover_address r) = Ok r) ∧
  (contracts_by_chain st (chain_name r) = Ok r ↔ contracts_by_gateway st (gateway_address r) = Ok r) ∧
  (contracts_by_chain st (chain_name r) = Ok r ↔ contracts_by_verifier st (verifier_address r) = Ok r).
Proof.
  intros Hi%coordinator_reachable_inv.
  assert (∀ (E : Type) (e : E) idx, index_unique idx (CHAIN_CONTRACTS_MAP st) →
    snd <$> ok_or e (unique_index_item idx (CHAIN_CONTRACTS_MAP st) (idx r : Addr)) = Ok r ↔
    CHAIN_CONTRACTS_MAP st !! chain_name r = Some r) as Hidx.
  { intros E e idx Hu. rewrite fmap_Ok. setoid_rewrite ok_or_Ok. split.
    - intros ([c r'] & Hc & ->). apply unique_index_item_Some in Hc as [Hc _].
      cbn in *. by rewrite (inv_chain _ Hi _ _ Hc).
    - intros Hc. exists (chain_name r, r). split; [|done]. by apply unique_index_item_lookup. }
  unfold contracts_by_chain, contracts_by_prover, contracts_by_gateway, contracts_by_verifier.
  rewrite ok_or_Ok. split_and!; symmetry; apply Hidx; apply Hi.
Qed.

(** The contracts of a deployment refer to each other. An accepted deployment is sent by
    governance under a name that was free, and its three instantiations fit: the gateway is
    given the router and the address at which the voting verifier is created, the prover is
    given the addresses at which the gateway and the voting verifier are created and the
    coordinator's own address, and the recorded addresses are those addresses. *)
Theorem deployment_wired (st : State) (env : Env) (sender : Addr) (name salt : string)
    (params : ManualDeploymentParams) (st' : State) (r : CResponse) :
  execute st env sender (msgs_derive.Direct
    (InstantiateChainContracts name salt (Manual params))) = Ok (st', r) →
  permission_control.GOVERNANCE (perm st) = Some sender ∧
  DEPLOYED_CHAINS st !! name = None ∧
  ∃ protocol d gm vm pm ga va pa, PROTOCOL st = Some protocol ∧
    DEPLOYED_CHAINS st' = <[name := d]> (DEPLOYED_CHAINS st) ∧
    instantiate2_addr env (code_id (gateway params)) salt = Ok (c_gateway d) ∧
    instantiate2_addr env (code_id (verifier_info params)) salt = Ok (c_voting_verifier d) ∧
    instantiate2_addr env (code_id (prover_info params)) salt = Ok (c_multisig_prover d) ∧
    messages r =
      [Instantiate2 ga (code_id (gateway params)) (GatewayMsg gm) (label (gateway params)) salt;
       Instantiate2 va (code_id (verifier_info params)) (VotingVerifierMsg vm)
         (label (verifier_info params)) salt;
       Instantiate2 pa (code_id (prover_info params)) (MultisigProverMsg pm)
         (label (prover_info params)) salt] ∧
    gateway.verifier_address gm = c_voting_verifier d ∧
    gateway.router_address gm = router protocol ∧
    voting_verifier.i_service_registry_address vm = service_registry protocol ∧
    multisig_prover.gateway_address pm = c_gateway d ∧
    multisig_prover.voting_verifier_address pm = c_voting_verifier d ∧
    multisig_prover.multisig_address pm = multisig protocol ∧
    multisig_prover.coordinator_address pm = self env ∧
    multisig_prover.i_chain_name pm = c_chain_name d.
Proof.
  intros (m' & [= <-] & Hm & Hf)%coordinator_execute_Ok. split; [exact Hm|].
  cbn [handle] in Hf. apply map_err_Ok, instantiate_chain_contracts_Ok in Hf
    as (protocol & g & v & p & ga & va & pa & Hp & Hn & Hg & Hv & Hpr & _ & _ & _ & -> & Hr).
  split; [done|].
  eexists protocol, (mkContracts _ _ g v p), _, _, _, ga, va, pa.
  split_and!; [exact Hp|reflexivity|exact Hg|exact Hv|exact Hpr|exact Hr|reflexivity..].
Qed.

(** Registering a deployment tells the router and the multisig about exactly its contracts.
    The call succeeds exactly when the deployment and the protocol contracts are known and no
    other chain uses one of its addresses; then the chain's record names the deployed contracts,
    and governance's request is relayed to the router with the deployed gateway and to the
    multisig with the deployed prover. *)
Theorem register_deployment_exact (st : State) (env : Env) (sender : Addr) (name : string)
    (st' : State) (r : CResponse) :
  execute st env sender (msgs_derive.Direct (RegisterDeployment name)) = Ok (st', r) ↔
  permission_control.GOVERNANCE (perm st) = Some sender ∧
  ∃ d protocol, DEPLOYED_CHAINS st !! name = Some d ∧ PROTOCOL st = Some protocol ∧
    (∀ c rec, c ≠ c_chain_name d → CHAIN_CONTRACTS_MAP st !! c = Some rec →
       prover_address rec ≠ c_multisig_prover d ∧ gateway_address rec ≠ c_gateway d ∧
       verifier_address rec ≠ c_voting_verifier d) ∧
    st' = set_contracts st (<[c_chain_name d := deployment_response d]> (CHAIN_CONTRACTS_MAP st)) ∧
    r = mkResponse
      [ToRouter (router protocol) (msgs_derive.Relay sender
         (router.RegisterChain (c_chain_name d) (c_gateway d) (c_msg_id_format d)));
       ToMultisig (multisig protocol) (msgs_derive.Relay sender
         (multisig.AuthorizeCallers [(c_multisig_prover d, c_chain_name d)]))] [].
Proof.
  rewrite coordinator_execute_Ok. split.
  - intros (m' & [= <-] & Hm & Hf). split; [exact Hm|]. cbn [handle] in Hf.
    apply map_err_Ok, register_deployment_Ok in Hf as (d & p & Hd & Hp & Hs & ->).
    apply save_chain_contracts_Ok in Hs as [-> Hs]. exists d, p. split_and!; done.
  - intros (Hm & d & p & Hd & Hp & Hall & -> & ->). eexists. split; [done|]. split; [exact Hm|].
    cbn [handle]. apply map_err_Ok, register_deployment_Ok. exists d, p.
    split_and!; [done..| |done]. apply save_chain_contracts_Ok. done.
Qed.

(** A prover that was replaced keeps its verifiers from unbonding. While a prover is not
    registered, no call whatsoever releases the verifiers of its set: a verifier that it holds
    active is not ready to unbond after any accepted call. *)
Theorem replaced_prover_blocks_unbonding (st : State) (env : Env) (sender : Addr)
    (m : msgs_derive.ExecuteMsgFromProxy ExecuteMsg) (st' : State) (r : CResponse) (p v : Addr) :
  reachable st → ¬ registered st p → v ∈ active_sets st p →
  execute st env sender m = Ok (st', r) →
  v ∈ active_sets st' p ∧ check_verifier_ready_to_unbond st' v = false.
Proof.
  intros Hr Hp Hv Hf. pose proof (unregistered_set_kept _ _ _ _ _ _ _ Hf Hp) as Hk.
  rewrite Hk. split; [done|]. apply not_true_is_false.
  rewrite ready_to_unbond_spec by (eapply coordinator_reachable_inv, reachable_execute; done).
  intros Hall. apply (Hall p). by rewrite <-Hk in Hv.
Qed.

End contract.
End coordinator.

(** ** A run: deployment, registration, an active set, and the replacement of the prover *)
Module coordinator_run.
Import key coordinator.

Definition run_api : Api := {| addr_validate := λ s, Ok s |}.
#[local] Existing Instance run_api.

(** The derived address spells out the code and the salt. *)
Definition run_env : Env :=
  mkEnv "coordinator" (λ c, Some (if bool_decide (c = 1) then "gateway" else
                                  if bool_decide (c = 2) then "verifier" else "prover"))
    Some (λ checksum creator salt, Some (checksum +:+ "-" +:+ salt)) Some (λ _ _, None).

Definition run_params : ManualDeploymentParams :=
  mkParams (mkInfo 1 "gateway" "admin" tt)
    (mkInfo 2 "verifier" "admin" (mkVerifierMsg "gov" "amp" "0xgw" two_thirds 10 1 "eth" "rewards"
       msg_id.HexTxHashAndEventIndex address.Eip55))
    (mkInfo 3 "prover" "admin" (mkProverMsg "gov" "admin" "multisig" two_thirds "amp" "eth" 0
       multisig_prover.Abi Ecdsa "separator")).
Definition deploy (name salt : string) : ExecuteMsg :=
  InstantiateChainContracts name salt (Manual run_params).

Definition next (st : State) (sender : Addr) (m : ExecuteMsg) : State * CResponse :=
  match execute st run_env sender (msgs_derive.Direct m) with
  | Ok p => p
  | _ => (st, Response_new)
  end.

Definition run0 : State :=
  mkState (permission_control.mkStorage None (Some "gov")) None ∅ ∅ ∅.
Definition run1 := next run0 "gov" (RegisterProtocol "registry" "router" "multisig").
Definition run2 := next run1.1 "gov" (deploy "d1" "s1").
Definition run3 := next run2.1 "gov" (RegisterDeployment "d1").
Definition run4 := next run3.1 "prover-s1" (SetActiveVerifiers {[ "v1"; "v2" ]}).
(** The chain moves to a second deployment. *)
Definition run5 := next run4.1 "gov" (deploy "d2" "s2").
Definition run6 := next run5.1 "gov" (RegisterDeployment "d2").

Lemma coordinator_next_Ok st sender m :
  is_ok (execute st run_env sender (msgs_derive.Direct m)) = true →
  execute st run_env sender (msgs_derive.Direct m) = Ok ((next st sender m).1, (next st sender m).2).
Proof. unfold next. by destruct (execute _ _ _ _) as [[]|e|]. Qed.

Lemma coordinator_next_reachable st sender m :
  reachable st → is_ok (execute st run_env sender (msgs_derive.Direct m)) = true →
  reachable (next st sender m).1.
Proof. intros Hr Hf. eapply reachable_execute; [exact Hr|]. by apply coordinator_next_Ok. Qed.

Lemma coordinator_run3_reachable : reachable run3.1.
Proof.
  unfold run3, run2, run1. repeat apply coordinator_next_reachable;
    [by apply (reachable_instantiate "gov" run0 Response_new)|vm_compute; reflexivity..].
Qed.
Lemma coordinator_run4_reachable : reachable run4.1.
Proof.
  apply coordinator_next_reachable; [exact coordinator_run3_reachable|vm_compute; reflexivity].
Qed.
Lemma coordinator_run6_reachable : reachable run6.1.
Proof.
  apply coordinator_next_reachable; [apply coordinator_next_reachable|];
    [exact coordinator_run4_reachable|vm_compute; reflexivity..].
Qed.

Lemma active_sets_refine_witness :
  check_verifier_ready_to_unbond run4.1 "v1" = false ∧ ∀ p, "v3" ∉ active_sets run4.1 p.
Proof.
  split; [vm_compute; reflexivity|].
  apply (proj1 (active_sets_refine run4.1 coordinator_run4_reachable) "v3").
  vm_compute. reflexivity.
Defined.

Lemma chain_lookups_agree_witness :
  contracts_by_prover run6.1 "prover-s2" = Ok (mkRecord "eth" "prover-s2" "gateway-s2" "verifier-s2").
Proof.
  apply (proj1 (chain_lookups_agree run6.1 (mkRecord "eth" "prover-s2" "gateway-s2" "verifier-s2")
    coordinator_run6_reachable)). vm_compute. reflexivity.
Defined.

Lemma run2_Ok :
  execute run1.1 run_env "gov" (msgs_derive.Direct (deploy "d1" "s1")) = Ok (run2.1, run2.2).
Proof. apply coordinator_next_Ok. vm_compute. reflexivity. Qed.

Lemma deployment_wired_witness : DEPLOYED_CHAINS run1.1 !! "d1" = None.
Proof.
  exact (proj1 (proj2 (deployment_wired run1.1 run_env "gov" "d1" "s1" run_params run2.1 run2.2
    run2_Ok))).
Defined.

(** The first prover is gone, and the report of the second one does not release its verifiers. *)
Definition run7 := next run6.1 "prover-s2" (SetActiveVerifiers {[ "v3" ]}).
Lemma run7_Ok :
  execute run6.1 run_env "prover-s2" (msgs_derive.Direct (SetActiveVerifiers {[ "v3" ]})) =
    Ok (run7.1, run7.2).
Proof. apply coordinator_next_Ok. vm_compute. reflexivity. Qed.
Lemma run6_replaced : ¬ registered run6.1 "prover-s1".
Proof. rewrite <-find_prover_address_spec. vm_compute. discriminate. Qed.
Lemma run6_active : "v1" ∈ active_sets run6.1 "prover-s1".
Proof. apply elem_of_existing. vm_compute. by eexists. Qed.

Lemma replaced_prover_blocks_unbonding_witness :
  "v1" ∈ active_sets run7.1 "prover-s1" ∧ check_verifier_ready_to_unbond run7.1 "v1" = false.
Proof.
  exact (replaced_prover_blocks_unbonding run6.1 run_env "prover-s2" _ run7.1 run7.2 "prover-s1" "v1"
    coordinator_run6_reachable run6_replaced run6_active run7_Ok).
Defined.

End coordinator_run.
