(* ===== verification/XrplTypes.v ===== *)
(** * The types of the XRP Ledger

    [packages/xrpl-types/src]: amounts of issued tokens as a mantissa and an exponent, the
    conversions of XRP and of tokens between decimals, currencies, accounts, the transactions of
    the multisig account ([types.rs]), and the messages of the XRPL verifier with their hashes
    ([msg.rs]).

    A [Uint256] and the integers of the machine are [Z] with their checked operations; the two
    loops of [canonicalize_mantissa] are recursions whose fuel is enough for every argument
    ([scale_up_done], [scale_down_done]). *)

From Stdlib Require Import Ascii.
From S2P Require Import Prelude Std Voting MsgId RouterApi Multisig Encoding.

(** ** Amounts *)
Module xrpl_amount.

Inductive XRPLError :=
  | AdditionOverflow
  | DivisionByZero
  | DropsTooLarge
  | ExponentOverflow
  | ExponentiationOverflow
  | InvalidAddress (address : string)
  | InvalidTokenAmount (reason : string)
  | InvalidCurrency (currency : string)
  | InvalidDecimals (decimals : Z)
  | InvalidExponent
  | InvalidSignerWeight (weight : Z)
  | IncompatibleTokens
  | MantissaOverflow
  | MultiplicationOverflow
  | NegationOverflow
  | ReservedCurrency (currency : string)
  | SubtractionUnderflow
  | Underflow
  | UnsupportedMessageType.

Definition MIN_MANTISSA : Z := 10 ^ 15.
Definition MAX_MANTISSA : Z := 10 ^ 16 - 1.
Definition MIN_EXPONENT : Z := -96.
Definition MAX_EXPONENT : Z := 80.
Definition XRP_DECIMALS : Z := 6.
Definition XRPL_ISSUED_TOKEN_DECIMALS : Z := 15.
Definition XRP_MAX_UINT : Z := 10 ^ 17.

(** A checked result of 64-bit signed and 32-bit unsigned arithmetic. *)
Definition is_i64 (z : Z) : Prop := - 2 ^ 63 ≤ z ≤ 2 ^ 63 - 1.
#[global] Instance is_i64_dec z : Decision (is_i64 z).
Proof. unfold is_i64. apply _. Defined.
Definition i64_checked (z : Z) : option Z := if bool_decide (is_i64 z) then Some z else None.
Definition u32_try_from (z : Z) : option Z := if bool_decide (0 ≤ z ≤ u32_max) then Some z else None.

(** [Uint256::checked_pow] of ten. *)
Definition checked_pow10 (n : Z) : option Z :=
  if bool_decide (10 ^ n ≤ u256_max) then Some (10 ^ n) else None.

Record XRPLTokenAmount := mkAmount { mantissa : Z; exponent : Z }.
#[global] Instance XRPLTokenAmount_eq_dec : EqDecision XRPLTokenAmount.
Proof. solve_decision. Defined.

Definition MAX : XRPLTokenAmount := mkAmount MAX_MANTISSA MAX_EXPONENT.
Definition ZERO : XRPLTokenAmount := mkAmount 0 0.

Definition in_ranges (m e : Z) : Prop :=
  MIN_MANTISSA ≤ m ≤ MAX_MANTISSA ∧ MIN_EXPONENT ≤ e ≤ MAX_EXPONENT.
#[global] Instance in_ranges_dec m e : Decision (in_ranges m e).
Proof. unfold in_ranges. apply _. Defined.

(** [XRPLTokenAmount::new] asserts the format. *)
Definition new {E} (m e : Z) : result E XRPLTokenAmount :=
  _ ← assert_true (bool_decide (m = 0 ∨ in_ranges m e)); Ok (mkAmount m e).

Definition is_zero (a : XRPLTokenAmount) : bool := bool_decide (mantissa a = 0).

(** Not-XRP bit, positive bit, eight bits of exponent, 54 bits of mantissa. *)
Definition as_bytes (a : XRPLTokenAmount) : result XRPLError string :=
  if bool_decide (mantissa a = 0) then Ok (to_be_bytes 8 0x8000000000000000)
  else
    e ← ok_or ExponentOverflow (i64_checked (exponent a + 97));
    e ← ok_or InvalidExponent (if bool_decide (0 ≤ e) then Some e else None);
    Ok (to_be_bytes 8 (Z.lor (Z.lor 0xC000000000000000 (Z.shiftl e 54 mod 2 ^ 64)) (mantissa a))).

(** *** The canonical form *)

(** [while mantissa < MIN_MANTISSA && exponent > MIN_EXPONENT] *)
Fixpoint scale_up (fuel : nat) (m e : Z) : result XRPLError (Z * Z) :=
  if bool_decide (m < MIN_MANTISSA ∧ MIN_EXPONENT < e) then
    match fuel with
    | O => Ok (m, e)
    | S fuel =>
        m ← ok_or MultiplicationOverflow (checked_mul u256_max m 10);
        e ← ok_or SubtractionUnderflow (i64_checked (e - 1));
        scale_up fuel m e
    end
  else Ok (m, e).

(** [while mantissa > MAX_MANTISSA && exponent > MIN_EXPONENT] *)
Fixpoint scale_down (fuel : nat) (m e : Z) : result XRPLError (Z * Z) :=
  if bool_decide (MAX_MANTISSA < m ∧ MIN_EXPONENT < e) then
    match fuel with
    | O => Ok (m, e)
    | S fuel =>
        _ ← ensure (negb (bool_decide (MAX_EXPONENT ≤ e))) ExponentOverflow;
        m ← ok_or DivisionByZero (checked_div m 10);
        e ← ok_or AdditionOverflow (i64_checked (e + 1));
        scale_down fuel m e
    end
  else Ok (m, e).

(** Each step of the first loop lowers the exponent towards [MIN_EXPONENT]; a [Uint256] has at most
    78 digits, and each step of the second loop drops one. *)
Definition canonicalize_mantissa (m e : Z) : result XRPLError (Z * Z) :=
  '(m, e) ← scale_up (Z.to_nat (e - MIN_EXPONENT)) m e;
  '(m, e) ← scale_down 78 m e;
  if bool_decide (e < MIN_EXPONENT ∨ m < MIN_MANTISSA) then Ok (0, 1)
  else
    _ ← ensure (negb (bool_decide (MAX_EXPONENT < e))) ExponentOverflow;
    _ ← ensure (negb (bool_decide (MAX_MANTISSA < m))) MantissaOverflow;
    Ok (m mod 2 ^ 64, e).

Definition canonicalize_token_amount (amount decimals : Z) : result XRPLError XRPLTokenAmount :=
  e ← ok_or (InvalidDecimals decimals) (i64_checked (- decimals));
  '(m, e) ← canonicalize_mantissa amount e;
  new m e.

(** *** Arithmetic *)

Definition scaled (a : XRPLTokenAmount) (min_exponent : Z) : result XRPLError Z :=
  d ← ok_or SubtractionUnderflow (i64_checked (exponent a - min_exponent));
  d ← ok_or InvalidExponent (u32_try_from d);
  f ← ok_or ExponentiationOverflow (checked_pow10 d);
  ok_or MultiplicationOverflow (checked_mul u256_max (mantissa a) f).

Definition scale_to_min_exponent (left right : XRPLTokenAmount) : result XRPLError (Z * Z * Z) :=
  let min_exponent := Z.min (exponent left) (exponent right) in
  left_mantissa ← scaled left min_exponent;
  right_mantissa ← scaled right min_exponent;
  Ok (left_mantissa, right_mantissa, min_exponent).

(** [PartialOrd], whose only result besides a comparison is a panic. *)
Definition partial_cmp {E} (a b : XRPLTokenAmount) : result E comparison :=
  '(m, n, _) ← expect_ok (scale_to_min_exponent a b); Ok (m ?= n)%Z.

Definition add (a b : XRPLTokenAmount) : result XRPLError XRPLTokenAmount :=
  '(m, n, e) ← scale_to_min_exponent a b;
  s ← ok_or AdditionOverflow (checked_add u256_max m n);
  '(m, e) ← canonicalize_mantissa s e;
  new m e.

Definition sub (a b : XRPLTokenAmount) : result XRPLError XRPLTokenAmount :=
  '(m, n, e) ← scale_to_min_exponent a b;
  if bool_decide (m < n) then Err Underflow
  else
    s ← ok_or SubtractionUnderflow (checked_sub m n);
    '(m, e) ← canonicalize_mantissa s e;
    new m e.

(** *** Conversions between decimals *)

Definition scale_to_decimals (a : XRPLTokenAmount) (destination_decimals : Z) : result XRPLError Z :=
  if bool_decide (mantissa a = 0) then Ok 0
  else
    adjusted ← ok_or AdditionOverflow (i64_checked (exponent a + destination_decimals));
    if bool_decide (0 ≤ adjusted) then
      n ← ok_or InvalidExponent (u32_try_from adjusted);
      f ← ok_or ExponentiationOverflow (checked_pow10 n);
      ok_or MultiplicationOverflow (checked_mul u256_max (mantissa a) f)
    else
      n ← ok_or NegationOverflow (i64_checked (- adjusted));
      n ← ok_or InvalidExponent (u32_try_from n);
      match checked_pow10 n with
      | Some f => ok_or DivisionByZero (checked_div (mantissa a) f)
      | None => Ok 0
      end.

Definition convert_scaled_uint256_to_u64 (value : Z) : Z := value mod 2 ^ 64.

Definition convert_scaled_uint256_to_drops (value : Z) : result XRPLError Z :=
  if bool_decide (XRP_MAX_UINT < value) then Err DropsTooLarge
  else Ok (convert_scaled_uint256_to_u64 value).

Definition scale_from_drops (drops destination_decimals : Z) : result XRPLError Z :=
  if bool_decide (XRP_MAX_UINT < drops) then Err DropsTooLarge
  else if bool_decide (82 < destination_decimals) then Err (InvalidDecimals destination_decimals)
  else if bool_decide (XRP_DECIMALS = destination_decimals) then Ok drops
  else
    f ← ok_or ExponentiationOverflow (checked_pow10 (Z.abs (XRP_DECIMALS - destination_decimals)));
    if bool_decide (destination_decimals < XRP_DECIMALS)
    then ok_or DivisionByZero (checked_div drops f)
    else ok_or MultiplicationOverflow (checked_mul u256_max drops f).

Definition scale_to_drops (source_amount source_decimals : Z) : result XRPLError (Z * Z) :=
  if bool_decide (source_amount = 0) then Ok (0, 0)
  else if bool_decide (82 < source_decimals) then Err (InvalidDecimals source_decimals)
  else if bool_decide (source_decimals = XRP_DECIMALS) then
    d ← convert_scaled_uint256_to_drops source_amount; Ok (d, 0)
  else
    f ← ok_or ExponentiationOverflow (checked_pow10 (Z.abs (source_decimals - XRP_DECIMALS)));
    '(destination_amount, dust) ←
      (if bool_decide (XRP_DECIMALS < source_decimals) then
         quotient ← ok_or DivisionByZero (checked_div source_amount f);
         product ← ok_or MultiplicationOverflow (checked_mul u256_max quotient f);
         remainder ← ok_or SubtractionUnderflow (checked_sub source_amount product);
         Ok (quotient, remainder)
       else
         product ← ok_or MultiplicationOverflow (checked_mul u256_max source_amount f);
         Ok (product, 0));
    d ← convert_scaled_uint256_to_drops destination_amount; Ok (d, dust).

(** *** The loops *)

Lemma i64_checked_Some z : is_i64 z → i64_checked z = Some z.
Proof. intros Hz. unfold i64_checked. by rewrite bool_decide_eq_true_2. Qed.

Lemma scale_up_steps n fuel m e :
  0 ≤ m → is_i64 e →
  (∀ i, (i < n)%nat → m * 10 ^ Z.of_nat i < MIN_MANTISSA ∧ MIN_EXPONENT < e - Z.of_nat i) →
  scale_up (n + fuel) m e = scale_up fuel (m * 10 ^ Z.of_nat n) (e - Z.of_nat n).
Proof.
  revert m e. induction n as [|n IH]; intros m e Hm He Hall.
  { cbn [plus]. f_equal; [change (10 ^ Z.of_nat 0) with 1; lia|lia]. }
  cbn [plus scale_up]. destruct (Hall O ltac:(lia)) as [H1 H2]. change (10 ^ Z.of_nat 0) with 1 in H1.
  rewrite bool_decide_eq_true_2 by (split; lia).
  unfold checked_mul. rewrite bool_decide_eq_true_2; [|unfold MIN_MANTISSA, u256_max in *; lia].
  rewrite i64_checked_Some by (unfold is_i64, MIN_EXPONENT in *; lia). cbn.
  rewrite IH; [|lia|unfold is_i64, MIN_EXPONENT in *; lia|].
  - rewrite Nat2Z.inj_succ, Z.pow_succ_r by lia. f_equal; lia.
  - intros i Hi. destruct (Hall (S i) ltac:(lia)) as [H3 H4].
    rewrite Nat2Z.inj_succ, Z.pow_succ_r in H3 by lia. split; lia.
Qed.

Lemma scale_up_stop fuel m e :
  MIN_MANTISSA ≤ m ∨ e ≤ MIN_EXPONENT → scale_up fuel m e = Ok (m, e).
Proof. intros Hc. destruct fuel; cbn; rewrite bool_decide_eq_false_2 by lia; done. Qed.

Lemma scale_down_steps n fuel m e :
  0 ≤ m → is_i64 e →
  (∀ i, (i < n)%nat → MAX_MANTISSA < m / 10 ^ Z.of_nat i ∧ MIN_EXPONENT < e + Z.of_nat i < MAX_EXPONENT) →
  scale_down (n + fuel) m e = scale_down fuel (m / 10 ^ Z.of_nat n) (e + Z.of_nat n).
Proof.
  revert m e. induction n as [|n IH]; intros m e Hm He Hall.
  { cbn [plus]. change (10 ^ Z.of_nat 0) with 1. rewrite Z.div_1_r. f_equal; lia. }
  cbn [plus scale_down]. destruct (Hall O ltac:(lia)) as [H1 H2].
  change (10 ^ Z.of_nat 0) with 1 in H1. rewrite Z.div_1_r in H1.
  rewrite bool_decide_eq_true_2 by (split; lia). rewrite (bool_decide_eq_false_2 (_ ≤ e)) by lia.
  rewrite i64_checked_Some by (unfold is_i64, MIN_EXPONENT, MAX_EXPONENT in *; lia).
  change (checked_div m 10) with (Some (m / 10)). cbn [negb ensure ok_or mbind result_bind].
  rewrite IH; [|apply Z.div_pos; lia|unfold is_i64, MIN_EXPONENT, MAX_EXPONENT in *; lia|].
  - rewrite Nat2Z.inj_succ, Z.pow_succ_r, Z.div_div by lia. f_equal; lia.
  - intros i Hi. destruct (Hall (S i) ltac:(lia)) as [H3 H4].
    rewrite Nat2Z.inj_succ, Z.pow_succ_r, <-Z.div_div in H3 by lia. split; lia.
Qed.

Lemma scale_down_stop fuel m e :
  m ≤ MAX_MANTISSA ∨ e ≤ MIN_EXPONENT → scale_down fuel m e = Ok (m, e).
Proof. intros Hc. destruct fuel; cbn; rewrite bool_decide_eq_false_2 by lia; done. Qed.

Lemma pow10_le a b : 0 ≤ a ≤ b → 10 ^ a ≤ 10 ^ b.
Proof. intros ?. apply Z.pow_le_mono_r; lia. Qed.

(** A mantissa with [d + 1] digits. *)
Definition magnitude (m d : Z) : Prop := 0 ≤ d ∧ 10 ^ d ≤ m < 10 ^ (d + 1).

Lemma magnitude_exists m : 0 < m → ∃ d, magnitude m d.
Proof.
  intros Hm. assert (∀ n, ∀ m, 0 < m < 10 ^ Z.of_nat n → ∃ d, magnitude m d) as Hn.
  { clear m Hm. induction n as [|n IH]; intros m [H1 H2]; [cbn in H2; lia|].
    destruct (decide (m < 10 ^ Z.of_nat n)) as [|Hge]; [by apply IH|].
    exists (Z.of_nat n). unfold magnitude. rewrite Nat2Z.inj_succ in H2. lia. }
  apply (Hn (Z.to_nat m)). split; [done|]. rewrite Z2Nat.id by lia.
  apply Z.pow_gt_lin_r; lia.
Qed.

Lemma magnitude_up m d k : magnitude m d → 0 ≤ k → magnitude (m * 10 ^ k) (d + k).
Proof.
  intros (Hd & H1 & H2) Hk. unfold magnitude. split; [lia|].
  replace (d + k + 1) with (d + 1 + k) by lia. rewrite !Z.pow_add_r in * by lia.
  pose proof (Z.pow_pos_nonneg 10 k). nia.
Qed.

Lemma magnitude_down m d k : magnitude m d → 0 ≤ k ≤ d → magnitude (m / 10 ^ k) (d - k).
Proof.
  intros (Hd & H1 & H2) Hk. unfold magnitude. split; [lia|].
  pose proof (Z.pow_pos_nonneg 10 k). split.
  - apply Z.div_le_lower_bound; [lia|]. rewrite <-Z.pow_add_r by lia. by replace (k + (d - k)) with d by lia.
  - apply Z.div_lt_upper_bound; [lia|]. rewrite <-Z.pow_add_r by lia.
    by replace (k + (d - k + 1)) with (d + 1) by lia.
Qed.

Lemma magnitude_small m d : magnitude m d → m < MIN_MANTISSA ↔ d < 15.
Proof.
  intros (Hd & H1 & H2). unfold MIN_MANTISSA. split; intros Hlt.
  - destruct (Z.lt_ge_cases d 15) as [|Hge]; [done|]. pose proof (pow10_le 15 d). lia.
  - pose proof (pow10_le (d + 1) 15). lia.
Qed.
Lemma magnitude_large m d : magnitude m d → MAX_MANTISSA < m ↔ 15 < d.
Proof.
  intros (Hd & H1 & H2). unfold MAX_MANTISSA. split; intros Hlt.
  - destruct (Z.lt_ge_cases 15 d) as [|Hge]; [done|]. pose proof (pow10_le (d + 1) 16). lia.
  - pose proof (pow10_le 16 d). lia.
Qed.
Lemma magnitude_u256 m d : magnitude m d → m ≤ u256_max → d ≤ 77.
Proof.
  intros (Hd & H1 & H2) Hm. destruct (Z.lt_ge_cases 77 d) as [Hlt|]; [|done].
  pose proof (pow10_le 78 d). assert (u256_max < 10 ^ 78) by by vm_compute. lia.
Qed.

Lemma magnitude_unique m d d' : magnitude m d → magnitude m d' → d' = d.
Proof.
  intros (? & H1 & H2) (? & H3 & H4). destruct (Z.lt_trichotomy d' d) as [|[|]]; [|done|].
  - pose proof (pow10_le (d' + 1) d). lia.
  - pose proof (pow10_le (d + 1) d'). lia.
Qed.

(** The 16 leading digits of a mantissa. *)
Lemma leading_up m d : magnitude m d → d ≤ 15 → magnitude (m * 10 ^ (15 - d)) 15.
Proof. intros Hd Hle. replace 15 with (d + (15 - d)) at 2 by lia. apply magnitude_up; [done|lia]. Qed.
Lemma leading_down m d : magnitude m d → 15 ≤ d → magnitude (m / 10 ^ (d - 15)) 15.
Proof.
  intros Hd Hle. replace 15 with (d - (d - 15)) at 2 by lia. apply magnitude_down; [done|lia].
Qed.
Lemma leading_range m : magnitude m 15 → MIN_MANTISSA ≤ m ≤ MAX_MANTISSA.
Proof.
  intros Hm. pose proof (magnitude_small _ _ Hm). pose proof (magnitude_large _ _ Hm). lia.
Qed.

(** The first loop, on a mantissa with [d + 1] digits. *)
Lemma scale_up_done m e d fuel :
  magnitude m d → is_i64 e → (Z.to_nat (e - MIN_EXPONENT) ≤ fuel ∨ 15 ≤ fuel)%nat →
  let k := Z.max 0 (Z.min (15 - d) (e - MIN_EXPONENT)) in
  scale_up fuel m e = Ok (m * 10 ^ k, e - k).
Proof.
  intros Hd He Hfuel k. pose proof Hd as (Hd0 & Hm & _). pose proof (Z.pow_pos_nonneg 10 d).
  assert (fuel = Z.to_nat k + (fuel - Z.to_nat k))%nat as -> by (unfold MIN_EXPONENT in *; lia).
  rewrite scale_up_steps; [|lia|done|].
  - rewrite !Z2Nat.id by lia. apply scale_up_stop.
    assert (magnitude (m * 10 ^ k) (d + k)) as Hk by (apply magnitude_up; [done|lia]).
    pose proof (magnitude_small _ _ Hk). lia.
  - intros i Hi. rewrite (magnitude_small _ (d + Z.of_nat i)); [lia|]. apply magnitude_up; [done|lia].
Qed.

Lemma scale_up_zero n fuel e :
  is_i64 e → Z.of_nat n ≤ e - MIN_EXPONENT → scale_up (n + fuel) 0 e = scale_up fuel 0 (e - Z.of_nat n).
Proof.
  intros He Hn. rewrite scale_up_steps; [by rewrite Z.mul_0_l|done..|].
  intros i Hi. rewrite Z.mul_0_l. unfold MIN_MANTISSA. lia.
Qed.

Lemma scale_down_done m e d fuel :
  magnitude m d → m ≤ u256_max → is_i64 e → MIN_EXPONENT < e → 15 < d → (62 ≤ fuel)%nat →
  scale_down fuel m e =
    if bool_decide (MAX_EXPONENT < e + d - 15) then Err ExponentOverflow
    else Ok (m / 10 ^ (d - 15), e + d - 15).
Proof.
  intros Hd Hm He Hmin Hlarge Hfuel. pose proof Hd as (Hd0 & Hmd & _).
  pose proof (Z.pow_pos_nonneg 10 d). pose proof (magnitude_u256 _ _ Hd Hm).
  set (k := Z.max 0 (Z.min (d - 15) (MAX_EXPONENT - e))).
  assert (magnitude (m / 10 ^ k) (d - k)) as Hk by (apply magnitude_down; [done|lia]).
  pose proof (magnitude_large _ _ Hk) as Hl.
  assert (fuel = Z.to_nat k + (fuel - Z.to_nat k))%nat as -> by lia.
  rewrite scale_down_steps; [|lia|done|].
  2: { intros i Hi. rewrite (magnitude_large _ (d - Z.of_nat i)); [lia|]. apply magnitude_down; [done|lia]. }
  rewrite Z2Nat.id by lia. case_bool_decide as Hov.
  - destruct (fuel - Z.to_nat k)%nat eqn:Hf; [unfold MAX_EXPONENT, MIN_EXPONENT in *; lia|]. cbn [scale_down].
    rewrite bool_decide_eq_true_2 by lia. by rewrite bool_decide_eq_true_2 by lia.
  - rewrite scale_down_stop by lia. do 2 f_equal; [do 2 f_equal|]; lia.
Qed.

(** The canonical form of an amount: its 16 leading digits, with its exponent. *)
Definition canonical (m e d : Z) : result XRPLError (Z * Z) :=
  if bool_decide (e < MIN_EXPONENT ∨ e + d - 15 < MIN_EXPONENT) then Ok (0, 1)
  else if bool_decide (e = MIN_EXPONENT ∧ 15 < d) then Err MantissaOverflow
  else if bool_decide (MAX_EXPONENT < e + d - 15) then Err ExponentOverflow
  else Ok (if bool_decide (d ≤ 15) then m * 10 ^ (15 - d) else m / 10 ^ (d - 15), e + d - 15).

Lemma canonicalize_zero e : is_i64 e → canonicalize_mantissa 0 e = Ok (0, 1).
Proof.
  intros He. unfold canonicalize_mantissa.
  assert (scale_up (Z.to_nat (e - MIN_EXPONENT)) 0 e = Ok (0, Z.min e MIN_EXPONENT)) as ->.
  { rewrite <-(Nat.add_0_r (Z.to_nat _)). destruct (Z.le_ge_cases e MIN_EXPONENT).
    - rewrite scale_up_stop by lia. do 2 f_equal. lia.
    - rewrite scale_up_zero, scale_up_stop by (done || lia). do 2 f_equal. lia. }
  cbn [mbind result_bind]. rewrite scale_down_stop by (unfold MAX_MANTISSA; lia).
  cbn [mbind result_bind]. by rewrite bool_decide_eq_true_2 by (unfold MIN_MANTISSA; lia).
Qed.

Lemma mantissa_u64 m d : magnitude m d → d = 15 → m mod 2 ^ 64 = m.
Proof.
  intros (_ & H1 & H2) ->. apply Z.mod_small. pose proof (Z.pow_pos_nonneg 10 15).
  change (10 ^ (15 + 1)) with 10000000000000000 in H2. lia.
Qed.

(** The canonical form is computed exactly. *)
Theorem canonicalize_exact (m e d : Z) :
  magnitude m d → m ≤ u256_max → is_i64 e → canonicalize_mantissa m e = canonical m e d.
Proof.
  intros Hd Hm He. pose proof Hd as (Hd0 & Hmd & _). pose proof (Z.pow_pos_nonneg 10 d).
  pose proof (magnitude_u256 _ _ Hd Hm). unfold canonicalize_mantissa, canonical.
  rewrite (scale_up_done m e d) by (done || lia). cbn [mbind result_bind].
  set (k := Z.max 0 (Z.min (15 - d) (e - MIN_EXPONENT))).
  assert (magnitude (m * 10 ^ k) (d + k)) as Hk by (apply magnitude_up; [done|lia]).
  pose proof (magnitude_small _ _ Hk). pose proof (magnitude_large _ _ Hk).
  destruct (decide (15 < d ∧ MIN_EXPONENT < e)) as [[Hl Hmin]|Hnot].
  - assert (k = 0) as Hk0 by lia. rewrite Hk0, Z.pow_0_r, Z.mul_1_r, Z.sub_0_r in *.
    rewrite (scale_down_done m e d) by (done || lia).
    rewrite (bool_decide_eq_false_2 (_ ∨ _)) by lia. rewrite (bool_decide_eq_false_2 (_ = _ ∧ _)) by lia.
    case_bool_decide; [done|]. cbn [mbind result_bind].
    pose proof (leading_down m d Hd ltac:(lia)) as Hq. pose proof (leading_range _ Hq).
    rewrite !bool_decide_eq_false_2 by lia. cbn. by rewrite (mantissa_u64 _ _ Hq).
  - rewrite scale_down_stop by lia. cbn [mbind result_bind].
    destruct (decide (e < MIN_EXPONENT ∨ e + d - 15 < MIN_EXPONENT)) as [Hz|Hz].
    { by rewrite !bool_decide_eq_true_2 by lia. }
    rewrite (bool_decide_eq_false_2 (_ ∨ _)) by lia. rewrite (bool_decide_eq_false_2 (_ ∨ _)) by lia.
    destruct (decide (e = MIN_EXPONENT ∧ 15 < d)) as [Ho|Ho].
    { rewrite (bool_decide_eq_false_2 (_ < e - k)) by (unfold MIN_EXPONENT, MAX_EXPONENT in *; lia).
      by rewrite !bool_decide_eq_true_2 by lia. }
    assert (k = 15 - d) as Hkd by lia. rewrite (bool_decide_eq_false_2 (_ = _ ∧ _)) by lia.
    rewrite (bool_decide_eq_true_2 (d ≤ 15)) by lia. replace (e - k) with (e + d - 15) by lia.
    destruct (bool_decide_reflect (MAX_EXPONENT < e + d - 15)); [done|].
    rewrite (bool_decide_eq_false_2 (MAX_MANTISSA < _)) by lia. cbn [ensure negb mbind result_bind].
    rewrite (mantissa_u64 _ (d + k)) by (done || lia). by rewrite Hkd.
Qed.

(** *** Termination *)

Definition up_runs (m e : Z) : Prop := m < MIN_MANTISSA ∧ MIN_EXPONENT < e.
Definition down_runs (m e : Z) : Prop := MAX_MANTISSA < m ∧ MIN_EXPONENT < e.

(** C35: The loops of the canonicalization end: on a nonzero mantissa, after 15 and 62 steps at the
    latest. On a zero mantissa the first loop steps through the whole exponent: it is still running
    after any number of steps below [e + 96]. *)
Theorem canonicalize_terminates (m e : Z) :
  0 ≤ m ≤ u256_max → is_i64 e →
  (0 < m →
     ∃ m' e' r, (∀ fuel, (15 ≤ fuel)%nat → scale_up fuel m e = Ok (m', e')) ∧ ¬ up_runs m' e' ∧
       (∀ fuel, (62 ≤ fuel)%nat → scale_down fuel m' e' = r) ∧
       (r = Err ExponentOverflow ∨ ∃ m'' e'', r = Ok (m'', e'') ∧ ¬ down_runs m'' e'')) ∧
  (m = 0 → ∀ n, Z.of_nat n < e - MIN_EXPONENT →
     scale_up n m e = Ok (0, e - Z.of_nat n) ∧ up_runs 0 (e - Z.of_nat n)).
Proof.
  intros [Hm0 Hm] He. split.
  - intros Hpos. destruct (magnitude_exists m Hpos) as [d Hd].
    set (k := Z.max 0 (Z.min (15 - d) (e - MIN_EXPONENT))).
    assert (magnitude (m * 10 ^ k) (d + k)) as Hk by (apply magnitude_up; [done|lia]).
    pose proof (magnitude_small _ _ Hk). pose proof (magnitude_large _ _ Hk).
    exists (m * 10 ^ k), (e - k). unfold up_runs, down_runs.
    destruct (decide (15 < d ∧ MIN_EXPONENT < e)) as [[Hl Hmin]|Hnot].
    + assert (k = 0) as Hk0 by lia. rewrite Hk0, Z.pow_0_r, Z.mul_1_r, Z.sub_0_r in *.
      eexists. split; [|split; [lia|split; [by intros fuel Hf; apply (scale_down_done m e d)|]]].
      { intros fuel Hf. apply scale_up_stop. lia. }
      case_bool_decide; [by left|]. right. do 2 eexists. split; [done|].
      pose proof (leading_range _ (leading_down m d Hd ltac:(lia))). lia.
    + exists (Ok (m * 10 ^ k, e - k)). split; [intros; by apply scale_up_done; auto|]. split; [lia|].
      split; [intros; apply scale_down_stop; lia|]. right. do 2 eexists. split; [done|]. lia.
  - intros -> n Hn. rewrite <-(Nat.add_0_r n) at 1. rewrite scale_up_zero by (done || lia).
    unfold up_runs. split; [|unfold MIN_MANTISSA; lia]. cbn [scale_up].
    by destruct (bool_decide _).
Qed.

(** *** The format of amounts *)

Record wf (a : XRPLTokenAmount) : Prop := {
  wf_mantissa : mantissa a = 0 ∨ MIN_MANTISSA ≤ mantissa a ≤ MAX_MANTISSA;
  wf_exponent : MIN_EXPONENT ≤ exponent a ≤ MAX_EXPONENT
}.

Lemma canonicalize_wf m e m' e' :
  0 ≤ m ≤ u256_max → is_i64 e → canonicalize_mantissa m e = Ok (m', e') →
  wf (mkAmount m' e') ∧ ∀ E, @new E m' e' = Ok (mkAmount m' e').
Proof.
  intros Hm He Hc. assert ((m' = 0 ∧ e' = 1) ∨ in_ranges m' e') as Hcases.
  { destruct (decide (m = 0)) as [->|]; [rewrite canonicalize_zero in Hc by done; naive_solver|].
    destruct (magnitude_exists m ltac:(lia)) as [d Hd]. rewrite (canonicalize_exact m e d) in Hc by (done || lia).
    unfold canonical in Hc. repeat case_bool_decide; simplify_eq; [by left|right..].
    - pose proof (leading_range _ (leading_up m d Hd ltac:(lia))). split; lia.
    - pose proof (leading_range _ (leading_down m d Hd ltac:(lia))). split; lia. }
  unfold new. rewrite bool_decide_eq_true_2 by naive_solver. split; [|done].
  destruct Hcases as [[-> ->]|[? ?]]; split; cbn; unfold MIN_EXPONENT, MAX_EXPONENT in *; lia.
Qed.

(** *** Exact arithmetic *)

(** The mantissa of an amount at a lower exponent. *)
Definition at_exponent (a : XRPLTokenAmount) (e : Z) : Z := mantissa a * 10 ^ (exponent a - e).

(** Whether 256 bits hold it; an amount of zero fails with the power of ten alone. *)
Definition fits (a : XRPLTokenAmount) (e : Z) : Prop :=
  10 ^ (exponent a - e) ≤ u256_max ∧ at_exponent a e ≤ u256_max.
Definition lowest (a b : XRPLTokenAmount) : Z := Z.min (exponent a) (exponent b).
Definition comparable (a b : XRPLTokenAmount) : Prop := fits a (lowest a b) ∧ fits b (lowest a b).

Lemma scaled_spec a e :
  wf a → MIN_EXPONENT ≤ e ≤ exponent a →
  (fits a e ∧ scaled a e = Ok (at_exponent a e)) ∨
  (¬ fits a e ∧ (scaled a e = Err ExponentiationOverflow ∨ scaled a e = Err MultiplicationOverflow)).
Proof.
  intros [Hm He] Hle. unfold scaled, fits, at_exponent. unfold MIN_EXPONENT, MAX_EXPONENT in *.
  rewrite i64_checked_Some by (unfold is_i64; lia). cbn [ok_or mbind result_bind].
  unfold u32_try_from. rewrite bool_decide_eq_true_2 by (unfold u32_max; lia). cbn [ok_or mbind result_bind].
  unfold checked_pow10. destruct (bool_decide_reflect (10 ^ (exponent a - e) ≤ u256_max)); cbn [ok_or mbind result_bind].
  2: { right. split; [naive_solver|by left]. }
  unfold checked_mul. destruct (bool_decide_reflect (mantissa a * 10 ^ (exponent a - e) ≤ u256_max)); cbn [ok_or].
  - by left.
  - right. split; [naive_solver|by right].
Qed.

Lemma scale_to_min_exponent_spec a b :
  wf a → wf b →
  (comparable a b ∧ scale_to_min_exponent a b =
     Ok (at_exponent a (lowest a b), at_exponent b (lowest a b), lowest a b)) ∨
  (¬ comparable a b ∧ (scale_to_min_exponent a b = Err ExponentiationOverflow ∨
                       scale_to_min_exponent a b = Err MultiplicationOverflow)).
Proof.
  intros Ha Hb. unfold scale_to_min_exponent, comparable. fold (lowest a b).
  pose proof (wf_exponent a Ha). pose proof (wf_exponent b Hb).
  destruct (scaled_spec a (lowest a b) Ha) as [[Hfa ->]|[Hfa [-> | ->]]]; [unfold lowest; lia|..];
    cbn [mbind result_bind]; [|right; naive_solver..].
  destruct (scaled_spec b (lowest a b) Hb) as [[Hfb ->]|[Hfb [-> | ->]]]; [unfold lowest; lia|..];
    cbn [mbind result_bind]; [left|right..]; naive_solver.
Qed.

(** Amounts are compared by their values, when their exponents are close enough for 256 bits;
    otherwise the comparison panics. *)
Theorem partial_cmp_exact (a b : XRPLTokenAmount) :
  wf a → wf b →
  (comparable a b ∧ ∀ E, @partial_cmp E a b =
     Ok (at_exponent a (lowest a b) ?= at_exponent b (lowest a b))) ∨
  (¬ comparable a b ∧ ∀ E, @partial_cmp E a b = Panic).
Proof.
  intros Ha Hb. unfold partial_cmp.
  destruct (scale_to_min_exponent_spec a b Ha Hb) as [[Hc ->]|[Hc [-> | ->]]]; cbn; auto.
Qed.

(** The amount [c] is the leading digits of the value of [s] at an exponent. *)
Definition rounds (c : XRPLTokenAmount) (s e : Z) : Prop :=
  in_ranges (mantissa c) (exponent c) ∧
  (e ≤ exponent c ∧ mantissa c = s / 10 ^ (exponent c - e) ∨
   exponent c < e ∧ mantissa c = s * 10 ^ (e - exponent c)).

Lemma in_ranges_magnitude m e : in_ranges m e → magnitude m 15.
Proof. intros [[H1 H2] _]. unfold magnitude, MIN_MANTISSA, MAX_MANTISSA in *. lia. Qed.

Lemma rounds_magnitude c s e :
  0 ≤ s → rounds c s e → magnitude s (15 + exponent c - e).
Proof.
  intros Hs [Hr%in_ranges_magnitude [[Hle Hm]|[Hlt Hm]]]; rewrite Hm in Hr.
  - destruct Hr as (_ & H1 & H2). pose proof (Z.pow_pos_nonneg 10 (exponent c - e)).
    unfold magnitude. split; [lia|].
    replace (15 + exponent c - e) with (15 + (exponent c - e)) by lia.
    replace (15 + (exponent c - e) + 1) with (16 + (exponent c - e)) by lia.
    rewrite !Z.pow_add_r by lia. pose proof (Z.mul_div_le s (10 ^ (exponent c - e)) ltac:(lia)).
    pose proof (Z.mul_succ_div_gt s (10 ^ (exponent c - e)) ltac:(lia)).
    change (10 ^ (15 + 1)) with (10 ^ 16) in H2. nia.
  - destruct Hr as (_ & H1 & H2). unfold magnitude.
    pose proof (Z.pow_pos_nonneg 10 (e - exponent c)).
    assert (e - exponent c ≤ 15) as Hk.
    { destruct (Z.le_gt_cases (e - exponent c) 15); [done|]. pose proof (pow10_le 16 (e - exponent c)).
      change (10 ^ (15 + 1)) with (10 ^ 16) in H2. assert (s ≠ 0) by (intros ->; lia). nia. }
    split; [lia|].
    assert (10 ^ 15 = 10 ^ (15 + exponent c - e) * 10 ^ (e - exponent c)) as E1
      by (rewrite <-Z.pow_add_r by lia; f_equal; lia).
    assert (10 ^ (15 + 1) = 10 ^ (15 + exponent c - e + 1) * 10 ^ (e - exponent c)) as E2
      by (rewrite <-Z.pow_add_r by lia; f_equal; lia).
    rewrite E1 in H1. rewrite E2 in H2. nia.
Qed.

(** What canonicalization returns at a valid exponent: the leading digits of the value, or zero
    when the value is below the smallest amount. At the lowest exponent it fails on more than 16
    digits. *)
Lemma canonicalize_rounds s e c :
  0 < s ≤ u256_max → MIN_EXPONENT ≤ e ≤ MAX_EXPONENT →
  canonicalize_mantissa s e = Ok (mantissa c, exponent c) ↔
  (c = mkAmount 0 1 ∧ s * 10 ^ (e - MIN_EXPONENT) < MIN_MANTISSA) ∨
  (rounds c s e ∧ (e = MIN_EXPONENT → s ≤ MAX_MANTISSA)).
Proof.
  intros Hs He. destruct (magnitude_exists s ltac:(lia)) as [d Hd].
  assert (is_i64 e) as Hi by (unfold is_i64, MIN_EXPONENT, MAX_EXPONENT in *; lia).
  rewrite (canonicalize_exact s e d Hd) by (done || lia).
  assert (magnitude (s * 10 ^ (e - MIN_EXPONENT)) (d + (e - MIN_EXPONENT))) as Hlow
    by (apply magnitude_up; [done|lia]).
  pose proof (magnitude_small _ _ Hlow) as Hsmall. pose proof (magnitude_large _ _ Hd) as Hlarge.
  split.
  - unfold canonical. repeat case_bool_decide; intros [= Em Ee]; [left|right..].
    + destruct c as [m' e']; cbn in *; subst. split; [done|]. lia.
    + split; [|lia]. split.
      * rewrite <-Em, <-Ee. pose proof (leading_range _ (leading_up s d Hd ltac:(lia))). split; lia.
      * destruct (decide (d = 15)) as [->|].
        { left. split; [lia|]. rewrite <-Em, <-Ee. replace (e + 15 - 15 - e) with 0 by lia.
          rewrite Z.div_1_r. cbn. lia. }
        right. split; [lia|]. rewrite <-Em. do 2 f_equal. lia.
    + split; [|lia]. split.
      * rewrite <-Em, <-Ee. pose proof (leading_range _ (leading_down s d Hd ltac:(lia))). split; lia.
      * left. split; [lia|]. rewrite <-Em. do 2 f_equal. lia.
  - intros [[-> Hlt]|[Hr Hmin]].
    { unfold canonical. rewrite bool_decide_eq_true_2 by lia. done. }
    assert (15 + exponent c - e = d) as Hexp 
      by (eapply magnitude_unique, rounds_magnitude; [done|lia|done]).
    destruct Hr as [[Hm He'] Hr]. unfold canonical.
    rewrite (bool_decide_eq_false_2 (_ ∨ _)) by lia. rewrite (bool_decide_eq_false_2 (_ ∧ _)) by lia.
    rewrite (bool_decide_eq_false_2 (_ < e + d - 15)) by lia. do 2 f_equal; [|lia].
    case_bool_decide.
    + destruct Hr as [[Hle ->]|[Hlt ->]]; [|do 2 f_equal; lia].
      replace (15 - d) with 0 by lia. replace (exponent c - e) with 0 by lia. rewrite Z.div_1_r. cbn. lia.
    + destruct Hr as [[Hle ->]|[Hlt _]]; [|lia]. do 2 f_equal. lia.
Qed.

Lemma at_exponent_nonneg a e : wf a → 0 ≤ at_exponent a e.
Proof.
  intros Ha. unfold at_exponent. pose proof (wf_mantissa a Ha). pose proof (Z.pow_nonneg 10 (exponent a - e)).
  unfold MIN_MANTISSA in *. nia.
Qed.

Lemma at_exponent_large a e :
  wf a → e ≤ exponent a → at_exponent a e ≠ 0 → MIN_MANTISSA ≤ at_exponent a e.
Proof.
  intros Ha He Hne. unfold at_exponent in *. pose proof (wf_mantissa a Ha).
  pose proof (Z.pow_pos_nonneg 10 (exponent a - e)). unfold MIN_MANTISSA in *. nia.
Qed.

(** Canonicalizing a 256-bit value at a valid exponent never panics, and returns the amount
    that represents it. *)
Lemma canonicalize_new s e :
  0 ≤ s ≤ u256_max → MIN_EXPONENT ≤ e ≤ MAX_EXPONENT →
  let r := ('(m, e) ← canonicalize_mantissa s e; new m e) in
  r ≠ Panic ∧
  ∀ c, r = Ok c ↔
    (c = mkAmount 0 1 ∧ s * 10 ^ (e - MIN_EXPONENT) < MIN_MANTISSA) ∨
    (rounds c s e ∧ (e = MIN_EXPONENT → s ≤ MAX_MANTISSA)).
Proof.
  intros Hs He r. assert (is_i64 e) as Hi by (unfold is_i64, MIN_EXPONENT, MAX_EXPONENT in *; lia).
  assert (∀ c, r = Ok c ↔ canonicalize_mantissa s e = Ok (mantissa c, exponent c)) as Hr.
  { intros [m' e']. subst r; cbn. destruct (canonicalize_mantissa s e) as [[m1 e1]|x|] eqn:Hc; cbn; [|done..].
    destruct (canonicalize_wf _ _ _ _ Hs Hi Hc) as [_ ->]. naive_solver. }
  split.
  - subst r. destruct (canonicalize_mantissa s e) as [[m1 e1]|x|] eqn:Hc; cbn; [|done|].
    + by destruct (canonicalize_wf _ _ _ _ Hs Hi Hc) as [_ ->].
    + destruct (decide (s = 0)) as [->|]; [by rewrite canonicalize_zero in Hc|].
      destruct (magnitude_exists s ltac:(lia)) as [d Hd]. rewrite (canonicalize_exact s e d) in Hc by (done || lia).
      unfold canonical in Hc. by repeat case_bool_decide.
  - intros c. rewrite Hr. destruct (decide (s = 0)) as [->|]; [|apply canonicalize_rounds; lia].
    rewrite canonicalize_zero by done. destruct c as [m' e']; cbn. split.
    + intros [= <- <-]. left. split; [done|]. unfold MIN_MANTISSA. lia.
    + intros [[[= -> ->] _]|[[[[Hm _] _] [[Hle Hz]|[_ Hz]]] _]]; [done|..]; cbn in *;
        rewrite ?Zdiv_0_l, ?Z.mul_0_l in Hz; unfold MIN_MANTISSA in Hm; lia.
Qed.

(** C24: Addition and subtraction are exact up to the 16 leading digits. Neither panics; a result is
    the leading digits of the exact sum or difference, and zero only when that is zero or, for a
    difference, below the smallest amount. *)
Theorem amount_arithmetic_exact (a b : XRPLTokenAmount) :
  wf a → wf b →
  let e := lowest a b in
  let m := at_exponent a e in let n := at_exponent b e in
  add a b ≠ Panic ∧ sub a b ≠ Panic ∧
  (∀ c, add a b = Ok c ↔ comparable a b ∧ m + n ≤ u256_max ∧
     (c = mkAmount 0 1 ∧ m + n = 0 ∨ rounds c (m + n) e ∧ (e = MIN_EXPONENT → m + n ≤ MAX_MANTISSA))) ∧
  (∀ c, sub a b = Ok c ↔ comparable a b ∧ n ≤ m ∧
     (c = mkAmount 0 1 ∧ (m - n) * 10 ^ (e - MIN_EXPONENT) < MIN_MANTISSA ∨
      rounds c (m - n) e ∧ (e = MIN_EXPONENT → m - n ≤ MAX_MANTISSA))).
Proof.
  intros Ha Hb e m n. pose proof (wf_exponent a Ha). pose proof (wf_exponent b Hb).
  assert (MIN_EXPONENT ≤ e ≤ MAX_EXPONENT) as He by (unfold e, lowest; lia).
  assert (0 ≤ m ∧ 0 ≤ n) as [Hm Hn] by (split; by apply at_exponent_nonneg).
  assert (m ≠ 0 → MIN_MANTISSA ≤ m) by (apply at_exponent_large; [done|unfold e, lowest; lia]).
  assert (n ≠ 0 → MIN_MANTISSA ≤ n) by (apply at_exponent_large; [done|unfold e, lowest; lia]).
  unfold add, sub.
  destruct (scale_to_min_exponent_spec a b Ha Hb) as [[Hc ->]|[Hc [-> | ->]]];
    cbn [mbind result_bind]; [|naive_solver..].
  assert (m ≤ u256_max ∧ n ≤ u256_max) as [Hm' Hn'] by (by destruct Hc as [[_ ?] [_ ?]]).
  fold e m n. split_and!.
  - unfold checked_add. destruct (bool_decide_reflect (m + n ≤ u256_max)); [|done].
    apply (canonicalize_new (m + n) e); lia.
  - destruct (bool_decide_reflect (m < n)); [done|].
    rewrite (proj2 (checked_sub_Some m n (m - n))) by lia. apply (canonicalize_new (m - n) e); lia.
  - intros c. unfold checked_add. destruct (bool_decide_reflect (m + n ≤ u256_max)); cbn [ok_or mbind result_bind];
      [|naive_solver].
    rewrite (proj2 (canonicalize_new (m + n) e ltac:(lia) He)).
    assert ((m + n) * 10 ^ (e - MIN_EXPONENT) < MIN_MANTISSA ↔ m + n = 0) as Hsmall; [|naive_solver].
    pose proof (Z.pow_pos_nonneg 10 (e - MIN_EXPONENT)). unfold MIN_MANTISSA in *. split; [|nia].
    intros Hlt. clearbody m n. nia.
  - intros c. destruct (bool_decide_reflect (m < n)); [naive_solver lia|].
    rewrite (proj2 (checked_sub_Some m n (m - n))) by lia. cbn [ok_or mbind result_bind].
    rewrite (proj2 (canonicalize_new (m - n) e ltac:(lia) He)). assert (n ≤ m) by lia. naive_solver.
Qed.

(** *** The serialized form *)

(** Reading the fields of the 64 bits back. *)
Definition read_bytes (b : string) : Z * Z :=
  let v := be_val (text_of b) in (v mod 2 ^ 54, v / 2 ^ 54 mod 2 ^ 8 - 97).

Lemma as_bytes_fields m e :
  in_ranges m e →
  as_bytes (mkAmount m e) = Ok (to_be_bytes 8 (3 * 2 ^ 62 + (e + 97) * 2 ^ 54 + m)).
Proof.
  intros [Hm He]. unfold as_bytes; cbn [mantissa exponent].
  unfold MIN_MANTISSA, MAX_MANTISSA, MIN_EXPONENT, MAX_EXPONENT in *.
  rewrite bool_decide_eq_false_2 by lia. rewrite i64_checked_Some by (unfold is_i64; lia).
  cbn [ok_or mbind result_bind]. rewrite bool_decide_eq_true_2 by lia. cbn [ok_or mbind result_bind].
  rewrite Z.shiftl_mul_pow2 by lia. rewrite (Z.mod_small ((e + 97) * 2 ^ 54)) by lia. do 2 f_equal.
  assert (Z.lor 0xC000000000000000 ((e + 97) * 2 ^ 54) = 3 * 2 ^ 62 + (e + 97) * 2 ^ 54) as ->.
  { rewrite <-Z.lxor_lor, <-Z.add_nocarry_lxor; [done|..].
    all: rewrite <-Z.shiftl_mul_pow2 by lia; change 0xC000000000000000 with (Z.shiftl 768 54);
         rewrite <-Z.shiftl_land; apply Z.shiftl_eq_0_iff; [lia|].
    all: change 768 with (Z.shiftl 3 8); apply Z.bits_inj'; intros i Hi;
         rewrite Z.land_spec, Z.bits_0, Z.shiftl_spec by done;
         destruct (Z.lt_ge_cases i 8); [by rewrite Z.testbit_neg_r by lia|];
         rewrite (Z.bits_above_log2 (e + 97)), andb_false_r; [done|lia|];
         assert (Z.log2 (e + 97) < 8) by (apply Z.log2_lt_pow2; lia); lia. }
  replace (3 * 2 ^ 62 + (e + 97) * 2 ^ 54) with (Z.shiftl (768 + (e + 97)) 54)
    by (rewrite Z.shiftl_mul_pow2 by lia; lia).
  assert (Z.land (Z.shiftl (768 + (e + 97)) 54) m = 0) as Hz.
  { apply Z.bits_inj'. intros i Hi. rewrite Z.land_spec, Z.bits_0, Z.shiftl_spec by done.
    destruct (Z.lt_ge_cases i 54); [by rewrite Z.testbit_neg_r by lia|].
    rewrite (Z.bits_above_log2 m), andb_false_r; [done|lia|].
    assert (Z.log2 m < 54) by (apply Z.log2_lt_pow2; lia). lia. }
  by rewrite <-Z.lxor_lor, <-Z.add_nocarry_lxor.
Qed.

(** The serialized form keeps the amount: mantissa and exponent can be read back from the bytes of a
    nonzero amount, and no nonzero amount has the bytes of zero. *)
Theorem token_amount_bytes_roundtrip (m e : Z) :
  in_ranges m e →
  ∃ b, as_bytes (mkAmount m e) = Ok b ∧ String.length b = 8%nat ∧ read_bytes b = (m, e) ∧
    ∀ e', as_bytes (mkAmount 0 e') ≠ Ok b.
Proof.
  intros Hr. rewrite (as_bytes_fields m e Hr). destruct Hr as [Hm He].
  unfold MIN_MANTISSA, MAX_MANTISSA, MIN_EXPONENT, MAX_EXPONENT in *.
  set (v := 3 * 2 ^ 62 + (e + 97) * 2 ^ 54 + m).
  assert (0 ≤ v < 256 ^ Z.of_nat 8) as Hv by (subst v; change (256 ^ Z.of_nat 8) with (2 ^ 64); lia).
  pose proof (be_val_to_be_bytes 8 v Hv) as Hval.
  exists (to_be_bytes 8 v). split; [done|]. split; [apply to_be_bytes_length|]. split.
  - unfold read_bytes. rewrite Hval. subst v.
    replace (3 * 2 ^ 62 + (e + 97) * 2 ^ 54 + m) with (m + (3 * 2 ^ 8 + (e + 97)) * 2 ^ 54) by lia.
    rewrite Z.mod_add, Z.div_add, (Z.mod_small m), (Z.div_small m) by lia.
    rewrite Z.add_0_l, Z.add_comm, Z.mod_add, Z.mod_small by lia. f_equal. lia.
  - intros e' Heq. unfold as_bytes in Heq; cbn [mantissa] in Heq. rewrite bool_decide_eq_true_2 in Heq by done.
    apply Ok_inj in Heq. apply (f_equal (λ b, be_val (text_of b))) in Heq.
    rewrite Hval, be_val_to_be_bytes in Heq by (change (256 ^ Z.of_nat 8) with (2 ^ 64); lia).
    subst v. lia.
Qed.

(** *** Decimals *)

(** An amount at a number of decimals is its value, rounded down; the failures are the values
    above 256 bits. *)
Lemma scale_to_decimals_spec m e d n :
  in_ranges m e → 0 ≤ d ≤ u8_max →
  scale_to_decimals (mkAmount m e) d = Ok n ↔
  (0 ≤ e + d ∧ n = m * 10 ^ (e + d) ∧ n ≤ u256_max) ∨ (e + d < 0 ∧ n = m / 10 ^ (- (e + d))).
Proof.
  intros [Hm He] Hd. unfold scale_to_decimals; cbn [mantissa exponent].
  unfold MIN_MANTISSA, MAX_MANTISSA, MIN_EXPONENT, MAX_EXPONENT, u8_max in *.
  rewrite bool_decide_eq_false_2 by lia. rewrite i64_checked_Some by (unfold is_i64; lia).
  cbn [ok_or mbind result_bind]. unfold u32_try_from, checked_pow10.
  destruct (bool_decide_reflect (0 ≤ e + d)) as [Hpos|Hneg].
  - rewrite bool_decide_eq_true_2 by (unfold u32_max; lia). cbn [ok_or mbind result_bind].
    pose proof (Z.pow_pos_nonneg 10 (e + d)).
    destruct (bool_decide_reflect (10 ^ (e + d) ≤ u256_max)); cbn [ok_or mbind result_bind].
    + rewrite ok_or_Ok. unfold checked_mul. case_bool_decide; split; try done.
      * intros [= <-]. left. done.
      * intros [(_ & -> & _)|[? _]]; [done|lia].
      * intros [(_ & -> & ?)|[? _]]; [done|lia].
    + split; [done|]. intros [(_ & -> & ?)|[? _]]; [nia|lia].
  - rewrite i64_checked_Some by (unfold is_i64; lia). cbn [ok_or mbind result_bind].
    rewrite bool_decide_eq_true_2 by (unfold u32_max; lia). cbn [ok_or mbind result_bind].
    pose proof (Z.pow_pos_nonneg 10 (- (e + d))).
    destruct (bool_decide_reflect (10 ^ (- (e + d)) ≤ u256_max)) as [Hf|Hf].
    + unfold checked_div. rewrite bool_decide_eq_false_2 by lia. cbn [ok_or]. naive_solver lia.
    + rewrite Z.div_small by (unfold u256_max in *; lia). naive_solver lia.
Qed.

(** An amount survives the trip to a number of decimals that holds all of its digits. *)
Theorem decimals_roundtrip (m e d n : Z) :
  in_ranges m e → 0 ≤ d < - MIN_EXPONENT → 0 ≤ e + d →
  scale_to_decimals (mkAmount m e) d = Ok n → canonicalize_token_amount n d = Ok (mkAmount m e).
Proof.
  intros Hr Hd Hpos Hn.
  assert (0 ≤ d ≤ u8_max) as Hu by (unfold u8_max, MIN_EXPONENT in *; lia).
  rewrite (scale_to_decimals_spec m e d n Hr Hu) in Hn.
  destruct Hn as [(_ & -> & Hfit)|[? _]]; [|lia]. unfold canonicalize_token_amount.
  unfold MIN_EXPONENT in Hd. rewrite i64_checked_Some by (unfold is_i64; lia). cbn [ok_or mbind result_bind].
  assert (0 < m) by (destruct Hr as [[? _] _]; unfold MIN_MANTISSA in *; lia).
  pose proof (Z.pow_pos_nonneg 10 (e + d)).
  apply (canonicalize_new (m * 10 ^ (e + d)) (- d)); [nia|unfold MIN_EXPONENT, MAX_EXPONENT; lia|].
  right. split; [|unfold MIN_EXPONENT; lia]. split; [done|]. left. cbn. split; [lia|].
  replace (e - - d) with (e + d) by lia. by rewrite Z.div_mul by lia.
Qed.

(** *** Drops *)

Lemma drops_convert v d :
  0 ≤ v → convert_scaled_uint256_to_drops v = Ok d ↔ d = v ∧ v ≤ XRP_MAX_UINT.
Proof.
  intros Hv. unfold convert_scaled_uint256_to_drops, convert_scaled_uint256_to_u64, XRP_MAX_UINT.
  case_bool_decide; [naive_solver lia|]. rewrite Z.mod_small by lia. naive_solver lia.
Qed.

(** The conversion to drops splits the amount into drops and dust, exactly. *)
Lemma scale_to_drops_spec s d drops dust :
  0 ≤ s ≤ u256_max → XRP_DECIMALS ≤ d ≤ 82 →
  scale_to_drops s d = Ok (drops, dust) ↔
  s = drops * 10 ^ (d - XRP_DECIMALS) + dust ∧ 0 ≤ dust < 10 ^ (d - XRP_DECIMALS) ∧
  0 ≤ drops ≤ XRP_MAX_UINT.
Proof.
  intros Hs Hd. unfold scale_to_drops, XRP_DECIMALS, XRP_MAX_UINT in *.
  assert (10 ^ (d - 6) ≤ 10 ^ 76) by (apply pow10_le; lia).
  assert (10 ^ 76 < u256_max) by by vm_compute. pose proof (Z.pow_pos_nonneg 10 (d - 6)).
  destruct (bool_decide_reflect (s = 0)) as [->|]; [split; [naive_solver lia|]|].
  { intros (Heq & ? & ?). assert (drops = 0 ∧ dust = 0) as [-> ->] by nia. done. }
  rewrite bool_decide_eq_false_2 by lia.
  destruct (bool_decide_reflect (d = 6)) as [->|].
  { rewrite bind_Ok. setoid_rewrite drops_convert; [|lia]. unfold XRP_MAX_UINT. change (10 ^ (6 - 6)) with 1.
    split; [intros (? & [-> ?] & [= <- <-]); lia|]. intros (? & ? & ?).
    exists s. split; [lia|]. do 2 f_equal; lia. }
  unfold checked_pow10. rewrite Z.abs_eq by lia. rewrite !bool_decide_eq_true_2 by lia. cbn [ok_or mbind result_bind].
  unfold checked_div. rewrite bool_decide_eq_false_2 by lia.
  cbn [ok_or mbind result_bind]. pose proof (Z.div_mod s (10 ^ (d - 6)) ltac:(lia)) as Hdm.
  pose proof (Z.mod_pos_bound s (10 ^ (d - 6)) ltac:(lia)). unfold checked_mul.
  rewrite bool_decide_eq_true_2 by lia. cbn [ok_or mbind result_bind].
  rewrite (proj2 (checked_sub_Some s _ (s mod 10 ^ (d - 6)))) by lia. cbn [ok_or mbind result_bind].
  assert (0 ≤ s / 10 ^ (d - 6)) as Hq by (apply Z.div_pos; lia).
  rewrite bind_Ok. setoid_rewrite drops_convert; [|done]. unfold XRP_MAX_UINT. split.
  - intros (? & [-> ?] & [= <- <-]). lia.
  - intros (Heq & Hdust & Hdrops). exists (s / 10 ^ (d - 6)).
    rewrite Heq, (Z.add_comm _ dust), Z.div_add, Z.mod_add, Z.div_small, Z.mod_small by lia. split; [lia|]. do 2 f_equal; lia.
Qed.

(** XRP survives the trip to a chain with at least its six decimals, without dust. *)
Theorem drops_roundtrip (drops d v : Z) :
  0 ≤ drops → XRP_DECIMALS ≤ d → scale_from_drops drops d = Ok v → scale_to_drops v d = Ok (drops, 0).
Proof.
  intros H0 Hd Hv. unfold scale_from_drops in Hv.
  destruct (bool_decide_reflect (XRP_MAX_UINT < drops)); [done|].
  destruct (bool_decide_reflect (82 < d)); [done|].
  pose proof (Z.pow_pos_nonneg 10 (d - XRP_DECIMALS)).
  assert (v = drops * 10 ^ (d - XRP_DECIMALS) ∧ v ≤ u256_max) as [-> Hu].
  { destruct (bool_decide_reflect (XRP_DECIMALS = d)) as [<-|]; [injection Hv as <-; rewrite Z.sub_diag|].
    { unfold XRP_MAX_UINT, u256_max in *. lia. }
    apply bind_Ok in Hv as (f & Hf & Hv). apply ok_or_Ok in Hf. unfold checked_pow10 in Hf.
    destruct (bool_decide_reflect (10 ^ Z.abs (XRP_DECIMALS - d) ≤ u256_max)); [|done].
    injection Hf as <-. rewrite bool_decide_eq_false_2 in Hv by lia. apply ok_or_Ok in Hv.
    unfold checked_mul in Hv. case_bool_decide; [|done]. injection Hv as <-.
    replace (Z.abs (XRP_DECIMALS - d)) with (d - XRP_DECIMALS) in * by lia. done. }
  apply scale_to_drops_spec; [nia|lia|]. lia.
Qed.

(** *** Text *)

(** [Uint256::from_str] of [cosmwasm_std]. *)
Class Uint256Text := {
  uint256_from_str : text → result string Z;
  uint256_range : ∀ l n, uint256_from_str l = Ok n → 0 ≤ n ≤ u256_max;
  uint256_from_print : ∀ n, 0 ≤ n ≤ u256_max → uint256_from_str (print_uint n) = Ok n
}.

(** The text around the first character of a class. *)
Fixpoint split_where (p : ascii → bool) (l : text) : option (text * text) :=
  match l with
  | [] => None
  | c :: l => if p c then Some ([], l) else '(before, after) ← split_where p l; Some (c :: before, after)
  end.

(** [i64::from_str] *)
Definition parse_i64 (l : text) : option Z :=
  match l with
  | "-"%char :: ((_ :: _) as l) => Z.opp <$> parse_digits (2 ^ 63) 0 l
  | _ => parse_uint (2 ^ 63 - 1) l
  end.
Definition print_i64 (z : Z) : text :=
  if bool_decide (z < 0) then "-"%char :: print_uint (- z) else print_uint z.

Definition to_string (a : XRPLTokenAmount) : text :=
  print_uint (mantissa a) ++ "e"%char :: print_i64 (exponent a).

Definition is_exp_separator (c : ascii) : bool := bool_decide (c = "e"%char ∨ c = "E"%char).

Section text.
Context `{Uint256Text}.

Definition from_str (s : text) : result XRPLError XRPLTokenAmount :=
  '(base_part, exponent_value) ←
    match split_where is_exp_separator s with
    | None => Ok (s, 0)
    | Some (base, exp) =>
        e ← ok_or (InvalidTokenAmount "invalid exponent") (parse_i64 exp); Ok (base, e)
    end;
  _ ← ensure (negb (bool_decide (base_part = []))) (InvalidTokenAmount "base part empty");
  let '(digits, decimal_offset) :=
    match split_where (λ c, bool_decide (c = "."%char)) base_part with
    | None => (base_part, 0)
    | Some (lead, trail) =>
        (lead ++ trail, Z.of_nat (length (filter (λ c, c ≠ "_"%char) trail)))
    end in
  exponent ← ok_or (InvalidTokenAmount "overflow") (i64_checked (exponent_value - decimal_offset));
  _ ← ensure (negb (bool_decide (head digits = Some "-"%char))) (InvalidTokenAmount "negative amount");
  let digits := if bool_decide (head digits = Some "+"%char) then tail digits else digits in
  mantissa ← map_err InvalidTokenAmount (uint256_from_str digits);
  '(mantissa, exponent) ← canonicalize_mantissa mantissa exponent;
  new mantissa exponent.

Lemma split_where_None p l : forallb (λ c, negb (p c)) l = true → split_where p l = None.
Proof.
  induction l as [|c l IH]; cbn; [done|]. intros [->%negb_true_iff Hl]%andb_true_iff. by rewrite IH.
Qed.
Lemma split_where_app p l c k :
  forallb (λ c, negb (p c)) l = true → p c = true → split_where p (l ++ c :: k) = Some (l, k).
Proof.
  intros Hl Hc. induction l as [|d l IH]; cbn in *; [by rewrite Hc|].
  apply andb_true_iff in Hl as [->%negb_true_iff Hl]. by rewrite IH.
Qed.

Lemma print_uint_class (p : ascii → bool) n :
  0 ≤ n → (∀ c, is_digit c = true → p c = false) → forallb (λ c, negb (p c)) (print_uint n) = true.
Proof.
  intros Hn Hp. apply forallb_forall. intros c Hc%list_elem_of_In. apply negb_true_iff, Hp.
  by eapply print_uint_digits.
Qed.

Lemma print_uint_nonempty n : 0 ≤ n → print_uint n ≠ [].
Proof. intros Hn Hnil. destruct (print_uint_decimal n Hn) as [Hd _]. by rewrite Hnil in Hd. Qed.

Lemma parse_print_i64 z : - 2 ^ 63 < z ≤ 2 ^ 63 - 1 → parse_i64 (print_i64 z) = Some z.
Proof.
  intros Hz. unfold print_i64. case_bool_decide.
  - pose proof (print_uint_nonempty (- z) ltac:(lia)).
    pose proof (parse_print_uint (2 ^ 63) (- z) ltac:(lia)) as Hp. unfold parse_uint in Hp.
    destruct (print_uint (- z)) as [|c l] eqn:Hl; [done|].
    assert (c ≠ "+"%char) as Hplus.
    { intros ->. assert (is_digit "+" = true); [|done]. apply (print_uint_digits (- z)); [lia|]. rewrite Hl. set_solver. }
    cbn [parse_i64]. destruct l; [|rewrite bool_decide_eq_false_2 in Hp by done]; rewrite Hp; cbn; f_equal; lia.
  - pose proof (parse_print_uint (2 ^ 63 - 1) z ltac:(lia)) as Hp. unfold parse_i64.
    destruct (print_uint z) as [|c l] eqn:Hl; [done|].
    assert (c ≠ "-"%char) as Hminus.
    { intros ->. assert (is_digit "-" = true); [|done]. apply (print_uint_digits z); [lia|]. rewrite Hl. set_solver. }
    destruct c as [[] [] [] [] [] [] [] []]; try done.
Qed.

(** The text of an amount reads back as the amount; every form of zero reads back as [(0, 1)]. *)
Theorem token_amount_text_roundtrip (a : XRPLTokenAmount) :
  wf a → from_str (to_string a) = Ok (if is_zero a then mkAmount 0 1 else a).
Proof.
  intros Ha. destruct a as [m e]. destruct Ha as [Hm He]; cbn [mantissa exponent] in *.
  unfold MIN_MANTISSA, MAX_MANTISSA, MIN_EXPONENT, MAX_EXPONENT in Hm, He.
  assert (0 ≤ m ≤ u256_max) as Hu by (unfold u256_max; lia).
  unfold from_str, to_string; cbn [mantissa exponent].
  rewrite split_where_app; [|apply print_uint_class; [lia|]|done].
  2: { intros c. unfold is_exp_separator. destruct c as [[] [] [] [] [] [] [] []]; done. }
  rewrite parse_print_i64 by lia. cbn [ok_or mbind result_bind].
  pose proof (print_uint_nonempty m ltac:(lia)) as Hne. rewrite bool_decide_eq_false_2 by done.
  cbn [negb ensure mbind result_bind]. rewrite split_where_None.
  2: { apply print_uint_class; [lia|]. intros c. destruct c as [[] [] [] [] [] [] [] []]; done. }
  rewrite Z.sub_0_r, i64_checked_Some by (unfold is_i64; lia). cbn [ok_or mbind result_bind].
  assert (∀ c, is_digit c = false → head (print_uint m) ≠ Some c) as Hhead.
  { intros c Hc Hh. destruct (print_uint m) as [|c' l] eqn:Hl; [done|]. injection Hh as ->.
    assert (is_digit c = true); [|congruence]. apply (print_uint_digits m); [lia|]. rewrite Hl. set_solver. }
  rewrite !bool_decide_eq_false_2 by by apply Hhead. cbn [negb ensure mbind result_bind].
  rewrite uint256_from_print by done. cbn [map_err mbind result_bind]. unfold is_zero; cbn [mantissa].
  apply (canonicalize_new m e); [done|unfold MIN_EXPONENT, MAX_EXPONENT; lia|].
  case_bool_decide as Hz; [left|right].
  - split; [done|]. subst m. by vm_compute.
  - unfold rounds, in_ranges, MIN_MANTISSA, MAX_MANTISSA, MIN_EXPONENT, MAX_EXPONENT; cbn.
    split; [|lia]. split; [lia|]. left. split; [lia|]. rewrite Z.sub_diag, Z.div_1_r. done.
Qed.

End text.
End xrpl_amount.

(** ** Concrete amounts *)
Module xrpl_amount_run.
Import xrpl_amount.

(** One unit, and the smallest amount. *)
Definition one : XRPLTokenAmount := mkAmount (10 ^ 15) (-15).
Definition smallest : XRPLTokenAmount := mkAmount (10 ^ 15) (-96).

Lemma one_wf : wf one.
Proof. split; vm_compute; [right|]; done. Qed.
Lemma smallest_wf : wf smallest.
Proof. split; vm_compute; [right|]; done. Qed.

Lemma canonicalize_exact_witness : canonicalize_mantissa 1234567891234567891 (-18) = Ok (1234567891234567, -15).
Proof.
  rewrite (canonicalize_exact 1234567891234567891 (-18) 18); [by vm_compute|by vm_compute..].
Defined.

Lemma canonicalize_terminates_witness : scale_up 1000 0 1000 = Ok (0, 0) ∧ up_runs 0 0.
Proof.
  destruct (canonicalize_terminates 0 1000) as [_ Hz]; [by vm_compute|by vm_compute|].
  apply (Hz eq_refl 1000%nat). by vm_compute.
Defined.

(** Comparing one unit with the smallest amount panics. *)
Lemma partial_cmp_exact_witness :
  ¬ comparable one smallest ∧ ∀ E, @partial_cmp E one smallest = Panic.
Proof.
  destruct (partial_cmp_exact one smallest one_wf smallest_wf) as [[[[H _] _] _]|H]; [|exact H].
  by vm_compute in H.
Defined.

Lemma amount_arithmetic_exact_witness :
  add one (mkAmount 5000000000000000 (-14)) = Ok (mkAmount 5100000000000000 (-14)).
Proof.
  assert (wf (mkAmount 5000000000000000 (-14))) as Hb by (split; vm_compute; [right|]; done).
  apply (amount_arithmetic_exact one (mkAmount 5000000000000000 (-14)) one_wf Hb).
  split; [by vm_compute|]. split; [by vm_compute|]. right.
  split; [split; [by vm_compute|left; by vm_compute]|by vm_compute].
Defined.

Lemma token_amount_bytes_roundtrip_witness :
  ∃ b, as_bytes one = Ok b ∧ String.length b = 8%nat ∧ read_bytes b = (10 ^ 15, -15) ∧
    ∀ e', as_bytes (mkAmount 0 e') ≠ Ok b.
Proof. apply (token_amount_bytes_roundtrip (10 ^ 15) (-15)). by vm_compute. Defined.

Lemma decimals_roundtrip_witness : canonicalize_token_amount (10 ^ 18) 18 = Ok one.
Proof. apply (decimals_roundtrip (10 ^ 15) (-15) 18 (10 ^ 18)); by vm_compute. Defined.

Lemma drops_roundtrip_witness : scale_to_drops (10 ^ 18) 18 = Ok (10 ^ 6, 0).
Proof. apply (drops_roundtrip (10 ^ 6) 18 (10 ^ 18)); by vm_compute. Defined.

Definition run_uint256 : Uint256Text.
Proof.
  refine {| uint256_from_str l :=
              match parse_uint u256_max l with Some n => Ok (Z.max 0 (Z.min n u256_max)) | None => Err "digit" end |}.
  - intros l n. destruct (parse_uint _ _) as [k|]; [|done]. intros [= <-]. unfold u256_max. lia.
  - intros n Hn. rewrite parse_print_uint by done. f_equal. lia.
Defined.
#[local] Existing Instance run_uint256.

Lemma token_amount_text_roundtrip_witness :
  from_str (text_of "1000000000000000e-15") = Ok one ∧ from_str (text_of "0e0") = Ok (mkAmount 0 1).
Proof.
  split; [exact (token_amount_text_roundtrip one one_wf)|].
  refine (token_amount_text_roundtrip ZERO _). split; vm_compute; [left|]; done.
Defined.

End xrpl_amount_run.

(** ** Accounts, currencies, payments and transactions *)

(** The hash functions and the base 58 codec with Ripple's alphabet. *)
Class XrplCrypto := {
  sha256 : string → string;
  sha512 : string → string;
  ripemd160 : string → string;
  ripple_encode : string → string;
  ripple_decode : string → option string
}.
Class XrplCryptoLaws `{XrplCrypto} : Prop := {
  sha256_length s : String.length (sha256 s) = 32%nat;
  sha512_length s : String.length (sha512 s) = 64%nat;
  ripple_decode_encode s : ripple_decode (ripple_encode s) = Some s
}.

Module xrpl_types.
Export xrpl_amount.

(** *** Transaction status *)

Inductive XRPLTxStatus := Pending | Succeeded | TxFailedOnChain | Inconclusive.
#[global] Instance XRPLTxStatus_eq_dec : EqDecision XRPLTxStatus.
Proof. solve_decision. Defined.

Definition status_from (val : VerificationStatus) : XRPLTxStatus :=
  match val with
  | SucceededOnSourceChain => Succeeded
  | FailedOnSourceChain => TxFailedOnChain
  | NotFoundOnSourceChain | FailedToVerify | StatusInProgress | StatusUnknown => Inconclusive
  end.

(** *** Accounts: 20 bytes *)

Notation XRPLAccountId := string (only parsing).

Section accounts.
Context `{XrplCrypto}.

Definition account_to_string (a : XRPLAccountId) : string :=
  let payload := String zero a in
  let checksum := String.substring 0 4 (sha256 (sha256 payload)) in
  ripple_encode (payload +:+ checksum).

Definition account_from_str (address : string) : result XRPLError XRPLAccountId :=
  res ← ok_or (InvalidAddress address) (ripple_decode address);
  if bool_decide (String.length res ≠ 25%nat) then Err (InvalidAddress address)
  else Ok (String.substring 1 20 res).

(** [From<&PublicKey>] *)
Definition account_of_key {E} (pub_key : key.PublicKey) : result E XRPLAccountId :=
  let public_key_hex := key.pub_key_bytes pub_key in
  _ ← assert_true (bool_decide (String.length public_key_hex = 33%nat));
  Ok (ripemd160 (sha256 public_key_hex)).

End accounts.

Definition account_try_from_hex (hex : string) (hex_string : string) : result XRPLError XRPLAccountId :=
  if bool_decide (String.length hex = 20%nat) then Ok hex else Err (InvalidAddress hex_string).

(** *** Currencies: 20 bytes *)

Notation XRPLCurrency := string (only parsing).

Definition zeros (n : nat) : string := String.string_of_list_ascii (replicate n zero).

Definition XRP_RESERVED_CURRENCY : XRPLCurrency := zeros 12 +:+ "XRP" +:+ zeros 5.
Definition ZERO_RESERVED_CURRENCY : XRPLCurrency := zeros 20.

(** The characters of standard currency codes. *)
Definition is_currency_char (c : ascii) : bool :=
  in_range "A" "Z" c || in_range "a" "z" c || is_digit c ||
  bool_decide (c ∈ text_of "?!@#$%^&*<>(){}[]|").
Definition is_any_hex (c : ascii) : bool := in_range "A" "F" c || in_range "a" "f" c || is_digit c.

Definition STANDARD_CURRENCY_CODE_REGEX (l : text) : bool :=
  bool_decide (length l = 3%nat) && forallb is_currency_char l.
Definition NON_STANDARD_CURRENCY_CODE_REGEX (l : text) : bool :=
  bool_decide (length l = 40%nat) && forallb is_any_hex l.

Section currencies.
Context `{HexCodec}.

Definition parse_standard (s : string) : option XRPLCurrency :=
  if STANDARD_CURRENCY_CODE_REGEX (text_of s) then Some (zeros 12 +:+ s +:+ zeros 5) else None.

Definition parse_non_standard (s : string) : option XRPLCurrency :=
  if NON_STANDARD_CURRENCY_CODE_REGEX (text_of s) &&
     negb (bool_decide (take 2 (text_of s) = ["0"%char; "0"%char]))
  then
    b ← from_hex (text_of s);
    b ← msg_id.to_array 20 b;
    Some (String.string_of_list_ascii b)
  else None.

Definition is_reserved (bytes : XRPLCurrency) : bool :=
  bool_decide (bytes = XRP_RESERVED_CURRENCY) || bool_decide (bytes = ZERO_RESERVED_CURRENCY).

Definition currency_new (s : string) : result XRPLError XRPLCurrency :=
  bytes ← ok_or (InvalidCurrency s)
    (match parse_standard s with Some b => Some b | None => parse_non_standard s end);
  if is_reserved bytes then Err (ReservedCurrency s) else Ok bytes.

(** [Display] panics on a standard code that is not text. *)
Definition currency_to_string {E} (c : XRPLCurrency) : result E string :=
  if bool_decide (String.get 0 c = Some zero)
  then expect (utf8.from_utf8 (String.substring 12 3 c))
  else Ok (String.string_of_list_ascii (to_hex (text_of c))).

End currencies.

(** *** Tokens *)

Record XRPLToken := mkToken { issuer : XRPLAccountId; currency : XRPLCurrency }.
#[global] Instance XRPLToken_eq_dec : EqDecision XRPLToken.
Proof. solve_decision. Defined.

Inductive XRPLTokenOrXrp := Xrp | IssuedToken (token : XRPLToken).

Definition token_as_bytes (t : XRPLToken) : string := issuer t +:+ currency t.
Definition token_is_local (t : XRPLToken) (xrpl_multisig : XRPLAccountId) : bool :=
  bool_decide (issuer t ≠ xrpl_multisig).
Definition token_is_remote (t : XRPLToken) (xrpl_multisig : XRPLAccountId) : bool :=
  negb (token_is_local t xrpl_multisig).

(** [KeyDeserialize] *)
Definition token_from_vec (value : string) : result StdError XRPLToken :=
  if bool_decide (String.length value ≠ 40%nat) then Err (GenericErr "Invalid key length for XRPLToken")
  else Ok (mkToken (String.substring 0 20 value) (String.substring 20 20 value)).

Section tokens.
Context `{HexCodec} `{XrplCrypto}.

Definition token_serialize {E} (t : XRPLToken) : result E string :=
  c ← currency_to_string (currency t); Ok (c +:+ "." +:+ account_to_string (issuer t)).

Definition serialize {E} (t : XRPLTokenOrXrp) : result E string :=
  match t with Xrp => Ok "XRP" | IssuedToken token => token_serialize token end.

Definition decimals (t : XRPLTokenOrXrp) : Z :=
  match t with Xrp => XRP_DECIMALS | IssuedToken _ => XRPL_ISSUED_TOKEN_DECIMALS end.

Definition is_local (t : XRPLTokenOrXrp) (xrpl_multisig : XRPLAccountId) : bool :=
  match t with Xrp => true | IssuedToken token => token_is_local token xrpl_multisig end.

End tokens.

(** *** Payment amounts *)

Inductive XRPLPaymentAmount :=
  | Drops (drops : Z)
  | Issued (token : XRPLToken) (amount : XRPLTokenAmount).
#[global] Instance XRPLPaymentAmount_eq_dec : EqDecision XRPLPaymentAmount.
Proof. solve_decision. Defined.

Definition payment_partial_cmp {E} (a b : XRPLPaymentAmount) : result E (option comparison) :=
  match a, b with
  | Drops x, Drops y => Ok (Some (x ?= y)%Z)
  | Issued t x, Issued u y =>
      if bool_decide (t = u) then c ← partial_cmp x y; Ok (Some c) else Ok None
  | _, _ => Ok None
  end.

(** [a <= b] *)
Definition payment_le {E} (a b : XRPLPaymentAmount) : result E bool :=
  c ← payment_partial_cmp a b;
  Ok (match c with Some Lt | Some Eq => true | _ => false end).

Definition XRPL_PAYMENT_DROPS_HASH_PREFIX : string := "xrpl-payment-drops".
Definition XRPL_PAYMENT_ISSUED_HASH_PREFIX : string := "xrpl-payment-issued".

(** [to_be_bytes] of a signed integer is its two's complement. *)
Definition payment_preimage (a : XRPLPaymentAmount) : string :=
  match a with
  | Drops drops => XRPL_PAYMENT_DROPS_HASH_PREFIX +:+ router_api.delimiter +:+ to_be_bytes 8 drops
  | Issued t x =>
      XRPL_PAYMENT_ISSUED_HASH_PREFIX +:+ router_api.delimiter +:+ issuer t +:+ router_api.delimiter +:+
      currency t +:+ router_api.delimiter +:+ to_be_bytes 8 (mantissa x) +:+ router_api.delimiter +:+
      to_be_bytes 8 (exponent x mod 2 ^ 64)
  end.

Definition payment_hash `{Crypto} (a : XRPLPaymentAmount) : string := keccak256 (payment_preimage a).

Definition zeroize (a : XRPLPaymentAmount) : XRPLPaymentAmount :=
  match a with Drops _ => Drops 0 | Issued t _ => Issued t ZERO end.

Definition payment_is_zero (a : XRPLPaymentAmount) : bool :=
  match a with Drops d => bool_decide (d = 0) | Issued _ x => is_zero x end.

Definition payment_add (a b : XRPLPaymentAmount) : result XRPLError XRPLPaymentAmount :=
  match a, b with
  | Drops x, Drops y => s ← ok_or AdditionOverflow (checked_add u64_max x y); Ok (Drops s)
  | Issued t x, Issued u y =>
      if bool_decide (t = u) then s ← add x y; Ok (Issued t s) else Err IncompatibleTokens
  | _, _ => Err IncompatibleTokens
  end.

Definition payment_sub (a b : XRPLPaymentAmount) : result XRPLError XRPLPaymentAmount :=
  match a, b with
  | Drops x, Drops y => s ← ok_or SubtractionUnderflow (checked_sub x y); Ok (Drops s)
  | Issued t x, Issued u y =>
      if bool_decide (t = u) then s ← sub x y; Ok (Issued t s) else Err IncompatibleTokens
  | _, _ => Err IncompatibleTokens
  end.

(** *** Transactions of the multisig account *)

Inductive XRPLSequence := Plain (sequence : Z) | Ticket (ticket : Z).

Definition sequence_value (s : XRPLSequence) : Z := match s with Plain n | Ticket n => n end.

Record XRPLSignerEntry := mkSignerEntry { signer_account : XRPLAccountId; signer_weight : Z }.

Inductive XRPLPathStep :=
  | StepAccount (account : XRPLAccountId)
  | StepCurrency (currency : XRPLCurrency)
  | StepXRP
  | StepIssuer (issuer : XRPLAccountId)
  | StepToken (token : XRPLToken).

Record XRPLCrossCurrencyOptions := mkCrossCurrency {
  send_max : XRPLPaymentAmount;
  paths : option (list (list XRPLPathStep))
}.

Record XRPLPaymentTx := mkPaymentTx {
  payment_account : XRPLAccountId;
  payment_fee : Z;
  payment_sequence : XRPLSequence;
  payment_amount : XRPLPaymentAmount;
  payment_destination : XRPLAccountId;
  cross_currency : option XRPLCrossCurrencyOptions;
  payment_cc_id : option router_api.CrossChainId
}.
Record XRPLSignerListSetTx := mkSignerListSetTx {
  signer_list_account : XRPLAccountId;
  signer_list_fee : Z;
  signer_list_sequence : XRPLSequence;
  signer_quorum : Z;
  signer_entries : list XRPLSignerEntry
}.
Record XRPLTicketCreateTx := mkTicketCreateTx {
  ticket_account : XRPLAccountId;
  ticket_fee : Z;
  ticket_sequence : XRPLSequence;
  ticket_count : Z
}.
Record XRPLTrustSetTx := mkTrustSetTx {
  trust_token : XRPLToken;
  trust_account : XRPLAccountId;
  trust_fee : Z;
  trust_sequence : XRPLSequence
}.

Inductive XRPLUnsignedTx :=
  | TxPayment (tx : XRPLPaymentTx)
  | TxSignerListSet (tx : XRPLSignerListSetTx)
  | TxTicketCreate (tx : XRPLTicketCreateTx)
  | TxTrustSet (tx : XRPLTrustSetTx).

Inductive XRPLUnsignedTxType := TypePayment | TypeSignerListSet | TypeTicketCreate | TypeTrustSet.

Definition object_count_increment (t : XRPLUnsignedTxType) : Z :=
  match t with TypePayment | TypeSignerListSet | TypeTicketCreate => 0 | TypeTrustSet => 1 end.

Definition fee (tx : XRPLUnsignedTx) : Z :=
  match tx with
  | TxPayment tx => payment_fee tx
  | TxTicketCreate tx => ticket_fee tx
  | TxSignerListSet tx => signer_list_fee tx
  | TxTrustSet tx => trust_fee tx
  end.

Definition sequence (tx : XRPLUnsignedTx) : XRPLSequence :=
  match tx with
  | TxPayment tx => payment_sequence tx
  | TxTicketCreate tx => ticket_sequence tx
  | TxSignerListSet tx => signer_list_sequence tx
  | TxTrustSet tx => trust_sequence tx
  end.

Definition is_sequential (tx : XRPLUnsignedTx) : bool :=
  match sequence tx with Plain _ => true | Ticket _ => false end.

Definition plain_increment (s : XRPLSequence) : Z := match s with Plain _ => 1 | Ticket _ => 0 end.

Definition sequence_number_increment (tx : XRPLUnsignedTx) (status : XRPLTxStatus) : result XRPLError Z :=
  if bool_decide (status = Pending ∨ status = Inconclusive) then Ok 0
  else
    match tx with
    | TxPayment tx => Ok (plain_increment (payment_sequence tx))
    | TxSignerListSet tx => Ok (plain_increment (signer_list_sequence tx))
    | TxTicketCreate tx =>
        match status with
        | Succeeded => ok_or AdditionOverflow (checked_add u32_max (ticket_count tx) 1)
        | TxFailedOnChain => Ok 1
        | Inconclusive | Pending => Panic
        end
    | TxTrustSet tx => Ok (plain_increment (trust_sequence tx))
    end.

(** The unreachable branch is unreachable, and an increment moves past every ticket. *)
Lemma sequence_number_increment_total tx status :
  sequence_number_increment tx status ≠ Panic ∧
  ∀ n, sequence_number_increment tx status = Ok n →
    0 ≤ n ∨ ∃ t, tx = TxTicketCreate t ∧ n = ticket_count t + 1.
Proof.
  unfold sequence_number_increment.
  destruct (bool_decide_reflect (status = Pending ∨ status = Inconclusive)); [naive_solver lia|].
  destruct tx as [t|t|t|t]; [destruct (payment_sequence t)|destruct (signer_list_sequence t)| |
    destruct (trust_sequence t)]; try (split; [done|]; intros k [= <-]; left; cbn; lia).
  destruct status; [naive_solver| |split; [done|]; intros k [= <-]; left; lia|naive_solver].
  split; [by unfold checked_add; case_bool_decide|]. intros k Hk%ok_or_Ok%checked_add_Some. naive_solver.
Qed.

(** *** Hashing *)

Definition SIGNED_TRANSACTION_HASH_PREFIX : string :=
  String.string_of_list_ascii (byte_of <$> [0x54; 0x58; 0x4E; 0x00]).
Definition UNSIGNED_TRANSACTION_MULTI_SIGNING_HASH_PREFIX : string :=
  String.string_of_list_ascii (byte_of <$> [0x53; 0x4D; 0x54; 0x00]).

Section hashing.
Context `{XrplCrypto}.

Definition xrpl_hash (prefix tx_blob : string) : string := String.substring 0 32 (sha512 (prefix +:+ tx_blob)).

Definition hash_signed_tx (encoded_signed_tx : string) : string :=
  xrpl_hash SIGNED_TRANSACTION_HASH_PREFIX encoded_signed_tx.

Definition message_to_sign (encoded_unsigned_tx : string) (signer_address : XRPLAccountId) : string :=
  xrpl_hash UNSIGNED_TRANSACTION_MULTI_SIGNING_HASH_PREFIX (encoded_unsigned_tx +:+ signer_address).

End hashing.

(** *** Texts and bytes *)

Lemma text_of_cons c s : text_of (String c s) = c :: text_of s.
Proof. done. Qed.

Lemma text_of_substring n m s : text_of (String.substring n m s) = take m (drop n (text_of s)).
Proof.
  revert n m. induction s as [|c s IH]; intros n m; [by destruct n, m|].
  destruct n as [|n]; cbn [String.substring]; [|apply IH].
  destruct m as [|m]; [done|]. rewrite !text_of_cons, IH, !drop_0. done.
Qed.

Lemma text_of_list l : text_of (String.string_of_list_ascii l) = l.
Proof. apply String.list_ascii_of_string_of_list_ascii. Qed.

Lemma string_of_text s : String.string_of_list_ascii (text_of s) = s.
Proof. apply String.string_of_list_ascii_of_string. Qed.

Section roundtrips.
Context `{HexCodec} `{XrplCrypto} `{!XrplCryptoLaws}.

(** The address of an account reads back as the account; but of the 25 bytes of an address, the
    parser ignores the version and the checksum. *)
Lemma account_roundtrip a : String.length a = 20%nat → account_from_str (account_to_string a) = Ok a.
Proof.
  intros Ha. unfold account_from_str, account_to_string. rewrite ripple_decode_encode. cbn [ok_or mbind result_bind].
  set (cs := String.substring 0 4 _).
  assert (String.length cs = 4%nat) as Hcs.
  { subst cs. rewrite <-chain.text_of_length, text_of_substring, drop_0, length_take, chain.text_of_length, sha256_length. done. }
  rewrite bool_decide_eq_false_2.
  - f_equal. apply chain.text_of_inj. rewrite text_of_substring, chain.text_of_app, text_of_cons. cbn [app drop]. rewrite drop_0.
    apply take_app_length'. by rewrite chain.text_of_length.
  - intros []. rewrite <-chain.text_of_length, chain.text_of_app, text_of_cons. cbn [app length].
    rewrite length_app, !chain.text_of_length. lia.
Qed.

Lemma account_lenient version a checksum :
  String.length a = 20%nat → String.length checksum = 4%nat →
  account_from_str (ripple_encode (String version (a +:+ checksum))) = Ok a.
Proof.
  intros Ha Hcs. unfold account_from_str. rewrite ripple_decode_encode. cbn [ok_or mbind result_bind].
  rewrite bool_decide_eq_false_2.
  - f_equal. apply chain.text_of_inj. rewrite text_of_substring, text_of_cons, chain.text_of_app. cbn [drop]. rewrite drop_0.
    apply take_app_length'. by rewrite chain.text_of_length.
  - intros []. rewrite <-chain.text_of_length, text_of_cons, chain.text_of_app. cbn [length].
    rewrite length_app, !chain.text_of_length. lia.
Qed.

(** Reading hexadecimal text ignores the case, and only a leading zero byte is printed as [00]. *)
Class HexCaseLaws : Prop := {
  from_hex_lower s : forallb is_any_hex s = true → from_hex s = from_hex (chain.lower <$> s);
  to_hex_leading b : take 2 (to_hex b) = ["0"%char; "0"%char] ↔ head b = Some zero
}.

Lemma is_any_hex_lower l :
  forallb is_any_hex l = true → forallb is_hex (chain.lower <$> l) = true.
Proof.
  rewrite !forallb_forall. intros Hall c Hc%list_elem_of_In. apply list_elem_of_fmap in Hc as (d & -> & Hd%list_elem_of_In).
  specialize (Hall d Hd). clear -Hall. destruct d as [[] [] [] [] [] [] [] []]; by vm_compute in Hall |- *.
Qed.

Lemma is_hex_any l : forallb is_hex l = true → forallb is_any_hex l = true.
Proof.
  rewrite !forallb_forall. intros Hall c Hc. specialize (Hall c Hc). unfold is_hex, is_any_hex in *.
  destruct (is_digit c), (in_range "a" "f" c); try done; by rewrite !orb_true_r.
Qed.

Lemma zeros_text n : text_of (zeros n) = replicate n zero.
Proof. apply text_of_list. Qed.

Lemma currency_ascii l : forallb is_currency_char l = true → utf8.valid l = true.
Proof.
  induction l as [|c l IH]; [done|]. intros [Hc Hl]%andb_true_iff. cbn [utf8.valid].
  assert (utf8.between 0 0x7F c = true) as ->; [|by apply IH].
  clear -Hc. destruct c as [[] [] [] [] [] [] [] []]; by vm_compute in Hc |- *.
Qed.

(** A standard code. *)
Lemma standard_to_string {E} s :
  STANDARD_CURRENCY_CODE_REGEX (text_of s) = true →
  @currency_to_string _ E (zeros 12 +:+ s +:+ zeros 5) = Ok s.
Proof.
  intros [Hl%bool_decide_eq_true Hc]%andb_true_iff. unfold currency_to_string.
  rewrite bool_decide_eq_true_2 by done.
  assert (String.substring 12 3 (zeros 12 +:+ s +:+ zeros 5) = s) as ->.
  { apply chain.text_of_inj. rewrite text_of_substring, !chain.text_of_app, zeros_text.
    rewrite drop_app_length' by done. by rewrite take_app_length'. }
  unfold utf8.from_utf8. by rewrite (currency_ascii _ Hc).
Qed.

(** The lower-case text of a code that is not standard. *)
Lemma non_standard_new b :
  length b = 20%nat → take 2 (to_hex b) ≠ ["0"%char; "0"%char] →
  is_reserved (String.string_of_list_ascii b) = false →
  currency_new (String.string_of_list_ascii (to_hex b)) = Ok (String.string_of_list_ascii b).
Proof.
  intros Hlen Hzz Hres. unfold currency_new, parse_standard, parse_non_standard. rewrite text_of_list.
  unfold STANDARD_CURRENCY_CODE_REGEX, NON_STANDARD_CURRENCY_CODE_REGEX. rewrite !to_hex_length, Hlen.
  rewrite (bool_decide_eq_false_2 (_ = 3%nat)), (bool_decide_eq_true_2 (_ = 40%nat)) by done. cbn [andb].
  rewrite (is_hex_any _ (to_hex_lower b)), bool_decide_eq_false_2 by done. cbn [andb negb].
  rewrite from_to_hex. cbn. unfold msg_id.to_array. rewrite bool_decide_eq_true_2 by done. cbn. by rewrite Hres.
Qed.

(** The printed form of a currency is accepted and reads back as the currency. *)
Theorem currency_roundtrip (s : string) (c : XRPLCurrency) :
  HexCaseLaws → currency_new s = Ok c →
  String.length c = 20%nat ∧
  ∃ t, (∀ E, @currency_to_string _ E c = Ok t) ∧ currency_new t = Ok c ∧
    (t = s ∨ t = chain.to_lowercase s).
Proof.
  intros Hcase Hc. pose proof Hc as Hnew. unfold currency_new in Hc. apply bind_Ok in Hc as (b & Hb & Hc).
  apply ok_or_Ok in Hb. destruct (is_reserved b) eqn:Hres; [done|]. injection Hc as ->.
  unfold parse_standard in Hb. destruct (STANDARD_CURRENCY_CODE_REGEX (text_of s)) eqn:Hstd.
  { injection Hb as <-. pose proof Hstd as [Hl%bool_decide_eq_true _]%andb_true_iff. split.
    - rewrite <-chain.text_of_length, !chain.text_of_app, !zeros_text, !length_app, !length_replicate, Hl. done.
    - exists s. split; [by intros E; apply standard_to_string|]. by auto. }
  unfold parse_non_standard in Hb.
  destruct (NON_STANDARD_CURRENCY_CODE_REGEX (text_of s)) eqn:Hnon; cbn [andb] in Hb; [|done].
  destruct (bool_decide_reflect (take 2 (text_of s) = ["0"%char; "0"%char])) as [|Hzz]; cbn [negb] in Hb; [done|].
  apply bind_Some in Hb as (b & Hhex & Hb). apply bind_Some in Hb as (b' & Harr & [= <-]).
  unfold msg_id.to_array in Harr. case_bool_decide as Hlen; [|done]. injection Harr as <-.
  apply andb_true_iff in Hnon as [Hl%bool_decide_eq_true Hall].
  rewrite from_hex_lower in Hhex by done.
  pose proof (to_from_hex _ _ (is_any_hex_lower _ Hall) Hhex) as Hto.
  assert (String.string_of_list_ascii (to_hex b) = chain.to_lowercase s) as Hlow
    by (unfold chain.to_lowercase; by rewrite Hto).
  assert (take 2 (to_hex b) ≠ ["0"%char; "0"%char]) as Hzz'.
  { rewrite Hto, <-fmap_take. intros Heq. apply Hzz. destruct (take 2 (text_of s)) as [|x [|y [|]]]; try done.
    injection Heq as Hx Hy. f_equal; [|f_equal]; clear -Hx Hy.
    - destruct x as [[] [] [] [] [] [] [] []]; by vm_compute in Hx |- *.
    - destruct y as [[] [] [] [] [] [] [] []]; by vm_compute in Hy |- *. }
  split; [by rewrite <-chain.text_of_length, text_of_list|].
  exists (chain.to_lowercase s). split_and!; [|..|by right].
  - intros E. unfold currency_to_string. rewrite bool_decide_eq_false_2; [by rewrite text_of_list, Hlow|].
    intros Hget. apply Hzz', to_hex_leading. by destruct b as [|x b]; [done|].
  - rewrite <-Hlow. by apply non_standard_new.
Qed.

End roundtrips.
(** *** What the hash of an amount binds *)

Definition payment_typed (a : XRPLPaymentAmount) : Prop :=
  match a with
  | Drops d => 0 ≤ d ≤ u64_max
  | Issued t x => String.length (issuer t) = 20%nat ∧ String.length (currency t) = 20%nat ∧
                  0 ≤ mantissa x ≤ u64_max ∧ is_i64 (exponent x)
  end.

Lemma to_be_bytes_inj n z z' :
  0 ≤ z < 256 ^ Z.of_nat n → 0 ≤ z' < 256 ^ Z.of_nat n → to_be_bytes n z = to_be_bytes n z' → z = z'.
Proof. intros Hz Hz' Heq. by rewrite <-(be_val_to_be_bytes n z Hz), Heq, be_val_to_be_bytes. Qed.

Lemma be8_inj z z' : 0 ≤ z ≤ u64_max → 0 ≤ z' ≤ u64_max → to_be_bytes 8 z = to_be_bytes 8 z' → z = z'.
Proof.
  unfold u64_max. intros ? ?. apply to_be_bytes_inj; change (256 ^ Z.of_nat 8) with (2 ^ 64); lia.
Qed.

Lemma i64_mod_inj x y : is_i64 x → is_i64 y → x mod 2 ^ 64 = y mod 2 ^ 64 → x = y.
Proof.
  unfold is_i64. intros Hx Hy Heq. pose proof (Z.div_mod x (2 ^ 64) ltac:(lia)).
  pose proof (Z.div_mod y (2 ^ 64) ltac:(lia)). lia.
Qed.

Lemma payment_preimage_inj a b :
  payment_typed a → payment_typed b → payment_preimage a = payment_preimage b → a = b.
Proof.
  destruct a as [d|[i c] [m e]], b as [d'|[i' c'] [m' e']];
    cbn [payment_typed payment_preimage issuer currency mantissa exponent]; intros Ha Hb Heq.
  - do 2 apply encoding.text_inj_append in Heq. f_equal. by apply be8_inj.
  - apply (f_equal (String.get 13)) in Heq. by vm_compute in Heq.
  - apply (f_equal (String.get 13)) in Heq. by vm_compute in Heq.
  - destruct Ha as (Hi & Hc & Hm & He), Hb as (Hi' & Hc' & Hm' & He').
    do 2 apply encoding.text_inj_append in Heq.
    apply encoding.append_inj in Heq as [-> Heq]; [|congruence]. apply encoding.text_inj_append in Heq.
    apply encoding.append_inj in Heq as [-> Heq]; [|congruence]. apply encoding.text_inj_append in Heq.
    apply encoding.append_inj in Heq as [Em Heq]; [|by rewrite !to_be_bytes_length].
    apply encoding.text_inj_append in Heq. apply be8_inj in Em as ->; [|done..].
    apply be8_inj in Heq; [|pose proof (Z.mod_pos_bound e (2 ^ 64)); unfold u64_max; lia
                           |pose proof (Z.mod_pos_bound e' (2 ^ 64)); unfold u64_max; lia].
    by apply i64_mod_inj in Heq as ->.
Qed.

End xrpl_types.

(** ** Messages ([msg.rs]) *)
Module xrpl_msg.
Import xrpl_types.

(** Transaction hashes are 32 bytes. *)
Record XRPLInterchainTransferMessage := mkTransfer {
  it_tx_id : string;
  it_source_address : string;
  it_destination_chain : string;
  it_destination_address : string;
  it_payload_hash : option string;
  it_transfer_amount : XRPLPaymentAmount;
  it_gas_fee_amount : XRPLPaymentAmount
}.
Record XRPLCallContractMessage := mkCall {
  cc_tx_id : string;
  cc_source_address : string;
  cc_destination_chain : string;
  cc_destination_address : string;
  cc_payload_hash : string;
  cc_gas_fee_amount : XRPLPaymentAmount
}.
Record XRPLProverMessage := mkProver { pm_tx_id : string; unsigned_tx_hash : string }.
Record XRPLAddGasMessage := mkAddGas {
  ag_tx_id : string;
  ag_msg_id : string;
  ag_amount : XRPLPaymentAmount;
  ag_source_address : string
}.
Record XRPLAddReservesMessage := mkAddReserves { ar_tx_id : string; ar_amount : Z }.

Inductive XRPLMessage :=
  | ProverMessage (m : XRPLProverMessage)
  | InterchainTransferMessage (m : XRPLInterchainTransferMessage)
  | CallContractMessage (m : XRPLCallContractMessage)
  | AddGasMessage (m : XRPLAddGasMessage)
  | AddReservesMessage (m : XRPLAddReservesMessage).

Inductive XRPLMessageType := ProverProof | InterchainTransfer | CallContract | AddGas | AddReserves.

Definition type_to_string (t : XRPLMessageType) : string :=
  match t with
  | ProverProof => "proof"
  | InterchainTransfer => "interchain_transfer"
  | CallContract => "call_contract"
  | AddGas => "add_gas"
  | AddReserves => "add_reserves"
  end.

Definition type_from_str (s : string) : result XRPLError XRPLMessageType :=
  if bool_decide (s = "proof") then Ok ProverProof
  else if bool_decide (s = "interchain_transfer") then Ok InterchainTransfer
  else if bool_decide (s = "call_contract") then Ok CallContract
  else if bool_decide (s = "add_gas") then Ok AddGas
  else if bool_decide (s = "add_reserves") then Ok AddReserves
  else Err UnsupportedMessageType.

Lemma type_roundtrip t s : type_from_str s = Ok t ↔ s = type_to_string t.
Proof.
  split; [|by intros ->; destruct t]. unfold type_from_str.
  repeat case_bool_decide; intros [= <-]; done.
Qed.

Definition tx_id (m : XRPLMessage) : string :=
  match m with
  | ProverMessage m => pm_tx_id m
  | InterchainTransferMessage m => it_tx_id m
  | CallContractMessage m => cc_tx_id m
  | AddGasMessage m => ag_tx_id m
  | AddReservesMessage m => ar_tx_id m
  end.

Section messages.
Context `{HexCodec} `{Crypto}.

(** [tx_hash_as_hex], and the identifier that the call message formats itself. *)
Definition tx_hash_as_hex (h : string) : string :=
  "0x" +:+ String.string_of_list_ascii (to_hex (text_of h)).

Definition cc_id (m : XRPLMessage) (source_chain : string) : option router_api.CrossChainId :=
  match m with
  | InterchainTransferMessage m => Some (router_api.mkCcId source_chain (tx_hash_as_hex (it_tx_id m)))
  | CallContractMessage m => Some (router_api.mkCcId source_chain (tx_hash_as_hex (cc_tx_id m)))
  | ProverMessage _ | AddGasMessage _ | AddReservesMessage _ => None
  end.

(** The optional last field of a transfer. *)
Definition suffix (o : option string) : string :=
  match o with Some hash => router_api.delimiter +:+ hash | None => EmptyString end.

(** What the messages feed to the hasher. *)
Definition preimage (m : XRPLMessage) : string :=
  let d := router_api.delimiter in
  match m with
  | ProverMessage m => pm_tx_id m +:+ d +:+ unsigned_tx_hash m
  | InterchainTransferMessage m =>
      it_tx_id m +:+ d +:+ it_source_address m +:+ d +:+ it_destination_chain m +:+ d +:+
      it_destination_address m +:+ d +:+ payment_hash (it_transfer_amount m) +:+ suffix (it_payload_hash m)
  | CallContractMessage m =>
      cc_tx_id m +:+ d +:+ cc_source_address m +:+ d +:+ cc_destination_chain m +:+ d +:+
      cc_destination_address m +:+ d +:+ cc_payload_hash m +:+ d +:+ payment_hash (cc_gas_fee_amount m)
  | AddGasMessage m =>
      ag_tx_id m +:+ d +:+ ag_msg_id m +:+ d +:+ payment_hash (ag_amount m) +:+ d +:+ ag_source_address m
  | AddReservesMessage m => ar_tx_id m +:+ d +:+ to_be_bytes 8 (ar_amount m)
  end.

Definition message_hash (m : XRPLMessage) : string := keccak256 (preimage m).

(** *** What the hash binds *)

(** A message to another chain: where it comes from and goes to, and the one or two hashes that
    follow in the preimage. *)
Record Route := mkRoute {
  route_tx : string;
  route_source : string;
  route_chain : string
}.
Record Tail := mkTail { tail_address : string; tail_first : string; tail_second : option string }.

Definition route (m : XRPLMessage) : option (Route * Tail) :=
  match m with
  | InterchainTransferMessage m =>
      Some (mkRoute (it_tx_id m) (it_source_address m) (it_destination_chain m),
            mkTail (it_destination_address m) (payment_hash (it_transfer_amount m)) (it_payload_hash m))
  | CallContractMessage m =>
      Some (mkRoute (cc_tx_id m) (cc_source_address m) (cc_destination_chain m),
            mkTail (cc_destination_address m) (cc_payload_hash m) (Some (payment_hash (cc_gas_fee_amount m))))
  | _ => None
  end.

Definition route_typed (r : Route) : Prop :=
  String.length (route_tx r) = 32%nat ∧ String.length (route_source r) = 20%nat ∧
  chain.raw_wf (route_chain r).

Definition route_text (r : Route) : string :=
  let d := router_api.delimiter in
  route_tx r +:+ d +:+ route_source r +:+ d +:+ route_chain r +:+ d.
Definition tail_text (t : Tail) : string :=
  tail_address t +:+ router_api.delimiter +:+ tail_first t +:+ suffix (tail_second t).

Lemma route_inj r1 r2 x y :
  route_typed r1 → route_typed r2 → route_text r1 +:+ x = route_text r2 +:+ y → r1 = r2 ∧ x = y.
Proof.
  destruct r1 as [t1 s1 c1], r2 as [t2 s2 c2]. unfold route_typed, route_text.
  cbn [route_tx route_source route_chain].
  intros (Ht1 & Hs1 & Hc1%chain.raw_wf_no_delimiter) (Ht2 & Hs2 & Hc2%chain.raw_wf_no_delimiter) Heq.
  apply (f_equal text_of) in Heq. rewrite !chain.text_of_app in Heq.
  change (text_of router_api.delimiter) with [FIELD_DELIMITER] in Heq. rewrite <-!app_assoc in Heq. cbn [app] in Heq.
  apply app_inj_1 in Heq as [Et Heq]; [|rewrite !chain.text_of_length; congruence]. injection Heq as Heq.
  apply app_inj_1 in Heq as [Es Heq]; [|rewrite !chain.text_of_length; congruence]. injection Heq as Heq.
  apply router_api.delimited_inj_l in Heq as [Ec Heq]; [|done..].
  apply chain.text_of_inj in Et, Es, Ec, Heq. by subst.
Qed.

Lemma append_assoc (a b c : string) : (a +:+ b) +:+ c = a +:+ (b +:+ c).
Proof. apply chain.text_of_inj. by rewrite !chain.text_of_app, app_assoc. Qed.

Lemma preimage_route m r t : route m = Some (r, t) → preimage m = route_text r +:+ tail_text t.
Proof.
  destruct m; intros [= <- <-]; unfold route_text, tail_text; cbn [preimage]; by rewrite !append_assoc.
Qed.

(** The hashes of the tail have 32 bytes. *)
Definition tail_typed (t : Tail) : Prop :=
  String.length (tail_first t) = 32%nat ∧ ∀ h, tail_second t = Some h → String.length h = 32%nat.

(** The tail [s] is the tail [t] whose first hash is read as a part of the address. *)
Definition absorbs (s t : Tail) : Prop :=
  tail_second s = None ∧ tail_second t = Some (tail_first s) ∧
  tail_address s = tail_address t +:+ router_api.delimiter +:+ tail_first t.

(** Texts that end in the same number of bytes. *)
Lemma append_inj_r (a b x y : string) :
  String.length x = String.length y → a +:+ x = b +:+ y ↔ a = b ∧ x = y.
Proof.
  intros Hl. split; [|by intros [-> ->]]. intros Heq. apply (f_equal text_of) in Heq.
  rewrite !chain.text_of_app in Heq. apply app_inj_2 in Heq as [Ha Hx]; [|by rewrite !chain.text_of_length].
  by apply chain.text_of_inj in Ha, Hx.
Qed.
Lemma suffix_length h : String.length h = 32%nat → String.length (suffix (Some h)) = 33%nat.
Proof. intros Hh. rewrite <-chain.text_of_length. cbn [suffix]. by rewrite chain.text_of_app, length_app, !chain.text_of_length, Hh. Qed.

Lemma tail_absorbed a b f g h :
  String.length f = 32%nat → String.length h = 32%nat →
  tail_text (mkTail a f None) = tail_text (mkTail b g (Some h)) ↔
  absorbs (mkTail a f None) (mkTail b g (Some h)).
Proof.
  intros Hf Hh. unfold tail_text, absorbs. cbn [tail_address tail_first tail_second suffix]. split.
  - rewrite <-!append_assoc. intros Heq.
    assert (((a +:+ router_api.delimiter) +:+ f) = (((b +:+ router_api.delimiter) +:+ g) +:+ router_api.delimiter) +:+ h)
      as Heq'.
    { rewrite !append_assoc in *. rewrite <-Heq. f_equal. f_equal. apply chain.text_of_inj.
      by rewrite chain.text_of_app, app_nil_r. }
    apply append_inj_r in Heq' as [Ha ->]; [|congruence]. apply append_inj_r in Ha as [-> _]; [|done].
    by rewrite append_assoc.
  - intros (_ & [= ->] & ->). rewrite !append_assoc. do 3 f_equal. f_equal. apply chain.text_of_inj.
    by rewrite chain.text_of_app, app_nil_r.
Qed.

Lemma tail_inj s t :
  tail_typed s → tail_typed t → tail_text s = tail_text t ↔ s = t ∨ absorbs s t ∨ absorbs t s.
Proof.
  destruct s as [a f o], t as [b g q]. intros [Hf Ho] [Hg Hq]. cbn in Hf, Ho, Hg, Hq.
  destruct o as [h|], q as [k|].
  - split; [|intros [->|[[[=] _]|[[=] _]]]; done]. intros Heq. left. unfold tail_text in Heq.
    cbn [tail_address tail_first tail_second] in Heq. rewrite <-!append_assoc in Heq.
    apply append_inj_r in Heq as [Heq Hs]; [|rewrite !suffix_length; auto].
    apply append_inj_r in Heq as [Heq ->]; [|congruence]. apply append_inj_r in Heq as [-> _]; [|done].
    cbn in Hs. by apply encoding.text_inj_append in Hs as ->.
  - split.
    + intros Heq. right. right. apply tail_absorbed; auto.
    + intros [[=]|[[[=] _]|Ha]]. symmetry. apply tail_absorbed; auto.
  - rewrite tail_absorbed by auto. split; [by auto|]. intros [[=]|[?|[[=] _]]]. done.
  - split; [|intros [->|[[_ [[=] _]]|[_ [[=] _]]]]; done]. intros Heq. left. unfold tail_text in Heq.
    cbn [tail_address tail_first tail_second] in Heq. rewrite <-!append_assoc in Heq.
    apply append_inj_r in Heq as [Heq _]; [|done].
    apply append_inj_r in Heq as [Heq ->]; [|congruence]. by apply append_inj_r in Heq as [-> _].
Qed.

(** The amounts of a message to another chain, and the hash of a payload. *)
Definition amounts (m : XRPLMessage) : list XRPLPaymentAmount :=
  match m with
  | InterchainTransferMessage m => [it_transfer_amount m]
  | CallContractMessage m => [cc_gas_fee_amount m]
  | _ => []
  end.
Definition payload_hash_of (m : XRPLMessage) : option string :=
  match m with
  | InterchainTransferMessage m => it_payload_hash m
  | CallContractMessage m => Some (cc_payload_hash m)
  | _ => None
  end.

Record gmp_typed (m : XRPLMessage) : Prop := {
  gmp_route : ∃ r x, route m = Some (r, x) ∧ route_typed r;
  gmp_payload : ∀ h, payload_hash_of m = Some h → String.length h = 32%nat;
  gmp_amounts : Forall payment_typed (amounts m)
}.

(** Messages with one hash. The gas fee of a transfer is not hashed, and a call is a transfer whose
    amount is the preimage of the call's payload; a transfer with no payload takes the first hash
    of another message as a part of its destination address. *)
Definition indistinct (m1 m2 : XRPLMessage) : Prop :=
  let crossed (a : XRPLInterchainTransferMessage) (b : XRPLCallContractMessage) :=
    it_destination_address a = cc_destination_address b ∧
    cc_payload_hash b = payment_hash (it_transfer_amount a) ∧
    it_payload_hash a = Some (payment_hash (cc_gas_fee_amount b)) in
  let absorbs_transfer (a b : XRPLInterchainTransferMessage) :=
    it_payload_hash a = None ∧ it_payload_hash b = Some (payment_hash (it_transfer_amount a)) ∧
    it_destination_address a =
      it_destination_address b +:+ router_api.delimiter +:+ payment_hash (it_transfer_amount b) in
  let absorbs_call (a : XRPLInterchainTransferMessage) (b : XRPLCallContractMessage) :=
    it_payload_hash a = None ∧ it_transfer_amount a = cc_gas_fee_amount b ∧
    it_destination_address a =
      cc_destination_address b +:+ router_api.delimiter +:+ cc_payload_hash b in
  fst <$> route m1 = fst <$> route m2 ∧
  match m1, m2 with
  | InterchainTransferMessage a, InterchainTransferMessage b =>
      (it_destination_address a = it_destination_address b ∧
       it_transfer_amount a = it_transfer_amount b ∧ it_payload_hash a = it_payload_hash b) ∨
      absorbs_transfer a b ∨ absorbs_transfer b a
  | CallContractMessage a, CallContractMessage b => a = b
  | InterchainTransferMessage a, CallContractMessage b
  | CallContractMessage b, InterchainTransferMessage a => crossed a b ∨ absorbs_call a b
  | _, _ => False
  end.

Definition hashed (m : XRPLMessage) : list string := preimage m :: (payment_preimage <$> amounts m).

Lemma payment_hash_inj a b (l : list string) :
  (∀ x y, x ∈ l → y ∈ l → keccak256 x = keccak256 y → x = y) →
  payment_preimage a ∈ l → payment_preimage b ∈ l → payment_typed a → payment_typed b →
  payment_hash a = payment_hash b → a = b.
Proof. intros Hinj Ha Hb Ta Tb Heq. apply payment_preimage_inj; [done..|]. by apply Hinj. Qed.

Lemma gmp_tail m r t :
  (∀ s, String.length (keccak256 s) = 32%nat) → gmp_typed m → route m = Some (r, t) →
  route_typed r ∧ tail_typed t.
Proof.
  intros Hlen [(r' & t' & Hr' & Hr) Hp _] Ht. rewrite Ht in Hr'. injection Hr' as <- <-. split; [done|].
  destruct m as [|m|m| |]; try done; injection Ht as <- <-; unfold tail_typed; cbn in *.
  - split; [apply Hlen|exact Hp].
  - split; [by apply Hp|]. intros h [= <-]. apply Hlen.
Qed.

(** C23: What the hash of a message to another chain binds. Where Keccak-256 has no collision, two
    messages have the same hash exactly when they come from the same transaction and sender, go to
    the same chain, and one of these holds: they are equal; they are transfers that differ only in
    their gas fees; one is a transfer and the other a call to the same address, the call's
    payload hash is the hash of the transferred amount and the transfer's payload hash is the hash
    of the call's gas fee; one is a transfer with no payload whose destination address is that of
    the other message followed by the delimiter and by the other's first hash (of its amount, if
    it is a transfer, of its payload, if it is a call), and the hash of whose amount is the other's
    second hash (of its payload, or of its gas fee). A destination address may be any text. *)
Theorem xrpl_message_hash_exact (m1 m2 : XRPLMessage) :
  (∀ s, String.length (keccak256 s) = 32%nat) →
  (∀ x y, x ∈ hashed m1 ++ hashed m2 → y ∈ hashed m1 ++ hashed m2 →
     keccak256 x = keccak256 y → x = y) →
  gmp_typed m1 → gmp_typed m2 →
  message_hash m1 = message_hash m2 ↔ indistinct m1 m2.
Proof.
  intros Hlen Hinj T1 T2. pose proof T1 as [(r1 & x1 & Hr1 & _) _ Ha1]. pose proof T2 as [(r2 & x2 & Hr2 & _) _ Ha2].
  destruct (gmp_tail _ _ _ Hlen T1 Hr1) as [Hw1 Ht1]. destruct (gmp_tail _ _ _ Hlen T2 Hr2) as [Hw2 Ht2].
  assert (∀ a b, a ∈ amounts m1 ++ amounts m2 → b ∈ amounts m1 ++ amounts m2 →
    payment_hash a = payment_hash b → a = b) as Hamt.
  { intros a b Ha Hb. rewrite elem_of_app in Ha, Hb. rewrite Forall_forall in Ha1, Ha2.
    eapply payment_hash_inj; [exact Hinj|..]; unfold hashed; set_solver. }
  assert (message_hash m1 = message_hash m2 ↔ r1 = r2 ∧ (x1 = x2 ∨ absorbs x1 x2 ∨ absorbs x2 x1)) as ->.
  { rewrite <-tail_inj by done. unfold message_hash.
    rewrite (preimage_route _ _ _ Hr1), (preimage_route _ _ _ Hr2). split; [|by intros [-> ->]].
    rewrite <-(preimage_route _ _ _ Hr1), <-(preimage_route _ _ _ Hr2). intros Heq.
    apply Hinj in Heq; [|unfold hashed; set_solver..].
    rewrite (preimage_route _ _ _ Hr1), (preimage_route _ _ _ Hr2) in Heq. by apply route_inj. }
  unfold indistinct. rewrite Hr1, Hr2. cbn [fmap option_fmap option_map fst].
  clear T1 T2 Ht1 Ht2 Hw1 Hw2 Hinj Hlen Ha1 Ha2.
  destruct m1 as [|a|a| |], m2 as [|b|b| |]; try done; injection Hr1 as <- <-; injection Hr2 as <- <-;
    unfold absorbs; cbn [tail_address tail_first tail_second].
  - assert (payment_hash (it_transfer_amount a) = payment_hash (it_transfer_amount b) ↔
      it_transfer_amount a = it_transfer_amount b) as Hab by
      (split; [apply Hamt; set_solver|by intros ->]). rewrite <-Hab. naive_solver congruence.
  - assert (payment_hash (it_transfer_amount a) = payment_hash (cc_gas_fee_amount b) ↔
      it_transfer_amount a = cc_gas_fee_amount b) as Hab by
      (split; [apply Hamt; set_solver|by intros ->]). rewrite <-Hab. naive_solver congruence.
  - assert (payment_hash (it_transfer_amount b) = payment_hash (cc_gas_fee_amount a) ↔
      it_transfer_amount b = cc_gas_fee_amount a) as Hab by
      (split; [apply Hamt; set_solver|by intros ->]). rewrite <-Hab. naive_solver congruence.
  - assert (payment_hash (cc_gas_fee_amount a) = payment_hash (cc_gas_fee_amount b) →
      cc_gas_fee_amount a = cc_gas_fee_amount b) as Hab by (apply Hamt; set_solver).
    split; [|by intros [_ ->]; auto].
    destruct a as [? ? ? ? ? g], b as [? ? ? ? ? g']; cbn in *.
    intros ([= -> -> ->] & [[= -> -> Hg]|[[[=] _]|[[=] _]]]). by rewrite (Hab Hg).
Qed.

End messages.
End xrpl_msg.

(** ** A concrete run *)
Module xrpl_run.
Import xrpl_types xrpl_msg codecs.

#[local] Instance run_case_laws : HexCaseLaws.
Proof.
  assert (∀ c, is_any_hex c = true → nibble c = nibble (chain.lower c)) as Hn.
  { intros [[] [] [] [] [] [] [] []] Hc; by vm_compute in Hc |- *. }
  split.
  - cbn [from_hex hex_codec]. fix IH 1. intros [|c [|d s]]; cbn; [done..|].
    intros [Hc Hs]%andb_true_iff. apply andb_true_iff in Hs as [Hd Hs].
    by rewrite <-(Hn c Hc), <-(Hn d Hd), <-(IH s Hs).
  - intros [|[[] [] [] [] [] [] [] []] b]; cbn [to_hex hex_codec]; vm_compute; naive_solver.
Qed.

(** A code in upper case reads back from its lower-case text. *)
Lemma currency_roundtrip_witness :
  ∃ t c, (∀ E, @currency_to_string _ E c = Ok t) ∧ currency_new t = Ok c.
Proof.
  destruct (currency_roundtrip "524C555344000000000000000000000000000000"
    (String.string_of_list_ascii (byte_of <$> [0x52; 0x4C; 0x55; 0x53; 0x44] ++ replicate 15 0))
    run_case_laws) as (_ & t & Ht & Hn & _); [by vm_compute|]. eauto.
Defined.

(** A hash function that tells the texts of the run apart: their lengths. *)
Definition run_crypto : Crypto := {|
  keccak256 s := to_be_bytes 32 (Z.of_nat (String.length s));
  secp256k1_verify _ _ _ := None;
  ed25519_verify_bytes _ _ _ := None;
  k256_normalize _ := None;
  ed25519_normalize _ := None
|}.
#[local] Existing Instance run_crypto.

Definition bytes_of (n : nat) (c : ascii) : string := String.string_of_list_ascii (replicate n c).

(** A call that pays a fee of one token, with the text of a billion drops as its payload. *)
Definition run_fee : XRPLPaymentAmount := Issued (mkToken (bytes_of 20 "i") (bytes_of 20 "u")) xrpl_amount_run.one.
Definition run_amount : XRPLPaymentAmount := Drops (10 ^ 9).
Definition run_call : XRPLMessage :=
  CallContractMessage (mkCall (bytes_of 32 "t") (bytes_of 20 "s") "ethereum" "0xdest" (payment_hash run_amount) run_fee).
(** The transfer of a billion drops. *)
Definition run_transfer : XRPLMessage :=
  InterchainTransferMessage (mkTransfer (bytes_of 32 "t") (bytes_of 20 "s") "ethereum" "0xdest"
    (Some (payment_hash run_fee)) run_amount (Drops 1)).

(** The transfer of the fee to an address that ends with the payload hash of the call. *)
Definition run_absorbing : XRPLMessage :=
  InterchainTransferMessage (mkTransfer (bytes_of 32 "t") (bytes_of 20 "s") "ethereum"
    ("0xdest" +:+ router_api.delimiter +:+ payment_hash run_amount) None run_fee (Drops 1)).

Lemma run_typed : gmp_typed run_call ∧ gmp_typed run_transfer ∧ gmp_typed run_absorbing.
Proof.
  split_and!; split; try (do 2 eexists; split; [reflexivity|]; split_and!; by vm_compute);
    try (by intros h [= <-]); constructor; try done; by vm_compute.
Qed.

Lemma run_hashes_distinct (l : list string) :
  bool_decide (Forall (λ x, Forall (λ y, keccak256 x ≠ keccak256 y ∨ x = y) l) l) = true →
  ∀ x y, x ∈ l → y ∈ l → keccak256 x = keccak256 y → x = y.
Proof.
  intros Hall%bool_decide_eq_true x y Hx Hy Heq.
  rewrite Forall_forall in Hall. specialize (Hall x Hx). rewrite Forall_forall in Hall.
  by destruct (Hall y Hy).
Qed.

Lemma xrpl_message_hash_exact_witness :
  message_hash run_transfer = message_hash run_call ∧ message_hash run_absorbing = message_hash run_call.
Proof.
  destruct run_typed as (Tc & Tt & Ta). split.
  - refine (proj2 (xrpl_message_hash_exact run_transfer run_call _ _ Tt Tc) _).
    + intros s. apply to_be_bytes_length.
    + apply run_hashes_distinct. by vm_compute.
    + split; [done|]. left. split_and!; done.
  - refine (proj2 (xrpl_message_hash_exact run_absorbing run_call _ _ Ta Tc) _).
    + intros s. apply to_be_bytes_length.
    + apply run_hashes_distinct. by vm_compute.
    + split; [done|]. right. split_and!; done.
Defined.

End xrpl_run.
