(* ===== verification/AmpdStream.v ===== *)
(** * The events a verifier's daemon sees

    [packages/events] and the event pipeline of [ampd]: retries ([asyncutil/future.rs]), the
    stream of block heights and of their events ([event_sub]), filters, and the loop that hands
    the events to a handler ([event_processor.rs]).

    A stream is polled, and what its source answers to successive polls is a script: a list of
    [Poll]s. After the script the source has nothing more to say ([Pending]). Time does not
    appear: delays change when a poll is answered, not what is answered. The bounded channel between
    the publisher and its subscribers is a relation between what is sent and what is received
    ([received]), in which a slow subscriber loses values and is told so. *)

From S2P Require Import Prelude Std.

(** ** Events ([packages/events/src/event.rs]) *)
Module events.

(** What is used of [serde_json] and of [cosmrs::AccountId]. *)
Class Json := {
  Value : Type;
  Value_eq_dec :: EqDecision Value;
  (** [serde_json::from_str], [Value::String], [to_string] *)
  from_str : string → option Value;
  value_string : string → Value;
  value_to_string : Value → string;
  (** [from_value::<AccountId>] *)
  account_id_from_value : Value → option Addr
}.

Class JsonLaws `{Json} : Prop := {
  from_str_to_string v : from_str (value_to_string v) = Some v
}.

(** [tendermint::block::Height]: the conversion from [u64], and [increment]. *)
Class Heights := {
  height_try_from : Z → option Z;
  increment : Z → Z
}.
Definition height_max : Z := 2 ^ 63 - 1.
Class HeightLaws `{Heights} : Prop := {
  height_try_from_small h : 0 ≤ h ≤ height_max → height_try_from h = Some h;
  increment_small h : 0 ≤ h < height_max → increment h = h + 1
}.

Inductive Error := DecodingAttributesFailed | BlockHeightConversion (block_height : Z)
  | DeserializationFailed (event_type : string) | EventTypeMismatch (event_type : string).

Section events.
Context `{Json} `{Heights}.

Inductive Event :=
  | BlockBegin (height : Z)
  | BlockEnd (height : Z)
  | Abci (event_type : string) (attributes : gmap string Value).

Definition contract_address (e : Event) : option Addr :=
  match e with
  | Abci _ attributes => attributes !! "_contract_address" ≫= account_id_from_value
  | _ => None
  end.

Definition is_from_contract (e : Event) (from_address : Addr) : bool :=
  match contract_address e with
  | Some emitting_address => bool_decide (emitting_address = from_address)
  | None => false
  end.

(** [abci::Event]: the key and the value of an attribute, where they are valid UTF-8. *)
Record AbciEvent := mkAbci { kind : string; abci_attributes : list (option string * option string) }.

Definition decode_event_attribute (attribute : option string * option string)
    : option (string * string) :=
  k ← attribute.1; v ← attribute.2; Some (k, v).

Definition try_into_kv_pair (attribute : option string * option string)
    : result Error (string * Value) :=
  kv ← ok_or DecodingAttributesFailed (decode_event_attribute attribute);
  Ok (kv.1, default (value_string kv.2) (from_str kv.2)).

(** A later attribute replaces an earlier one of the same name. *)
Definition collect {A} (l : list (string * A)) : gmap string A := list_to_map (reverse l).

Definition try_from_abci (event : AbciEvent) : result Error Event :=
  attributes ← try_map try_into_kv_pair (abci_attributes event);
  Ok (Abci (kind event) (collect attributes)).

(** [ampd_proto::subscribe_response::Event] *)
Inductive ProtoEvent :=
  | ProtoBlockBegin (height : Z)
  | ProtoBlockEnd (height : Z)
  | ProtoAbci (type contract : string) (attributes : gmap string string).

Definition into_proto (e : Event) : ProtoEvent :=
  match e with
  | BlockBegin height => ProtoBlockBegin height
  | BlockEnd height => ProtoBlockEnd height
  | Abci event_type attributes =>
      ProtoAbci event_type (default EmptyString (contract_address e)) (value_to_string <$> attributes)
  end.

Definition try_from_proto (e : ProtoEvent) : result Error Event :=
  match e with
  | ProtoBlockBegin height =>
      BlockBegin <$> ok_or (BlockHeightConversion height) (height_try_from height)
  | ProtoBlockEnd height =>
      BlockEnd <$> ok_or (BlockHeightConversion height) (height_try_from height)
  | ProtoAbci type _ attributes =>
      Ok (Abci type ((λ value, default (value_string value) (from_str value)) <$> attributes))
  end.

(** The conversion that [events_derive::try_from] generates for a structure that is deserialized
    by [deserialize]. *)
Definition try_into {A} (struct_event_type : string) (deserialize : gmap string Value → option A)
    (event : Event) : result Error A :=
  match event with
  | Abci event_type attributes =>
      if bool_decide (event_type = struct_event_type)
      then ok_or (DeserializationFailed struct_event_type) (deserialize attributes)
      else Err (EventTypeMismatch struct_event_type)
  | _ => Err (EventTypeMismatch struct_event_type)
  end.

Definition height_wf (e : Event) : Prop :=
  match e with BlockBegin h | BlockEnd h => 0 ≤ h ≤ height_max | _ => True end.

(** An event that the daemon sends to a handler's process arrives as it was sent. *)
Theorem event_proto_roundtrip `{!JsonLaws} `{!HeightLaws} (e : Event) :
  height_wf e → try_from_proto (into_proto e) = Ok e.
Proof.
  destruct e as [h|h|t attributes]; cbn; intros He; [by rewrite height_try_from_small..|].
  do 2 f_equal. rewrite <-map_fmap_compose. rewrite <-(map_fmap_id attributes) at 2.
  apply map_fmap_ext. intros k v _. cbn. by rewrite from_str_to_string.
Qed.

End events.
End events.

(** ** Retries ([asyncutil/future.rs]) *)
Module retry.

Inductive RetryPolicy := RepeatConstant (max_attempts : Z).
Definition max_attempts (p : RetryPolicy) : Z := match p with RepeatConstant n => n end.

Inductive PolicyAction := Retry | Abort.

Definition enact_policy (attempt_count : Z) (policy : RetryPolicy) : PolicyAction :=
  match policy with
  | RepeatConstant max_attempts =>
      if bool_decide (max_attempts ≤ attempt_count) then Abort else Retry
  end.

(** The loop of [with_retry], where [future k] is what the call after [k] failed ones returns.
    [None] if [fuel] calls were not enough. *)
Fixpoint retry_loop {E A} (fuel : nat) (future : Z → result E A) (policy : RetryPolicy)
    (attempt_count : Z) : option (result E A) :=
  match fuel with
  | O => None
  | S fuel =>
      match future attempt_count with
      | Ok result => Some (Ok result)
      | Err err =>
          let attempt_count := saturating_add u64_max attempt_count 1 in
          match enact_policy attempt_count policy with
          | Retry => retry_loop fuel future policy attempt_count
          | Abort => Some (Err err)
          end
      | Panic => Some Panic
      end
  end.

(** As many calls as the policy allows, and at least one. *)
Definition attempts (policy : RetryPolicy) : nat := Z.to_nat (Z.max 1 (max_attempts policy)).

Definition with_retry {E A} (future : Z → result E A) (policy : RetryPolicy)
    : option (result E A) :=
  retry_loop (attempts policy) future policy 0.

(** Whether calling again can help. *)
Definition is_err {E A} (r : result E A) : bool := match r with Err _ => true | _ => false end.

Lemma retry_loop_spec {E A} (future : Z → result E A) policy c fuel :
  0 ≤ c → max_attempts policy ≤ u64_max → c + Z.of_nat fuel = Z.of_nat (attempts policy) →
  (0 < fuel)%nat →
  ∃ k, c ≤ k < c + Z.of_nat fuel ∧ retry_loop fuel future policy c = Some (future k) ∧
    (∀ j, c ≤ j < k → is_err (future j) = true) ∧
    (is_err (future k) = true → k + 1 = Z.of_nat (attempts policy)).
Proof.
  destruct policy as [max]. unfold attempts. cbn [max_attempts].
  revert c. induction fuel as [|fuel IH]; intros c Hc Hmax Hfuel Hpos; [lia|]. cbn [retry_loop].
  destruct (future c) as [a|e|] eqn:Hf.
  1,3: exists c; rewrite Hf; split; [lia|]; split; [done|]; split; [lia|done].
  unfold enact_policy, saturating_add. rewrite Z.min_l by (unfold u64_max in *; lia).
  case_bool_decide.
  - exists c. rewrite Hf. split; [lia|]. split; [done|]. split; [lia|lia].
  - destruct (IH (c + 1)) as (k & Hk & Hr & Herr & Hlast); [lia..|].
    exists k. split; [lia|]. split; [done|]. split; [|done].
    intros j Hj. destruct (decide (j = c)) as [->|]; [by rewrite Hf|]. apply Herr. lia.
Qed.

(** C26: A call with retries returns. The loop ends after at most as many calls as the policy allows
    (one, if it allows none), with the result of the last call; every call before it failed, and
    the last one failed only if it was the last one allowed. *)
Theorem with_retry_terminates {E A} (future : Z → result E A) (policy : RetryPolicy) :
  max_attempts policy ≤ u64_max →
  ∃ k, 0 ≤ k < Z.max 1 (max_attempts policy) ∧ with_retry future policy = Some (future k) ∧
    (∀ j, 0 ≤ j < k → is_err (future j) = true) ∧
    (is_err (future k) = true → k + 1 = Z.max 1 (max_attempts policy)).
Proof.
  intros Hmax. destruct (retry_loop_spec future policy 0 (attempts policy)) as (k & Hk & Hr & He & Hl);
    unfold attempts in *; [lia..|].
  exists k. rewrite !Z2Nat.id in * by lia. split; [lia|]. split; [done|]. done.
Qed.

Lemma with_retry_terminates_witness :
  ∃ k, 0 ≤ k < 3 ∧
    with_retry (λ n, if bool_decide (n = 1) then Ok "events" else Err tt) (RepeatConstant 3) =
      Some ((λ n, if bool_decide (n = 1) then Ok "events" else Err tt) k).
Proof.
  destruct (with_retry_terminates (λ n, if bool_decide (n = 1) then Ok "events" else Err tt)
    (RepeatConstant 3)) as (k & Hk & Hr & _); [vm_compute; discriminate|].
  exact (ex_intro _ k (conj Hk Hr)).
Defined.

End retry.

(** ** The stream of events ([event_sub/stream.rs]) *)
Module stream.
Import events retry.

(** [tokio_stream::wrappers::errors::BroadcastStreamRecvError] *)
Inductive BroadcastStreamRecvError := Lagged (missed : Z).

Inductive Error := LatestBlockQuery | BlockResultsQuery (block : Z) | EventDecoding (block : Z)
  | BroadcastStreamRecv (err : BroadcastStreamRecvError).

Inductive Poll (A : Type) := Ready (o : option A) | Pending.
Arguments Ready {A} o.
Arguments Pending {A}.

(** *** [StrictlyIncreasing] *)

(** [poll_next], with the last streamed value and the script of the inner stream: what is
    answered, and what is left. *)
Fixpoint increasing_poll_next (last_streamed : option Z) (script : list (Poll (result Error Z)))
    : Poll (result Error Z) * (option Z * list (Poll (result Error Z))) :=
  match script with
  | [] => (Pending, (last_streamed, []))
  | Ready (Some (Ok current)) :: script =>
      match last_streamed with
      | Some last =>
          if bool_decide (current ≤ last) then increasing_poll_next (Some last) script
          else (Ready (Some (Ok current)), (Some current, script))
      | None => (Ready (Some (Ok current)), (Some current, script))
      end
  | poll_result :: script => (poll_result, (last_streamed, script))
  end.

(** *** [FillGaps] *)

Inductive StreamState :=
  | Start
  | First (first : Z) (streamed : bool)
  | BlocksAvailable (streamed latest : Z)
  | CaughtUp (latest : Z).

Definition update_latest (self : StreamState) (new_latest : Z) : StreamState :=
  match self with
  | Start => First new_latest false
  | First latest _ =>
      if bool_decide (new_latest ≤ latest) then self else BlocksAvailable latest new_latest
  | CaughtUp latest =>
      if bool_decide (new_latest ≤ latest) then self else BlocksAvailable latest new_latest
  | BlocksAvailable streamed latest =>
      if bool_decide (new_latest ≤ latest) then self else BlocksAvailable streamed new_latest
  end.

Section heights.
Context `{Heights}.

Definition stream (self : StreamState) : option Z * StreamState :=
  match self with
  | Start | CaughtUp _ => (None, self)
  | First first streamed => (if streamed then None else Some first, First first true)
  | BlocksAvailable streamed latest =>
      let new_streamed := increment streamed in
      (Some new_streamed,
       if bool_decide (new_streamed < latest) then BlocksAvailable new_streamed latest
       else CaughtUp new_streamed)
  end.

(** The state of [blocks]: that of [FillGaps], of [StrictlyIncreasing], and the answers of the
    node that are still to come. *)
Record Blocks := mkBlocks {
  state : StreamState;
  last_streamed : option Z;
  script : list (Poll (result Error Z))
}.

(** The loop of [FillGaps::poll_next] over the strictly increasing heights. Every round but the
    last consumes an answer, so their number is enough fuel. *)
Fixpoint fill_gaps_loop (fuel : nat) (b : Blocks) : Poll (result Error Z) * Blocks :=
  match stream (state b) with
  | (Some to_stream, st) => (Ready (Some (Ok to_stream)), mkBlocks st (last_streamed b) (script b))
  | (None, st) =>
      match increasing_poll_next (last_streamed b) (script b) with
      | (Ready (Some (Ok new_latest)), (last, rest)) =>
          let b := mkBlocks (update_latest st new_latest) last rest in
          match fuel with
          | O => (Pending, b)
          | S fuel => fill_gaps_loop fuel b
          end
      | (poll_result, (last, rest)) => (poll_result, mkBlocks st last rest)
      end
  end.

Definition fill_gaps_poll_next (b : Blocks) : Poll (result Error Z) * Blocks :=
  fill_gaps_loop (length (script b)) b.

(** [blocks]: the heights that the node reports at each tick of the interval, only increasing
    ones, with the heights in between. *)
Definition blocks (ticks : list (Poll (result Error Z))) : Blocks := mkBlocks Start None ticks.

(** What the first [n] polls answer. *)
Fixpoint polls (n : nat) (b : Blocks) : list (Poll (result Error Z)) * Blocks :=
  match n with
  | O => ([], b)
  | S n => let '(p, b) := fill_gaps_poll_next b in let '(ps, b) := polls n b in (p :: ps, b)
  end.

End heights.

(** *** No height is skipped or repeated *)

Definition height_of (p : Poll (result Error Z)) : option Z :=
  match p with Ready (Some (Ok h)) => Some h | _ => None end.
Definition error_of (p : Poll (result Error Z)) : option (result Error Z) :=
  match p with Ready (Some (Ok _)) => None | Ready o => o | Pending => None end.
Definition heights (ps : list (Poll (result Error Z))) : list Z := omap height_of ps.
Definition errors (ps : list (Poll (result Error Z))) : list (result Error Z) := omap error_of ps.

Definition highest (h : Z) (hs : list Z) : Z := foldl Z.max h hs.

(** All heights from the first reported one to the highest reported one. *)
Definition range (hs : list Z) : list Z :=
  match hs with [] => [] | h :: hs => seqZ h (highest h hs - h + 1) end.

Lemma highest_app h hs hs' : highest h (hs ++ hs') = highest (highest h hs) hs'.
Proof. apply foldl_app. Qed.

Lemma highest_low h hs : Forall (λ x, x ≤ h) hs → highest h hs = h.
Proof. induction 1 as [|x hs Hx _ IH]; [done|]. cbn. by rewrite Z.max_l. Qed.

Lemma heights_app ps qs : heights (ps ++ qs) = heights ps ++ heights qs.
Proof. apply omap_app. Qed.

(** What one poll of [StrictlyIncreasing] consumes. *)
Lemma increasing_poll_spec last s p last' rest :
  increasing_poll_next last s = (p, (last', rest)) →
  ∃ used, s = used ++ rest ∧ errors used = errors [p] ∧
    match height_of p, last with
    | Some h, Some l => l < h ∧ last' = Some h ∧ ∃ skipped, heights used = skipped ++ [h] ∧
        Forall (λ x, x ≤ l) skipped
    | Some h, None => last' = Some h ∧ heights used = [h]
    | None, Some l => last' = last ∧ Forall (λ x, x ≤ l) (heights used)
    | None, None => last' = last ∧ heights used = []
    end.
Proof.
  revert last. induction s as [|x s IH]; intros last; cbn.
  { intros [= <- <- <-]. exists []. destruct last; cbn; eauto. }
  destruct x as [[[h|e|]|]|]; 
    [|intros [= <- <- <-]; eexists [_]; split; [done|]; destruct last; cbn; by eauto..].
  destruct last as [l|]; [|intros [= <- <- <-]; exists [Ready (Some (Ok h))]; cbn; by eauto].
  case_bool_decide as Hle.
  - intros (used & -> & He & Hm)%IH. exists (Ready (Some (Ok h)) :: used). split; [done|].
    split; [done|]. destruct (height_of p) as [h'|]; cbn.
    + destruct Hm as (? & ? & skipped & Hsk & Hall). split; [done|]. split; [done|].
      exists (h :: skipped). fold (heights used). rewrite Hsk. auto.
    + destruct Hm as [? Hall]. split; [done|]. by constructor.
  - intros [= <- <- <-]. exists [Ready (Some (Ok h))]. split; [done|]. split; [done|]. cbn.
    split; [lia|]. split; [done|]. by exists [].
Qed.

Section gapless.
Context `{Heights} `{!HeightLaws}.

(** The heights that were consumed, those that were streamed, and the state. *)
Definition blocks_inv (used out : list Z) (b : Blocks) : Prop :=
  Forall (λ x, 0 ≤ x ≤ height_max) used ∧
  match used with
  | [] => state b = Start ∧ last_streamed b = None ∧ out = []
  | f :: hs =>
      let l := highest f hs in
      last_streamed b = Some l ∧ f ≤ l ≤ height_max ∧
      match state b with
      | Start => False
      | First first streamed => first = f ∧ l = f ∧ streamed = true ∧ out = [f]
      | BlocksAvailable streamed latest =>
          latest = l ∧ f ≤ streamed < l ∧ out = seqZ f (streamed - f + 1)
      | CaughtUp latest => latest = l ∧ out = seqZ f (l - f + 1)
      end
  end.

Lemma seqZ_next f s : f ≤ s → seqZ f (s - f + 1) ++ [s + 1] = seqZ f (s + 1 - f + 1).
Proof.
  intros Hs. replace (s + 1 - f + 1) with ((s - f + 1) + 1) by lia.
  rewrite (seqZ_app f (s - f + 1) 1) by lia. replace (f + (s - f + 1)) with (s + 1) by lia. done.
Qed.

(** Streaming from a state with blocks available. *)
Lemma stream_available used out s l last rest f hs :
  used = f :: hs → Forall (λ x, 0 ≤ x ≤ height_max) used → l = highest f hs → last = Some l →
  f ≤ s < l → l ≤ height_max → out = seqZ f (s - f + 1) →
  ∃ st, stream (BlocksAvailable s l) = (Some (s + 1), st) ∧
    blocks_inv used (out ++ [s + 1]) (mkBlocks st last rest).
Proof.
  intros -> Hall Hl -> Hs Hmax ->. cbn [stream]. apply Forall_cons in Hall as Hf.
  rewrite increment_small by lia. eexists. split; [done|].
  unfold blocks_inv. cbn. rewrite <-Hl, seqZ_next by lia. split; [done|]. split; [done|].
  split; [lia|]. case_bool_decide; [split; [done|]; split; [lia|done]|].
  assert (s + 1 = l) as -> by lia. done.
Qed.

Lemma fill_gaps_streams n b x st :
  stream (state b) = (Some x, st) →
  fill_gaps_loop n b = (Ready (Some (Ok x)), mkBlocks st (last_streamed b) (script b)).
Proof. intros Hs. by destruct n; cbn [fill_gaps_loop]; rewrite Hs. Qed.

(** Heights that are not higher than the highest one change nothing. *)
Lemma blocks_inv_low used out b new :
  blocks_inv used out b → Forall (λ x, 0 ≤ x ≤ height_max) new →
  match last_streamed b with Some l => Forall (λ x, x ≤ l) new | None => new = [] end →
  blocks_inv (used ++ new) out b.
Proof.
  intros [Hall Hm] Hnew Hlow. split; [by apply Forall_app|]. destruct used as [|f hs]; cbn.
  - destruct Hm as (? & Hl & ?). rewrite Hl in Hlow. by subst new.
  - cbn zeta in *. destruct Hm as (Hl & Hm). rewrite Hl in Hlow.
    by rewrite highest_app, (highest_low _ new Hlow).
Qed.

(** A state that has nothing to stream has streamed everything. *)
Lemma quiet_range used out b :
  blocks_inv used out b → (stream (state b)).1 = None →
  out = range used ∧ stream (state b) = (None, state b).
Proof.
  intros [_ Hm] Hq. destruct used as [|f hs].
  { destruct Hm as (-> & _ & ->). done. }
  destruct Hm as (_ & _ & Hm). unfold range. destruct (state b) as [|first streamed|s l|l]; [done|..].
  - destruct Hm as (-> & -> & -> & ->). split; [|done]. replace (f - f + 1) with 1 by lia.
    by rewrite seqZ_cons by lia.
  - done.
  - destruct Hm as (-> & ->). done.
Qed.

(** A higher height makes blocks available. *)
Lemma quiet_update used out st last rest h skipped rest' :
  blocks_inv used out (mkBlocks st last rest) → (stream st).1 = None → 0 ≤ h ≤ height_max →
  Forall (λ x, 0 ≤ x ≤ height_max) skipped →
  match last with Some l => l < h ∧ Forall (λ x, x ≤ l) skipped | None => skipped = [] end →
  ∃ x st', stream (update_latest st h) = (Some x, st') ∧
    blocks_inv (used ++ skipped ++ [h]) (out ++ [x]) (mkBlocks st' (Some h) rest').
Proof.
  intros [Hall Hm] Hq Hh Hsk Hlast. destruct used as [|f hs]; cbn in Hm.
  { destruct Hm as (-> & -> & ->). subst skipped. exists h, (First h true). split; [done|].
    split; [by constructor|]. cbn. split; [done|]. split; [lia|done]. }
  destruct Hm as (-> & Hl & Hm). destruct Hlast as [Hlt Hlow]. set (l := highest f hs) in *.
  assert (highest f (hs ++ skipped ++ [h]) = h) as Hhigh.
  { rewrite !highest_app. fold l. rewrite (highest_low l skipped Hlow). cbn. lia. }
  assert (∃ s, update_latest st h = BlocksAvailable s h ∧ f ≤ s < h ∧ out = seqZ f (s - f + 1))
    as (s & -> & Hs & ->).
  { destruct st as [|first streamed|s' l'|l']; [done|..]; cbn in *; [| |].
    - destruct Hm as (-> & Hlf & _ & ->). exists f. rewrite bool_decide_eq_false_2 by lia.
      split; [done|]. split; [lia|]. by replace (f - f + 1) with 1 by lia.
    - done.
    - destruct Hm as (-> & ->). exists l. rewrite bool_decide_eq_false_2 by lia.
      split; [done|]. split; [lia|done]. }
  exists (s + 1). eapply stream_available; [reflexivity| |symmetry; exact Hhigh|done|done|lia|done].
  by rewrite !Forall_app, Forall_singleton.
Qed.

(** One poll. *)
Lemma blocks_poll_inv used out b p b' :
  blocks_inv used out b → Forall (λ x, 0 ≤ x ≤ height_max) (heights (script b)) →
  fill_gaps_poll_next b = (p, b') →
  ∃ new, script b = new ++ script b' ∧ errors new = errors [p] ∧
    blocks_inv (used ++ heights new) (out ++ heights [p]) b' ∧
    (height_of p = None → out = range (used ++ heights new)).
Proof.
  intros Hinv Hscript Hf. unfold fill_gaps_poll_next in Hf. destruct b as [st last s].
  cbn [script state last_streamed] in *. destruct (stream st) as [[x|] st1] eqn:Hst.
  - rewrite (fill_gaps_streams _ _ x st1) in Hf by done. injection Hf as <- <-. exists [].
    cbn. rewrite app_nil_r. split; [done|]. split; [done|]. split; [|done].
    destruct Hinv as [Hall Hm]. cbn [state last_streamed] in Hm.
    destruct used as [|f hs]; [by destruct Hm as (-> & _)|].
    destruct Hm as (-> & Hl & Hm). destruct st as [|first streamed|s1 l1|l1]; [done| | |done].
    { destruct Hm as (_ & _ & -> & _). done. }
    destruct Hm as (-> & Hs1 & ->).
    destruct (stream_available _ _ s1 (highest f hs) (Some (highest f hs)) s f hs eq_refl Hall eq_refl
      eq_refl Hs1 (proj2 Hl) eq_refl) as (st' & Hst' & Hi). rewrite Hst in Hst'.
    by injection Hst' as -> ->.
  - destruct (quiet_range _ _ _ Hinv) as [Hout Hst']; [by cbn [state]; rewrite Hst|].
    cbn [state] in Hst'. rewrite Hst in Hst'. injection Hst' as ->.
    destruct (increasing_poll_next last s) as [q [last' rest]] eqn:Hq.
    destruct (increasing_poll_spec _ _ _ _ _ Hq) as (new & Hs & Herr & Hm).
    assert (Forall (λ x, 0 ≤ x ≤ height_max) (heights new)) as Hnew.
    { subst s. rewrite heights_app in Hscript. by apply Forall_app in Hscript as [? _]. }
    destruct (height_of q) as [h|] eqn:Hh.
    + assert (q = Ready (Some (Ok h))) as -> by by destruct q as [[[]|]|]; simplify_eq/=.
      assert (∃ skipped, heights new = skipped ++ [h] ∧ last' = Some h ∧
        match last with Some l => l < h ∧ Forall (λ x, x ≤ l) skipped | None => skipped = [] end)
        as (skipped & Hsk & -> & Hlow).
      { destruct last as [l|]; [destruct Hm as (? & ? & skipped & ? & ?); by exists skipped|].
        destruct Hm as [? ?]. by exists []. }
      rewrite Hsk in Hnew. apply Forall_app in Hnew as [Hsk' Hh'].
      rewrite Forall_singleton in Hh'.
      destruct (quiet_update used out st last s h skipped rest Hinv) as (x & st' & Hx & Hi);
        [by rewrite Hst|done..|].
      destruct s as [|y s]; [by destruct new|]. cbn [length fill_gaps_loop] in Hf.
      cbn [state last_streamed script] in Hf. rewrite Hst, Hq in Hf.
      rewrite (fill_gaps_streams _ _ x st') in Hf by done. injection Hf as <- <-.
      exists new. rewrite Hsk. done.
    + assert (p = q ∧ b' = mkBlocks st last' rest) as [-> ->].
      { destruct s as [|y s]; cbn [length fill_gaps_loop state last_streamed script] in Hf;
          rewrite Hst, Hq in Hf; destruct q as [[[]|]|]; cbn in Hh; by simplify_eq. }
      assert (last' = last) as -> by by destruct last, Hm.
      assert (blocks_inv (used ++ heights new) out (mkBlocks st last s)) as Hi.
      { apply blocks_inv_low; [done|done|]. cbn. by destruct last, Hm. }
      exists new. split; [done|]. split; [done|].
      assert (heights [q] = []) as -> by (cbn; by rewrite Hh). rewrite app_nil_r.
      split; [exact Hi|]. intros _. apply (quiet_range _ _ _ Hi). by cbn [state]; rewrite Hst.
Qed.

Lemma polls_inv n used out b ps b' :
  blocks_inv used out b → Forall (λ x, 0 ≤ x ≤ height_max) (heights (script b)) →
  polls n b = (ps, b') →
  ∃ new, script b = new ++ script b' ∧ errors ps = errors new ∧
    blocks_inv (used ++ heights new) (out ++ heights ps) b'.
Proof.
  revert used out b ps. induction n as [|n IH]; intros used out b ps Hinv Hs Hp; cbn in Hp.
  { injection Hp as <- <-. exists []. cbn. by rewrite !app_nil_r. }
  destruct (fill_gaps_poll_next b) as [p b1] eqn:Hf. destruct (polls n b1) as [ps1 b2] eqn:Hps.
  injection Hp as <- <-. destruct (blocks_poll_inv _ _ _ _ _ Hinv Hs Hf) as (new & Hnew & He & Hi & _).
  rewrite Hnew, heights_app in Hs. apply Forall_app in Hs as [_ Hs].
  destruct (IH _ _ _ _ Hi Hs Hps) as (new' & Hnew' & He' & Hi').
  exists (new ++ new'). rewrite Hnew, Hnew', app_assoc, heights_app. split; [done|]. split.
  - change (p :: ps1) with ([p] ++ ps1). unfold errors in *. by rewrite !omap_app, He, He'.
  - change (p :: ps1) with ([p] ++ ps1). by rewrite heights_app, !app_assoc.
Qed.

Lemma range_prefix used out b : blocks_inv used out b → out `prefix_of` range used.
Proof.
  intros [_ Hm]. destruct used as [|f hs]; [by destruct Hm as (_ & _ & ->)|].
  destruct Hm as (_ & Hl & Hm). unfold range. set (l := highest f hs) in *.
  destruct (state b) as [|first streamed|s l'|l']; [done|..].
  - destruct Hm as (_ & -> & _ & ->). by replace (f - f + 1) with 1 by lia.
  - destruct Hm as (_ & Hs & ->). replace (l - f + 1) with ((s - f + 1) + (l - s)) by lia.
    rewrite (seqZ_app f (s - f + 1) (l - s)) by lia. by apply prefix_app_r.
  - by destruct Hm as (_ & ->).
Qed.

(** No block is missed and none is seen twice. Whatever heights the node reports at the ticks of
    the interval, repeated, lower than before or with gaps between them, the heights that the
    stream yields are consecutive, starting with the first reported one, and never ahead of the
    highest reported one; as soon as the stream has nothing to yield, every height up to the
    highest reported one was yielded. Errors of the node are passed on. *)
Theorem blocks_gapless (ticks : list (Poll (result Error Z))) (n : nat)
    (ps : list (Poll (result Error Z))) (b b' : Blocks) (p : Poll (result Error Z)) :
  Forall (λ x, 0 ≤ x ≤ height_max) (heights ticks) →
  polls n (blocks ticks) = (ps, b) → fill_gaps_poll_next b = (p, b') →
  ∃ reported reported', ticks = reported ++ script b ∧ script b = reported' ++ script b' ∧
    heights ps `prefix_of` range (heights reported) ∧ errors ps = errors reported ∧
    (height_of p = None → heights ps = range (heights (reported ++ reported'))).
Proof.
  intros Ht Hps Hp. assert (blocks_inv [] [] (blocks ticks)) as Hinv by by split; [constructor|].
  destruct (polls_inv n [] [] (blocks ticks) ps b Hinv Ht Hps) as (reported & Hr & He & Hi).
  cbn [app script blocks] in *. rewrite Hr, heights_app in Ht. apply Forall_app in Ht as [_ Ht].
  destruct (blocks_poll_inv _ _ _ _ _ Hi Ht Hp) as (reported' & Hr' & _ & _ & Hall).
  exists reported, reported'. split; [done|]. split; [done|]. split; [by eapply range_prefix|].
  split; [done|]. rewrite heights_app. exact Hall.
Qed.

End gapless.

End stream.

(** ** The events of the blocks *)
Module event_sub.
Import events retry stream.

Section event_sub.
Context `{Json}.

(** [tendermint_rpc::endpoint::block_results::Response] *)
Record BlockResults := mkResults {
  results_height : Z;
  begin_block_events : option (list AbciEvent);
  txs_results : option (list (list AbciEvent));
  end_block_events : option (list AbciEvent)
}.

Definition block_events (r : BlockResults) : list (result Error Event) :=
  let begin_block_events := default [] (begin_block_events r) in
  let tx_events := mjoin (default [] (txs_results r)) in
  let end_block_events := default [] (end_block_events r) in
  let events := (λ e, map_err (λ _, EventDecoding (results_height r)) (try_from_abci e)) <$>
                  begin_block_events ++ tx_events ++ end_block_events in
  [Ok (BlockBegin (results_height r))] ++ events ++ [Ok (BlockEnd (results_height r))].

(** What the node answers to the queries for the results of a block: the block, and how often the
    query failed before. *)
Definition Node := Z → Z → option BlockResults.

Definition block_results (node : Node) (block_height attempt : Z) : result Error BlockResults :=
  ok_or (BlockResultsQuery block_height) (node block_height attempt).

Definition retrieve_all_block_events (node : Node) (policy : RetryPolicy)
    (block_height : result Error Z) : option (result Error (list (result Error Event))) :=
  match block_height with
  | Ok block_height =>
      match with_retry (block_results node block_height) policy with
      | Some r => Some (block_events <$> r)
      | None => None
      end
  | Err err => Some (Err err)
  | Panic => Some Panic
  end.

(** [events]: the events of every block of the stream, in its order. *)
Definition flatten (r : option (result Error (list (result Error Event))))
    : list (result Error Event) :=
  match r with Some (Ok evs) => evs | Some (Err err) => [Err err] | _ => [] end.
Definition events (node : Node) (policy : RetryPolicy) (block_stream : list (result Error Z))
    : list (result Error Event) :=
  mjoin (flatten <$> (retrieve_all_block_events node policy <$> block_stream)).

(** [EventPublisher::run]: what is sent to the subscribers. Blocks that are streamed while nobody
    is subscribed are skipped. *)
Definition run (node : Node) (policy : RetryPolicy) (block_stream : list (result Error Z * bool))
    : list (result Error Event) :=
  events node policy (fst <$> filter (λ b, b.2 = true) block_stream).

(** The channel between the publisher and a subscriber, [tokio::sync::broadcast]: what was sent is
    received in order; a subscriber that lags more than the capacity behind has lost the oldest
    values, which it learns, with their number, in place of them; the rest may not be received
    yet. *)
Inductive received {A} : list A → list (result BroadcastStreamRecvError A) → Prop :=
  | received_so_far sent : received sent []
  | received_next x sent r : received sent r → received (x :: sent) (Ok x :: r)
  | received_lagged missed sent r :
      missed ≠ [] → received sent r →
      received (missed ++ sent) (Err (Lagged (Z.of_nat (length missed))) :: r).

(** [EventSubscriber::subscribe], on one value of the channel and on all. *)
Definition subscribed (event : result BroadcastStreamRecvError (result Error Event))
    : result Error Event :=
  match event with
  | Ok (Ok event) => Ok event
  | Ok (Err err) => Err err
  | Err err => Err (BroadcastStreamRecv err)
  | _ => Panic
  end.
Definition subscribe (r : list (result BroadcastStreamRecvError (result Error Event)))
    : list (result Error Event) := subscribed <$> r.

Lemma fmap_prefix {A B} (f : A → B) l k : l `prefix_of` k → f <$> l `prefix_of` f <$> k.
Proof. intros [l' ->]. rewrite fmap_app. by apply prefix_app_r. Qed.

(** The events before the first error. *)
Fixpoint leading {E A} (l : list (result E A)) : list A :=
  match l with Ok a :: l => a :: leading l | _ => [] end.

Lemma leading_prefix {E A} (l : list (result E A)) : Ok <$> leading l `prefix_of` l.
Proof. induction l as [|[a|e|] l IH]; cbn; [done|by apply prefix_cons|apply prefix_nil..]. Qed.
Lemma leading_all {E A} (l : list A) : leading ((Ok <$> l) : list (result E A)) = l.
Proof. induction l as [|a l IH]; [done|]. cbn. by f_equal. Qed.

(** Before the first error, a subscriber has received what was sent, from the start. *)
Lemma received_leading sent r :
  received sent r → Ok <$> leading (subscribe r) `prefix_of` sent.
Proof.
  induction 1 as [sent|x sent r _ IH|missed sent r _ _ _]; cbn; [apply prefix_nil| |apply prefix_nil].
  destruct x as [e|e|]; cbn; [by apply prefix_cons|apply prefix_nil..].
Qed.
Lemma received_whole (evs : list Event) :
  leading (subscribe (Ok <$> (Ok <$> evs))) = evs.
Proof.
  unfold subscribe. rewrite <-!list_fmap_compose. exact (leading_all (E := Error) evs).
Qed.

(** *** Filters ([event_sub/event_filter.rs]) *)

Inductive FilterError := EmptyFilter | InvalidContractAddress (contract : string).

Record EventFilter := mkFilter {
  event_type : option string;
  contract : option Addr;
  attributes : gmap string Value
}.

Definition build (f : EventFilter) : result FilterError EventFilter :=
  if bool_decide (event_type f = None ∧ contract f = None ∧ attributes f = ∅)
  then Err EmptyFilter else Ok f.

(** [TryFrom<ampd_proto::EventFilter>], with the parser of Axelar addresses. *)
Definition filter_try_from (parse : string → option Addr) (type contract : string)
    (attributes : gmap string string) : result FilterError EventFilter :=
  let event_type := if bool_decide (type = EmptyString) then None else Some type in
  contract ← (if bool_decide (contract = EmptyString) then Ok None
              else Some <$> ok_or (InvalidContractAddress contract) (parse contract));
  build (mkFilter event_type contract
           ((λ value, default (value_string value) (from_str value)) <$> attributes)).

Definition filter_matches (self : EventFilter) (ev_type : string) (ev_contract : option Addr)
    (ev_attributes : gmap string Value) : bool :=
  match event_type self with Some t => bool_decide (t = ev_type) | None => true end &&
  match contract self with Some c => bool_decide (ev_contract = Some c) | None => true end &&
  bool_decide (map_Forall (λ key value, ev_attributes !! key = Some value) (attributes self)).

Record EventFilters := mkFilters { filters : list EventFilter; include_block_begin_end : bool }.

Definition filter_abci_event (self : EventFilters) (ev_type : string) (ev_contract : option Addr)
    (ev_attributes : gmap string Value) : bool :=
  if bool_decide (filters self = [])
  then true
  else existsb (λ f, filter_matches f ev_type ev_contract ev_attributes) (filters self).

Definition filters_filter (self : EventFilters) (event : Event) : bool :=
  match event with
  | BlockBegin _ | BlockEnd _ => include_block_begin_end self
  | Abci ev_type ev_attributes =>
      filter_abci_event self ev_type (contract_address event) ev_attributes
  end.

(** The filter of the subscription in [create_handler_task] and in [subscribe]. *)
Definition passes (self : EventFilters) (event : result Error Event) : bool :=
  match event with Ok event => filters_filter self event | _ => true end.
Definition subscription (self : EventFilters) (evs : list (result Error Event))
    : list (result Error Event) :=
  filter (λ r, passes self r = true) evs.

Lemma subscription_ok fs evs :
  subscription fs (Ok <$> evs) = Ok <$> filter (λ e, filters_filter fs e = true) evs.
Proof.
  unfold subscription. induction evs as [|e evs IH]; [done|]. csimpl. rewrite !filter_cons. cbn.
  destruct (decide (filters_filter fs e = true)); csimpl; by rewrite IH.
Qed.

(** A filter keeps the order of the events and every error. *)
Lemma subscription_leading fs l :
  leading (subscription fs l) = filter (λ e, filters_filter fs e = true) (leading l).
Proof.
  unfold subscription. induction l as [|[e|e|] l IH]; [done|..]; rewrite filter_cons; cbn [passes].
  - cbn [leading]. rewrite filter_cons. destruct (decide (filters_filter fs e = true)); [|done].
    cbn. by rewrite IH.
  - by rewrite decide_True by done.
  - by rewrite decide_True by done.
Qed.
Lemma subscription_prefix fs l l' : l `prefix_of` l' → subscription fs l `prefix_of` subscription fs l'.
Proof. intros [k ->]. unfold subscription. rewrite filter_app. by apply prefix_app_r. Qed.

End event_sub.
End event_sub.

(** ** The loop of a handler ([event_processor.rs]) *)
Module event_processor.
Import events retry.

Inductive Error := EventStream.

Section loop.
Context `{Json} {HandlerError Msg : Type}.

Inductive StreamStatus := StatusOk (event : Event) | StatusError | TimedOut.

(** A handler: what it answers to an event, after a number of failed attempts. *)
Definition EventHandler := Event → Z → result HandlerError (list Msg).

(** With the state of the cancellation token when the event arrives. *)
Definition should_task_continue (is_cancelled : bool) (event : StreamStatus) : bool :=
  match event with
  | StatusOk (BlockBegin _) | TimedOut => negb is_cancelled
  | _ => true
  end.

(** The messages that are enqueued for an event. *)
Definition handle_event (handler : EventHandler) (policy : RetryPolicy) (event : Event)
    : list Msg :=
  match with_retry (handler event) policy with
  | Some (Ok msgs) => msgs
  | _ => []
  end.

(** The events that were handled, with the messages enqueued for them, and how the task ends. *)
Fixpoint consume_events (handler : EventHandler) (policy : RetryPolicy)
    (event_stream : list (StreamStatus * bool)) : list (Event * list Msg) * result Error unit :=
  match event_stream with
  | [] => ([], Ok tt)
  | (event, is_cancelled) :: event_stream =>
      if should_task_continue is_cancelled event then
        match event with
        | StatusOk event =>
            let '(log, res) := consume_events handler policy event_stream in
            ((event, handle_event handler policy event) :: log, res)
        | StatusError => ([], Err EventStream)
        | TimedOut => consume_events handler policy event_stream
        end
      else ([], Ok tt)
  end.

(** *** Where the loop stops *)

Definition handled (handler : EventHandler) (policy : RetryPolicy) (e : StreamStatus * bool)
    : option (Event * list Msg) :=
  match e.1 with StatusOk event => Some (event, handle_event handler policy event) | _ => None end.

(** A handler's task is never stopped within a block. The events are handled in their order, each
    once, and a handler that fails or gives up does not stop the task; the task stops when the
    stream ends, at an error of the stream, which it reports, or when it was cancelled, and then
    only at the beginning of a block or after the stream was silent for too long. *)
Theorem consume_events_exact (handler : EventHandler) (policy : RetryPolicy)
    (event_stream : list (StreamStatus * bool)) :
  ∃ seen rest, event_stream = seen ++ rest ∧
    (consume_events handler policy event_stream).1 = omap (handled handler policy) seen ∧
    Forall (λ e, e.1 ≠ StatusError ∧ should_task_continue e.2 e.1 = true) seen ∧
    match rest with
    | [] => (consume_events handler policy event_stream).2 = Ok tt
    | (StatusError, _) :: _ => (consume_events handler policy event_stream).2 = Err EventStream
    | (StatusOk event, is_cancelled) :: _ => is_cancelled = true ∧ (∃ h, event = BlockBegin h) ∧
        (consume_events handler policy event_stream).2 = Ok tt
    | (TimedOut, is_cancelled) :: _ => is_cancelled = true ∧
        (consume_events handler policy event_stream).2 = Ok tt
    end.
Proof.
  induction event_stream as [|[e c] l (seen & rest & -> & Hlog & Hall & Hrest)].
  { by exists [], []. }
  destruct (should_task_continue c e) eqn:Hgo; cbn [consume_events]; rewrite Hgo.
  - destruct e as [e| |].
    + destruct (consume_events handler policy (seen ++ rest)) as [log res] eqn:Hc.
      exists ((StatusOk e, c) :: seen), rest. cbn in Hlog, Hrest |- *. split; [done|].
      split; [by rewrite Hlog|]. split; [by constructor|]. done.
    + exists [], ((StatusError, c) :: seen ++ rest). done.
    + exists ((TimedOut, c) :: seen), rest. split; [done|]. split; [done|].
      split; [by constructor|]. done.
  - exists [], ((e, c) :: seen ++ rest). split; [done|]. split; [done|]. split; [constructor|].
    destruct e as [[h| |]| |]; destruct c; try done. by eauto.
Qed.

End loop.
End event_processor.

(** ** From the node to the handler *)
Module pipeline.
Import events retry stream event_sub event_processor.

Section pipeline.
Context `{Json} `{Heights} `{!HeightLaws} {HandlerError Msg : Type}.

(** What [blocks] yields. *)
Definition items (ps : list (Poll (result stream.Error Z))) : list (result stream.Error Z) :=
  omap (λ p, match p with Ready o => o | Pending => None end) ps.

(** What arrives at the task of a handler: what its subscription receives from the publisher, or
    nothing for too long. *)
Inductive Arrival :=
  | Item (event : result BroadcastStreamRecvError (result stream.Error Event))
  | Silence.

Definition status_of (r : result stream.Error Event) : StreamStatus :=
  match r with Ok e => StatusOk e | _ => StatusError end.

(** [create_handler_task]: the subscription, filtered, with the time-outs, is consumed. Each
    arrival comes with the state of the cancellation token at that moment. *)
Definition handler_stream (fs : EventFilters) (arrivals : list (Arrival * bool))
    : list (StreamStatus * bool) :=
  omap (λ '(arrival, is_cancelled),
    match arrival with
    | Silence => Some (TimedOut, is_cancelled)
    | Item event =>
        if passes fs (subscribed event) then Some (status_of (subscribed event), is_cancelled)
        else None
    end) arrivals.
Definition handler_task (fs : EventFilters) (handler : EventHandler) (handler_policy : RetryPolicy)
    (arrivals : list (Arrival * bool)) : list (Event * list Msg) * result Error unit :=
  consume_events (HandlerError := HandlerError) handler handler_policy (handler_stream fs arrivals).

Definition from_channel (arrivals : list (Arrival * bool))
    : list (result BroadcastStreamRecvError (result stream.Error Event)) :=
  omap (λ a, match a.1 with Item event => Some event | Silence => None end) arrivals.

(** The node serves the blocks of a chain: a query for a block fails, or it returns the block, and
    within the attempts of the policy it returns it. *)
Record serves (node : Node) (policy : RetryPolicy) (chain : Z → BlockResults) : Prop := {
  serves_policy : max_attempts policy ≤ u64_max;
  serves_sound h k r : node h k = Some r → r = chain h;
  serves_live h : ∃ k, 0 ≤ k < Z.max 1 (max_attempts policy) ∧ is_Some (node h k)
}.

Lemma retrieved node policy chain h :
  serves node policy chain →
  retrieve_all_block_events node policy (Ok h) = Some (Ok (block_events (chain h))).
Proof.
  intros [Hp Hs Hl]. unfold retrieve_all_block_events.
  destruct (retry_loop_spec (block_results node h) policy 0 (attempts policy))
    as (k & Hk & Hr & Herr & Hlast); [lia|done|lia|unfold attempts; lia|].
  unfold with_retry. rewrite Hr. unfold block_results in *.
  destruct (node h k) as [r|] eqn:Hn; cbn in *.
  { by apply Hs in Hn as ->. }
  specialize (Hlast eq_refl). destruct (Hl h) as (j & Hj & [r Hr']). unfold attempts in *.
  assert (j = k ∨ 0 ≤ j < k) as [->|Hjk] by lia; [congruence|].
  specialize (Herr j Hjk). by rewrite Hr' in Herr.
Qed.

Lemma events_of_blocks node policy chain hs :
  serves node policy chain →
  events node policy (Ok <$> hs) = mjoin ((λ h, block_events (chain h)) <$> hs).
Proof.
  intros Hnode. induction hs as [|h hs IH]; [done|]. unfold events in *. rewrite !fmap_cons.
  rewrite (retrieved _ _ _ _ Hnode). cbn [flatten]. exact (f_equal (app (block_events (chain h))) IH).
Qed.

Lemma items_heights ps : errors ps = [] → items ps = Ok <$> heights ps.
Proof.
  induction ps as [|p ps IH]; [done|]. destruct p as [[[h|e|]|]|]; cbn; try done.
  intros He. f_equal. by apply IH.
Qed.

(** The blocks with whether somebody is subscribed when they are streamed: the first [late] blocks
    come before the first subscription. *)
Definition subscribed_after (late : nat) (l : list (result stream.Error Z))
    : list (result stream.Error Z * bool) :=
  imap (λ i b, (b, bool_decide (late ≤ i)%nat)) l.

Lemma published_blocks late (l : list (result stream.Error Z)) :
  fst <$> filter (λ b, b.2 = true) (subscribed_after late l) = drop late l.
Proof.
  unfold subscribed_after. revert late. induction l as [|x l IH]; intros late; [by rewrite drop_nil|].
  rewrite imap_cons. destruct late as [|late].
  - rewrite filter_cons_True by done. cbn. f_equal. exact (IH 0%nat).
  - rewrite filter_cons_False by done. cbn [drop]. rewrite <-(IH late). do 2 f_equal.
    apply imap_ext. intros i b _. cbn. f_equal. apply bool_decide_ext. lia.
Qed.

(** Whatever arrives, the events that are handled are the first of those before an error. *)
Lemma task_prefix fs handler policy arrivals :
  ∃ done, done `prefix_of` leading (subscription fs (subscribe (from_channel arrivals))) ∧
    (handler_task fs handler policy arrivals).1 = (λ e, (e, handle_event handler policy e)) <$> done ∧
    ((handler_task fs handler policy arrivals).2 = Ok tt ∨
     (handler_task fs handler policy arrivals).2 = Err EventStream ∧
       ∃ r, r ∈ from_channel arrivals ∧ ∀ e, r ≠ Ok (Ok e)) ∧
    (Forall (λ a, a.2 = false) arrivals →
     done = leading (subscription fs (subscribe (from_channel arrivals)))).
Proof.
  unfold handler_task. rewrite subscription_leading.
  induction arrivals as [|[[r|] c] arrivals (done & Hd & Hlog & Hres & Hall)]; [by exists []; auto|..].
  - change (from_channel ((Item r, c) :: arrivals)) with (r :: from_channel arrivals).
    cbn [handler_stream omap list_omap]. fold (handler_stream fs arrivals).
    destruct r as [[e|e|]|e|]; cbn [subscribed passes subscribe fmap list_fmap leading status_of].
    2-5: exists []; cbn; split; [apply prefix_nil|]; split; [done|]; split; [right|done];
         (split; [done|]); eexists; (split; [left|]); done.
    rewrite filter_cons. destruct (filters_filter fs e) eqn:Hp.
    + rewrite decide_True by done. cbn [consume_events]. destruct (should_task_continue c (StatusOk e)) eqn:Hc.
      * destruct (consume_events _ _ _) as [log res]. cbn in Hlog, Hres |- *. exists (e :: done).
        rewrite Hlog. split; [by apply prefix_cons|]. split; [done|]. split.
        { destruct Hres as [?|[? (r & ? & ?)]]; [by left|right]. split; [done|]. exists r. split; [by right|done]. }
        intros Hf%Forall_cons. destruct Hf as [_ Hf]. by rewrite Hall.
      * exists []. split; [apply prefix_nil|]. split; [done|]. split; [by left|].
        intros Hf%Forall_cons. destruct Hf as [Hf _]. cbn in Hf. subst c. by destruct e.
    + rewrite decide_False by congruence. exists done. split; [done|]. split; [done|]. split.
      { destruct Hres as [?|[? (r & ? & ?)]]; [by left|right]. split; [done|]. exists r. split; [by right|done]. }
      intros Hf%Forall_cons. destruct Hf as [_ Hf]. by apply Hall.
  - change (from_channel ((Silence, c) :: arrivals)) with (from_channel arrivals).
    cbn [handler_stream omap list_omap consume_events]. fold (handler_stream fs arrivals).
    destruct c; cbn [should_task_continue negb].
    + exists []. split; [apply prefix_nil|]. split; [done|]. split; [by left|].
      intros Hf%Forall_cons. by destruct Hf as [Hf _].
    + exists done. do 3 (split; [done|]). intros Hf%Forall_cons. destruct Hf as [_ Hf]. by apply Hall.
Qed.

(** A value of the channel that is no event: a lag, or a published error. *)
Lemma received_error {A} (sent : list (result stream.Error A)) r x :
  received sent r → x ∈ r → (∀ e, x ≠ Ok (Ok e)) →
  (∃ n, x = Err (Lagged n)) ∨ ∃ y, y ∈ sent ∧ ∀ e, y ≠ Ok e.
Proof.
  intros Hr. induction Hr as [sent|y sent r _ IH|missed sent r _ _ IH]; intros Hx Hne.
  - inversion Hx.
  - apply elem_of_cons in Hx as [->|Hx]; [right|].
    + exists y. split; [left|]. intros e ->. by apply (Hne e).
    + destruct (IH Hx Hne) as [?|(z & Hz & ?)]; [by left|right]. exists z. split; [by right|done].
  - apply elem_of_cons in Hx as [->|Hx]; [left; eauto|].
    destruct (IH Hx Hne) as [?|(z & Hz & ?)]; [by left|right]. exists z.
    split; [apply elem_of_app; by right|done].
Qed.

(** The heights that were polled, of those that the node reported. *)
Lemma polled_heights ticks n ps b :
  errors ticks = [] → Forall (λ x, 0 ≤ x ≤ height_max) (heights ticks) → polls n (blocks ticks) = (ps, b) →
  errors ps = [] ∧ heights ps `prefix_of` range (heights ticks) ∧
  ((fill_gaps_poll_next b).1 = Pending → script b = [] → heights ps = range (heights ticks)).
Proof.
  intros Herr Hh Hps. assert (blocks_inv [] [] (blocks ticks)) as Hinv by by split; [constructor|].
  destruct (polls_inv n [] [] (blocks ticks) ps b Hinv Hh Hps) as (new & Hnew & He & Hi).
  cbn [app script blocks] in *. split; [|split].
  - rewrite He. rewrite Hnew in Herr. unfold errors in Herr. rewrite omap_app in Herr.
    by apply app_eq_nil in Herr as [? _].
  - apply range_prefix in Hi. etrans; [exact Hi|]. rewrite Hnew, heights_app.
    destruct (heights new) as [|f hs] eqn:Hf; [by apply prefix_nil|]. cbn. unfold range.
    rewrite highest_app. set (l := highest f hs) in *.
    assert (f ≤ l) as Hfl by (clear; subst l; revert f; induction hs as [|x hs IH]; intros f; cbn;
      [lia|etrans; [|apply IH]; lia]).
    assert (∀ hs' x, x ≤ highest x hs') as Hmono by (clear; intros hs'; induction hs' as [|y hs' IH];
      intros x; cbn; [lia|etrans; [|apply IH]; lia]).
    specialize (Hmono (heights (script b)) l). set (l' := highest l (heights (script b))) in *.
    replace (l' - f + 1) with ((l - f + 1) + (l' - l)) by lia.
    rewrite (seqZ_app f (l - f + 1) (l' - l)) by lia. by apply prefix_app_r.
  - intros Hq Hs. destruct (fill_gaps_poll_next b) as [p b'] eqn:Hf. cbn in Hq. subst p.
    assert (Forall (λ x, 0 ≤ x ≤ height_max) (heights (script b))) as Hb by by rewrite Hs.
    destruct (blocks_poll_inv _ _ _ _ _ Hi Hb Hf) as (new' & Hn' & _ & _ & Hall).
    rewrite Hall by done. rewrite Hs in Hn'. destruct new'; [|done]. rewrite Hnew, Hs, !app_nil_r. done.
Qed.

(** C18: A handler misses no event in silence. While the node answers, the daemon publishes the events
    of consecutive blocks, starting with the first reported one that is streamed after somebody
    subscribed, and once the stream has nothing more to yield these
    are all blocks up to the highest reported one. Whatever the handler's subscription then
    receives, what the handler is given are the first of the published events that pass its
    filters, in the order of the chain and each once: none is skipped. It is given all of them if
    every published event could be decoded, all were received without a lag, and the task was not
    cancelled. A task that ends with an error has met a lag, of which the channel informs it, or
    a published error: an event that could not be decoded. *)
Theorem handler_sees_every_event (node : Node) (policy : RetryPolicy) (chain : Z → BlockResults)
    (fs : EventFilters) (handler : EventHandler) (handler_policy : RetryPolicy)
    (ticks ps : list (Poll (result stream.Error Z))) (n : nat) (b : Blocks)
    (late : nat) (arrivals : list (Arrival * bool)) :
  serves node policy chain → errors ticks = [] →
  Forall (λ x, 0 ≤ x ≤ height_max) (heights ticks) → polls n (blocks ticks) = (ps, b) →
  let published := run node policy (subscribed_after late (items ps)) in
  received published (from_channel arrivals) →
  ∃ blocks_seen done, blocks_seen `prefix_of` range (heights ticks) ∧
    ((fill_gaps_poll_next b).1 = Pending → script b = [] → blocks_seen = range (heights ticks)) ∧
    published = mjoin ((λ h, block_events (chain h)) <$> drop late blocks_seen) ∧
    Ok <$> done `prefix_of` subscription fs published ∧
    (handler_task fs handler handler_policy arrivals).1 =
      (λ e, (e, handle_event handler handler_policy e)) <$> done ∧
    ((handler_task fs handler handler_policy arrivals).2 = Ok tt ∨
     (handler_task fs handler handler_policy arrivals).2 = Err EventStream ∧
       ((∃ missed, Err (Lagged missed) ∈ from_channel arrivals) ∨ ∃ r, r ∈ published ∧ ∀ e, r ≠ Ok e)) ∧
    (∀ evs, published = Ok <$> evs → from_channel arrivals = Ok <$> published →
       Forall (λ a, a.2 = false) arrivals →
       done = filter (λ e, filters_filter fs e = true) evs ∧
       (handler_task fs handler handler_policy arrivals).2 = Ok tt).
Proof.
  intros Hnode Herr Hh Hps published Hrec.
  destruct (polled_heights _ _ _ _ Herr Hh Hps) as (Hps' & Hpre & Hall).
  destruct (task_prefix fs handler handler_policy arrivals) as (done & Hd & Hlog & Hres & Hdone).
  exists (heights ps), done. split; [done|]. split; [done|].
  assert (published = mjoin ((λ h, block_events (chain h)) <$> drop late (heights ps))) as Hpub.
  { unfold published, run. rewrite (items_heights _ Hps'), published_blocks, <-fmap_drop.
    by apply events_of_blocks. }
  split; [done|]. split_and!; [|done| |].
  - etrans; [apply (fmap_prefix Ok); exact Hd|]. rewrite subscription_leading.
    rewrite <-subscription_ok. apply subscription_prefix. by apply received_leading.
  - destruct Hres as [?|[? (r & Hr & Hne)]]; [by left|right]. split; [done|].
    destruct (received_error _ _ _ Hrec Hr Hne) as [[k ->]|?]; [left|right]; eauto.
  - intros evs Hevs Hfrom Hc. rewrite (Hdone Hc), Hfrom, Hevs, subscription_leading, received_whole.
    split; [done|]. destruct Hres as [?|[_ (r & Hr & Hne)]]; [done|].
    rewrite Hfrom, Hevs in Hr. apply list_elem_of_fmap in Hr as (x & -> & Hx).
    apply list_elem_of_fmap in Hx as (e & -> & _). by destruct (Hne e).
Qed.

End pipeline.
End pipeline.

(** ** A run *)
Module ampd_stream_run.
Import events retry stream event_sub event_processor pipeline.

Definition run_json : Json :=
  Build_Json string _ Some id id Some.
Definition run_heights : Heights :=
  {| height_try_from h := if bool_decide (h ≤ height_max) then Some h else None;
     increment h := h + 1 |}.
#[local] Existing Instances run_json run_heights.
#[local] Instance run_json_laws : JsonLaws.
Proof. by split. Qed.
#[local] Instance run_height_laws : HeightLaws.
Proof. split; [|done]. intros h Hh. cbn. by rewrite bool_decide_eq_true_2 by lia. Qed.

Lemma event_proto_roundtrip_witness :
  try_from_proto (into_proto (BlockBegin 7)) = Ok (BlockBegin 7).
Proof. apply event_proto_roundtrip. vm_compute. split; discriminate. Defined.

(** The node reports the heights 5, 5, 8 and 7. *)
Definition run_ticks : list (Poll (result stream.Error Z)) :=
  (λ h, Ready (Some (Ok h))) <$> [5; 5; 8; 7].
Definition run_polls := polls 4 (blocks run_ticks).

Lemma run_ticks_ok : Forall (λ x, 0 ≤ x ≤ height_max) (heights run_ticks).
Proof. apply (bool_decide_unpack _). vm_compute. exact I. Qed.

Lemma blocks_gapless_witness : heights run_polls.1 = [5; 6; 7; 8].
Proof.
  destruct (blocks_gapless run_ticks 4 run_polls.1 run_polls.2
    (fill_gaps_poll_next run_polls.2).2 (fill_gaps_poll_next run_polls.2).1 run_ticks_ok)
    as (reported & reported' & Hr & Hr' & _ & _ & Hall); [reflexivity|reflexivity|].
  rewrite Hall by (vm_compute; reflexivity).
  assert (script (fill_gaps_poll_next run_polls.2).2 = []) as Hs by (vm_compute; reflexivity).
  rewrite Hs in Hr'. rewrite app_nil_r in Hr'. rewrite <-Hr', <-Hr. vm_compute. reflexivity.
Defined.

(** A node that answers at the second attempt. *)
Definition run_chain (h : Z) : BlockResults :=
  mkResults h None (Some [[mkAbci "wasm-voted" [(Some "poll_id", Some "1")]]]) None.
Definition run_node : Node := λ h k, if bool_decide (k = 1) then Some (run_chain h) else None.
Definition run_events (h : Z) : list Event :=
  [BlockBegin h; Abci "wasm-voted" {["poll_id" := "1"]}; BlockEnd h].
Definition run_filters : EventFilters := mkFilters [mkFilter (Some "wasm-voted") None ∅] false.
Definition run_handler : EventHandler (HandlerError := unit) (Msg := string) :=
  λ e _, match e with Abci t _ => Ok [t] | _ => Ok [] end.

Lemma run_serves : serves run_node (RepeatConstant 3) run_chain.
Proof.
  split.
  - vm_compute. discriminate.
  - intros h k r. unfold run_node. case_bool_decide; congruence.
  - intros h. exists 1. split; [vm_compute; split; [discriminate|reflexivity]|]. by eexists.
Qed.

(** What the daemon publishes, and two subscribers of it: one receives everything, the other one
    lags behind after the first block. *)
Definition run_published : list (result stream.Error Event) :=
  event_sub.run run_node (RepeatConstant 3) (subscribed_after 1 (items run_polls.1)).
Definition run_arrivals : list (Arrival * bool) :=
  (Silence, false) :: ((λ r, (Item (Ok r), false)) <$> run_published).
Definition run_lagging : list (Arrival * bool) :=
  ((λ r, (Item (Ok r), false)) <$> take 3 run_published) ++
  [(Item (Err (Lagged 6)), false)] ++ ((λ r, (Item (Ok r), false)) <$> drop 9 run_published).

Lemma received_everything {A} (l : list A) : received l (Ok <$> l).
Proof. induction l as [|x l IH]; cbn; by constructor. Qed.
Lemma received_cut {A} (l k m : list A) :
  m ≠ [] → received (l ++ m ++ k) ((Ok <$> l) ++ [Err (Lagged (Z.of_nat (length m)))] ++ (Ok <$> k)).
Proof.
  intros Hm. induction l as [|x l IH]; cbn; constructor; [done|apply received_everything|exact IH].
Qed.

Lemma handler_sees_every_event_witness :
  (handler_task (HandlerError := unit) (Msg := string) run_filters run_handler (RepeatConstant 1) run_arrivals).1 =
    replicate 3 (Abci "wasm-voted" {["poll_id" := "1"]}, ["wasm-voted"]) ∧
  (handler_task (HandlerError := unit) (Msg := string) run_filters run_handler (RepeatConstant 1) run_lagging).1
    `prefix_of` replicate 3 (Abci "wasm-voted" {["poll_id" := "1"]}, ["wasm-voted"]).
Proof.
  split.
  - destruct (handler_sees_every_event run_node (RepeatConstant 3) run_chain run_filters
      run_handler (RepeatConstant 1) run_ticks run_polls.1 4 run_polls.2 1 run_arrivals run_serves eq_refl
      run_ticks_ok (surjective_pairing run_polls)) as (seen & done & _ & _ & _ & _ & Ht & _ & Hall).
    { exact (received_everything run_published). }
    rewrite Ht. destruct (Hall (mjoin (run_events <$> [6; 7; 8]))) as [-> _];
      [vm_compute; reflexivity|reflexivity|repeat constructor|]. vm_compute. reflexivity.
  - destruct (handler_sees_every_event run_node (RepeatConstant 3) run_chain run_filters
      run_handler (RepeatConstant 1) run_ticks run_polls.1 4 run_polls.2 1 run_lagging run_serves eq_refl
      run_ticks_ok (surjective_pairing run_polls)) as (seen & done & _ & _ & _ & Hd & Ht & _).
    { exact (received_cut (take 3 run_published) (drop 9 run_published) (take 6 (drop 3 run_published))
        ltac:(vm_compute; discriminate)). }
    rewrite Ht. apply (fmap_prefix (λ r, match r with
        | Ok e => (e, handle_event run_handler (RepeatConstant 1) e)
        | _ => (BlockBegin 0, []) end)) in Hd.
    rewrite <-list_fmap_compose in Hd. exact Hd.
Defined.

End ampd_stream_run.
