(* ===== verification/AmpdBroadcast.v ===== *)
(** * How the daemon broadcasts

    [ampd/src/broadcast]: the queue that collects messages into transactions
    ([msg_queue.rs]), the broadcaster with its account sequence ([broadcaster.rs]), the task that
    broadcasts the batches and answers those who wait for the result ([mod.rs]), and the
    confirmation of transactions ([confirmer.rs]).

    A callback channel is a number; sending on it appends to a log. Messages of the chain are of
    any type: they are passed on as they are. *)

From Stdlib Require Import SpecFloat.
From S2P Require Import Prelude Std Voting MsgId AmpdStream.

Module broadcast.
Import retry.

(** [broadcast::Error] *)
Inductive Error :=
  | EnqueueMsg
  | EstimateGas
  | FeeAdjustment
  | AccountQuery
  | SignTx
  | BroadcastTx
  | GasExceedsGasCap (gas gas_cap : Z)
  | ConfirmTx (tx_hash : string).

(** The result of a transaction: its hash, and the position of the message in it. *)
Definition TxResult : Type := result Error (string * Z).
(** What was sent on which callback channel. *)
Definition Answers : Type := list (nat * TxResult).

(** ** The queue ([msg_queue.rs]) *)
Section queue.
Context {Msg : Type}.

Record QueueMsg := mkQueueMsg { msg : Msg; gas : Z; tx_res_callback : nat }.

Record Queue := mkQueue { msgs : list QueueMsg; gas_cost : Z; gas_cap : Z }.

Definition Queue_new (gas_cap : Z) : Queue := mkQueue [] 0 gas_cap.

Definition is_empty (q : Queue) : bool := match msgs q with [] => true | _ => false end.

(** [None] for an empty vector. *)
Definition nonempty_vec (l : list QueueMsg) : option (list QueueMsg) :=
  match l with [] => None | _ => Some l end.

Definition pop_all (q : Queue) : option (list QueueMsg) * Queue :=
  (nonempty_vec (msgs q), mkQueue [] 0 (gas_cap q)).

Definition handle_queue_error (m : QueueMsg) (err : Error) : Answers :=
  [(tx_res_callback m, Err err)].

(** The batch that is ready, what is sent to the message's callback, and the queue. *)
Definition push_or (q : Queue) (m : QueueMsg)
    : option (list QueueMsg) * Answers * Queue :=
  if bool_decide (gas_cap q < gas m)
  then (None, handle_queue_error m (GasExceedsGasCap (gas m) (gas_cap q)), q)
  else
    match checked_add u64_max (gas_cost q) (gas m) with
    | Some cost =>
        if bool_decide (cost ≤ gas_cap q) then
          if bool_decide (cost = gas_cap q) then
            let '(results, q) := pop_all q in
            (Some (default [] results ++ [m]), [], q)
          else (None, [], mkQueue (msgs q ++ [m]) cost (gas_cap q))
        else
          let '(results, q) := pop_all q in
          (results, [], mkQueue (msgs q ++ [m]) (gas m) (gas_cap q))
    | None =>
        let '(results, q) := pop_all q in
        (results, [], mkQueue (msgs q ++ [m]) (gas m) (gas_cap q))
    end.

(** The queue as a stream: the messages that wait in the channel, whether the channel is closed,
    and the time at which queued messages are released. *)
Record MsgQueue := mkMsgQueue {
  stream : list QueueMsg;
  closed : bool;
  deadline : Z;
  queue : Queue;
  duration : Z
}.

Definition new_msg_queue (gas_cap duration now : Z) : MsgQueue :=
  mkMsgQueue [] false (now + duration) (Queue_new gas_cap) duration.

Inductive Poll := Ready (batch : option (list QueueMsg)) | Pending.

(** [poll_next] at the time [now]. *)
Fixpoint poll_loop (now : Z) (closed : bool) (duration : Z) (stream : list QueueMsg)
    (deadline : Z) (q : Queue) : Poll * Answers * MsgQueue :=
  match stream with
  | m :: stream =>
      let deadline := if is_empty q then now + duration else deadline in
      let '(batch, answers, q) := push_or q m in
      match batch with
      | Some msgs => (Ready (Some msgs), answers, mkMsgQueue stream closed deadline q duration)
      | None =>
          let '(p, answers', mq) := poll_loop now closed duration stream deadline q in
          (p, answers ++ answers', mq)
      end
  | [] =>
      let released := let '(batch, q) := pop_all q in
                      (Ready batch, [], mkMsgQueue [] closed deadline q duration) in
      if closed then released
      else if is_empty q then (Pending, [], mkMsgQueue [] closed deadline q duration)
      else if bool_decide (deadline ≤ now) then released
      else (Pending, [], mkMsgQueue [] closed deadline q duration)
  end.

Definition poll_next (now : Z) (mq : MsgQueue) : Poll * Answers * MsgQueue :=
  poll_loop now (closed mq) (duration mq) (stream mq) (deadline mq) (queue mq).

(** What happens around the queue: a client sends a message, the last client is dropped, the task
    polls. *)
Inductive Step := Send (m : QueueMsg) | CloseChannel | PollAt (now : Z).

Record Trace := mkTrace {
  mq : MsgQueue;
  sent : list QueueMsg;
  batches : list (list QueueMsg);
  answers : Answers;
  time : Z
}.

Definition step (t : Trace) (s : Step) : Trace :=
  match s with
  | Send m =>
      if closed (mq t) then t
      else mkTrace (mkMsgQueue (stream (mq t) ++ [m]) false (deadline (mq t)) (queue (mq t))
                      (duration (mq t)))
             (sent t ++ [m]) (batches t) (answers t) (time t)
  | CloseChannel =>
      mkTrace (mkMsgQueue (stream (mq t)) true (deadline (mq t)) (queue (mq t)) (duration (mq t)))
        (sent t) (batches t) (answers t) (time t)
  | PollAt now =>
      let now := Z.max now (time t) in
      let '(p, a, q) := poll_next now (mq t) in
      mkTrace q (sent t)
        (batches t ++ match p with Ready (Some batch) => [batch] | _ => [] end)
        (answers t ++ a) now
  end.

Definition start (gas_cap duration now : Z) : Trace :=
  mkTrace (new_msg_queue gas_cap duration now) [] [] [] now.
Definition trace (gas_cap duration now : Z) (steps : list Step) : Trace :=
  foldl step (start gas_cap duration now) steps.

(** *** What the queue promises *)

Definition total_gas (l : list QueueMsg) : Z := foldr (λ m n, gas m + n) 0 l.

Definition fits (cap : Z) (m : QueueMsg) : Prop := gas m ≤ cap.
#[global] Instance fits_dec cap m : Decision (fits cap m).
Proof. unfold fits. apply _. Defined.

Definition rejected (cap : Z) (m : QueueMsg) : nat * TxResult :=
  (tx_res_callback m, Err (GasExceedsGasCap (gas m) cap)).

Record queue_inv (cap : Z) (q : Queue) : Prop := {
  inv_cap : gas_cap q = cap;
  inv_cost : gas_cost q = total_gas (msgs q);
  inv_total : total_gas (msgs q) ≤ cap
}.

Lemma total_gas_app l k : total_gas (l ++ k) = total_gas l + total_gas k.
Proof. unfold total_gas. induction l; cbn; lia. Qed.

(** Releasing everything and queueing one message. *)
Lemma flush_push cap q m batch q' :
  gas m ≤ cap → queue_inv cap q → msgs q ≠ [] →
  (batch, q') = (nonempty_vec (msgs q), mkQueue [m] (gas m) cap) →
  queue_inv cap q' ∧ default [] batch ++ msgs q' = msgs q ++ [m] ∧
  match batch with
  | Some b => b ≠ [] ∧ total_gas b ≤ cap ∧ msgs q `prefix_of` b
  | None => True
  end.
Proof.
  intros Hm [Hc Hg Ht] Hne [= -> ->]. split; [split; cbn; lia|].
  unfold nonempty_vec. destruct (msgs q) as [|x l] eqn:Hq; [done|]. cbn.
  split; [done|]. split; [done|]. split; [|done]. done.
Qed.

(** One message: rejected, queued, or queued with the release of a batch. *)
Lemma push_or_spec cap q m batch a q' :
  0 ≤ cap ≤ u64_max → queue_inv cap q → push_or q m = (batch, a, q') →
  queue_inv cap q' ∧
  if decide (fits cap m)
  then a = [] ∧ default [] batch ++ msgs q' = msgs q ++ [m] ∧
    match batch with
    | Some b => b ≠ [] ∧ total_gas b ≤ cap ∧ msgs q `prefix_of` b
    | None => True
    end
  else batch = None ∧ a = [rejected cap m] ∧ q' = q.
Proof.
  intros Hcap Hinv Hp. pose proof Hinv as [Hc Hg Ht]. unfold push_or, fits, pop_all in *.
  rewrite Hc in Hp. case_bool_decide as Hgas.
  { injection Hp as <- <- <-. split; [done|]. by rewrite decide_False by lia. }
  rewrite decide_True by lia. cbn in Hp.
  assert (cap < gas_cost q + gas m → msgs q ≠ []) as Hne.
  { intros Hlt Hnil. rewrite Hg, Hnil in Hlt. cbn in Hlt. lia. }
  destruct (checked_add u64_max (gas_cost q) (gas m)) as [cost|] eqn:Hadd;
    [apply checked_add_Some in Hadd as [-> Hov]|apply checked_add_None in Hadd].
  - case_bool_decide as Hle; [case_bool_decide as Heq|].
    + injection Hp as <- <- <-. split; [split; cbn; lia|]. cbn.
      assert (default [] (nonempty_vec (msgs q)) = msgs q) as -> by by destruct (msgs q).
      rewrite app_nil_r. split; [done|]. split; [done|]. split; [by destruct (msgs q)|].
      rewrite total_gas_app. cbn. split; [lia|]. by apply prefix_app_r.
    + injection Hp as <- <- <-. cbn. split; [split; cbn; [done|rewrite total_gas_app; cbn; lia..]|done].
    + injection Hp as <- <- <-. destruct (flush_push cap q m _ _ ltac:(lia) Hinv ltac:(apply Hne; lia)
        eq_refl) as (? & ? & ?). done.
  - injection Hp as <- <- <-. destruct (flush_push cap q m _ _ ltac:(lia) Hinv ltac:(apply Hne; lia)
      eq_refl) as (? & ? & ?). done.
Qed.

(** The state of the queue against what was sent. *)
Record trace_inv (cap : Z) (t : Trace) : Prop := {
  tr_queue : queue_inv cap (queue (mq t));
  tr_accepted : filter (fits cap) (sent t) =
    mjoin (batches t) ++ msgs (queue (mq t)) ++ filter (fits cap) (stream (mq t));
  tr_rejected : rejected cap <$> filter (λ m, ¬ fits cap m) (sent t) =
    answers t ++ (rejected cap <$> filter (λ m, ¬ fits cap m) (stream (mq t)));
  tr_batches : Forall (λ b, b ≠ [] ∧ total_gas b ≤ cap) (batches t);
  tr_deadline : msgs (queue (mq t)) ≠ [] → deadline (mq t) ≤ time t + duration (mq t)
}.

(** A poll that finds the channel empty. *)
Lemma poll_empty_spec cap now closed dur dl q p a mq' :
  0 ≤ cap → queue_inv cap q → (msgs q ≠ [] → dl ≤ now + dur) →
  poll_loop now closed dur [] dl q = (p, a, mq') →
  let batch := match p with Ready (Some b) => b | _ => [] end in
  [] = stream mq' ∧ queue_inv cap (queue mq') ∧ duration mq' = dur ∧
    msgs q = batch ++ msgs (queue mq') ∧ a = [] ∧
    match p with Ready (Some b) => b ≠ [] ∧ total_gas b ≤ cap ∧ msgs q `prefix_of` b | _ => True end ∧
    (msgs (queue mq') ≠ [] → deadline mq' ≤ now + dur) ∧
    (msgs q ≠ [] → batch = [] → deadline mq' = dl ∧ now < dl).
Proof.
  intros Hcap Hq Hdl Hp. pose proof Hq as [Hc Hg Ht]. cbn in Hp. unfold pop_all, is_empty in Hp.
  assert (queue_inv cap (mkQueue [] 0 (gas_cap q))) as Hnil by (split; cbn; [done|done|lia]).
  destruct (msgs q) as [|x l] eqn:Hm; cbn in Hp.
  - destruct closed; injection Hp as <- <- <-; cbn; rewrite ?Hm; done.
  - destruct closed; [|case_bool_decide]; injection Hp as <- <- <-; cbn; rewrite ?Hm.
    1,2: by split_and!; rewrite ?app_nil_r.
    split_and!; try done. intros _ _. split; [done|lia].
Qed.

(** One poll. *)
Lemma poll_loop_spec cap now closed dur s dl q p a mq' :
  0 ≤ cap ≤ u64_max → queue_inv cap q → (msgs q ≠ [] → dl ≤ now + dur) →
  poll_loop now closed dur s dl q = (p, a, mq') →
  let batch := match p with Ready (Some b) => b | _ => [] end in
  ∃ used, s = used ++ stream mq' ∧ queue_inv cap (queue mq') ∧ duration mq' = dur ∧
    msgs q ++ filter (fits cap) used = batch ++ msgs (queue mq') ∧
    a = rejected cap <$> filter (λ m, ¬ fits cap m) used ∧
    match p with Ready (Some b) => b ≠ [] ∧ total_gas b ≤ cap ∧ msgs q `prefix_of` b | _ => True end ∧
    (msgs (queue mq') ≠ [] → deadline mq' ≤ now + dur) ∧
    (msgs q ≠ [] → batch = [] → deadline mq' = dl ∧ now < dl).
Proof.
  intros Hcap. revert dl q a. induction s as [|m s IH]; intros dl q a Hq Hdl Hp; cbn in Hp.
  - apply poll_empty_spec with (cap := cap) in Hp; [|lia|done|done]. exists []. cbn.
    rewrite !app_nil_r. exact Hp.
  - destruct (push_or q m) as [[batch a1] q1] eqn:Hpush.
    destruct (push_or_spec _ _ _ _ _ _ Hcap Hq Hpush) as [Hq1 Hm].
    set (dl' := if is_empty q then now + dur else dl) in *.
    assert (dl' ≤ now + dur) as Hdl'.
    { subst dl'. unfold is_empty. destruct (msgs q); [lia|]. by apply Hdl. }
    assert (msgs q ≠ [] → dl' = dl) as Hsame.
    { subst dl'. unfold is_empty. by destruct (msgs q). }
    destruct batch as [batch|].
    + injection Hp as <- <- <-. destruct (decide (fits cap m)) as [Hfit|]; [|by destruct Hm].
      destruct Hm as (-> & Heq & Hb). exists [m]. cbn [stream queue duration deadline].
      rewrite !filter_cons_True, !filter_cons_False by auto. cbn. cbn in Heq.
      split; [done|]. split; [done|]. split; [done|]. split; [done|]. split; [done|].
      split; [done|]. split; [done|]. intros _ ->. by destruct Hb.
    + destruct (poll_loop now closed dur s dl' q1) as [[p' a2] mq2] eqn:Hl. injection Hp as <- <- <-.
      destruct (IH dl' q1 a2 Hq1 ltac:(done) Hl) as (used & -> & Hq2 & Hd & Heq & -> & Hb & Hdl2 & Hlast).
      exists (m :: used). split; [done|]. split; [done|]. split; [done|].
      destruct (decide (fits cap m)) as [Hfit|Hfit].
      * destruct Hm as (-> & Hm & _). cbn in Hm. rewrite Hm in *.
        rewrite filter_cons_True, filter_cons_False by auto.
        split; [by rewrite <-Heq, <-app_assoc|]. split; [done|]. split; [|split; [done|]].
        { destruct p' as [[b|]|]; [|done..]. destruct Hb as (? & ? & Hpre). split; [done|].
          split; [done|]. etrans; [|exact Hpre]. by apply prefix_app_r. }
        intros Hne Hbatch. rewrite <-(Hsame Hne). apply Hlast; [by destruct (msgs q)|done].
      * destruct Hm as (_ & -> & ->). rewrite filter_cons_False, filter_cons_True by auto.
        split; [done|]. split; [done|]. split; [done|]. split; [done|].
        intros Hne Hbatch. rewrite <-(Hsame Hne). by apply Hlast.
Qed.

Lemma step_inv cap t st : 0 ≤ cap ≤ u64_max → trace_inv cap t → trace_inv cap (step t st).
Proof.
  intros Hcap [Hq Ha Hr Hb Hd]. destruct st as [m| |now]; cbn.
  - destruct (closed (mq t)); [done|]. split; cbn; [done| |  |done|done].
    + rewrite !filter_app, Ha, !app_assoc. done.
    + rewrite !filter_app, !fmap_app, Hr, app_assoc. done.
  - by split.
  - set (now' := Z.max now (time t)).
    destruct (poll_next now' (mq t)) as [[p a] q] eqn:Hp.
    apply (poll_loop_spec cap) in Hp as (used & Hs & Hq' & Hdur & Hm & -> & Hbatch & Hdl & _);
      [|done|done|intros Hne; specialize (Hd Hne); lia].
    split; cbn [mq sent batches answers time]; [done|..].
    + rewrite Ha, Hs, filter_app, join_app, <-!app_assoc. f_equal.
      rewrite app_assoc, Hm, <-app_assoc. by destruct p as [[b|]|]; cbn; rewrite ?app_nil_r.
    + by rewrite Hr, Hs, filter_app, fmap_app, app_assoc.
    + apply Forall_app. split; [done|]. destruct p as [[b|]|]; [|constructor..].
      constructor; [by destruct Hbatch as (? & ? & _)|constructor].
    + rewrite Hdur. done.
Qed.

Lemma trace_inv_start cap dur now : 0 ≤ cap → trace_inv cap (start cap dur now).
Proof. intros Hcap. by split. Qed.

Lemma steps_inv cap t steps : 0 ≤ cap ≤ u64_max → trace_inv cap t → trace_inv cap (foldl step t steps).
Proof.
  intros Hcap. revert t. induction steps as [|s steps IH]; intros t Ht; [done|]. cbn.
  by apply IH, step_inv.
Qed.

(** Messages become transactions in order, each once. Whatever is sent when and however the queue
    is polled, the messages that do not exceed the gas cap are those of the batches so far,
    followed by those queued and those that still wait in the channel, in the order in which
    they were sent; every batch holds a message and costs at most the gas cap; and exactly the
    messages over the cap are answered with that error. *)
Theorem queue_batches_exact (cap dur now : Z) (steps : list Step) :
  0 ≤ cap ≤ u64_max →
  let t := trace cap dur now steps in
  filter (fits cap) (sent t) =
    mjoin (batches t) ++ msgs (queue (mq t)) ++ filter (fits cap) (stream (mq t)) ∧
  rejected cap <$> filter (λ m, ¬ fits cap m) (sent t) =
    answers t ++ (rejected cap <$> filter (λ m, ¬ fits cap m) (stream (mq t))) ∧
  Forall (λ b, b ≠ [] ∧ total_gas b ≤ cap) (batches t).
Proof.
  intros Hcap. cbn zeta.
  destruct (steps_inv cap _ steps Hcap (trace_inv_start cap dur now ltac:(lia))) as [_ Ha Hr Hb _].
  done.
Qed.

(** The messages queued at one moment: released, or still there with the same deadline. *)
Definition released (t1 t : Trace) : Prop :=
  mjoin (batches t1) ++ msgs (queue (mq t1)) `prefix_of` mjoin (batches t).
Definition waits (t1 t : Trace) : Prop :=
  mjoin (batches t) = mjoin (batches t1) ∧ msgs (queue (mq t1)) `prefix_of` msgs (queue (mq t)) ∧
  msgs (queue (mq t1)) ≠ [] ∧ deadline (mq t) = deadline (mq t1).

(** A poll releases them, or their deadline is still to come. *)
Lemma poll_waits cap t1 t now :
  0 ≤ cap ≤ u64_max → trace_inv cap t → duration (mq t) = duration (mq t1) →
  released t1 t ∨ waits t1 t →
  let t' := step t (PollAt now) in
  duration (mq t') = duration (mq t1) ∧
  (released t1 t' ∨ waits t1 t' ∧ time t' < deadline (mq t1)).
Proof.
  intros Hcap [Hq _ _ _ Hd] Hdur Hw. cbn zeta. unfold step. set (now' := Z.max now (time t)).
  destruct (poll_next now' (mq t)) as [[p a] q] eqn:Hp.
  apply (poll_loop_spec cap) in Hp as (used & _ & _ & Hdur' & Hm & _ & Hbatch & _ & Hlast);
    [|done|done|intros Hne; specialize (Hd Hne); lia].
  split; [cbn; congruence|]. unfold released, waits. cbn [mq batches time]. rewrite join_app.
  destruct Hw as [Hpre|(Hb & Hpre & Hne & Hdl)]; [left; by apply prefix_app_r|].
  assert (msgs (queue (mq t)) ≠ []) as Hne'.
  { intros Hnil. rewrite Hnil in Hpre. by apply prefix_nil_inv in Hpre. }
  assert (match p with Ready (Some b) => b | _ => [] end = [] →
    (mjoin (batches t) ++ [] = mjoin (batches t1) ∧
     msgs (queue (mq t1)) `prefix_of` msgs (queue q) ∧ msgs (queue (mq t1)) ≠ [] ∧
     deadline q = deadline (mq t1)) ∧ now' < deadline (mq t1)) as Hstay.
  { intros Hnil. destruct (Hlast Hne' Hnil) as [Hdl' Hlt]. rewrite Hnil in Hm. cbn in Hm.
    rewrite app_nil_r, <-Hm. split; [|congruence]. split; [done|].
    split; [by apply prefix_app_r|]. split; [done|congruence]. }
  destruct p as [[b|]|]; [left|right; exact (Hstay eq_refl)|right; exact (Hstay eq_refl)].
  rewrite Hb. apply prefix_app. cbn. rewrite app_nil_r. destruct Hbatch as (_ & _ & Hbp). by etrans.
Qed.

Lemma step_waits cap t1 t st :
  0 ≤ cap ≤ u64_max → trace_inv cap t →
  duration (mq t) = duration (mq t1) ∧ (released t1 t ∨ waits t1 t) →
  duration (mq (step t st)) = duration (mq t1) ∧ (released t1 (step t st) ∨ waits t1 (step t st)).
Proof.
  intros Hcap Hinv [Hdur Hw]. destruct st as [m| |now].
  - cbn. by destruct (closed (mq t)).
  - done.
  - destruct (poll_waits cap t1 t now Hcap Hinv Hdur Hw) as [? [?|[? _]]]; auto.
Qed.

Lemma steps_wait cap t1 t steps :
  0 ≤ cap ≤ u64_max → trace_inv cap t →
  duration (mq t) = duration (mq t1) ∧ (released t1 t ∨ waits t1 t) →
  duration (mq (foldl step t steps)) = duration (mq t1) ∧
  (released t1 (foldl step t steps) ∨ waits t1 (foldl step t steps)).
Proof.
  intros Hcap. revert t. induction steps as [|s steps IH]; intros t Ht Hw; [done|]. cbn [foldl].
  apply IH; [by apply step_inv|by eapply step_waits].
Qed.

Lemma waits_refl t :
  duration (mq t) = duration (mq t) ∧ (released t t ∨ waits t t).
Proof.
  split; [done|]. unfold released, waits. destruct (decide (msgs (queue (mq t)) = [])) as [->|];
    [left; by rewrite app_nil_r|by right].
Qed.

(** No queued message waits longer than the configured time. Whatever happens after a moment at
    which messages are queued, a poll at least [dur] later has released all of them, unless
    they were released before. *)
Theorem queued_messages_released (cap dur now : Z) (steps steps' : list Step) (later : Z) :
  0 ≤ cap ≤ u64_max →
  let t1 := trace cap dur now steps in
  let t2 := step (foldl step t1 steps') (PollAt later) in
  time t1 + dur ≤ later →
  mjoin (batches t1) ++ msgs (queue (mq t1)) `prefix_of` mjoin (batches t2).
Proof.
  intros Hcap t1 t2 Hlater. pose proof (trace_inv_start cap dur now ltac:(lia)) as Hi0.
  assert (trace_inv cap t1) as Hi1 by by apply steps_inv.
  destruct (steps_wait cap _ _ steps Hcap Hi0 (waits_refl _)) as [Hdur _]. fold (trace cap dur now steps) in Hdur.
  fold t1 in Hdur. cbn in Hdur.
  destruct (steps_wait cap t1 t1 steps' Hcap Hi1 (waits_refl t1)) as [Hdur' Hw].
  destruct (poll_waits cap t1 _ later Hcap (steps_inv _ _ steps' Hcap Hi1) Hdur' Hw)
    as [_ [Hr|[(_ & _ & Hne & _) Hlt]]]; [exact Hr|].
  exfalso. pose proof (tr_deadline _ _ Hi1 Hne) as Hd. rewrite Hdur in Hd.
  assert (later ≤ time (step (foldl step t1 steps') (PollAt later))); [|lia].
  unfold step at 1. by destruct (poll_next _ _) as [[p a] q]; cbn; lia.
Qed.

End queue.
Arguments QueueMsg : clear implicits.
Arguments Queue : clear implicits.
Arguments MsgQueue : clear implicits.

(** ** Floating-point numbers *)

(** [f64] is the IEEE format with a precision of 53 bits. *)
Definition f64 : Type := spec_float.
Definition f64_from (n : Z) : f64 := binary_normalize 53 1024 n 0 false.
Definition f64_mul (x y : f64) : f64 := SFmul 53 1024 x y.

(** The integer part, rounded towards zero, of a finite number. *)
Definition f64_trunc (x : f64) : option Z :=
  match x with
  | S754_zero _ => Some 0
  | S754_finite s m e =>
      let n := if bool_decide (0 ≤ e) then Z.pos m * 2 ^ e else Z.pos m / 2 ^ (- e) in
      Some (if s then - n else n)
  | S754_infinity _ | S754_nan => None
  end.

(** [ceil] *)
Definition f64_ceil (x : f64) : f64 :=
  match x with
  | S754_finite s m e =>
      if bool_decide (0 ≤ e) then x
      else
        let n := if s then - (Z.pos m / 2 ^ (- e)) else - (- Z.pos m / 2 ^ (- e)) in
        binary_normalize 53 1024 n 0 s
  | _ => x
  end.

(** [num_traits::cast] to an unsigned integer: a number that, without its fraction, is in
    range. *)
Definition f64_cast (max : Z) (x : f64) : option Z :=
  n ← f64_trunc x; if bool_decide (0 ≤ n ≤ max) then Some n else None.

(** ** The broadcaster ([broadcaster.rs]) *)
Section broadcaster.
Context {Msg : Type}.

Record Fee := mkFee { amount : Z; denom : string; gas_limit : Z }.
Record Tx := mkTx { tx_msgs : list Msg; acc_sequence_of : Z; fee : Fee; acc_number_of : Z }.
Record TxResponse := mkTxResponse { txhash : string; code : Z }.

(** What the chain's node and the signer answer during a call. [simulate] fails with a message;
    [account] is the account's sequence. *)
Record Client := mkClient {
  simulate : list Msg → Z → result string Z;
  broadcast_tx : Tx → option TxResponse;
  account : option Z;
  sign : Tx → bool
}.

(** The regular expression of [SEQUENCE_ERROR_REGEX]: the text of its first group in the first
    match. *)
Class SequenceRegex := captures : string → option string.

Record Broadcaster := mkBroadcaster {
  acc_number : Z;
  acc_sequence : Z;
  gas_adjustment : f64;
  gas_price : f64;
  gas_price_denom : string
}.
Definition set_sequence (b : Broadcaster) (n : Z) : Broadcaster :=
  mkBroadcaster (acc_number b) n (gas_adjustment b) (gas_price b) (gas_price_denom b).

Context `{SequenceRegex}.

Definition parse_sequence_error (error_msg : string) : option Z :=
  m ← captures error_msg; parse_uint u64_max (text_of m).

(** The account sequence is kept under a lock; each of the next three operations holds it. *)
Definition estimate_gas (b : Broadcaster) (client : Client) (msgs : list Msg)
    : result Error Z * Broadcaster :=
  match simulate client msgs (acc_sequence b) with
  | Ok gas => (Ok gas, b)
  | Err e =>
      match parse_sequence_error e with
      | Some expected_seq =>
          (map_err (λ _, EstimateGas) (simulate client msgs expected_seq),
           set_sequence b expected_seq)
      | None => (Err EstimateGas, b)
      end
  | Panic => (Panic, b)
  end.

Definition reset_sequence (b : Broadcaster) (client : Client) : result Error unit * Broadcaster :=
  match account client with
  | Some sequence => (Ok tt, set_sequence b sequence)
  | None => (Err AccountQuery, b)
  end.

(** The fee for an amount of gas, in the second half of [estimate_fee]. *)
Definition fee_for (b : Broadcaster) (gas : Z) : result Error Fee :=
  let gas := f64_mul (f64_from gas) (gas_adjustment b) in
  amount ← ok_or FeeAdjustment (f64_cast u128_max (f64_ceil (f64_mul gas (gas_price b))));
  gas_limit ← ok_or FeeAdjustment (f64_cast u64_max gas);
  Ok (mkFee amount (gas_price_denom b) gas_limit).

Definition estimate_fee (b : Broadcaster) (client : Client) (msgs : list Msg)
    : result Error Fee * Broadcaster :=
  match estimate_gas b client msgs with
  | (Ok gas, b) => (fee_for b gas, b)
  | (Err e, b) => (Err e, b)
  | (Panic, b) => (Panic, b)
  end.

(** Signing and sending, with the sequence at that moment. *)
Definition send_tx (b : Broadcaster) (client : Client) (msgs : list Msg) (fee : Fee)
    : result Error TxResponse * Broadcaster :=
  let tx := mkTx msgs (acc_sequence b) fee (acc_number b) in
  if sign client tx then
    match broadcast_tx client tx with
    | Some tx_response =>
        match checked_add u64_max (acc_sequence b) 1 with
        | Some next => (Ok tx_response, set_sequence b next)
        | None => (Panic, b)
        end
    | None =>
        match reset_sequence b client with
        | (Ok _, b) => (Err BroadcastTx, b)
        | (Err e, b) => (Err e, b)
        | (Panic, b) => (Panic, b)
        end
    end
  else (Err SignTx, b).

(** [broadcast]: the lock is free between the two halves, where other clients of the same
    account may estimate gas ([meanwhile]). *)
Definition broadcaster_broadcast (b : Broadcaster) (client : Client)
    (meanwhile : Broadcaster → Broadcaster) (msgs : list Msg)
    : result Error TxResponse * Broadcaster :=
  match estimate_fee b client msgs with
  | (Ok fee, b) => send_tx (meanwhile b) client msgs fee
  | (Err e, b) => (Err e, b)
  | (Panic, b) => (Panic, b)
  end.

(** *** The account sequence *)

(** A node whose account is at sequence [n]: it simulates and accepts transactions with that
    sequence, and refuses others in the words that the broadcaster understands. *)
Record follows_sequence (client : Client) (n : Z) : Prop := {
  follows_range : 0 ≤ n < u64_max;
  follows_simulate msgs : is_ok (simulate client msgs n) = true;
  follows_mismatch msgs s : s ≠ n →
    ∃ e, simulate client msgs s = Err e ∧ parse_sequence_error e = Some n;
  follows_broadcast tx : acc_sequence_of tx = n → is_Some (broadcast_tx client tx)
}.

(** Other clients that estimate gas at the same node. *)
Definition estimates (client : Client) (ests : list (list Msg)) (b : Broadcaster) : Broadcaster :=
  foldl (λ b msgs, (estimate_gas b client msgs).2) b ests.

Lemma estimate_follows client n b msgs :
  follows_sequence client n →
  (∃ gas, simulate client msgs n = Ok gas ∧ estimate_gas b client msgs = (Ok gas, set_sequence b n)).
Proof.
  intros [Hn Hs Hm _]. specialize (Hs msgs). destruct (simulate client msgs n) as [gas|e|] eqn:Hg; try done.
  exists gas. split; [done|]. unfold estimate_gas. destruct (decide (acc_sequence b = n)) as [<-|Hne].
  - rewrite Hg. by destruct b.
  - destruct (Hm msgs _ Hne) as (e & -> & ->). by rewrite Hg.
Qed.

Lemma estimates_follow client n ests b :
  follows_sequence client n → acc_sequence b = n → estimates client ests b = b.
Proof.
  intros Hf Hb. unfold estimates. induction ests as [|msgs ests IH]; [done|]. cbn.
  destruct (estimate_follows client n b msgs Hf) as (gas & _ & ->). cbn.
  assert (set_sequence b n = b) as -> by by destruct b; cbn in *; subst. exact IH.
Qed.

(** C25: A broadcaster whose account sequence is out of step recovers by itself. Whatever sequence it
    starts from, and whatever gas other clients of the account estimate in between, if the node
    follows the account's sequence, the fee for the estimated gas can be represented and the
    transaction gets signed, the messages are broadcast in a transaction with exactly
    that sequence, and the broadcaster continues with the next one. *)
Theorem broadcast_recovers (client : Client) (b : Broadcaster) (n gas : Z) (msgs : list Msg)
    (ests : list (list Msg)) (fee : Fee) :
  follows_sequence client n → simulate client msgs n = Ok gas → fee_for b gas = Ok fee →
  let tx := mkTx msgs n fee (acc_number b) in
  sign client tx = true →
  ∃ tx_response, broadcast_tx client tx = Some tx_response ∧
    broadcaster_broadcast b client (estimates client ests) msgs =
      (Ok tx_response, set_sequence b (n + 1)).
Proof.
  intros Hf Hg Hfee tx Hsign. destruct (estimate_follows client n b msgs Hf) as (gas' & Hg' & He).
  rewrite Hg in Hg'. injection Hg' as <-.
  destruct (follows_broadcast _ _ Hf tx eq_refl) as [resp Hresp]. exists resp. split; [done|].
  unfold broadcaster_broadcast, estimate_fee. rewrite He.
  assert (fee_for (set_sequence b n) gas = Ok fee) as -> by done.
  rewrite (estimates_follow client n) by done. unfold send_tx. cbn [acc_sequence acc_number set_sequence].
  fold tx. rewrite Hsign, Hresp. pose proof (follows_range _ _ Hf).
  assert (checked_add u64_max n 1 = Some (n + 1)) as -> by (apply checked_add_Some; lia). done.
Qed.

End broadcaster.
Arguments Tx : clear implicits.
Arguments Client : clear implicits.

(** ** The task ([mod.rs]) *)
Section task.
Context {Any : Type} `{SequenceRegex}.

(** What is sent to the chain: a message by itself, to estimate its gas, or the request that holds
    the messages of a batch. *)
Inductive ChainMsg := Plain (m : Any) | BatchRequest (sender : Addr) (messages : list Any).

(** [enqueue_with_channel]: the gas of the message is estimated, then it is sent to the queue. *)
Definition enqueue_with_channel (b : Broadcaster) (client : Client ChainMsg) (queue_open : bool)
    (m : Any) (callback : nat) : result Error (QueueMsg Any) * Broadcaster :=
  match estimate_gas b client [Plain m] with
  | (Ok gas, b) =>
      (if queue_open then Ok (mkQueueMsg m gas callback) else Err EnqueueMsg, b)
  | (Err e, b) => (Err e, b)
  | (Panic, b) => (Panic, b)
  end.

(** The free function [broadcast]. *)
Definition broadcast (b : Broadcaster) (client : Client ChainMsg)
    (meanwhile : Broadcaster → Broadcaster) (sender : Addr) (messages : list Any)
    : result Error TxResponse * Broadcaster :=
  broadcaster_broadcast b client meanwhile [BatchRequest sender messages].

(** [handle_tx_res]: the answers to those who wait, and the hash that is sent to the confirmer.
    [confirmer] says whether there is one, and whether it still listens. *)
Definition answer (tx_hash : result Error string) (i : nat) (m : QueueMsg Any) : nat * TxResult :=
  (tx_res_callback m, (λ h, (h, Z.of_nat i)) <$> tx_hash).
Definition handle_tx_res (confirmer : option bool) (tx_hash : result Error string)
    (msgs : list (QueueMsg Any)) : result Error (list string * Answers) :=
  confirm ← match confirmer, tx_hash with
            | Some listens, Ok tx_hash =>
                if listens : bool then Ok [tx_hash] else Err (ConfirmTx tx_hash)
            | _, _ => Ok []
            end;
  Ok (confirm, imap (answer tx_hash) msgs).

(** What the world does while a batch is broadcast. *)
Record TaskEnv := mkTaskEnv {
  client : Client ChainMsg;
  meanwhile : Broadcaster → Broadcaster;
  confirmer : option bool
}.

(** [BroadcasterTask::run]: the hashes to confirm, the answers, and how the task ends. *)
Fixpoint run (b : Broadcaster) (sender : Addr) (msg_queue : list (list (QueueMsg Any) * TaskEnv))
    : list string * Answers * result Error unit :=
  match msg_queue with
  | [] => ([], [], Ok tt)
  | (msgs, env) :: msg_queue =>
      let '(res, b) := broadcast b (client env) (meanwhile env) sender (msg <$> msgs) in
      match res with
      | Panic => ([], [], Panic)
      | _ =>
          match handle_tx_res (confirmer env) (txhash <$> res) msgs with
          | Ok (confirm, answers) =>
              let '(confirm', answers', r) := run b sender msg_queue in
              (confirm ++ confirm', answers ++ answers', r)
          | Err e => ([], [], Err e)
          | Panic => ([], [], Panic)
          end
      end
  end.

(** The result of the broadcast of every batch. *)
Fixpoint broadcasts (b : Broadcaster) (sender : Addr)
    (msg_queue : list (list (QueueMsg Any) * TaskEnv)) : list (result Error string) :=
  match msg_queue with
  | [] => []
  | (msgs, env) :: msg_queue =>
      let '(res, b) := broadcast b (client env) (meanwhile env) sender (msg <$> msgs) in
      (txhash <$> res) :: broadcasts b sender msg_queue
  end.

(** *** Everybody gets an answer *)

Lemma run_answers b sender q confirm a :
  run b sender q = (confirm, a, Ok tt) →
  a = mjoin (zip_with (λ p r, imap (answer r) p.1) q (broadcasts b sender q)).
Proof.
  revert b confirm a. induction q as [|[msgs env] q IH]; intros b confirm a Hr; cbn in *.
  { by injection Hr. }
  destruct (broadcast b _ _ _ _) as [res b1]. unfold handle_tx_res in Hr.
  destruct res as [r|e|]; [| |done]; cbn in Hr.
  - destruct (confirmer env) as [[|]|]; cbn in Hr; try done;
      destruct (run b1 sender q) as [[c' a'] r'] eqn:Hrun; injection Hr as <- <- ->;
      by rewrite (IH _ _ _ Hrun).
  - destruct (confirmer env) as [listens|]; cbn in Hr;
      destruct (run b1 sender q) as [[c' a'] r'] eqn:Hrun; injection Hr as <- <- ->;
      by rewrite (IH _ _ _ Hrun).
Qed.

Lemma answers_callbacks r (msgs : list (QueueMsg Any)) :
  fst <$> imap (answer r) msgs = tx_res_callback <$> msgs.
Proof.
  rewrite fmap_imap. exact (imap_const tx_res_callback msgs).
Qed.

Lemma broadcasts_length b sender q : length (broadcasts b sender q) = length q.
Proof.
  revert b. induction q as [|[msgs env] q IH]; intros b; [done|]. cbn.
  destruct (broadcast b _ _ _ _). cbn. by rewrite IH.
Qed.

Lemma zip_callbacks (q : list (list (QueueMsg Any) * TaskEnv)) rs :
  length rs = length q →
  fst <$> mjoin (zip_with (λ p r, imap (answer r) p.1) q rs) =
  tx_res_callback <$> mjoin (fst <$> q).
Proof.
  revert rs. induction q as [|[msgs env] q IH]; intros [|r rs] Hl; try done. cbn in *.
  rewrite !fmap_app. f_equal; [apply answers_callbacks|]. apply IH. lia.
Qed.

(** C20: Everybody who sends a message gets one answer, and the right one. When the queue was polled
    until nothing was left, in the channel or queued, and the task broadcast the batches without
    losing its confirmer, every message that was sent, and no other, was answered exactly once.
    The answers of the queue are, in order, those to the messages that exceed the gas cap, each with
    the error that names its gas and the cap; the batches are, in order, all other messages; and the
    answers of the task are, message by message, the result of the broadcast of the message's batch
    and its position in it. *)
Theorem every_message_answered (cap dur now : Z) (steps : list Step) (b : Broadcaster)
    (sender : Addr) (envs : list TaskEnv) (confirm : list string) (a : Answers) :
  0 ≤ cap ≤ u64_max →
  let t := trace cap dur now steps in
  stream (mq t) = [] → msgs (queue (mq t)) = [] → length envs = length (batches t) →
  let q := zip (batches t) envs in
  run b sender q = (confirm, a, Ok tt) →
  answers t = (λ m, (tx_res_callback m, Err (GasExceedsGasCap (gas m) cap)))
                <$> filter (λ m, ¬ gas m ≤ cap) (sent t) ∧
  mjoin (batches t) = filter (λ m, gas m ≤ cap) (sent t) ∧
  a = mjoin (zip_with (λ batch r, imap (answer r) batch) (batches t) (broadcasts b sender q)) ∧
  fst <$> (answers t ++ a) ≡ₚ tx_res_callback <$> sent t.
Proof.
  intros Hcap t Hs Hq Hl q Hr. pose proof (steps_inv cap _ steps Hcap
    (trace_inv_start cap dur now ltac:(lia))) as [_ Ha Hrej _ _]. fold (trace cap dur now steps) in Ha, Hrej.
  fold t in Ha, Hrej. rewrite Hs, Hq, !filter_nil, app_nil_r, ?app_nil_r in Ha.
  rewrite Hs, filter_nil, app_nil_r in Hrej.
  assert (fst <$> q = batches t) as Hfst by (apply fst_zip; lia).
  apply run_answers in Hr as Ha'. split; [by rewrite <-Hrej|]. split; [by rewrite <-Ha|]. split.
  { rewrite Ha', <-Hfst, zip_with_fmap_l. done. }
  rewrite Ha', fmap_app, zip_callbacks by apply broadcasts_length. rewrite Hfst.
  rewrite <-Ha, <-Hrej, <-list_fmap_compose. cbn.
  change (fst ∘ rejected cap) with (tx_res_callback (Msg := Any)). rewrite <-fmap_app.
  apply fmap_Permutation. rewrite Permutation_app_comm. apply filter_app_complement.
Qed.

End task.

(** ** Confirmations ([confirmer.rs]) *)

Inductive ConfirmError := NotFound (tx_hash : string) | FailureOnChain (r : TxResponse)
  | TxQuery (tx_hash : string).

(** What the node answers to the query for a transaction: an error, nothing, or the result. *)
Definition tx (node : Z → option (option TxResponse)) (tx_hash : string) (attempt : Z)
    : result ConfirmError TxResponse :=
  r ← ok_or (TxQuery tx_hash) (node attempt); ok_or (NotFound tx_hash) r.

Definition confirm_tx (node : Z → option (option TxResponse)) (tx_hash : string)
    (policy : RetryPolicy) : option (result ConfirmError TxResponse) :=
  match with_retry (tx node tx_hash) policy with
  | Some (Ok res) => Some (if bool_decide (code res = 0) then Ok res else Err (FailureOnChain res))
  | r => r
  end.

End broadcast.

(** ** A run *)
Module ampd_broadcast_run.
Import broadcast.

(** A gas cap of 10: the first two messages fill a batch, the third is too expensive, the fourth
    is released when the channel is closed. *)
Definition run_steps : list (Step (Msg := string)) :=
  [Send (mkQueueMsg "vote 1" 4 0); Send (mkQueueMsg "vote 2" 6 1); Send (mkQueueMsg "big" 11 2);
   Send (mkQueueMsg "vote 3" 5 3); PollAt 1; PollAt 2; CloseChannel; PollAt 3].
Definition run_trace := trace 10 5 0 run_steps.

Lemma queue_batches_exact_witness :
  Forall (λ b, b ≠ [] ∧ total_gas b ≤ 10) (batches run_trace).
Proof.
  apply (queue_batches_exact 10 5 0 run_steps). unfold u64_max. lia.
Defined.

(** The fourth message is queued at time 2; a poll at time 7 has released it. *)
Lemma queued_messages_released_witness :
  let t1 := trace 10 5 0 (take 6 run_steps) in
  mjoin (batches t1) ++ msgs (queue (mq t1))
    `prefix_of` mjoin (batches (step (foldl step t1 []) (PollAt 7))).
Proof.
  apply (queued_messages_released 10 5 0 (take 6 run_steps) [] 7).
  - unfold u64_max. lia.
  - vm_compute. discriminate.
Defined.

(** A node at sequence 7. *)
Definition run_regex : SequenceRegex := λ s, Some s.
#[local] Existing Instance run_regex.
Definition run_client : Client (ChainMsg (Any := string)) :=
  mkClient (λ _ s, if bool_decide (s = 7) then Ok 100000 else Err "7")
    (λ tx, if bool_decide (acc_sequence_of tx = 7) then Some (mkTxResponse "hash" 0) else None)
    (Some 7) (λ _, true).
(** A gas adjustment of 1.5 and a gas price of 0.25. *)
Definition run_broadcaster : Broadcaster :=
  mkBroadcaster 42 3 (binary_normalize 53 1024 3 (-1) false) (binary_normalize 53 1024 1 (-2) false)
    "uaxl".
Definition run_msgs : list (ChainMsg (Any := string)) := [BatchRequest "ampd" ["vote 1"; "vote 2"]].

Lemma run_follows : follows_sequence run_client 7.
Proof.
  split; [unfold u64_max; lia|done|..].
  - intros msgs s Hs. exists "7". cbn. rewrite bool_decide_eq_false_2 by done. done.
  - intros tx Htx. cbn. rewrite Htx, bool_decide_eq_true_2 by done. by eexists.
Qed.

Lemma broadcast_recovers_witness :
  ∃ r, broadcaster_broadcast run_broadcaster run_client (estimates run_client [run_msgs]) run_msgs =
    (Ok r, set_sequence run_broadcaster 8).
Proof.
  destruct (broadcast_recovers run_client run_broadcaster 7 100000 run_msgs [run_msgs]
    (mkFee 37500 "uaxl" 150000) run_follows) as (r & _ & Hr);
    [reflexivity|vm_compute; reflexivity|reflexivity|].
  exists r. exact Hr.
Defined.

Definition run_env : TaskEnv := mkTaskEnv run_client id (Some true).
Definition run_queue := zip (batches run_trace) [run_env; mkTaskEnv run_client id None].

Lemma every_message_answered_witness :
  answers run_trace =
    (λ m, (tx_res_callback m, Err (GasExceedsGasCap (gas m) 10)))
      <$> filter (λ m, ¬ gas m ≤ 10) (sent run_trace) ∧
  fst <$> (answers run_trace ++ (run run_broadcaster "ampd" run_queue).1.2)
    ≡ₚ tx_res_callback <$> sent run_trace.
Proof.
  destruct (every_message_answered 10 5 0 run_steps run_broadcaster "ampd"
    [run_env; mkTaskEnv run_client id None] (run run_broadcaster "ampd" run_queue).1.1
    (run run_broadcaster "ampd" run_queue).1.2) as (Hr & _ & _ & Hp);
    [unfold u64_max; lia|vm_compute; reflexivity..|]. exact (conj Hr Hp).
Defined.

End ampd_broadcast_run.
