(* ===== verification/AmpdEvm.v ===== *)
(** * How a verifier votes on EVM chains, and signs

    The handlers of [ampd] for EVM chains: the verification of messages, verifier sets and events
    against transaction receipts ([evm/verifier.rs], [evm/finalizer.rs]), the handlers that vote
    ([handlers/evm_verify_msg.rs], [handlers/evm_verify_verifier_set.rs],
    [handlers/evm_verify_event.rs]), the client of the service that holds the keys
    ([tofnd/grpc.rs]), and the handler that signs ([handlers/multisig.rs]).

    A handler is given an event of the chain, as [AmpdStream] delivers it, and asks a node of the
    external chain; what the node answers during the call is part of its arguments. The JSON
    deserialization of the events' attributes is an argument too. *)

From Stdlib Require Import Ascii.
From S2P Require Import Prelude Std Voting MsgId RouterApi Multisig MultisigProver Encoding.
From S2P Require Import AmpdStream.

(** ** What all handlers share *)
Module handlers.
Import events.

(** [handlers/errors.rs] *)
Inductive Error :=
  | DeserializeEvent
  | FetchSolanaAccount
  | Finalizer
  | MessageToSign
  | PublicKey
  | Sign
  | TxReceipts
  | MissingConfirmationHeight.

(** The messages that handlers return: a vote for a poll of a voting verifier, a signature for a
    session of the multisig contract. *)
Inductive Msg :=
  | VoteMsg (sender contract : Addr) (poll_id : Z) (votes : list voting.Vote)
  | SubmitSignatureMsg (sender contract : Addr) (session_id : Z) (signature : string).

(** The decoding of an event that every handler starts with: events of another type are ignored. *)
Definition decoded {A} (r : result events.Error A) : result Error (option A) :=
  match r with
  | Ok a => Ok (Some a)
  | Err (EventTypeMismatch _) => Ok None
  | Err _ => Err DeserializeEvent
  | Panic => Panic
  end.

(** A hash as the 32 bytes that [H256] holds. *)
Definition h256 (h : list Ascii.ascii) : string := String.string_of_list_ascii h.

End handlers.

Module evm.
Import voting events handlers.

(** ** Transactions and logs ([ethers]) *)

Record Log := mkLog {
  log_address : string;
  topics : list string;
  data : string;
  log_transaction_hash : option string
}.

Record TransactionReceipt := mkReceipt {
  transaction_hash : string;
  status : option Z;
  block_number : option Z;
  logs : list Log
}.

Record Transaction := mkTransaction {
  tx_hash : string;
  from : string;
  to : option string;
  value : Z;
  input : string
}.

(** [IAxelarAmplifierGatewayEvents], and the decoder that [abigen] generates. *)
Inductive GatewayEvent :=
  | ContractCall (sender destination_chain destination_contract_address payload_hash : string)
  | SignersRotated (signers_hash signers : string)
  | OtherEvent.
Class LogDecoder := decode_log : Log → option GatewayEvent.

(** What an Ethereum node answers: [None] for an error. *)
Record EthereumClient := mkEthereum {
  finalized_block : option (option Z);
  latest_block : option Z;
  transaction_receipt : string → option (option TransactionReceipt);
  transaction_by_hash : string → option (option Transaction)
}.

(** ** Finality ([evm/finalizer.rs]) *)

Inductive Finalization := RPCFinalizedBlock | ConfirmationHeight.
Inductive FinalizerError := JsonRPC | MissBlockNumber.

Definition rpc_finalizer (c : EthereumClient) : result FinalizerError Z :=
  number ← ok_or JsonRPC (finalized_block c); ok_or MissBlockNumber number.

Definition confirmation_height_finalizer (c : EthereumClient) (confirmation_height : Z)
    : result FinalizerError Z :=
  block_number ← ok_or JsonRPC (latest_block c);
  Ok (saturating_sub (saturating_add u64_max block_number 1) confirmation_height).

(** [pick(..).latest_finalized_block_height()] *)
Definition latest_finalized_block_height (f : Finalization) (c : EthereumClient)
    (confirmation_height : Z) : result FinalizerError Z :=
  match f with
  | RPCFinalizedBlock => rpc_finalizer c
  | ConfirmationHeight => confirmation_height_finalizer c confirmation_height
  end.

(** The check of the handlers: a receipt without a block is not final. *)
Definition is_final (latest : Z) (r : TransactionReceipt) : bool :=
  bool_decide (default u64_max (block_number r) ≤ latest).

(** ** Verification ([evm/verifier.rs]) *)

Record Message := mkMessage {
  message_id : msg_id.HexTxHashAndEventIndex_id;
  destination_address : string;
  destination_chain : string;
  source_address : string;
  payload_hash : string
}.
Definition id_hash (id : msg_id.HexTxHashAndEventIndex_id) : string := h256 (msg_id.hex_tx_hash id).

Record VerifierSetConfirmation := mkConfirmation {
  vs_message_id : msg_id.HexTxHashAndEventIndex_id;
  verifier_set : verifier_set.VerifierSet
}.

(** [event_verifier_api::evm] *)
Record TransactionDetails := mkDetails {
  calldata : string; det_from : string; det_to : option string; det_value : Z
}.
Record Event := mkEvent {
  contract_address : string; event_index : Z; ev_topics : list string; ev_data : string
}.
Record EvmEvent := mkEvmEvent {
  ev_transaction_hash : string;
  transaction_details : option TransactionDetails;
  ev_events : list Event
}.

Definition has_failed (r : TransactionReceipt) : bool := bool_decide (status r = Some 0).

(** Two chain names are equal when the text parses to the name. *)
Definition matches_destination_chain (event_chain : string) (expected : string) : bool :=
  match chain.from_str event_chain with
  | Ok c => bool_decide (expected = c)
  | _ => false
  end.

Section verifier.
Context `{Crypto} `{encoding.ChainCodecs} `{LogDecoder}.

(** [PartialEq] of a message with an event of a log. *)
Definition message_eq (m : Message) (l : Log) (e : GatewayEvent) : bool :=
  match e with
  | ContractCall sender destination_chain' destination_contract_address payload_hash' =>
      matches_destination_chain destination_chain' (destination_chain m) &&
      bool_decide (log_transaction_hash l = Some (id_hash (message_id m))) &&
      bool_decide (sender = source_address m) &&
      bool_decide (destination_contract_address = destination_address m) &&
      bool_decide (payload_hash' = payload_hash m)
  | _ => false
  end.

(** The encoding of the signers, which [hash] hashes. *)
Definition abi_encode_signers (s : encoding.WeightedSigners) : string :=
  encoding.abi_encode [encoding.TokTuple (encoding.abi.signers_tokens s)].

Definition confirmation_eq (c : VerifierSetConfirmation) (l : Log) (e : GatewayEvent) : bool :=
  match e with
  | SignersRotated signers_hash signers =>
      match encoding.abi.weighted_signers (verifier_set c) with
      | Ok weighted_signers =>
          bool_decide (log_transaction_hash l = Some (id_hash (vs_message_id c))) &&
          bool_decide (signers_hash = encoding.abi.signers_hash weighted_signers) &&
          bool_decide (signers = abi_encode_signers weighted_signers)
      | _ => false
      end
  | _ => false
  end.

Definition event (gateway_address : string) (r : TransactionReceipt) (log_index : Z)
    : option (Log * GatewayEvent) :=
  l ← logs r !! Z.to_nat log_index;
  if bool_decide (log_address l = gateway_address)
  then e ← decode_log l; Some (l, e)
  else None.

Definition verify (gateway_address : string) (r : TransactionReceipt)
    (to_verify : Log → GatewayEvent → bool) (expected_transaction_hash : string)
    (expected_event_index : Z) : Vote :=
  if has_failed r then FailedOnChain
  else
    match event gateway_address r expected_event_index with
    | Some (l, e) =>
        if bool_decide (transaction_hash r = expected_transaction_hash) && to_verify l e
        then SucceededOnChain else VoteNotFound
    | None => VoteNotFound
    end.

Definition verify_message (gateway_address : string) (r : TransactionReceipt) (m : Message) : Vote :=
  verify gateway_address r (message_eq m) (id_hash (message_id m))
    (msg_id.hex_event_index (message_id m)).

Definition verify_verifier_set (gateway_address : string) (r : TransactionReceipt)
    (c : VerifierSetConfirmation) : Vote :=
  verify gateway_address r (confirmation_eq c) (id_hash (vs_message_id c))
    (msg_id.hex_event_index (vs_message_id c)).

Definition verify_transaction_details (actual_tx : Transaction) (d : TransactionDetails) : bool :=
  bool_decide (from actual_tx = det_from d) && bool_decide (to actual_tx = det_to d) &&
  bool_decide (value actual_tx = det_value d) && bool_decide (input actual_tx = calldata d).

Definition verify_event_matches_log (l : Log) (e : Event) : bool :=
  bool_decide (log_address l = contract_address e) &&
  bool_decide (length (topics l) = length (ev_topics e)) &&
  forallb (λ '(actual, expected), bool_decide (actual = expected)) (zip (topics l) (ev_topics e)) &&
  bool_decide (data l = ev_data e).

Definition verify_events_match_logs (ls : list Log) (es : list Event) : bool :=
  forallb (λ e, match ls !! Z.to_nat (event_index e) with
                | Some l => verify_event_matches_log l e
                | None => false
                end) es.

Definition verify_events (r : TransactionReceipt) (tx : option Transaction) (d : EvmEvent) : Vote :=
  if has_failed r then FailedOnChain
  else if bool_decide (transaction_hash r ≠ ev_transaction_hash d) then VoteNotFound
  else if match transaction_details d with
          | Some expected => negb (match tx with
                                   | Some tx => verify_transaction_details tx expected
                                   | None => false
                                   end)
          | None => false
          end then VoteNotFound
  else if negb (verify_events_match_logs (logs r) (ev_events d)) then VoteNotFound
  else SucceededOnChain.

End verifier.

(** ** Voting on messages ([handlers/evm_verify_msg.rs]) *)

Record Handler := mkHandler {
  verifier : Addr;
  voting_verifier_contract : Addr;
  handler_chain : string;
  finalizer_type : Finalization
}.

Record PollStartedEvent (Content : Type) := mkPollStarted {
  poll_id : Z;
  source_chain : string;
  source_gateway_address : string;
  confirmation_height : Z;
  expires_at : Z;
  poll_content : Content;
  participants : list Addr
}.
#[global] Arguments mkPollStarted {_}.
#[global] Arguments poll_id {_}.
#[global] Arguments source_chain {_}.
#[global] Arguments source_gateway_address {_}.
#[global] Arguments confirmation_height {_}.
#[global] Arguments expires_at {_}.
#[global] Arguments poll_content {_}.
#[global] Arguments participants {_}.

(** The receipts of final transactions, by the hash of the transaction they are for. *)
Definition finalized_tx_receipts (self : Handler) (c : EthereumClient) (tx_hashes : gset string)
    (confirmation_height : Z) : result Error (gmap string TransactionReceipt) :=
  latest ← map_err (λ _, Finalizer)
    (latest_finalized_block_height (finalizer_type self) c confirmation_height);
  let receipts := omap (λ h, default None (transaction_receipt c h)) (elements tx_hashes) in
  Ok (list_to_map (reverse ((λ r, (transaction_hash r, r)) <$>
                              filter (λ r, is_final latest r = true) receipts))).

(** The three guards of the handlers, in their order. *)
Definition should_skip_poll (handler_chain source_chain : string) (verifier : Addr)
    (participants : list Addr) (latest_block_height expires_at : Z) : bool :=
  bool_decide (handler_chain ≠ source_chain) || bool_decide (verifier ∉ participants) ||
  bool_decide (expires_at ≤ latest_block_height).

Section handle.
Context `{Crypto} `{encoding.ChainCodecs} `{LogDecoder} `{Json}.

Definition vote_on_message (ev : PollStartedEvent (list Message))
    (finalized_tx_receipts : gmap string TransactionReceipt) (m : Message) : Vote :=
  match finalized_tx_receipts !! id_hash (message_id m) with
  | Some r => verify_message (source_gateway_address ev) r m
  | None => VoteNotFound
  end.

Definition handle_messages (deserialize : gmap string Value → option (PollStartedEvent (list Message)))
    (self : Handler) (c : EthereumClient) (latest_block_height : Z) (e : events.Event)
    : result Error (list Msg) :=
  if negb (is_from_contract e (voting_verifier_contract self)) then Ok []
  else
    ev ← decoded (try_into "wasm-messages_poll_started" deserialize e);
    match ev with
    | None => Ok []
    | Some ev =>
        if should_skip_poll (handler_chain self) (source_chain ev) (verifier self)
             (participants ev) latest_block_height (expires_at ev) then Ok []
        else
          let tx_hashes := list_to_set ((λ m, id_hash (message_id m)) <$> poll_content ev) in
          receipts ← finalized_tx_receipts self c tx_hashes (confirmation_height ev);
          Ok [VoteMsg (verifier self) (voting_verifier_contract self) (poll_id ev)
                (vote_on_message ev receipts <$> poll_content ev)]
    end.

(** ** Voting on verifier sets ([handlers/evm_verify_verifier_set.rs]) *)

Definition finalized_tx_receipt (self : Handler) (c : EthereumClient) (tx_hash : string)
    (confirmation_height : Z) : result Error (option TransactionReceipt) :=
  latest ← map_err (λ _, Finalizer)
    (latest_finalized_block_height (finalizer_type self) c confirmation_height);
  receipt ← ok_or Finalizer (transaction_receipt c tx_hash);
  Ok (r ← receipt; if is_final latest r then Some r else None).

Definition handle_verifier_set
    (deserialize : gmap string Value → option (PollStartedEvent VerifierSetConfirmation))
    (self : Handler) (c : EthereumClient) (latest_block_height : Z) (e : events.Event)
    : result Error (list Msg) :=
  if negb (is_from_contract e (voting_verifier_contract self)) then Ok []
  else
    ev ← decoded (try_into "wasm-verifier_set_poll_started" deserialize e);
    match ev with
    | None => Ok []
    | Some ev =>
        if should_skip_poll (handler_chain self) (source_chain ev) (verifier self)
             (participants ev) latest_block_height (expires_at ev) then Ok []
        else
          receipt ← finalized_tx_receipt self c (id_hash (vs_message_id (poll_content ev)))
            (confirmation_height ev);
          let vote := match receipt with
                      | Some r => verify_verifier_set (source_gateway_address ev) r (poll_content ev)
                      | None => VoteNotFound
                      end in
          Ok [VoteMsg (verifier self) (voting_verifier_contract self) (poll_id ev) [vote]]
    end.

(** ** Voting on events ([handlers/evm_verify_event.rs]) *)

(** [From<HandlerParams>]: the confirmation height of a handler for events. *)
Definition handler_confirmation_height (f : Finalization) (confirmation_height : option Z)
    : result Error Z :=
  match f with
  | ConfirmationHeight => ok_or MissingConfirmationHeight confirmation_height
  | RPCFinalizedBlock => Ok (default 1 confirmation_height)
  end.

(** Which transactions are asked for, and whether their details are needed. *)
Definition tx_hashes_with_details (events_data : list (option EvmEvent)) : gmap string bool :=
  foldl (λ acc d,
    match d with
    | Some d =>
        let needs := match transaction_details d with Some _ => true | None => false end in
        <[ev_transaction_hash d := default false (acc !! ev_transaction_hash d) || needs]> acc
    | None => acc
    end) ∅ events_data.

Definition fetch_finalized_tx_receipts (f : Finalization) (c : EthereumClient)
    (events_data : list (option EvmEvent)) (confirmation_height : Z)
    : result Error (gmap string (TransactionReceipt * option Transaction)) :=
  latest ← map_err (λ _, Finalizer) (latest_finalized_block_height f c confirmation_height);
  let hashes := map_to_list (tx_hashes_with_details events_data) in
  let tx_receipts := omap (λ h, default None (transaction_receipt c h.1)) hashes in
  let txs := omap (λ h, default None (transaction_by_hash c h.1))
                  (filter (λ h, h.2 = true) hashes) in
  let full_transactions : gmap string Transaction :=
    list_to_map (reverse ((λ tx, (tx_hash tx, tx)) <$> txs)) in
  Ok (list_to_map (reverse ((λ r, (transaction_hash r, (r, full_transactions !! transaction_hash r)))
        <$> filter (λ r, is_final latest r = true) tx_receipts))).

Definition verify_and_vote_on_events (events_data : list (option EvmEvent))
    (receipts : gmap string (TransactionReceipt * option Transaction)) : list Vote :=
  (λ d : option EvmEvent,
     match d with
     | None => VoteNotFound
     | Some d =>
         match receipts !! ev_transaction_hash d with
         | Some (r, tx) => verify_events r tx d
         | None => VoteNotFound
         end
     end) <$> events_data.

Record EventsPollStarted := mkEventsPoll {
  eps_events : list string;
  eps_poll_id : Z;
  eps_source_chain : string;
  eps_expires_at : Z;
  eps_participants : list Addr
}.

(** The events of a poll are texts; [parse] deserializes one ([deserialize_event_data]). *)
Definition handle_events (deserialize : gmap string Value → option EventsPollStarted)
    (parse : string → option EvmEvent) (self : Handler) (confirmation_height : Z)
    (c : EthereumClient) (latest_block_height : Z) (e : events.Event) : result Error (list Msg) :=
  if negb (is_from_contract e (voting_verifier_contract self)) then Ok []
  else
    ev ← decoded (try_into "wasm-events_poll_started" deserialize e);
    match ev with
    | None => Ok []
    | Some ev =>
        if should_skip_poll (handler_chain self) (eps_source_chain ev) (verifier self)
             (eps_participants ev) latest_block_height (eps_expires_at ev) then Ok []
        else
          let events_data := parse <$> eps_events ev in
          receipts ← fetch_finalized_tx_receipts (finalizer_type self) c events_data
            confirmation_height;
          Ok [VoteMsg (verifier self) (voting_verifier_contract self) (eps_poll_id ev)
                (verify_and_vote_on_events events_data receipts)]
    end.

End handle.

(** ** What a vote says *)

(** The log at the index of the identifier is the gateway's call of the contract. *)
Definition calls `{LogDecoder} (gateway : string) (r : TransactionReceipt) (m : Message) : Prop :=
  ∃ l dest_chain, logs r !! Z.to_nat (msg_id.hex_event_index (message_id m)) = Some l ∧
    log_address l = gateway ∧ log_transaction_hash l = Some (id_hash (message_id m)) ∧
    decode_log l = Some (ContractCall (source_address m) dest_chain (destination_address m)
                           (payload_hash m)) ∧
    chain.from_str dest_chain = Ok (destination_chain m).

Section votes.
Context `{Crypto} `{encoding.ChainCodecs} `{LogDecoder} `{Json}.

Lemma matches_chain_spec c expected :
  matches_destination_chain c expected = true ↔ chain.from_str c = Ok expected.
Proof.
  unfold matches_destination_chain. destruct (chain.from_str c) as [x|e|]; [|done..].
  rewrite bool_decide_eq_true. split; [by intros ->|by intros [=]].
Qed.

Lemma message_eq_spec m l e :
  message_eq m l e = true ↔
  log_transaction_hash l = Some (id_hash (message_id m)) ∧
  ∃ c, e = ContractCall (source_address m) c (destination_address m) (payload_hash m) ∧
    chain.from_str c = Ok (destination_chain m).
Proof.
  destruct e as [s c a h|s h|]; cbn; [|naive_solver..].
  rewrite !andb_true_iff, !bool_decide_eq_true, matches_chain_spec. naive_solver.
Qed.

(** A receipt decides a vote. *)
Lemma verify_message_spec gateway r m :
  match verify_message gateway r m with
  | FailedOnChain => has_failed r = true
  | SucceededOnChain => has_failed r = false ∧ transaction_hash r = id_hash (message_id m) ∧
      calls gateway r m
  | VoteNotFound => has_failed r = false ∧
      ¬ (transaction_hash r = id_hash (message_id m) ∧ calls gateway r m)
  end.
Proof.
  unfold verify_message, verify, event, calls. destruct (has_failed r) eqn:Hf; [done|].
  destruct (logs r !! _) as [l|] eqn:Hl; cbn; [|naive_solver].
  case_bool_decide as Ha; cbn; [|naive_solver].
  destruct (decode_log l) as [e|] eqn:Hd; cbn; [|naive_solver].
  destruct (bool_decide (transaction_hash r = _) && message_eq m l e) eqn:Hb.
  - apply andb_true_iff in Hb as [Hh%bool_decide_eq_true (Ht & c & -> & Hc)%message_eq_spec].
    naive_solver.
  - split; [done|]. intros (Hh & l' & c & Hl' & _ & Ht & Hd' & Hc). simplify_eq.
    rewrite bool_decide_eq_true_2 in Hb by done.
    assert (message_eq m l' (ContractCall (source_address m) c (destination_address m)
      (payload_hash m)) = true) by (apply message_eq_spec; eauto). cbn [andb] in Hb. congruence.
Qed.

(** A node answers with the receipt of the transaction it was asked for. *)
Definition answers_asked (c : EthereumClient) : Prop :=
  ∀ h r, transaction_receipt c h = Some (Some r) → transaction_hash r = h.

(** The receipt of a final transaction. *)
Definition final_receipt (f : Finalization) (c : EthereumClient) (confirmation_height : Z)
    (h : string) (r : TransactionReceipt) : Prop :=
  transaction_receipt c h = Some (Some r) ∧
  ∃ latest, latest_finalized_block_height f c confirmation_height = Ok latest ∧
    is_final latest r = true.

(** A poll that the handler votes in. *)
Definition concerns {C} (self : Handler) (from_contract : bool) (r : result events.Error (PollStartedEvent C))
    (height : Z) (ev : PollStartedEvent C) : Prop :=
  from_contract = true ∧ r = Ok ev ∧ handler_chain self = source_chain ev ∧
  verifier self ∈ participants ev ∧ height < expires_at ev.

Lemma should_skip_spec hc sc v ps height exp :
  should_skip_poll hc sc v ps height exp = false ↔ hc = sc ∧ v ∈ ps ∧ height < exp.
Proof.
  unfold should_skip_poll. rewrite !orb_false_iff, !bool_decide_eq_false. split.
  - intros [[E1%dec_stable E2%dec_stable] E3]. split_and!; [done|done|lia].
  - intros (-> & E2 & E3). split_and!; [by intros []|by intros []|lia].
Qed.

(** Answers of a node, collected by the hash that they carry. *)
Lemma asked_spec {A} (f : string → option (option A)) (key : A → string) (hs : list string) x :
  (∀ h y, f h = Some (Some y) → key y = h) →
  x ∈ omap (λ h, default None (f h)) hs ↔ key x ∈ hs ∧ f (key x) = Some (Some x).
Proof.
  intros Hf. rewrite list_elem_of_omap. split.
  - intros (h & Hh & Hx). destruct (f h) as [[y|]|] eqn:Hy; try done. injection Hx as ->.
    by rewrite (Hf _ _ Hy).
  - intros [Hh Hx]. exists (key x). by rewrite Hx.
Qed.

Lemma collect_spec {A B} (key : A → string) (val : A → B) (l : list A) h b :
  (∀ x y, x ∈ l → y ∈ l → key x = key y → x = y) →
  (list_to_map (reverse ((λ x, (key x, val x)) <$> l)) : gmap string B) !! h = Some b ↔
  ∃ x, x ∈ l ∧ key x = h ∧ val x = b.
Proof.
  intros Hinj. split.
  - intros Hlk%elem_of_list_to_map_2. rewrite elem_of_reverse in Hlk.
    apply list_elem_of_fmap in Hlk as (x & [= -> ->] & Hx). eauto.
  - intros (x & Hx & <- & <-). apply elem_of_list_to_map_1'.
    + intros y. rewrite elem_of_reverse. intros (z & [= Hk ->] & Hz)%list_elem_of_fmap.
      by rewrite (Hinj x z Hx Hz Hk).
    + rewrite elem_of_reverse. apply list_elem_of_fmap. eauto.
Qed.

Lemma receipts_spec self c hashes ch receipts h r :
  answers_asked c → finalized_tx_receipts self c hashes ch = Ok receipts →
  receipts !! h = Some r ↔ h ∈ hashes ∧ final_receipt (finalizer_type self) c ch h r.
Proof.
  intros Hc Hf. unfold finalized_tx_receipts in Hf. apply bind_Ok in Hf as (latest & Hl & [= <-]).
  apply map_err_Ok in Hl. unfold final_receipt. rewrite Hl.
  rewrite (collect_spec transaction_hash (λ r, r)).
  - split.
    + intros (x & [Hfin Hx]%list_elem_of_filter & <- & ->).
      apply (asked_spec _ transaction_hash) in Hx as [Hx%elem_of_elements ?]; [|exact Hc]. eauto.
    + intros (Hh & Hr & ? & [= <-] & Hfin). exists r. rewrite <-(Hc _ _ Hr) in Hh |- *.
      split; [|done]. apply list_elem_of_filter. split; [done|].
      apply (asked_spec _ transaction_hash); [exact Hc|]. split; [by apply elem_of_elements|].
      by rewrite (Hc _ _ Hr).
  - intros x y [_ Hx]%list_elem_of_filter [_ Hy]%list_elem_of_filter Hk.
    apply (asked_spec _ transaction_hash) in Hx as [_ Hx], Hy as [_ Hy]; [|exact Hc..]. congruence.
Qed.

(** What a vote on a message means. *)
Definition message_vote (f : Finalization) (c : EthereumClient) (ch : Z) (gateway : string)
    (m : Message) (v : Vote) : Prop :=
  let h := id_hash (message_id m) in
  match v with
  | SucceededOnChain => ∃ r, final_receipt f c ch h r ∧ status r ≠ Some 0 ∧ calls gateway r m
  | FailedOnChain => ∃ r, final_receipt f c ch h r ∧ status r = Some 0
  | VoteNotFound => ∀ r, final_receipt f c ch h r → status r ≠ Some 0 ∧ ¬ calls gateway r m
  end.

Lemma has_failed_spec r : has_failed r = true ↔ status r = Some 0.
Proof. unfold has_failed. apply bool_decide_eq_true. Qed.

Lemma has_failed_false r : has_failed r = false ↔ status r ≠ Some 0.
Proof. unfold has_failed. apply bool_decide_eq_false. Qed.

Lemma vote_on_message_spec self c ch ev hashes receipts m :
  answers_asked c → finalized_tx_receipts self c hashes ch = Ok receipts →
  id_hash (message_id m) ∈ hashes →
  message_vote (finalizer_type self) c ch (source_gateway_address ev) m (vote_on_message ev receipts m).
Proof.
  intros Hc Hf Hin. unfold vote_on_message, message_vote.
  destruct (receipts !! id_hash (message_id m)) as [r|] eqn:Hr.
  - assert (final_receipt (finalizer_type self) c ch (id_hash (message_id m)) r) as Hfin
      by by apply (receipts_spec _ _ _ _ _ _ _ Hc Hf) in Hr as [_ ?].
    pose proof (verify_message_spec (source_gateway_address ev) r m) as Hv.
    destruct (verify_message _ r m).
    + destruct Hv as (Hnf%has_failed_false & _ & Hcalls). eauto.
    + apply has_failed_spec in Hv. eauto.
    + destruct Hv as (Hnf%has_failed_false & Hno). intros r' Hr'.
      assert (r' = r) as -> by (destruct Hfin, Hr'; congruence).
      split; [done|]. intros Hcalls. apply Hno. split; [|done].
      destruct Hfin as [Hrec _]. by apply Hc in Hrec.
  - intros r Hfin. exfalso. assert (receipts !! id_hash (message_id m) = Some r); [|congruence].
    by apply (receipts_spec _ _ _ _ _ _ _ Hc Hf).
Qed.

Lemma votes_of_messages
    (deserialize : gmap string Value → option (PollStartedEvent (list Message)))
    (self : Handler) (c : EthereumClient) (height : Z) (e : events.Event) (msgs : list Msg) :
  answers_asked c → handle_messages deserialize self c height e = Ok msgs →
  let poll := concerns self (is_from_contract e (voting_verifier_contract self))
                (try_into "wasm-messages_poll_started" deserialize e) height in
  (msgs = [] ∧ ∀ ev, ¬ poll ev) ∨
  ∃ ev votes, poll ev ∧
    msgs = [VoteMsg (verifier self) (voting_verifier_contract self) (poll_id ev) votes] ∧
    Forall2 (message_vote (finalizer_type self) c (confirmation_height ev)
               (source_gateway_address ev)) (poll_content ev) votes.
Proof.
  intros Hc Hf. cbn zeta. unfold handle_messages, concerns in *.
  destruct (is_from_contract _ _); cbn in Hf; [|left; split; [by injection Hf|naive_solver]].
  destruct (try_into _ _ _) as [ev|err|]; cbn in Hf; [|destruct err; try done|done].
  2: { left. split; [by injection Hf|naive_solver]. }
  destruct (should_skip_poll _ _ _ _ _ _) eqn:Hskip.
  { left. split; [by injection Hf|]. intros ev' (_ & [= <-] & Hg).
    apply should_skip_spec in Hg. congruence. }
  apply should_skip_spec in Hskip. right. apply bind_Ok in Hf as (receipts & Hr & [= <-]).
  exists ev, (vote_on_message ev receipts <$> poll_content ev). split; [done|]. split; [done|].
  apply Forall2_fmap_r, Forall_Forall2_diag, Forall_forall. intros m Hm.
  eapply vote_on_message_spec; [done|exact Hr|].
  apply elem_of_list_to_set, list_elem_of_fmap. eauto.
Qed.

(** C14: A verifier votes exactly for what its node shows. For a node that answers with the receipts
    it is asked for, a handler that does not fail is silent exactly about events that are not a
    poll for its chain, running and with it as a participant; in such a poll it casts one vote
    per message: that it succeeded, if the transaction is final, did not fail and its log at the
    given index is the gateway's call with exactly the message's sender, destination and
    payload; that it failed, if the transaction is final and failed; and else that it was not
    found. *)
Theorem message_votes_exact
    (deserialize : gmap string Value → option (PollStartedEvent (list Message)))
    (self : Handler) (c : EthereumClient) (height : Z) (e : events.Event) (msgs : list Msg) :
  answers_asked c → handle_messages deserialize self c height e = Ok msgs →
  let poll := concerns self (is_from_contract e (voting_verifier_contract self))
                (try_into "wasm-messages_poll_started" deserialize e) height in
  (msgs = [] ∧ ∀ ev, ¬ poll ev) ∨
  ∃ ev votes, poll ev ∧
    msgs = [VoteMsg (verifier self) (voting_verifier_contract self) (poll_id ev) votes] ∧
    Forall2 (message_vote (finalizer_type self) c (confirmation_height ev)
               (source_gateway_address ev)) (poll_content ev) votes.
Proof. apply votes_of_messages. Qed.

(** *** Verifier sets *)

(** The log at the index of the identifier is the gateway's announcement of exactly these
    signers. *)
Definition rotates (gateway : string) (r : TransactionReceipt) (c : VerifierSetConfirmation) : Prop :=
  ∃ l ws, logs r !! Z.to_nat (msg_id.hex_event_index (vs_message_id c)) = Some l ∧
    log_address l = gateway ∧ log_transaction_hash l = Some (id_hash (vs_message_id c)) ∧
    encoding.abi.weighted_signers (verifier_set c) = Ok ws ∧
    decode_log l = Some (SignersRotated (encoding.abi.signers_hash ws) (abi_encode_signers ws)).

Lemma confirmation_eq_spec c l e :
  confirmation_eq c l e = true ↔
  log_transaction_hash l = Some (id_hash (vs_message_id c)) ∧
  ∃ ws, encoding.abi.weighted_signers (verifier_set c) = Ok ws ∧
    e = SignersRotated (encoding.abi.signers_hash ws) (abi_encode_signers ws).
Proof.
  destruct e as [s c' a h|s h|]; cbn; [naive_solver| |naive_solver].
  destruct (encoding.abi.weighted_signers _) as [ws|err|]; [|naive_solver..].
  rewrite !andb_true_iff, !bool_decide_eq_true. naive_solver.
Qed.

Lemma verify_verifier_set_spec gateway r c :
  match verify_verifier_set gateway r c with
  | FailedOnChain => has_failed r = true
  | SucceededOnChain => has_failed r = false ∧ transaction_hash r = id_hash (vs_message_id c) ∧
      rotates gateway r c
  | VoteNotFound => has_failed r = false ∧
      ¬ (transaction_hash r = id_hash (vs_message_id c) ∧ rotates gateway r c)
  end.
Proof.
  unfold verify_verifier_set, verify, event, rotates. destruct (has_failed r) eqn:Hf; [done|].
  destruct (logs r !! _) as [l|] eqn:Hl; cbn; [|naive_solver].
  case_bool_decide as Ha; cbn; [|naive_solver].
  destruct (decode_log l) as [e|] eqn:Hd; cbn; [|naive_solver].
  destruct (bool_decide (transaction_hash r = _) && confirmation_eq c l e) eqn:Hb.
  - apply andb_true_iff in Hb as [Hh%bool_decide_eq_true (Ht & ws & Hws & ->)%confirmation_eq_spec].
    naive_solver.
  - split; [done|]. intros (Hh & l' & ws & Hl' & _ & Ht & Hws & Hd'). simplify_eq.
    rewrite bool_decide_eq_true_2 in Hb by done. cbn [andb] in Hb.
    assert (confirmation_eq c l' (SignersRotated (encoding.abi.signers_hash ws)
      (abi_encode_signers ws)) = true) by (apply confirmation_eq_spec; eauto). congruence.
Qed.

(** A verifier confirms a verifier set exactly when its node shows that the gateway rotated to
    these signers: with the same addresses, weights, threshold and nonce. *)
Theorem verifier_set_votes_exact
    (deserialize : gmap string Value → option (PollStartedEvent VerifierSetConfirmation))
    (self : Handler) (c : EthereumClient) (height : Z) (e : events.Event) (msgs : list Msg) :
  answers_asked c → handle_verifier_set deserialize self c height e = Ok msgs →
  let poll := concerns self (is_from_contract e (voting_verifier_contract self))
                (try_into "wasm-verifier_set_poll_started" deserialize e) height in
  (msgs = [] ∧ ∀ ev, ¬ poll ev) ∨
  ∃ ev vote, poll ev ∧
    msgs = [VoteMsg (verifier self) (voting_verifier_contract self) (poll_id ev) [vote]] ∧
    let h := id_hash (vs_message_id (poll_content ev)) in
    let final := final_receipt (finalizer_type self) c (confirmation_height ev) h in
    match vote with
    | SucceededOnChain => ∃ r, final r ∧ status r ≠ Some 0 ∧
        rotates (source_gateway_address ev) r (poll_content ev)
    | FailedOnChain => ∃ r, final r ∧ status r = Some 0
    | VoteNotFound => ∀ r, final r → status r ≠ Some 0 ∧
        ¬ rotates (source_gateway_address ev) r (poll_content ev)
    end.
Proof.
  intros Hc Hf. cbn zeta. unfold handle_verifier_set, concerns in *.
  destruct (is_from_contract _ _); cbn in Hf; [|left; split; [by injection Hf|naive_solver]].
  destruct (try_into _ _ _) as [ev|err|]; cbn in Hf; [|destruct err; try done|done].
  2: { left. split; [by injection Hf|naive_solver]. }
  destruct (should_skip_poll _ _ _ _ _ _) eqn:Hskip.
  { left. split; [by injection Hf|]. intros ev' (_ & [= <-] & Hg).
    apply should_skip_spec in Hg. congruence. }
  apply should_skip_spec in Hskip. right. apply bind_Ok in Hf as (receipt & Hr & [= <-]).
  eexists ev, _. split; [done|]. split; [done|]. unfold finalized_tx_receipt in Hr.
  apply bind_Ok in Hr as (latest & Hl%map_err_Ok & Hr). apply bind_Ok in Hr as (rec & Hrec & [= <-]).
  apply ok_or_Ok in Hrec. unfold final_receipt. rewrite Hl, Hrec.
  destruct rec as [r|]; cbn; [|naive_solver]. destruct (is_final latest r) eqn:Hfin.
  2: { intros r' ([= <-] & ? & [= <-] & ?). congruence. }
  pose proof (verify_verifier_set_spec (source_gateway_address ev) r (poll_content ev)) as Hv.
  pose proof (Hc _ _ Hrec) as Hh. destruct (verify_verifier_set _ _ _).
  - destruct Hv as (?%has_failed_false & _ & ?). eauto 10.
  - apply has_failed_spec in Hv. eauto 10.
  - destruct Hv as (?%has_failed_false & ?). intros r' ([= <-] & _). naive_solver.
Qed.

(** *** Events *)

Definition log_is (l : Log) (e : Event) : Prop :=
  log_address l = contract_address e ∧ topics l = ev_topics e ∧ data l = ev_data e.

Lemma topics_equal (l k : list string) :
  length l = length k →
  forallb (λ '(actual, expected), bool_decide (actual = expected)) (zip l k) = true ↔ l = k.
Proof.
  revert k. induction l as [|x l IH]; intros [|y k] Hl; try done. cbn.
  rewrite andb_true_iff, bool_decide_eq_true, IH by (cbn in Hl; lia). naive_solver.
Qed.

Lemma verify_log_spec l e : verify_event_matches_log l e = true ↔ log_is l e.
Proof.
  unfold verify_event_matches_log, log_is. rewrite !andb_true_iff, !bool_decide_eq_true. split.
  - intros [[[? Hl] Ht%topics_equal] ?]; done.
  - intros (? & Ht & ?). rewrite Ht. split_and!; [done|done|by apply topics_equal|done].
Qed.

Lemma verify_logs_spec ls es :
  verify_events_match_logs ls es = true ↔
  Forall (λ e, ∃ l, ls !! Z.to_nat (event_index e) = Some l ∧ log_is l e) es.
Proof.
  unfold verify_events_match_logs. rewrite <-Is_true_true, forallb_True, !Forall_forall.
  apply forall_proper. intros e. split; intros Hall He; specialize (Hall He).
  - destruct (ls !! _) as [l|]; [|done]. exists l. split; [done|]. by apply verify_log_spec, Is_true_true.
  - destruct Hall as (l & -> & Hl). by apply Is_true_true, verify_log_spec.
Qed.

Definition details_are (tx : option Transaction) (d : option TransactionDetails) : Prop :=
  match d with
  | None => True
  | Some d => ∃ t, tx = Some t ∧ from t = det_from d ∧ to t = det_to d ∧ value t = det_value d ∧
      input t = calldata d
  end.

Lemma verify_details_spec t d :
  verify_transaction_details t d = true ↔
  from t = det_from d ∧ to t = det_to d ∧ value t = det_value d ∧ input t = calldata d.
Proof.
  unfold verify_transaction_details. rewrite !andb_true_iff, !bool_decide_eq_true. naive_solver.
Qed.

(** What the receipt and the transaction show of an event. *)
Definition shows (r : TransactionReceipt) (tx : option Transaction) (d : EvmEvent) : Prop :=
  transaction_hash r = ev_transaction_hash d ∧ details_are tx (transaction_details d) ∧
  Forall (λ e, ∃ l, logs r !! Z.to_nat (event_index e) = Some l ∧ log_is l e) (ev_events d).

Lemma verify_events_spec r tx d :
  match verify_events r tx d with
  | FailedOnChain => status r = Some 0
  | SucceededOnChain => status r ≠ Some 0 ∧ shows r tx d
  | VoteNotFound => status r ≠ Some 0 ∧ ¬ shows r tx d
  end.
Proof.
  unfold verify_events, shows. destruct (has_failed r) eqn:Hf; [by apply has_failed_spec|].
  apply has_failed_false in Hf. case_bool_decide as Hh; [naive_solver|].
  assert (∀ b : bool, b = true ↔ details_are tx (transaction_details d) →
    match (if negb b then VoteNotFound
           else if negb (verify_events_match_logs (logs r) (ev_events d)) then VoteNotFound
           else SucceededOnChain) with
    | FailedOnChain => status r = Some 0
    | SucceededOnChain => status r ≠ Some 0 ∧ transaction_hash r = ev_transaction_hash d ∧
        details_are tx (transaction_details d) ∧
        Forall (λ e, ∃ l, logs r !! Z.to_nat (event_index e) = Some l ∧ log_is l e) (ev_events d)
    | VoteNotFound => status r ≠ Some 0 ∧ ¬ (transaction_hash r = ev_transaction_hash d ∧
        details_are tx (transaction_details d) ∧
        Forall (λ e, ∃ l, logs r !! Z.to_nat (event_index e) = Some l ∧ log_is l e) (ev_events d))
    end) as Hgo.
  { intros b Hb. pose proof (verify_logs_spec (logs r) (ev_events d)) as Hl.
    destruct b, (verify_events_match_logs _ _); cbn; naive_solver. }
  destruct (transaction_details d) as [det|] eqn:Hd; [|exact (Hgo true ltac:(done))].
  apply Hgo. destruct tx as [t|]; cbn; [|naive_solver]. rewrite verify_details_spec. naive_solver.
Qed.

Definition answers_asked_tx (c : EthereumClient) : Prop :=
  ∀ h t, transaction_by_hash c h = Some (Some t) → tx_hash t = h.

(** The transactions that are asked for are those of the events. *)
Lemma hashes_needed ds h :
  (is_Some (tx_hashes_with_details ds !! h) ↔ ∃ d, Some d ∈ ds ∧ ev_transaction_hash d = h) ∧
  (tx_hashes_with_details ds !! h = Some true ↔
   ∃ d, Some d ∈ ds ∧ ev_transaction_hash d = h ∧ is_Some (transaction_details d)).
Proof.
  unfold tx_hashes_with_details. induction ds as [|d ds IH] using rev_ind.
  { cbn. rewrite lookup_empty. split; (split; [intros Hx; by inversion Hx|intros (? & []%elem_of_nil & _)]). }
  rewrite foldl_app. cbn. destruct IH as [IH1 IH2]. setoid_rewrite elem_of_app.
  setoid_rewrite list_elem_of_singleton.
  destruct d as [d|].
  2: { split; [rewrite IH1|rewrite IH2]; naive_solver. }
  destruct (decide (ev_transaction_hash d = h)) as [<-|Hne].
  - rewrite lookup_insert_eq. split; [split; [|by eexists]|].
    + intros _. naive_solver.
    + rewrite (inj_iff Some), orb_true_iff. set (m := foldl _ _ _) in *.
      assert (default false (m !! ev_transaction_hash d) = true ↔ m !! ev_transaction_hash d = Some true)
        as -> by (destruct (m !! ev_transaction_hash d) as [[]|]; naive_solver).
      rewrite IH2. split.
      * intros [(d0 & ? & ? & ?)|Hn]; [exists d0; by auto|]. exists d. split; [by right|].
        split; [done|]. by destruct (transaction_details d).
      * intros (d0 & [Hin|[= ->]] & Hh & Hs); [left; eauto|right]. by destruct Hs as [? ->].
  - rewrite lookup_insert_ne by done. split; [rewrite IH1|rewrite IH2]; naive_solver.
Qed.

(** The transaction that comes with a receipt, if its details are needed. *)
Definition transaction_of (c : EthereumClient) (ds : list (option EvmEvent)) (h : string)
    : option Transaction :=
  if bool_decide (tx_hashes_with_details ds !! h = Some true)
  then default None (transaction_by_hash c h) else None.

Lemma asked_keys_spec c ds x :
  answers_asked c →
  x ∈ omap (λ h, default None (transaction_receipt c h.1)) (map_to_list (tx_hashes_with_details ds)) ↔
  is_Some (tx_hashes_with_details ds !! transaction_hash x) ∧
  transaction_receipt c (transaction_hash x) = Some (Some x).
Proof.
  intros Hc. rewrite list_elem_of_omap. split.
  - intros ([h b] & Hh%elem_of_map_to_list & Hx). cbn in Hx.
    destruct (transaction_receipt c h) as [[y|]|] eqn:Hy; try done. injection Hx as ->.
    rewrite (Hc _ _ Hy). eauto.
  - intros [[b Hb] Hx]. exists (transaction_hash x, b). cbn. rewrite Hx.
    split; [by apply elem_of_map_to_list|done].
Qed.

Lemma asked_details_spec c ds x :
  answers_asked_tx c →
  x ∈ omap (λ h, default None (transaction_by_hash c h.1))
        (filter (λ h, h.2 = true) (map_to_list (tx_hashes_with_details ds))) ↔
  tx_hashes_with_details ds !! tx_hash x = Some true ∧
  transaction_by_hash c (tx_hash x) = Some (Some x).
Proof.
  intros Ht. rewrite list_elem_of_omap. split.
  - intros ([h b] & [Hb Hh%elem_of_map_to_list]%list_elem_of_filter & Hx). cbn in Hb, Hx. subst b.
    destruct (transaction_by_hash c h) as [[y|]|] eqn:Hy; try done. injection Hx as ->.
    by rewrite (Ht _ _ Hy).
  - intros [Hb Hx]. exists (tx_hash x, true). cbn. rewrite Hx.
    split; [by apply list_elem_of_filter; split; [|apply elem_of_map_to_list]|done].
Qed.

Lemma fetch_spec f c ds ch receipts h r tx :
  answers_asked c → answers_asked_tx c → fetch_finalized_tx_receipts f c ds ch = Ok receipts →
  receipts !! h = Some (r, tx) ↔
  is_Some (tx_hashes_with_details ds !! h) ∧ final_receipt f c ch h r ∧ tx = transaction_of c ds h.
Proof.
  intros Hc Ht Hf. unfold fetch_finalized_tx_receipts in Hf. apply bind_Ok in Hf as (latest & Hl & [= <-]).
  apply map_err_Ok in Hl. unfold final_receipt. rewrite Hl. set (hs := map_to_list _) in *.
  set (full := list_to_map (M := gmap string Transaction) _).
  assert (∀ k, full !! k = transaction_of c ds k) as Hfull.
  { intros k. unfold transaction_of. apply option_eq. intros t. subst full.
    rewrite (collect_spec tx_hash (λ t, t)).
    - case_bool_decide as Hk.
      + split.
        * intros (x & Hx & <- & ->). apply (asked_details_spec _ ds) in Hx as [_ Hx]; [|done].
          by rewrite Hx.
        * intros Hx. destruct (transaction_by_hash c k) as [[y|]|] eqn:Hy; try done.
          injection Hx as ->. pose proof (Ht _ _ Hy) as <-. exists t. split; [|done].
          by apply (asked_details_spec _ ds).
      + split; [|done]. intros (x & Hx & <- & ->).
        apply (asked_details_spec _ ds) in Hx as [Hx _]; [|done]. congruence.
    - intros x y Hx Hy Hk. apply (asked_details_spec _ ds) in Hx as [_ Hx], Hy as [_ Hy]; [|done..].
      congruence. }
  rewrite (collect_spec transaction_hash (λ r, (r, full !! transaction_hash r))).
  - split.
    + intros (x & [Hfin Hx]%list_elem_of_filter & <- & [= -> <-]).
      apply (asked_keys_spec _ ds) in Hx as [? ?]; [|done]. split_and!; [done|done|eauto|apply Hfull].
    + intros (Hh & (Hr & ? & [= <-] & Hfin) & ->). pose proof (Hc _ _ Hr) as <-. exists r.
      rewrite Hfull. split; [|done]. apply list_elem_of_filter. split; [done|].
      by apply (asked_keys_spec _ ds).
  - intros x y [_ Hx]%list_elem_of_filter [_ Hy]%list_elem_of_filter Hk.
    apply (asked_keys_spec _ ds) in Hx as [_ Hx], Hy as [_ Hy]; [|done..]. congruence.
Qed.

(** What a vote on an event means. *)
Definition event_vote (f : Finalization) (c : EthereumClient) (ch : Z) (d : option EvmEvent)
    (v : Vote) : Prop :=
  match d with
  | None => v = VoteNotFound
  | Some d =>
      let h := ev_transaction_hash d in let tx := default None (transaction_by_hash c h) in
      match v with
      | SucceededOnChain => ∃ r, final_receipt f c ch h r ∧ status r ≠ Some 0 ∧ shows r tx d
      | FailedOnChain => ∃ r, final_receipt f c ch h r ∧ status r = Some 0
      | VoteNotFound => ∀ r, final_receipt f c ch h r → status r ≠ Some 0 ∧ ¬ shows r tx d
      end
  end.

(** The transaction matters only when the event has details. *)
Lemma shows_transaction c ds r d :
  Some d ∈ ds →
  shows r (transaction_of c ds (ev_transaction_hash d)) d ↔
  shows r (default None (transaction_by_hash c (ev_transaction_hash d))) d.
Proof.
  intros Hd. unfold shows, details_are, transaction_of.
  destruct (transaction_details d) as [det|] eqn:Hdet; [|done].
  assert (tx_hashes_with_details ds !! ev_transaction_hash d = Some true) as Hn.
  { apply (proj2 (hashes_needed ds _)). exists d. rewrite Hdet. eauto. }
  by rewrite bool_decide_eq_true_2.
Qed.

Lemma vote_on_event_spec f c ch ds receipts d :
  answers_asked c → answers_asked_tx c → fetch_finalized_tx_receipts f c ds ch = Ok receipts →
  Some d ∈ ds →
  event_vote f c ch (Some d)
    (match receipts !! ev_transaction_hash d with
     | Some (r, tx) => verify_events r tx d
     | None => VoteNotFound
     end).
Proof.
  intros Hc Ht Hf Hd. cbn. destruct (receipts !! ev_transaction_hash d) as [[r tx]|] eqn:Hr.
  - apply (fetch_spec _ _ _ _ _ _ _ _ Hc Ht Hf) in Hr as (_ & Hfin & ->).
    pose proof (verify_events_spec r (transaction_of c ds (ev_transaction_hash d)) d) as Hv.
    destruct (verify_events r _ d); rewrite ?(shows_transaction c ds r d Hd) in Hv; [eauto|eauto|].
    intros r' Hr'. by assert (r' = r) as -> by (destruct Hfin, Hr'; congruence).
  - intros r Hfin. exfalso.
    assert (receipts !! ev_transaction_hash d = Some (r, transaction_of c ds (ev_transaction_hash d)));
      [|congruence].
    apply (fetch_spec _ _ _ _ _ _ _ _ Hc Ht Hf). split; [|done].
    apply (proj1 (hashes_needed ds _)). eauto.
Qed.

(** A poll for events that the handler votes in. *)
Definition concerns_events (self : Handler) (from_contract : bool)
    (r : result events.Error EventsPollStarted) (height : Z) (ev : EventsPollStarted) : Prop :=
  from_contract = true ∧ r = Ok ev ∧ handler_chain self = eps_source_chain ev ∧
  verifier self ∈ eps_participants ev ∧ height < eps_expires_at ev.

(** A verifier votes for an event exactly when its node shows it. For a node that answers with
    the receipts and transactions it is asked for, a handler that does not fail is silent exactly
    about what is not a poll for it, and casts one vote per event in such a poll: that it
    succeeded, if the event can be read, its transaction is final and did not fail, every
    expected log is the log at its index with exactly its contract, topics and data, and the
    transaction has exactly the expected sender, recipient, value and input, if these are part
    of the event. *)
Theorem event_votes_exact (deserialize : gmap string Value → option EventsPollStarted)
    (parse : string → option EvmEvent) (self : Handler) (ch : Z) (c : EthereumClient) (height : Z)
    (e : events.Event) (msgs : list Msg) :
  answers_asked c → answers_asked_tx c →
  handle_events deserialize parse self ch c height e = Ok msgs →
  let poll := concerns_events self (is_from_contract e (voting_verifier_contract self))
                (try_into "wasm-events_poll_started" deserialize e) height in
  (msgs = [] ∧ ∀ ev, ¬ poll ev) ∨
  ∃ ev votes, poll ev ∧
    msgs = [VoteMsg (verifier self) (voting_verifier_contract self) (eps_poll_id ev) votes] ∧
    Forall2 (event_vote (finalizer_type self) c ch) (parse <$> eps_events ev) votes.
Proof.
  intros Hc Ht Hf. cbn zeta. unfold handle_events, concerns_events in *.
  destruct (is_from_contract _ _); cbn in Hf; [|left; split; [by injection Hf|naive_solver]].
  destruct (try_into _ _ _) as [ev|err|]; cbn in Hf; [|destruct err; try done|done].
  2: { left. split; [by injection Hf|naive_solver]. }
  destruct (should_skip_poll _ _ _ _ _ _) eqn:Hskip.
  { left. split; [by injection Hf|]. intros ev' (_ & [= <-] & Hg).
    apply should_skip_spec in Hg. congruence. }
  apply should_skip_spec in Hskip. right. apply bind_Ok in Hf as (receipts & Hr & [= <-]).
  exists ev, (verify_and_vote_on_events (parse <$> eps_events ev) receipts).
  split; [done|]. split; [done|]. unfold verify_and_vote_on_events.
  apply Forall2_fmap_r, Forall_Forall2_diag, Forall_forall. intros [d|] Hd; [|done].
  by eapply vote_on_event_spec.
Qed.

End votes.

End evm.

(** ** The client of the signer ([tofnd/grpc.rs])

    The service [tofnd] is an operation that answers requests; what it promises is
    [signs_truly]. *)
Module tofnd.

(** The codes of [tonic::Status] that the code distinguishes. *)
Inductive Code := InvalidArgument | DataLoss | Internal | Unavailable | Unknown | OtherCode.

Inductive Algorithm := Ecdsa | Ed25519.

Inductive Error := GrpcConnection | GrpcRequest (status : Code) | InvalidKeygenResponse
  | InvalidSignResponse | ExecutionFailed (error : string).

Record KeygenRequest := mkKeygenRequest {
  keygen_key_uid : string;
  keygen_party_uid : string;
  keygen_algorithm : Algorithm
}.
Inductive KeygenResponse := PubKey (pub_key : string) | KeygenError (error : string).
Record SignRequest := mkSignRequest {
  key_uid : string;
  msg_to_sign : string;
  party_uid : string;
  pub_key : string;
  algorithm : Algorithm
}.
Inductive SignResponse := Signature (signature : string) | SignError (error : string).

(** The service: the status of a failed call, or the response, which may be empty. *)
Record Service := mkService {
  keygen_rpc : KeygenRequest → Code + option KeygenResponse;
  sign_rpc : SignRequest → Code + option SignResponse
}.

(** [k256::ecdsa::Signature::from_der] and [ed25519_dalek::Signature::from_slice], each with the
    bytes of the signature again: the scalars of the first one, and 64 bytes. *)
Class SignatureFormats := {
  from_der : string → option string;
  from_slice : string → option string
}.
Class SignatureFormatsLaws `{SignatureFormats} : Prop := {
  from_der_length s sig : from_der s = Some sig → String.length sig = 64%nat;
  from_slice_bytes s sig : from_slice s = Some sig → sig = s ∧ String.length s = 64%nat
}.

Record MultisigClient := mkClient { client_party_uid : string; client : Service }.

Section client.
Context `{Crypto} `{SignatureFormats}.

(** [types::PublicKey] *)
Definition new_secp256k1 (bytes : string) : option key.PublicKey :=
  key.PkEcdsa <$> k256_normalize bytes.
Definition new_ed25519 (bytes : string) : option key.PublicKey :=
  if bool_decide (String.length bytes = 32%nat) then key.PkEd25519 <$> ed25519_normalize bytes else None.

Definition keygen (self : MultisigClient) (key_uid : string) (algorithm : Algorithm)
    : result Error key.PublicKey :=
  match keygen_rpc (client self) (mkKeygenRequest key_uid (client_party_uid self) algorithm) with
  | inl status => Err (GrpcRequest status)
  | inr None => Err InvalidKeygenResponse
  | inr (Some (PubKey pub_key)) =>
      ok_or InvalidKeygenResponse
        (match algorithm with Ecdsa => new_secp256k1 pub_key | Ed25519 => new_ed25519 pub_key end)
  | inr (Some (KeygenError error)) => Err (ExecutionFailed error)
  end.

Definition sign (self : MultisigClient) (key_uid data : string) (pub_key : key.PublicKey)
    (algorithm : Algorithm) : result Error string :=
  match sign_rpc (client self) (mkSignRequest key_uid data (client_party_uid self)
                                  (key.pub_key_bytes pub_key) algorithm) with
  | inl status => Err (GrpcRequest status)
  | inr None => Err InvalidSignResponse
  | inr (Some (Signature signature)) =>
      ok_or InvalidSignResponse
        (match algorithm with Ecdsa => from_der signature | Ed25519 => from_slice signature end)
  | inr (Some (SignError error)) => Err (ExecutionFailed error)
  end.

(** The service signs the message of a request with the key of the request: an ECDSA signature in
    DER, an Ed25519 signature as its bytes. *)
Definition signs_truly (service : Service) : Prop :=
  ∀ req signature, sign_rpc service req = inr (Some (Signature signature)) →
    match algorithm req with
    | Ecdsa => ∀ sig, from_der signature = Some sig →
        secp256k1_verify (msg_to_sign req) sig (pub_key req) = Some true
    | Ed25519 => ed25519_verify_bytes (msg_to_sign req) signature (pub_key req) = Some true
    end.

(** The algorithm of a key. *)
Definition algorithm_for (pk : key.PublicKey) : Algorithm :=
  match pk with key.PkEcdsa _ => Ecdsa | key.PkEd25519 _ => Ed25519 end.

(** With the algorithm of the key, the client's signature has the format of the multisig contract,
    and it verifies there. *)
Lemma client_signature `{!SignatureFormatsLaws} self key_uid data pk sig :
  signs_truly (client self) → sign self key_uid data pk (algorithm_for pk) = Ok sig →
  ∃ s, multisig.signature_try_from (key.pub_key_type pk) sig = Ok s ∧
    multisig.signature_verify s data pk = Ok tt.
Proof.
  intros Ht Hs. unfold sign in Hs.
  destruct (sign_rpc _ _) as [status|[[signature|error]|]] eqn:Hr; try done.
  apply Ht in Hr. cbn [algorithm msg_to_sign pub_key] in Hr. apply ok_or_Ok in Hs.
  destruct pk as [k|k]; cbn [algorithm_for key.pub_key_bytes key.pub_key_type] in *.
  - specialize (Hr _ Hs). apply from_der_length in Hs. exists (key.SigEcdsa sig). split.
    + unfold multisig.signature_try_from. by rewrite Hs.
    + unfold multisig.signature_verify, multisig.ecdsa_verify. cbn. by rewrite Hr.
  - apply from_slice_bytes in Hs as [-> Hs]. exists (key.SigEd25519 signature). split.
    + unfold multisig.signature_try_from. by rewrite Hs.
    + unfold multisig.signature_verify, multisig.ed25519_verify. cbn. by rewrite Hr.
Qed.

End client.
End tofnd.

(** ** Signing ([handlers/multisig.rs]) *)
Module multisig_handler.
Import events handlers.
Export tofnd(Algorithm, Ecdsa, Ed25519, algorithm_for).

Record SigningStartedEvent := mkSigning {
  session_id : Z;
  pub_keys : gmap Addr key.PublicKey;
  msg : string;
  expires_at : Z;
  chain : string
}.

Record Handler := mkHandler { verifier : Addr; multisig : Addr; handler_chain : string }.

Section handle.
Context `{Json}.

(** [sign] is the signer ([tofnd]): the key's name, the digest, the key and the algorithm. *)
Definition handle (deserialize : gmap string Value → option SigningStartedEvent)
    (sign : string → string → key.PublicKey → Algorithm → option string)
    (self : Handler) (latest_block_height : Z) (e : events.Event) : result Error (list Msg) :=
  if negb (is_from_contract e (multisig self)) then Ok []
  else
    ev ← decoded (try_into "wasm-signing_started" deserialize e);
    match ev with
    | None => Ok []
    | Some ev =>
        if bool_decide (chain ev ≠ handler_chain self) then Ok []
        else if bool_decide (expires_at ev ≤ latest_block_height) then Ok []
        else
          match pub_keys ev !! verifier self with
          | Some pub_key =>
              let key_type := match pub_key with
                              | key.PkEcdsa _ => Ecdsa
                              | key.PkEd25519 _ => Ed25519
                              end in
              _ ← ensure (bool_decide (String.length (msg ev) = 32%nat)) MessageToSign;
              signature ← ok_or Sign (sign (multisig self) (msg ev) pub_key key_type);
              Ok [SubmitSignatureMsg (verifier self) (multisig self) (session_id ev) signature]
          | None => Ok []
          end
    end.

(** A handler signs one digest, with its own key of the session. *)
Lemma handle_signs deserialize sign self height e msgs :
  handle deserialize sign self height e = Ok msgs →
  msgs = [] ∨
  ∃ ev pub_key signature,
    is_from_contract e (multisig self) = true ∧
    try_into "wasm-signing_started" deserialize e = Ok ev ∧
    chain ev = handler_chain self ∧ height < expires_at ev ∧
    pub_keys ev !! verifier self = Some pub_key ∧ String.length (msg ev) = 32%nat ∧
    sign (multisig self) (msg ev) pub_key
      (match pub_key with key.PkEcdsa _ => Ecdsa | key.PkEd25519 _ => Ed25519 end) = Some signature ∧
    msgs = [SubmitSignatureMsg (verifier self) (multisig self) (session_id ev) signature].
Proof.
  intros Hf. unfold handle in Hf.
  destruct (is_from_contract _ _); cbn in Hf; [|left; by injection Hf].
  destruct (try_into _ _ _) as [ev|err|] eqn:Hev; cbn in Hf; [|destruct err; try done|done].
  2: { left. by injection Hf. }
  destruct (bool_decide_reflect (chain ev ≠ handler_chain self)) as [|Hchain]; [left; by injection Hf|].
  destruct (bool_decide_reflect (expires_at ev ≤ height)); [left; by injection Hf|].
  destruct (pub_keys ev !! verifier self) as [pk|] eqn:Hpk; [|left; by injection Hf]. right.
  apply bind_Ok in Hf as (u & Hlen & Hf). apply ensure_Ok in Hlen. apply bool_decide_eq_true in Hlen.
  apply bind_Ok in Hf as (signature & Hs & [= <-]). apply ok_or_Ok in Hs.
  exists ev, pk, signature. apply dec_stable in Hchain. split_and!; try done; lia.
Qed.

End handle.

(** ** The signature in the contract *)
Section accepted.
Context `{Json} `{Crypto} `{HexCodec} `{Api} `{tofnd.SignatureFormats} `{!tofnd.SignatureFormatsLaws}.

(** The event that the contract emitted for a session. *)
Definition describes (st : multisig.State) (ev : SigningStartedEvent) : Prop :=
  ∃ session vs, multisig.SIGNING_SESSIONS st !! session_id ev = Some session ∧
    multisig.VERIFIER_SETS st !! multisig.verifier_set_id session = Some vs ∧
    msg ev = multisig.msg session ∧ expires_at ev = multisig.expires_at session ∧
    pub_keys ev = verifier_set.pub_keys vs.

(** The client of [tofnd] as the signer of the handler, whose errors are all [Sign]. *)
Definition signer (c : tofnd.MultisigClient) (key_uid data : string) (pub_key : key.PublicKey)
    (algorithm : Algorithm) : option string := ok (tofnd.sign c key_uid data pub_key algorithm).

(** C21: A verifier's signature is accepted. Let the service [tofnd] answer with signatures by the key
    and with the algorithm that it is asked for. When the handler signs for the session of an
    event of the multisig contract, the contract accepts the signature, if it has signing enabled
    when it receives it, at the latest in the block in which the session expires, and for the first
    time from this verifier. This is for a contract in which the weights of a verifier set add up
    to a [u128] and no verifier set was registered again with another content under the same
    identifier. *)
Theorem handler_signature_accepted (deserialize : gmap string Value → option SigningStartedEvent)
    (c : tofnd.MultisigClient) (self : Handler)
    (h h' : Z) (e : events.Event) (st : multisig.State) (sender contract : Addr) (i : Z)
    (sig : string) :
  multisig.reachable multisig.stable_registration st →
  map_Forall (λ _ vs, multisig.total_weight vs ≤ u128_max) (multisig.VERIFIER_SETS st) →
  killswitch.is_contract_active (multisig.switch st) = true → is_Some (multisig.CONFIG st) →
  tofnd.signs_truly (tofnd.client c) →
  handle deserialize (signer c) self h e = Ok [SubmitSignatureMsg sender contract i sig] →
  (∀ ev, try_into "wasm-signing_started" deserialize e = Ok ev →
     describes st ev ∧ h' ≤ expires_at ev) →
  multisig.load_session_signatures st i !! sender = None →
  contract = multisig self ∧
  ∃ st' r, multisig.submit_signature st h' sender i sig = Ok (st', r).
Proof.
  intros Hr Hw Hsw Hcfg Hsign Hh Hev Hnew.
  destruct (handle_signs _ _ _ _ _ _ Hh) as [|(ev & pk & sg & _ & Hi & _ & _ & Hpk & _ & Hs & [= -> -> -> <-])];
    [done|]. split; [done|]. destruct (Hev ev Hi) as [(session & vs & Hses & Hvs & Hm & Hexp & Hkeys) Hle].
  apply multisig.submit_defined; [by apply multisig.multisig_reachable_inv in Hr|done|].
  split; [done|]. split; [done|]. rewrite Hkeys in Hpk. unfold verifier_set.pub_keys in Hpk.
  apply lookup_fmap_Some in Hpk as (participant & <- & Hsigner).
  apply ok_Some in Hs. destruct (tofnd.client_signature c _ _ _ _ Hsign Hs) as (s & Hs1 & Hs2).
  rewrite Hm in Hs2. exists session, vs, participant, s. rewrite Hexp in Hle. split_and!; done.
Qed.

End accepted.
End multisig_handler.

(** ** A concrete run *)
Module ampd_evm_run.
Import voting events handlers evm.

#[local] Existing Instances ampd_stream_run.run_json encoding_run.run_crypto encoding_run.run_codecs.

(** The topics of a log are the event and its fields. *)
#[local] Instance run_decoder : LogDecoder := λ l,
  match topics l with
  | ["call"; sender; dest_chain; dest; payload] => Some (ContractCall sender dest_chain dest payload)
  | ["rotated"; hash; signers] => Some (SignersRotated hash signers)
  | _ => Some OtherEvent
  end.

Definition run_id (c : Ascii.ascii) (i : Z) : msg_id.HexTxHashAndEventIndex_id :=
  msg_id.mkHexIndex (replicate 32 c) i.
Definition run_tx (c : Ascii.ascii) : string := id_hash (run_id c 0).

Definition run_confirmation : VerifierSetConfirmation :=
  mkConfirmation (run_id "a"%char 1) (encoding_run.run_set key.PkEcdsa).
Definition run_rotation : list string :=
  match encoding.abi.weighted_signers (verifier_set run_confirmation) with
  | Ok ws => ["rotated"; encoding.abi.signers_hash ws; abi_encode_signers ws]
  | _ => []
  end.

(** Transaction [a] calls the gateway and rotates the signers, [b] failed, [c] is too recent. *)
Definition run_logs : list Log :=
  [mkLog "gateway" ["call"; "0xa"; "Sui"; "0xb"; "hash"] EmptyString (Some (run_tx "a"%char));
   mkLog "gateway" run_rotation EmptyString (Some (run_tx "a"%char))].
Definition run_receipts (h : string) : option (option TransactionReceipt) :=
  if bool_decide (h = run_tx "a"%char) then Some (Some (mkReceipt h (Some 1) (Some 90) run_logs))
  else if bool_decide (h = run_tx "b"%char) then Some (Some (mkReceipt h (Some 0) (Some 91) []))
  else if bool_decide (h = run_tx "c"%char) then Some (Some (mkReceipt h (Some 1) (Some 101) run_logs))
  else None.
Definition run_transactions (h : string) : option (option Transaction) :=
  Some (Some (mkTransaction h "0xa" (Some "gateway") 3 "input")).
Definition run_client : EthereumClient :=
  mkEthereum (Some (Some 100)) (Some 110) run_receipts run_transactions.

Lemma run_client_answers : answers_asked run_client.
Proof. intros h r. cbn. unfold run_receipts. repeat case_bool_decide; by intros [= <-]. Qed.
Lemma run_client_answers_tx : answers_asked_tx run_client.
Proof. intros h t [= <-]. reflexivity. Qed.

Definition run_handler : Handler := mkHandler "alice" "verifier" "eth" RPCFinalizedBlock.
Definition run_event (t : string) : events.Event := Abci t {["_contract_address" := "verifier"]}.
Definition run_poll {C} (content : C) : PollStartedEvent C :=
  mkPollStarted 5 "eth" "gateway" 10 20 content ["bob"; "alice"].
Definition run_message (id : msg_id.HexTxHashAndEventIndex_id) : Message :=
  mkMessage id "0xb" "sui" "0xa" "hash".
Definition run_messages : list Message :=
  run_message <$> [run_id "a"%char 0; run_id "a"%char 1; run_id "b"%char 0; run_id "c"%char 0].

Lemma message_votes_exact_witness :
  ∃ votes, Forall2 (message_vote RPCFinalizedBlock run_client 10 "gateway") run_messages votes ∧
    votes = [SucceededOnChain; VoteNotFound; FailedOnChain; VoteNotFound].
Proof.
  destruct (message_votes_exact (λ _, Some (run_poll run_messages)) run_handler run_client 7
    (run_event "wasm-messages_poll_started")
    [VoteMsg "alice" "verifier" 5 [SucceededOnChain; VoteNotFound; FailedOnChain; VoteNotFound]])
    as [[[=] _]|(ev & votes & (_ & [= <-] & _) & [= <-] & Hv)].
  - exact run_client_answers.
  - vm_compute. reflexivity.
  - exists [SucceededOnChain; VoteNotFound; FailedOnChain; VoteNotFound]. by split.
Defined.

Lemma verifier_set_votes_exact_witness :
  ∃ r, final_receipt RPCFinalizedBlock run_client 10 (run_tx "a"%char) r ∧
    rotates "gateway" r run_confirmation.
Proof.
  destruct (verifier_set_votes_exact (λ _, Some (run_poll run_confirmation)) run_handler run_client 7
    (run_event "wasm-verifier_set_poll_started") [VoteMsg "alice" "verifier" 5 [SucceededOnChain]])
    as [[[=] _]|(ev & vote & (_ & [= <-] & _) & [= <-] & (r & Hr & _ & Hrot))].
  - exact run_client_answers.
  - vm_compute. reflexivity.
  - exists r. by split.
Defined.

(** One event with the details of its transaction, one with another value, one unreadable. *)
Definition run_details (value : Z) : TransactionDetails :=
  mkDetails "input" "0xa" (Some "gateway") value.
Definition run_parse (s : string) : option EvmEvent :=
  let ev v := mkEvmEvent (run_tx "a"%char) (Some (run_details v))
                [mkEvent "gateway" 0 ["call"; "0xa"; "Sui"; "0xb"; "hash"] EmptyString] in
  if bool_decide (s = "first") then Some (ev 3)
  else if bool_decide (s = "second") then Some (ev 4) else None.

Lemma event_votes_exact_witness :
  Forall2 (event_vote RPCFinalizedBlock run_client 10)
    (run_parse <$> ["first"; "second"; "third"]) [SucceededOnChain; VoteNotFound; VoteNotFound].
Proof.
  destruct (event_votes_exact
    (λ _, Some (mkEventsPoll ["first"; "second"; "third"] 5 "eth" 20 ["alice"])) run_parse
    run_handler 10 run_client 7 (run_event "wasm-events_poll_started")
    [VoteMsg "alice" "verifier" 5 [SucceededOnChain; VoteNotFound; VoteNotFound]])
    as [[[=] _]|(ev & votes & (_ & [= <-] & _) & [= <-] & Hv)].
  - exact run_client_answers.
  - exact run_client_answers_tx.
  - vm_compute. reflexivity.
  - exact Hv.
Defined.

End ampd_evm_run.

Module ampd_signing_run.
Import events handlers multisig_handler.

#[local] Existing Instances ampd_stream_run.run_json demo_crypto demo_api
  codecs.hex_codec.

(** The session of the concrete run of the multisig contract, with a digest of 32 bytes. *)
Definition run_digest : string := repeat_char "d"%char 32.
Definition run_state : multisig.State :=
  demo_next demo2 5 "prover"
    (multisig.StartSigningSession (verifier_set.id demo_set) run_digest "eth" None).

Lemma run_state_reachable : multisig.reachable multisig.stable_registration run_state.
Proof.
  repeat (apply demo_reach; [|done|vm_compute; reflexivity]).
  apply demo_reach;
    [|split; [apply demo_set_typed|left; reflexivity]|vm_compute; reflexivity].
  by apply (multisig.reachable_init _ (multisig.mkInstantiate "gov" "admin" "rewards" 10 "coord") _
    Response_new).
Qed.

Definition run_signing : SigningStartedEvent :=
  mkSigning 1 (verifier_set.pub_keys demo_set) run_digest 15 "eth".
(** Signatures are wrapped for DER; the service knows ECDSA keys. *)
#[local] Instance run_formats : tofnd.SignatureFormats := {|
  tofnd.from_der s := if bool_decide (String.length s = 66%nat) then Some (String.substring 2 64 s) else None;
  tofnd.from_slice s := if bool_decide (String.length s = 64%nat) then Some s else None
|}.
#[local] Instance run_formats_laws : tofnd.SignatureFormatsLaws.
Proof.
  split.
  - intros s sig Hs. unfold tofnd.from_der, run_formats in Hs.
    case_bool_decide as Hlen; [|done]. injection Hs as <-.
    do 66 (destruct s as [|? s]; [discriminate|]). by destruct s.
  - intros s sig Hs. unfold tofnd.from_slice, run_formats in Hs.
    case_bool_decide; [|done]. by injection Hs as <-.
Qed.
Definition run_service : tofnd.Service :=
  tofnd.mkService
    (λ req, match tofnd.keygen_algorithm req with
            | Ecdsa => inr (Some (tofnd.PubKey (repeat_char "a"%char 33)))
            | Ed25519 => inl tofnd.Unknown
            end)
    (λ req, match tofnd.algorithm req, text_of (tofnd.pub_key req) with
            | Ecdsa, c :: _ => inr (Some (tofnd.Signature ("0@" +:+ repeat_char c 64)))
            | _, _ => inr (Some (tofnd.SignError "no key"))
            end).
Definition run_tofnd : tofnd.MultisigClient := tofnd.mkClient "ampd" run_service.

Lemma run_signs_truly : tofnd.signs_truly run_service.
Proof.
  intros req signature Hs. cbn in Hs. destruct (tofnd.algorithm req); [|done].
  destruct (text_of (tofnd.pub_key req)) as [|c t] eqn:Hk; [done|]. injection Hs as <-.
  intros sig [= <-]. unfold secp256k1_verify, demo_crypto. rewrite Hk.
  by rewrite bool_decide_eq_true_2.
Qed.

Lemma handler_signature_accepted_witness :
  ∃ st' r, multisig.submit_signature run_state 9 "alice" 1 (repeat_char "a"%char 64) = Ok (st', r).
Proof.
  apply (handler_signature_accepted (λ _, Some run_signing) run_tofnd
    (mkHandler "alice" "multisig" "eth") 7 9
    (Abci "wasm-signing_started" {["_contract_address" := "multisig"]}) run_state "alice" "multisig").
  - exact run_state_reachable.
  - assert (multisig.VERIFIER_SETS run_state = {[ verifier_set.id demo_set := demo_set ]})
      as -> by (vm_compute; reflexivity).
    apply map_Forall_singleton. vm_compute. discriminate.
  - vm_compute. reflexivity.
  - vm_compute. by eexists.
  - exact run_signs_truly.
  - vm_compute. reflexivity.
  - intros ev [= <-]. split; [|by vm_compute]. do 2 eexists. split; [vm_compute; reflexivity|].
    repeat (split; [vm_compute; reflexivity|]). vm_compute. reflexivity.
  - vm_compute. reflexivity.
Defined.

End ampd_signing_run.
