(* ===== verification/AmpdChains.v ===== *)
(** * How a verifier votes on other chains

    The shape of a handler, and the handlers of [ampd] for Sui and Stellar: what the clients make
    of the answers of a node ([sui/json_rpc.rs], [stellar/rpc_client.rs]), the verification of
    messages and verifier sets ([sui/verifier.rs], [stellar/verifier.rs]), and the handlers
    ([handlers/<chain>_verify_msg.rs], [handlers/<chain>_verify_verifier_set.rs]).

    The handlers of all chains have one shape: [vote_in_poll] is its model, and [votes_exact] what it promises
    for a chain that says when an item happened and when it failed. *)

From Stdlib Require Import Ascii.
From S2P Require Import Prelude Std Voting MsgId RouterApi Multisig MultisigProver Encoding.
From S2P Require Import AmpdStream AmpdEvm.

(** ** The shape of a handler *)
Module voting_handler.
Import voting events handlers.

Section handler.
Context `{Json} {C : Type}.

Definition vote_in_poll (event_type : string)
    (deserialize : gmap string Value → option (evm.PollStartedEvent C)) (verifier contract : Addr)
    (skip : evm.PollStartedEvent C → bool) (votes : evm.PollStartedEvent C → result Error (list Vote))
    (e : events.Event) : result Error (list Msg) :=
  if negb (is_from_contract e contract) then Ok []
  else
    ev ← decoded (try_into event_type deserialize e);
    match ev with
    | None => Ok []
    | Some ev =>
        if skip ev then Ok []
        else vs ← votes ev; Ok [VoteMsg verifier contract (evm.poll_id ev) vs]
    end.

(** The guards on participation and expiry. *)
Definition absent_or_expired (verifier : Addr) (latest_block_height : Z)
    (ev : evm.PollStartedEvent C) : bool :=
  bool_decide (verifier ∉ evm.participants ev) ||
  bool_decide (evm.expires_at ev ≤ latest_block_height).

(** The votes, from the transactions that were found. *)
Definition cast_votes {I Tx} (lookup : I → option Tx) (verify : Tx → I → result Error Vote)
    (items : list I) : result Error (list Vote) :=
  try_map (λ i, match lookup i with Some tx => verify tx i | None => Ok VoteNotFound end) items.

(** ** What a handler promises *)

(** What a vote says about an item, by when it happened and when it failed. *)
Definition vote_is {I} (happened failed : I → Prop) (i : I) (v : Vote) : Prop :=
  match v with
  | SucceededOnChain => happened i
  | FailedOnChain => failed i
  | VoteNotFound => ¬ happened i ∧ ¬ failed i
  end.

(** A poll that the handler votes in: emitted by its contract, open, and with it as a
    participant. *)
Definition open_poll (event_type : string)
    (deserialize : gmap string Value → option (evm.PollStartedEvent C)) (verifier contract : Addr)
    (height : Z) (e : events.Event) (ev : evm.PollStartedEvent C) : Prop :=
  is_from_contract e contract = true ∧ try_into event_type deserialize e = Ok ev ∧
  verifier ∈ evm.participants ev ∧ height < evm.expires_at ev.

(** The handler is silent exactly about what is not a poll for it; in a poll, it casts one vote
    per item, which says what happened. *)
Definition votes_exact {I} (poll : evm.PollStartedEvent C → Prop) (items : C → list I)
    (happened failed : evm.PollStartedEvent C → I → Prop) (verifier contract : Addr)
    (msgs : list Msg) : Prop :=
  (msgs = [] ∧ ∀ ev, ¬ poll ev) ∨
  ∃ ev votes, poll ev ∧ msgs = [VoteMsg verifier contract (evm.poll_id ev) votes] ∧
    Forall2 (vote_is (happened ev) (failed ev)) (items (evm.poll_content ev)) votes.

Lemma mapM_elem {A B} (f : A → option B) l k :
  mapM f l = Some k → ∀ y, y ∈ k ↔ ∃ x, x ∈ l ∧ f x = Some y.
Proof.
  intros Hk%mapM_Some y. induction Hk as [|x y' l k Hx Hk IH]; [set_solver|].
  setoid_rewrite elem_of_cons. rewrite IH. naive_solver.
Qed.

(** Answers of a node, collected by what was asked. *)
Lemma collect_asked {T} (f : string → option T) (hs : gset string) h t :
  collect (omap (λ h, (λ t, (h, t)) <$> f h) (elements hs)) !! h = Some t ↔ h ∈ hs ∧ f h = Some t.
Proof.
  unfold collect. set (l := omap _ _).
  assert (∀ k t', (k, t') ∈ l ↔ k ∈ hs ∧ f k = Some t') as Hl.
  { intros k t'. subst l. rewrite list_elem_of_omap. setoid_rewrite elem_of_elements. split.
    - intros (x & Hx & (y & Hy & [= <- <-])%fmap_Some). done.
    - intros [Hk Hf]. exists k. by rewrite Hf. }
  rewrite <-Hl, <-elem_of_reverse. split; [apply elem_of_list_to_map_2|].
  intros Hin. apply elem_of_list_to_map_1'; [|done]. intros t' Ht'. rewrite elem_of_reverse in Hin, Ht'.
  apply Hl in Hin as [_ E1], Ht' as [_ E2]. congruence.
Qed.

(** The first item with a property. *)
Lemma find_first {A} (P : A → Prop) `{!∀ x, Decision (P x)} (l : list A) e :
  snd <$> list_find P l = Some e ↔
  ∃ before after, l = before ++ e :: after ∧ P e ∧ Forall (λ x, ¬ P x) before.
Proof.
  rewrite fmap_Some. split.
  - intros ([i e'] & (Hi & Hs & Hb)%list_find_Some & ->). cbn. exists (take i l), (drop (S i) l).
    split; [symmetry; by apply take_drop_middle|]. split; [done|]. apply Forall_lookup.
    intros j x Hx. apply lookup_take_Some in Hx as [Hx Hj]. by eapply Hb.
  - intros (before & after & -> & Hs & Hb). exists (length before, e). split; [|done].
    apply list_find_Some. split; [by rewrite list_lookup_middle|]. split; [done|].
    intros j x Hx Hj. rewrite lookup_app_l in Hx by done. rewrite Forall_lookup in Hb. by eapply Hb.
Qed.

Lemma absent_or_expired_spec verifier height ev :
  absent_or_expired verifier height ev = false ↔
  verifier ∈ evm.participants ev ∧ height < evm.expires_at ev.
Proof.
  unfold absent_or_expired. rewrite orb_false_iff, !bool_decide_eq_false. split.
  - intros [E1%dec_stable E2]. split; [done|lia].
  - intros [E1 E2]. split; [by intros []|lia].
Qed.

Lemma cast_votes_exact {I Tx} (lookup : I → option Tx) (verify : Tx → I → result Error Vote)
    (items : list I) (vs : list Vote) (happened failed : I → Prop) :
  cast_votes lookup verify items = Ok vs →
  (∀ i tx v, i ∈ items → lookup i = Some tx → verify tx i = Ok v → vote_is happened failed i v) →
  (∀ i, i ∈ items → lookup i = None → ¬ happened i ∧ ¬ failed i) →
  Forall2 (vote_is happened failed) items vs.
Proof.
  intros Hvs%try_map_Ok Hsome Hnone. apply Forall2_same_length_lookup in Hvs as [Hlen Hvs].
  apply Forall2_same_length_lookup. split; [done|]. intros n i v Hi Hv.
  specialize (Hvs n i v Hi Hv). cbn in Hvs. apply list_elem_of_lookup_2 in Hi.
  destruct (lookup i) as [tx|] eqn:Hl; [by eapply Hsome|]. injection Hvs as <-. by apply Hnone.
Qed.

(** A handler whose votes say what happened keeps the promise; [wanted] is what [skip] leaves. *)
Lemma vote_in_poll_exact_for {I} event_type deserialize verifier contract skip votes e msgs
    (wanted : evm.PollStartedEvent C → Prop) (items : C → list I)
    (happened failed : evm.PollStartedEvent C → I → Prop) :
  vote_in_poll event_type deserialize verifier contract skip votes e = Ok msgs →
  (∀ ev, skip ev = false ↔ wanted ev) →
  (∀ a ev vs, deserialize a = Some ev → votes ev = Ok vs →
     Forall2 (vote_is (happened ev) (failed ev)) (items (evm.poll_content ev)) vs) →
  votes_exact (λ ev, is_from_contract e contract = true ∧ try_into event_type deserialize e = Ok ev ∧
                     wanted ev) items happened failed verifier contract msgs.
Proof.
  intros Hf Hskip Hvotes. unfold vote_in_poll, votes_exact in *.
  destruct (is_from_contract _ _); cbn in Hf; [|left; split; [by injection Hf|naive_solver]].
  destruct (try_into _ _ _) as [ev|err|] eqn:Hev; cbn in Hf; [|destruct err; try done|done].
  2: { left. split; [by injection Hf|naive_solver]. }
  destruct (skip ev) eqn:Hs.
  { left. split; [by injection Hf|]. intros ev' (_ & [= <-] & Hg). apply Hskip in Hg. congruence. }
  apply Hskip in Hs. right. apply bind_Ok in Hf as (vs & Hvs & [= <-]). exists ev, vs.
  split; [done|]. split; [done|]. unfold try_into in Hev. destruct e as [| |t a]; try done.
  case_bool_decide; [|done]. apply ok_or_Ok in Hev. by eapply Hvotes.
Qed.

Lemma vote_in_poll_exact {I} event_type deserialize verifier contract skip votes e msgs
    (wanted : evm.PollStartedEvent C → Prop) (items : C → list I)
    (happened failed : evm.PollStartedEvent C → I → Prop) :
  vote_in_poll event_type deserialize verifier contract skip votes e = Ok msgs →
  (∀ ev, skip ev = false ↔ wanted ev) →
  (∀ ev vs, votes ev = Ok vs →
     Forall2 (vote_is (happened ev) (failed ev)) (items (evm.poll_content ev)) vs) →
  votes_exact (λ ev, is_from_contract e contract = true ∧ try_into event_type deserialize e = Ok ev ∧
                     wanted ev) items happened failed verifier contract msgs.
Proof. intros Hf Hskip Hvotes. eapply vote_in_poll_exact_for; [done..|]. naive_solver. Qed.

End handler.
End voting_handler.

(** ** Sorted signers

    Signers are compared as sorted lists of a key and a weight. *)
Module signers.

Definition signer_le (p q : string * Z) : Prop :=
  String.le p.1 q.1 ∧ (p.1 = q.1 → p.2 ≤ q.2).
#[global] Instance signer_le_dec : RelDecision signer_le.
Proof. intros p q. unfold signer_le. apply _. Defined.

#[global] Instance signer_le_trans : Transitive signer_le.
Proof.
  intros [a n] [b m] [c k] [E1 E2] [E3 E4]; cbn in *. split; cbn; [by etrans|].
  intros ->. assert (b = c) as -> by by apply (anti_symm String.le).
  specialize (E2 eq_refl). specialize (E4 eq_refl). lia.
Qed.
#[global] Instance signer_le_total : Total signer_le.
Proof.
  intros [a n] [b m]. unfold signer_le; cbn. destruct (decide (a = b)) as [->|Hne].
  - destruct (Z.le_ge_cases n m); [left|right]; split; done.
  - destruct (total String.le a b); [left|right]; split; done.
Qed.
#[global] Instance signer_le_antisymm : AntiSymm (=) signer_le.
Proof.
  intros [a n] [b m] [E1 E2] [E3 E4]; cbn in *.
  assert (a = b) as -> by by apply (anti_symm String.le). f_equal. specialize (E2 eq_refl).
  specialize (E4 eq_refl). lia.
Qed.

(** Two lists are equal after sorting when they hold the same signers. *)
Lemma sorted_equal (l k : list (string * Z)) :
  merge_sort signer_le l = merge_sort signer_le k ↔ l ≡ₚ k.
Proof.
  split.
  - intros Heq. by rewrite <-(merge_sort_Permutation signer_le l), Heq, merge_sort_Permutation.
  - intros Hp. apply (StronglySorted_unique signer_le); [apply StronglySorted_merge_sort; apply _..|].
    by rewrite !merge_sort_Permutation.
Qed.

(** The keys and weights of a verifier set, in the order of the signer map. *)
Definition weights (vs : verifier_set.VerifierSet) : list (string * Z) :=
  (λ '(_, s), (key.pub_key_bytes (verifier_set.pub_key s), verifier_set.weight s)) <$>
    entries (verifier_set.signers vs).

End signers.

(** ** Sui *)
Module sui.
Import voting events handlers voting_handler.

Record SuiEvent := mkSuiEvent { event_seq : Z; type_ : string; bcs : string }.
Record TransactionBlock := mkBlock {
  digest : string;
  block_events : option (list SuiEvent);
  checkpoint : option Z
}.

(** [sui_gateway::events] *)
Record ContractCall := mkCall {
  source_id : string;
  call_destination_chain : string;
  call_destination_address : string;
  call_payload_hash : string
}.
Record SignersRotated := mkRotated {
  rotated_signers : list (string * Z);
  rotated_threshold : Z;
  rotated_nonce : string
}.

(** [bcs::from_bytes], [Display] of an address and [FromStr] of [StructTag]. *)
Class SuiCodec := {
  contract_call_from_bytes : string → option ContractCall;
  signers_rotated_from_bytes : string → option SignersRotated;
  struct_tag_from_str : string → option string
}.

(** What a node answers: [None] for an error. *)
Record SuiClient := mkClient {
  get_transaction_block : string → option TransactionBlock;
  multi_get_transaction_blocks : gset string → option (list TransactionBlock)
}.

(** *** The client ([sui/json_rpc.rs]) *)

Definition finalized_transaction_block (c : SuiClient) (d : string) : option (option TransactionBlock) :=
  (λ b, (λ _, b) <$> checkpoint b) <$> get_transaction_block c d.

Definition finalized_transaction_blocks (c : SuiClient) (digests : gset string)
    : option (gmap string TransactionBlock) :=
  blocks ← multi_get_transaction_blocks c digests;
  Some (collect ((λ b, (digest b, b)) <$> filter (λ b, is_Some (checkpoint b)) blocks)).

(** *** Verification ([sui/verifier.rs]) *)

Record Message := mkMessage {
  message_id : msg_id.Base58TxDigestAndEventIndex_id;
  destination_address : string;
  destination_chain : string;
  source_address : string;
  payload_hash : string
}.
Record VerifierSetConfirmation := mkConfirmation {
  vs_message_id : msg_id.Base58TxDigestAndEventIndex_id;
  verifier_set : verifier_set.VerifierSet
}.
Definition id_digest (id : msg_id.Base58TxDigestAndEventIndex_id) : string :=
  h256 (msg_id.tx_digest id).

Inductive EventType := ContractCallType | SignersRotatedType.

Section verifier.
Context `{SuiCodec}.

Definition struct_tag (self : EventType) (gateway_address : string) : result Error string :=
  let event := match self with
               | ContractCallType => "ContractCall"
               | SignersRotatedType => "SignersRotated"
               end in
  expect (struct_tag_from_str (gateway_address +:+ "::events::" +:+ event)).

Definition message_eq (e : SuiEvent) (msg : Message) : bool :=
  match contract_call_from_bytes (bcs e) with
  | Some c =>
      evm.matches_destination_chain (call_destination_chain c) (destination_chain msg) &&
      bool_decide (source_address msg = source_id c) &&
      bool_decide (destination_address msg = call_destination_address c) &&
      bool_decide (payload_hash msg = call_payload_hash c)
  | None => false
  end.

Definition confirmation_eq (e : SuiEvent) (c : VerifierSetConfirmation) : bool :=
  let expected := verifier_set c in
  let expected_signers := merge_sort signers.signer_le (signers.weights expected) in
  let expected_created_at := to_be_bytes 24 0 +:+ to_be_bytes 8 (verifier_set.created_at expected) in
  match signers_rotated_from_bytes (bcs e) with
  | Some r =>
      bool_decide (merge_sort signers.signer_le (rotated_signers r) = expected_signers) &&
      bool_decide (rotated_threshold r = verifier_set.threshold expected) &&
      bool_decide (rotated_nonce r = expected_created_at)
  | None => false
  end.

Definition find_event (b : TransactionBlock) (seq : Z) : option SuiEvent :=
  snd <$> list_find (λ e, event_seq e = seq) (default [] (block_events b)).

(** The guards of the two verifications, in their order. *)
Definition verify (t : EventType) (gateway_address : string) (b : TransactionBlock)
    (id : msg_id.Base58TxDigestAndEventIndex_id) (to_verify : SuiEvent → bool) : result Error Vote :=
  match find_event b (msg_id.b58_event_index id) with
  | Some e =>
      if bool_decide (digest b = id_digest id) then
        tag ← struct_tag t gateway_address;
        Ok (if bool_decide (type_ e = tag) && to_verify e then SucceededOnChain else VoteNotFound)
      else Ok VoteNotFound
  | None => Ok VoteNotFound
  end.

Definition verify_message (gateway_address : string) (b : TransactionBlock) (m : Message)
    : result Error Vote :=
  verify ContractCallType gateway_address b (message_id m) (λ e, message_eq e m).

Definition verify_verifier_set (gateway_address : string) (b : TransactionBlock)
    (c : VerifierSetConfirmation) : result Error Vote :=
  verify SignersRotatedType gateway_address b (vs_message_id c) (λ e, confirmation_eq e c).

End verifier.

(** *** The handlers *)

Record Handler := mkHandler { verifier : Addr; voting_verifier_contract : Addr }.

Section handle.
Context `{SuiCodec} `{Json}.

Definition handle_messages
    (deserialize : gmap string Value → option (evm.PollStartedEvent (list Message)))
    (self : Handler) (c : SuiClient) (latest_block_height : Z) (e : events.Event)
    : result Error (list Msg) :=
  vote_in_poll "wasm-messages_poll_started" deserialize (verifier self)
    (voting_verifier_contract self) (absent_or_expired (verifier self) latest_block_height)
    (λ ev,
       let messages := evm.poll_content ev in
       transaction_blocks ← ok_or TxReceipts (finalized_transaction_blocks c
         (list_to_set ((λ m, id_digest (message_id m)) <$> messages)));
       cast_votes (λ m, transaction_blocks !! id_digest (message_id m))
         (verify_message (evm.source_gateway_address ev)) messages) e.

Definition handle_verifier_set
    (deserialize : gmap string Value → option (evm.PollStartedEvent VerifierSetConfirmation))
    (self : Handler) (c : SuiClient) (latest_block_height : Z) (e : events.Event)
    : result Error (list Msg) :=
  vote_in_poll "wasm-verifier_set_poll_started" deserialize (verifier self)
    (voting_verifier_contract self) (absent_or_expired (verifier self) latest_block_height)
    (λ ev,
       let verifier_set := evm.poll_content ev in
       transaction_block ← ok_or TxReceipts
         (finalized_transaction_block c (id_digest (vs_message_id verifier_set)));
       cast_votes (λ _, transaction_block) (verify_verifier_set (evm.source_gateway_address ev))
         [verifier_set]) e.

(** *** What the votes say *)

(** The transaction emitted an event of the gateway, at the place that the identifier says. *)
Definition emits (t : EventType) (gateway : string) (b : TransactionBlock)
    (id : msg_id.Base58TxDigestAndEventIndex_id) (content : SuiEvent → Prop) : Prop :=
  digest b = id_digest id ∧ is_Some (checkpoint b) ∧
  ∃ before e after, default [] (block_events b) = before ++ e :: after ∧
    event_seq e = msg_id.b58_event_index id ∧
    Forall (λ x, event_seq x ≠ msg_id.b58_event_index id) before ∧
    struct_tag t gateway = Ok (type_ e) ∧ content e.

Definition calls (m : Message) (e : SuiEvent) : Prop :=
  ∃ dest_chain, contract_call_from_bytes (bcs e) =
      Some (mkCall (source_address m) dest_chain (destination_address m) (payload_hash m)) ∧
    chain.from_str dest_chain = Ok (destination_chain m).

Definition rotates (c : VerifierSetConfirmation) (e : SuiEvent) : Prop :=
  ∃ r, signers_rotated_from_bytes (bcs e) = Some r ∧
    rotated_signers r ≡ₚ signers.weights (verifier_set c) ∧
    rotated_threshold r = verifier_set.threshold (verifier_set c) ∧
    rotated_nonce r = to_be_bytes 24 0 +:+ to_be_bytes 8 (verifier_set.created_at (verifier_set c)).

Lemma sui_message_eq_calls e m : message_eq e m = true ↔ calls m e.
Proof.
  unfold message_eq, calls. destruct (contract_call_from_bytes (bcs e)) as [[s d a h]|]; cbn;
    [|naive_solver].
  rewrite !andb_true_iff, !bool_decide_eq_true, evm.matches_chain_spec. naive_solver.
Qed.

Lemma sui_confirmation_eq_rotates e c : confirmation_eq e c = true ↔ rotates c e.
Proof.
  unfold confirmation_eq, rotates. destruct (signers_rotated_from_bytes (bcs e)) as [r|]; cbn;
    [|naive_solver].
  rewrite !andb_true_iff, !bool_decide_eq_true, signers.sorted_equal. naive_solver.
Qed.

Lemma sui_find_event_spec b seq e :
  find_event b seq = Some e ↔
  ∃ before after, default [] (block_events b) = before ++ e :: after ∧ event_seq e = seq ∧
    Forall (λ x, event_seq x ≠ seq) before.
Proof. apply (find_first (λ e, event_seq e = seq)). Qed.

Lemma emits_spec t gateway b id content :
  emits t gateway b id content ↔
  digest b = id_digest id ∧ is_Some (checkpoint b) ∧
  ∃ e, find_event b (msg_id.b58_event_index id) = Some e ∧
    struct_tag t gateway = Ok (type_ e) ∧ content e.
Proof. unfold emits. setoid_rewrite sui_find_event_spec. naive_solver. Qed.

(** A transaction that is final decides the vote. *)
Lemma sui_verify_emits t gateway b id to_verify content v :
  (∀ e, to_verify e = true ↔ content e) → is_Some (checkpoint b) →
  verify t gateway b id to_verify = Ok v →
  v = SucceededOnChain ∧ emits t gateway b id content ∨
  v = VoteNotFound ∧ ¬ emits t gateway b id content.
Proof.
  intros Hc Hb Hv. rewrite emits_spec. unfold verify in Hv.
  destruct (find_event b _) as [e|]; [|injection Hv as <-; naive_solver].
  destruct (bool_decide_reflect (digest b = id_digest id)); [|injection Hv as <-; naive_solver].
  apply bind_Ok in Hv as (tag & -> & [= <-]). specialize (Hc e).
  destruct (bool_decide_reflect (type_ e = tag)), (to_verify e); naive_solver.
Qed.

(** A node answers with every transaction at most once. *)
Definition answers_once (c : SuiClient) : Prop :=
  ∀ hs blocks, multi_get_transaction_blocks c hs = Some blocks → NoDup (digest <$> blocks).

(** The call is in the transactions that the node reports for the poll. *)
Definition message_happened (c : SuiClient) (ev : evm.PollStartedEvent (list Message)) (m : Message)
    : Prop :=
  ∃ blocks b,
    multi_get_transaction_blocks c
      (list_to_set ((λ m, id_digest (message_id m)) <$> evm.poll_content ev)) = Some blocks ∧
    b ∈ blocks ∧
    emits ContractCallType (evm.source_gateway_address ev) b (message_id m) (calls m).

Definition rotation_happened (c : SuiClient) (ev : evm.PollStartedEvent VerifierSetConfirmation)
    (s : VerifierSetConfirmation) : Prop :=
  ∃ b, get_transaction_block c (id_digest (vs_message_id s)) = Some b ∧
    emits SignersRotatedType (evm.source_gateway_address ev) b (vs_message_id s) (rotates s).

Lemma finalized_blocks_spec c hs m :
  answers_once c → finalized_transaction_blocks c hs = Some m →
  ∃ blocks, multi_get_transaction_blocks c hs = Some blocks ∧
    ∀ h b, m !! h = Some b ↔ b ∈ blocks ∧ digest b = h ∧ is_Some (checkpoint b).
Proof.
  intros Ho Hm. unfold finalized_transaction_blocks, collect in Hm.
  destruct (multi_get_transaction_blocks c hs) as [blocks|] eqn:Hb; [|done]. injection Hm as <-.
  exists blocks. split; [done|]. intros h b. rewrite (evm.collect_spec digest (λ b, b)).
  - setoid_rewrite list_elem_of_filter. naive_solver.
  - intros x y [_ Hx]%list_elem_of_filter [_ Hy]%list_elem_of_filter Heq.
    apply list_elem_of_lookup in Hx as [i Hi], Hy as [j Hj].
    assert (i = j) as ->; [|congruence]. apply (NoDup_lookup _ _ _ (digest x) (Ho _ _ Hb)).
    + by rewrite list_lookup_fmap, Hi.
    + by rewrite list_lookup_fmap, Hj, Heq.
Qed.

(** On Sui, a verifier votes for exactly what its node shows. A message succeeded when the node
    reports its transaction with a checkpoint and the event at the given place is a call of the
    poll's gateway with exactly the message's sender, destination and payload; a verifier set
    did when the event is a rotation to exactly its signers and weights, threshold and nonce.
    Everything else is not found, and nothing failed. *)
Theorem sui_votes_exact des_messages des_set (self : Handler) (c : SuiClient) (height : Z)
    (e : events.Event) (msgs : list Msg) :
  answers_once c →
  (handle_messages des_messages self c height e = Ok msgs →
   votes_exact (open_poll "wasm-messages_poll_started" des_messages (verifier self)
                  (voting_verifier_contract self) height e)
     (λ ms, ms) (message_happened c) (λ _ _, False) (verifier self) (voting_verifier_contract self) msgs) ∧
  (handle_verifier_set des_set self c height e = Ok msgs →
   votes_exact (open_poll "wasm-verifier_set_poll_started" des_set (verifier self)
                  (voting_verifier_contract self) height e)
     (λ s, [s]) (rotation_happened c) (λ _ _, False) (verifier self) (voting_verifier_contract self) msgs).
Proof.
  intros Ho. split; intros Hf; (eapply vote_in_poll_exact; [exact Hf|apply absent_or_expired_spec|]);
    intros ev vs Hvs; apply bind_Ok in Hvs as (found & Hfound%ok_or_Ok & Hvs).
  - destruct (finalized_blocks_spec _ _ _ Ho Hfound) as (blocks & Hb & Hspec).
    assert (∀ m, message_happened c ev m ↔ ∃ b, found !! id_digest (message_id m) = Some b ∧
      emits ContractCallType (evm.source_gateway_address ev) b (message_id m) (calls m)) as Hh.
    { intros m. unfold message_happened, emits. setoid_rewrite Hb. setoid_rewrite Hspec. naive_solver. }
    eapply cast_votes_exact; [exact Hvs|..]; intros m; [intros b v _ Hm Hv|intros _ Hm].
    + pose proof (proj1 (Hspec _ _) Hm) as (_ & _ & Hcp).
      destruct (sui_verify_emits _ _ _ _ _ (calls m) v (λ e, sui_message_eq_calls e m) Hcp Hv) as [[-> He]|[-> He]];
        cbn; rewrite Hh; naive_solver.
    + rewrite Hh. naive_solver.
  - unfold finalized_transaction_block in Hfound.
    apply fmap_Some in Hfound as (b & Hb & ->). unfold rotation_happened.
    eapply cast_votes_exact; [exact Hvs|..]; intros s; [intros b' v|]; intros ->%list_elem_of_singleton.
    + intros (cp & Hcp & ->)%fmap_Some Hv.
      destruct (sui_verify_emits _ _ _ _ _ (rotates (evm.poll_content ev)) v
        (λ e, sui_confirmation_eq_rotates e _) (ex_intro _ _ Hcp) Hv) as [[-> He]|[-> He]]; cbn; [eauto|].
      split; [|by intros []]. intros (b' & Hb' & He'). rewrite Hb in Hb'. by injection Hb' as <-.
    + intros Hcp%fmap_None. split; [|by intros []].
      intros (b' & Hb' & _ & [cp Hcp'] & _). congruence.
Qed.

End handle.
End sui.

(** ** Stellar *)
Module stellar.
Import voting events handlers voting_handler.

Inductive ScAddress := Contract (hash : string) | Account (key : string).
#[global] Instance ScAddress_eq_dec : EqDecision ScAddress.
Proof. solve_decision. Defined.

(** The values of topics; [ScOther] is a value of another kind. *)
Inductive ScVal :=
  | ScSymbol (s : string) | ScString (s : string) | ScBytes (b : string)
  | ScAddressVal (a : ScAddress) | ScOther (xdr : string).
#[global] Instance ScVal_eq_dec : EqDecision ScVal.
Proof. solve_decision. Defined.

Record ContractEvent := mkEvent { contract_id : option string; topics : list ScVal }.

Inductive TransactionMeta :=
  | V4
  | V3 (soroban_events : option (list ContractEvent))
  | OtherMeta.
Record GetTransactionResponse := mkGetTransaction {
  response_status : string;
  result_meta : option TransactionMeta;
  contract_events_of : list (list ContractEvent)
}.

(** *** The client ([stellar/rpc_client.rs]) *)

Record TxResponse := mkTxResponse {
  transaction_hash : string;
  successful : bool;
  contract_events : list ContractEvent
}.
Inductive TxParseError := InvalidOperationCount (actual : nat) | UnsupportedMetadataVersion.

Definition STATUS_SUCCESS : string := "SUCCESS".

Definition tx_response_try_from (transaction_hash : string) (response : GetTransactionResponse)
    : result TxParseError TxResponse :=
  if bool_decide (response_status response ≠ STATUS_SUCCESS)
  then Ok (mkTxResponse transaction_hash false [])
  else
    contract_events ←
      match result_meta response with
      | Some V4 =>
          match contract_events_of response with
          | [events] => Ok events
          | l => Err (InvalidOperationCount (length l))
          end
      | Some (V3 soroban_meta) => Ok (default [] soroban_meta)
      | _ => Err UnsupportedMetadataVersion
      end;
    Ok (mkTxResponse transaction_hash true contract_events).

Definition has_failed (self : TxResponse) : bool := negb (successful self).
Definition event (self : TxResponse) (index : Z) : option ContractEvent :=
  contract_events self !! Z.to_nat index.

(** What a node answers: [None] for an error. *)
Definition Node := string → option GetTransactionResponse.

Definition validate_tx_response (response : option GetTransactionResponse) (hash : string)
    : option TxResponse :=
  response ← response; ok (tx_response_try_from hash response).

(** [Hash::from_str] and [to_string] of [stellar_xdr]. *)
Class StellarHash := {
  hash_from_str : string → option string;
  hash_to_string : string → string
}.
Class StellarHashLaws `{StellarHash} : Prop := {
  hash_to_from s h : forallb is_hex (text_of s) = true → hash_from_str s = Some h →
    hash_to_string h = s
}.

Section client.
Context `{StellarHash}.

Definition transaction_response (node : Node) (tx_hash : string) : option (option TxResponse) :=
  h ← hash_from_str tx_hash; Some (validate_tx_response (node h) (hash_to_string h)).

Definition transaction_responses (node : Node) (tx_hashes : gset string)
    : option (gmap string TxResponse) :=
  hashes ← mapM hash_from_str (elements tx_hashes);
  Some (collect (omap (λ h, (λ r, (transaction_hash r, r)) <$>
                            validate_tx_response (node h) (hash_to_string h)) hashes)).

End client.

(** *** Verification ([stellar/verifier.rs]) *)

Record Message := mkMessage {
  message_id : msg_id.HexTxHashAndEventIndex_id;
  destination_address : string;
  destination_chain : string;
  source_address : ScAddress;
  payload_hash : string
}.
Record VerifierSetConfirmation := mkConfirmation {
  vs_message_id : msg_id.HexTxHashAndEventIndex_id;
  verifier_set : verifier_set.VerifierSet
}.

Section verifier.
Context `{HexCodec} `{Crypto} `{encoding.ChainCodecs}.

Definition tx_hash_as_hex_no_prefix (id : msg_id.HexTxHashAndEventIndex_id) : string :=
  String.string_of_list_ascii (to_hex (msg_id.hex_tx_hash id)).

Definition TOPIC_CONTRACT_CALLED : string := "contract_called".
Definition TOPIC_SIGNERS_ROTATED : string := "signers_rotated".

Definition message_eq (m : Message) (e : ContractEvent) : bool :=
  match topics e with
  | [symbol; source; destination_chain'; destination; hash] =>
      match destination_chain' with
      | ScString s => evm.matches_destination_chain s (destination_chain m)
      | _ => false
      end &&
      bool_decide (ScSymbol TOPIC_CONTRACT_CALLED = symbol) &&
      bool_decide (ScAddressVal (source_address m) = source) &&
      bool_decide (ScBytes (payload_hash m) = hash) &&
      bool_decide (ScString (destination_address m) = destination)
  | _ => false
  end.

Definition expected_signers_hash (vs : verifier_set.VerifierSet) : option string :=
  weighted_signers ← ok (encoding.stellar_xdr.weighted_signers vs);
  ok (encoding.stellar_xdr.signers_hash weighted_signers).

Definition confirmation_eq (c : VerifierSetConfirmation) (e : ContractEvent) : bool :=
  match topics e with
  | [symbol; _; signers_hash] =>
      match expected_signers_hash (verifier_set c) with
      | Some weighted_signers_hash =>
          bool_decide (ScSymbol TOPIC_SIGNERS_ROTATED = symbol) &&
          bool_decide (ScBytes weighted_signers_hash = signers_hash)
      | None => false
      end
  | _ => false
  end.

Definition verify (gateway_address : ScAddress) (tx_receipt : TxResponse)
    (to_verify : ContractEvent → bool) (expected_tx_id : string) (expected_event_index : Z) : Vote :=
  if bool_decide (expected_tx_id ≠ transaction_hash tx_receipt) then VoteNotFound
  else if has_failed tx_receipt then FailedOnChain
  else
    match event tx_receipt expected_event_index with
    | Some e =>
        if match contract_id e with
           | Some hash => bool_decide (Contract hash = gateway_address)
           | None => false
           end && to_verify e
        then SucceededOnChain else VoteNotFound
    | None => VoteNotFound
    end.

Definition verify_message (gateway_address : ScAddress) (tx_receipt : TxResponse) (m : Message) : Vote :=
  verify gateway_address tx_receipt (message_eq m) (tx_hash_as_hex_no_prefix (message_id m))
    (msg_id.hex_event_index (message_id m)).

Definition verify_verifier_set (gateway_address : ScAddress) (tx_receipt : TxResponse)
    (c : VerifierSetConfirmation) : Vote :=
  verify gateway_address tx_receipt (confirmation_eq c) (tx_hash_as_hex_no_prefix (vs_message_id c))
    (msg_id.hex_event_index (vs_message_id c)).

End verifier.
(** *** The handlers *)

Record Handler := mkHandler { verifier : Addr; voting_verifier_contract : Addr }.

(** The gateway's address is parsed with the event. *)
Record Poll (C : Type) := mkPoll { source_gateway_address : ScAddress; items : C }.
#[global] Arguments mkPoll {_}.
#[global] Arguments source_gateway_address {_}.
#[global] Arguments items {_}.

Section handle.
Context `{HexCodec} `{Crypto} `{encoding.ChainCodecs} `{StellarHash} `{Json}.

Definition handle_messages
    (deserialize : gmap string Value → option (evm.PollStartedEvent (Poll (list Message))))
    (self : Handler) (node : Node) (latest_block_height : Z) (e : events.Event)
    : result Error (list Msg) :=
  vote_in_poll "wasm-messages_poll_started" deserialize (verifier self)
    (voting_verifier_contract self) (absent_or_expired (verifier self) latest_block_height)
    (λ ev,
       let messages := items (evm.poll_content ev) in
       responses ← ok_or TxReceipts (transaction_responses node
         (list_to_set ((λ m, tx_hash_as_hex_no_prefix (message_id m)) <$> messages)));
       cast_votes (λ m, responses !! tx_hash_as_hex_no_prefix (message_id m))
         (λ r m, Ok (verify_message (source_gateway_address (evm.poll_content ev)) r m)) messages) e.

Definition handle_verifier_set
    (deserialize : gmap string Value → option (evm.PollStartedEvent (Poll VerifierSetConfirmation)))
    (self : Handler) (node : Node) (latest_block_height : Z) (e : events.Event)
    : result Error (list Msg) :=
  vote_in_poll "wasm-verifier_set_poll_started" deserialize (verifier self)
    (voting_verifier_contract self) (absent_or_expired (verifier self) latest_block_height)
    (λ ev,
       let verifier_set := items (evm.poll_content ev) in
       response ← ok_or TxReceipts
         (transaction_response node (tx_hash_as_hex_no_prefix (vs_message_id verifier_set)));
       cast_votes (λ _, response)
         (λ r s, Ok (verify_verifier_set (source_gateway_address (evm.poll_content ev)) r s))
         [verifier_set]) e.

(** *** What the votes say *)

(** What the node reports about a transaction. *)
Definition reported (node : Node) (id : msg_id.HexTxHashAndEventIndex_id)
    (r : GetTransactionResponse) : Prop :=
  ∃ h, hash_from_str (tx_hash_as_hex_no_prefix id) = Some h ∧ node h = Some r.

(** The events of the one operation of a transaction. *)
Definition soroban_events (r : GetTransactionResponse) (l : list ContractEvent) : Prop :=
  result_meta r = Some V4 ∧ contract_events_of r = [l] ∨
  ∃ o, result_meta r = Some (V3 o) ∧ l = default [] o.

Definition emits (node : Node) (gateway : ScAddress) (id : msg_id.HexTxHashAndEventIndex_id)
    (content : ContractEvent → Prop) : Prop :=
  ∃ r l e g, reported node id r ∧ response_status r = STATUS_SUCCESS ∧ soroban_events r l ∧
    l !! Z.to_nat (msg_id.hex_event_index id) = Some e ∧
    contract_id e = Some g ∧ gateway = Contract g ∧ content e.

Definition not_successful (node : Node) (id : msg_id.HexTxHashAndEventIndex_id) : Prop :=
  ∃ r, reported node id r ∧ response_status r ≠ STATUS_SUCCESS.

Definition calls (m : Message) (e : ContractEvent) : Prop :=
  ∃ dest_chain, topics e =
      [ScSymbol "contract_called"; ScAddressVal (source_address m); ScString dest_chain;
       ScString (destination_address m); ScBytes (payload_hash m)] ∧
    chain.from_str dest_chain = Ok (destination_chain m).

Definition rotates (c : VerifierSetConfirmation) (e : ContractEvent) : Prop :=
  ∃ any s h, encoding.stellar_xdr.weighted_signers (verifier_set c) = Ok s ∧
    encoding.stellar_xdr.signers_hash s = Ok h ∧
    topics e = [ScSymbol "signers_rotated"; any; ScBytes h].

Lemma stellar_message_eq_calls m e : message_eq m e = true ↔ calls m e.
Proof.
  unfold message_eq, calls, TOPIC_CONTRACT_CALLED.
  destruct (topics e) as [|a [|b [|c [|d [|f []]]]]]; try (split; [done|by intros (? & ? & _)]).
  rewrite !andb_true_iff, !bool_decide_eq_true.
  destruct c; [naive_solver| |naive_solver..]. rewrite evm.matches_chain_spec. naive_solver.
Qed.

Lemma stellar_confirmation_eq_rotates c e : confirmation_eq c e = true ↔ rotates c e.
Proof.
  unfold confirmation_eq, rotates, TOPIC_SIGNERS_ROTATED, expected_signers_hash.
  destruct (topics e) as [|a [|b [|d []]]]; try (split; [done|by intros (? & ? & ? & _ & _ & ?)]).
  destruct (encoding.stellar_xdr.weighted_signers _) as [s|err|]; cbn; [|naive_solver..].
  destruct (encoding.stellar_xdr.signers_hash s) as [h|err|] eqn:Hh; cbn;
    [|split; [done|]; intros (any & s' & h & [= <-] & Hs & _); congruence..].
  rewrite !andb_true_iff, !bool_decide_eq_true. split.
  - intros [<- <-]. eauto 6.
  - intros (any & s' & h' & [= <-] & Hs & [= -> -> ->]). split; congruence.
Qed.

(** A response decides the vote. *)
Lemma verify_response node gateway id to_verify content r t :
  (∀ e, to_verify e = true ↔ content e) → reported node id r →
  tx_response_try_from (tx_hash_as_hex_no_prefix id) r = Ok t →
  vote_is (λ _, emits node gateway id content) (λ _, not_successful node id) tt
    (verify gateway t to_verify (tx_hash_as_hex_no_prefix id) (msg_id.hex_event_index id)).
Proof.
  intros Hc Hr Ht. assert (∀ r', reported node id r' → r' = r) as Hfun.
  { intros r' (h' & Hh' & Hn'). destruct Hr as (h & Hh & Hn). congruence. }
  unfold tx_response_try_from in Ht.
  destruct (bool_decide_reflect (response_status r ≠ STATUS_SUCCESS)) as [Hs|Hs%dec_stable].
  { injection Ht as <-. unfold verify; cbn. rewrite bool_decide_eq_false_2 by (intros []; done).
    cbn. by exists r. }
  assert (¬ not_successful node id) as Hns by (intros (r' & Hr'%Hfun & ?); congruence).
  apply bind_Ok in Ht as (l & Hl & [= <-]).
  assert (soroban_events r l ∧ ∀ l', soroban_events r l' → l' = l) as [Hev Hl'].
  { unfold soroban_events. destruct (result_meta r) as [[]|]; try done.
    - destruct (contract_events_of r) as [|? []]; naive_solver.
    - injection Hl as <-. naive_solver. }
  unfold verify; cbn. rewrite bool_decide_eq_false_2 by (intros []; done).
  unfold event; cbn [contract_events has_failed successful negb].
  assert (∀ e g, emits node gateway id content → l !! Z.to_nat (msg_id.hex_event_index id) = Some e →
    contract_id e = Some g → gateway = Contract g ∧ content e) as Hinv.
  { intros e g (r' & l' & e' & g' & Hr'%Hfun & _ & Hs' & He' & Hg' & Hgw & Hcon) He Hg. subst r'.
    apply Hl' in Hs' as ->. naive_solver. }
  destruct (l !! _) as [e|] eqn:He.
  2: { cbn. split; [|done]. intros (r' & l' & e' & g' & Hr'%Hfun & _ & Hs' & He' & _). subst r'.
       apply Hl' in Hs' as ->. congruence. }
  destruct (contract_id e) as [g|] eqn:Hg; cbn.
  - destruct (bool_decide_reflect (Contract g = gateway)) as [Hgw|Hne]; cbn.
    2: { split; [|done]. intros Hem. by destruct (Hinv e g Hem eq_refl Hg) as [-> _]. }
    destruct (to_verify e) eqn:Hto; cbn.
    + exists r, l, e, g. apply Hc in Hto. by split_and!.
    + split; [|done]. intros Hem. destruct (Hinv e g Hem eq_refl Hg) as [_ Hcon%Hc]. congruence.
  - split; [|done]. intros (r' & l' & e' & g' & Hr'%Hfun & _ & Hs' & He' & Hg' & _). subst r'.
    apply Hl' in Hs' as ->. naive_solver.
Qed.

Lemma id_is_hex id : forallb is_hex (text_of (tx_hash_as_hex_no_prefix id)) = true.
Proof.
  unfold tx_hash_as_hex_no_prefix, text_of. rewrite String.list_ascii_of_string_of_list_ascii.
  apply to_hex_lower.
Qed.

(** What the client returns for a transaction of the poll. *)
Lemma responses_spec `{!StellarHashLaws} node hs m s t :
  transaction_responses node hs = Some m → (∀ s, s ∈ hs → forallb is_hex (text_of s) = true) →
  m !! s = Some t ↔
  s ∈ hs ∧ ∃ h r, hash_from_str s = Some h ∧ node h = Some r ∧ tx_response_try_from s r = Ok t.
Proof.
  intros Hm Hhex. unfold transaction_responses in Hm.
  destruct (mapM hash_from_str (elements hs)) as [hashes|] eqn:Hh; [|done]. injection Hm as <-.
  pose proof (mapM_elem _ _ _ Hh) as Hel. set (f := λ h, validate_tx_response (node h) (hash_to_string h)).
  assert (omap (λ h, (λ r, (transaction_hash r, r)) <$> f h) hashes =
    (λ r, (transaction_hash r, r)) <$> omap f hashes) as Homap.
  { clear. induction hashes as [|h l IH]; [done|]. csimpl. destruct (f h); csimpl; by rewrite IH. }
  assert (∀ t, t ∈ omap f hashes ↔ ∃ s h r, s ∈ hs ∧ hash_from_str s = Some h ∧ node h = Some r ∧
    tx_response_try_from s r = Ok t) as Hin.
  { intros t'. rewrite list_elem_of_omap. unfold f, validate_tx_response. split.
    - intros (h & Hin & Ht). destruct (node h) as [r|] eqn:Hr; [|done]. cbn in Ht. apply ok_Some in Ht.
      apply Hel in Hin as (s' & Hs%elem_of_elements & Hs').
      exists s', h, r. rewrite (hash_to_from s' h (Hhex s' Hs) Hs') in Ht. done.
    - intros (s' & h & r & Hs & Hs' & Hr & Ht).
      exists h. split; [apply Hel; exists s'; by rewrite elem_of_elements|]. rewrite Hr. cbn. apply ok_Some.
      by rewrite (hash_to_from s' h (Hhex s' Hs) Hs'). }
  assert (∀ s r t, tx_response_try_from s r = Ok t → transaction_hash t = s) as Hkey.
  { intros s' r t' Ht. unfold tx_response_try_from in Ht. case_bool_decide; [by injection Ht as <-|].
    by apply bind_Ok in Ht as (l & _ & [= <-]). }
  unfold collect. subst f. cbn beta in Homap. rewrite Homap, (evm.collect_spec transaction_hash (λ r, r)).
  - setoid_rewrite Hin. split.
    + intros (t' & (s' & h & r & Hs & Hh' & Hr & Ht) & <- & ->). rewrite (Hkey _ _ _ Ht). eauto 6.
    + intros (Hs & h & r & Hh' & Hr & Ht). exists t. pose proof (Hkey _ _ _ Ht). eauto 10.
  - intros x y (s1 & h1 & r1 & ? & ? & ? & Hx)%Hin (s2 & h2 & r2 & ? & ? & ? & Hy)%Hin Heq.
    rewrite (Hkey _ _ _ Hx), (Hkey _ _ _ Hy) in Heq. subst s2. congruence.
Qed.

(** A transaction without a response neither succeeded nor failed. *)
Lemma unparsed_not_reported node gateway id content :
  (∀ r, reported node id r → ¬ ∃ t, tx_response_try_from (tx_hash_as_hex_no_prefix id) r = Ok t) →
  ¬ emits node gateway id content ∧ ¬ not_successful node id.
Proof.
  intros Hno. split.
  - intros (r & l & e' & g & Hr & Hs & Hl & _). apply (Hno r Hr). unfold tx_response_try_from.
    rewrite bool_decide_eq_false_2 by (by intros []).
    destruct Hl as [[-> ->]|(o & -> & ->)]; by eexists.
  - intros (r & Hr & Hs). apply (Hno r Hr). unfold tx_response_try_from.
    rewrite bool_decide_eq_true_2 by done. by eexists.
Qed.

(** On Stellar, a verifier votes for exactly what its node shows. A message succeeded when the
    node reports its transaction as a success of a single operation and the event at the given
    index is a call of the poll's gateway with exactly the message's sender, destination and
    payload; a verifier set did when the event is a rotation to the hash of its signers. The vote
    is a failure exactly when the node answers with any status but success, and else the item is
    not found. *)
Theorem stellar_votes_exact `{!StellarHashLaws} des_messages des_set (self : Handler) (node : Node)
    (height : Z) (e : events.Event) (msgs : list Msg) :
  (handle_messages des_messages self node height e = Ok msgs →
   votes_exact (open_poll "wasm-messages_poll_started" des_messages (verifier self)
                  (voting_verifier_contract self) height e) items
     (λ ev m, emits node (source_gateway_address (evm.poll_content ev)) (message_id m) (calls m))
     (λ _ m, not_successful node (message_id m))
     (verifier self) (voting_verifier_contract self) msgs) ∧
  (handle_verifier_set des_set self node height e = Ok msgs →
   votes_exact (open_poll "wasm-verifier_set_poll_started" des_set (verifier self)
                  (voting_verifier_contract self) height e) (λ c, [items c])
     (λ ev s, emits node (source_gateway_address (evm.poll_content ev)) (vs_message_id s) (rotates s))
     (λ _ s, not_successful node (vs_message_id s))
     (verifier self) (voting_verifier_contract self) msgs).
Proof.
  split; intros Hf; (eapply vote_in_poll_exact; [exact Hf|apply absent_or_expired_spec|]);
    intros ev vs Hvs; apply bind_Ok in Hvs as (found & Hfound%ok_or_Ok & Hvs).
  - set (hs := list_to_set _) in Hfound.
    assert (∀ s, s ∈ hs → forallb is_hex (text_of s) = true) as Hhex.
    { intros s Hs. subst hs. apply elem_of_list_to_set, list_elem_of_fmap in Hs as (m & -> & _).
      apply id_is_hex. }
    assert (∀ m, m ∈ items (evm.poll_content ev) → tx_hash_as_hex_no_prefix (message_id m) ∈ hs) as Hin.
    { intros m Hm. subst hs. apply elem_of_list_to_set, list_elem_of_fmap. eauto. }
    eapply cast_votes_exact; [exact Hvs|..]; intros m.
    + intros t v Hm Ht [= <-]. apply (responses_spec _ _ _ _ _ Hfound Hhex) in Ht as (_ & h & r & Hh & Hr & Ht).
      apply (verify_response node _ (message_id m) (message_eq m) (calls m) r); [apply stellar_message_eq_calls| |done].
      by exists h.
    + intros Hm Hno. apply unparsed_not_reported. intros r (h & Hh & Hr) [t Ht].
      assert (found !! tx_hash_as_hex_no_prefix (message_id m) = Some t); [|congruence].
      apply (responses_spec _ _ _ _ _ Hfound Hhex). split; [by apply Hin|eauto].
  - unfold transaction_response in Hfound.
    destruct (hash_from_str _) as [h|] eqn:Hh; [|done]. injection Hfound as <-.
    rewrite (hash_to_from _ _ (id_is_hex _) Hh) in Hvs.
    eapply cast_votes_exact; [exact Hvs|..]; intros s.
    + intros t v ->%list_elem_of_singleton Ht [= <-]. unfold validate_tx_response in Ht.
      destruct (node h) as [r|] eqn:Hr; [|done]. cbn in Ht. apply ok_Some in Ht.
      apply (verify_response node _ _ _ (rotates (items (evm.poll_content ev))) r);
        [apply stellar_confirmation_eq_rotates| |done]. by exists h.
    + intros ->%list_elem_of_singleton Ht. apply unparsed_not_reported. intros r (h' & Hh' & Hr) [t Ht'].
      assert (h' = h) as -> by congruence. unfold validate_tx_response in Ht. rewrite Hr in Ht. cbn in Ht.
      rewrite Ht' in Ht. done.
Qed.

End handle.
End stellar.

(** ** Concrete runs *)
Module sui_run.
Import voting events handlers voting_handler sui.

#[local] Existing Instances ampd_stream_run.run_json.
#[local] Instance run_codec : SuiCodec := {|
  contract_call_from_bytes s :=
    if bool_decide (s = "call") then Some (mkCall "0xa" "Ethereum" "0xb" "hash") else None;
  signers_rotated_from_bytes s :=
    if bool_decide (s = "rotation")
    then Some (mkRotated [("c", 2); ("a", 2); ("b", 2)] 4 (to_be_bytes 24 0 +:+ to_be_bytes 8 10)) else None;
  struct_tag_from_str := Some
|}.

(** Transaction [a] has a call and a rotation; [b] has no checkpoint yet. *)
Definition run_id (c : ascii) (i : Z) : msg_id.Base58TxDigestAndEventIndex_id :=
  msg_id.mkBase58Index (replicate 32 c) i.
Definition run_block (c : ascii) (cp : option Z) : TransactionBlock :=
  mkBlock (id_digest (run_id c 0))
    (Some [mkSuiEvent 0 "gateway::events::ContractCall" "call";
           mkSuiEvent 3 "gateway::events::SignersRotated" "rotation"]) cp.
Definition run_client : SuiClient :=
  mkClient (λ d, if bool_decide (d = id_digest (run_id "a"%char 0)) then Some (run_block "a"%char (Some 9)) else None)
    (λ _, Some [run_block "a"%char (Some 9); run_block "b"%char None]).

Lemma run_answers_once : answers_once run_client.
Proof. intros hs blocks [= <-]. apply (bool_decide_unpack _). vm_compute. exact I. Qed.

Definition run_handler : Handler := mkHandler "alice" "verifier".
Definition run_poll {C} (content : C) : evm.PollStartedEvent C :=
  evm.mkPollStarted 5 "sui" "gateway" 10 20 content ["bob"; "alice"].
Definition run_messages : list Message :=
  (λ id, mkMessage id "0xb" "ethereum" "0xa" "hash") <$>
    [run_id "a"%char 0; run_id "a"%char 3; run_id "b"%char 0].
Definition run_confirmation : VerifierSetConfirmation :=
  mkConfirmation (run_id "a"%char 3) (encoding_run.run_set key.PkEcdsa).

Lemma sui_votes_exact_witness :
  Forall2 (vote_is (message_happened run_client (run_poll run_messages)) (λ _, False))
    run_messages [SucceededOnChain; VoteNotFound; VoteNotFound] ∧
  rotation_happened run_client (run_poll run_confirmation) run_confirmation.
Proof.
  destruct (sui_votes_exact (λ _, Some (run_poll run_messages)) (λ _, Some (run_poll run_confirmation))
    run_handler run_client 7 (ampd_evm_run.run_event "wasm-messages_poll_started")
    [VoteMsg "alice" "verifier" 5 [SucceededOnChain; VoteNotFound; VoteNotFound]] run_answers_once) as [Hm _].
  destruct (sui_votes_exact (λ _, Some (run_poll run_messages)) (λ _, Some (run_poll run_confirmation))
    run_handler run_client 7 (ampd_evm_run.run_event "wasm-verifier_set_poll_started")
    [VoteMsg "alice" "verifier" 5 [SucceededOnChain]] run_answers_once) as [_ Hs].
  split.
  - destruct Hm as [[[=] _]|(ev & votes & (_ & [= <-] & _) & [= <-] & Hv)];
      [vm_compute; reflexivity|exact Hv].
  - destruct Hs as [[[=] _]|(ev & votes & (_ & [= <-] & _) & [= <-] & Hv)]; [vm_compute; reflexivity|].
    by apply Forall2_cons in Hv as [Hv _].
Defined.

End sui_run.

Module stellar_run.
Import voting events handlers voting_handler stellar.

#[local] Existing Instances ampd_stream_run.run_json encoding_run.run_crypto encoding_run.run_codecs
  codecs.hex_codec.
#[local] Instance run_hash : StellarHash := {| hash_from_str := Some; hash_to_string := id |}.
#[local] Instance run_hash_laws : StellarHashLaws.
Proof. split. by intros s h _ [= <-]. Qed.

Definition run_id (c : ascii) (i : Z) : msg_id.HexTxHashAndEventIndex_id :=
  msg_id.mkHexIndex (replicate 32 c) i.
Definition run_confirmation : VerifierSetConfirmation :=
  mkConfirmation (run_id "a"%char 1) (encoding_run.run_set key.PkEd25519).
Definition run_signers_hash : string :=
  default EmptyString (expected_signers_hash (verifier_set run_confirmation)).

(** Transaction [a] calls and rotates, the node does not know [b], [c] has two operations. *)
Definition run_events : list ContractEvent :=
  [mkEvent (Some "gateway") [ScSymbol "contract_called"; ScAddressVal (Account "sender"); ScString "Ethereum";
                             ScString "0xb"; ScBytes "hash"];
   mkEvent (Some "gateway") [ScSymbol "signers_rotated"; ScOther "epoch"; ScBytes run_signers_hash]].
Definition run_node : Node := λ h,
  if bool_decide (h = tx_hash_as_hex_no_prefix (run_id "a"%char 0))
  then Some (mkGetTransaction "SUCCESS" (Some V4) [run_events])
  else if bool_decide (h = tx_hash_as_hex_no_prefix (run_id "b"%char 0))
  then Some (mkGetTransaction "NOT_FOUND" None [])
  else Some (mkGetTransaction "SUCCESS" (Some V4) [run_events; []]).

Definition run_handler : Handler := mkHandler "alice" "verifier".
Definition run_poll {C} (content : C) : evm.PollStartedEvent (Poll C) :=
  evm.mkPollStarted 5 "stellar" "" 10 20 (mkPoll (Contract "gateway") content) ["bob"; "alice"].
Definition run_messages : list Message :=
  (λ id, mkMessage id "0xb" "ethereum" (Account "sender") "hash") <$>
    [run_id "a"%char 0; run_id "a"%char 1; run_id "b"%char 0; run_id "c"%char 0].
Definition run_votes : list Vote := [SucceededOnChain; VoteNotFound; FailedOnChain; VoteNotFound].

Lemma stellar_votes_exact_witness :
  Forall2 (vote_is (λ m, emits run_node (Contract "gateway") (message_id m) (calls m))
             (λ m, not_successful run_node (message_id m))) run_messages run_votes ∧
  emits run_node (Contract "gateway") (run_id "a"%char 1) (rotates run_confirmation).
Proof.
  destruct (stellar_votes_exact (λ _, Some (run_poll run_messages)) (λ _, Some (run_poll run_confirmation))
    run_handler run_node 7 (ampd_evm_run.run_event "wasm-messages_poll_started")
    [VoteMsg "alice" "verifier" 5 run_votes]) as [Hm _].
  destruct (stellar_votes_exact (λ _, Some (run_poll run_messages)) (λ _, Some (run_poll run_confirmation))
    run_handler run_node 7 (ampd_evm_run.run_event "wasm-verifier_set_poll_started")
    [VoteMsg "alice" "verifier" 5 [SucceededOnChain]]) as [_ Hs].
  split.
  - destruct Hm as [[[=] _]|(ev & votes & (_ & [= <-] & _) & Heq & Hv)]; [vm_compute; reflexivity|].
    injection Heq as <-. exact Hv.
  - destruct Hs as [[[=] _]|(ev & votes & (_ & [= <-] & _) & [= <-] & Hv)]; [vm_compute; reflexivity|].
    by apply Forall2_cons in Hv as [Hv _].
Defined.

End stellar_run.
