(* ===== verification/AmpdMvxStacks.v ===== *)
(** * How a verifier votes on MultiversX and Stacks

    [mvx/mod.rs], [mvx/proxy.rs], [mvx/verifier.rs] and [stacks/mod.rs], [stacks/finalizer.rs],
    [stacks/http_client.rs], [stacks/verifier.rs], with the handlers of the two chains
    ([handlers/mvx_verify_msg.rs], [handlers/mvx_verify_verifier_set.rs],
    [handlers/stacks_verify_msg.rs], [handlers/stacks_verify_verifier_set.rs]).

    Base64 and the serialization of Clarity values are interfaces; the encoding that the
    MultiversX gateway hashes is written out, and shown to determine the set of signers. *)

From Stdlib Require Import Ascii.
From S2P Require Import Prelude Std Voting MsgId RouterApi Multisig MultisigProver Encoding.
From S2P Require Import AmpdStream AmpdEvm AmpdChains.

(** ** MultiversX *)
Module mvx.
Import voting events handlers voting_handler.

Record Events := mkEvents { address : string; identifier : string; topics : option (list string) }.
Record TransactionOnNetwork := mkTransaction {
  hash : option string;
  logs : option (list Events);
  status : string;
  notarized_at_source_in_meta_nonce : option Z
}.

(** [base64] with the standard alphabet. *)
Class Base64 := base64_decode : string → option string.

(** The node: the transaction with the given hash, in hexadecimal, or nothing. *)
Definition Node := string → option TransactionOnNetwork.

(** *** The client ([mvx/proxy.rs]) *)

Definition STATUS_SUCCESS : string := "success".

Definition is_valid_transaction (tx : TransactionOnNetwork) : bool :=
  bool_decide (is_Some (hash tx)) && bool_decide (is_Some (logs tx)) &&
  bool_decide (status tx = STATUS_SUCCESS) &&
  bool_decide (is_Some (notarized_at_source_in_meta_nonce tx)).

Section client.
Context `{HexCodec}.

Definition encode_hex (h : string) : string := String.string_of_list_ascii (to_hex (text_of h)).

Definition transaction_info_with_results (node : Node) (tx_hash : string)
    : option TransactionOnNetwork :=
  tx ← node (encode_hex tx_hash); if is_valid_transaction tx then Some tx else None.

Definition transactions_info_with_results (node : Node) (tx_hashes : gset string)
    : gmap string TransactionOnNetwork :=
  collect (omap (λ h, (λ tx, (h, tx)) <$> transaction_info_with_results node h) (elements tx_hashes)).

End client.

(** *** The hash of the signers ([mvx/mod.rs]) *)

Record WeightedSigner := mkWeighted { signer : string; weight : string }.
Record WeightedSigners := mkSigners {
  signers : list WeightedSigner;
  threshold : string;
  nonce : string
}.

Definition usize_to_bytes {E} (value : nat) : result E string :=
  n ← expect (if bool_decide (Z.of_nat value ≤ u32_max) then Some (Z.of_nat value) else None);
  Ok (to_be_bytes 4 n).

(** The position of the first byte that is not zero. *)
Fixpoint position_nonzero (l : text) : option nat :=
  match l with
  | [] => None
  | c :: l => if bool_decide (code c ≠ 0) then Some O else S <$> position_nonzero l
  end.

Definition uint256_to_compact_vec (value : Z) : string :=
  if bool_decide (value = 0) then EmptyString
  else
    let bytes := text_of (to_be_bytes 32 value) in
    String.string_of_list_ascii (drop (default O (position_nonzero bytes)) bytes).

(** [mvx/error.rs] *)
Inductive MvxError := NotEd25519Key | PropertyEmpty.

Definition ed25519_key (pub_key : key.PublicKey) : result MvxError string :=
  match pub_key with
  | key.PkEd25519 k => expect (if bool_decide (String.length k = 32%nat) then Some k else None)
  | key.PkEcdsa _ => Err NotEd25519Key
  end.

Definition weighted_signer_from (s : verifier_set.Signer) : result Error WeightedSigner :=
  k ← expect_ok (ed25519_key (verifier_set.pub_key s));
  Ok (mkWeighted k (uint256_to_compact_vec (verifier_set.weight s))).

Definition by_signer (s t : WeightedSigner) : Prop := String.le (signer s) (signer t).
#[global] Instance by_signer_dec : RelDecision by_signer.
Proof. intros s t. unfold by_signer. apply _. Defined.

Definition weighted_signers_from (vs : verifier_set.VerifierSet) : result Error WeightedSigners :=
  signers ← try_map (λ '(_, s), weighted_signer_from s) (entries (verifier_set.signers vs));
  Ok (mkSigners (merge_sort by_signer signers)
        (uint256_to_compact_vec (verifier_set.threshold vs))
        (to_be_bytes 32 (verifier_set.created_at vs))).

Definition signer_bytes (s : WeightedSigner) : result Error string :=
  len ← usize_to_bytes (String.length (weight s)); Ok (signer s +:+ len +:+ weight s).

(** What the hash is taken of. *)
Definition encoded (s : WeightedSigners) : result Error string :=
  count ← usize_to_bytes (length (signers s));
  parts ← try_map signer_bytes (signers s);
  len ← usize_to_bytes (String.length (threshold s));
  Ok (count +:+ foldr String.append EmptyString parts +:+ len +:+ threshold s +:+ nonce s).

Definition signers_hash `{Crypto} (s : WeightedSigners) : result Error string :=
  bytes ← encoded s; Ok (keccak256 bytes).

(** *** Verification ([mvx/verifier.rs]) *)

Record Message := mkMessage {
  message_id : msg_id.HexTxHashAndEventIndex_id;
  destination_address : string;
  destination_chain : string;
  source_address : string;
  payload_hash : string
}.
Record VerifierSetConfirmation := mkConfirmation {
  vs_message_id : msg_id.HexTxHashAndEventIndex_id;
  verifier_set : verifier_set.VerifierSet
}.

Definition CONTRACT_CALL_IDENTIFIER : string := "callContract".
Definition CONTRACT_CALL_EVENT : string := "contract_call_event".
Definition ROTATE_SIGNERS_IDENTIFIER : string := "rotateSigners".
Definition SIGNERS_ROTATED_EVENT : string := "signers_rotated_event".

(** Any error counts as a mismatch. *)
Notation any_error := (λ _, tt) (only parsing).

Section verifier.
Context `{HexCodec} `{Base64} `{Crypto}.

Definition topic (topics : list string) (i : nat) : result unit string :=
  t ← ok_or tt (topics !! i); ok_or tt (base64_decode t).

(** An early return of [false]. *)
Definition when (b : bool) (r : result unit bool) : result unit bool := if b then r else Ok false.

Definition message_eq_event (m : Message) (e : Events) : result unit bool :=
  when (bool_decide (identifier e = CONTRACT_CALL_IDENTIFIER)) (
    topics ← ok_or tt (topics e);
    event_name ← topic topics 0;
    when (bool_decide (event_name = CONTRACT_CALL_EVENT)) (
      sender ← topic topics 1;
      when (bool_decide (String.length sender = 32%nat) && bool_decide (sender = source_address m)) (
        destination_chain' ← topic topics 2;
        destination_chain' ← ok_or tt (utf8.from_utf8 destination_chain');
        destination_chain' ← map_err any_error (chain.from_str destination_chain');
        when (bool_decide (destination_chain' = destination_chain m)) (
          destination ← topic topics 3;
          destination ← ok_or tt (utf8.from_utf8 destination);
          when (bool_decide (destination = destination_address m)) (
            hash ← topic topics 4;
            when (bool_decide (String.length hash = 32%nat) && bool_decide (hash = payload_hash m))
              (Ok true)))))).

Definition confirmation_eq_event (c : VerifierSetConfirmation) (e : Events) : result unit bool :=
  when (bool_decide (identifier e = ROTATE_SIGNERS_IDENTIFIER)) (
    topics ← ok_or tt (topics e);
    event_name ← topic topics 0;
    when (bool_decide (event_name = SIGNERS_ROTATED_EVENT)) (
      hash ← topic topics 2;
      weighted_signers ← map_err any_error (weighted_signers_from (verifier_set c));
      if bool_decide (String.length hash ≠ 32%nat) then Ok false
      else
        expected ← map_err any_error (signers_hash weighted_signers);
        Ok (bool_decide (hash = expected)))).

Definition find_event (tx : TransactionOnNetwork) (gateway_address : string) (log_index : Z)
    : option Events :=
  events ← logs tx;
  event ← events !! Z.to_nat log_index;
  if bool_decide (address event ≠ gateway_address) then None else Some event.

Definition verify (gateway_address : string) (tx : TransactionOnNetwork)
    (id : msg_id.HexTxHashAndEventIndex_id) (eq_event : Events → result unit bool)
    : result Error Vote :=
  let hash := default EmptyString (hash tx) in
  if bool_decide (hash = EmptyString) then Ok VoteNotFound
  else
    match find_event tx gateway_address (msg_id.hex_event_index id) with
    | Some event =>
        if bool_decide (hash = encode_hex (h256 (msg_id.hex_tx_hash id))) then
          match eq_event event with
          | Ok true => Ok SucceededOnChain
          | Panic => Panic
          | _ => Ok VoteNotFound
          end
        else Ok VoteNotFound
    | None => Ok VoteNotFound
    end.

Definition verify_message (gateway_address : string) (tx : TransactionOnNetwork) (m : Message)
    : result Error Vote :=
  verify gateway_address tx (message_id m) (message_eq_event m).

Definition verify_verifier_set (gateway_address : string) (tx : TransactionOnNetwork)
    (c : VerifierSetConfirmation) : result Error Vote :=
  verify gateway_address tx (vs_message_id c) (confirmation_eq_event c).

End verifier.

(** *** The handlers *)

Record Handler := mkHandler { verifier : Addr; voting_verifier_contract : Addr }.

Section handle.
Context `{HexCodec} `{Base64} `{Crypto} `{Json}.

Definition id_hash (id : msg_id.HexTxHashAndEventIndex_id) : string := h256 (msg_id.hex_tx_hash id).

Definition handle_messages
    (deserialize : gmap string Value → option (evm.PollStartedEvent (list Message)))
    (self : Handler) (node : Node) (latest_block_height : Z) (e : events.Event)
    : result Error (list Msg) :=
  vote_in_poll "wasm-messages_poll_started" deserialize (verifier self)
    (voting_verifier_contract self) (absent_or_expired (verifier self) latest_block_height)
    (λ ev,
       let messages := evm.poll_content ev in
       let transactions_info := transactions_info_with_results node
         (list_to_set ((λ m, id_hash (message_id m)) <$> messages)) in
       cast_votes (λ m, transactions_info !! id_hash (message_id m))
         (verify_message (evm.source_gateway_address ev)) messages) e.

Definition handle_verifier_set
    (deserialize : gmap string Value → option (evm.PollStartedEvent VerifierSetConfirmation))
    (self : Handler) (node : Node) (latest_block_height : Z) (e : events.Event)
    : result Error (list Msg) :=
  vote_in_poll "wasm-verifier_set_poll_started" deserialize (verifier self)
    (voting_verifier_contract self) (absent_or_expired (verifier self) latest_block_height)
    (λ ev,
       let verifier_set := evm.poll_content ev in
       let transaction_info :=
         transaction_info_with_results node (id_hash (vs_message_id verifier_set)) in
       cast_votes (λ _, transaction_info) (verify_verifier_set (evm.source_gateway_address ev))
         [verifier_set]) e.

End handle.

(** *** The encoding determines the signers *)

Lemma string_app_assoc (a b c : string) : (a +:+ b) +:+ c = a +:+ b +:+ c.
Proof. induction a as [|x a IH]; [done|]. exact (f_equal (String x) IH). Qed.

Lemma usize_to_bytes_Ok {E} n b :
  usize_to_bytes (E := E) n = Ok b ↔ Z.of_nat n ≤ u32_max ∧ b = to_be_bytes 4 (Z.of_nat n).
Proof. unfold usize_to_bytes. case_bool_decide; cbn; naive_solver. Qed.

Lemma usize_to_bytes_inj {E} n m b c x y :
  usize_to_bytes (E := E) n = Ok b → usize_to_bytes (E := E) m = Ok c →
  b +:+ x = c +:+ y → n = m ∧ x = y.
Proof.
  intros [Hn ->]%usize_to_bytes_Ok [Hm ->]%usize_to_bytes_Ok Heq.
  apply encoding.append_inj in Heq as [Hb ->]; [|by rewrite !to_be_bytes_length]. split; [|done].
  apply (f_equal (λ s, be_val (text_of s))) in Hb. unfold u32_max in *.
  rewrite !be_val_to_be_bytes in Hb by lia. lia.
Qed.

Definition signer_wf (s : WeightedSigner) : Prop := String.length (signer s) = 32%nat.

Lemma signers_bytes_inj l k pl pk x y :
  Forall signer_wf l → Forall signer_wf k → length l = length k →
  try_map signer_bytes l = Ok pl → try_map signer_bytes k = Ok pk →
  foldr String.append EmptyString pl +:+ x = foldr String.append EmptyString pk +:+ y →
  l = k ∧ x = y.
Proof.
  intros Hl Hk Hlen Hpl%try_map_Ok Hpk%try_map_Ok. revert k pk Hk Hlen Hpk.
  induction Hpl as [|[s w] b l pl Hb Hpl IH]; intros k pk Hk Hlen Hpk Heq.
  { destruct k; [|done]. inversion Hpk; subst. done. }
  destruct k as [|[s' w'] k]; [done|]. inversion Hpk as [|? b' ? pk' Hb' Hpk' Hx1 Hx2]; subst pk.
  apply Forall_cons in Hl as [Hs Hl], Hk as [Hs' Hk]. unfold signer_wf in Hs, Hs'. cbn in Hs, Hs'.
  apply bind_Ok in Hb as (n & Hn & [= <-]), Hb' as (n' & Hn' & [= <-]). cbn in Hn, Hn', Heq.
  rewrite !string_app_assoc in Heq. apply encoding.append_inj in Heq as [-> Heq]; [|lia].
  apply (usize_to_bytes_inj _ _ _ _ _ _ Hn Hn') in Heq as [Hw Heq].
  apply encoding.append_inj in Heq as [-> Heq]; [|done].
  destruct (IH Hl k pk' Hk ltac:(by injection Hlen) Hpk' Heq) as [-> ->]. done.
Qed.

Definition signers_wf (s : WeightedSigners) : Prop :=
  Forall signer_wf (signers s) ∧ String.length (nonce s) = 32%nat.

Lemma encoded_inj s t b :
  signers_wf s → signers_wf t → encoded s = Ok b → encoded t = Ok b → s = t.
Proof.
  intros [Hs Hsn] [Ht Htn] Hb Hb'. unfold encoded in *.
  apply bind_Ok in Hb as (n & Hn & Hb), Hb' as (n' & Hn' & Hb').
  apply bind_Ok in Hb as (p & Hp & Hb), Hb' as (p' & Hp' & Hb').
  apply bind_Ok in Hb as (m & Hm & [= <-]), Hb' as (m' & Hm' & [= Heq]). symmetry in Heq.
  apply (usize_to_bytes_inj _ _ _ _ _ _ Hn Hn') in Heq as [Hlen Heq].
  apply (signers_bytes_inj _ _ _ _ _ _ Hs Ht Hlen Hp Hp') in Heq as [Hsig Heq].
  apply (usize_to_bytes_inj _ _ _ _ _ _ Hm Hm') in Heq as [Htl Heq].
  apply encoding.append_inj in Heq as [Hth Heq]; [|done]. destruct s, t; cbn in *. by subst.
Qed.

Lemma be_val_drop_zeros l : be_val (drop (default O (position_nonzero l)) l) = be_val l.
Proof.
  induction l as [|c l IH]; [done|]. cbn [position_nonzero]. case_bool_decide as Hc; [done|].
  destruct (position_nonzero l) as [n|]; [|done].
  change (be_val (drop n l) = be_val (c :: l)). change (be_val (drop n l) = be_val l) in IH.
  rewrite IH. unfold be_val. change (code <$> c :: l) with (code c :: (code <$> l)).
  rewrite digits_val_cons by lia. lia.
Qed.

Lemma be_val_compact z :
  0 ≤ z ≤ u256_max → be_val (text_of (uint256_to_compact_vec z)) = z.
Proof.
  intros Hz. unfold uint256_to_compact_vec. case_bool_decide as H0; [by subst|].
  unfold text_of at 1. rewrite String.list_ascii_of_string_of_list_ascii, be_val_drop_zeros.
  apply be_val_to_be_bytes. unfold u256_max in Hz. lia.
Qed.

(** *** What the votes say *)
Section votes.
Context `{HexCodec} `{Base64} `{Crypto} `{Json}.

(** The transaction is final, succeeded, and emitted an event of the gateway at the given index. *)
Definition emits (node : Node) (gateway : string) (id : msg_id.HexTxHashAndEventIndex_id)
    (content : Events → Prop) : Prop :=
  ∃ tx l e, node (encode_hex (id_hash id)) = Some tx ∧
    hash tx = Some (encode_hex (id_hash id)) ∧ status tx = "success" ∧
    is_Some (notarized_at_source_in_meta_nonce tx) ∧ logs tx = Some l ∧
    l !! Z.to_nat (msg_id.hex_event_index id) = Some e ∧ address e = gateway ∧ content e.

Definition has_topic (e : Events) (i : nat) (d : string) : Prop :=
  ∃ l t, topics e = Some l ∧ l !! i = Some t ∧ base64_decode t = Some d.

Definition calls (m : Message) (e : Events) : Prop :=
  ∃ dest_chain, identifier e = "callContract" ∧ has_topic e 0 "contract_call_event" ∧
    has_topic e 1 (source_address m) ∧ has_topic e 2 dest_chain ∧
    has_topic e 3 (destination_address m) ∧ has_topic e 4 (payload_hash m) ∧
    chain.from_str dest_chain = Ok (destination_chain m) ∧
    utf8.valid (text_of dest_chain) = true ∧ utf8.valid (text_of (destination_address m)) = true ∧
    String.length (source_address m) = 32%nat ∧ String.length (payload_hash m) = 32%nat.

Definition rotates (c : VerifierSetConfirmation) (e : Events) : Prop :=
  ∃ ws bytes, identifier e = "rotateSigners" ∧ has_topic e 0 "signers_rotated_event" ∧
    weighted_signers_from (verifier_set c) = Ok ws ∧ encoded ws = Ok bytes ∧
    has_topic e 2 (keccak256 bytes) ∧ String.length (keccak256 bytes) = 32%nat.

Lemma when_true b r : when b r = Ok true ↔ b = true ∧ r = Ok true.
Proof. destruct b; cbn; naive_solver. Qed.

Lemma topic_Ok l i d : topic l i = Ok d ↔ ∃ t, l !! i = Some t ∧ base64_decode t = Some d.
Proof. unfold topic. rewrite bind_Ok. setoid_rewrite ok_or_Ok. done. Qed.

Lemma from_utf8_Some s t : utf8.from_utf8 s = Some t ↔ utf8.valid (text_of s) = true ∧ t = s.
Proof. unfold utf8.from_utf8. destruct (utf8.valid _); naive_solver. Qed.

Lemma mvx_message_eq_calls m e : message_eq_event m e = Ok true ↔ calls m e.
Proof.
  unfold message_eq_event, calls, has_topic, CONTRACT_CALL_IDENTIFIER, CONTRACT_CALL_EVENT.
  repeat first
    [ setoid_rewrite when_true | setoid_rewrite bind_Ok | setoid_rewrite andb_true_iff
    | setoid_rewrite bool_decide_eq_true | setoid_rewrite topic_Ok | setoid_rewrite ok_or_Ok
    | setoid_rewrite map_err_Ok | setoid_rewrite from_utf8_Some ].
  destruct (topics e) as [l|]; [|naive_solver]. split.
  - intros (Hid & l' & [= <-] & n & Hn & -> & s & Hs & [Hsl ->] & d & Hd & d' & [Hu ->] & x & Hx & -> &
      a & Ha & a' & [Hau ->] & -> & h & Hh & [Hhl ->] & _).
    destruct Hn as (? & ? & ?), Hs as (? & ? & ?), Hd as (? & ? & ?), Ha as (? & ? & ?), Hh as (? & ? & ?).
    exists d. split_and!; eauto 6.
  - intros (d & Hid & (? & t0 & [= <-] & ? & ?) & (? & t1 & [= <-] & ? & ?) & (? & t2 & [= <-] & ? & ?) &
      (? & t3 & [= <-] & ? & ?) & (? & t4 & [= <-] & ? & ?) & Hx & Hu & Hau & Hsl & Hhl).
    split; [done|]. exists l. split; [done|]. exists "contract_call_event". split; [eauto|]. split; [done|].
    exists (source_address m). split; [eauto|]. split; [done|]. exists d. split; [eauto|]. exists d.
    split; [done|]. exists (destination_chain m). split; [done|]. split; [done|].
    exists (destination_address m). split; [eauto|]. exists (destination_address m). split; [done|].
    split; [done|]. exists (payload_hash m). split; [eauto|]. done.
Qed.

Lemma mvx_confirmation_eq_rotates c e : confirmation_eq_event c e = Ok true ↔ rotates c e.
Proof.
  unfold confirmation_eq_event, rotates, has_topic, ROTATE_SIGNERS_IDENTIFIER, SIGNERS_ROTATED_EVENT,
    signers_hash.
  generalize (weighted_signers_from (verifier_set c)), encoded. intros from enc.
  repeat first
    [ setoid_rewrite when_true | setoid_rewrite bind_Ok | setoid_rewrite bool_decide_eq_true
    | setoid_rewrite topic_Ok | setoid_rewrite ok_or_Ok | setoid_rewrite map_err_Ok ]. split.
  - intros (Hid & l & Hl & n & (t0 & ? & ?) & -> & h & (t2 & ? & ?) & ws & Hws & Hh).
    case_bool_decide as Hlen; [done|]. apply bind_Ok in Hh as (x & Hx & [= Hh%bool_decide_eq_true]).
    apply map_err_Ok, bind_Ok in Hx as (bytes & Hb & [= <-]). subst h.
    exists ws, bytes. split_and!; eauto 6.
  - intros (ws & bytes & Hid & (l & t0 & Hl & ? & ?) & Hws & Hb & (l' & t2 & Hl' & ? & ?) & Hlen).
    assert (l' = l) as -> by congruence. split; [done|]. exists l. split; [done|].
    exists "signers_rotated_event". split; [eauto|]. split; [done|]. exists (keccak256 bytes).
    split; [eauto|]. exists ws. split; [done|]. rewrite bool_decide_eq_false_2 by (by intros []).
    rewrite Hb. cbn. by rewrite bool_decide_eq_true_2.
Qed.

Lemma valid_spec tx :
  is_valid_transaction tx = true ↔ is_Some (hash tx) ∧ is_Some (logs tx) ∧ status tx = "success" ∧
    is_Some (notarized_at_source_in_meta_nonce tx).
Proof.
  unfold is_valid_transaction, STATUS_SUCCESS. rewrite !andb_true_iff, !bool_decide_eq_true. tauto.
Qed.

Lemma encode_hex_not_empty id :
  length (msg_id.hex_tx_hash id) = 32%nat → encode_hex (id_hash id) ≠ EmptyString.
Proof.
  intros Hl Heq. apply (f_equal String.length) in Heq. unfold encode_hex in Heq.
  rewrite <-chain.text_of_length in Heq. unfold text_of at 1 in Heq.
  rewrite String.list_ascii_of_string_of_list_ascii, to_hex_length in Heq.
  unfold id_hash, h256, text_of in Heq. rewrite String.list_ascii_of_string_of_list_ascii, Hl in Heq. done.
Qed.

(** A transaction that the client accepts decides the vote. *)
Lemma mvx_verify_emits node gateway id eq_event content tx v :
  length (msg_id.hex_tx_hash id) = 32%nat →
  (∀ e, eq_event e = Ok true ↔ content e) → node (encode_hex (id_hash id)) = Some tx →
  is_valid_transaction tx = true → verify gateway tx id eq_event = Ok v →
  vote_is (λ _, emits node gateway id content) (λ _, False) tt v.
Proof.
  intros Hwf Hc Hn Hvalid Hv. apply valid_spec in Hvalid as ([h Hh] & [l Hl] & Hs & Hm).
  unfold verify, find_event in Hv. rewrite Hh, Hl in Hv. cbn in Hv.
  assert (∀ P : Prop, (emits node gateway id content → P) ↔
    (h = encode_hex (id_hash id) → ∀ e, l !! Z.to_nat (msg_id.hex_event_index id) = Some e →
       address e = gateway → content e → P)) as Hem.
  { intros P. unfold emits. split.
    - intros HP -> e He Ha Hcon. apply HP. exists tx, l, e. by split_and!.
    - intros HP (tx' & l' & e & Hn' & Hh' & _ & _ & Hl' & He & Ha & Hcon). simplify_eq. eauto. }
  assert (v = VoteNotFound → (emits node gateway id content → False) → vote_is
    (λ _, emits node gateway id content) (λ _, False) tt v) as Hno
    by (intros -> Hx; split; [exact Hx|by intros []]).
  destruct (bool_decide_reflect (h = EmptyString)) as [->|Hne].
  { injection Hv as <-. apply Hno; [done|]. apply Hem. intros Heq. by destruct (encode_hex_not_empty id). }
  destruct (l !! _) as [e|] eqn:He; cbn in Hv.
  2: { injection Hv as <-. apply Hno; [done|]. apply Hem. intros; congruence. }
  destruct (bool_decide_reflect (address e ≠ gateway)) as [Ha|Ha%dec_stable]; cbn in Hv.
  { injection Hv as <-. apply Hno; [done|]. apply Hem. intros; congruence. }
  destruct (bool_decide_reflect (h = encode_hex (h256 (msg_id.hex_tx_hash id)))) as [->|Hhe].
  2: { injection Hv as <-. apply Hno; [done|]. apply Hem. done. }
  specialize (Hc e). destruct (eq_event e) as [[]|err|]; [|..|done].
  - injection Hv as <-. exists tx, l, e. split_and!; try done. by apply Hc.
  - injection Hv as <-. apply Hno; [done|]. apply Hem. intros _ ? [= <-] _ Hcon%Hc. done.
  - injection Hv as <-. apply Hno; [done|]. apply Hem. intros _ ? [= <-] _ Hcon%Hc. done.
Qed.

(** Identifiers hold a hash of 32 bytes. *)
Definition hash_wf (id : msg_id.HexTxHashAndEventIndex_id) : Prop :=
  length (msg_id.hex_tx_hash id) = 32%nat.

(** What the client returns for a transaction. *)
Lemma info_Some node h tx :
  transaction_info_with_results node h = Some tx ↔
  node (encode_hex h) = Some tx ∧ is_valid_transaction tx = true.
Proof.
  unfold transaction_info_with_results.
  destruct (node (encode_hex h)) as [t|]; cbn; [|split; [done|by intros []]].
  destruct (is_valid_transaction t) eqn:Hv; (split; [|intros [[= <-] ?]; congruence]); [|done].
  by intros [= <-].
Qed.

Lemma info_None node gateway id content :
  transaction_info_with_results node (id_hash id) = None → ¬ emits node gateway id content.
Proof.
  intros Hi (tx & l & e & Hn & Hh & Hs & Hm & Hl & _).
  assert (transaction_info_with_results node (id_hash id) = Some tx); [|congruence].
  apply info_Some. split; [done|]. apply valid_spec. rewrite Hh, Hl. eauto.
Qed.

(** On MultiversX, a verifier that does not crash votes for exactly what its node shows. A message
    succeeded when its transaction is final and successful and the event at the given index is a
    call of the poll's gateway with exactly the message's sender, destination and payload; a
    verifier set did when the event is a rotation to the hash of its signers. Everything else is
    not found, and nothing failed. *)
Theorem mvx_votes_exact des_messages des_set (self : Handler) (node : Node) (height : Z)
    (e : events.Event) (msgs : list Msg) :
  (∀ a ev, des_messages a = Some ev → Forall (λ m, hash_wf (message_id m)) (evm.poll_content ev)) →
  (∀ a ev, des_set a = Some ev → hash_wf (vs_message_id (evm.poll_content ev))) →
  (handle_messages des_messages self node height e = Ok msgs →
   votes_exact (open_poll "wasm-messages_poll_started" des_messages (verifier self)
                  (voting_verifier_contract self) height e) (λ ms, ms)
     (λ ev m, emits node (evm.source_gateway_address ev) (message_id m) (calls m)) (λ _ _, False)
     (verifier self) (voting_verifier_contract self) msgs) ∧
  (handle_verifier_set des_set self node height e = Ok msgs →
   votes_exact (open_poll "wasm-verifier_set_poll_started" des_set (verifier self)
                  (voting_verifier_contract self) height e) (λ s, [s])
     (λ ev s, emits node (evm.source_gateway_address ev) (vs_message_id s) (rotates s)) (λ _ _, False)
     (verifier self) (voting_verifier_contract self) msgs).
Proof.
  intros Hwm Hws.
  split; intros Hf; (eapply vote_in_poll_exact_for; [exact Hf|apply absent_or_expired_spec|]);
    intros a ev vs Hdes Hvs; cbn beta zeta in Hvs.
  - eapply cast_votes_exact; [exact Hvs|..]; intros m; [intros tx v Hm Ht Hv|intros Hm Ht].
    + apply collect_asked in Ht as [_ [Hn Hval]%info_Some].
      apply (mvx_verify_emits _ _ _ _ (calls m) _ _ (proj1 (Forall_forall _ _) (Hwm _ _ Hdes) m Hm)
        (mvx_message_eq_calls m) Hn Hval Hv).
    + split; [|by intros []]. apply info_None. destruct (transaction_info_with_results _ _) as [tx|] eqn:Hi;
        [|done]. assert (transactions_info_with_results node (list_to_set ((λ m, id_hash (message_id m)) <$>
          evm.poll_content ev)) !! id_hash (message_id m) = Some tx); [|congruence].
      apply collect_asked. split; [|done]. apply elem_of_list_to_set, list_elem_of_fmap. eauto.
  - eapply cast_votes_exact; [exact Hvs|..]; intros s; [intros tx v|]; intros ->%list_elem_of_singleton Ht.
    + apply info_Some in Ht as [Hn Hval]. intros Hv.
      apply (mvx_verify_emits _ _ _ _ (rotates (evm.poll_content ev)) _ _ (Hws _ _ Hdes)
        (mvx_confirmation_eq_rotates _) Hn Hval Hv).
    + split; [|by intros []]. by apply info_None.
Qed.

(** *** What the hash of a rotation says *)

Lemma weighted_signer_Ok s w :
  weighted_signer_from s = Ok w ↔
  ∃ k, verifier_set.pub_key s = key.PkEd25519 k ∧ String.length k = 32%nat ∧
    w = mkWeighted k (uint256_to_compact_vec (verifier_set.weight s)).
Proof.
  unfold weighted_signer_from, ed25519_key. destruct (verifier_set.pub_key s) as [k|k]; cbn; [naive_solver|].
  case_bool_decide as Hl; cbn; [|naive_solver]. split.
  - intros [= <-]. eauto.
  - intros (k' & [= <-] & _ & ->). done.
Qed.

(** The weights of a set can be read off the signers that are hashed. *)
Definition read_signer (w : WeightedSigner) : string * Z := (signer w, be_val (text_of (weight w))).

Lemma weighted_signers_read vs ws :
  encoding.set_typed vs → weighted_signers_from vs = Ok ws →
  read_signer <$> signers ws ≡ₚ signers.weights vs ∧ signers_wf ws ∧
  threshold ws = uint256_to_compact_vec (verifier_set.threshold vs) ∧
  nonce ws = to_be_bytes 32 (verifier_set.created_at vs).
Proof.
  intros [Hty _] Hws. unfold weighted_signers_from in Hws. apply bind_Ok in Hws as (l & Hl & [= <-]). cbn.
  apply try_map_Ok in Hl. split; [|split; [split|done]].
  - rewrite merge_sort_Permutation. apply reflexive_eq. unfold signers.weights.
    assert (∀ x, x ∈ entries (verifier_set.signers vs) → 0 ≤ verifier_set.weight x.2 ≤ u256_max) as Hw.
    { intros [a s] Hin. apply elem_of_entries in Hin. specialize (Hty a s Hin). cbn in *.
      unfold u128_max, u256_max in *. lia. }
    clear Hty. induction Hl as [|[a s] w l k Hx Hl IH]; [done|]. csimpl. f_equal.
    + apply weighted_signer_Ok in Hx as (k' & Hk & _ & ->). unfold read_signer; cbn. rewrite Hk. f_equal.
      apply be_val_compact. apply (Hw (a, s)). by left.
    + apply IH. intros x Hx'. apply Hw. by right.
  - cbn. rewrite merge_sort_Permutation. clear Hty.
    induction Hl as [|[a s] w l k Hx Hl IH]; [constructor|]. constructor; [|done].
    apply weighted_signer_Ok in Hx as (k' & _ & Hk & ->). done.
  - exact (to_be_bytes_length 32 _).
Qed.

(** The hash that the MultiversX gateway announces determines the set. If two verifier sets have
    the same hash, and the hash does not collide on their encodings, they have the same keys with
    the same weights, the same threshold and the same creation height. *)
Theorem mvx_rotation_binds (vs vs' : verifier_set.VerifierSet) (ws ws' : WeightedSigners)
    (b b' : string) :
  encoding.set_typed vs → encoding.set_typed vs' →
  weighted_signers_from vs = Ok ws → weighted_signers_from vs' = Ok ws' →
  encoded ws = Ok b → encoded ws' = Ok b' → (keccak256 b = keccak256 b' → b = b') →
  signers_hash ws = signers_hash ws' →
  signers.weights vs ≡ₚ signers.weights vs' ∧
  verifier_set.threshold vs = verifier_set.threshold vs' ∧
  verifier_set.created_at vs = verifier_set.created_at vs'.
Proof.
  intros Hty Hty' Hws Hws' Hb Hb' Hinj Heq. unfold signers_hash in Heq.
  rewrite Hb, Hb' in Heq. injection Heq as ->%Hinj.
  pose proof (weighted_signers_read _ _ Hty Hws) as (Hr & Hwf & Ht & Hn).
  pose proof (weighted_signers_read _ _ Hty' Hws') as (Hr' & Hwf' & Ht' & Hn').
  pose proof (encoded_inj _ _ _ Hwf Hwf' Hb Hb') as ->. split; [by rewrite <-Hr, <-Hr'|]. split.
  - destruct Hty as (_ & Hth & _), Hty' as (_ & Hth' & _). unfold u128_max, u256_max in *.
    rewrite <-(be_val_compact (verifier_set.threshold vs)), <-(be_val_compact (verifier_set.threshold vs'))
      by (unfold u256_max; lia). congruence.
  - destruct Hty as (_ & _ & Hc), Hty' as (_ & _ & Hc').
    rewrite <-(be_val_to_be_bytes 32 (verifier_set.created_at vs)),
      <-(be_val_to_be_bytes 32 (verifier_set.created_at vs')) by (unfold u64_max in *; lia). congruence.
Qed.

End votes.
End mvx.

(** ** Stacks *)
Module stacks.
Import voting events handlers voting_handler.

(** *** Clarity values ([clarity_serialization]) *)

Inductive TypeSignature :=
  | StringAsciiType (max : Z)
  | BufferType (max : Z)
  | PrincipalType
  | UIntType
  | ListType (item : TypeSignature) (max : Z)
  | TupleType (fields : list (string * TypeSignature)).

Class Clarity := {
  Value : Type;
  ClarityValue_eq_dec :: EqDecision Value;
  (** The constructors; those that check a size or the characters can fail. *)
  UInt : Z → Value;
  PrincipalValue : string → Value;
  string_ascii_from_bytes : string → option Value;
  buff_from : string → option Value;
  tuple_from_data : list (string * Value) → option Value;
  list_with_type : list Value → TypeSignature → option Value;
  (** The fields of a tuple, and [None] for another value. *)
  tuple_data : Value → option (gmap string Value);
  serialize_to_vec : Value → option string;
  try_deserialize_hex : string → TypeSignature → option Value
}.

(** *** The client ([stacks/http_client.rs], [stacks/finalizer.rs]) *)

Record ContractLog := mkLog { contract_id : string; topic : string; log_hex : string }.
Record TransactionEvents := mkEvents { event_index : Z; contract_log : option ContractLog }.
Record Transaction := mkTransaction {
  tx_id : string;
  tx_status : string;
  events : list TransactionEvents;
  burn_block_height : Z
}.
(** What the node answers; [None] for an error. *)
Record Client := mkClient {
  transaction : string → option Transaction;
  latest_block : option Z
}.

Definition STATUS_SUCCESS : string := "success".

Definition is_valid_transaction (tx : Transaction) (finalized_block_height : Z) : bool :=
  bool_decide (tx_status tx = STATUS_SUCCESS) &&
  bool_decide (burn_block_height tx ≤ finalized_block_height).

Definition valid_transaction (c : Client) (finalized_block_height : Z) (tx_hash : string)
    : option Transaction :=
  tx ← transaction c tx_hash;
  if is_valid_transaction tx finalized_block_height then Some tx else None.

Definition finalized_transactions (c : Client) (tx_hashes : gset string)
    (finalized_block_height : Z) : gmap string Transaction :=
  collect (omap (λ h, (λ tx, (h, tx)) <$> valid_transaction c finalized_block_height h)
                (elements tx_hashes)).

Definition latest_finalized_block_height (c : Client) (confirmation_height : Z) : option Z :=
  block_number ← latest_block c;
  Some (saturating_sub (saturating_add u64_max block_number 1) confirmation_height).

(** *** The hash of the signers ([stacks/mod.rs]) *)

Inductive StacksError := PropertyEmpty | InvalidEncoding | NotEcdsaKey.

Record WeightedSigners `{Clarity} := mkSigners {
  signers : list (string * Z);
  threshold : Value;
  nonce : Value
}.

Section signers.
Context `{Clarity} `{Crypto}.

Definition ecdsa_key (pub_key : key.PublicKey) : result StacksError string :=
  match pub_key with key.PkEcdsa k => Ok k | key.PkEd25519 _ => Err NotEcdsaKey end.

Definition weighted_signer_try_from (s : verifier_set.Signer) : result StacksError (string * Z) :=
  k ← ecdsa_key (verifier_set.pub_key s); Ok (k, verifier_set.weight s).

Definition by_signer (s t : string * Z) : Prop := String.le s.1 t.1.
#[global] Instance by_signer_dec : RelDecision by_signer.
Proof. intros s t. unfold by_signer. apply _. Defined.

Definition weighted_signers_try_from (vs : verifier_set.VerifierSet)
    : result StacksError WeightedSigners :=
  signers ← try_map (λ '(_, s), weighted_signer_try_from s) (entries (verifier_set.signers vs));
  nonce ← ok_or InvalidEncoding (buff_from (to_be_bytes 32 (verifier_set.created_at vs)));
  Ok (mkSigners _ (merge_sort by_signer signers) (UInt (verifier_set.threshold vs)) nonce).

Definition signer_value (s : string * Z) : result StacksError Value :=
  k ← ok_or InvalidEncoding (buff_from s.1);
  ok_or InvalidEncoding (tuple_from_data [("signer", k); ("weight", UInt s.2)]).

Definition signer_type_signature : TypeSignature :=
  TupleType [("signer", BufferType 33); ("weight", UIntType)].

Definition try_into_value (s : WeightedSigners) : result StacksError Value :=
  weighted_signers ← try_map signer_value (signers s);
  l ← ok_or InvalidEncoding (list_with_type weighted_signers (ListType signer_type_signature 100));
  ok_or InvalidEncoding
    (tuple_from_data [("signers", l); ("threshold", threshold s); ("nonce", nonce s)]).

Definition signers_hash (s : WeightedSigners) : result StacksError string :=
  value ← try_into_value s;
  bytes ← ok_or InvalidEncoding (serialize_to_vec value); Ok (keccak256 bytes).

End signers.

(** *** Verification ([stacks/verifier.rs]) *)

Record Message := mkMessage {
  message_id : msg_id.HexTxHashAndEventIndex_id;
  destination_address : string;
  destination_chain : string;
  source_address : string;
  payload_hash : string
}.
Record VerifierSetConfirmation := mkConfirmation {
  vs_message_id : msg_id.HexTxHashAndEventIndex_id;
  verifier_set : verifier_set.VerifierSet
}.

Definition PRINT_TOPIC : string := "print".
Definition CONTRACT_CALL_TYPE : string := "contract-call".
Definition SIGNERS_ROTATED_TYPE : string := "signers-rotated".

Definition type_signature_contract_call : TypeSignature :=
  TupleType [("type", StringAsciiType 13); ("sender", PrincipalType);
             ("destination-chain", StringAsciiType 20);
             ("destination-contract-address", StringAsciiType 128);
             ("payload-hash", BufferType 32)].
Definition type_signature_signers_rotated : TypeSignature :=
  TupleType [("type", StringAsciiType 15); ("signers-hash", BufferType 32)].

Section verifier.
Context `{Clarity} `{Crypto}.

(** The value that a log prints, as a tuple of the expected type. *)
Definition printed (e : TransactionEvents) (ty : TypeSignature)
    (k : gmap string Value → result StacksError bool) : result StacksError bool :=
  contract_log ← ok_or PropertyEmpty (contract_log e);
  if bool_decide (topic contract_log ≠ PRINT_TOPIC) then Ok false
  else
    hex ← ok_or PropertyEmpty
      (if starknet_checked_felt.starts_with_0x (text_of (log_hex contract_log))
       then Some (String.string_of_list_ascii (drop 2 (text_of (log_hex contract_log)))) else None);
    value ← ok_or InvalidEncoding (try_deserialize_hex hex ty);
    match tuple_data value with Some data => k data | None => Ok false end.

(** A field of the tuple is the expected value, else [false] is returned early. *)
Definition field_is (data : gmap string Value) (name : string) (expected : option Value)
    (r : result StacksError bool) : result StacksError bool :=
  v ← ok_or InvalidEncoding (data !! name);
  expected ← ok_or InvalidEncoding expected;
  if bool_decide (v = expected) then r else Ok false.

Definition message_eq_event (m : Message) (e : TransactionEvents) : result StacksError bool :=
  printed e type_signature_contract_call (λ data,
    field_is data "type" (string_ascii_from_bytes CONTRACT_CALL_TYPE) (
    field_is data "sender" (Some (PrincipalValue (source_address m))) (
    field_is data "destination-chain" (string_ascii_from_bytes (destination_chain m)) (
    field_is data "destination-contract-address" (string_ascii_from_bytes (destination_address m)) (
    field_is data "payload-hash" (buff_from (payload_hash m)) (Ok true)))))).

Definition confirmation_eq_event (c : VerifierSetConfirmation) (e : TransactionEvents)
    : result StacksError bool :=
  printed e type_signature_signers_rotated (λ data,
    field_is data "type" (string_ascii_from_bytes SIGNERS_ROTATED_TYPE) (
      weighted_signers ← map_err (λ _, InvalidEncoding) (weighted_signers_try_from (verifier_set c));
      hash ← map_err (λ _, InvalidEncoding) (signers_hash weighted_signers);
      field_is data "signers-hash" (buff_from hash) (Ok true))).

Definition find_event (tx : Transaction) (gateway_address : string) (log_index : Z)
    : option TransactionEvents :=
  '(_, event) ← list_find (λ el, event_index el = log_index) (events tx);
  log ← contract_log event;
  if bool_decide (contract_id log = gateway_address) then Some event else None.

Definition verify (gateway_address : string) (tx : Transaction)
    (id : msg_id.HexTxHashAndEventIndex_id) (eq_event : TransactionEvents → result StacksError bool)
    : result Error Vote :=
  if bool_decide (h256 (msg_id.hex_tx_hash id) ≠ tx_id tx) then Ok VoteNotFound
  else
    match find_event tx gateway_address (msg_id.hex_event_index id) with
    | Some event =>
        match eq_event event with
        | Ok true => Ok SucceededOnChain
        | Panic => Panic
        | _ => Ok VoteNotFound
        end
    | None => Ok VoteNotFound
    end.

Definition verify_message (gateway_address : string) (tx : Transaction) (m : Message)
    : result Error Vote :=
  verify gateway_address tx (message_id m) (message_eq_event m).
Definition verify_verifier_set (gateway_address : string) (tx : Transaction)
    (c : VerifierSetConfirmation) : result Error Vote :=
  verify gateway_address tx (vs_message_id c) (confirmation_eq_event c).

End verifier.
(** *** The handlers *)

Record Handler := mkHandler {
  chain_name : string;
  verifier : Addr;
  voting_verifier_contract : Addr
}.

Section handle.
Context `{Clarity} `{Crypto} `{Json}.

Definition id_hash (id : msg_id.HexTxHashAndEventIndex_id) : string := h256 (msg_id.hex_tx_hash id).

Definition skip {C} (self : Handler) (latest_block_height : Z) (ev : evm.PollStartedEvent C) : bool :=
  evm.should_skip_poll (chain_name self) (evm.source_chain ev) (verifier self)
    (evm.participants ev) latest_block_height (evm.expires_at ev).

Definition handle_messages
    (deserialize : gmap string events.Value → option (evm.PollStartedEvent (list Message)))
    (self : Handler) (c : Client) (latest_block_height : Z) (e : events.Event)
    : result Error (list Msg) :=
  vote_in_poll "wasm-messages_poll_started" deserialize (verifier self)
    (voting_verifier_contract self) (skip self latest_block_height)
    (λ ev,
       let messages := evm.poll_content ev in
       latest ← ok_or Finalizer (latest_finalized_block_height c (evm.confirmation_height ev));
       let transactions := finalized_transactions c
         (list_to_set ((λ m, id_hash (message_id m)) <$> messages)) latest in
       cast_votes (λ m, transactions !! id_hash (message_id m))
         (verify_message (evm.source_gateway_address ev)) messages) e.

Definition handle_verifier_set
    (deserialize : gmap string events.Value → option (evm.PollStartedEvent VerifierSetConfirmation))
    (self : Handler) (c : Client) (latest_block_height : Z) (e : events.Event)
    : result Error (list Msg) :=
  vote_in_poll "wasm-verifier_set_poll_started" deserialize (verifier self)
    (voting_verifier_contract self) (skip self latest_block_height)
    (λ ev,
       let verifier_set := evm.poll_content ev in
       latest ← ok_or Finalizer (latest_finalized_block_height c (evm.confirmation_height ev));
       let tx := valid_transaction c latest (id_hash (vs_message_id verifier_set)) in
       cast_votes (λ _, tx) (verify_verifier_set (evm.source_gateway_address ev)) [verifier_set]) e.

(** *** What the votes say *)

(** The transaction is final and successful, and the first event with the given index is a print
    of the gateway. *)
Definition emits (c : Client) (confirmation_height : Z) (gateway : string)
    (id : msg_id.HexTxHashAndEventIndex_id) (content : TransactionEvents → Prop) : Prop :=
  ∃ tx latest before e after log, transaction c (id_hash id) = Some tx ∧ tx_id tx = id_hash id ∧
    tx_status tx = "success" ∧ latest_finalized_block_height c confirmation_height = Some latest ∧
    burn_block_height tx ≤ latest ∧ events tx = before ++ e :: after ∧
    event_index e = msg_id.hex_event_index id ∧
    Forall (λ x, event_index x ≠ msg_id.hex_event_index id) before ∧
    contract_log e = Some log ∧ contract_id log = gateway ∧ content e.

(** The log prints the tuple, in hexadecimal with a prefix. *)
Definition prints (e : TransactionEvents) (ty : TypeSignature) (data : gmap string Value) : Prop :=
  ∃ log hex v, contract_log e = Some log ∧ topic log = "print" ∧ log_hex log = "0x" +:+ hex ∧
    try_deserialize_hex hex ty = Some v ∧ tuple_data v = Some data.

Definition has_field (data : gmap string Value) (name : string) (expected : option Value) : Prop :=
  ∃ v, data !! name = Some v ∧ expected = Some v.

Definition calls (m : Message) (e : TransactionEvents) : Prop :=
  ∃ data, prints e type_signature_contract_call data ∧
    has_field data "type" (string_ascii_from_bytes "contract-call") ∧
    has_field data "sender" (Some (PrincipalValue (source_address m))) ∧
    has_field data "destination-chain" (string_ascii_from_bytes (destination_chain m)) ∧
    has_field data "destination-contract-address" (string_ascii_from_bytes (destination_address m)) ∧
    has_field data "payload-hash" (buff_from (payload_hash m)).

Definition rotates (c : VerifierSetConfirmation) (e : TransactionEvents) : Prop :=
  ∃ data ws h, prints e type_signature_signers_rotated data ∧
    has_field data "type" (string_ascii_from_bytes "signers-rotated") ∧
    weighted_signers_try_from (verifier_set c) = Ok ws ∧ signers_hash ws = Ok h ∧
    has_field data "signers-hash" (buff_from h).

Lemma field_is_true data name expected r :
  field_is data name expected r = Ok true ↔ has_field data name expected ∧ r = Ok true.
Proof.
  unfold field_is, has_field. destruct (data !! name) as [v|]; cbn; [|naive_solver].
  destruct expected as [w|]; cbn; [|naive_solver]. case_bool_decide; naive_solver.
Qed.

Lemma strip_0x_spec s hex :
  (if starknet_checked_felt.starts_with_0x (text_of s)
   then Some (String.string_of_list_ascii (drop 2 (text_of s))) else None) = Some hex ↔
  s = "0x" +:+ hex.
Proof.
  unfold starknet_checked_felt.starts_with_0x. split.
  - case_bool_decide as Ht; [|done]. intros [= <-]. apply chain.text_of_inj.
    rewrite chain.text_of_app. unfold text_of at 3. rewrite String.list_ascii_of_string_of_list_ascii.
    rewrite <-(take_drop 2 (text_of s)) at 1. by rewrite Ht.
  - intros ->. rewrite chain.text_of_app. cbn. do 2 f_equal. unfold text_of.
    apply String.string_of_list_ascii_of_string.
Qed.

Lemma printed_true e ty k :
  printed e ty k = Ok true ↔ ∃ data, prints e ty data ∧ k data = Ok true.
Proof.
  unfold printed, prints, PRINT_TOPIC. destruct (contract_log e) as [log|]; cbn; [|naive_solver].
  case_bool_decide as Ht; [naive_solver|]. rewrite bind_Ok. setoid_rewrite ok_or_Ok.
  setoid_rewrite strip_0x_spec. setoid_rewrite bind_Ok. setoid_rewrite ok_or_Ok. split.
  - intros (hex & Hhex & v & Hv & Hk). destruct (tuple_data v) as [data|] eqn:Hd; [|done].
    exists data. split; [|done]. exists log, hex, v. split_and!; done.
  - intros (data & (log' & hex & v & [= <-] & _ & Hhex & Hv & Hd) & Hk). exists hex. split; [done|].
    exists v. split; [done|]. by rewrite Hd.
Qed.

Lemma stacks_message_eq_calls m e : message_eq_event m e = Ok true ↔ calls m e.
Proof.
  unfold message_eq_event, calls. rewrite printed_true. repeat setoid_rewrite field_is_true.
  unfold CONTRACT_CALL_TYPE. apply exist_proper. intros data. tauto.
Qed.

Lemma stacks_confirmation_eq_rotates c e : confirmation_eq_event c e = Ok true ↔ rotates c e.
Proof.
  unfold confirmation_eq_event, rotates. rewrite printed_true. setoid_rewrite field_is_true.
  unfold SIGNERS_ROTATED_TYPE. split.
  - intros (data & Hp & Ht & Hk). apply bind_Ok in Hk as (ws & Hws%map_err_Ok & Hk).
    apply bind_Ok in Hk as (h & Hh%map_err_Ok & Hk). apply field_is_true in Hk as [Hf _].
    exists data, ws, h. by split_and!.
  - intros (data & ws & h & Hp & Ht & Hws & Hh & Hf). exists data. split; [done|]. split; [done|].
    rewrite Hws. cbn. rewrite Hh. cbn. by apply field_is_true.
Qed.

Lemma stacks_find_event_spec tx gateway i e :
  find_event tx gateway i = Some e ↔
  ∃ before after log, events tx = before ++ e :: after ∧ event_index e = i ∧
    Forall (λ x, event_index x ≠ i) before ∧ contract_log e = Some log ∧ contract_id log = gateway.
Proof.
  assert (find_event tx gateway i = Some e ↔
    snd <$> list_find (λ el, event_index el = i) (events tx) = Some e ∧
    ∃ log, contract_log e = Some log ∧ contract_id log = gateway) as ->.
  { unfold find_event. destruct (list_find _ _) as [[j x]|]; cbn; [|naive_solver].
    destruct (contract_log x) as [log|] eqn:Hl; cbn; [case_bool_decide|]; naive_solver. }
  rewrite find_first. naive_solver.
Qed.

Lemma valid_transaction_Some c latest h tx :
  valid_transaction c latest h = Some tx ↔
  transaction c h = Some tx ∧ tx_status tx = "success" ∧ burn_block_height tx ≤ latest.
Proof.
  unfold valid_transaction, is_valid_transaction, STATUS_SUCCESS.
  destruct (transaction c h) as [t|]; cbn; [|naive_solver].
  destruct (bool_decide_reflect (tx_status t = "success")); cbn; [|naive_solver].
  case_bool_decide; naive_solver.
Qed.

(** A transaction that the client accepts decides the vote. *)
Lemma stacks_verify_emits c ch latest gateway id eq_event content tx v :
  latest_finalized_block_height c ch = Some latest →
  (∀ e, eq_event e = Ok true ↔ content e) → valid_transaction c latest (id_hash id) = Some tx →
  verify gateway tx id eq_event = Ok v →
  vote_is (λ _, emits c ch gateway id content) (λ _, False) tt v.
Proof.
  intros Hlat Hc (Htx & Hst & Hbh)%valid_transaction_Some Hv.
  assert (emits c ch gateway id content ↔ tx_id tx = id_hash id ∧
    ∃ e, find_event tx gateway (msg_id.hex_event_index id) = Some e ∧ content e) as Hem.
  { unfold emits. rewrite Hlat, Htx. setoid_rewrite stacks_find_event_spec. split.
    - intros (tx' & l' & before & e & after & log & [= <-] & Hid & _ & [= <-] & _ & Hev & Hi & Hb & Hl & Hg & Hcon).
      split; [done|]. exists e. split; [|done]. by exists before, after, log.
    - intros (Hid & e & (before & after & log & Hev & Hi & Hb & Hl & Hg) & Hcon).
      exists tx, latest, before, e, after, log. by split_and!. }
  unfold verify in Hv.
  destruct (bool_decide_reflect (h256 (msg_id.hex_tx_hash id) ≠ tx_id tx)) as [Hne|Heq%dec_stable].
  { injection Hv as <-. cbn. rewrite Hem. split; [|by intros []]. intros [Hid _]. by symmetry in Hid. }
  destruct (find_event _ _ _) as [e|].
  2: { injection Hv as <-. cbn. rewrite Hem. split; [|by intros []]. by intros (_ & ? & [=] & _). }
  specialize (Hc e). destruct (eq_event e) as [[]|err|]; [|..|done]; injection Hv as <-; cbn; rewrite Hem.
  - split; [done|]. exists e. split; [done|]. by apply Hc.
  - split; [|by intros []]. by intros (_ & ? & [= <-] & Hcon%Hc).
  - split; [|by intros []]. by intros (_ & ? & [= <-] & Hcon%Hc).
Qed.

Lemma not_valid_not_emitted c ch latest gateway id content :
  latest_finalized_block_height c ch = Some latest →
  valid_transaction c latest (id_hash id) = None → ¬ emits c ch gateway id content.
Proof.
  intros Hlat Hno (tx & latest' & before & e & after & log & Htx & _ & Hs & Hlat' & Hb & _).
  rewrite Hlat in Hlat'. injection Hlat' as <-.
  assert (valid_transaction c latest (id_hash id) = Some tx); [|congruence].
  by apply valid_transaction_Some.
Qed.

(** A poll for the handler's chain. *)
Definition open_chain_poll {C} (event_type : string)
    (deserialize : gmap string events.Value → option (evm.PollStartedEvent C)) (self : Handler)
    (height : Z) (e : events.Event) (ev : evm.PollStartedEvent C) : Prop :=
  is_from_contract e (voting_verifier_contract self) = true ∧
  try_into event_type deserialize e = Ok ev ∧ chain_name self = evm.source_chain ev ∧
  verifier self ∈ evm.participants ev ∧ height < evm.expires_at ev.

(** On Stacks, a verifier votes for exactly what its node shows. A message succeeded when its
    transaction is successful and old enough, and the event with the given index is a print of the
    poll's gateway with exactly the message's sender, destination and payload; a verifier set did
    when the print is a rotation to the hash of its signers. Everything else is not found, and
    nothing failed. *)
Theorem stacks_votes_exact des_messages des_set (self : Handler) (c : Client) (height : Z)
    (e : events.Event) (msgs : list Msg) :
  (handle_messages des_messages self c height e = Ok msgs →
   votes_exact (open_chain_poll "wasm-messages_poll_started" des_messages self height e) (λ ms, ms)
     (λ ev m, emits c (evm.confirmation_height ev) (evm.source_gateway_address ev) (message_id m) (calls m))
     (λ _ _, False) (verifier self) (voting_verifier_contract self) msgs) ∧
  (handle_verifier_set des_set self c height e = Ok msgs →
   votes_exact (open_chain_poll "wasm-verifier_set_poll_started" des_set self height e) (λ s, [s])
     (λ ev s, emits c (evm.confirmation_height ev) (evm.source_gateway_address ev) (vs_message_id s)
                (rotates s))
     (λ _ _, False) (verifier self) (voting_verifier_contract self) msgs).
Proof.
  split; intros Hf;
    (eapply vote_in_poll_exact; [exact Hf|intros ev; apply evm.should_skip_spec|]);
    intros ev vs Hvs; cbn beta zeta in Hvs; apply bind_Ok in Hvs as (latest & Hlat%ok_or_Ok & Hvs).
  - eapply cast_votes_exact; [exact Hvs|..]; intros m; [intros tx v Hm Ht Hv|intros Hm Ht].
    + apply collect_asked in Ht as [_ Ht].
      apply (stacks_verify_emits _ _ _ _ _ _ (calls m) _ _ Hlat (stacks_message_eq_calls m) Ht Hv).
    + split; [|by intros []]. apply (not_valid_not_emitted _ _ latest _ _ _ Hlat).
      destruct (valid_transaction _ _ _) as [tx|] eqn:Hi; [|done].
      assert (finalized_transactions c (list_to_set ((λ m, id_hash (message_id m)) <$>
        evm.poll_content ev)) latest !! id_hash (message_id m) = Some tx); [|congruence].
      apply collect_asked. split; [|done]. apply elem_of_list_to_set, list_elem_of_fmap. eauto.
  - eapply cast_votes_exact; [exact Hvs|..]; intros s; [intros tx v|]; intros ->%list_elem_of_singleton Ht.
    + apply (stacks_verify_emits _ _ _ _ _ _ (rotates (evm.poll_content ev)) _ _ Hlat (stacks_confirmation_eq_rotates _) Ht).
    + split; [|by intros []]. by apply (not_valid_not_emitted _ _ latest _ _ _ Hlat).
Qed.

End handle.
End stacks.

(** ** Concrete runs *)
Module mvx_run.
Import voting events handlers voting_handler mvx.

Definition run_crypto : Crypto := {|
  keccak256 s := to_be_bytes 32 (Z.of_nat (String.length s));
  secp256k1_verify := λ _ _ _, None;
  ed25519_verify_bytes := λ _ _ _, None;
  k256_normalize := Some;
  ed25519_normalize := Some
|}.
#[local] Existing Instances ampd_stream_run.run_json run_crypto codecs.hex_codec.
#[local] Instance run_base64 : Base64 := Some.

Definition run_key (c : ascii) : string := h256 (replicate 32 c).
Definition run_set : verifier_set.VerifierSet :=
  verifier_set.new [(snapshot.mkParticipant "a" 300, key.PkEd25519 (run_key "a"%char));
                    (snapshot.mkParticipant "b" 2, key.PkEd25519 (run_key "b"%char))] 200 10.
Definition run_signers : WeightedSigners :=
  match weighted_signers_from run_set with Ok ws => ws | _ => mkSigners [] EmptyString EmptyString end.
Definition run_bytes : string := match encoded run_signers with Ok b => b | _ => EmptyString end.

(** Transaction [a] calls and rotates; [b] is not final yet. *)
Definition run_id (c : ascii) (i : Z) : msg_id.HexTxHashAndEventIndex_id :=
  msg_id.mkHexIndex (replicate 32 c) i.
Definition run_logs : list Events :=
  [mkEvents "gateway" "callContract"
     (Some ["contract_call_event"; run_key "s"%char; "Ethereum"; "0xb"; run_key "h"%char]);
   mkEvents "gateway" "rotateSigners" (Some ["signers_rotated_event"; "epoch"; keccak256 run_bytes])].
Definition run_node : Node := λ h,
  if bool_decide (h = encode_hex (id_hash (run_id "a"%char 0)))
  then Some (mkTransaction (Some h) (Some run_logs) "success" (Some 7))
  else Some (mkTransaction (Some h) (Some run_logs) "success" None).

Definition run_handler : Handler := mkHandler "alice" "verifier".
Definition run_poll {C} (content : C) : evm.PollStartedEvent C :=
  evm.mkPollStarted 5 "multiversx" "gateway" 10 20 content ["bob"; "alice"].
Definition run_messages : list Message :=
  (λ id, mkMessage id "0xb" "ethereum" (run_key "s"%char) (run_key "h"%char)) <$>
    [run_id "a"%char 0; run_id "a"%char 1; run_id "b"%char 0].
Definition run_confirmation : VerifierSetConfirmation := mkConfirmation (run_id "a"%char 1) run_set.
Definition run_votes : list Vote := [SucceededOnChain; VoteNotFound; VoteNotFound].

Lemma mvx_votes_exact_witness :
  Forall2 (vote_is (λ m, emits run_node "gateway" (message_id m) (calls m)) (λ _, False))
    run_messages run_votes ∧
  emits run_node "gateway" (run_id "a"%char 1) (rotates run_confirmation).
Proof.
  assert (∀ (a : gmap string Value) ev, Some (run_poll run_messages) = Some ev →
    Forall (λ m, hash_wf (message_id m)) (evm.poll_content ev)) as Hwm.
  { intros a ev [= <-]. repeat constructor. }
  assert (∀ (a : gmap string Value) ev, Some (run_poll run_confirmation) = Some ev →
    hash_wf (vs_message_id (evm.poll_content ev))) as Hws by (by intros a ev [= <-]).
  destruct (mvx_votes_exact (λ _, Some (run_poll run_messages)) (λ _, Some (run_poll run_confirmation))
    run_handler run_node 7 (ampd_evm_run.run_event "wasm-messages_poll_started")
    [VoteMsg "alice" "verifier" 5 run_votes] Hwm Hws) as [Hm _].
  destruct (mvx_votes_exact (λ _, Some (run_poll run_messages)) (λ _, Some (run_poll run_confirmation))
    run_handler run_node 7 (ampd_evm_run.run_event "wasm-verifier_set_poll_started")
    [VoteMsg "alice" "verifier" 5 [SucceededOnChain]] Hwm Hws) as [_ Hs].
  split.
  - destruct Hm as [[[=] _]|(ev & votes & (_ & [= <-] & _) & Heq & Hv)]; [vm_compute; reflexivity|].
    injection Heq as <-. exact Hv.
  - destruct Hs as [[[=] _]|(ev & votes & (_ & [= <-] & _) & [= <-] & Hv)]; [vm_compute; reflexivity|].
    by apply Forall2_cons in Hv as [Hv _].
Defined.

(** The same keys, registered by others. *)
Definition run_set' : verifier_set.VerifierSet :=
  verifier_set.new [(snapshot.mkParticipant "y" 300, key.PkEd25519 (run_key "a"%char));
                    (snapshot.mkParticipant "x" 2, key.PkEd25519 (run_key "b"%char))] 200 10.

Lemma mvx_set_typed : encoding.set_typed run_set ∧ encoding.set_typed run_set'.
Proof.
  split; (split; [|vm_compute; repeat split; discriminate]); apply map_Forall_lookup;
    apply (bool_decide_unpack _); vm_compute; exact I.
Qed.

Lemma mvx_rotation_binds_witness : signers.weights run_set ≡ₚ signers.weights run_set'.
Proof.
  destruct (mvx_rotation_binds run_set run_set' run_signers run_signers run_bytes run_bytes
    (proj1 mvx_set_typed) (proj2 mvx_set_typed)) as (Hw & _ & _);
    [vm_compute; reflexivity..|done|done|exact Hw].
Defined.

End mvx_run.

Module stacks_run.
Import voting events handlers voting_handler stacks.

#[local] Existing Instances ampd_stream_run.run_json encoding_run.run_crypto.

(** Values are the texts of their fields. *)
Definition flat (v : list (string * string)) : string :=
  foldr (λ '(k, s) acc, k +:+ s +:+ acc) EmptyString v.
Definition atom (s : string) : list (string * string) := [("", s)].
Definition run_set : verifier_set.VerifierSet := encoding_run.run_set key.PkEcdsa.

#[local] Instance run_values : Clarity := {|
  Value := list (string * string);
  UInt n := atom (uint_to_string n);
  PrincipalValue := atom;
  string_ascii_from_bytes s := Some (atom s);
  buff_from s := Some (atom s);
  tuple_from_data l := Some ((λ '(k, v), (k, flat v)) <$> l);
  list_with_type l _ := Some (atom (flat (concat l)));
  tuple_data v := Some (list_to_map ((λ '(k, s), (k, atom s)) <$> v));
  serialize_to_vec v := Some (flat v);
  try_deserialize_hex hex ty :=
    if bool_decide (hex = "call")
    then Some [("type", "contract-call"); ("sender", "sender"); ("destination-chain", "ethereum");
               ("destination-contract-address", "0xb"); ("payload-hash", "hash")]
    else Some [("type", "signers-rotated"); ("signers-hash", hex)]
|}.
Definition run_signers_hash : string :=
  match weighted_signers_try_from run_set ≫= signers_hash with Ok h => h | _ => EmptyString end.

(** Transaction [a] is final, [b] is too recent. *)
Definition run_id (c : ascii) (i : Z) : msg_id.HexTxHashAndEventIndex_id :=
  msg_id.mkHexIndex (replicate 32 c) i.
Definition run_events : list TransactionEvents :=
  [mkEvents 4 (Some (mkLog "gateway" "print" "0xcall"));
   mkEvents 5 (Some (mkLog "gateway" "print" ("0x" +:+ run_signers_hash)))].
Definition run_client : Client :=
  mkClient (λ h, if bool_decide (h = id_hash (run_id "a"%char 0))
                 then Some (mkTransaction h "success" run_events 90)
                 else Some (mkTransaction h "success" run_events 100)) (Some 100).

Definition run_handler : Handler := mkHandler "stacks" "alice" "verifier".
Definition run_poll {C} (content : C) : evm.PollStartedEvent C :=
  evm.mkPollStarted 5 "stacks" "gateway" 10 20 content ["bob"; "alice"].
Definition run_messages : list Message :=
  (λ id, mkMessage id "0xb" "ethereum" "sender" "hash") <$>
    [run_id "a"%char 4; run_id "a"%char 5; run_id "b"%char 4].
Definition run_confirmation : VerifierSetConfirmation := mkConfirmation (run_id "a"%char 5) run_set.
Definition run_votes : list Vote := [SucceededOnChain; VoteNotFound; VoteNotFound].

Lemma stacks_votes_exact_witness :
  Forall2 (vote_is (λ m, emits run_client 10 "gateway" (message_id m) (calls m)) (λ _, False))
    run_messages run_votes ∧
  emits run_client 10 "gateway" (run_id "a"%char 5) (rotates run_confirmation).
Proof.
  destruct (stacks_votes_exact (λ _, Some (run_poll run_messages)) (λ _, Some (run_poll run_confirmation))
    run_handler run_client 7 (ampd_evm_run.run_event "wasm-messages_poll_started")
    [VoteMsg "alice" "verifier" 5 run_votes]) as [Hm _].
  destruct (stacks_votes_exact (λ _, Some (run_poll run_messages)) (λ _, Some (run_poll run_confirmation))
    run_handler run_client 7 (ampd_evm_run.run_event "wasm-verifier_set_poll_started")
    [VoteMsg "alice" "verifier" 5 [SucceededOnChain]]) as [_ Hs].
  split.
  - destruct Hm as [[[=] _]|(ev & votes & (_ & [= <-] & _) & Heq & Hv)]; [vm_compute; reflexivity|].
    injection Heq as <-. exact Hv.
  - destruct Hs as [[[=] _]|(ev & votes & (_ & [= <-] & _) & [= <-] & Hv)]; [vm_compute; reflexivity|].
    by apply Forall2_cons in Hv as [Hv _].
Defined.

End stacks_run.
