(* ===== verification/AmpdSolana.v ===== *)
(** * How a verifier votes on Solana

    [solana/mod.rs], [solana/msg_verifier.rs], [solana/verifier_set_verifier.rs] and the handlers
    [handlers/solana_verify_msg.rs], [handlers/solana_verify_verifier_set.rs]: the instruction
    that an identifier points to, the gateway event it carries, and the votes.

    The Borsh deserialization of events, the discriminators of the gateway's crate and the hash of
    a verifier set are the interface [SolanaCodec]. *)

From Stdlib Require Import Ascii.
From S2P Require Import Prelude Std Voting MsgId RouterApi Multisig MultisigProver Encoding.
From S2P Require Import AmpdStream AmpdEvm AmpdChains.

Module solana.
Import voting events handlers voting_handler.

(** ** Transactions *)

Record CompiledInstruction := mkInstruction { program_id_index : Z; data : string }.
Inductive UiInstruction := Compiled (ci : CompiledInstruction) | Parsed.
Record UiInnerInstructions := mkInner { index : Z; instructions : list UiInstruction }.

(** What the RPC returns: the metadata, and the account keys of a raw message. *)
Record UiMeta := mkMeta { meta_err : option string; meta_inner : option (list UiInnerInstructions) }.
Record RpcTransaction := mkRpc { meta : option UiMeta; raw_account_keys : option (list string) }.

Record SolanaTransaction := mkSolanaTx {
  signature : string;
  inner_instructions : list UiInnerInstructions;
  err : option string;
  account_keys : list string
}.

(** ** Events and verifier sets of the gateway's crates *)

Record CallContractEvent := mkCall {
  sender : string;
  call_payload_hash : string;
  call_destination_chain : string;
  destination_contract_address : string
}.
Inductive GatewayEvent :=
  | CallContract (e : CallContractEvent)
  | VerifierSetRotated (verifier_set_hash : string).

Inductive PublicKey := Secp256k1 (k : string) | Ed25519 (k : string).
#[global] Instance PublicKey_eq_dec : EqDecision PublicKey.
Proof. solve_decision. Defined.
#[global] Instance PublicKey_countable : Countable PublicKey.
Proof.
  refine (inj_countable' (λ k, match k with Secp256k1 k => inl k | Ed25519 k => inr k end)
    (λ k, match k with inl k => Secp256k1 k | inr k => Ed25519 k end) _). by intros [].
Defined.
Record VerifierSet := mkSet { nonce : Z; signers : gmap PublicKey Z; quorum : Z }.

Class SolanaCodec := {
  pubkey_from_str : string → option string;
  pubkey_to_string : string → string;
  EVENT_IX_TAG_LE : string;
  CALL_CONTRACT_DISCRIMINATOR : string;
  VERIFIER_SET_ROTATED_DISCRIMINATOR : string;
  call_contract_from_slice : string → option CallContractEvent;
  verifier_set_rotated_from_slice : string → option string;
  verifier_set_hash : VerifierSet → string → option string
}.

(** The node: the transaction of a signature, and the data of the gateway's account. *)
Record RpcClient := mkClient {
  get_transaction : string → option RpcTransaction;
  gateway_domain_separator : string → option string
}.

(** The bytes from [i] to [j]. *)
Definition slice (i j : nat) (b : text) : string := String.string_of_list_ascii (take (j - i) (drop i b)).

Section verifier.
Context `{SolanaCodec} `{Base58Codec}.

(** ** The client *)

Definition tx (c : RpcClient) (sig : string) : option SolanaTransaction :=
  tx_data ← get_transaction c sig;
  meta ← meta tx_data;
  let inner_instructions := default [] (meta_inner meta) in
  let account_keys := omap pubkey_from_str (default [] (raw_account_keys tx_data)) in
  Some (mkSolanaTx sig inner_instructions (meta_err meta) account_keys).

Definition domain_separator (c : RpcClient) (gateway_address : string) : option string :=
  gateway_domain_separator c gateway_address.

(** ** Verification *)

Definition is_instruction_from_gateway_program (instruction : CompiledInstruction)
    (account_keys : list string) (gateway_address : string) : bool :=
  match account_keys !! Z.to_nat (program_id_index instruction) with
  | Some program_id => bool_decide (program_id = gateway_address)
  | None => false
  end.

Definition instruction_at_index (t : SolanaTransaction) (inner_ix_group_index inner_ix_index : Z)
    : option CompiledInstruction :=
  '(_, inner_group) ← list_find (λ group, index group = saturating_sub inner_ix_group_index 1)
                        (inner_instructions t);
  inner_instruction ← instructions inner_group !! Z.to_nat (saturating_sub inner_ix_index 1);
  match inner_instruction with Compiled ci => Some ci | Parsed => None end.

Definition parse_gateway_event_from_instruction (instruction : CompiledInstruction)
    : option GatewayEvent :=
  bytes ← bs58_decode (text_of (data instruction));
  if bool_decide (length bytes < 16)%nat then None
  else if bool_decide (slice 0 8 bytes ≠ EVENT_IX_TAG_LE) then None
  else
    let event_data := String.string_of_list_ascii (drop 16 bytes) in
    let disc := slice 8 16 bytes in
    if bool_decide (disc = CALL_CONTRACT_DISCRIMINATOR)
    then CallContract <$> call_contract_from_slice event_data
    else if bool_decide (disc = VERIFIER_SET_ROTATED_DISCRIMINATOR)
    then VerifierSetRotated <$> verifier_set_rotated_from_slice event_data
    else None.

Definition verify (t : SolanaTransaction) (message_id : msg_id.Base58Solana_id)
    (gateway_address : string) (events_are_equal : GatewayEvent → bool) : Vote :=
  if bool_decide (signature t ≠ h256 (msg_id.raw_signature message_id)) then VoteNotFound
  else if bool_decide (is_Some (err t)) then FailedOnChain
  else
    match instruction_at_index t (msg_id.inner_ix_group_index message_id)
            (msg_id.inner_ix_index message_id) with
    | None => VoteNotFound
    | Some instruction =>
        if negb (is_instruction_from_gateway_program instruction (account_keys t) gateway_address)
        then VoteNotFound
        else
          match parse_gateway_event_from_instruction instruction with
          | None => VoteNotFound
          | Some event => if events_are_equal event then SucceededOnChain else VoteNotFound
          end
    end.

Record Message := mkMessage {
  message_id : msg_id.Base58Solana_id;
  destination_address : string;
  destination_chain : string;
  source_address : string;
  payload_hash : string
}.
Record VerifierSetConfirmation := mkConfirmation {
  vs_message_id : msg_id.Base58Solana_id;
  verifier_set : verifier_set.VerifierSet
}.

Definition message_eq (m : Message) (e : GatewayEvent) : bool :=
  match e with
  | CallContract e =>
      match chain.from_str (call_destination_chain e) with
      | Ok c =>
          bool_decide (source_address m = sender e) &&
          bool_decide (payload_hash m = call_payload_hash e) &&
          bool_decide (destination_chain m = c) &&
          bool_decide (destination_address m = destination_contract_address e)
      | _ => false
      end
  | _ => false
  end.

Definition verify_message (t : SolanaTransaction) (m : Message) (gateway_address : string) : Vote :=
  verify t (message_id m) gateway_address (message_eq m).

Definition to_pub_key (pk : key.PublicKey) : option PublicKey :=
  match pk with
  | key.PkEcdsa hb => if bool_decide (String.length hb = 33%nat) then Some (Secp256k1 hb) else None
  | key.PkEd25519 hb => if bool_decide (String.length hb = 32%nat) then Some (Ed25519 hb) else None
  end.

Definition to_verifier_set (vs : verifier_set.VerifierSet) : option VerifierSet :=
  signers ← foldl (λ acc '(_, s),
    signers ← acc;
    pub_key ← to_pub_key (verifier_set.pub_key s);
    Some (<[pub_key := verifier_set.weight s]> signers)) (Some ∅) (entries (verifier_set.signers vs));
  Some (mkSet (verifier_set.created_at vs) signers (verifier_set.threshold vs)).

Definition confirmation_eq (c : VerifierSetConfirmation) (domain_separator : string)
    (e : GatewayEvent) : bool :=
  match e with
  | VerifierSetRotated incoming =>
      match to_verifier_set (verifier_set c) ≫= λ vs, verifier_set_hash vs domain_separator with
      | Some desired_hash => bool_decide (desired_hash = incoming)
      | None => false
      end
  | _ => false
  end.

Definition verify_verifier_set (t : SolanaTransaction) (c : VerifierSetConfirmation)
    (domain_separator gateway_address : string) : Vote :=
  verify t (vs_message_id c) gateway_address (confirmation_eq c domain_separator).

End verifier.

(** ** The handlers *)

Record Handler := mkHandler {
  chain_name : string;
  verifier : Addr;
  voting_verifier_contract : Addr;
  gateway_address : string;
  solana_gateway_domain_separator : string
}.

Section handle.
Context `{SolanaCodec} `{Base58Codec} `{Json}.

(** The handler of messages has no domain separator. *)
Definition new_messages (chain_name : string) (verifier voting_verifier_contract : Addr)
    (gateway_address : string) : result Error Handler :=
  gateway_address ← ok_or handlers.PublicKey (pubkey_from_str gateway_address);
  Ok (mkHandler chain_name verifier voting_verifier_contract gateway_address "").

Definition new_verifier_set (chain_name : string) (verifier voting_verifier_contract : Addr)
    (c : RpcClient) (gateway_address : string) : result Error Handler :=
  gateway_address ← ok_or handlers.PublicKey (pubkey_from_str gateway_address);
  domain_separator ← ok_or FetchSolanaAccount (domain_separator c gateway_address);
  Ok (mkHandler chain_name verifier voting_verifier_contract gateway_address domain_separator).

Definition fetch_message (c : RpcClient) (id : msg_id.Base58Solana_id) : option SolanaTransaction :=
  tx c (h256 (msg_id.raw_signature id)).

(** The polls that a handler does not vote in. *)
Definition skips {C} (self : Handler) (latest_block_height : Z) (ev : evm.PollStartedEvent C) : bool :=
  bool_decide (evm.source_chain ev ≠ chain_name self) ||
  bool_decide (evm.source_gateway_address ev ≠ pubkey_to_string (gateway_address self)) ||
  absent_or_expired (verifier self) latest_block_height ev.

Definition handle_messages
    (deserialize : gmap string Value → option (evm.PollStartedEvent (list Message)))
    (self : Handler) (c : RpcClient) (latest_block_height : Z) (e : events.Event)
    : result Error (list Msg) :=
  vote_in_poll "wasm-messages_poll_started" deserialize (verifier self)
    (voting_verifier_contract self) (skips self latest_block_height)
    (λ ev,
       let messages := evm.poll_content ev in
       let finalized_tx_receipts := collect (omap (λ m,
         (λ t, (h256 (msg_id.raw_signature (message_id m)), t)) <$> fetch_message c (message_id m))
         messages) in
       cast_votes (λ m, finalized_tx_receipts !! h256 (msg_id.raw_signature (message_id m)))
         (λ t m, Ok (verify_message t m (gateway_address self))) messages) e.

Definition handle_verifier_set
    (deserialize : gmap string Value → option (evm.PollStartedEvent VerifierSetConfirmation))
    (self : Handler) (c : RpcClient) (latest_block_height : Z) (e : events.Event)
    : result Error (list Msg) :=
  vote_in_poll "wasm-verifier_set_poll_started" deserialize (verifier self)
    (voting_verifier_contract self) (skips self latest_block_height)
    (λ ev,
       let tx_receipt := fetch_message c (vs_message_id (evm.poll_content ev)) in
       cast_votes (λ _, tx_receipt)
         (λ t s, Ok (verify_verifier_set t s (solana_gateway_domain_separator self)
                       (gateway_address self))) [evm.poll_content ev]) e.

(** ** What the votes say *)

(** The transaction that the node has, and what it says of its outcome. *)
Definition executed (c : RpcClient) (id : msg_id.Base58Solana_id) (r : RpcTransaction) (mt : UiMeta)
    : Prop :=
  get_transaction c (h256 (msg_id.raw_signature id)) = Some r ∧ meta r = Some mt.

(** The inner instruction that an identifier points to: both of its indices count from one. *)
Definition points_to (mt : UiMeta) (id : msg_id.Base58Solana_id) (ci : CompiledInstruction) : Prop :=
  ∃ inner before group after (k : nat),
    meta_inner mt = Some inner ∧ inner = before ++ group :: after ∧
    index group + 1 = msg_id.inner_ix_group_index id ∧
    Forall (λ g, index g + 1 ≠ msg_id.inner_ix_group_index id) before ∧
    Z.of_nat k + 1 = msg_id.inner_ix_index id ∧ instructions group !! k = Some (Compiled ci).

(** An event of the gateway's program: its data are the tag of an event, the discriminator and
    the event. *)
Definition carries (ci : CompiledInstruction) (event : GatewayEvent) : Prop :=
  ∃ tag disc body, bs58_decode (text_of (data ci)) = Some (tag ++ disc ++ body) ∧
    length tag = 8%nat ∧ length disc = 8%nat ∧ h256 tag = EVENT_IX_TAG_LE ∧
    match event with
    | CallContract e =>
        h256 disc = CALL_CONTRACT_DISCRIMINATOR ∧ call_contract_from_slice (h256 body) = Some e
    | VerifierSetRotated hash =>
        h256 disc ≠ CALL_CONTRACT_DISCRIMINATOR ∧ h256 disc = VERIFIER_SET_ROTATED_DISCRIMINATOR ∧
        verifier_set_rotated_from_slice (h256 body) = Some hash
    end.

Definition emits (c : RpcClient) (gateway : string) (id : msg_id.Base58Solana_id)
    (content : GatewayEvent → Prop) : Prop :=
  ∃ r mt ci event, executed c id r mt ∧ meta_err mt = None ∧ points_to mt id ci ∧
    omap pubkey_from_str (default [] (raw_account_keys r)) !! Z.to_nat (program_id_index ci) =
      Some gateway ∧
    carries ci event ∧ content event.

Definition fails (c : RpcClient) (id : msg_id.Base58Solana_id) : Prop :=
  ∃ r mt, executed c id r mt ∧ is_Some (meta_err mt).

Definition calls (m : Message) (e : GatewayEvent) : Prop :=
  ∃ dest_chain,
    e = CallContract (mkCall (source_address m) (payload_hash m) dest_chain (destination_address m)) ∧
    chain.from_str dest_chain = Ok (destination_chain m).

Definition rotates (separator : string) (s : VerifierSetConfirmation) (e : GatewayEvent) : Prop :=
  ∃ vs hash, to_verifier_set (verifier_set s) = Some vs ∧
    verifier_set_hash vs separator = Some hash ∧ e = VerifierSetRotated hash.

Definition id_wf (id : msg_id.Base58Solana_id) : Prop :=
  1 ≤ msg_id.inner_ix_group_index id ∧ 1 ≤ msg_id.inner_ix_index id.

Lemma solana_message_eq_calls m e : message_eq m e = true ↔ calls m e.
Proof.
  unfold message_eq, calls. destruct e as [[s h d a]|hash]; cbn.
  - destruct (chain.from_str d) as [ch|err|] eqn:Hd.
    + rewrite !andb_true_iff, !bool_decide_eq_true. split.
      * intros [[[-> ->] ->] ->]. eauto.
      * intros (d' & [= -> -> -> ->] & Hd'). split_and!; congruence.
    + split; [done|]. intros (d' & [= -> -> -> ->] & Hd'). congruence.
    + split; [done|]. intros (d' & [= -> -> -> ->] & Hd'). congruence.
  - split; [done|]. by intros (? & ? & _).
Qed.

Lemma solana_confirmation_eq_rotates separator s e :
  confirmation_eq s separator e = true ↔ rotates separator s e.
Proof.
  unfold confirmation_eq, rotates. destruct e as [ev|hash].
  { split; [done|]. by intros (? & ? & _ & _ & ?). }
  destruct (to_verifier_set (verifier_set s)) as [vs|]; cbn.
  - destruct (verifier_set_hash vs separator) as [h|] eqn:Hh.
    + rewrite bool_decide_eq_true. split; [intros ->; eauto|].
      intros (? & ? & [= <-] & Hh' & [= ->]). congruence.
    + split; [done|]. intros (? & ? & [= <-] & Hh' & _). congruence.
  - split; [done|]. by intros (? & ? & ? & _).
Qed.

(** The data of an event, cut in three. *)
Lemma event_slices (bytes : text) :
  (16 ≤ length bytes)%nat →
  bytes = take 8 bytes ++ take 8 (drop 8 bytes) ++ drop 16 bytes ∧
  length (take 8 bytes) = 8%nat ∧ length (take 8 (drop 8 bytes)) = 8%nat.
Proof.
  intros Hl. rewrite !length_take, length_drop. split; [|lia].
  rewrite <-(drop_drop _ 8 8), take_drop. by rewrite take_drop.
Qed.

Lemma parse_event_carries ci event :
  parse_gateway_event_from_instruction ci = Some event ↔ carries ci event.
Proof.
  unfold parse_gateway_event_from_instruction, carries, slice.
  destruct (bs58_decode _) as [bytes|]; cbn -[take drop];
    [|split; [done|by intros (? & ? & ? & ? & _)]].
  change (@String.string_of_list_ascii) with (@h256). rewrite drop_0. split.
  - case_bool_decide as Hl; [done|]. case_bool_decide as Ht; [done|].
    destruct (event_slices bytes) as (Hb & H8 & H8'); [lia|]. intros He.
    exists (take 8 bytes), (take 8 (drop 8 bytes)), (drop 16 bytes).
    split; [by f_equal|]. do 3 (split; [done|]).
    case_bool_decide as Hc; [by apply fmap_Some in He as (e & He & ->)|].
    case_bool_decide as Hr; [|done]. by apply fmap_Some in He as (e & He & ->).
  - intros (tag & disc & body & [= ->] & Ht & Hd & Htag & He).
    rewrite bool_decide_false by (rewrite !length_app; lia).
    rewrite (take_app_length' tag), (drop_app_length' tag), (take_app_length' disc) by done.
    rewrite (app_assoc tag disc body), (drop_app_length' (tag ++ disc)) by (rewrite length_app; lia).
    rewrite bool_decide_false by (by intros []). destruct event as [e|hash].
    + destruct He as [Hc He]. rewrite bool_decide_true by done. by rewrite He.
    + destruct He as (Hn & Hr & He). rewrite bool_decide_false, bool_decide_true by done. by rewrite He.
Qed.
Lemma instruction_points_to sig keys mt id ci :
  id_wf id →
  instruction_at_index (mkSolanaTx sig (default [] (meta_inner mt)) (meta_err mt) keys)
    (msg_id.inner_ix_group_index id) (msg_id.inner_ix_index id) = Some ci ↔ points_to mt id ci.
Proof.
  intros [Hg Hi]. unfold instruction_at_index, points_to, saturating_sub; cbn.
  set (P := λ g, index g = Z.max (msg_id.inner_ix_group_index id - 1) 0). split.
  - destruct (list_find _ _) as [[n group]|] eqn:Hf; cbn; [|done]. intros Hci.
    destruct (instructions group !! _) as [[ci'|]|] eqn:Hk; [|done..]. injection Hci as ->.
    apply (f_equal (fmap snd)) in Hf. apply (find_first P) in Hf as (before & after & Hl & HP & Hb).
    destruct (meta_inner mt) as [inner|]; [|by destruct before]. cbn in Hl.
    exists inner, before, group, after, (Z.to_nat (Z.max (msg_id.inner_ix_index id - 1) 0)).
    do 2 (split; [done|]). subst P; cbn in *. split_and!; [lia| |lia|done].
    eapply Forall_impl; [exact Hb|]. cbn. lia.
  - intros (inner & before & group & after & k & -> & -> & Hgi & Hb & Hk & Hci). cbn.
    assert (snd <$> list_find P (before ++ group :: after) = Some group) as Hf.
    { apply (find_first P). exists before, after. subst P; cbn. split_and!; [done|lia|].
      eapply Forall_impl; [exact Hb|]. cbn. lia. }
    apply fmap_Some in Hf as ([n g] & Hf & ->). subst P. rewrite Hf; cbn in *.
    by replace (Z.to_nat _) with k by lia; rewrite Hci.
Qed.

(** What the node reports decides the vote. *)
Lemma solana_verify_emits c gateway id eq_event content t :
  id_wf id → (∀ e, eq_event e = true ↔ content e) → fetch_message c id = Some t →
  match verify t id gateway eq_event with
  | SucceededOnChain => emits c gateway id content
  | FailedOnChain => fails c id
  | VoteNotFound => ¬ emits c gateway id content ∧ ¬ fails c id
  end.
Proof.
  intros Hwf Heq Ht. unfold fetch_message, tx in Ht.
  apply bind_Some in Ht as (r & Hr & (mt & Hmt & [= <-])%bind_Some). unfold verify; cbn [signature err].
  rewrite bool_decide_false by (by intros []).
  assert (∀ r' mt', executed c id r' mt' → r' = r ∧ mt' = mt) as Hex.
  { intros r' mt' [Hr' Hmt']. rewrite Hr in Hr'. injection Hr' as <-. rewrite Hmt in Hmt'. by injection Hmt'. }
  case_bool_decide as Herr; [by exists r, mt|]. apply eq_None_not_Some in Herr.
  assert (¬ fails c id) as Hnf.
  { intros (r' & mt' & [-> ->]%Hex & [x Hx]). congruence. }
  set (t := mkSolanaTx _ _ _ _).
  pose proof (λ ci, instruction_points_to (signature t) (account_keys t) mt id ci Hwf) as Hpi.
  change (mkSolanaTx (signature t) _ _ (account_keys t)) with t in Hpi.
  destruct (instruction_at_index t _ _) as [ci|] eqn:Hci.
  2: { split; [|done]. by intros (r' & mt' & ci & ev & [-> ->]%Hex & _ & Hp%Hpi & _). }
  assert (∀ ci', points_to mt id ci' → ci' = ci) as Hpt by (by intros ci' [= ->]%Hpi).
  pose proof (proj1 (Hpi ci) eq_refl) as Hp.
  unfold is_instruction_from_gateway_program. cbn [account_keys t].
  destruct (omap _ _ !! _) as [prog|] eqn:Hk; cbn.
  2: { split; [|done]. intros (r' & mt' & ci' & ev & [-> ->]%Hex & _ & ->%Hpt & Hk' & _). congruence. }
  case_bool_decide as Hg; cbn.
  2: { split; [|done]. intros (r' & mt' & ci' & ev & [-> ->]%Hex & _ & ->%Hpt & Hk' & _). congruence. }
  destruct (parse_gateway_event_from_instruction ci) as [event|] eqn:Hev.
  2: { split; [|done]. intros (r' & mt' & ci' & ev & [-> ->]%Hex & _ & ->%Hpt & _ & Hc & _).
       apply parse_event_carries in Hc. congruence. }
  destruct (eq_event event) eqn:He.
  - subst prog. exists r, mt, ci, event. apply parse_event_carries in Hev. apply Heq in He. done.
  - split; [|done]. intros (r' & mt' & ci' & ev & [-> ->]%Hex & _ & ->%Hpt & _ & Hc & Hcon).
    apply parse_event_carries in Hc. apply Heq in Hcon. congruence.
Qed.

Lemma fetch_None c gateway id content :
  fetch_message c id = None → ¬ emits c gateway id content ∧ ¬ fails c id.
Proof.
  unfold fetch_message, tx. intros Hn.
  assert (∀ r mt, ¬ executed c id r mt) as Hx.
  { intros r mt [Hr Hmt]. rewrite Hr in Hn; cbn in Hn. by rewrite Hmt in Hn. }
  split; [intros (? & ? & ? & ? & ? & _)|intros (? & ? & ? & _)]; by eapply Hx.
Qed.

Lemma skips_spec {C} self height (ev : evm.PollStartedEvent C) :
  skips self height ev = false ↔
  evm.source_chain ev = chain_name self ∧
  evm.source_gateway_address ev = pubkey_to_string (gateway_address self) ∧
  verifier self ∈ evm.participants ev ∧ height < evm.expires_at ev.
Proof.
  unfold skips. rewrite !orb_false_iff, absent_or_expired_spec, !bool_decide_eq_false.
  split.
  - by intros [[E1%dec_stable E2%dec_stable] E3].
  - intros (E1 & E2 & E3). split; [|done]. by split; intros [].
Qed.

(** The transactions of a poll, by their signatures. *)
Lemma fetched c (messages : list Message) m :
  m ∈ messages →
  collect (omap (λ m, (λ t, (h256 (msg_id.raw_signature (message_id m)), t)) <$>
    fetch_message c (message_id m)) messages) !! h256 (msg_id.raw_signature (message_id m)) =
  fetch_message c (message_id m).
Proof.
  intros Hm. unfold collect, fetch_message.
  set (key := λ m, h256 (msg_id.raw_signature (message_id m))). set (l := omap _ _).
  assert (∀ k t, (k, t) ∈ l → tx c k = Some t) as Hl.
  { intros k t (x & Hx & (y & Hy & [= -> ->])%fmap_Some)%list_elem_of_omap. done. }
  change (h256 _) with (key m). destruct (tx c (key m)) as [t|] eqn:Ht.
  - apply elem_of_list_to_map_1'.
    + intros t' Ht'%elem_of_reverse%Hl. congruence.
    + apply elem_of_reverse, list_elem_of_omap. exists m. split; [done|]. subst key; cbn in *. by rewrite Ht.
  - apply not_elem_of_list_to_map_1. intros ([k t] & Hk & Hin%elem_of_reverse%Hl)%list_elem_of_fmap.
    cbn in Hk. subst k. congruence.
Qed.

(** A poll for a handler of its chain and its gateway. *)
Definition poll_of {C} (event_type : string)
    (deserialize : gmap string Value → option (evm.PollStartedEvent C)) (self : Handler) (height : Z)
    (e : events.Event) (ev : evm.PollStartedEvent C) : Prop :=
  is_from_contract e (voting_verifier_contract self) = true ∧
  try_into event_type deserialize e = Ok ev ∧
  evm.source_chain ev = chain_name self ∧
  evm.source_gateway_address ev = pubkey_to_string (gateway_address self) ∧
  verifier self ∈ evm.participants ev ∧ height < evm.expires_at ev.

(** C27: On Solana, a verifier votes for exactly what its node shows, in the polls of its own chain and
    gateway only. An item succeeded when its transaction executed without an
    error and the inner instruction that its identifier points to is an event of the gateway's
    program: for a message a call with exactly its sender, destination and payload, for a verifier
    set the rotation to the hash of the set; it failed when the transaction did, and is not found
    otherwise. *)
Theorem solana_votes_exact des_messages des_set (self : Handler) (c : RpcClient) (height : Z)
    (e : events.Event) :
  (∀ a ev, des_messages a = Some ev → Forall (λ m, id_wf (message_id m)) (evm.poll_content ev)) →
  (∀ a ev, des_set a = Some ev → id_wf (vs_message_id (evm.poll_content ev))) →
  (∀ msgs, handle_messages des_messages self c height e = Ok msgs →
   votes_exact (poll_of "wasm-messages_poll_started" des_messages self height e) (λ ms, ms)
     (λ _ m, emits c (gateway_address self) (message_id m) (calls m)) (λ _ m, fails c (message_id m))
     (verifier self) (voting_verifier_contract self) msgs) ∧
  (∀ msgs, handle_verifier_set des_set self c height e = Ok msgs →
   votes_exact (poll_of "wasm-verifier_set_poll_started" des_set self height e) (λ s, [s])
     (λ _ s, emits c (gateway_address self) (vs_message_id s)
               (rotates (solana_gateway_domain_separator self) s))
     (λ _ s, fails c (vs_message_id s)) (verifier self) (voting_verifier_contract self) msgs).
Proof.
  intros Hwm Hws.
  split; intros msgs Hf; (eapply vote_in_poll_exact_for; [exact Hf|apply skips_spec|]);
    intros a ev vs Hdes Hvs; cbn beta zeta in Hvs.
  - eapply cast_votes_exact; [exact Hvs|..]; intros m; [intros t v Hm Ht [= <-]|intros Hm Ht];
      cbn beta in Ht; rewrite fetched in Ht by done.
    + exact (solana_verify_emits _ _ _ _ _ _ (proj1 (Forall_forall _ _) (Hwm _ _ Hdes) m Hm)
        (solana_message_eq_calls m) Ht).
    + by apply fetch_None.
  - eapply cast_votes_exact; [exact Hvs|..]; intros s;
      [intros t v ->%list_elem_of_singleton Ht [= <-]|intros ->%list_elem_of_singleton Ht].
    + exact (solana_verify_emits _ _ _ _ _ _ (Hws _ _ Hdes) (solana_confirmation_eq_rotates _ _) Ht).
    + by apply fetch_None.
Qed.

End handle.
End solana.

(** ** A concrete run *)
Module solana_run.
Import voting events handlers voting_handler solana.

#[local] Existing Instances ampd_stream_run.run_json codecs.base58_codec.

(** Events are their fields behind a discriminator. *)
#[local] Instance run_codec : SolanaCodec := {|
  pubkey_from_str := Some;
  pubkey_to_string := id;
  EVENT_IX_TAG_LE := "tagtagta";
  CALL_CONTRACT_DISCRIMINATOR := "callcall";
  VERIFIER_SET_ROTATED_DISCRIMINATOR := "rotation";
  call_contract_from_slice s :=
    if bool_decide (s = "body") then Some (mkCall "sender" "hash" "Ethereum" "0xb") else None;
  verifier_set_rotated_from_slice := Some;
  verifier_set_hash vs separator := Some (separator +:+ "/" +:+ uint_to_string (quorum vs))
|}.

Definition run_data (b : string) : string := String.string_of_list_ascii (bs58_encode (text_of b)).
Definition run_id (c : ascii) (g i : Z) : msg_id.Base58Solana_id := msg_id.mkSolana (replicate 64 c) g i.

(** Transaction [a] calls and rotates in its second instruction, [b] failed. *)
Definition run_inner : list UiInnerInstructions :=
  [mkInner 0 [Parsed];
   mkInner 1 [Compiled (mkInstruction 1 (run_data "tagtagtacallcallbody"));
              Compiled (mkInstruction 1 (run_data "tagtagtarotationseparator/4"));
              Compiled (mkInstruction 0 (run_data "tagtagtacallcallbody"))]].
Definition run_rpc (err : option string) : RpcTransaction :=
  mkRpc (Some (mkMeta err (Some run_inner))) (Some ["other"; "gateway"]).
Definition run_client : RpcClient :=
  mkClient (λ sig, if bool_decide (sig = h256 (replicate 64 "a"%char)) then Some (run_rpc None)
                   else if bool_decide (sig = h256 (replicate 64 "b"%char)) then Some (run_rpc (Some "failed"))
                   else None)
    (λ _, Some "separator").

Definition run_handler : Handler := mkHandler "solana" "alice" "verifier" "gateway" "separator".
Definition run_poll {C} (content : C) : evm.PollStartedEvent C :=
  evm.mkPollStarted 5 "solana" "gateway" 10 20 content ["bob"; "alice"].
Definition run_event (t : string) : events.Event := Abci t {["_contract_address" := "verifier"]}.
Definition run_message (id : msg_id.Base58Solana_id) : Message :=
  mkMessage id "0xb" "ethereum" "sender" "hash".
Definition run_messages : list Message :=
  run_message <$> [run_id "a"%char 2 1; run_id "a"%char 2 2; run_id "a"%char 2 3; run_id "b"%char 2 1; run_id "c"%char 2 1].
Definition run_votes : list Vote :=
  [SucceededOnChain; VoteNotFound; VoteNotFound; FailedOnChain; VoteNotFound].
Definition run_confirmation : VerifierSetConfirmation :=
  mkConfirmation (run_id "a"%char 2 2) (verifier_set.mkVerifierSet ∅ 4 10).

Lemma solana_votes_exact_witness :
  Forall2 (vote_is (λ m, emits run_client "gateway" (message_id m) (calls m)) (λ m, fails run_client (message_id m)))
    run_messages run_votes ∧
  emits run_client "gateway" (run_id "a"%char 2 2) (rotates "separator" run_confirmation).
Proof.
  destruct (solana_votes_exact (λ _, Some (run_poll run_messages)) (λ _, Some (run_poll run_confirmation))
    run_handler run_client 7 (run_event "wasm-messages_poll_started")) as [Hm _].
  { intros a ev [= <-]. repeat constructor; vm_compute; discriminate. }
  { intros a ev [= <-]. split; vm_compute; discriminate. }
  destruct (solana_votes_exact (λ _, Some (run_poll run_messages)) (λ _, Some (run_poll run_confirmation))
    run_handler run_client 7 (run_event "wasm-verifier_set_poll_started")) as [_ Hs].
  { intros a ev [= <-]. repeat constructor; vm_compute; discriminate. }
  { intros a ev [= <-]. split; vm_compute; discriminate. }
  split.
  - destruct (Hm [VoteMsg "alice" "verifier" 5 run_votes]) as [[[=] _]|(ev & votes & (_ & [= <-] & _) & Heq & Hv)].
    { vm_compute. reflexivity. }
    injection Heq as <-. exact Hv.
  - destruct (Hs [VoteMsg "alice" "verifier" 5 [SucceededOnChain]]) as [[[=] _]|(ev & votes & (_ & [= <-] & _) & Heq & Hv)].
    { vm_compute. reflexivity. }
    injection Heq as <-. apply Forall2_cons in Hv as [Hv _]. exact Hv.
Defined.

End solana_run.
