(* ===== verification/AmpdStarknet.v ===== *)
(** * How a verifier votes on Starknet

    The events of the gateway on Starknet ([types/starknet/byte_array.rs],
    [types/starknet/events/contract_call.rs], [types/starknet/events/signers_rotated.rs]), the
    client ([starknet/json_rpc.rs]), the verification ([starknet/verifier.rs]) and the handlers
    ([handlers/starknet_verify_msg.rs], [handlers/starknet_verify_verifier_set.rs]).

    A field element is its value. Its formats and the parser of Cairo's short strings are the
    interface [FeltOps]; [FeltLaws] is what their documentation says of them. *)

From Stdlib Require Import Ascii.
From S2P Require Import Prelude Std Voting MsgId RouterApi Multisig MultisigProver Encoding.
From S2P Require Import AmpdStream AmpdEvm AmpdChains.

Module starknet.
Import voting events handlers voting_handler.

(** The order of the field. *)
Definition FELT_PRIME : Z := 2 ^ 251 + 17 * 2 ^ 192 + 1.
Definition is_felt (f : Z) : Prop := 0 ≤ f < FELT_PRIME.

Class FeltOps := {
  felt_to_hex_string : Z → text;
  felt_to_bytes_be : Z → text;
  felt_to_string : Z → text;
  felt_to_u8 : Z → option Z;
  parse_cairo_short_string : Z → option text
}.

(** ** Byte arrays ([byte_array.rs]) *)

Record ByteArray := mkByteArray {
  words : list Z;
  pending_word : Z;
  pending_word_length : Z
}.

Inductive ByteArrayError :=
  | OutOfBound
  | InvalidByteArray (reason : string)
  | ParsingFelt
  | ToString.

(** [fold_while] from 32: one less for every leading zero. *)
Fixpoint count_nonzero (acc : Z) (bytes : text) : Z :=
  match bytes with
  | [] => acc
  | n :: bytes => if bool_decide (code n = 0) then count_nonzero (saturating_sub acc 1) bytes else acc
  end.

Section events.
Context `{FeltOps} `{HexCodec}.

Definition byte_array_try_from (data : list Z) : result ByteArrayError ByteArray :=
  if bool_decide (length data < 3)%nat
  then Err (InvalidByteArray "vec should have minimum 3 elements")
  else
    first ← expect (data !! O);
    word_count ← ok_or ParsingFelt (felt_to_u8 first);
    if bool_decide ((word_count + 3) mod 256 ≠ Z.of_nat (length data))
    then Err (InvalidByteArray "pre-defined count doesn't match actual 31byte element count")
    else
      pending_word_length_felt ← ok_or OutOfBound (data !! (length data - 1)%nat);
      pending_word_length ← ok_or ParsingFelt (felt_to_u8 pending_word_length_felt);
      pending_word ← ok_or OutOfBound (data !! (length data - 2)%nat);
      if bool_decide (pending_word_length ≠ count_nonzero 32 (felt_to_bytes_be pending_word))
      then Err (InvalidByteArray "pending_word length doesn't match it's defined length")
      else
        let words :=
          if bool_decide (0 < word_count) then take (length data - 3) (drop 1 data) else [] in
        Ok (mkByteArray words pending_word pending_word_length).

Definition try_to_string (b : ByteArray) : result ByteArrayError text :=
  parts ← ok_or ToString (mapM parse_cairo_short_string (words b ++ [pending_word b]));
  Ok (concat parts).

(** ** Events ([starknet_core::types::Event]) *)

Record StarknetEvent := mkEvent { event_from_address : Z; keys : list Z; data : list Z }.

(** *** [contract_call.rs] *)

Record ContractCallEvent := mkCall {
  from_contract_addr : text;
  call_destination_address : text;
  call_destination_chain : text;
  call_source_address : Z;
  call_payload_hash : text
}.

Inductive ContractCallError :=
  | InvalidEvent (reason : string)
  | Cairo
  | TryFromConversion
  | CallOutOfBound
  | ByteArrayErr (e : ByteArrayError)
  | CallMissingPayloadData
  | CallMissingKeys.

(** A slice by an inclusive range of indices. *)
Definition get_inclusive {A} (first last : nat) (l : list A) : option (list A) :=
  if bool_decide (last < length l)%nat then Some (take (S last - first) (drop first l)) else None.

(** Two halves of 128 bits, the low one first. *)
Definition u256_bytes (lsb msb : text) : text := drop 16 msb ++ drop 16 lsb.

Definition call_try_from (event : StarknetEvent) : result ContractCallError ContractCallEvent :=
  if bool_decide (data event = []) then Err CallMissingPayloadData
  else if bool_decide (keys event = []) then Err CallMissingKeys
  else
    let from_contract_addr :=
      "0"%char :: "x"%char :: to_hex (felt_to_bytes_be (event_from_address event)) in
    chain_felt ← ok_or (InvalidEvent "destinatino chain event key missing from ContractCall event")
                   (keys event !! 1%nat);
    destination_chain ← ok_or Cairo (parse_cairo_short_string chain_felt);
    source_address ← ok_or (InvalidEvent "source address event data missing from ContractCall event")
                       (data event !! O);
    destination_address_chunks_count_felt ←
      ok_or (InvalidEvent "destination address length missing from ContractCall event")
        (data event !! 1%nat);
    da_chunks_count ← ok_or TryFromConversion (felt_to_u8 destination_address_chunks_count_felt);
    let da_elements_end_index := (Z.to_nat da_chunks_count + 3)%nat in
    elements ← ok_or CallOutOfBound (get_inclusive 1 da_elements_end_index (data event));
    destination_address_byte_array ← map_err ByteArrayErr (byte_array_try_from elements);
    destination_address ← map_err ByteArrayErr (try_to_string destination_address_byte_array);
    lsb ← ok_or (InvalidEvent "payload_hash chunk 1 out of range")
            (data event !! (da_elements_end_index + 1)%nat);
    msb ← ok_or (InvalidEvent "payload_hash chunk 2 out of range")
            (data event !! (da_elements_end_index + 2)%nat);
    Ok (mkCall from_contract_addr destination_address destination_chain source_address
          (u256_bytes (felt_to_bytes_be lsb) (felt_to_bytes_be msb))).

(** *** [signers_rotated.rs] *)

Inductive SignersRotatedErrors :=
  | MissingSignersHash
  | FailedToParsePayloadData (reason : string)
  | MissingPayloadData
  | IncorrectEpoch
  | IncorrectThreshold
  | MissingNonce
  | MissingKeys.

Record Signer := mkSigner { signer : text; weight : Z }.
Record WeightedSigners := mkWeighted { signers : list Signer; threshold : Z; nonce : text }.
Record SignersRotatedEvent := mkRotated {
  rotated_from_address : text;
  epoch : Z;
  signers_hash : text;
  rotated_signers : WeightedSigners
}.

(** [.to_string().parse()] *)
Definition parse_felt (max : Z) (f : Z) : option Z := parse_uint max (felt_to_string f).

(** The loop over the signers: [data] is indexed, out of range it panics. *)
Fixpoint signers_loop (fuel : nat) (data : list Z) (i signers_len : Z)
    : result SignersRotatedErrors (list Signer) :=
  if bool_decide (signers_len ≤ i) then Ok []
  else
    match fuel with
    | O => Panic
    | S fuel =>
        let signer_index := saturating_add u64_max (saturating_add u64_max 0 1) (saturating_mul u64_max i 2) in
        let weight_index := saturating_add u64_max signer_index 1 in
        signer ← expect (data !! Z.to_nat signer_index);
        weight_felt ← expect (data !! Z.to_nat weight_index);
        weight ← ok_or (FailedToParsePayloadData "failed to parse signer weight")
                   (parse_felt u128_max weight_felt);
        rest ← signers_loop fuel data (i + 1) signers_len;
        Ok (mkSigner (felt_to_hex_string signer) weight :: rest)
    end.

Definition rotated_try_from (event : StarknetEvent)
    : result SignersRotatedErrors SignersRotatedEvent :=
  if bool_decide (data event = []) then Err MissingPayloadData
  else if bool_decide (keys event = []) then Err MissingKeys
  else
    let from_address := felt_to_hex_string (event_from_address event) in
    epoch_felt ← ok_or IncorrectEpoch (keys event !! 2%nat);
    epoch ← ok_or IncorrectEpoch (parse_felt u64_max epoch_felt);
    hash_lsb ← ok_or MissingSignersHash (keys event !! 3%nat);
    hash_msb ← ok_or MissingSignersHash (keys event !! 4%nat);
    let signers_hash := u256_bytes (felt_to_bytes_be hash_lsb) (felt_to_bytes_be hash_msb) in
    len_felt ← expect (data event !! O);
    signers_len ← ok_or (FailedToParsePayloadData "failed to parse signers length")
                    (parse_felt u64_max len_felt);
    let signers_end_index := saturating_add u64_max 0 (saturating_mul u64_max signers_len 2) in
    buff_signers ← signers_loop (length (data event)) (data event) 0 signers_len;
    threshold_felt ← ok_or IncorrectThreshold (data event !! Z.to_nat signers_end_index);
    threshold ← ok_or IncorrectThreshold (parse_felt u128_max threshold_felt);
    lsb ← ok_or MissingNonce (data event !! (length (data event) - 2)%nat);
    msb ← ok_or MissingNonce (data event !! (length (data event) - 1)%nat);
    Ok (mkRotated from_address epoch signers_hash
          (mkWeighted buff_signers threshold (u256_bytes (felt_to_bytes_be lsb) (felt_to_bytes_be msb)))).

End events.

(** ** The client ([starknet/json_rpc.rs]) *)

Inductive ExecutionResult := Succeeded | Reverted (reason : string).
Inductive TransactionReceipt :=
  | Invoke (result : ExecutionResult) (events : list StarknetEvent)
  | OtherReceipt (result : ExecutionResult).
Definition execution_result (r : TransactionReceipt) : ExecutionResult :=
  match r with Invoke result _ | OtherReceipt result => result end.
#[global] Instance ExecutionResult_eq_dec : EqDecision ExecutionResult.
Proof. solve_decision. Defined.

(** [get_transaction_receipt] of the node. *)
Definition Node : Type := Z → option TransactionReceipt.

Section client.
Context `{FeltOps} `{HexCodec}.

(** [Result::ok], of a conversion that may panic. *)
Definition converted {E A} (r : result E A) : result Error (option A) :=
  match r with Ok a => Ok (Some a) | Err _ => Ok None | Panic => Panic end.

(** The event that an identifier points to, in a transaction that succeeded. *)
Definition invoke_event (node : Node) (id : msg_id.FieldElementAndEventIndex_id)
    : option StarknetEvent :=
  receipt ← node (msg_id.felt_tx_hash id);
  if bool_decide (execution_result receipt ≠ Succeeded) then None
  else
    match receipt with
    | Invoke _ events => events !! Z.to_nat (msg_id.felt_event_index id)
    | OtherReceipt _ => None
    end.

Definition event_by_message_id_contract_call (node : Node)
    (message_id : msg_id.FieldElementAndEventIndex_id) : result Error (option ContractCallEvent) :=
  match invoke_event node message_id with
  | Some event => converted (call_try_from event)
  | None => Ok None
  end.

Definition event_by_message_id_signers_rotated (node : Node)
    (message_id : msg_id.FieldElementAndEventIndex_id) : result Error (option SignersRotatedEvent) :=
  match invoke_event node message_id with
  | Some event => converted (rotated_try_from event)
  | None => Ok None
  end.

(** ** Verification ([starknet/verifier.rs]) *)

Record Message := mkMessage {
  message_id : msg_id.FieldElementAndEventIndex_id;
  destination_address : text;
  destination_chain : string;
  source_address : Z;
  payload_hash : text
}.
Record VerifierSetConfirmation := mkConfirmation {
  vs_message_id : msg_id.FieldElementAndEventIndex_id;
  verifier_set : verifier_set.VerifierSet
}.

Definition message_eq (e : ContractCallEvent) (m : Message) : bool :=
  let matches_destination_chain :=
    match chain.from_str (String.string_of_list_ascii (call_destination_chain e)) with
    | Ok chain => bool_decide (destination_chain m = chain)
    | _ => false
    end in
  matches_destination_chain && bool_decide (source_address m = call_source_address e) &&
  bool_decide (destination_address m = call_destination_address e) &&
  bool_decide (payload_hash m = call_payload_hash e).

Definition verify_msg (source_gateway_address : text) (starknet_event : ContractCallEvent)
    (msg : Message) : Vote :=
  if message_eq starknet_event msg &&
     bool_decide (from_contract_addr starknet_event = source_gateway_address)
  then SucceededOnChain else VoteNotFound.

Definition ecdsa_signer (s : verifier_set.Signer) : option (string * Z) :=
  match verifier_set.pub_key s with
  | key.PkEcdsa pubkey => Some (pubkey, verifier_set.weight s)
  | _ => None
  end.

Definition confirmation_eq (e : SignersRotatedEvent) (confirmation : VerifierSetConfirmation)
    : result Error bool :=
  let expected := verifier_set confirmation in
  let expected_signers := omap (λ '(_, s), ecdsa_signer s) (entries (verifier_set.signers expected)) in
  if bool_decide (expected_signers = []) then Ok false
  else
    actual_signers ← try_map (λ s,
      signer ← expect (from_hex (signer s)); Ok (h256 signer, weight s)) (signers (rotated_signers e));
    Ok (bool_decide (merge_sort signers.signer_le actual_signers =
                     merge_sort signers.signer_le expected_signers) &&
        bool_decide (threshold (rotated_signers e) = verifier_set.threshold expected) &&
        bool_decide (epoch e = verifier_set.created_at expected)).

Definition verify_verifier_set (source_gateway_address : text) (event : SignersRotatedEvent)
    (confirmation : VerifierSetConfirmation) : result Error Vote :=
  equal ← confirmation_eq event confirmation;
  Ok (if equal && bool_decide (rotated_from_address event = source_gateway_address)
      then SucceededOnChain else VoteNotFound).

(** ** The handlers *)

Record Handler := mkHandler { verifier : Addr; voting_verifier_contract : Addr }.
Record Messages := mkMessages { contract_address : Addr; messages : list Message }.

(** [Itertools::unique_by]: the first item of every key. *)
Fixpoint unique_by {A} (key : A → text) (seen : list text) (l : list A) : list A :=
  match l with
  | [] => []
  | x :: l =>
      if bool_decide (key x ∈ seen) then unique_by key seen l
      else x :: unique_by key (key x :: seen) l
  end.

End client.

Section handle.
Context `{FeltOps} `{HexCodec} `{!FeltFormat} `{Json}.

Definition vote_on_message (node : Node) (source_gateway_address : text) (msg : Message)
    : result Error Vote :=
  event ← event_by_message_id_contract_call node (message_id msg);
  Ok (match event with
      | Some event => verify_msg source_gateway_address event msg
      | None => VoteNotFound
      end).

(** The handler decodes the event before it looks at the emitting contract. *)
Definition handle_messages
    (deserialize : gmap string Value → option (evm.PollStartedEvent Messages))
    (self : Handler) (node : Node) (latest_block_height : Z) (e : events.Event)
    : result Error (list Msg) :=
  ev ← decoded (try_into "wasm-messages_poll_started" deserialize e);
  match ev with
  | None => Ok []
  | Some ev =>
      if bool_decide (voting_verifier_contract self ≠ contract_address (evm.poll_content ev)) then Ok []
      else if absent_or_expired (verifier self) latest_block_height ev then Ok []
      else
        votes ← try_map (vote_on_message node (text_of (evm.source_gateway_address ev)))
                  (unique_by (λ m, msg_id.felt_to_string (message_id m)) []
                     (messages (evm.poll_content ev)));
        Ok [VoteMsg (verifier self) (voting_verifier_contract self) (evm.poll_id ev) votes]
  end.

Definition handle_verifier_set
    (deserialize : gmap string Value → option (evm.PollStartedEvent VerifierSetConfirmation))
    (self : Handler) (node : Node) (latest_block_height : Z) (e : events.Event)
    : result Error (list Msg) :=
  vote_in_poll "wasm-verifier_set_poll_started" deserialize (verifier self)
    (voting_verifier_contract self) (absent_or_expired (verifier self) latest_block_height)
    (λ ev,
       transaction_response ←
         event_by_message_id_signers_rotated node (vs_message_id (evm.poll_content ev));
       cast_votes (λ _, transaction_response)
         (verify_verifier_set (text_of (evm.source_gateway_address ev))) [evm.poll_content ev]) e.

End handle.

(** ** What the formats of field elements are

    Numbers in base 16 without leading zeros and with the prefix [0x], 32 bytes, numbers in base
    10; a byte when it fits; and for a short string, its bytes. *)
Class FeltLaws `{FeltOps} := {
  felt_to_hex_string_spec : ∀ f, ∃ digits,
    felt_to_hex_string f = "0"%char :: "x"%char :: digits ∧ (is_felt f → length digits ≤ 63)%nat;
  felt_to_bytes_be_length : ∀ f, is_felt f → length (felt_to_bytes_be f) = 32%nat;
  felt_to_bytes_be_val : ∀ f, is_felt f → be_val (felt_to_bytes_be f) = f;
  felt_to_string_spec : ∀ f, is_felt f → felt_to_string f = print_uint f;
  felt_to_u8_spec : ∀ f, felt_to_u8 f = if bool_decide (0 ≤ f ≤ 255) then Some f else None;
  parse_short_string : ∀ l, (length l ≤ 31)%nat → Forall (λ c, 0 < code c < 128) l →
    parse_cairo_short_string (be_val l) = Some l
}.

(** ** What the events say *)
Section spec.
Context `{FeltLaws} `{HexCodec}.

(** A call, as the gateway writes it: the chain is the second key; the data are the sender, the
    destination as a byte array and the two halves of the hash. *)
Definition is_call (e : StarknetEvent) (c : ContractCallEvent) : Prop :=
  ∃ selector chain_felt keys' ws pending lo hi rest parts,
    keys e = selector :: chain_felt :: keys' ∧
    data e = call_source_address c :: Z.of_nat (length ws) :: ws ++
      pending :: count_nonzero 32 (felt_to_bytes_be pending) :: lo :: hi :: rest ∧
    (length ws ≤ 252)%nat ∧
    parse_cairo_short_string chain_felt = Some (call_destination_chain c) ∧
    mapM parse_cairo_short_string (ws ++ [pending]) = Some parts ∧
    call_destination_address c = concat parts ∧
    call_payload_hash c = u256_bytes (felt_to_bytes_be lo) (felt_to_bytes_be hi) ∧
    from_contract_addr c = "0"%char :: "x"%char :: to_hex (felt_to_bytes_be (event_from_address e)).

Lemma count_nonzero_range acc l : 0 ≤ acc → 0 ≤ count_nonzero acc l ≤ acc.
Proof.
  revert acc. induction l as [|c l IH]; intros acc Ha; cbn; [lia|]. case_bool_decide; [|lia].
  unfold saturating_sub. specialize (IH (Z.max (acc - 1) 0)). lia.
Qed.

Lemma felt_to_u8_Some f n : felt_to_u8 f = Some n ↔ f = n ∧ 0 ≤ n ≤ 255.
Proof. rewrite felt_to_u8_spec. case_bool_decide; naive_solver. Qed.

(** The elements of a byte array: its length, its words, and the rest. *)
Lemma byte_array_elements n ws pending plen :
  byte_array_try_from (n :: ws ++ [pending; plen]) =
  (word_count ← ok_or ParsingFelt (felt_to_u8 n);
   if bool_decide ((word_count + 3) mod 256 ≠ Z.of_nat (length ws + 3))
   then Err (InvalidByteArray "pre-defined count doesn't match actual 31byte element count")
   else
     pending_word_length ← ok_or ParsingFelt (felt_to_u8 plen);
     if bool_decide (pending_word_length ≠ count_nonzero 32 (felt_to_bytes_be pending))
     then Err (InvalidByteArray "pending_word length doesn't match it's defined length")
     else Ok (mkByteArray (if bool_decide (0 < word_count) then ws else []) pending pending_word_length)).
Proof.
  unfold byte_array_try_from.
  assert (length (n :: ws ++ [pending; plen]) = length ws + 3)%nat as Hl
    by (cbn; rewrite length_app; cbn; lia).
  rewrite Hl, bool_decide_false by lia.
  replace (length ws + 3 - 1)%nat with (S (length ws + 1)) by lia.
  replace (length ws + 3 - 2)%nat with (S (length ws + 0)) by lia.
  rewrite Nat.add_sub. cbn [expect lookup list_lookup drop].
  rewrite !(lookup_app_r ws) by lia.
  replace (length ws + 1 - length ws)%nat with 1%nat by lia.
  replace (length ws + 0 - length ws)%nat with 0%nat by lia.
  rewrite drop_0, take_app_length. cbn. done.
Qed.

Lemma last_two {A} (l : list A) : (2 ≤ length l)%nat → ∃ l' x y, l = l' ++ [x; y].
Proof.
  intros Hl. destruct (exists_last (l := l)) as (l1 & y & ->); [by destruct l; cbn in Hl; try lia|].
  rewrite length_app in Hl; cbn in Hl.
  destruct (exists_last (l := l1)) as (l2 & x & ->); [by destruct l1; cbn in Hl; try lia|].
  exists l2, x, y. by rewrite <-app_assoc.
Qed.

Lemma byte_array_spec l b :
  byte_array_try_from l = Ok b ↔
  l = Z.of_nat (length (words b)) :: words b ++ [pending_word b; pending_word_length b] ∧
  (length (words b) ≤ 252)%nat ∧
  pending_word_length b = count_nonzero 32 (felt_to_bytes_be (pending_word b)).
Proof.
  split.
  - intros Hb. destruct l as [|n l]; [done|].
    destruct (decide (2 ≤ length l)%nat) as [Hlen|Hlen].
    2: { unfold byte_array_try_from in Hb. rewrite bool_decide_true in Hb; [done|cbn; lia]. }
    destruct (last_two l Hlen) as (ws & p & q & ->). rewrite byte_array_elements in Hb.
    apply bind_Ok in Hb as (wc & [-> Hwc]%ok_or_Ok%felt_to_u8_Some & Hb).
    case_bool_decide as Hc; [done|].
    apply bind_Ok in Hb as (pl & [-> Hpl]%ok_or_Ok%felt_to_u8_Some & Hb).
    case_bool_decide as Hp; [done|]. injection Hb as <-. cbn.
    assert (wc = Z.of_nat (length ws)) as ->.
    { destruct (decide (wc < 253)); [rewrite Z.mod_small in Hc; lia|].
      rewrite <-(Z.mod_unique_pos (wc + 3) 256 1 (wc - 253)) in Hc; lia. }
    assert ((if bool_decide (0 < Z.of_nat (length ws)) then ws else []) = ws) as ->.
    { case_bool_decide; [done|]. by destruct ws; cbn in *; [|lia]. }
    split_and!; [done| |done]. apply Nat2Z.inj_le.
    destruct (decide (Z.of_nat (length ws) ≤ 252)); [lia|].
    rewrite <-(Z.mod_unique_pos (Z.of_nat (length ws) + 3) 256 1 (Z.of_nat (length ws) - 253)) in Hc; lia.
  - destruct b as [ws p q]; cbn. intros (-> & Hl & Hq). rewrite byte_array_elements.
    pose proof (count_nonzero_range 32 (felt_to_bytes_be p) ltac:(lia)) as Hr.
    assert (felt_to_u8 (Z.of_nat (length ws)) = Some (Z.of_nat (length ws))) as ->
      by (apply felt_to_u8_Some; lia).
    assert (felt_to_u8 q = Some q) as -> by (apply felt_to_u8_Some; lia).
    cbn [ok_or mbind result_bind]. rewrite Z.mod_small, (bool_decide_false (_ ≠ _)) by lia.
    rewrite bool_decide_false by lia. do 2 f_equal. case_bool_decide; [done|].
    by destruct ws; cbn in *; [|lia].
Qed.

Lemma call_try_from_sound e c : call_try_from e = Ok c → is_call e c.
Proof.
  unfold call_try_from. destruct e as [from ks ds]; cbn [keys data event_from_address].
  intros Hc. case_bool_decide; [done|]. case_bool_decide; [done|].
  destruct ks as [|sel [|cf ks]]; [done|done|]. cbn [lookup list_lookup ok_or] in Hc.
  destruct ds as [|src [|cnt ds]]; [done|by cbn in Hc; destruct (parse_cairo_short_string cf)|].
  cbn [lookup list_lookup ok_or] in Hc.
  apply bind_Ok in Hc as (? & [= <-] & Hc). apply bind_Ok in Hc as (ch & Hch%ok_or_Ok & Hc).
  apply bind_Ok in Hc as (? & [= <-] & Hc). apply bind_Ok in Hc as (? & [= <-] & Hc).
  apply bind_Ok in Hc as (n & [-> Hn]%ok_or_Ok%felt_to_u8_Some & Hc). cbn zeta in Hc.
  apply bind_Ok in Hc as (els & Hels%ok_or_Ok & Hc).
  apply bind_Ok in Hc as (b & (Hb & Hl & Hp)%map_err_Ok%byte_array_spec & Hc).
  apply bind_Ok in Hc as (da & Hda%map_err_Ok & Hc).
  apply bind_Ok in Hda as (parts & Hparts%ok_or_Ok & [= <-]).
  apply bind_Ok in Hc as (lo & Hlo%ok_or_Ok & Hc). apply bind_Ok in Hc as (hi & Hhi%ok_or_Ok & [= <-]).
  unfold get_inclusive in Hels. case_bool_decide; [|done]. injection Hels as Hels.
  rewrite Hb in Hels. cbn in Hels. replace (Z.to_nat n + 3 - 0)%nat with (S (Z.to_nat n + 2)) in Hels by lia.
  cbn in Hels. injection Hels as Hn' Hds.
  replace (Z.to_nat n + 3 + 1)%nat with (S (S (Z.to_nat n + 2))) in Hlo by lia.
  replace (Z.to_nat n + 3 + 2)%nat with (S (S (S (Z.to_nat n + 2)))) in Hhi by lia.
  cbn [lookup list_lookup] in Hlo, Hhi. apply drop_S in Hlo, Hhi. rewrite Hhi in Hlo.
  exists sel, cf, ks, (words b), (pending_word b), lo, hi, (drop (S (S (Z.to_nat n + 2))) ds), parts.
  cbn. rewrite <-Hp. split_and!; try done. rewrite <-Hn'. do 2 f_equal.
  rewrite <-(take_drop (Z.to_nat n + 2) ds) at 1. by rewrite Hds, Hlo, <-app_assoc.
Qed.

Lemma call_try_from_complete e c : is_call e c → call_try_from e = Ok c.
Proof.
  unfold call_try_from. destruct e as [from ks ds]; cbn [keys data event_from_address].
  intros (sel & cf & ks' & ws & p & lo & hi & rest & parts & Hks & Hds & Hl & Hch & Hparts & Hda & Hph & Hfr).
  cbn in *. subst. set (q := count_nonzero 32 _). rewrite !bool_decide_false by done.
  cbn [lookup list_lookup ok_or mbind result_bind]. rewrite Hch.
  rewrite (proj2 (felt_to_u8_Some _ (Z.of_nat (length ws)))) by lia.
  cbn [ok_or mbind result_bind]. rewrite Nat2Z.id. unfold get_inclusive.
  rewrite bool_decide_true by (cbn; rewrite length_app; cbn; lia).
  cbn [drop ok_or mbind result_bind]; rewrite ?drop_0.
  replace (S (length ws + 3) - 1)%nat with (S (length ws + 2)) by lia. cbn [take].
  replace (ws ++ p :: q :: lo :: hi :: rest) with ((ws ++ [p; q]) ++ lo :: hi :: rest)
    by (by rewrite <-app_assoc).
  assert (length (ws ++ [p; q]) = length ws + 2)%nat as Hlen by (rewrite length_app; cbn; lia).
  rewrite (take_app_length' (ws ++ [p; q])) by done.
  rewrite (proj2 (byte_array_spec _ (mkByteArray ws p q))) by done.
  unfold try_to_string. cbn [map_err mbind result_bind words pending_word]. rewrite Hparts.
  cbn [map_err ok_or mbind result_bind].
  set (els := ws ++ [p; q]) in *.
  assert (∀ i, (call_source_address c :: Z.of_nat (length ws) :: els ++ lo :: hi :: rest)
            !! (S (S (length els + i))) = (lo :: hi :: rest) !! i) as Hlk.
  { intros i. change ((els ++ lo :: hi :: rest) !! (length els + i)%nat = (lo :: hi :: rest) !! i).
    rewrite lookup_app_r by lia. f_equal. lia. }
  replace (length ws + 3 + 1)%nat with (S (S (length els + 0))) by lia.
  replace (length ws + 3 + 2)%nat with (S (S (length els + 1))) by lia. rewrite !Hlk. cbn.
  destruct c; cbn in *. by subst.
Qed.

(** The parser accepts exactly the calls. *)
Lemma call_try_from_spec e c : call_try_from e = Ok c ↔ is_call e c.
Proof. split; [apply call_try_from_sound|apply call_try_from_complete]. Qed.

(** ** Calls that the gateway writes are read back *)

Lemma be_val_snoc l c : be_val (l ++ [c]) = 256 * be_val l + code c.
Proof. unfold be_val. rewrite fmap_app. cbn. rewrite digits_val_snoc. lia. Qed.

Lemma be_val_inj l k : length l = length k → be_val l = be_val k → l = k.
Proof.
  revert k. induction l as [|c l IH] using rev_ind; intros k Hl Hv; [by destruct k|].
  destruct k as [|d k _] using rev_ind; rewrite length_app in Hl; cbn in Hl; [lia|].
  rewrite length_app in Hl; cbn in Hl. rewrite !be_val_snoc in Hv.
  pose proof (code_range c) as [? ?]. pose proof (code_range d) as [? ?].
  rewrite (IH k) by lia. do 2 f_equal. rewrite <-(byte_of_code c), <-(byte_of_code d). f_equal. lia.
Qed.

(** A string of less than 32 bytes is a field element, and its bytes are padded with zeros. *)
Lemma felt_of_bytes l :
  (length l ≤ 31)%nat → is_felt (be_val l) ∧
  felt_to_bytes_be (be_val l) = replicate (32 - length l) (byte_of 0) ++ l.
Proof.
  intros Hl. assert (is_felt (be_val l)) as Hf.
  { unfold is_felt, FELT_PRIME. pose proof (codecs.codes_digits l) as Hd. unfold be_val. split.
    - apply digits_val_nonneg; [lia|done].
    - pose proof (digits_val_bound 256 ltac:(lia) _ Hd) as Hb. rewrite length_fmap in Hb.
      assert (256 ^ Z.of_nat (length l) ≤ 256 ^ 31) by (apply Z.pow_le_mono_r; lia).
      change (256 ^ 31) with (2 ^ 248) in *. lia. }
  split; [done|]. apply be_val_inj.
  - rewrite felt_to_bytes_be_length, length_app, length_replicate by done. lia.
  - rewrite felt_to_bytes_be_val by done. unfold be_val. rewrite fmap_app, fmap_replicate.
    change (code (byte_of 0)) with 0. by rewrite digits_val_zeros.
Qed.

Lemma count_nonzero_padded acc k l :
  0 ≤ acc → Z.of_nat k ≤ acc → match l with [] => acc = Z.of_nat k | c :: _ => code c ≠ 0 end →
  count_nonzero acc (replicate k (byte_of 0) ++ l) = acc - Z.of_nat k.
Proof.
  revert acc. induction k as [|k IH]; intros acc Ha Hk Hl; cbn [replicate app count_nonzero].
  - destruct l as [|c l]; cbn; [lia|]. rewrite bool_decide_false by done. lia.
  - change (code (byte_of 0)) with 0. rewrite bool_decide_true by done. unfold saturating_sub.
    rewrite IH; [lia..|]. destruct l; [lia|done].
Qed.

(** The layout of a byte array: words of 31 bytes, and the bytes that remain. *)
Definition full_words (l : text) : list text :=
  (λ i, take 31 (drop (31 * i) l)) <$> seq 0 (length l / 31).
Definition last_bytes (l : text) : text := drop (31 * (length l / 31)) l.

Definition cairo_byte_array (l : text) : list Z :=
  Z.of_nat (length (full_words l)) :: (be_val <$> full_words l) ++
    [be_val (last_bytes l); Z.of_nat (length (last_bytes l))].

(** The event of a call. *)
Definition cairo_call (from selector source : Z) (destination_chain destination_address
    payload_hash : text) : StarknetEvent :=
  mkEvent from [selector; be_val destination_chain]
    (source :: cairo_byte_array destination_address ++
       [be_val (drop 16 payload_hash); be_val (take 16 payload_hash)]).

Definition printable (l : text) : Prop := Forall (λ c, 0 < code c < 128) l.

Lemma concat_words (l : text) k :
  concat ((λ i, take 31 (drop (31 * i) l)) <$> seq 0 k) = take (31 * k) l.
Proof.
  induction k as [|k IH]; [done|].
  rewrite seq_S, fmap_app, concat_app, IH. cbn [fmap list_fmap concat]. rewrite app_nil_r.
  rewrite take_take_drop. f_equal. lia.
Qed.

Lemma words_of l :
  concat (full_words l ++ [last_bytes l]) = l ∧
  Forall (λ w, length w ≤ 31)%nat (full_words l) ∧ (length (last_bytes l) ≤ 30)%nat ∧
  length (full_words l) = (length l / 31)%nat.
Proof.
  unfold full_words, last_bytes. rewrite concat_app, concat_words; cbn [concat].
  rewrite app_nil_r, take_drop, length_fmap, length_seq, length_drop. split_and!; [done| | |done].
  - apply Forall_fmap, Forall_forall. intros i _. cbn. rewrite length_take. lia.
  - pose proof (Nat.div_mod_eq (length l) 31). pose proof (Nat.mod_upper_bound (length l) 31). lia.
Qed.

Lemma parse_words l :
  printable l →
  mapM parse_cairo_short_string ((be_val <$> full_words l) ++ [be_val (last_bytes l)]) =
  Some (full_words l ++ [last_bytes l]).
Proof.
  intros Hl. destruct (words_of l) as (Hc & Hw & Hlast & _).
  change [be_val (last_bytes l)] with (be_val <$> [last_bytes l]). rewrite <-fmap_app.
  apply mapM_Some, Forall2_fmap_l, Forall2_same_length_lookup. split; [done|].
  intros i w w' Hi Hi'. rewrite Hi in Hi'. injection Hi' as <-. apply list_elem_of_lookup_2 in Hi.
  apply parse_short_string.
  - apply elem_of_app in Hi as [Hi| ->%list_elem_of_singleton]; [|lia].
    rewrite Forall_forall in Hw. by apply Hw.
  - unfold printable in Hl. rewrite <-Hc, Forall_concat, Forall_forall in Hl. by apply Hl.
Qed.

Lemma last_bytes_count l :
  printable l → count_nonzero 32 (felt_to_bytes_be (be_val (last_bytes l))) =
                Z.of_nat (length (last_bytes l)).
Proof.
  intros Hl. destruct (words_of l) as (_ & _ & Hlast & _).
  destruct (felt_of_bytes (last_bytes l) ltac:(lia)) as [_ ->].
  rewrite count_nonzero_padded; [lia..|].
  assert (printable (last_bytes l)) as Hp by (by apply Forall_drop).
  destruct (last_bytes l) as [|c k]; [done|]. apply Forall_cons in Hp as [Hc _]. lia.
Qed.

Lemma halves hash :
  length hash = 32%nat →
  u256_bytes (felt_to_bytes_be (be_val (drop 16 hash))) (felt_to_bytes_be (be_val (take 16 hash))) = hash.
Proof.
  intros Hh. unfold u256_bytes.
  destruct (felt_of_bytes (drop 16 hash)) as [_ ->]; [rewrite length_drop; lia|].
  destruct (felt_of_bytes (take 16 hash)) as [_ ->]; [rewrite length_take; lia|].
  rewrite length_drop, length_take, Hh. rewrite !drop_app_length' by (by rewrite length_replicate).
  apply take_drop.
Qed.

(** A call that the gateway writes is read back as it was made: its sender, its chain, its
    destination and the hash of its payload, when the texts are printable and the chain is a
    short string. The only limit is the count of words of the destination, which the parser
    adds to in eight bits: an address of 253 words (7843 bytes) or more is never accepted. *)
Theorem starknet_call_roundtrip (from selector source : Z) (chain address hash : text) :
  printable chain → (length chain ≤ 31)%nat → printable address → length hash = 32%nat →
  ((length address < 31 * 253)%nat →
   call_try_from (cairo_call from selector source chain address hash) =
   Ok (mkCall ("0"%char :: "x"%char :: to_hex (felt_to_bytes_be from)) address chain source hash)) ∧
  ((31 * 253 ≤ length address)%nat →
   ∀ c, call_try_from (cairo_call from selector source chain address hash) ≠ Ok c).
Proof.
  intros Hc Hcl Ha Hh. destruct (words_of address) as (Hcat & _ & _ & Hlen). split.
  - intros Hal. apply call_try_from_complete. unfold is_call, cairo_call, cairo_byte_array; cbn [keys data].
    eexists selector, (be_val chain), [], (be_val <$> full_words address), (be_val (last_bytes address)),
      (be_val (drop 16 hash)), (be_val (take 16 hash)), [], (full_words address ++ [last_bytes address]).
    cbn [call_source_address call_destination_chain call_destination_address call_payload_hash
      from_contract_addr event_from_address]. rewrite last_bytes_count, length_fmap, parse_words, parse_short_string, Hcat, halves by done.
    split_and!; try done; [by cbn [app]; rewrite <-app_assoc|]. rewrite Hlen.
    apply Nat.lt_succ_r, Nat.Div0.div_lt_upper_bound. lia.
  - intros Hal c (sel & cf & ks & ws & p & lo & hi & rest & parts & _ & Hd & Hl & _)%call_try_from_sound.
    cbn -[full_words last_bytes] in Hd. injection Hd as _ Hws _.
    assert (253 ≤ length address / 31)%nat by (apply Nat.div_le_lower_bound; lia). lia.
Qed.

Lemma byte_array_total l : byte_array_try_from l ≠ Panic.
Proof.
  unfold byte_array_try_from. case_bool_decide as Hl; [done|]. destruct l as [|n l]; [cbn in Hl; lia|].
  cbn [lookup list_lookup expect mbind result_bind].
  repeat (done || case_bool_decide || (destruct (felt_to_u8 _); cbn) ||
          (destruct ((_ :: _) !! _); cbn [ok_or mbind result_bind])).
Qed.

Lemma bind_total {E A B} (r : result E A) (f : A → result E B) :
  r ≠ Panic → (∀ a, f a ≠ Panic) → r ≫= f ≠ Panic.
Proof. by destruct r; cbn. Qed.
Lemma ok_or_total {E A} (e : E) (o : option A) : ok_or e o ≠ Panic.
Proof. by destruct o. Qed.

(** The parser of calls never panics. *)
Lemma call_try_from_total e : call_try_from e ≠ Panic.
Proof.
  unfold call_try_from. case_bool_decide; [done|]. case_bool_decide; [done|].
  repeat (apply bind_total; [|intros ?]); try apply ok_or_total; [..|done].
  - rewrite map_err_Panic. apply byte_array_total.
  - rewrite map_err_Panic. unfold try_to_string. apply bind_total; [apply ok_or_total|done].
Qed.

(** ** What the votes say *)

(** The node shows the call, at the place that the identifier says. *)
Definition call_happened (node : Node) (gateway : text) (m : Message) : Prop :=
  ∃ events e chain_text,
    node (msg_id.felt_tx_hash (message_id m)) = Some (Invoke Succeeded events) ∧
    events !! Z.to_nat (msg_id.felt_event_index (message_id m)) = Some e ∧
    is_call e (mkCall gateway (destination_address m) chain_text (source_address m) (payload_hash m)) ∧
    chain.from_str (String.string_of_list_ascii chain_text) = Ok (destination_chain m).

Lemma invoke_event_spec node id e :
  invoke_event node id = Some e ↔
  ∃ events, node (msg_id.felt_tx_hash id) = Some (Invoke Succeeded events) ∧
            events !! Z.to_nat (msg_id.felt_event_index id) = Some e.
Proof.
  unfold invoke_event. destruct (node _) as [[r evs|r]|]; cbn; [|case_bool_decide; naive_solver|naive_solver].
  case_bool_decide; naive_solver.
Qed.

Lemma verify_msg_spec gateway c m :
  verify_msg gateway c m = SucceededOnChain ∧
    (∃ chain_text, c = mkCall gateway (destination_address m) chain_text (source_address m) (payload_hash m) ∧
     chain.from_str (String.string_of_list_ascii chain_text) = Ok (destination_chain m)) ∨
  verify_msg gateway c m = VoteNotFound ∧
    ¬ (∃ chain_text, c = mkCall gateway (destination_address m) chain_text (source_address m) (payload_hash m) ∧
       chain.from_str (String.string_of_list_ascii chain_text) = Ok (destination_chain m)).
Proof.
  unfold verify_msg. set (P := ∃ chain_text, _).
  assert (message_eq c m && bool_decide (from_contract_addr c = gateway) = true ↔ P) as HP.
  { subst P. unfold message_eq. destruct c as [fr da dc sa ph]; cbn.
    rewrite !andb_true_iff, !bool_decide_eq_true. split.
    - intros [[[[Hd ->] ->] ->] ->]. exists dc. destruct (chain.from_str _); [|done..].
      apply bool_decide_eq_true in Hd as ->. done.
    - intros (dc' & [= -> -> -> -> ->] & ->). by rewrite bool_decide_true. }
  destruct (message_eq c m && _); [left|right]; (split; [done|]); rewrite <-HP; done.
Qed.

(** The first items of the keys: all of them, exactly when the keys are distinct. *)
Lemma unique_by_spec {A} (key : A → text) seen l :
  unique_by key seen l `sublist_of` l ∧ NoDup (key <$> unique_by key seen l) ∧
  Forall (λ x, key x ∉ seen) (unique_by key seen l) ∧
  (NoDup (key <$> l) → Forall (λ x, key x ∉ seen) l → unique_by key seen l = l).
Proof.
  revert seen. induction l as [|x l IH]; intros seen; cbn [unique_by].
  { split_and!; [done|constructor|done|done]. }
  case_bool_decide as Hx.
  - destruct (IH seen) as (Hs & Hn & Hf & _). split_and!; [by constructor|done|done|].
    intros _ Hf'. apply Forall_cons in Hf' as [Hx' _]. done.
  - destruct (IH (key x :: seen)) as (Hs & Hn & Hf & He). split_and!.
    + by constructor.
    + cbn. constructor; [|done]. intros (y & Hy & Hin)%list_elem_of_fmap.
      rewrite Forall_forall in Hf. apply (Hf y Hin). rewrite Hy. left.
    + constructor; [done|]. eapply Forall_impl; [exact Hf|]. cbn. intros y Hy Hin. apply Hy. by right.
    + intros Hnd Hf'. cbn in Hnd. apply NoDup_cons in Hnd as [Hk Hnd]. apply Forall_cons in Hf' as [_ Hf'].
      f_equal. apply He; [done|]. rewrite Forall_forall in Hf' |- *. intros y Hy [Heq|Hin]%elem_of_cons.
      * apply Hk. rewrite <-Heq. by apply list_elem_of_fmap_2.
      * by apply (Hf' y).
Qed.

Lemma sublist_full {A} (l k : list A) : l `sublist_of` k → length l = length k → l = k.
Proof.
  induction 1 as [|x l k Hs IH|x l k Hs IH]; cbn; intros Hl; [done|f_equal; auto|].
  apply sublist_length in Hs. lia.
Qed.

Lemma unique_by_length {A} (key : A → text) l :
  (length (unique_by key [] l) ≤ length l)%nat ∧
  (length (unique_by key [] l) = length l ↔ NoDup (key <$> l)).
Proof.
  destruct (unique_by_spec key [] l) as (Hs & Hn & _ & He).
  split; [by apply sublist_length|]. split.
  - intros Hl. by rewrite <-(sublist_full _ _ Hs Hl).
  - intros Hnd. rewrite He; [done..|]. apply Forall_forall. intros x _ Hx. by apply not_elem_of_nil in Hx.
Qed.
End spec.

Section votes.
Context `{FeltLaws} `{HexCodec} `{!FeltFormat} `{Json}.

Lemma starknet_vote_spec node gateway m :
  ∃ v, vote_on_message node gateway m = Ok v ∧
       vote_is (call_happened node gateway) (λ _, False) m v.
Proof.
  unfold vote_on_message, event_by_message_id_contract_call, call_happened.
  destruct (invoke_event node (message_id m)) as [e|] eqn:Hi.
  - apply invoke_event_spec in Hi as (evs & Hn & He).
    pose proof (call_try_from_total e) as Ht. pose proof (call_try_from_spec e) as Hs.
    destruct (call_try_from e) as [c|err|]; [|eexists; split; [done|]|done].
    + cbn. destruct (verify_msg_spec gateway c m) as [[-> (ct & -> & Hc)]|[-> Hc]];
        eexists; (split; [done|]); cbn.
      * exists evs, e, ct. split_and!; [done..| |done]. by apply Hs.
      * split; [|by intros []]. intros (evs' & e' & ct & Hn' & He' & Hcall & Hct). apply Hc.
        rewrite Hn in Hn'. injection Hn' as <-. rewrite He in He'. injection He' as <-.
        apply Hs in Hcall. injection Hcall as ->. eauto.
    + cbn. split; [|by intros []]. intros (evs' & e' & ct & Hn' & He' & Hcall & _).
      rewrite Hn in Hn'. injection Hn' as <-. rewrite He in He'. injection He' as <-.
      by apply Hs in Hcall.
  - eexists. split; [done|]. cbn. split; [|by intros []]. intros (evs & e & ct & Hn & He & _).
    assert (invoke_event node (message_id m) = Some e); [|congruence]. apply invoke_event_spec. eauto.
Qed.

(** A poll for the handler. *)
Definition message_poll (deserialize : gmap string Value → option (evm.PollStartedEvent Messages))
    (self : Handler) (height : Z) (e : events.Event) (ev : evm.PollStartedEvent Messages) : Prop :=
  try_into "wasm-messages_poll_started" deserialize e = Ok ev ∧
  contract_address (evm.poll_content ev) = voting_verifier_contract self ∧
  verifier self ∈ evm.participants ev ∧ height < evm.expires_at ev.

Definition id_text (m : Message) : text := msg_id.felt_to_string (message_id m).

(** On Starknet, a verifier votes in every poll of messages that it takes part in, and for exactly
    what its node shows: a message succeeded when its transaction did and the event at the given
    index is a call by the poll's gateway with exactly the message's sender, destination and
    payload; it is not found otherwise. There is one vote per identifier and not per message, so
    in a poll that repeats an identifier the contract refuses the votes for their number. *)
Theorem starknet_message_votes_exact deserialize (self : Handler) (node : Node) (height : Z)
    (e : events.Event) (ev : evm.PollStartedEvent Messages) (poll : WeightedPoll) (block : Z) :
  message_poll deserialize self height e ev →
  is_Some (participation poll !! verifier self) → block < expires_at poll →
  poll_size poll = Z.of_nat (length (messages (evm.poll_content ev))) →
  ∃ votes,
    handle_messages deserialize self node height e =
      Ok [VoteMsg (verifier self) (voting_verifier_contract self) (evm.poll_id ev) votes] ∧
    (NoDup (id_text <$> messages (evm.poll_content ev)) →
     Forall2 (vote_is (call_happened node (text_of (evm.source_gateway_address ev))) (λ _, False))
       (messages (evm.poll_content ev)) votes) ∧
    (¬ NoDup (id_text <$> messages (evm.poll_content ev)) →
     cast_vote poll block (verifier self) votes = Err InvalidVoteSize).
Proof.
  intros (Hev & Hcon & Hpart & Hexp) [pt Hpt] Hblock Hsize.
  set (gateway := text_of _). set (ms := messages _) in *. set (us := unique_by id_text [] ms).
  assert (∃ votes, try_map (vote_on_message node gateway) us = Ok votes ∧
    Forall2 (vote_is (call_happened node gateway) (λ _, False)) us votes) as (votes & Hv & Hvs).
  { generalize us. intros l. induction l as [|m l (votes & Hv & Hvs)]; [by exists []|].
    destruct (starknet_vote_spec node gateway m) as (v & Hm & Hvm). exists (v :: votes).
    split; [|by constructor]. cbn. by rewrite Hm; cbn; rewrite Hv. }
  exists votes. destruct (unique_by_spec id_text [] ms) as (_ & _ & _ & Hall).
  destruct (unique_by_length id_text ms) as [Hle Heq]. fold us in Hall, Hle, Heq. split_and!.
  - unfold handle_messages. rewrite Hev. cbn [decoded mbind result_bind].
    rewrite bool_decide_false by (by rewrite Hcon; intros []).
    rewrite (proj2 (absent_or_expired_spec _ _ _)) by done. fold ms gateway.
    change (unique_by _ [] ms) with us. by rewrite Hv.
  - intros Hnd. rewrite <-(Hall Hnd); [done|]. apply Forall_forall. intros x _ Hx. by apply not_elem_of_nil in Hx.
  - intros Hnd. unfold cast_vote. rewrite Hpt. cbn. rewrite bool_decide_false by lia.
    apply Forall2_length in Hvs. rewrite bool_decide_true; [done|]. rewrite Hsize.
    intros Hl%Nat2Z.inj. apply Hnd, Heq. lia.
Qed.

(** ** Rotations *)

Lemma signers_loop_hex fuel ds i n l :
  signers_loop fuel ds i n = Ok l → Forall (λ s, ∃ f, signer s = felt_to_hex_string f) l.
Proof.
  revert i l. induction fuel as [|fuel IH]; intros i l; cbn [signers_loop];
    (case_bool_decide; [by intros [= <-]|]); [done|]. cbn zeta. intros Hl.
  apply bind_Ok in Hl as (f & _ & Hl). apply bind_Ok in Hl as (wf & _ & Hl).
  apply bind_Ok in Hl as (w & _ & Hl). apply bind_Ok in Hl as (rest & Hrest & [= <-]).
  constructor; [by exists f|]. by eapply IH.
Qed.

(** The weight of the last signer is the element at twice the number of signers. *)
Lemma signers_loop_last fuel ds i n l :
  i < n → signers_loop fuel ds i n = Ok l →
  ∃ s f, last l = Some s ∧
    ds !! Z.to_nat (saturating_add u64_max 0 (saturating_mul u64_max n 2)) = Some f ∧
    parse_felt u128_max f = Some (weight s).
Proof.
  revert i l. induction fuel as [|fuel IH]; intros i l Hi; cbn [signers_loop];
    rewrite bool_decide_false by lia; [done|]. cbn zeta. intros Hl.
  apply bind_Ok in Hl as (f & _ & Hl). apply bind_Ok in Hl as (wf & Hwf%expect_Ok & Hl).
  apply bind_Ok in Hl as (w & Hw%ok_or_Ok & Hl). apply bind_Ok in Hl as (rest & Hrest & [= <-]).
  destruct (decide (i + 1 < n)) as [Hn|Hn].
  - destruct (IH _ _ Hn Hrest) as (s & f' & Hs & Hf' & Hp). exists s, f'. split; [|done].
    destruct rest; [done|]. by rewrite last_cons_cons.
  - assert (rest = []) as -> by (destruct fuel; cbn in Hrest;
      rewrite bool_decide_true in Hrest by lia; by injection Hrest).
    exists (mkSigner (felt_to_hex_string f) w), wf. split; [done|]. split; [|done].
    rewrite <-Hwf. do 2 f_equal. unfold saturating_add, saturating_mul, u64_max. lia.
Qed.

(** The length of the data is enough fuel: past it, an index is out of range. *)
Lemma signers_loop_fuel fuel k ds i n :
  Z.of_nat (length ds) ≤ u64_max → 0 ≤ i → Z.of_nat (length ds) ≤ i + Z.of_nat fuel →
  signers_loop (fuel + k) ds i n = signers_loop fuel ds i n.
Proof.
  intros Hds. revert i. induction fuel as [|fuel IH]; intros i Hi Hl.
  - destruct k as [|k]; [done|]. cbn. case_bool_decide; [done|].
    rewrite !(proj2 (lookup_ge_None ds _)); [reflexivity|..];
      unfold saturating_add, saturating_mul, u64_max in *; lia.
  - cbn [signers_loop Nat.add]. case_bool_decide; [done|]. cbn zeta.
    destruct (ds !! _) as [f|]; [|done]. cbn. destruct (ds !! _) as [wf|]; [|done]. cbn.
    destruct (parse_felt _ _) as [w|]; [|done]. cbn. by rewrite IH by lia.
Qed.

(** The parts of a rotation that is read. *)
Lemma rotated_try_from_spec e r :
  rotated_try_from e = Ok r →
  rotated_from_address r = felt_to_hex_string (event_from_address e) ∧
  ∃ n tf, signers_loop (length (data e)) (data e) 0 n = Ok (signers (rotated_signers r)) ∧
    data e !! Z.to_nat (saturating_add u64_max 0 (saturating_mul u64_max n 2)) = Some tf ∧
    parse_felt u128_max tf = Some (threshold (rotated_signers r)).
Proof.
  unfold rotated_try_from. case_bool_decide; [done|]. case_bool_decide; [done|]. cbn zeta. intros Hr.
  apply bind_Ok in Hr as (ef & _ & Hr). apply bind_Ok in Hr as (ep & _ & Hr).
  apply bind_Ok in Hr as (hl & _ & Hr). apply bind_Ok in Hr as (hm & _ & Hr).
  apply bind_Ok in Hr as (lf & _ & Hr). apply bind_Ok in Hr as (n & _ & Hr).
  apply bind_Ok in Hr as (ss & Hss & Hr). apply bind_Ok in Hr as (tf & Htf%ok_or_Ok & Hr).
  apply bind_Ok in Hr as (t & Ht%ok_or_Ok & Hr). apply bind_Ok in Hr as (lo & _ & Hr).
  apply bind_Ok in Hr as (hi & _ & [= <-]). split; [done|]. exists n, tf. done.
Qed.

(** What a rotation is read as is not what it says: the threshold that is read is the weight of
    the last signer, and the gateway's address has another format than in a call, so that no
    address of a gateway can be the right one for both. *)
Theorem starknet_rotation_misread (e : StarknetEvent) (r : SignersRotatedEvent) :
  is_felt (event_from_address e) → rotated_try_from e = Ok r →
  (∀ s, last (signers (rotated_signers r)) = Some s → threshold (rotated_signers r) = weight s) ∧
  (∀ e' c, is_felt (event_from_address e') → call_try_from e' = Ok c →
     from_contract_addr c ≠ rotated_from_address r).
Proof.
  intros Hf (Ha & n & tf & Hl & Htf & Ht)%rotated_try_from_spec. split.
  - intros s Hs. destruct (decide (0 < n)) as [Hn|Hn].
    + destruct (signers_loop_last _ _ _ _ _ Hn Hl) as (s' & f & Hs' & Hf' & Hw). congruence.
    + destruct (length (data e)); cbn in Hl; rewrite bool_decide_true in Hl by lia;
        injection Hl as Hl; by rewrite <-Hl in Hs.
  - intros e' c He' Hc. apply call_try_from_sound in Hc as (? & ? & ? & ? & ? & ? & ? & ? & ? & Hc).
    destruct Hc as (_ & _ & _ & _ & _ & _ & _ & ->). rewrite Ha.
    destruct (felt_to_hex_string_spec (event_from_address e)) as (ds & -> & Hds). specialize (Hds Hf).
    intros [= Heq]. apply (f_equal length) in Heq.
    rewrite to_hex_length, felt_to_bytes_be_length in Heq by done. lia.
Qed.

(** The keys of a rotation that is read are prefixed, which the verifier does not decode. *)
Lemma confirmation_eq_never (r : SignersRotatedEvent) c :
  (∀ s b, from_hex s = Some b → "x"%char ∉ s) →
  Forall (λ s, ∃ f, signer s = felt_to_hex_string f) (signers (rotated_signers r)) →
  confirmation_eq r c ≠ Ok true ∧
  (signers (rotated_signers r) ≠ [] →
   omap (λ '(_, s), ecdsa_signer s) (entries (verifier_set.signers (verifier_set c))) ≠ [] →
   confirmation_eq r c = Panic).
Proof.
  intros Hx Hs. unfold confirmation_eq. set (expected := omap _ _).
  destruct (signers (rotated_signers r)) as [|s ss] eqn:Hss.
  - split; [|done]. case_bool_decide as He; [done|]. cbn. rewrite bool_decide_false; [done|].
    intros Hm. apply He. apply (f_equal length) in Hm. rewrite (merge_sort_Permutation _ expected) in Hm.
    by destruct expected.
  - apply Forall_cons in Hs as [[f Hf] _]. destruct (felt_to_hex_string_spec f) as (ds & Hd & _).
    assert (from_hex (signer s) = None) as Hn.
    { destruct (from_hex (signer s)) as [b|] eqn:Hb; [|done]. apply Hx in Hb. rewrite Hf, Hd in Hb.
      set_solver. }
    cbn. rewrite Hn; cbn. split; [by case_bool_decide|]. intros _ He. by rewrite bool_decide_false.
Qed.

(** C37: On Starknet, no verifier set is ever confirmed. The client reads the signers of a rotation as
    numbers with the prefix [0x] and the verifier decodes them as hexadecimal digits, which panics:
    the handler votes that the rotation is not found, or it crashes, whatever the node shows, and
    it does crash on every rotation to signers that the node shows for a set with ECDSA keys. *)
Theorem starknet_rotation_never_confirmed deserialize (self : Handler) (node : Node) (height : Z)
    (e : events.Event) :
  (∀ s b, from_hex s = Some b → "x"%char ∉ s) →
  (∀ msgs m, handle_verifier_set deserialize self node height e = Ok msgs → m ∈ msgs →
   ∃ poll_id, m = VoteMsg (verifier self) (voting_verifier_contract self) poll_id [VoteNotFound]) ∧
  (∀ ev rotation r,
   open_poll "wasm-verifier_set_poll_started" deserialize (verifier self)
     (voting_verifier_contract self) height e ev →
   invoke_event node (vs_message_id (evm.poll_content ev)) = Some rotation →
   rotated_try_from rotation = Ok r → signers (rotated_signers r) ≠ [] →
   omap (λ '(_, s), ecdsa_signer s)
     (entries (verifier_set.signers (verifier_set (evm.poll_content ev)))) ≠ [] →
   handle_verifier_set deserialize self node height e = Panic).
Proof.
  intros Hx. unfold handle_verifier_set, vote_in_poll, event_by_message_id_signers_rotated. split.
  - intros msgs m Hm Hin. destruct (negb _); [injection Hm as <-; set_solver|].
    apply bind_Ok in Hm as ([ev|] & _ & Hm); [|injection Hm as <-; set_solver].
    destruct (absent_or_expired _ _ _); [injection Hm as <-; set_solver|].
    apply bind_Ok in Hm as (vs & Hvs & [= <-]). apply list_elem_of_singleton in Hin as ->.
    exists (evm.poll_id ev). f_equal. apply bind_Ok in Hvs as (resp & Hresp & Hvs).
    apply try_map_Ok in Hvs. cbn in Hvs. apply Forall2_cons_inv_l in Hvs as (v & vs' & Hv & Hvs & ->).
    apply Forall2_nil_inv_l in Hvs as ->. f_equal. destruct resp as [r|]; [|by injection Hv].
    destruct (invoke_event _ _) as [rot|]; [|done].
    destruct (rotated_try_from rot) as [r'| |] eqn:Hr; [|done..]. injection Hresp as ->.
    apply rotated_try_from_spec in Hr as (_ & n & _ & Hl%signers_loop_hex & _).
    unfold verify_verifier_set in Hv. apply bind_Ok in Hv as (b & Hb & [= <-]).
    destruct (confirmation_eq_never r (evm.poll_content ev) Hx Hl) as [Hne _]. by destruct b.
  - intros ev rot r (Hc & Hev & Hpart) Hrot Hr Hss He. rewrite Hc, Hev. cbn [negb decoded mbind result_bind].
    rewrite (proj2 (absent_or_expired_spec _ _ _)) by done. rewrite Hrot, Hr. cbn.
    apply rotated_try_from_spec in Hr as (_ & n & _ & Hl%signers_loop_hex & _).
    unfold verify_verifier_set.
    destruct (confirmation_eq_never r (evm.poll_content ev) Hx Hl) as [_ ->]; done.
Qed.

End votes.
End starknet.

(** ** A concrete run *)
Module starknet_run.
Import voting events handlers voting_handler starknet.

#[local] Existing Instances ampd_stream_run.run_json codecs.hex_codec codecs.felt_format.

(** The formats of field elements. *)
Definition run_hex (f : Z) : text :=
  if bool_decide (f = 0) then ["0"%char] else codecs.nibble_char <$> digits 16 f.
Definition run_short_string (f : Z) : option text :=
  let bytes := byte_of <$> digits 256 f in
  if bool_decide (length bytes ≤ 31)%nat && forallb (λ c, negb (bool_decide (code c = 0))) bytes
  then Some bytes else None.
#[local] Instance run_ops : FeltOps :=
  {| felt_to_hex_string f := "0"%char :: "x"%char :: run_hex f;
     felt_to_bytes_be f := text_of (to_be_bytes 32 f);
     felt_to_string := print_uint;
     felt_to_u8 f := if bool_decide (0 ≤ f ≤ 255) then Some f else None;
     parse_cairo_short_string := run_short_string |}.

Lemma digits_length_16 f : 0 ≤ f < 16 ^ 63 → (length (digits 16 f) ≤ 63)%nat.
Proof.
  intros Hf. destruct (digits_spec 16 ltac:(lia) f ltac:(lia)) as (Hv & Hd & Hz).
  destruct (decide (digits 16 f = [])) as [->|Hne]; [cbn; lia|].
  pose proof (digits_val_pos 16 ltac:(lia) _ Hd Hz Hne) as Hp. rewrite Hv in Hp.
  destruct (le_lt_dec (length (digits 16 f)) 63); [done|]. exfalso.
  assert (16 ^ 63 ≤ 16 ^ (Z.of_nat (length (digits 16 f)) - 1)) by (apply Z.pow_le_mono_r; lia). lia.
Qed.

Lemma run_short_string_spec l :
  (length l ≤ 31)%nat → Forall (λ c, 0 < code c < 128) l → run_short_string (be_val l) = Some l.
Proof.
  intros Hl Hp. unfold run_short_string, be_val. rewrite digits_of_val; [|lia|apply codecs.codes_digits|].
  - assert (byte_of <$> (code <$> l) = l) as ->.
    { rewrite <-list_fmap_compose. rewrite <-(list_fmap_id l) at 2. apply list_fmap_ext.
      intros i c _. apply byte_of_code. }
    rewrite bool_decide_true by done. cbn [andb].
    rewrite (proj2 (forallb_forall _ _)); [done|]. intros c Hc%list_elem_of_In.
    rewrite Forall_forall in Hp. specialize (Hp c Hc). rewrite bool_decide_false by lia. done.
  - destruct Hp as [|c l Hc Hp]; [done|]. unfold no_leading_zero; cbn. intros [= Heq]. lia.
Qed.

#[local] Instance run_felt_laws : FeltLaws.
Proof.
  split.
  - intros f. eexists. split; [reflexivity|]. intros Hf. unfold is_felt, FELT_PRIME in Hf. unfold run_hex.
    case_bool_decide; [cbn; lia|]. rewrite length_fmap. apply digits_length_16.
    change (16 ^ 63) with (2 ^ 252). lia.
  - intros f _. cbn [felt_to_bytes_be run_ops]. unfold to_be_bytes, text_of.
    rewrite String.list_ascii_of_string_of_list_ascii, length_fmap. reflexivity.
  - intros f Hf. apply be_val_to_be_bytes. unfold is_felt, FELT_PRIME in Hf.
    change (256 ^ Z.of_nat 32) with (2 ^ 256). lia.
  - done.
  - done.
  - exact run_short_string_spec.
Qed.

Lemma run_no_x : ∀ s b, codecs.hex_decode s = Some b → "x"%char ∉ s.
Proof.
  fix IH 1. intros [|c [|d s]] b Hb; [apply not_elem_of_nil|done|]. cbn in Hb.
  destruct (codecs.nibble c) eqn:Hc; [|done]. destruct (codecs.nibble d) eqn:Hd; [|done].
  destruct (codecs.hex_decode s) as [rest|] eqn:Hs; [|done]. specialize (IH s rest Hs).
  intros [<-|[<-|Hin]%elem_of_cons]%elem_of_cons; done.
Qed.

(** A transaction that calls the gateway and rotates its signers. *)
Definition run_hash : text := replicate 32 "h"%char.
Definition run_call : StarknetEvent :=
  cairo_call 77 1 5 (text_of "Ethereum") (text_of "0x4F4495243837681061C4743b74B3eEdf548D56A5") run_hash.
Definition run_rotation : StarknetEvent :=
  mkEvent 77 [2; 77; 3; 0; 0] [2; 1001; 5; 1002; 7; 9; 3; 0].
Definition run_node : Node := λ h,
  if bool_decide (h = 10) then Some (Invoke Succeeded [run_call; run_rotation]) else None.

Lemma starknet_call_roundtrip_witness :
  call_try_from run_call =
  Ok (mkCall (text_of "0x" ++ codecs.hex_encode (text_of (to_be_bytes 32 77)))
        (text_of "0x4F4495243837681061C4743b74B3eEdf548D56A5") (text_of "Ethereum") 5 run_hash).
Proof.
  refine (proj1 (starknet_call_roundtrip 77 1 5 (text_of "Ethereum")
    (text_of "0x4F4495243837681061C4743b74B3eEdf548D56A5") run_hash _ _ _ _) _).
  - apply (bool_decide_unpack _). vm_compute. exact I.
  - cbn. lia.
  - apply (bool_decide_unpack _). vm_compute. exact I.
  - reflexivity.
  - cbn. lia.
Defined.

Definition run_handler : Handler := mkHandler "alice" "verifier".
Definition run_gateway : string := String.string_of_list_ascii
  (text_of "0x" ++ codecs.hex_encode (text_of (to_be_bytes 32 77))).
Definition run_poll_started {C} (content : C) : evm.PollStartedEvent C :=
  evm.mkPollStarted 5 "starknet" run_gateway 10 20 content ["bob"; "alice"].
Definition run_message (i : Z) : Message :=
  mkMessage (msg_id.mkFelt 10 i) (text_of "0x4F4495243837681061C4743b74B3eEdf548D56A5") "ethereum" 5 run_hash.
Definition run_poll (size : Z) : WeightedPoll :=
  mkPoll 5 1 20 size [] false {["alice" := mkParticipation 1 false]}.

(** Two identifiers give two votes; one identifier twice gives one. *)
Lemma starknet_message_votes_exact_witness :
  Forall2 (vote_is (call_happened run_node (text_of run_gateway)) (λ _, False))
    [run_message 0; run_message 1] [SucceededOnChain; VoteNotFound] ∧
  cast_vote (run_poll 2) 9 "alice" [SucceededOnChain] = Err InvalidVoteSize.
Proof.
  split.
  - destruct (starknet_message_votes_exact
      (λ _, Some (run_poll_started (mkMessages "verifier" [run_message 0; run_message 1])))
      run_handler run_node 7 (Abci "wasm-messages_poll_started" ∅)
      (run_poll_started (mkMessages "verifier" [run_message 0; run_message 1])) (run_poll 2) 9)
      as (votes & Hh & Hv & _).
    + repeat split; try (vm_compute; reflexivity). cbn. set_solver.
    + by eexists.
    + done.
    + done.
    + assert (votes = [SucceededOnChain; VoteNotFound]) as ->; [|apply Hv].
      { vm_compute in Hh. by injection Hh. }
      apply (bool_decide_unpack _). vm_compute. exact I.
  - destruct (starknet_message_votes_exact
      (λ _, Some (run_poll_started (mkMessages "verifier" [run_message 0; run_message 0])))
      run_handler run_node 7 (Abci "wasm-messages_poll_started" ∅)
      (run_poll_started (mkMessages "verifier" [run_message 0; run_message 0])) (run_poll 2) 9)
      as (votes & Hh & _ & Hv).
    + repeat split; try (vm_compute; reflexivity). cbn. set_solver.
    + by eexists.
    + done.
    + done.
    + assert (votes = [SucceededOnChain]) as ->; [|apply Hv].
      { vm_compute in Hh. by injection Hh. }
      apply (bool_decide_unpack _). vm_compute. exact I.
Defined.

Definition run_rotated : SignersRotatedEvent :=
  mkRotated (text_of "0x4d") 3 (replicate 32 (byte_of 0))
    (mkWeighted [mkSigner (text_of "0x3e9") 5; mkSigner (text_of "0x3ea") 7] 7
       (text_of (to_be_bytes 32 3))).

Lemma starknet_rotation_misread_witness : threshold (rotated_signers run_rotated) = 7.
Proof.
  apply (starknet_rotation_misread run_rotation run_rotated) with (s := mkSigner (text_of "0x3ea") 7).
  - split; [done|]. reflexivity.
  - vm_compute. reflexivity.
  - reflexivity.
Defined.

Definition run_confirmation : VerifierSetConfirmation :=
  mkConfirmation (msg_id.mkFelt 10 1) (encoding_run.run_set key.PkEcdsa).

Lemma starknet_rotation_never_confirmed_witness :
  handle_verifier_set (λ _, Some (run_poll_started run_confirmation)) run_handler run_node 7
    (Abci "wasm-verifier_set_poll_started" {["_contract_address" := "verifier"]}) = Panic.
Proof.
  refine (proj2 (starknet_rotation_never_confirmed (λ _, Some (run_poll_started run_confirmation)) run_handler
    run_node 7 (Abci "wasm-verifier_set_poll_started" {["_contract_address" := "verifier"]}) _)
    (run_poll_started run_confirmation) run_rotation run_rotated _ _ _ _ _).
  - exact run_no_x.
  - repeat split; try (vm_compute; reflexivity). cbn. set_solver.
  - vm_compute. reflexivity.
  - vm_compute. reflexivity.
  - done.
  - vm_compute. discriminate.
Defined.

End starknet_run.
