(* ===== verification/AmpdXrpl.v ===== *)
(** * How a verifier votes and signs for the XRP Ledger

    The handlers of [ampd] for the XRP Ledger: what the client makes of a node's answers
    ([xrpl/json_rpc.rs]), the verification of messages against payments and their memos
    ([xrpl/verifier.rs]), the handler that votes ([handlers/xrpl_verify_msg.rs]) and the one that signs
    ([handlers/xrpl_multisig.rs]).

    Transactions are those of the crate [xrpl_http_client], with the fields that the code reads. *)

From Stdlib Require Import Ascii.
From S2P Require Import Prelude Std Voting MsgId RouterApi Multisig MultisigProver Encoding XrplTypes.
From S2P Require Import AmpdStream AmpdEvm AmpdChains.

Module xrpl.
Import voting events handlers voting_handler xrpl_types xrpl_msg.

(** ** Transactions *)

Record Memo := mkMemo { memo_type : option string; memo_data : option string }.

Inductive Amount :=
  | AmountIssued (value currency issuer : string)
  | AmountDrops (drops : string).
#[global] Instance Amount_eq_dec : EqDecision Amount.
Proof. solve_decision. Defined.

Inductive ResultCategory := Tec | Tef | Tel | Tem | Tes | Ter.
#[global] Instance ResultCategory_eq_dec : EqDecision ResultCategory.
Proof. solve_decision. Defined.

Record Meta := mkMeta { category : ResultCategory; delivered_amount : option Amount }.

Record TransactionCommon := mkCommon {
  account : string;
  memos : option (list Memo);
  hash : option string;
  validated : option bool;
  meta : option Meta
}.
Record PaymentTransaction := mkPayment {
  amount : Amount;
  destination : string;
  flags : list string
}.
Inductive Transaction :=
  | Payment (common : TransactionCommon) (payment : PaymentTransaction)
  | OtherTransaction (common : TransactionCommon).

Definition common (tx : Transaction) : TransactionCommon :=
  match tx with Payment c _ | OtherTransaction c => c end.

(** ** The client ([xrpl/json_rpc.rs]) *)

Inductive RpcError := ApiError (reason : string) | OtherError.

(** A node is asked with the hexadecimal hash. *)
Definition Node := string → result RpcError Transaction.

Definition tx `{HexCodec} (node : Node) (tx_id : string) : result RpcError (option Transaction) :=
  match node (String.string_of_list_ascii (to_hex (text_of tx_id))) with
  | Ok res => Ok (Some res)
  | Err (ApiError reason) => if bool_decide (reason = "txnNotFound") then Ok None else Err (ApiError reason)
  | Err OtherError => Err OtherError
  | Panic => Panic
  end.

(** ** Verification ([xrpl/verifier.rs]) *)
Section verifier.
Context `{HexCodec} `{Crypto} `{XrplCrypto} `{Uint256Text}.

(** [hex::decode], then [String::from_utf8]. *)
Definition hex_text (s : string) : option string :=
  bytes ← from_hex (text_of s); utf8.from_utf8 (String.string_of_list_ascii bytes).

Definition parse_memos (memos : list Memo) : gmap string string :=
  collect (omap (λ m, t ← (t ← memo_type m; hex_text t); d ← memo_data m; Some (t, d)) memos).

Definition is_validated_tx (tx : Transaction) : bool := bool_decide (validated (common tx) = Some true).

(** Lower-casing cannot turn a character outside of ASCII into a hexadecimal digit. *)
Definition verify_memo (memos : gmap string string) (key expected_value : string) : bool :=
  bool_decide (chain.to_lowercase <$> memos !! key =
    Some (String.string_of_list_ascii (to_hex (text_of expected_value)))).

Definition tx_hash_as_hex_no_prefix (h : string) : string :=
  String.string_of_list_ascii (to_hex (text_of h)).

Definition is_valid_prover_message (tx : Transaction) (multisig_address : string) (m : XRPLProverMessage)
    (memos : gmap string string) : bool :=
  bool_decide (account (common tx) = account_to_string multisig_address) &&
  verify_memo memos "type" (type_to_string ProverProof) &&
  verify_memo memos "unsigned_tx_hash" (tx_hash_as_hex_no_prefix (unsigned_tx_hash m)).

Definition verify_payment_flags (payment_tx : PaymentTransaction) : bool := bool_decide (flags payment_tx = []).

Definition is_successful_tx (tx : Transaction) : bool :=
  match meta (common tx) with Some m => bool_decide (category m = Tes) | None => false end.

Definition verify_delivered_full_amount (tx : Transaction) (expected_amount : Amount) : bool :=
  match meta (common tx) with
  | Some m => bool_decide (delivered_amount m = Some expected_amount)
  | None => false
  end.

(** The amount of a payment, in the types of the protocol. *)
Definition payment_of (actual_amount : Amount) : option XRPLPaymentAmount :=
  match actual_amount with
  | AmountIssued value currency issuer =>
      issuer ← ok (account_from_str issuer);
      currency ← ok (currency_new currency);
      value ← ok (from_str (text_of value));
      Some (Issued (mkToken issuer currency) value)
  | AmountDrops a => d ← parse_uint u64_max (text_of a); Some (Drops d)
  end.

Definition verify_amount (expected_amount : XRPLPaymentAmount) (actual_amount : Amount)
    (cmp : XRPLPaymentAmount → XRPLPaymentAmount → result Error bool) : result Error bool :=
  match payment_of actual_amount with
  | Some amount => cmp expected_amount amount
  | None => Ok false
  end.

Definition verify_equal_amount (expected_amount : XRPLPaymentAmount) (actual_amount : Amount) : result Error bool :=
  verify_amount expected_amount actual_amount (λ a b, Ok (bool_decide (a = b))).

Definition verify_gas_fee_amount (memos : gmap string string) (m : XRPLInterchainTransferMessage) : bool :=
  default false
    (s ← (amount ← memos !! "gas_fee_amount"; hex_text amount);
     gas_fee_amount ← match it_transfer_amount m with
                      | Issued token _ => x ← ok (from_str (text_of s)); Some (Issued token x)
                      | Drops _ => d ← parse_uint u64_max (text_of s); Some (Drops d)
                      end;
     Some (bool_decide (gas_fee_amount = it_gas_fee_amount m))).

Definition verify_payload (memos : gmap string string) (expected_payload_hash : string) : bool :=
  default false
    ((λ memo_payload,
        match from_hex (text_of memo_payload) with
        | Some decoded => bool_decide (keccak256 (String.string_of_list_ascii decoded) = expected_payload_hash)
        | None => false
        end) <$> memos !! "payload").

Definition verify_payload_hash (memos : gmap string string) (m : XRPLInterchainTransferMessage) : bool :=
  match it_payload_hash m with
  | Some expected_hash => verify_payload memos expected_hash
  | None => negb (bool_decide (is_Some (memos !! "payload")))
  end.

Definition verify_interchain_transfer_memos (memos : gmap string string) (m : XRPLInterchainTransferMessage) : bool :=
  verify_memo memos "type" (type_to_string InterchainTransfer) &&
  verify_memo memos "destination_chain" (it_destination_chain m) &&
  verify_memo memos "destination_address" (it_destination_address m) &&
  verify_payload_hash memos m && verify_gas_fee_amount memos m.

Definition verify_call_contract_memos (memos : gmap string string) (m : XRPLCallContractMessage) : bool :=
  verify_memo memos "type" (type_to_string CallContract) &&
  verify_memo memos "destination_chain" (cc_destination_chain m) &&
  verify_memo memos "destination_address" (cc_destination_address m) &&
  verify_payload memos (cc_payload_hash m).

(** The lazy conjunction around a comparison that can panic. *)
Definition all_of (before : bool) (compared : result Error bool) (after : bool) : result Error bool :=
  if before then b ← compared; Ok (b && after) else Ok false.

Definition is_valid_interchain_transfer_message (tx : Transaction) (multisig_address : string)
    (m : XRPLInterchainTransferMessage) (memos : gmap string string) : result Error bool :=
  match tx with
  | Payment c payment_tx =>
      match payment_add (it_transfer_amount m) (it_gas_fee_amount m) with
      | Ok total_amount =>
          all_of (bool_decide (destination payment_tx = account_to_string multisig_address) &&
                  bool_decide (account_to_string (it_source_address m) = account c) &&
                  verify_delivered_full_amount tx (amount payment_tx))
            (verify_amount total_amount (amount payment_tx) payment_le)
            (verify_interchain_transfer_memos memos m && verify_payment_flags payment_tx)
      | Err _ => Ok false
      | Panic => Panic
      end
  | OtherTransaction _ => Ok false
  end.

Definition is_valid_call_contract_message (tx : Transaction) (multisig_address : string)
    (m : XRPLCallContractMessage) (memos : gmap string string) : result Error bool :=
  match tx with
  | Payment c payment_tx =>
      all_of (bool_decide (destination payment_tx = account_to_string multisig_address) &&
              bool_decide (account_to_string (cc_source_address m) = account c) &&
              verify_delivered_full_amount tx (amount payment_tx))
        (verify_equal_amount (cc_gas_fee_amount m) (amount payment_tx))
        (verify_call_contract_memos memos m && verify_payment_flags payment_tx)
  | OtherTransaction _ => Ok false
  end.

Definition is_valid_add_gas_message (tx : Transaction) (multisig_address : string)
    (m : XRPLAddGasMessage) (memos : gmap string string) : result Error bool :=
  match tx with
  | Payment c payment_tx =>
      all_of (bool_decide (destination payment_tx = account_to_string multisig_address) &&
              bool_decide (account_to_string (ag_source_address m) = account c) &&
              verify_delivered_full_amount tx (amount payment_tx))
        (verify_equal_amount (ag_amount m) (amount payment_tx))
        (verify_memo memos "type" (type_to_string AddGas) &&
         verify_memo memos "msg_id" (tx_hash_as_hex_no_prefix (ag_msg_id m)) &&
         verify_payment_flags payment_tx)
  | OtherTransaction _ => Ok false
  end.

Definition is_valid_add_reserves_message (tx : Transaction) (multisig_address : string)
    (m : XRPLAddReservesMessage) (memos : gmap string string) : result Error bool :=
  match tx with
  | Payment c payment_tx =>
      all_of (bool_decide (destination payment_tx = account_to_string multisig_address) &&
              verify_delivered_full_amount tx (amount payment_tx))
        (verify_equal_amount (Drops (ar_amount m)) (amount payment_tx))
        (verify_memo memos "type" (type_to_string AddReserves) && verify_payment_flags payment_tx)
  | OtherTransaction _ => Ok false
  end.

Definition is_valid_message (multisig_address : string) (tx : Transaction) (m : XRPLMessage) : result Error bool :=
  let memos := parse_memos (default [] (memos (common tx))) in
  match m with
  | ProverMessage m => Ok (is_valid_prover_message tx multisig_address m memos)
  | InterchainTransferMessage m => is_valid_interchain_transfer_message tx multisig_address m memos
  | CallContractMessage m => is_valid_call_contract_message tx multisig_address m memos
  | AddGasMessage m => is_valid_add_gas_message tx multisig_address m memos
  | AddReservesMessage m => is_valid_add_reserves_message tx multisig_address m memos
  end.

Definition verify_message (multisig_address : string) (tx : Transaction) (m : XRPLMessage) : result Error Vote :=
  is_valid ← is_valid_message multisig_address tx m;
  Ok (if is_validated_tx tx && is_valid
      then if is_successful_tx tx then SucceededOnChain else FailedOnChain
      else VoteNotFound).

End verifier.
(** ** Voting ([handlers/xrpl_verify_msg.rs]) *)

Record Handler := mkHandler { verifier : Addr; voting_verifier_contract : Addr }.

(** The multisig account is parsed with the event. *)
Record Poll := mkPoll { source_gateway_address : string; poll_messages : list XRPLMessage }.

Section handle.
Context `{HexCodec} `{Crypto} `{XrplCrypto} `{Uint256Text} `{Json}.

(** The hash of a validated transaction, as the node reports it. *)
Definition validated_hash (t : Transaction) : option string :=
  tx_hash ← hash (common t);
  if bool_decide (validated (common t) ≠ Some true) then None
  else
    id ← ok (msg_id.tx_hash_from_str (text_of "0x" ++ (chain.lower <$> text_of tx_hash)));
    Some (String.string_of_list_ascii (msg_id.tx_hash id)).

Definition validated_txs (node : Node) (tx_ids : gset string) : gmap string Transaction :=
  collect (omap (λ t, (λ h, (h, t)) <$> validated_hash t)
             (omap (λ id, default None (ok (tx node id))) (elements tx_ids))).

Definition handle (deserialize : gmap string Value → option (evm.PollStartedEvent Poll))
    (self : Handler) (node : Node) (latest_block_height : Z) (e : events.Event) : result Error (list Msg) :=
  vote_in_poll "wasm-messages_poll_started" deserialize (verifier self) (voting_verifier_contract self)
    (absent_or_expired (verifier self) latest_block_height)
    (λ ev,
       let messages := poll_messages (evm.poll_content ev) in
       let txs := validated_txs node (list_to_set (tx_id <$> messages)) in
       cast_votes (λ m, txs !! tx_id m)
         (verify_message (source_gateway_address (evm.poll_content ev))) messages) e.

(** *** What the votes say *)

(** A validated transaction of the ledger, by its hash. *)
Definition on_ledger (node : Node) (id : string) (t : Transaction) : Prop :=
  tx node id = Ok (Some t) ∧ validated_hash t = Some id.

Definition memo_is (t : Transaction) (key value : string) : Prop :=
  ∃ data, parse_memos (default [] (memos (common t))) !! key = Some data ∧
    chain.to_lowercase data = tx_hash_as_hex_no_prefix value.
Definition memo_hex (t : Transaction) (key : string) (bytes : string) : Prop :=
  ∃ data, parse_memos (default [] (memos (common t))) !! key = Some data ∧
    from_hex (text_of data) = Some (text_of bytes).

(** A payment to the multisig account that was delivered in full, without flags. *)
Definition pays (t : Transaction) (multisig_address : string) (a : XRPLPaymentAmount) : Prop :=
  ∃ c p m, t = Payment c p ∧ destination p = account_to_string multisig_address ∧
    meta c = Some m ∧ delivered_amount m = Some (amount p) ∧ payment_of (amount p) = Some a ∧ flags p = [].

Definition sent_by (t : Transaction) (a : string) : Prop := account (common t) = account_to_string a.

(** The gas fee that the memo of a transfer announces. *)
Definition announces_fee (t : Transaction) (transfer_amount fee : XRPLPaymentAmount) : Prop :=
  ∃ s, memo_hex t "gas_fee_amount" s ∧ utf8.valid (text_of s) = true ∧
    match transfer_amount with
    | Issued token _ => ∃ x, from_str (text_of s) = Ok x ∧ fee = Issued token x
    | Drops _ => ∃ d, parse_uint u64_max (text_of s) = Some d ∧ fee = Drops d
    end.

(** What a transaction has to be for a message. *)
Definition performs (multisig_address : string) (t : Transaction) (m : XRPLMessage) : Prop :=
  match m with
  | ProverMessage m =>
      sent_by t multisig_address ∧ memo_is t "type" "proof" ∧
      memo_is t "unsigned_tx_hash" (tx_hash_as_hex_no_prefix (unsigned_tx_hash m))
  | InterchainTransferMessage m =>
      ∃ total paid, payment_add (it_transfer_amount m) (it_gas_fee_amount m) = Ok total ∧
        pays t multisig_address paid ∧ (∃ o, payment_partial_cmp (E := Error) total paid = Ok (Some o) ∧ o ≠ Gt) ∧
        sent_by t (it_source_address m) ∧ memo_is t "type" "interchain_transfer" ∧
        memo_is t "destination_chain" (it_destination_chain m) ∧
        memo_is t "destination_address" (it_destination_address m) ∧
        match it_payload_hash m with
        | Some h => ∃ payload, memo_hex t "payload" payload ∧ keccak256 payload = h
        | None => parse_memos (default [] (memos (common t))) !! "payload" = None
        end ∧
        announces_fee t (it_transfer_amount m) (it_gas_fee_amount m)
  | CallContractMessage m =>
      pays t multisig_address (cc_gas_fee_amount m) ∧ sent_by t (cc_source_address m) ∧
      memo_is t "type" "call_contract" ∧ memo_is t "destination_chain" (cc_destination_chain m) ∧
      memo_is t "destination_address" (cc_destination_address m) ∧
      ∃ payload, memo_hex t "payload" payload ∧ keccak256 payload = cc_payload_hash m
  | AddGasMessage m =>
      pays t multisig_address (ag_amount m) ∧ sent_by t (ag_source_address m) ∧ memo_is t "type" "add_gas" ∧
      memo_is t "msg_id" (tx_hash_as_hex_no_prefix (ag_msg_id m))
  | AddReservesMessage m =>
      pays t multisig_address (Drops (ar_amount m)) ∧ memo_is t "type" "add_reserves"
  end.

(** *** The checks decide it *)

Lemma verify_memo_spec t key value :
  verify_memo (parse_memos (default [] (memos (common t)))) key value = true ↔ memo_is t key value.
Proof.
  unfold verify_memo, memo_is, tx_hash_as_hex_no_prefix. rewrite bool_decide_eq_true, fmap_Some. naive_solver.
Qed.

Lemma verify_payload_spec t h :
  verify_payload (parse_memos (default [] (memos (common t)))) h = true ↔
  ∃ payload, memo_hex t "payload" payload ∧ keccak256 payload = h.
Proof.
  unfold verify_payload, memo_hex. destruct (parse_memos _ !! "payload") as [data|]; cbn; [|naive_solver].
  destruct (from_hex (text_of data)) as [b|] eqn:Hb; [rewrite bool_decide_eq_true|]; split.
  - intros <-. exists (String.string_of_list_ascii b). rewrite text_of_list. eauto.
  - intros (payload & (d & [= <-] & Hd) & <-). rewrite Hb in Hd. injection Hd as ->. by rewrite string_of_text.
  - done.
  - intros (payload & (d & [= <-] & Hd) & _). congruence.
Qed.

Lemma hex_text_spec s r :
  hex_text s = Some r ↔ from_hex (text_of s) = Some (text_of r) ∧ utf8.valid (text_of r) = true.
Proof.
  unfold hex_text, utf8.from_utf8. rewrite bind_Some. split.
  - intros (b & Hb & Hr). rewrite text_of_list in Hr. destruct (utf8.valid b) eqn:Hv; [|done].
    injection Hr as <-. by rewrite text_of_list.
  - intros [Hb Hv]. exists (text_of r). by rewrite string_of_text, Hv.
Qed.

Lemma verify_gas_fee_spec t m :
  verify_gas_fee_amount (parse_memos (default [] (memos (common t)))) m = true ↔
  announces_fee t (it_transfer_amount m) (it_gas_fee_amount m).
Proof.
  unfold verify_gas_fee_amount, announces_fee, memo_hex.
  destruct (parse_memos _ !! "gas_fee_amount") as [data|]; cbn; [|naive_solver].
  destruct (hex_text data) as [s|] eqn:Hs; cbn.
  - pose proof (proj1 (hex_text_spec _ _) Hs) as [Hh Hv].
    assert (∀ s', (∃ d, Some data = Some d ∧ from_hex (text_of d) = Some (text_of s')) → s' = s) as Hu.
    { intros s' (d & [= <-] & Hd). apply chain.text_of_inj. congruence. }
    destruct (it_transfer_amount m) as [d|token x]; cbn.
    + destruct (parse_uint u64_max (text_of s)) as [k|] eqn:Hk; cbn; [rewrite bool_decide_eq_true|]; split.
      * intros <-. exists s. eauto 7.
      * intros (s' & Hs'%Hu & _ & k' & Hk' & ->). congruence.
      * done.
      * intros (s' & Hs'%Hu & _ & k' & Hk' & _). congruence.
    + destruct (from_str (text_of s)) as [y|err|] eqn:Hy; cbn; [rewrite bool_decide_eq_true|..]; split; try done.
      * intros <-. exists s. eauto 7.
      * intros (s' & Hs'%Hu & _ & k' & Hk' & ->). congruence.
      * intros (s' & Hs'%Hu & _ & k' & Hk' & _). congruence.
      * intros (s' & Hs'%Hu & _ & k' & Hk' & _). congruence.
  - split; [done|]. intros (s & (d & [= <-] & Hd) & Hv & _).
    assert (hex_text data = Some s); [by apply hex_text_spec|congruence].
Qed.

Lemma all_of_true before compared after b :
  all_of before compared after = Ok b →
  b = true ↔ before = true ∧ compared = Ok true ∧ after = true.
Proof.
  unfold all_of. destruct before; [|naive_solver]. intros (b' & -> & [= <-])%bind_Ok.
  rewrite andb_true_iff. split; [intros [-> ->]; done|]. intros (_ & [= ->] & ->). done.
Qed.

Lemma delivered_spec c p multisig_address a :
  pays (Payment c p) multisig_address a ↔
  destination p = account_to_string multisig_address ∧
  verify_delivered_full_amount (Payment c p) (amount p) = true ∧
  payment_of (amount p) = Some a ∧ verify_payment_flags p = true.
Proof.
  unfold pays, verify_delivered_full_amount, verify_payment_flags; cbn [common]. rewrite bool_decide_eq_true. split.
  - intros (c' & p' & m & [= <- <-] & Hd & Hm & Ha & Hp & Hf). rewrite Hm, bool_decide_eq_true. done.
  - intros (Hd & Hm & Hp & Hf). destruct (meta c) as [m|] eqn:Hc; [|done]. apply bool_decide_eq_true in Hm. eauto 10.
Qed.

Lemma verify_equal_spec expected actual :
  verify_equal_amount expected actual = Ok true ↔ payment_of actual = Some expected.
Proof.
  unfold verify_equal_amount, verify_amount. destruct (payment_of actual) as [a|]; [|naive_solver].
  split; [intros [= ->%bool_decide_eq_true]; done|]. intros [= ->]. by rewrite bool_decide_eq_true_2.
Qed.

Lemma payment_le_spec (a b : XRPLPaymentAmount) :
  payment_le (E := Error) a b = Ok true ↔ ∃ o, payment_partial_cmp (E := Error) a b = Ok (Some o) ∧ o ≠ Gt.
Proof.
  unfold payment_le. destruct (payment_partial_cmp a b) as [[[]|]|e|]; cbn; naive_solver.
Qed.

(** A transaction that is not a payment pays nothing. *)
Lemma other_pays_not c multisig_address a : ¬ pays (OtherTransaction c) multisig_address a.
Proof. by intros (? & ? & ? & ? & _). Qed.

Lemma valid_transfer_spec multisig_address t m b :
  is_valid_interchain_transfer_message t multisig_address m
    (parse_memos (default [] (memos (common t)))) = Ok b →
  b = true ↔ performs multisig_address t (InterchainTransferMessage m).
Proof.
  unfold performs, sent_by, is_valid_interchain_transfer_message. destruct t as [c p|c].
  2: { intros [= <-]. split; [done|]. by intros (? & ? & _ & ?%other_pays_not & _). }
  destruct (payment_add _ _) as [total|e|] eqn:Hadd; [|intros [= <-]; split; [done|naive_solver]|done].
  intros ->%all_of_true. unfold verify_interchain_transfer_memos, verify_amount.
  rewrite !andb_true_iff, !verify_memo_spec, verify_gas_fee_spec, !bool_decide_eq_true.
  assert (verify_payload_hash (parse_memos (default [] (memos (common (Payment c p))))) m = true ↔
    match it_payload_hash m with
    | Some h => ∃ payload, memo_hex (Payment c p) "payload" payload ∧ keccak256 payload = h
    | None => parse_memos (default [] (memos (common (Payment c p)))) !! "payload" = None
    end) as ->.
  { unfold verify_payload_hash. destruct (it_payload_hash m); [apply verify_payload_spec|].
    by rewrite negb_true_iff, bool_decide_eq_false, <-eq_None_not_Some. }
  split.
  - intros (((Hd & Hs) & Hdel) & Hle & (((((Ht & Hc) & Ha) & Hp) & Hg) & Hf)).
    destruct (payment_of (amount p)) as [paid|] eqn:Hpaid; [|done].
    exists total, paid. rewrite delivered_spec, <-payment_le_spec. split_and!; done.
  - intros (total' & paid & [= <-] & (Hd & Hdel & -> & Hf)%delivered_spec & Hle%payment_le_spec & Hs & Ht & Hc & Ha & Hp & Hg).
    split_and!; done.
Qed.

Lemma is_valid_message_spec multisig_address t m b :
  is_valid_message multisig_address t m = Ok b → b = true ↔ performs multisig_address t m.
Proof.
  unfold is_valid_message, performs, sent_by. destruct m as [m|m|m|m|m].
  - intros [= <-]. unfold is_valid_prover_message.
    rewrite !andb_true_iff, !verify_memo_spec, bool_decide_eq_true. tauto.
  - apply valid_transfer_spec.
  - unfold is_valid_call_contract_message. destruct t as [c p|c].
    2: { intros [= <-]. split; [done|]. by intros (?%other_pays_not & _). }
    intros ->%all_of_true. unfold verify_call_contract_memos.
    rewrite !andb_true_iff, !verify_memo_spec, verify_payload_spec, verify_equal_spec, delivered_spec, !bool_decide_eq_true.
    cbn [common]. intuition congruence.
  - unfold is_valid_add_gas_message. destruct t as [c p|c].
    2: { intros [= <-]. split; [done|]. by intros (?%other_pays_not & _). }
    intros ->%all_of_true. rewrite !andb_true_iff, !verify_memo_spec, verify_equal_spec, delivered_spec, !bool_decide_eq_true.
    cbn [common]. intuition congruence.
  - unfold is_valid_add_reserves_message. destruct t as [c p|c].
    2: { intros [= <-]. split; [done|]. by intros (?%other_pays_not & _). }
    intros ->%all_of_true. rewrite !andb_true_iff, !verify_memo_spec, verify_equal_spec, delivered_spec, !bool_decide_eq_true.
    intuition congruence.
Qed.

(** A node answers about the transaction that it is asked for. *)
Definition answers_asked (node : Node) : Prop :=
  ∀ id t h, tx node id = Ok (Some t) → validated_hash t = Some h → h = id.

Lemma omap_omap {A B C} (f : A → option B) (g : B → option C) (l : list A) :
  omap g (omap f l) = omap (λ x, f x ≫= g) l.
Proof.
  induction l as [|x l IH]; [done|]. cbn. destruct (f x) as [y|]; cbn; [|exact IH].
  destruct (g y); cbn; [f_equal|]; exact IH.
Qed.
Lemma omap_pointwise {A B} (f g : A → option B) (l : list A) : (∀ x, f x = g x) → omap f l = omap g l.
Proof. intros Hfg. induction l as [|x l IH]; [done|]. cbn. rewrite Hfg. destruct (g x); [f_equal|]; exact IH. Qed.

Lemma validated_txs_spec node ids id t :
  answers_asked node → validated_txs node ids !! id = Some t ↔ id ∈ ids ∧ on_ledger node id t.
Proof.
  intros Hans. set (f := λ id, t ← default None (ok (tx node id)); h ← validated_hash t; Some t).
  assert (∀ id t, f id = Some t ↔ on_ledger node id t) as Hf.
  { intros id' t'. unfold f, on_ledger. destruct (tx node id') as [[t''|]|e|] eqn:Ht; cbn; [|naive_solver..].
    rewrite bind_Some. split; [intros (h & Hh & [= <-]); by rewrite <-(Hans _ _ _ Ht Hh)|].
    intros [[= <-] Hh]. eauto. }
  assert (validated_txs node ids = collect (omap (λ h, (λ t, (h, t)) <$> f h) (elements ids))) as ->.
  { unfold validated_txs. f_equal. rewrite omap_omap. apply omap_pointwise. intros k. unfold f.
    destruct (tx node k) as [[t'|]|e|] eqn:Ht; cbn; [|done..].
    destruct (validated_hash t') as [h|] eqn:Hh; cbn; [|done]. by rewrite (Hans _ _ _ Ht Hh). }
  by rewrite collect_asked, Hf.
Qed.

Lemma vote_of_message multisig_address node t m v :
  on_ledger node (tx_id m) t → verify_message multisig_address t m = Ok v →
  vote_is
    (λ m, ∃ t, on_ledger node (tx_id m) t ∧ performs multisig_address t m ∧ is_successful_tx t = true)
    (λ m, ∃ t, on_ledger node (tx_id m) t ∧ performs multisig_address t m ∧ is_successful_tx t = false) m v.
Proof.
  intros Hon Hv. unfold verify_message in Hv. apply bind_Ok in Hv as (b & Hb%is_valid_message_spec & [= <-]).
  assert (∀ t', on_ledger node (tx_id m) t' → t' = t) as Hu by (intros t' [H' _]; destruct Hon; congruence).
  assert (is_validated_tx t = true) as ->.
  { destruct Hon as [_ Hh]. unfold validated_hash in Hh. apply bind_Some in Hh as (h & _ & Hh).
    unfold is_validated_tx. apply bool_decide_eq_true. by case_bool_decide. }
  cbn [andb]. destruct b.
  - assert (performs multisig_address t m) as Hp by by apply Hb.
    destruct (is_successful_tx t) eqn:Hs; cbn; eauto.
  - cbn. split; intros (t' & Ht'%Hu & Hp & _); subst t'; by apply Hb in Hp.
Qed.

(** C22: The votes on messages from the XRP Ledger are exact. When the handler returns, with a node that
    answers with the transactions it is asked for, it is silent about what is not a poll for it; in
    a poll it votes that a message succeeded or failed exactly when the ledger has a validated
    transaction with the message's hash that performs the message, by its result, and otherwise
    that it was not found. What performs a message depends on its kind. A transfer: a payment to
    the multisig account, delivered in full and without flags, of the announced sender and of at
    least the transferred amount and the gas fee together (more may be paid), with the memos of the
    announced type, destination, payload and fee. A contract call or an addition of gas: such a
    payment of exactly the announced fee or amount, of the announced sender, with the memos of the
    message. An addition of reserves: such a payment of exactly the announced drops, of any sender,
    with the memo of its type. A prover message: any transaction of the multisig account, payment
    or not, with the memos of its type and of the unsigned transaction. *)
Theorem xrpl_votes_exact (deserialize : gmap string Value → option (evm.PollStartedEvent Poll))
    (self : Handler) (node : Node) (height : Z) (e : events.Event) (msgs : list Msg) :
  answers_asked node →
  handle deserialize self node height e = Ok msgs →
  votes_exact
    (open_poll "wasm-messages_poll_started" deserialize (verifier self) (voting_verifier_contract self) height e)
    poll_messages
    (λ ev m, ∃ t, on_ledger node (tx_id m) t ∧
       performs (source_gateway_address (evm.poll_content ev)) t m ∧ is_successful_tx t = true)
    (λ ev m, ∃ t, on_ledger node (tx_id m) t ∧
       performs (source_gateway_address (evm.poll_content ev)) t m ∧ is_successful_tx t = false)
    (verifier self) (voting_verifier_contract self) msgs.
Proof.
  intros Hans Hf. eapply vote_in_poll_exact; [exact Hf|apply absent_or_expired_spec|].
  intros ev vs Hvs. cbn beta zeta in Hvs. eapply cast_votes_exact; [exact Hvs|..].
  - intros m t v _ [_ Hon]%validated_txs_spec Hv; [|done]. by eapply vote_of_message.
  - intros m Hm Hnone. assert (∀ t, ¬ on_ledger node (tx_id m) t) as Hno; [|naive_solver].
    intros t Ht. assert (Some t = None); [|done]. rewrite <-Hnone. symmetry. apply validated_txs_spec; [done|].
    split; [|done]. apply elem_of_list_to_set, list_elem_of_fmap. eauto.
Qed.

Lemma try_map_panics {E A B} (f : A → result E B) l x :
  (∀ y e, f y ≠ Err e) → x ∈ l → f x = Panic → try_map f l = Panic.
Proof.
  intros Herr Hx Hp. induction l as [|y l IH]; [by apply not_elem_of_nil in Hx|]. cbn.
  destruct (f y) as [b|e|] eqn:Hy; cbn; [|by destruct (Herr y e)|done].
  apply elem_of_cons in Hx as [<-|Hx]; [congruence|]. by rewrite IH.
Qed.

Lemma partial_cmp_no_err {E} a b (e : E) : partial_cmp a b ≠ Err e.
Proof. unfold partial_cmp. by destruct (scale_to_min_exponent a b) as [[[? ?] ?]|?|]. Qed.

Lemma all_of_no_err before r after e : r ≠ Err e → all_of before r after ≠ Err e.
Proof. intros Hr. destruct before, r; cbn; congruence. Qed.

Lemma verify_equal_no_err a b e : verify_equal_amount a b ≠ Err e.
Proof. unfold verify_equal_amount, verify_amount. by destruct (payment_of b). Qed.

Lemma payment_le_no_err (a b : XRPLPaymentAmount) (e : Error) : payment_le a b ≠ Err e.
Proof.
  unfold payment_le, payment_partial_cmp. destruct a as [d|u x], b as [d'|u' x']; try done.
  destruct (bool_decide _); [|done]. destruct (partial_cmp x x') as [o|e'|] eqn:Hc; cbn; try done.
  by apply partial_cmp_no_err in Hc.
Qed.

(** A vote never fails with an error. *)
Lemma verify_message_no_err multisig_address t m e : verify_message multisig_address t m ≠ Err e.
Proof.
  assert (is_valid_message multisig_address t m ≠ Err e) as Hv; 
    [|unfold verify_message; destruct (is_valid_message _ _ _); cbn; congruence].
  unfold is_valid_message, is_valid_interchain_transfer_message, is_valid_call_contract_message,
    is_valid_add_gas_message, is_valid_add_reserves_message.
  destruct m, t as [c p|c]; try done; try apply all_of_no_err, verify_equal_no_err.
  destruct (payment_add _ _); try done. apply all_of_no_err. unfold verify_amount.
  destruct (payment_of _); [apply payment_le_no_err|done].
Qed.

(** C36: A payment whose exponent is far from that of the message stops the handler. When a poll asks about
    a transfer, and the ledger has the payment of that sender to the multisig account in the same
    token, but the amounts are too far apart for 256 bits, the handler panics instead of voting; the
    other messages of the poll get no vote either. *)
Theorem xrpl_handler_panics (deserialize : gmap string Value → option (evm.PollStartedEvent Poll))
    (self : Handler) (node : Node) (height : Z) (e : events.Event) (ev : evm.PollStartedEvent Poll)
    (m : XRPLInterchainTransferMessage) (t : Transaction) (token : XRPLToken) (total paid : XRPLTokenAmount) :
  answers_asked node →
  open_poll "wasm-messages_poll_started" deserialize (verifier self) (voting_verifier_contract self) height e ev →
  InterchainTransferMessage m ∈ poll_messages (evm.poll_content ev) → on_ledger node (it_tx_id m) t →
  pays t (source_gateway_address (evm.poll_content ev)) (Issued token paid) → sent_by t (it_source_address m) →
  payment_add (it_transfer_amount m) (it_gas_fee_amount m) = Ok (Issued token total) →
  wf total → wf paid → ¬ comparable total paid →
  handle deserialize self node height e = Panic.
Proof.
  intros Hans (Hfrom & Hev & Hpart & Hopen) Hm Hon Hpays Hsent Hadd Ht Hp Hfar.
  unfold handle, vote_in_poll. rewrite Hfrom, Hev. cbn [negb decoded mbind result_bind].
  assert (absent_or_expired (verifier self) height ev = false) as ->.
  { by apply absent_or_expired_spec. }
  unfold cast_votes. rewrite (try_map_panics _ _ (InterchainTransferMessage m)); [done| |done|].
  { intros m' err. destruct (_ !! _); [apply verify_message_no_err|done]. }
  assert (validated_txs node (list_to_set (tx_id <$> poll_messages (evm.poll_content ev))) !!
    tx_id (InterchainTransferMessage m) = Some t) as ->.
  { apply validated_txs_spec; [done|]. split; [|done]. apply elem_of_list_to_set, list_elem_of_fmap. eauto. }
  unfold verify_message, is_valid_message, is_valid_interchain_transfer_message.
  destruct Hpays as (c & p & mt & -> & Hd & Hmeta & Hdel & Hpaid & Hf). rewrite Hadd. unfold sent_by in Hsent.
  cbn [common] in Hsent. rewrite !bool_decide_eq_true_2 by done.
  unfold verify_delivered_full_amount; cbn [common]. rewrite Hmeta, bool_decide_eq_true_2 by done.
  cbn [andb]. unfold all_of, verify_amount. rewrite Hpaid. unfold payment_le, payment_partial_cmp.
  rewrite bool_decide_eq_true_2 by done. destruct (partial_cmp_exact total paid Ht Hp) as [[Hc _]|[_ ->]]; done.
Qed.

End handle.
End xrpl.

(** ** Signing ([handlers/xrpl_multisig.rs]) *)
Module xrpl_multisig.
Import events handlers xrpl_types multisig_handler.

Section handle.
Context `{Json} `{Crypto} `{XrplCrypto}.

(** On the XRP Ledger every signer of a transaction signs a digest of its own: the transaction with
    the signer's account. *)
Definition handle (deserialize : gmap string Value → option SigningStartedEvent)
    (sign : string → string → key.PublicKey → Algorithm → option string)
    (self : Handler) (latest_block_height : Z) (e : events.Event) : result Error (list Msg) :=
  if negb (is_from_contract e (multisig self)) then Ok []
  else
    ev ← decoded (try_into "wasm-signing_started" deserialize e);
    match ev with
    | None => Ok []
    | Some ev =>
        if bool_decide (chain ev ≠ handler_chain self) then Ok []
        else if bool_decide (expires_at ev ≤ latest_block_height) then Ok []
        else
          match pub_keys ev !! verifier self with
          | Some pub_key =>
              multisig_pub_key ← map_err (λ _, PublicKey)
                (multisig.pub_key_try_from key.Ecdsa (key.pub_key_bytes pub_key));
              xrpl_address ← account_of_key multisig_pub_key;
              let msg_digest := message_to_sign (msg ev) xrpl_address in
              signature ← ok_or Sign (sign (multisig self) msg_digest pub_key Ecdsa);
              Ok [SubmitSignatureMsg (verifier self) (multisig self) (session_id ev) signature]
          | None => Ok []
          end
    end.

(** What the handler signed: the digest of a session's transaction for the account of its key. *)
Definition signs_digest (deserialize : gmap string Value → option SigningStartedEvent)
    (sign : string → string → key.PublicKey → Algorithm → option string) (self : Handler) (e : events.Event)
    (msg_ account_ sig : string) : Prop :=
  ∃ ev pub_key multisig_pub_key,
    try_into "wasm-signing_started" deserialize e = Ok ev ∧ msg_ = msg ev ∧
    pub_keys ev !! verifier self = Some pub_key ∧
    multisig.pub_key_try_from key.Ecdsa (key.pub_key_bytes pub_key) = Ok multisig_pub_key ∧
    String.length (key.pub_key_bytes multisig_pub_key) = 33%nat ∧
    account_ = ripemd160 (sha256 (key.pub_key_bytes multisig_pub_key)) ∧
    sign (multisig self) (message_to_sign msg_ account_) pub_key Ecdsa = Some sig.

Lemma handle_signs_digest deserialize sign self height e sender contract i sig :
  handle deserialize sign self height e = Ok [SubmitSignatureMsg sender contract i sig] →
  sender = verifier self ∧ contract = multisig self ∧
  ∃ msg_ account_, signs_digest deserialize sign self e msg_ account_ sig.
Proof.
  intros Hf. unfold handle in Hf.
  destruct (is_from_contract _ _); cbn in Hf; [|done].
  destruct (try_into _ _ _) as [ev|err|] eqn:Hev; cbn in Hf; [|by destruct err|done].
  destruct (bool_decide _); [done|]. destruct (bool_decide _); [done|].
  destruct (pub_keys ev !! verifier self) as [pk|] eqn:Hpk; [|done].
  apply bind_Ok in Hf as (mpk & Hmpk%map_err_Ok & Hf). apply bind_Ok in Hf as (a & Ha & Hf).
  unfold account_of_key in Ha. apply bind_Ok in Ha as (u & Hlen%assert_true_Ok%bool_decide_eq_true & [= <-]).
  apply bind_Ok in Hf as (s & Hs%ok_or_Ok & [= <- <- <- <-]). split; [done|]. split; [done|].
  eexists _, _, ev, pk, mpk. split_and!; [done|done|done|done|done|reflexivity|exact Hs].
Qed.

(** What the signers of a transaction sign. *)
Definition signed_preimage (msg_ account_ : string) : string :=
  UNSIGNED_TRANSACTION_MULTI_SIGNING_HASH_PREFIX +:+ (msg_ +:+ account_).

Lemma signed_preimage_inj m a m' a' :
  String.length a = String.length a' → signed_preimage m a = signed_preimage m' a' → m = m' ∧ a = a'.
Proof.
  intros Hl Heq%encoding.text_inj_append. apply (f_equal text_of) in Heq.
  rewrite !chain.text_of_app in Heq. apply app_inj_2 in Heq as [Hm Ha]; [|by rewrite !chain.text_of_length].
  by apply chain.text_of_inj in Hm, Ha.
Qed.

(** The digest of a signature binds the transaction and the signer: unless the first half of SHA-512
    collides, handlers that sign the same digest sign the same transaction for the same account, and
    no digest is the hash of a signed transaction. *)
Theorem xrpl_digest_binds (deserialize : gmap string Value → option SigningStartedEvent)
    (sign sign' : string → string → key.PublicKey → Algorithm → option string) (self self' : Handler)
    (h h' : Z) (e e' : events.Event) (sender sender' contract contract' : Addr) (i i' : Z) (sig sig' : string) :
  (∀ s, String.length (ripemd160 s) = 20%nat) →
  handle deserialize sign self h e = Ok [SubmitSignatureMsg sender contract i sig] →
  handle deserialize sign' self' h' e' = Ok [SubmitSignatureMsg sender' contract' i' sig'] →
  ∃ m a m' a', signs_digest deserialize sign self e m a sig ∧ signs_digest deserialize sign' self' e' m' a' sig' ∧
    ((message_to_sign m a = message_to_sign m' a' → signed_preimage m a = signed_preimage m' a') →
     message_to_sign m a = message_to_sign m' a' → m = m' ∧ a = a') ∧
    (∀ blob, message_to_sign m a = hash_signed_tx blob →
       signed_preimage m a ≠ SIGNED_TRANSACTION_HASH_PREFIX +:+ blob).
Proof.
  intros Hr (_ & _ & m & a & Hs)%handle_signs_digest (_ & _ & m' & a' & Hs')%handle_signs_digest.
  exists m, a, m', a'. split; [done|]. split; [done|]. split.
  - intros Hinj Heq. apply signed_preimage_inj; [|by apply Hinj].
    destruct Hs as (? & ? & ? & _ & _ & _ & _ & _ & -> & _), Hs' as (? & ? & ? & _ & _ & _ & _ & _ & -> & _).
    by rewrite !Hr.
  - intros blob _ Heq. apply (f_equal (String.get 0)) in Heq. by vm_compute in Heq.
Qed.

End handle.
End xrpl_multisig.

(** ** A concrete run *)
Module ampd_xrpl_run.
Import voting events handlers voting_handler xrpl_types xrpl_msg xrpl codecs.

#[local] Existing Instance xrpl_amount_run.run_uint256.
#[local] Existing Instance xrpl_run.run_crypto.
#[local] Instance run_xrpl_crypto : XrplCrypto := {|
  sha256 _ := xrpl_run.bytes_of 32 "x";
  sha512 _ := xrpl_run.bytes_of 64 "x";
  ripemd160 _ := xrpl_run.bytes_of 20 "x";
  ripple_encode s := s;
  ripple_decode s := Some s
|}.
#[local] Existing Instance ampd_stream_run.run_json.

Definition hex_of (s : string) : string := String.string_of_list_ascii (to_hex (text_of s)).
Definition memo (k v : string) : Memo := mkMemo (Some (hex_of k)) (Some (hex_of v)).

Definition run_multisig : string := xrpl_run.bytes_of 20 "m".
Definition run_user : string := xrpl_run.bytes_of 20 "s".
Definition run_hash (c : ascii) : string := xrpl_run.bytes_of 32 c.

(** A call that pays a million drops, and a payment of the smallest amount of a token. *)
Definition run_payment (c : ascii) (a : Amount) (ms : list Memo) : Transaction :=
  Payment (mkCommon (account_to_string run_user) (Some ms) (Some (hex_of (run_hash c))) (Some true)
             (Some (mkMeta Tes (Some a))))
    (mkPayment a (account_to_string run_multisig) []).
Definition run_payload : string := "payload".
Definition run_call_tx : Transaction :=
  run_payment "a" (AmountDrops "1000000")
    [memo "type" "call_contract"; memo "destination_chain" "ethereum"; memo "destination_address" "0xdest";
     memo "payload" run_payload].
Definition run_token : XRPLToken := mkToken (xrpl_run.bytes_of 20 "i") (zeros 12 +:+ "USD" +:+ zeros 5).
Definition run_dust_tx : Transaction :=
  run_payment "b" (AmountIssued "1e-81" "USD" (account_to_string (issuer run_token))) [].

Definition run_node : Node := λ id,
  if bool_decide (id = hex_of (run_hash "a")) then Ok run_call_tx
  else if bool_decide (id = hex_of (run_hash "b")) then Ok run_dust_tx
  else Err (ApiError "txnNotFound").

Definition run_call (fee : Z) : XRPLMessage :=
  CallContractMessage (mkCall (run_hash "a") run_user "ethereum" "0xdest" (keccak256 run_payload) (Drops fee)).
Definition run_reserves : XRPLMessage := AddReservesMessage (mkAddReserves (run_hash "c") 5).
Definition run_dust : XRPLInterchainTransferMessage :=
  mkTransfer (run_hash "b") run_user "ethereum" "0xdest" None
    (Issued run_token xrpl_amount_run.one) (Issued run_token xrpl_amount_run.one).

Definition run_poll (ms : list XRPLMessage) : evm.PollStartedEvent Poll :=
  evm.mkPollStarted 5 "xrpl" "" 1 10 (mkPoll run_multisig ms) ["alice"].
Definition run_handler : Handler := mkHandler "alice" "verifier".

Lemma xrpl_run_answers : answers_asked run_node.
Proof.
  intros id t h Ht Hh. unfold tx, run_node in Ht.
  assert (∀ c, hex_of id = hex_of (run_hash c) → id = run_hash c) as Hid.
  { intros c Heq. apply chain.text_of_inj. apply (f_equal text_of) in Heq. unfold hex_of in Heq.
    rewrite !text_of_list in Heq. apply (f_equal from_hex) in Heq. rewrite !from_to_hex in Heq. by injection Heq. }
  fold (hex_of id) in Ht.
  destruct (bool_decide_reflect (hex_of id = hex_of (run_hash "a"))) as [->%Hid|].
  { injection Ht as <-. vm_compute in Hh. by injection Hh as <-. }
  destruct (bool_decide_reflect (hex_of id = hex_of (run_hash "b"))) as [->%Hid|]; [|done].
  injection Ht as <-. vm_compute in Hh. by injection Hh as <-.
Qed.

Definition run_messages : list XRPLMessage := [run_call 1000000; run_call 7; run_reserves].

Lemma xrpl_votes_exact_witness :
  Forall2 (vote_is
      (λ m, ∃ t, on_ledger run_node (tx_id m) t ∧ performs run_multisig t m ∧ is_successful_tx t = true)
      (λ m, ∃ t, on_ledger run_node (tx_id m) t ∧ performs run_multisig t m ∧ is_successful_tx t = false))
    run_messages [SucceededOnChain; VoteNotFound; VoteNotFound].
Proof.
  destruct (xrpl_votes_exact (λ _, Some (run_poll run_messages)) run_handler run_node 7
    (ampd_evm_run.run_event "wasm-messages_poll_started")
    [VoteMsg "alice" "verifier" 5 [SucceededOnChain; VoteNotFound; VoteNotFound]] xrpl_run_answers)
    as [[[=] _]|(ev & votes & (_ & Hev & _) & Heq & Hv)]; [vm_compute; reflexivity|].
  injection Hev as <-. injection Heq as <-. exact Hv.
Defined.

(** A poll about a transfer of one token, for a payment of the smallest amount of it. *)
Lemma xrpl_handler_panics_witness :
  handle (λ _, Some (run_poll [run_call 1000000; InterchainTransferMessage run_dust])) run_handler run_node 7
    (ampd_evm_run.run_event "wasm-messages_poll_started") = Panic.
Proof.
  apply (xrpl_handler_panics _ run_handler run_node 7 _
    (run_poll [run_call 1000000; InterchainTransferMessage run_dust]) run_dust run_dust_tx run_token
    (mkAmount 2000000000000000 (-15)) xrpl_amount_run.smallest xrpl_run_answers).
  - split; [by vm_compute|]. split; [reflexivity|]. split; [set_solver|done].
  - set_solver.
  - split; by vm_compute.
  - do 3 eexists. split; [reflexivity|]. split_and!; by vm_compute.
  - reflexivity.
  - by vm_compute.
  - split; vm_compute; [right|]; done.
  - exact xrpl_amount_run.smallest_wf.
  - intros [[H _] _]. by vm_compute in H.
Defined.

End ampd_xrpl_run.
