(* ===== verification/AmpdHandlers.v ===== *)
(** * Handlers as processes of their own

    [packages/ampd-sdk] and [ampd-handlers]: a handler that runs outside of the daemon, and talks to
    it with gRPC. The connection to the daemon ([grpc/connection_pool.rs]), the services of the
    daemon ([ampd/src/grpc]) with the client for them ([grpc/client]), the task that hands events to a
    handler ([event/event_handler.rs]), the voting handler that is the same for every chain
    ([ampd-handlers/src/voting.rs]) and the handlers for EVM chains, Sui and Stellar, for events and
    for signing ([ampd-handlers/src/bin]), and the command that registers the key they sign with
    ([ampd/src/commands/register_public_key.rs]).

    What the voting handler does for any chain is proved once, from what a chain's receipts show,
    and then for the chains that implement its interface, [VotingHandler]; the handlers for EVM
    chains and for signing are compared with those of the daemon. *)

From Stdlib Require Import Ascii.
From S2P Require Import Prelude Std Voting MsgId RouterApi Multisig MultisigProver Encoding.
From S2P Require Import AmpdStream AmpdEvm AmpdChains.

(** ** Retries ([ampd-sdk/src/future/mod.rs]) *)
Module sdk_future.

Inductive RetryPolicy := RepeatConstant (max_attempts : Z) | NoRetry.

Definition max_attempts (self : RetryPolicy) : Z :=
  match self with RepeatConstant max_attempts => max_attempts | NoRetry => 1 end.

(** [future k] is what the call after [k] failed ones returns. *)
Fixpoint retry_loop {Err' R} (fuel : nat) (future : Z → result Err' R) (policy : RetryPolicy)
    (attempts : Z) : option (result Err' R) :=
  match fuel with
  | O => None
  | S fuel =>
      match future attempts with
      | Ok result => Some (Ok result)
      | Err err =>
          let attempts := saturating_add u64_max attempts 1 in
          if bool_decide (max_attempts policy ≤ attempts) then Some (Err err)
          else retry_loop fuel future policy attempts
      | Panic => Some Panic
      end
  end.

Definition with_retry {Err' R} (future : Z → result Err' R) (policy : RetryPolicy)
    : option (result Err' R) :=
  retry_loop (Z.to_nat (Z.max 1 (max_attempts policy))) future policy 0.

(** The retries of the daemon and of the handlers are the same. *)
Lemma with_retry_same {Err' R} (future : Z → result Err' R) policy :
  with_retry future policy = retry.with_retry future (retry.RepeatConstant (max_attempts policy)).
Proof.
  assert (∀ n c, retry_loop n future policy c =
    retry.retry_loop n future (retry.RepeatConstant (max_attempts policy)) c) as Heq; [|apply Heq].
  induction n as [|n IH]; intros c; [done|]. cbn [retry_loop retry.retry_loop retry.enact_policy].
  destruct (future c); [done| |done]. case_bool_decide; [done|apply IH].
Qed.

Lemma with_retry_first {Err' R} (future : Z → result Err' R) policy :
  max_attempts policy ≤ u64_max →
  ∃ k, 0 ≤ k < Z.max 1 (max_attempts policy) ∧ with_retry future policy = Some (future k) ∧
    (∀ j, 0 ≤ j < k → retry.is_err (future j) = true) ∧
    (retry.is_err (future k) = true → k + 1 = Z.max 1 (max_attempts policy)).
Proof.
  intros Hmax. rewrite with_retry_same. set (p := retry.RepeatConstant _).
  destruct (retry.retry_loop_spec future p 0 (retry.attempts p)) as (k & Hk & Hr & He & Hl);
    [lia|done|lia|unfold retry.attempts; lia|].
  unfold retry.attempts in Hk, Hl; cbn in Hk, Hl. exists k. split_and!; [lia|lia|done|done|].
  intros Herr%Hl. lia.
Qed.

End sdk_future.

(** ** The connection to the daemon ([ampd-sdk/src/grpc/connection_pool.rs]) *)
Module connection_pool.
Import sdk_future.

Section pool.
Context {Channel : Type}.

Inductive Error := GrpcConnection | ServerDisconnected.
Inductive ConnectionState := Connected (channel : Channel) | Disconnected | Shutdown.
Inductive ClientConnectionState := ClientConnected (channel : Channel) | ClientShutdown.

Definition DEFAULT_RETRY_POLICY : RetryPolicy := RepeatConstant 3.

(** The pool, with the number of failures that clients reported and that wait in its channel. *)
Record ConnectionPool := mkPool {
  connection_state : ConnectionState;
  message_receiver : nat;
  is_reconnecting : bool
}.

Definition new : ConnectionPool := mkPool Disconnected 0 false.

Definition notify_clients (self : ConnectionPool) (state : ConnectionState) : ConnectionPool :=
  mkPool state (message_receiver self) (is_reconnecting self).

(** [endpoint k] is what the endpoint answers to the [k]-th attempt of a reconnection. *)
Definition connect (endpoint : Z → option Channel) (k : Z) : result Error Channel :=
  ok_or GrpcConnection (endpoint k).

Definition start_reconnection (self : ConnectionPool) (endpoint : Z → option Channel)
    : ConnectionPool :=
  let self := mkPool (connection_state self) 0 true in
  let self := match with_retry (connect endpoint) DEFAULT_RETRY_POLICY with
              | Some (Ok channel) => notify_clients self (Connected channel)
              | _ => notify_clients self Disconnected
              end in
  mkPool (connection_state self) (message_receiver self) false.

(** What the loop of the pool receives. *)
Inductive Input := ReportedFailure (endpoint : Z → option Channel) | Cancelled.

Definition on_message (self : ConnectionPool) (endpoint : Z → option Channel) : ConnectionPool :=
  let self := mkPool (connection_state self) (message_receiver self - 1) (is_reconnecting self) in
  if is_reconnecting self then self else start_reconnection self endpoint.

Fixpoint run_loop (self : ConnectionPool) (inputs : list Input) : ConnectionPool :=
  match inputs with
  | [] => self
  | ReportedFailure endpoint :: inputs => run_loop (on_message self endpoint) inputs
  | Cancelled :: _ => notify_clients self Shutdown
  end.

Definition run (self : ConnectionPool) (endpoint : option Channel) (inputs : list Input)
    : ConnectionPool :=
  run_loop (match endpoint with
            | Some channel => notify_clients self (Connected channel)
            | None => self
            end) inputs.

Definition request_reconnect (self : ConnectionPool) : ConnectionPool :=
  mkPool (connection_state self) (S (message_receiver self)) (is_reconnecting self).

(** A client that waits for a channel, with the pool that serves it: a reconnection for each of
    its requests, until the timeout, which is after the last of [endpoints]. *)
Fixpoint connected_channel (pool : ConnectionPool) (endpoints : list (Z → option Channel))
    : result Error ClientConnectionState :=
  match connection_state pool with
  | Connected channel => Ok (ClientConnected channel)
  | Shutdown => Ok ClientShutdown
  | Disconnected =>
      match endpoints with
      | [] => Err ServerDisconnected
      | endpoint :: endpoints =>
          connected_channel (on_message (request_reconnect pool) endpoint) endpoints
      end
  end.

(** *** What the pool does *)

(** The first of three attempts that succeeds. *)
Definition first_channel (endpoint : Z → option Channel) : option Channel :=
  match endpoint 0 with
  | Some c => Some c
  | None => match endpoint 1 with Some c => Some c | None => endpoint 2 end
  end.

Lemma reconnects endpoint :
  with_retry (connect endpoint) DEFAULT_RETRY_POLICY =
  Some (ok_or GrpcConnection (first_channel endpoint)).
Proof.
  unfold with_retry, connect, first_channel. change (Z.to_nat _) with 3%nat. cbn [retry_loop].
  destruct (endpoint 0); [done|]. cbn [ok_or].
  change (saturating_add u64_max 0 1) with 1. cbn [retry_loop].
  destruct (endpoint 1); [done|]. cbn [ok_or].
  change (saturating_add u64_max 1 1) with 2. cbn [retry_loop]. by destruct (endpoint 2).
Qed.

Lemma on_message_spec pool endpoint :
  is_reconnecting pool = false →
  on_message pool endpoint =
    mkPool (match first_channel endpoint with Some c => Connected c | None => Disconnected end) 0 false.
Proof.
  intros Hp. unfold on_message. cbn [is_reconnecting]. rewrite Hp. unfold start_reconnection.
  rewrite reconnects. by destruct (first_channel endpoint).
Qed.

Definition cancelled (inputs : list Input) : bool :=
  existsb (λ i, match i with Cancelled => true | _ => false end) inputs.
Definition state_of (channel : option Channel) : ConnectionState :=
  match channel with Some channel => Connected channel | None => Disconnected end.

Lemma run_loop_spec pool inputs :
  is_reconnecting pool = false →
  is_reconnecting (run_loop pool inputs) = false ∧
  (cancelled inputs = true → connection_state (run_loop pool inputs) = Shutdown) ∧
  (cancelled inputs = false →
   ∀ before e, inputs = before ++ [ReportedFailure e] →
     run_loop pool inputs = mkPool (state_of (first_channel e)) 0 false).
Proof.
  revert pool. induction inputs as [|[endpoint|] inputs IH]; intros pool Hp; cbn.
  - split; [done|]. split; [done|]. by intros _ [].
  - destruct (IH (on_message pool endpoint)) as (IH1 & IH2 & IH3); [by rewrite on_message_spec|].
    split; [done|]. split; [done|]. intros Hc [|i before] e Heq.
    + injection Heq as -> ->. cbn. by rewrite on_message_spec.
    + injection Heq as _ Heq. by eapply IH3.
  - done.
Qed.

(** The pool is never found reconnecting, so that it never ignores a client. After a failure that
    was reported, it has the channel of the first of three attempts that succeeded, or is
    disconnected, and all the failures that waited are answered with it; it is shut down once it
    is cancelled. *)
Theorem pool_state_exact (endpoint : option Channel) (inputs : list Input) :
  is_reconnecting (run new endpoint inputs) = false ∧
  (inputs = [] → connection_state (run new endpoint inputs) = state_of endpoint) ∧
  (cancelled inputs = true → connection_state (run new endpoint inputs) = Shutdown) ∧
  (cancelled inputs = false → ∀ before e, inputs = before ++ [ReportedFailure e] →
     run new endpoint inputs = mkPool (state_of (first_channel e)) 0 false).
Proof.
  unfold run. set (pool := match endpoint with Some _ => _ | None => _ end).
  assert (is_reconnecting pool = false) as Hp by (subst pool; by destruct endpoint).
  destruct (run_loop_spec pool inputs Hp) as (E1 & E2 & E3). split; [done|]. split; [|done].
  intros ->. subst pool. by destruct endpoint.
Qed.

(** A client of a disconnected pool gets a channel exactly when one of the reconnections that it
    asks for before its timeout succeeds, and it is the channel of the first one. *)
Theorem client_connects_exact (pool : ConnectionPool) (endpoints : list (Z → option Channel)) :
  is_reconnecting pool = false → connection_state pool = Disconnected →
  connected_channel pool endpoints =
    match omap first_channel endpoints with
    | channel :: _ => Ok (ClientConnected channel)
    | [] => Err ServerDisconnected
    end.
Proof.
  revert pool. induction endpoints as [|endpoint endpoints IH]; intros pool Hp Hd; cbn; rewrite Hd; [done|].
  rewrite on_message_spec by done. destruct (first_channel endpoint) as [c|] eqn:Hc; [by destruct endpoints|].
  by apply IH.
Qed.

End pool.
End connection_pool.

(** ** The services of the daemon and the client for them

    [ampd/src/grpc] and [ampd-sdk/src/grpc/client]. *)
Module grpc.
Import events event_sub multisig_handler.
Export tofnd(Code(..)).

(** [ampd-sdk/src/grpc/error.rs]; a [GrpcError] is what a code stands for. *)
Inductive Error := GrpcStatus (code : Code) | InvalidByteArray | EventConversion | InvalidResponse
  | ConnectionUnavailable | PoolShutdown.

(** [reqs.rs] *)
Inductive ReqError := InvalidFilter | EmptyKeyId | InvalidCryptoAlgorithm | InvalidSignMsg.

(** The algorithm of a request, as it is read from its number. *)
Inductive ProtoAlgorithm := ProtoEcdsa | ProtoEd25519 | ProtoOther.
Record KeyId := mkKeyId { key_id : string; key_algorithm : ProtoAlgorithm }.
Definition default_key_id : KeyId := mkKeyId "" ProtoOther.

Definition validate_key_id (k : KeyId) : result ReqError (string * Algorithm) :=
  _ ← ensure (bool_decide (key_id k ≠ "")) EmptyKeyId;
  algorithm ← match key_algorithm k with
              | ProtoEcdsa => Ok Ecdsa
              | ProtoEd25519 => Ok Ed25519
              | ProtoOther => Err InvalidCryptoAlgorithm
              end;
  Ok (key_id k, algorithm).

Definition validate_sign (k : option KeyId) (msg : string)
    : result ReqError (string * Algorithm * string) :=
  '(id, algorithm) ← validate_key_id (default default_key_id k);
  _ ← ensure (bool_decide (String.length msg = 32%nat)) InvalidSignMsg;
  Ok (id, algorithm, msg).

(** [status.rs] *)
Definition status_of_req (e : ReqError) : Code := InvalidArgument.
Definition status_of_event_sub (e : stream.Error) : Code :=
  match e with
  | stream.LatestBlockQuery | stream.BlockResultsQuery _ => Unavailable
  | stream.EventDecoding _ => Internal
  | stream.BroadcastStreamRecv _ => DataLoss
  end.

Definition status_of_tofnd (e : tofnd.Error) : Code :=
  match e with
  | tofnd.GrpcConnection => Unavailable
  | tofnd.GrpcRequest status => status
  | tofnd.InvalidKeygenResponse | tofnd.InvalidSignResponse | tofnd.ExecutionFailed _ => Internal
  end.

(** *** Signing ([crypto_service.rs]) *)

(** The signer ([tofnd::Multisig]). *)
Record Signer := mkSigner {
  keygen : string → Algorithm → tofnd.Error + key.PublicKey;
  tofnd_sign : string → string → key.PublicKey → Algorithm → tofnd.Error + string
}.
Definition tofnd_result {A} (answer : tofnd.Error + A) : result Code A :=
  match answer with inl e => Err (status_of_tofnd e) | inr a => Ok a end.

Definition sign_service (signer : Signer) (k : option KeyId) (msg : string) : result Code string :=
  '(id, algorithm, msg_hash) ← map_err status_of_req (validate_sign k msg);
  pub_key ← tofnd_result (keygen signer id algorithm);
  tofnd_result (tofnd_sign signer id msg_hash pub_key algorithm).

Record Key := mkKey { id : string; algorithm : Algorithm }.
Definition key_id_from (k : Key) : KeyId :=
  mkKeyId (id k) (match algorithm k with Ecdsa => ProtoEcdsa | Ed25519 => ProtoEd25519 end).

(** The client's [sign]. *)
Definition client_sign (signer : Signer) (k : option Key) (message : string) : result Error string :=
  signature ← map_err GrpcStatus (sign_service signer (key_id_from <$> k) message);
  _ ← ensure (bool_decide (signature ≠ "")) InvalidByteArray;
  Ok signature.

(** A digest is signed with the key that the signer holds under the name; nothing else is
    signed. *)
Lemma client_sign_spec signer k message pk :
  id k ≠ "" → keygen signer (id k) (algorithm k) = inr pk →
  client_sign signer (Some k) message =
    if bool_decide (String.length message = 32%nat) then
      signature ← map_err GrpcStatus (tofnd_result (tofnd_sign signer (id k) message pk (algorithm k)));
      _ ← ensure (bool_decide (signature ≠ "")) InvalidByteArray;
      Ok signature
    else Err (GrpcStatus InvalidArgument).
Proof.
  intros Hid Hk. unfold client_sign, sign_service, validate_sign, validate_key_id.
  destruct k as [i a]. cbn -[bool_decide] in *. rewrite (bool_decide_eq_true_2 (i ≠ "")) by done.
  destruct a; cbn -[bool_decide]; (destruct (bool_decide_reflect (String.length message = 32%nat)); [|done]);
    cbn -[bool_decide]; by rewrite Hk.
Qed.

(** *** Subscriptions ([blockchain_service.rs]) *)

Section subscribe.
Context `{Json} `{Heights} (parse : string → option Addr).

(** [events::AbciEventTypeFilter] *)
Record AbciEventTypeFilter := mkTypeFilter {
  filter_event_type : string;
  filter_contract : Addr;
  filter_attributes : gmap string Value
}.
Record SubscriptionParams := mkParams {
  event_filters : list AbciEventTypeFilter;
  params_block_begin_end : bool
}.

(** [TryFrom<(Vec<ampd_proto::EventFilter>, bool)> for EventFilters], on the filters of the
    client's request. *)
Definition filters_try_from (params : SubscriptionParams) : result FilterError EventFilters :=
  filters ← try_map (λ f, filter_try_from parse (filter_event_type f) (filter_contract f)
                       (value_to_string <$> filter_attributes f)) (event_filters params);
  Ok (mkFilters filters (params_block_begin_end params)).

Record SubscribeResponse := mkResponse { response_event : option ProtoEvent }.

(** The stream of the service, on what its subscription to the publisher receives. *)
Definition subscribe_service (params : SubscriptionParams)
    (r : list (result stream.BroadcastStreamRecvError (result stream.Error Event)))
    : result Code (list (result Code SubscribeResponse)) :=
  filters ← map_err (λ _, status_of_req InvalidFilter) (filters_try_from params);
  Ok ((λ r, map_err status_of_event_sub ((mkResponse ∘ Some ∘ into_proto) <$> r)) <$>
        subscription filters (event_sub.subscribe r)).

(** A call of a service with a stream of responses, over [tonic]: the call may fail; the responses
    arrive in their order, until the connection breaks, if it does, after a number of them; and
    the first status ends the stream. *)
Record Transport := mkTransport { unreachable : option Code; broken : option (nat * Code) }.

Fixpoint until_status {A} (l : list (result Code A)) : list (result Code A) :=
  match l with
  | Ok a :: l => Ok a :: until_status l
  | status :: _ => [status]
  | [] => []
  end.
Definition streamed {A} (self : Transport) (l : list (result Code A)) : list (result Code A) :=
  until_status (match broken self with Some (k, status) => take k l ++ [Err status] | None => l end).
Definition transported {A} (self : Transport) (answer : result Code (list (result Code A)))
    : result Code (list (result Code A)) :=
  match unreachable self with
  | Some status => Err status
  | None => responses ← answer; Ok (streamed self responses)
  end.

(** The client's [channel], from the pool of connections. *)
Definition channel {Channel} (pool : connection_pool.ConnectionPool (Channel := Channel))
    (endpoints : list (Z → option Channel)) : result Error Channel :=
  match connection_pool.connected_channel pool endpoints with
  | Ok (connection_pool.ClientConnected channel) => Ok channel
  | Ok connection_pool.ClientShutdown => Err PoolShutdown
  | _ => Err ConnectionUnavailable
  end.

(** The client's [subscribe]. *)
Definition transformed (r : result Code SubscribeResponse) : result Error Event :=
  match r with
  | Ok response =>
      match response_event response with
      | Some event => map_err (λ _, EventConversion) (try_from_proto event)
      | None => Err InvalidResponse
      end
  | Err status => Err (GrpcStatus status)
  | Panic => Panic
  end.
Definition subscribe {Channel} (pool : connection_pool.ConnectionPool (Channel := Channel))
    (endpoints : list (Z → option Channel)) (transport : Transport) (params : SubscriptionParams)
    (r : list (result stream.BroadcastStreamRecvError (result stream.Error Event)))
    : result Error (list (result Error Event)) :=
  _ ← channel pool endpoints;
  streaming_response ← map_err GrpcStatus (transported transport (subscribe_service params r));
  Ok (transformed <$> (streaming_response : list (result Code SubscribeResponse))).

(** *** What arrives at a handler *)

(** A filter for a type and an address of a contract. *)
Definition filter_wf (f : AbciEventTypeFilter) : Prop :=
  filter_event_type f ≠ "" ∧ filter_contract f ≠ "" ∧
  parse (filter_contract f) = Some (filter_contract f).

Definition selects (f : AbciEventTypeFilter) (e : Event) : Prop :=
  match e with
  | Abci event_type attributes =>
      event_type = filter_event_type f ∧ contract_address e = Some (filter_contract f) ∧
      filter_attributes f ⊆ attributes
  | _ => False
  end.
#[global] Instance selects_dec f e : Decision (selects f e).
Proof. destruct e; cbn [selects]; apply _. Defined.

(** What a subscription is for. *)
Definition asked_for (params : SubscriptionParams) (r : result stream.Error Event) : Prop :=
  match r with
  | Ok (Abci t a) => Exists (λ f, selects f (Abci t a)) (event_filters params)
  | Ok _ => params_block_begin_end params = true
  | _ => True
  end.
#[global] Instance asked_for_dec params r : Decision (asked_for params r).
Proof. destruct r as [[]| |]; cbn [asked_for]; apply _. Defined.

Lemma filter_request `{!JsonLaws} f :
  filter_wf f →
  filter_try_from parse (filter_event_type f) (filter_contract f) (value_to_string <$> filter_attributes f) =
    Ok (mkFilter (Some (filter_event_type f)) (Some (filter_contract f)) (filter_attributes f)).
Proof.
  intros (Ht & Hc & Hp). unfold filter_try_from. rewrite !bool_decide_eq_false_2 by done.
  rewrite Hp. cbn -[build]. unfold build. rewrite bool_decide_eq_false_2 by (by intros (? & _)).
  do 2 f_equal. rewrite <-map_fmap_compose. rewrite <-(map_fmap_id (filter_attributes f)) at 2.
  apply map_fmap_ext. intros k v _. cbn. by rewrite from_str_to_string.
Qed.

Lemma filter_selects f t a :
  filter_matches (mkFilter (Some (filter_event_type f)) (Some (filter_contract f)) (filter_attributes f))
    t (contract_address (Abci t a)) a = true ↔ selects f (Abci t a).
Proof.
  unfold filter_matches, selects. cbn [event_type contract attributes].
  rewrite !andb_true_iff, !bool_decide_eq_true, map_subseteq_spec. unfold map_Forall. naive_solver.
Qed.

Definition filter_of (f : AbciEventTypeFilter) : EventFilter :=
  mkFilter (Some (filter_event_type f)) (Some (filter_contract f)) (filter_attributes f).

Lemma filters_request `{!JsonLaws} params :
  Forall filter_wf (event_filters params) →
  filters_try_from params =
    Ok (mkFilters (filter_of <$> event_filters params) (params_block_begin_end params)).
Proof.
  intros Hwf. unfold filters_try_from.
  assert (∀ fs, Forall filter_wf fs → try_map (λ f, filter_try_from parse (filter_event_type f)
    (filter_contract f) (value_to_string <$> filter_attributes f)) fs = Ok (filter_of <$> fs)) as ->;
    [|done|done].
  induction fs as [|f fs IH]; intros Hfs; [done|]. inversion_clear Hfs. cbn [try_map].
  rewrite filter_request, IH by done. done.
Qed.

Lemma passes_asked params r :
  event_filters params ≠ [] →
  passes (mkFilters (filter_of <$> event_filters params) (params_block_begin_end params)) r = true ↔
  asked_for params r.
Proof.
  intros Hne. destruct r as [[h|h|t a]| |]; cbn; [reflexivity..| |done|done].
  unfold filter_abci_event. cbn [filters].
  rewrite bool_decide_eq_false_2 by (by intros ?%fmap_nil_inv).
  rewrite <-Is_true_true, existb_True, Exists_fmap. apply Exists_proper; [|done]. intros f.
  etrans; [apply Is_true_true|]. apply filter_selects.
Qed.

(** What a stream yields: the first of the responses before a status, all of them if the connection
    holds, and then at most that status. *)
Lemma streamed_spec {A} t (l : list (result Code A)) :
  ∃ k tail, streamed t l = (Ok <$> take k (leading l)) ++ tail ∧
    Forall (λ s, ∀ a, s ≠ Ok a) tail ∧ (broken t = None → take k (leading l) = leading l).
Proof.
  assert (∀ l : list (result Code A), ∃ tail, until_status l = (Ok <$> leading l) ++ tail ∧
    Forall (λ s, ∀ a, s ≠ Ok a) tail) as Hu.
  { clear l. induction l as [|[a|e|] l (tail & IH & Ht)]; cbn; [by exists []| |by eexists; split; [done|repeat constructor]..].
    exists tail. by rewrite IH. }
  unfold streamed. destruct (broken t) as [[k s]|].
  - destruct (Hu (take k l ++ [Err s])) as (tail & -> & Ht). exists k, tail. split; [|done].
    do 2 f_equal. clear. revert l. induction k as [|k IH]; intros l; cbn; [done|].
    destruct l as [|[a|e|] l]; cbn; [done| |done..]. by f_equal.
  - destruct (Hu l) as (tail & -> & Ht). exists (length (leading l)), tail. by rewrite firstn_all.
Qed.

Lemma leading_map {E E' A B} (f : E → E') (g : A → B) (l : list (result E A)) :
  leading ((λ r, map_err f (g <$> r)) <$> l) = g <$> leading l.
Proof. induction l as [|[a|e|] l IH]; cbn; [done|by f_equal|done..]. Qed.

(** A request with filters for types and contracts is accepted, and its client sees the first of
    the received events that one of them selects, in their order and as they were emitted, and
    then at most an error. *)
Lemma subscribe_exact `{!JsonLaws} `{!HeightLaws} {Channel} pool (endpoints : list (Z → option Channel))
    transport (params : SubscriptionParams) published r c :
  Forall filter_wf (event_filters params) → event_filters params ≠ [] →
  Forall (λ r, match r with Ok e => height_wf e | _ => True end) published →
  received published r →
  channel pool endpoints = Ok c → unreachable transport = None →
  ∃ done tail, subscribe pool endpoints transport params r = Ok ((Ok <$> done) ++ tail) ∧
    Ok <$> done `prefix_of` filter (asked_for params) published ∧
    Forall (λ s, ∀ e, s ≠ Ok e) tail ∧
    (∀ evs, published = Ok <$> evs → r = Ok <$> published → broken transport = None →
       Ok <$> done = filter (asked_for params) published).
Proof.
  intros Hwf Hne Hh Hr Hc Hu. unfold subscribe, subscribe_service, transported.
  rewrite Hc, Hu, filters_request by done. cbn [mbind result_bind map_err].
  set (fs := mkFilters _ _).
  assert (∀ l, filter (asked_for params) l = subscription fs l) as Hask.
  { intros l. unfold subscription. apply list_filter_iff. intros x. symmetry. by apply passes_asked. }
  rewrite Hask. match goal with |- context [streamed transport ?l] => set (responses := l) end.
  destruct (streamed_spec transport responses) as (k & tail & -> & Ht & Hall). unfold responses in *.
  rewrite leading_map in *. rewrite subscription_leading in *.
  set (seen := filter _ (leading (event_sub.subscribe r))) in *.
  assert (Ok <$> seen `prefix_of` subscription fs published) as Hseen.
  { unfold seen. rewrite <-subscription_ok. by apply subscription_prefix, received_leading. }
  assert (Forall height_wf seen) as Hhs.
  { apply Forall_forall. intros e He. rewrite Forall_forall in Hh. apply (Hh (Ok e)).
    destruct Hseen as [rest Heq]. unfold subscription in Heq.
    assert (Ok e ∈ filter (λ r, passes fs r = true) published) as [_ ?]%list_elem_of_filter; [|done].
    rewrite Heq. apply elem_of_app. left. by apply list_elem_of_fmap_2. }
  exists (take k seen), (transformed <$> tail). rewrite <-fmap_take in *. split_and!.
  - f_equal. rewrite fmap_app. f_equal. rewrite <-!list_fmap_compose. apply list_fmap_ext.
    intros i e He. cbn. rewrite Forall_forall in Hhs. rewrite event_proto_roundtrip; [done|].
    apply Hhs. apply list_elem_of_lookup_2 in He. by eapply subseteq_take.
  - etrans; [|exact Hseen]. apply fmap_prefix. exists (drop k seen). symmetry. apply take_drop.
  - apply Forall_fmap. eapply Forall_impl; [exact Ht|]. intros s Hs e. cbn. destruct s as [a| |]; [|done..].
    by destruct (Hs a).
  - intros evs -> -> Hb. specialize (Hall Hb).
    assert (take k seen = seen) as ->.
    { rewrite <-(firstn_all seen) at 2. apply (f_equal length) in Hall. rewrite !length_fmap, length_take in Hall.
      destruct (Nat.le_gt_cases (length seen) k); [by rewrite !take_ge|]. lia. }
    unfold seen. by rewrite received_whole, subscription_ok.
Qed.

(** Without a channel or when the call fails, the client has an error. *)
Lemma subscribe_fails {Channel} pool (endpoints : list (Z → option Channel)) transport params r :
  (∀ c, channel pool endpoints ≠ Ok c) ∨ unreachable transport ≠ None →
  ∃ e, subscribe pool endpoints transport params r = Err e.
Proof.
  unfold subscribe. intros Hor. destruct (channel pool endpoints) as [c|e|] eqn:Hc; cbn.
  - destruct Hor as [Hc'|Hu]; [by destruct (Hc' c)|]. unfold transported.
    destruct (unreachable transport); [by eexists|done].
  - by eexists.
  - unfold channel in Hc. by repeat case_match.
Qed.

End subscribe.
End grpc.

(** ** The task of a handler ([ampd-sdk/src/event/event_handler.rs]) *)
Module sdk_task.
Import events sdk_future grpc.

Inductive Error := EventStream.

Section task.
Context `{Json} {HandlerEvent HandlerError Any : Type}.

(** The trait: how an event is read, what the handler answers to it after a number of failed
    attempts, and what it subscribes to. *)
Record EventHandler := mkEventHandler {
  event_try_from : Event → result events.Error HandlerEvent;
  handle : HandlerEvent → Z → result HandlerError (list Any);
  subscription_params : SubscriptionParams
}.

Definition parse_event (self : EventHandler) (event : Event) : option HandlerEvent :=
  ok (event_try_from self event).

(** [None] when the handler failed; its panic is one of the task. *)
Definition handle_event (self : EventHandler) (retry_max_attempts : Z) (event : HandlerEvent)
    : result Error (option (list Any)) :=
  match with_retry (handle self event) (RepeatConstant retry_max_attempts) with
  | Some (Ok msgs) => Ok (Some msgs)
  | Some Panic => Panic
  | _ => Ok None
  end.

Definition process_event (self : EventHandler) (retry_max_attempts : Z)
    (element : result Error Event) : result Error (option (list Any)) :=
  match element with
  | Ok event =>
      match parse_event self event with
      | Some parsed => handle_event self retry_max_attempts parsed
      | None => Ok None
      end
  | _ => Ok None
  end.

(** The token is looked at for every element of the stream and for every message; it is
    cancelled from its [cancelled_at]-th look on, if ever. *)
Definition is_cancelled (cancelled_at : option nat) (looks : nat) : bool :=
  match cancelled_at with Some n => bool_decide (n ≤ looks)%nat | None => false end.

(** The messages that are broadcast, and the looks at the token. Whether a broadcast succeeds
    makes no difference. *)
Fixpoint broadcast_msgs (cancelled_at : option nat) (looks : nat) (msgs : list Any) : list Any * nat :=
  match msgs with
  | [] => ([], looks)
  | msg :: msgs =>
      if is_cancelled cancelled_at looks then ([], S looks)
      else let '(sent, looks) := broadcast_msgs cancelled_at (S looks) msgs in (msg :: sent, looks)
  end.

(** The loop on the elements of the stream; [None] is a timeout. *)
Fixpoint run_stream (self : EventHandler) (retry_max_attempts : Z) (cancelled_at : option nat)
    (looks : nat) (stream : list (option (result Error Event))) : list Any * result Error unit :=
  match stream with
  | [] => ([], Ok tt)
  | element :: stream =>
      if is_cancelled cancelled_at looks then ([], Ok tt)
      else
        let looks := S looks in
        match element with
        | None => run_stream self retry_max_attempts cancelled_at looks stream
        | Some element =>
            match process_event self retry_max_attempts element with
            | Ok (Some msgs) =>
                let '(sent, looks) := broadcast_msgs cancelled_at looks msgs in
                let '(sent', res) := run_stream self retry_max_attempts cancelled_at looks stream in
                (sent ++ sent', res)
            | Ok None => run_stream self retry_max_attempts cancelled_at looks stream
            | Err err => ([], Err err)
            | Panic => ([], Panic)
            end
        end
  end.

(** [run], on what the client receives for the subscription. *)
Definition run (self : EventHandler) (retry_max_attempts : Z) (cancelled_at : option nat)
    (subscribed : result grpc.Error (list (result grpc.Error Event))) : list Any * result Error unit :=
  match subscribed with
  | Ok stream =>
      run_stream self retry_max_attempts cancelled_at 0
        (Some ∘ map_err (λ _, EventStream) <$> stream)
  | Err _ => ([], Err EventStream)
  | Panic => ([], Panic)
  end.

(** *** What the task broadcasts *)

(** The messages for an event: those of the first attempt that does not fail, if the policy
    allows it. *)
Definition answers (self : EventHandler) (retry_max_attempts : Z) (event : Event) (msgs : list Any)
    : Prop :=
  ∃ parsed k, event_try_from self event = Ok parsed ∧ 0 ≤ k < Z.max 1 retry_max_attempts ∧
    handle self parsed k = Ok msgs ∧ ∀ j, 0 ≤ j < k → retry.is_err (handle self parsed j) = true.

Definition never_panics (self : EventHandler) : Prop :=
  ∀ event k, handle self event k ≠ Panic.

Lemma process_event_spec self n event :
  never_panics self → n ≤ u64_max →
  ∃ o, process_event self n (Ok event) = Ok o ∧ ∀ msgs, o = Some msgs ↔ answers self n event msgs.
Proof.
  intros Hp Hn. unfold process_event, parse_event, handle_event, answers.
  destruct (event_try_from self event) as [parsed|err|]; cbn;
    [|eexists; split; [done|]; naive_solver..].
  destruct (with_retry_first (handle self parsed) (RepeatConstant n) Hn) as (k & Hk & -> & Herr & Hlast).
  cbn in Hk, Hlast. destruct (handle self parsed k) as [msgs|err|] eqn:Hh; [| |by destruct (Hp parsed k)].
  - exists (Some msgs). split; [done|]. intros msgs'. split; [intros [= <-]; eauto 10|].
    intros (? & k' & [= <-] & Hk' & Hh' & Herr'). destruct (Z.lt_trichotomy k k') as [Hlt|[->|Hlt]].
    + specialize (Herr' k ltac:(lia)). by rewrite Hh in Herr'.
    + congruence.
    + specialize (Herr k' ltac:(lia)). by rewrite Hh' in Herr.
  - exists None. split; [done|]. intros msgs'. split; [done|].
    intros (? & k' & [= <-] & Hk' & Hh' & Herr'). specialize (Hlast eq_refl).
    destruct (decide (k' = k)) as [->|]; [congruence|].
    specialize (Herr k' ltac:(lia)). by rewrite Hh' in Herr.
Qed.

(** What is broadcast without cancellation. *)
Definition answer (self : EventHandler) (n : Z) (element : option (result Error Event)) : list Any :=
  match element with
  | Some element => match process_event self n element with Ok (Some msgs) => msgs | _ => [] end
  | None => []
  end.

Lemma broadcast_prefix c looks msgs :
  ∃ k, (broadcast_msgs c looks msgs).1 = take k msgs ∧
    ((broadcast_msgs c looks msgs).1 = msgs ∨ is_cancelled c (broadcast_msgs c looks msgs).2 = true).
Proof.
  revert looks. induction msgs as [|msg msgs IH]; intros looks; cbn; [exists 0%nat; auto|].
  destruct (is_cancelled c looks) eqn:Hc.
  { exists 0%nat. split; [done|]. right. unfold is_cancelled in *. cbn. destruct c; [|done].
    rewrite bool_decide_eq_true in *. lia. }
  destruct (IH (S looks)) as (k & Hk & Hor). destruct (broadcast_msgs c (S looks) msgs) as [sent l'].
  cbn in *. exists (S k). cbn. rewrite Hk. split; [done|]. destruct Hor as [->|]; [|by right].
  left. congruence.
Qed.

Lemma run_stream_cancelled self n c looks stream :
  is_cancelled c looks = true → run_stream self n c looks stream = ([], Ok tt).
Proof. intros Hc. destruct stream as [|e stream]; cbn; [done|]. by rewrite Hc. Qed.

Lemma process_never_panics self n element :
  never_panics self → n ≤ u64_max → ∃ o, process_event self n element = Ok o.
Proof.
  intros Hp Hn. destruct element as [e| |]; [|by eexists..].
  destruct (process_event_spec self n e Hp Hn) as (o & -> & _). by eexists.
Qed.

Lemma run_stream_spec self n c looks stream :
  never_panics self → n ≤ u64_max →
  (run_stream self n c looks stream).2 = Ok tt ∧
  (run_stream self n c looks stream).1 `prefix_of` mjoin (answer self n <$> stream) ∧
  (c = None → (run_stream self n c looks stream).1 = mjoin (answer self n <$> stream)).
Proof.
  intros Hp Hn. revert looks. induction stream as [|element stream IH]; intros looks; [done|].
  cbn [run_stream]. destruct (is_cancelled c looks) eqn:Hc.
  { split; [done|]. split; [apply prefix_nil|]. by intros ->. }
  rewrite fmap_cons. cbn [mjoin list_join]. unfold answer at 1 3.
  destruct element as [element|]; [|apply IH].
  destruct (process_never_panics self n element Hp Hn) as [[msgs|] ->]; [|apply IH].
  destruct (broadcast_prefix c (S looks) msgs) as (k & Hk & Hor).
  destruct (broadcast_msgs c (S looks) msgs) as [sent l'] eqn:Hb. cbn [fst snd] in *.
  destruct Hor as [->|Hc'].
  - specialize (IH l'). destruct (run_stream self n c l' stream) as [sent' res]. cbn in *.
    destruct IH as (-> & IH2 & IH3). split; [done|]. split; [by apply prefix_app|].
    intros Hn'. by rewrite IH3.
  - rewrite run_stream_cancelled by done. cbn. rewrite app_nil_r. split; [done|]. split.
    + rewrite Hk. apply prefix_app_r. exists (drop k msgs). symmetry. apply take_drop.
    + intros ->. done.
Qed.

(** The messages for an event that arrived: the answer of the handler, or none. *)
Definition batch_for (self : EventHandler) (n : Z) (event : Event) (msgs : list Any) : Prop :=
  answers self n event msgs ∨ (msgs = [] ∧ ∀ msgs', ¬ answers self n event msgs').

Lemma answer_batch self n event :
  never_panics self → n ≤ u64_max → batch_for self n event (answer self n (Some (Ok event))).
Proof.
  intros Hp Hn. cbn [answer].
  destruct (process_event_spec self n event Hp Hn) as ([msgs|] & -> & Ho).
  - left. by apply Ho.
  - right. split; [done|]. by intros msgs' ?%Ho.
Qed.

Lemma no_answer self n (tail : list (result grpc.Error Event)) :
  Forall (λ s, ∀ e, s ≠ Ok e) tail →
  mjoin (answer self n <$> (Some ∘ map_err (λ _, EventStream) <$> tail)) = [].
Proof.
  induction 1 as [|[e| |] tail Hs _ IH]; [done| |exact IH..]. by destruct (Hs e).
Qed.

(** C19: A handler's process skips no event that it subscribed to, with filters for types of events
    and addresses of contracts. When it gets a channel to the
    daemon and the call succeeds, its task ends without an error (as long as the handler does not
    panic), and what it broadcasts are the messages of the handler for the first of the published
    events that its filters select, in their order. An event that cannot be read and a handler
    that fails on all attempts cost only their own messages. An error of the stream (a lag behind
    the publisher, a failed query or an event that could not be decoded by the daemon, a broken
    connection) ends it and costs all events after it, a cancellation cuts off the end; without
    these, all published events that the filters select are answered. Without a channel, or when
    the call fails, nothing is broadcast and the task ends with an error. *)
Theorem sdk_handler_answers_every_event `{!JsonLaws} `{Heights} `{!HeightLaws} {Channel}
    (parse : string → option Addr) (self : EventHandler) (n : Z) (cancelled_at : option nat)
    (pool : connection_pool.ConnectionPool) (endpoints : list (Z → option Channel))
    (transport : Transport) (published : list (result stream.Error Event))
    (r : list (result stream.BroadcastStreamRecvError (result stream.Error Event))) :
  Forall (filter_wf parse) (event_filters (subscription_params self)) →
  event_filters (subscription_params self) ≠ [] →
  Forall (λ r, match r with Ok e => height_wf e | _ => True end) published →
  event_sub.received published r →
  never_panics self → n ≤ u64_max →
  let wanted := filter (asked_for (subscription_params self)) published in
  let out := run self n cancelled_at
    (subscribe parse pool endpoints transport (subscription_params self) r) in
  match channel pool endpoints, unreachable transport with
  | Ok _, None =>
      out.2 = Ok tt ∧
      ∃ done batches, Ok <$> done `prefix_of` wanted ∧ Forall2 (batch_for self n) done batches ∧
        out.1 `prefix_of` mjoin batches ∧ (cancelled_at = None → out.1 = mjoin batches) ∧
        (∀ evs, published = Ok <$> evs → r = Ok <$> published → broken transport = None →
           Ok <$> done = wanted)
  | _, _ => out = ([], Err EventStream)
  end.
Proof.
  intros Hwf Hne Hh Hr Hp Hn. cbn zeta.
  pose proof (subscribe_fails parse pool endpoints transport (subscription_params self) r) as Hf.
  destruct (channel pool endpoints) as [c|e|] eqn:Hc; [destruct (unreachable transport) as [s|] eqn:Hu|..].
  2: { destruct (subscribe_exact parse pool endpoints transport _ published r c Hwf Hne Hh Hr Hc Hu)
      as (done & tail & -> & Hd & Ht & Hall).
    cbn [run]. set (stream := _ <$> (_ ++ tail)).
    destruct (run_stream_spec self n cancelled_at 0 stream Hp Hn) as (E1 & E2 & E3).
    split; [done|]. exists done, ((λ e, answer self n (Some (Ok e))) <$> done).
    assert (mjoin (answer self n <$> stream) = mjoin ((λ e, answer self n (Some (Ok e))) <$> done)) as Hm.
    { subst stream. rewrite fmap_app, fmap_app, join_app, (no_answer _ _ tail), app_nil_r by done.
      by rewrite <-!list_fmap_compose. }
    rewrite Hm in E2, E3. split; [done|]. split; [|done].
    apply Forall2_fmap_r, Forall_Forall2_diag, Forall_true. intros e. by apply answer_batch. }
  all: destruct Hf as [e' ->]; [first [by right|by left]|done].
Qed.

End task.
End sdk_task.

(** ** Voting on any chain ([ampd-handlers/src/voting.rs]) *)
Module sdk_voting.
Import voting events handlers voting_handler.

Inductive Error := VotingEligibility | FinalizedTxs.

(** The item of a poll: its transaction, and the vote on it from a receipt of that
    transaction. Its identifier is only logged. *)
Class PollEventData (P D A R : Type) := {
  tx_hash : P → D;
  verify : P → A → R → result Error Vote
}.

Record PollStartedEvent (P A : Type) := mkPollStarted {
  poll_data : list P;
  poll_id : Z;
  source_chain : string;
  source_gateway_address : A;
  expires_at : Z;
  confirmation_height : Z;
  participants : list Addr
}.
#[global] Arguments mkPollStarted {_ _}.
#[global] Arguments poll_data {_ _}.
#[global] Arguments poll_id {_ _}.
#[global] Arguments source_chain {_ _}.
#[global] Arguments source_gateway_address {_ _}.
#[global] Arguments expires_at {_ _}.
#[global] Arguments confirmation_height {_ _}.
#[global] Arguments participants {_ _}.

(** The trait: who the handler is, and the receipts of the final transactions of a poll. *)
Class VotingHandler (H P D A R : Type) `{Countable D} := {
  event_data :: PollEventData P D A R;
  handler_chain : H → string;
  verifier : H → Addr;
  voting_verifier_contract : H → Addr;
  finalized_txs : H → list P → option Z → result Error (gmap D R)
}.

Section handler.
Context {H P D A R : Type} `{VotingHandler H P D A R}.

(** [latest_block_height] is the daemon's answer; [None] for an error. *)
Definition should_skip_voting (self : H) (latest_block_height : option Z) (source_chain : string)
    (participants : list Addr) (expires_at : Z) : result Error bool :=
  if bool_decide (source_chain ≠ handler_chain self) then Ok true
  else if bool_decide (verifier self ∉ participants) then Ok true
  else
    latest_block_height ← ok_or VotingEligibility latest_block_height;
    Ok (bool_decide (expires_at ≤ latest_block_height)).

Definition vote_msg (self : H) (poll_id : Z) (votes : list Vote) : Msg :=
  VoteMsg (verifier self) (voting_verifier_contract self) poll_id votes.

Definition handle (self : H) (latest_block_height : option Z) (event : PollStartedEvent P A)
    : result Error (list Msg) :=
  skip ← should_skip_voting self latest_block_height (source_chain event) (participants event)
           (expires_at event);
  if (skip : bool) then Ok []
  else
    finalized_tx_receipts ←
      finalized_txs self (poll_data event) (Some (confirmation_height event));
    votes ← try_map (λ data, match finalized_tx_receipts !! tx_hash data with
                             | None => Ok VoteNotFound
                             | Some tx_receipt => verify data (source_gateway_address event) tx_receipt
                             end) (poll_data event);
    Ok [vote_msg self (poll_id event) votes].

(** *** When the handler votes, and on what *)

Definition votes_in (self : H) (latest_block_height : option Z) (ev : PollStartedEvent P A) : Prop :=
  source_chain ev = handler_chain self ∧ verifier self ∈ participants ev ∧
  ∃ height, latest_block_height = Some height ∧ height < expires_at ev.





End handler.

(** *** The events of a poll, for every chain ([bin/<chain>/handler.rs]) *)

Inductive EventData (M S : Type) := DataMessage (message : M) | DataVerifierSet (verifier_set : S).
#[global] Arguments DataMessage {_ _}.
#[global] Arguments DataVerifierSet {_ _}.

Inductive PollStarted (M S : Type) :=
  | Messages (event : evm.PollStartedEvent M)
  | VerifierSet (event : evm.PollStartedEvent S).
#[global] Arguments Messages {_ _}.
#[global] Arguments VerifierSet {_ _}.

Section poll_started.
Context `{Json} {M S : Type} (des_messages : gmap string Value → option (evm.PollStartedEvent M))
  (des_set : gmap string Value → option (evm.PollStartedEvent S)).

Definition messages_type : string := "wasm-messages_poll_started".
Definition verifier_set_type : string := "wasm-verifier_set_poll_started".

Definition poll_started_try_from (event : Event) : result events.Error (PollStarted M S) :=
  match try_into messages_type des_messages event with
  | Ok event => Ok (Messages event)
  | _ =>
      match try_into verifier_set_type des_set event with
      | Ok event => Ok (VerifierSet event)
      | _ => Err (EventTypeMismatch (messages_type +:+ "/" +:+ verifier_set_type))
      end
  end.

(** [subscription_params]: the polls of the handler's contract and chain. *)
Definition subscription_params (contract : Addr) (chain : string) : grpc.SubscriptionParams :=
  let attributes : gmap string Value := {["source_chain" := value_string chain]} in
  grpc.mkParams [grpc.mkTypeFilter messages_type contract attributes;
                 grpc.mkTypeFilter verifier_set_type contract attributes] false.

(** An event that was subscribed to comes from the contract of the handler. *)
Lemma asked_for_contract contract chain e :
  grpc.asked_for (subscription_params contract chain) (Ok e) → is_from_contract e contract = true.
Proof.
  destruct e as [h|h|t a]; [done..|]. unfold grpc.asked_for, is_from_contract. cbn [grpc.event_filters subscription_params].
  rewrite !Exists_cons, Exists_nil. cbn [grpc.selects grpc.filter_contract grpc.filter_event_type].
  intros [(_ & -> & _)|[(_ & -> & _)|[]]]; by rewrite bool_decide_eq_true_2.
Qed.

End poll_started.
End sdk_voting.

(** ** EVM chains ([ampd-handlers/src/bin/evm/gmp/handler.rs]) *)
Module sdk_evm.
Import voting events handlers voting_handler sdk_voting.

Record Handler := mkHandler {
  verifier : Addr;
  voting_verifier_contract : Addr;
  chain : string;
  finalizer_type : evm.Finalization;
  rpc_client : evm.EthereumClient
}.

Notation Data := (EventData evm.Message evm.VerifierSetConfirmation).

Section handler.
Context `{Crypto} `{encoding.ChainCodecs} `{evm.LogDecoder} `{Json}.

Definition data_tx_hash (self : Data) : string :=
  match self with
  | DataMessage message => evm.id_hash (evm.message_id message)
  | DataVerifierSet verifier_set => evm.id_hash (evm.vs_message_id verifier_set)
  end.

Definition data_verify (self : Data) (source_gateway_address : string)
    (tx_receipt : evm.TransactionReceipt) : Vote :=
  match self with
  | DataMessage message => evm.verify_message source_gateway_address tx_receipt message
  | DataVerifierSet verifier_set =>
      evm.verify_verifier_set source_gateway_address tx_receipt verifier_set
  end.

#[global] Instance evm_event_data : PollEventData Data string string evm.TransactionReceipt :=
  {| tx_hash := data_tx_hash; verify := λ data gateway r, Ok (data_verify data gateway r) |}.

Definition finalized_txs (self : Handler) (poll_data : list Data) (confirmation_height : option Z)
    : result Error (gmap string evm.TransactionReceipt) :=
  confirmation_height ← expect confirmation_height;
  latest_finalized_block_height ← map_err (λ _, FinalizedTxs)
    (evm.latest_finalized_block_height (finalizer_type self) (rpc_client self) confirmation_height);
  let receipts := omap (λ h, default None (evm.transaction_receipt (rpc_client self) h))
                       (data_tx_hash <$> poll_data) in
  Ok (collect ((λ r, (evm.transaction_hash r, r)) <$>
                 filter (λ r, evm.is_final latest_finalized_block_height r = true) receipts)).

#[global] Instance evm_voting_handler :
    VotingHandler Handler Data string string evm.TransactionReceipt :=
  {| handler_chain := chain; sdk_voting.verifier := verifier;
     sdk_voting.voting_verifier_contract := voting_verifier_contract;
     sdk_voting.finalized_txs := finalized_txs |}.

(** [From<PollStartedEvent>] *)
Definition poll_from (event : PollStarted (list evm.Message) evm.VerifierSetConfirmation)
    : PollStartedEvent Data string :=
  match event with
  | Messages e =>
      mkPollStarted (DataMessage <$> evm.poll_content e) (evm.poll_id e) (evm.source_chain e)
        (evm.source_gateway_address e) (evm.expires_at e) (evm.confirmation_height e)
        (evm.participants e)
  | VerifierSet e =>
      mkPollStarted [DataVerifierSet (evm.poll_content e)] (evm.poll_id e) (evm.source_chain e)
        (evm.source_gateway_address e) (evm.expires_at e) (evm.confirmation_height e)
        (evm.participants e)
  end.

(** [EventHandler::handle] *)
Definition handle (self : Handler) (latest_block_height : option Z)
    (event : PollStarted (list evm.Message) evm.VerifierSetConfirmation) : result Error (list Msg) :=
  sdk_voting.handle self latest_block_height (poll_from event).

(** *** The promise of the chain *)

Definition final (self : Handler) (ev : PollStartedEvent Data string) (p : Data)
    (r : evm.TransactionReceipt) : Prop :=
  evm.final_receipt (finalizer_type self) (rpc_client self) (confirmation_height ev) (data_tx_hash p) r.

Definition shows (gateway : string) (r : evm.TransactionReceipt) (p : Data) : Prop :=
  match p with
  | DataMessage m => evm.calls gateway r m
  | DataVerifierSet s => evm.rotates gateway r s
  end.

Lemma finalized_txs_spec self data ch txs h r :
  evm.answers_asked (rpc_client self) → finalized_txs self data (Some ch) = Ok txs →
  txs !! h = Some r ↔
  h ∈ data_tx_hash <$> data ∧ evm.final_receipt (finalizer_type self) (rpc_client self) ch h r.
Proof.
  intros Hc Hf. unfold finalized_txs in Hf. cbn [expect mbind result_bind] in Hf.
  apply bind_Ok in Hf as (latest & Hl%map_err_Ok & [= <-]). unfold evm.final_receipt. rewrite Hl.
  set (hs := data_tx_hash <$> data). unfold collect.
  rewrite (evm.collect_spec evm.transaction_hash (λ r, r)).
  - split.
    + intros (x & [Hfin Hx]%list_elem_of_filter & <- & ->).
      apply (evm.asked_spec _ evm.transaction_hash) in Hx as [Hx ?]; [|exact Hc]. eauto.
    + intros (Hh & Hr & ? & [= <-] & Hfin). exists r. pose proof (Hc _ _ Hr) as Hk.
      split; [|done]. apply list_elem_of_filter. split; [done|].
      apply (evm.asked_spec _ evm.transaction_hash); [exact Hc|]. by rewrite Hk.
  - intros x y [_ Hx]%list_elem_of_filter [_ Hy]%list_elem_of_filter Hk.
    apply (evm.asked_spec _ evm.transaction_hash) in Hx as [_ Hx], Hy as [_ Hy]; [|exact Hc..]. congruence.
Qed.


(** The item is shown by the final receipt of a transaction that did not fail; its transaction is
    final and failed. *)
Definition happened (self : Handler) (ev : PollStartedEvent Data string) (p : Data) : Prop :=
  ∃ r, final self ev p r ∧ evm.status r ≠ Some 0 ∧ shows (source_gateway_address ev) r p.
Definition failed (self : Handler) (ev : PollStartedEvent Data string) (p : Data) : Prop :=
  ∃ r, final self ev p r ∧ evm.status r = Some 0.



(** *** The handler of the daemon *)

(** The same handler in the daemon. *)
Definition in_daemon (self : Handler) : evm.Handler :=
  evm.mkHandler (verifier self) (voting_verifier_contract self) (chain self) (finalizer_type self).

(** What a handler does, whatever its error. *)
Definition outcome {E} (r : result E (list Msg)) : result unit (list Msg) := map_err (λ _, tt) r.

Lemma skip_same (self : Handler) height sc ps exp :
  should_skip_voting self (Some height) sc ps exp =
    Ok (evm.should_skip_poll (chain self) sc (verifier self) ps height exp).
Proof.
  unfold should_skip_voting, evm.should_skip_poll. cbn [handler_chain evm_voting_handler
    sdk_voting.verifier ok_or mbind result_bind].
  rewrite (bool_decide_ext (chain self ≠ sc) (sc ≠ chain self)) by (split; congruence).
  repeat case_bool_decide; done.
Qed.

(** The receipts are the same, although the daemon asks once for every transaction. *)
Lemma receipts_same self data ch :
  evm.answers_asked (rpc_client self) →
  map_err (λ _, tt) (finalized_txs self data (Some ch)) =
  map_err (λ _, tt) (evm.finalized_tx_receipts (in_daemon self) (rpc_client self)
    (list_to_set (data_tx_hash <$> data)) ch).
Proof.
  intros Hc. destruct (finalized_txs self data (Some ch)) as [txs| |] eqn:Htxs;
    destruct (evm.finalized_tx_receipts _ _ _ ch) as [receipts| |] eqn:Hrec; try done;
    try (unfold finalized_txs, evm.finalized_tx_receipts in *; cbn in Htxs, Hrec;
         by destruct (evm.latest_finalized_block_height _ _ _)).
  cbn. f_equal. apply map_eq. intros h. apply option_eq. intros r.
  rewrite (finalized_txs_spec _ _ _ _ _ _ Hc Htxs), (evm.receipts_spec _ _ _ _ _ _ _ Hc Hrec).
  by rewrite elem_of_list_to_set.
Qed.

Lemma votes_same (txs : gmap string evm.TransactionReceipt) gateway (data : list Data) :
  try_map (λ d, match txs !! tx_hash d with
                | None => Ok VoteNotFound
                | Some r => verify d gateway r
                end) data =
  Ok ((λ d, match txs !! data_tx_hash d with
            | None => VoteNotFound
            | Some r => data_verify d gateway r
            end) <$> data) :> result Error (list Vote).
Proof.
  rewrite <-try_map_pure. induction data as [|d data IH]; [done|]. cbn [try_map]. rewrite IH.
  cbn [tx_hash verify evm_event_data event_data evm_voting_handler]. by destruct (txs !! _).
Qed.

Lemma handle_same self height ev :
  outcome (sdk_voting.handle self (Some height) ev) =
  if evm.should_skip_poll (chain self) (source_chain ev) (verifier self) (participants ev) height
       (expires_at ev) then Ok []
  else txs ← map_err (λ _, tt) (finalized_txs self (poll_data ev) (Some (confirmation_height ev)));
       Ok [VoteMsg (verifier self) (voting_verifier_contract self) (poll_id ev)
             ((λ d, match txs !! data_tx_hash d with
                    | None => VoteNotFound
                    | Some r => data_verify d (source_gateway_address ev) r
                    end) <$> poll_data ev)].
Proof.
  unfold sdk_voting.handle. rewrite skip_same. cbn [mbind result_bind].
  destruct (evm.should_skip_poll _ _ _ _ _ _); [done|].
  cbn [sdk_voting.finalized_txs evm_voting_handler].
  destruct (finalized_txs _ _ _) as [txs| |]; cbn [mbind result_bind map_err outcome]; [|done..].
  by rewrite votes_same.
Qed.

Lemma decoded_Ok {X} (x : X) : decoded (Ok x) = Ok (Some x).
Proof. done. Qed.

(** On a poll for messages, the two handlers do the same. *)
Lemma messages_agree des_messages
    (des_set : gmap string Value → option (evm.PollStartedEvent evm.VerifierSetConfirmation))
    self height e ev :
  evm.answers_asked (rpc_client self) → is_from_contract e (voting_verifier_contract self) = true →
  poll_started_try_from des_messages des_set e = Ok (Messages ev) →
  outcome (handle self (Some height) (Messages ev)) =
  outcome (evm.handle_messages des_messages (in_daemon self) (rpc_client self) height e).
Proof.
  intros Hc He Hev. unfold poll_started_try_from in Hev.
  destruct (try_into messages_type des_messages e) as [ev'| |] eqn:Hm;
    [|destruct (try_into verifier_set_type des_set e); done..]. injection Hev as ->.
  unfold handle. rewrite handle_same. unfold evm.handle_messages.
  cbn [evm.voting_verifier_contract in_daemon evm.verifier evm.handler_chain poll_from
    source_chain participants expires_at poll_data confirmation_height poll_id source_gateway_address].
  rewrite He. cbn [negb]. change "wasm-messages_poll_started" with messages_type. rewrite Hm, decoded_Ok.
  cbn [mbind result_bind]. destruct (evm.should_skip_poll _ _ _ _ _ _); [done|].
  rewrite receipts_same, <-list_fmap_compose by done. set (hs := list_to_set _).
  replace (list_to_set ((λ m, evm.id_hash (evm.message_id m)) <$> evm.poll_content ev)) with hs by done.
  destruct (evm.finalized_tx_receipts _ _ hs _) as [txs| |]; [|done..]. cbn. by rewrite <-list_fmap_compose.
Qed.

(** The receipts of one transaction. *)
Lemma finalized_txs_one self p ch :
  evm.answers_asked (rpc_client self) →
  finalized_txs self [p] (Some ch) =
    latest ← map_err (λ _, FinalizedTxs)
      (evm.latest_finalized_block_height (finalizer_type self) (rpc_client self) ch);
    Ok (match default None (evm.transaction_receipt (rpc_client self) (data_tx_hash p)) with
        | Some r => if evm.is_final latest r then {[data_tx_hash p := r]} else ∅
        | None => ∅
        end).
Proof.
  intros Hc. unfold finalized_txs. cbn [expect mbind result_bind].
  destruct (evm.latest_finalized_block_height _ _ _) as [latest| |]; [|done..]. cbn.
  destruct (evm.transaction_receipt (rpc_client self) (data_tx_hash p)) as [[r|]|] eqn:Hr; [|done..].
  cbn. unfold filter. cbn. case_decide as Hf; [rewrite Hf|destruct (evm.is_final latest r); done].
  cbn. by rewrite (Hc _ _ Hr).
Qed.

Lemma verifier_set_decoded
    (des_messages : gmap string Value → option (evm.PollStartedEvent (list evm.Message)))
    (des_set : gmap string Value → option (evm.PollStartedEvent evm.VerifierSetConfirmation)) e ev :
  poll_started_try_from des_messages des_set e = Ok (VerifierSet ev) →
  try_into verifier_set_type des_set e = Ok ev.
Proof.
  unfold poll_started_try_from. destruct (try_into messages_type des_messages e); [done|..];
    (destruct (try_into verifier_set_type des_set e); [|done..]; by intros [= ->]).
Qed.

(** The daemon's handler, on a poll for a verifier set. *)
Lemma daemon_verifier_set des_set self height e ev :
  is_from_contract e (voting_verifier_contract self) = true →
  try_into verifier_set_type des_set e = Ok ev →
  evm.handle_verifier_set des_set (in_daemon self) (rpc_client self) height e =
  if evm.should_skip_poll (chain self) (evm.source_chain ev) (verifier self) (evm.participants ev)
       height (evm.expires_at ev) then Ok []
  else receipt ← evm.finalized_tx_receipt (in_daemon self) (rpc_client self)
         (evm.id_hash (evm.vs_message_id (evm.poll_content ev))) (evm.confirmation_height ev);
       Ok [VoteMsg (verifier self) (voting_verifier_contract self) (evm.poll_id ev)
             [match receipt with
              | Some r => evm.verify_verifier_set (evm.source_gateway_address ev) r (evm.poll_content ev)
              | None => VoteNotFound
              end]].
Proof.
  intros He Hev. unfold evm.handle_verifier_set. cbn [evm.voting_verifier_contract in_daemon].
  rewrite He. cbn [negb]. change "wasm-verifier_set_poll_started" with verifier_set_type.
  by rewrite Hev, decoded_Ok.
Qed.

(** C15: The two handlers for EVM chains do the same. On an event that the process subscribed to, and
    with the same height and node, it votes as the daemon does. There is one exception: when the
    node fails to answer for the transaction of a verifier set, the daemon's handler fails, to be
    tried again, and the process votes that the verifier set was not found. *)
Theorem evm_handlers_agree des_messages des_set (self : Handler) (height : Z) (e : events.Event)
    (ev : PollStarted (list evm.Message) evm.VerifierSetConfirmation) :
  evm.answers_asked (rpc_client self) →
  grpc.asked_for (subscription_params (voting_verifier_contract self) (chain self)) (Ok e) →
  poll_started_try_from des_messages des_set e = Ok ev →
  let sdk := handle self (Some height) ev in
  match ev with
  | Messages _ =>
      outcome sdk = outcome (evm.handle_messages des_messages (in_daemon self) (rpc_client self) height e)
  | VerifierSet p =>
      let daemon := evm.handle_verifier_set des_set (in_daemon self) (rpc_client self) height e in
      let asked := evm.transaction_receipt (rpc_client self)
                     (evm.id_hash (evm.vs_message_id (evm.poll_content p))) in
      (is_Some asked → outcome sdk = outcome daemon) ∧
      (asked = None → votes_in self (Some height) (poll_from ev) → ∀ latest,
       evm.latest_finalized_block_height (finalizer_type self) (rpc_client self)
         (evm.confirmation_height p) = Ok latest →
       daemon = Err Finalizer ∧
       sdk = Ok [VoteMsg (verifier self) (voting_verifier_contract self) (evm.poll_id p) [VoteNotFound]])
  end.
Proof.
  intros Hc He%asked_for_contract Hev. destruct ev as [p|p]; [by eapply messages_agree|].
  cbn zeta. rewrite (daemon_verifier_set _ _ _ _ _ He (verifier_set_decoded _ _ _ _ Hev)).
  unfold evm.finalized_tx_receipt. cbn [evm.finalizer_type in_daemon]. split.
  - intros [o Ho]. unfold handle. rewrite handle_same. cbn [poll_from poll_data confirmation_height
      source_chain participants expires_at poll_id source_gateway_address].
    destruct (evm.should_skip_poll _ _ _ _ _ _); [done|]. rewrite finalized_txs_one by done.
    cbn [data_tx_hash]. rewrite Ho. destruct (evm.latest_finalized_block_height _ _ _) as [latest| |]; [|done..].
    cbn. destruct o as [r|]; cbn; [|by rewrite lookup_empty].
    destruct (evm.is_final latest r); [by rewrite lookup_singleton_eq|by rewrite lookup_empty].
  - intros Ho (Hs & Hv & h & [= <-] & Hlt) latest Hl.
    assert (evm.should_skip_poll (chain self) (evm.source_chain p) (verifier self) (evm.participants p)
      height (evm.expires_at p) = false) as Hskip by by apply evm.should_skip_spec.
    rewrite Hskip, Hl, Ho. split; [done|]. unfold handle, sdk_voting.handle. rewrite skip_same.
    cbn [poll_from source_chain participants expires_at mbind result_bind]. rewrite Hskip.
    cbn [poll_data confirmation_height sdk_voting.finalized_txs evm_voting_handler].
    rewrite finalized_txs_one by done. rewrite Hl. cbn [data_tx_hash]. rewrite Ho.
    cbn [map_err mbind result_bind default]. by rewrite votes_same.
Qed.

(** The handler does not panic. *)
Lemma evm_never_panics self latest ev :
  (∀ ch, evm.latest_finalized_block_height (finalizer_type self) (rpc_client self) ch ≠ Panic) →
  handle self latest ev ≠ Panic.
Proof.
  intros Hl. unfold handle, sdk_voting.handle, should_skip_voting.
  case_bool_decide; [done|]. case_bool_decide; [done|]. destruct latest as [h|]; [|done].
  cbn [ok_or mbind result_bind]. case_bool_decide; [done|].
  cbn [sdk_voting.finalized_txs evm_voting_handler]. unfold finalized_txs. cbn [expect mbind result_bind].
  specialize (Hl (confirmation_height (poll_from ev))).
  destruct (evm.latest_finalized_block_height _ _ _); cbn [map_err mbind result_bind]; [|done..].
  by rewrite votes_same.
Qed.

End handler.
End sdk_evm.

(** ** Sui ([ampd-handlers/src/bin/sui/handler.rs]) *)
Module sdk_sui.
Import voting events handlers voting_handler sdk_voting.

Record Handler := mkHandler {
  verifier : Addr;
  voting_verifier_contract : Addr;
  chain : string;
  rpc_client : sui.SuiClient
}.

Notation Data := (EventData sui.Message sui.VerifierSetConfirmation).

Section handler.
Context `{sui.SuiCodec} `{Json}.

Definition message_id (self : Data) : msg_id.Base58TxDigestAndEventIndex_id :=
  match self with
  | DataMessage message => sui.message_id message
  | DataVerifierSet verifier_set => sui.vs_message_id verifier_set
  end.
Definition data_tx_hash (self : Data) : string := sui.id_digest (message_id self).

(** A gateway that is not part of a type's name is a panic. *)
Definition data_verify (self : Data) (source_gateway_address : string)
    (tx_receipt : sui.TransactionBlock) : result Error Vote :=
  match self with
  | DataMessage message =>
      expect_ok (sui.verify_message source_gateway_address tx_receipt message)
  | DataVerifierSet verifier_set =>
      expect_ok (sui.verify_verifier_set source_gateway_address tx_receipt verifier_set)
  end.

#[global] Instance sui_event_data : PollEventData Data string string sui.TransactionBlock :=
  {| tx_hash := data_tx_hash; verify := data_verify |}.

Definition finalized_txs (self : Handler) (poll_data : list Data) (_confirmation_height : option Z)
    : result Error (gmap string sui.TransactionBlock) :=
  ok_or FinalizedTxs
    (sui.finalized_transaction_blocks (rpc_client self) (list_to_set (data_tx_hash <$> poll_data))).

#[global] Instance sui_voting_handler : VotingHandler Handler Data string string sui.TransactionBlock :=
  {| handler_chain := chain; sdk_voting.verifier := verifier;
     sdk_voting.voting_verifier_contract := voting_verifier_contract;
     sdk_voting.finalized_txs := finalized_txs |}.

Definition poll_from (event : PollStarted (list sui.Message) sui.VerifierSetConfirmation)
    : PollStartedEvent Data string :=
  match event with
  | Messages e =>
      mkPollStarted (DataMessage <$> evm.poll_content e) (evm.poll_id e) (evm.source_chain e)
        (evm.source_gateway_address e) (evm.expires_at e) (evm.confirmation_height e)
        (evm.participants e)
  | VerifierSet e =>
      mkPollStarted [DataVerifierSet (evm.poll_content e)] (evm.poll_id e) (evm.source_chain e)
        (evm.source_gateway_address e) (evm.expires_at e) (evm.confirmation_height e)
        (evm.participants e)
  end.

Definition handle (self : Handler) (latest_block_height : option Z)
    (event : PollStarted (list sui.Message) sui.VerifierSetConfirmation) : result Error (list Msg) :=
  sdk_voting.handle self latest_block_height (poll_from event).

(** *** The promise of the chain *)

(** The event that an item is about, in a transaction. *)
Definition emitted (gateway : string) (b : sui.TransactionBlock) (p : Data) : Prop :=
  match p with
  | DataMessage m => sui.emits sui.ContractCallType gateway b (message_id p) (sui.calls m)
  | DataVerifierSet s => sui.emits sui.SignersRotatedType gateway b (message_id p) (sui.rotates s)
  end.



Definition happened (self : Handler) (ev : PollStartedEvent Data string) (p : Data) : Prop :=
  ∃ blocks b,
    sui.multi_get_transaction_blocks (rpc_client self)
      (list_to_set (data_tx_hash <$> poll_data ev)) = Some blocks ∧
    b ∈ blocks ∧ emitted (source_gateway_address ev) b p.




End handler.
End sdk_sui.

(** ** Stellar ([ampd-handlers/src/bin/stellar/handler.rs]) *)
Module sdk_stellar.
Import voting events handlers voting_handler sdk_voting.

Record Handler := mkHandler {
  verifier : Addr;
  voting_verifier_contract : Addr;
  chain : string;
  rpc_client : stellar.Node
}.

Notation Data := (EventData stellar.Message stellar.VerifierSetConfirmation).

Section handler.
Context `{HexCodec} `{Crypto} `{encoding.ChainCodecs} `{stellar.StellarHash} `{Json}.

Definition message_id (self : Data) : msg_id.HexTxHashAndEventIndex_id :=
  match self with
  | DataMessage message => stellar.message_id message
  | DataVerifierSet verifier_set => stellar.vs_message_id verifier_set
  end.
Definition data_tx_hash (self : Data) : text := msg_id.hex_tx_hash (message_id self).

Definition data_verify (self : Data) (source_gateway_address : stellar.ScAddress)
    (tx_receipt : stellar.TxResponse) : Vote :=
  match self with
  | DataMessage message => stellar.verify_message source_gateway_address tx_receipt message
  | DataVerifierSet verifier_set =>
      stellar.verify_verifier_set source_gateway_address tx_receipt verifier_set
  end.

#[global] Instance stellar_event_data :
    PollEventData Data text stellar.ScAddress stellar.TxResponse :=
  {| tx_hash := data_tx_hash; verify := λ data gateway r, Ok (data_verify data gateway r) |}.

(** The responses, by the bytes of their hash. *)
Definition by_bytes (responses : gmap string stellar.TxResponse) : gmap text stellar.TxResponse :=
  list_to_map (reverse (omap (λ '(tx_hash_str, tx_response),
    tx_hash ← from_hex (text_of tx_hash_str);
    if bool_decide (length tx_hash = 32%nat) then Some (tx_hash, tx_response) else None)
    (map_to_list responses))).

Definition finalized_txs (self : Handler) (poll_data : list Data) (_confirmation_height : option Z)
    : result Error (gmap text stellar.TxResponse) :=
  transaction_responses ← ok_or FinalizedTxs
    (stellar.transaction_responses (rpc_client self)
       (list_to_set ((λ data, stellar.tx_hash_as_hex_no_prefix (message_id data)) <$> poll_data)));
  Ok (by_bytes transaction_responses).

#[global] Instance stellar_voting_handler :
    VotingHandler Handler Data text stellar.ScAddress stellar.TxResponse :=
  {| handler_chain := chain; sdk_voting.verifier := verifier;
     sdk_voting.voting_verifier_contract := voting_verifier_contract;
     sdk_voting.finalized_txs := finalized_txs |}.

Definition poll_from (event : PollStarted (stellar.Poll (list stellar.Message))
                                (stellar.Poll stellar.VerifierSetConfirmation))
    : PollStartedEvent Data stellar.ScAddress :=
  match event with
  | Messages e =>
      mkPollStarted (DataMessage <$> stellar.items (evm.poll_content e)) (evm.poll_id e)
        (evm.source_chain e) (stellar.source_gateway_address (evm.poll_content e))
        (evm.expires_at e) (evm.confirmation_height e) (evm.participants e)
  | VerifierSet e =>
      mkPollStarted [DataVerifierSet (stellar.items (evm.poll_content e))] (evm.poll_id e)
        (evm.source_chain e) (stellar.source_gateway_address (evm.poll_content e))
        (evm.expires_at e) (evm.confirmation_height e) (evm.participants e)
  end.

Definition handle (self : Handler) (latest_block_height : option Z)
    (event : PollStarted (stellar.Poll (list stellar.Message))
               (stellar.Poll stellar.VerifierSetConfirmation)) : result Error (list Msg) :=
  sdk_voting.handle self latest_block_height (poll_from event).

(** *** The promise of the chain *)


Definition emitted (node : stellar.Node) (gateway : stellar.ScAddress) (p : Data) : Prop :=
  match p with
  | DataMessage m => stellar.emits node gateway (message_id p) (stellar.calls m)
  | DataVerifierSet s => stellar.emits node gateway (message_id p) (stellar.rotates s)
  end.


Context `{!stellar.StellarHashLaws}.

Definition failed (self : Handler) (p : Data) : Prop :=
  stellar.not_successful (rpc_client self) (message_id p).



End handler.
End sdk_stellar.

(** ** What the voting handlers of the chains do *)
Module sdk_votes.
Import voting events handlers voting_handler sdk_voting.

Section handlers.
Context `{HexCodec} `{Crypto} `{encoding.ChainCodecs} `{evm.LogDecoder} `{sui.SuiCodec}
  `{stellar.StellarHash} `{!stellar.StellarHashLaws} `{Json}.


End handlers.
End sdk_votes.

(** ** Events of EVM chains ([ampd-handlers/src/bin/evm/event_verifier/handler.rs]) *)
Module sdk_event_verifier.
Import voting events handlers sdk_voting.

Record Handler := mkHandler {
  verifier : Addr;
  event_verifier_contract : Addr;
  chain : string;
  finalizer_type : evm.Finalization;
  confirmation_height : Z;
  rpc_client : evm.EthereumClient
}.

Section handler.
Context `{Json}.

Definition handle (parse : string → option evm.EvmEvent) (self : Handler)
    (latest_block_height : option Z) (event : evm.EventsPollStarted) : result Error (list Msg) :=
  latest_block_height ← ok_or VotingEligibility latest_block_height;
  if evm.should_skip_poll (chain self) (evm.eps_source_chain event) (verifier self)
       (evm.eps_participants event) latest_block_height (evm.eps_expires_at event) then Ok []
  else
    let events_data := parse <$> evm.eps_events event in
    finalized_tx_receipts ← map_err (λ _, FinalizedTxs)
      (evm.fetch_finalized_tx_receipts (finalizer_type self) (rpc_client self) events_data
         (confirmation_height self));
    Ok [VoteMsg (verifier self) (event_verifier_contract self) (evm.eps_poll_id event)
          (evm.verify_and_vote_on_events events_data finalized_tx_receipts)].

Definition subscription_params (self : Handler) : grpc.SubscriptionParams :=
  grpc.mkParams [grpc.mkTypeFilter "wasm-events_poll_started" (event_verifier_contract self) ∅] false.

Definition in_daemon (self : Handler) : evm.Handler :=
  evm.mkHandler (verifier self) (event_verifier_contract self) (chain self) (finalizer_type self).

(** The votes on events are those of the daemon. *)
Theorem event_handlers_agree des parse (self : Handler) (height : Z) (e : events.Event)
    (ev : evm.EventsPollStarted) :
  grpc.asked_for (subscription_params self) (Ok e) →
  try_into "wasm-events_poll_started" des e = Ok ev →
  sdk_evm.outcome (handle parse self (Some height) ev) =
  sdk_evm.outcome (evm.handle_events des parse (in_daemon self) (confirmation_height self)
    (rpc_client self) height e).
Proof.
  intros He Hev. unfold evm.handle_events. cbn [evm.voting_verifier_contract in_daemon].
  assert (is_from_contract e (event_verifier_contract self) = true) as ->.
  { destruct e as [h|h|t a]; [done..|]. unfold is_from_contract.
    apply Exists_cons in He as [(_ & -> & _)|He%Exists_nil]; [|done]. by rewrite bool_decide_eq_true_2. }
  cbn [negb]. rewrite Hev. unfold handle. cbn [decoded ok_or mbind result_bind].
  destruct (evm.should_skip_poll _ _ _ _ _ _); [done|].
  by destruct (evm.fetch_finalized_tx_receipts _ _ _ _).
Qed.

End handler.
End sdk_event_verifier.

(** ** Signing ([ampd-handlers/src/bin/multisig/handler.rs]) *)
Module sdk_multisig.
Import events handlers grpc multisig_handler.

Inductive Error := EventHandling | MessageToSign | KeyIdError | SignError.

Section handler.
Context `{Json}.

Definition handle (signer : Signer) (self : Handler) (latest_block_height : option Z)
    (event : SigningStartedEvent) : result Error (list Msg) :=
  if bool_decide (chain event ≠ handler_chain self) then Ok []
  else
    latest_block_height ← ok_or EventHandling latest_block_height;
    if bool_decide (expires_at event ≤ latest_block_height) then Ok []
    else
      match pub_keys event !! verifier self with
      | Some pub_key =>
          let key_type := match pub_key with
                          | key.PkEcdsa _ => Ecdsa
                          | key.PkEd25519 _ => Ed25519
                          end in
          _ ← ensure (bool_decide (msg event ≠ "")) MessageToSign;
          _ ← ensure (bool_decide (multisig self ≠ "")) KeyIdError;
          signature ← map_err (λ _, SignError)
            (client_sign signer (Some (mkKey (multisig self) key_type)) (msg event));
          Ok [SubmitSignatureMsg (verifier self) (multisig self) (session_id event) signature]
      | None => Ok []
      end.

Definition subscription_params (self : Handler) : SubscriptionParams :=
  mkParams [mkTypeFilter "wasm-signing_started" (multisig self)
              {["chain" := value_string (handler_chain self)]}] false.

(** The signer of the daemon's own handler. *)
Definition daemon_sign (signer : Signer) (name digest : string) (pk : key.PublicKey)
    (algorithm : Algorithm) : option string :=
  match tofnd_sign signer name digest pk algorithm with inr s => Some s | inl _ => None end.

(** The signer holds the key that the verifier registered for the session. *)
Definition holds_key (signer : Signer) (self : Handler) (event : SigningStartedEvent) : Prop :=
  ∀ pk, pub_keys event !! verifier self = Some pk →
    keygen signer (multisig self)
      (match pk with key.PkEcdsa _ => Ecdsa | key.PkEd25519 _ => Ed25519 end) = inr pk.

(** The process signs what the daemon would sign. It does not send the key of the session to the
    daemon, which asks the signer for its own; when that is the key of the session, the signature
    is the same, and a message that is not a digest is refused by both. *)
Theorem signing_handlers_agree des signer (self : Handler) (height : Z) (e : events.Event)
    (ev : SigningStartedEvent) :
  asked_for (subscription_params self) (Ok e) → try_into "wasm-signing_started" des e = Ok ev →
  multisig self ≠ "" → holds_key signer self ev →
  (∀ name digest pk algorithm, tofnd_sign signer name digest pk algorithm ≠ inr "") →
  sdk_evm.outcome (handle signer self (Some height) ev) =
  sdk_evm.outcome (multisig_handler.handle des (daemon_sign signer) self height e).
Proof.
  intros He Hev Hm Hk Hne. unfold multisig_handler.handle.
  assert (is_from_contract e (multisig self) = true) as ->.
  { destruct e as [h|h|t a]; [done..|]. unfold is_from_contract.
    apply Exists_cons in He as [(_ & -> & _)|He%Exists_nil]; [|done]. by rewrite bool_decide_eq_true_2. }
  cbn [negb]. rewrite Hev. unfold handle. cbn [decoded ok_or mbind result_bind].
  case_bool_decide; [done|]. case_bool_decide; [done|].
  destruct (pub_keys ev !! verifier self) as [pk|] eqn:Hpk; [|done]. specialize (Hk pk Hpk).
  set (algorithm := match pk with key.PkEcdsa _ => _ | _ => _ end) in *.
  rewrite (client_sign_spec _ (mkKey (multisig self) algorithm) _ pk) by done.
  unfold daemon_sign. rewrite (bool_decide_eq_true_2 (multisig self ≠ "")) by done.
  cbn [id grpc.algorithm]. specialize (Hne (multisig self) (msg ev) pk algorithm).
  destruct (bool_decide_reflect (msg ev ≠ "")) as [Hmsg|Hmsg%dec_stable]; [|by rewrite Hmsg].
  destruct (bool_decide_reflect (String.length (msg ev) = 32%nat)); [|done].
  destruct (tofnd_sign _ _ _ _ _) as [err|signature]; [done|]. cbn.
  rewrite bool_decide_eq_true_2; [done|]. by intros ->.
Qed.

End handler.
End sdk_multisig.

(** ** Registering a key ([ampd/src/commands/register_public_key.rs]) *)
Module register_public_key.
Import multisig_handler.

Inductive Error := Tofnd.

Section command.
Context `{Crypto} `{tofnd.SignatureFormats} `{!tofnd.SignatureFormatsLaws}.

Definition algorithm_of (key_type : key.KeyType) : Algorithm :=
  match key_type with key.Ecdsa => Ecdsa | key.Ed25519 => Ed25519 end.

(** The key and the signature of the message [RegisterPublicKey] that is broadcast. *)
Definition run (multisig_client : tofnd.MultisigClient) (multisig_address sender : Addr)
    (key_type : key.KeyType) : result Error (key.PublicKey * string) :=
  multisig_key ← map_err (λ _, Tofnd)
    (tofnd.keygen multisig_client multisig_address (algorithm_of key_type));
  let address_hash := keccak256 sender in
  signed_sender_address ← map_err (λ _, Tofnd)
    (tofnd.sign multisig_client multisig_address address_hash multisig_key (algorithm_of key_type));
  public_key ← map_err (λ _, Tofnd)
    (multisig.pub_key_try_from key_type (key.pub_key_bytes multisig_key));
  Ok (public_key, signed_sender_address).

(** A key that was read and written again is in the contract's format. *)
Definition keys_normal : Prop :=
  ∀ pk, (∃ b, tofnd.new_secp256k1 b = Some pk ∨ tofnd.new_ed25519 b = Some pk) →
    multisig.pub_key_try_from (key.pub_key_type pk) (key.pub_key_bytes pk) = Ok pk.

(** A generated key has the type that was asked for. *)
Lemma keygen_type c name key_type pk :
  keys_normal → tofnd.keygen c name (algorithm_of key_type) = Ok pk →
  key.pub_key_type pk = key_type ∧ algorithm_of key_type = algorithm_for pk ∧
  multisig.pub_key_try_from key_type (key.pub_key_bytes pk) = Ok pk.
Proof.
  intros Hnormal Hk. unfold tofnd.keygen in Hk.
  destruct (tofnd.keygen_rpc _ _) as [?|[[b|?]|]]; try done. apply ok_or_Ok in Hk.
  assert (key.pub_key_type pk = key_type) as Ht.
  { unfold tofnd.new_secp256k1, tofnd.new_ed25519 in Hk. destruct key_type; cbn in Hk.
    - by apply fmap_Some in Hk as (? & _ & ->).
    - case_bool_decide; [|done]. by apply fmap_Some in Hk as (? & _ & ->). }
  split; [done|]. split; [by destruct pk; subst|]. rewrite <-Ht. apply Hnormal. exists b.
  destruct key_type; cbn in Hk; auto.
Qed.

(** The command registers the key that the handlers sign with. The contract accepts the message,
    unless the key was registered before; then it stores the key for the verifier, and the key
    is the one under the contract's name in the signer. *)
Theorem registration_accepted (c : tofnd.MultisigClient) (multisig_address sender : Addr)
    (key_type : key.KeyType) (st : multisig.State) (pk : key.PublicKey) (sig : string) :
  keys_normal → tofnd.signs_truly (tofnd.client c) →
  run c multisig_address sender key_type = Ok (pk, sig) →
  (∀ k v, multisig.PUB_KEYS st !! k = Some v → v ≠ key.pub_key_bytes pk) →
  tofnd.keygen c multisig_address (algorithm_of key_type) = Ok pk ∧
  ∃ st' r, multisig.register_pub_key st sender pk sig = Ok (st', r) ∧
    multisig.query_public_key st' sender key_type = Ok pk.
Proof.
  intros Hnormal Hsign Hrun Hnew. unfold run in Hrun.
  apply bind_Ok in Hrun as (k & Hk%map_err_Ok & Hrun). apply bind_Ok in Hrun as (s & Hs%map_err_Ok & Hrun).
  destruct (keygen_type _ _ _ _ Hnormal Hk) as (Htype & Halg & Hbytes).
  rewrite Hbytes in Hrun. injection Hrun as <- <-. split; [done|]. rewrite Halg in Hs.
  destruct (tofnd.client_signature _ _ _ _ _ Hsign Hs) as (signature & Hfrom & Hver).
  eexists _, _. split.
  - apply multisig.register_pub_key_Ok. exists signature. split; [done|]. split; [done|].
    split; [|done]. by apply multisig.save_pub_key_Ok.
  - unfold multisig.query_public_key, multisig.load_pub_key, multisig.set_pub_keys.
    cbn [multisig.PUB_KEYS]. rewrite Htype, lookup_insert_eq. cbn [ok_or mbind result_bind].
    by rewrite Hbytes.
Qed.

End command.
End register_public_key.

(** ** A run *)
Module ampd_handlers_run.
Import voting events handlers sdk_voting.

#[local] Existing Instances ampd_stream_run.run_json ampd_stream_run.run_heights
  ampd_stream_run.run_json_laws ampd_stream_run.run_height_laws
  encoding_run.run_crypto encoding_run.run_codecs ampd_evm_run.run_decoder
  codecs.hex_codec sui_run.run_codec stellar_run.run_hash stellar_run.run_hash_laws.

Definition run_self : sdk_evm.Handler :=
  sdk_evm.mkHandler "alice" "verifier" "eth" evm.RPCFinalizedBlock ampd_evm_run.run_client.
Definition run_votes : list Vote := [SucceededOnChain; VoteNotFound; FailedOnChain; VoteNotFound].



(** A poll of the handler's contract and chain, and one of another contract. *)
Definition run_event (t contract : string) : Event :=
  Abci t {["_contract_address" := contract; "source_chain" := "eth"]}.

Lemma evm_handlers_agree_witness :
  sdk_evm.outcome (sdk_evm.handle run_self (Some 7)
    (Messages (ampd_evm_run.run_poll ampd_evm_run.run_messages))) =
  Ok [VoteMsg "alice" "verifier" 5 run_votes].
Proof.
  refine (eq_trans (sdk_evm.evm_handlers_agree (λ _, Some (ampd_evm_run.run_poll ampd_evm_run.run_messages))
    (λ _, None) run_self 7 (run_event "wasm-messages_poll_started" "verifier") (Messages _) _ _ _) _).
  - exact ampd_evm_run.run_client_answers.
  - apply (bool_decide_unpack _). vm_compute. exact I.
  - vm_compute. reflexivity.
  - vm_compute. reflexivity.
Defined.

(** The handler, whose first query for the height fails. *)
Definition run_task : sdk_task.EventHandler (Any := Msg) :=
  sdk_task.mkEventHandler
    (poll_started_try_from (λ _, Some (ampd_evm_run.run_poll ampd_evm_run.run_messages)) (λ _, None))
    (λ ev k, sdk_evm.handle run_self (if bool_decide (k = 0) then None else Some 7) ev)
    (subscription_params "verifier" "eth").

(** Events of the daemon; and what the subscriber receives of them when it lags behind after the
    third one. *)
Definition run_daemon : list (result stream.Error Event) :=
  [Ok (BlockBegin 5); Ok (run_event "wasm-messages_poll_started" "other");
   Ok (run_event "wasm-messages_poll_started" "verifier");
   Ok (run_event "wasm-verifier_set_poll_started" "verifier");
   Ok (run_event "wasm-messages_poll_started" "verifier"); Ok (BlockEnd 5)].
Definition run_lagged : list (result stream.BroadcastStreamRecvError (result stream.Error Event)) :=
  (Ok <$> take 3 run_daemon) ++ [Err (stream.Lagged 1)] ++ (Ok <$> drop 4 run_daemon).
Definition run_pool : connection_pool.ConnectionPool (Channel := unit) := connection_pool.new.

Lemma run_task_never_panics : sdk_task.never_panics run_task.
Proof. intros ev k. by apply sdk_evm.evm_never_panics. Qed.

Lemma run_task_filters : Forall (grpc.filter_wf Some) (grpc.event_filters (sdk_task.subscription_params run_task)).
Proof. repeat constructor; done. Qed.
Lemma run_params_some : grpc.event_filters (sdk_task.subscription_params run_task) ≠ [].
Proof. discriminate. Qed.
Lemma run_daemon_wf : Forall (λ r, match r with Ok e => height_wf e | _ => True end) run_daemon.
Proof. repeat constructor; done. Qed.

(** The answers to both polls without a lag, to the first one with it, and none without a
    connection. *)
Lemma sdk_handler_answers_every_event_witness :
  (∃ done batches,
    Ok <$> done = filter (grpc.asked_for (subscription_params "verifier" "eth")) run_daemon ∧
    Forall2 (sdk_task.batch_for run_task 3) done batches ∧
    replicate 2 (VoteMsg "alice" "verifier" 5 run_votes) = mjoin batches) ∧
  (∃ done batches,
    Ok <$> done `prefix_of` filter (grpc.asked_for (subscription_params "verifier" "eth")) run_daemon ∧
    Forall2 (sdk_task.batch_for run_task 3) done batches ∧
    [VoteMsg "alice" "verifier" 5 run_votes] = mjoin batches) ∧
  sdk_task.run run_task 3 None (grpc.subscribe Some run_pool [λ _, None] (grpc.mkTransport None None)
    (subscription_params "verifier" "eth") (Ok <$> run_daemon)) = ([], Err sdk_task.EventStream).
Proof.
  pose proof (λ endpoints r Hr, sdk_task.sdk_handler_answers_every_event Some run_task 3 None run_pool
    endpoints (grpc.mkTransport None None) run_daemon r run_task_filters
    run_params_some run_daemon_wf Hr run_task_never_panics (bool_decide_unpack (3 ≤ u64_max) I)) as Hany.
  split; [|split].
  - destruct (Hany [λ k, if bool_decide (k = 1) then Some tt else None] (Ok <$> run_daemon)
      (ampd_stream_run.received_everything _)) as (_ & done & batches & _ & Hb & _ & Hall & Hdone).
    exists done, batches. split; [eapply (Hdone (omap ok run_daemon)); reflexivity|].
    split; [exact Hb|]. rewrite <-Hall by reflexivity. vm_compute. reflexivity.
  - destruct (Hany [λ k, if bool_decide (k = 1) then Some tt else None] run_lagged
      (ampd_stream_run.received_cut (take 3 run_daemon) (drop 4 run_daemon) (take 1 (drop 3 run_daemon))
         ltac:(discriminate))) as (_ & done & batches & Hd & Hb & _ & Hall & _).
    exists done, batches. split; [exact Hd|].
    split; [exact Hb|]. rewrite <-Hall by reflexivity. vm_compute. reflexivity.
  - exact (Hany [λ _, None] (Ok <$> run_daemon) (ampd_stream_run.received_everything _)).
Defined.

(** The signer holds one key. *)
Definition run_signer : grpc.Signer :=
  grpc.mkSigner (λ _ _, inr (key.PkEcdsa "pk")) (λ _ digest _ _, inr ("s" +:+ digest)).
Definition run_signing : multisig_handler.SigningStartedEvent :=
  multisig_handler.mkSigning 4 {["alice" := key.PkEcdsa "pk"]}
    "01234567890123456789012345678901" 20 "eth".

Lemma signing_handlers_agree_witness :
  sdk_evm.outcome (sdk_multisig.handle run_signer (multisig_handler.mkHandler "alice" "multisig" "eth")
    (Some 7) run_signing) =
  Ok [SubmitSignatureMsg "alice" "multisig" 4 "s01234567890123456789012345678901"].
Proof.
  refine (eq_trans (sdk_multisig.signing_handlers_agree (λ _, Some run_signing) run_signer
    (multisig_handler.mkHandler "alice" "multisig" "eth") 7
    (Abci "wasm-signing_started" {["_contract_address" := "multisig"; "chain" := "eth"]}) run_signing
    _ _ _ _ _) _).
  - apply (bool_decide_unpack _). vm_compute. exact I.
  - reflexivity.
  - discriminate.
  - intros pk Hpk. vm_compute in Hpk. by injection Hpk as <-.
  - intros name digest pk algorithm. discriminate.
  - vm_compute. reflexivity.
Defined.

End ampd_handlers_run.

Module register_run.
Import register_public_key.

#[local] Existing Instances demo_crypto ampd_signing_run.run_formats ampd_signing_run.run_formats_laws.

Definition run_key : key.PublicKey := key.PkEcdsa (repeat_char "a"%char 33).

(** A key of the service that has no format of the contract would be refused. *)
#[local] Instance run_crypto : Crypto := {|
  keccak256 := keccak256;
  secp256k1_verify := secp256k1_verify;
  ed25519_verify_bytes := ed25519_verify_bytes;
  k256_normalize b := if bool_decide (String.length b = 33%nat) then Some b else None;
  ed25519_normalize := Some
|}.

Lemma run_keys_normal : keys_normal.
Proof.
  intros pk [b [Hb|Hb]].
  - unfold tofnd.new_secp256k1 in Hb. apply fmap_Some in Hb as (n & Hn & ->).
    unfold k256_normalize, run_crypto in Hn. case_bool_decide as Hl; [|done]. injection Hn as <-.
    cbn -[bool_decide]. unfold multisig.pub_key_try_from, multisig.validate_and_normalize_public_key,
      multisig.check_ecdsa_format. rewrite bool_decide_eq_false_2 by (intros Hne; by apply Hne).
    cbn -[bool_decide]. by rewrite bool_decide_eq_true_2.
  - unfold tofnd.new_ed25519 in Hb. case_bool_decide as Hl; [|done]. injection Hb as <-.
    unfold multisig.pub_key_try_from, multisig.validate_and_normalize_public_key.
    cbn -[bool_decide]. by rewrite bool_decide_eq_true_2.
Qed.

Lemma registration_accepted_witness :
  ∃ st' r, multisig.register_pub_key demo0 "alice" run_key (repeat_char "a"%char 64) = Ok (st', r) ∧
    multisig.query_public_key st' "alice" key.Ecdsa = Ok run_key.
Proof.
  apply (registration_accepted ampd_signing_run.run_tofnd "multisig" "alice" key.Ecdsa).
  - exact run_keys_normal.
  - exact ampd_signing_run.run_signs_truly.
  - vm_compute. reflexivity.
  - intros k v Hv. vm_compute in Hv. done.
Defined.

End register_run.
