(* ===== verification/Composition.v ===== *)
(** * The contracts together

    The other files model each contract against what it is told by the contracts it asks. Here
    the models are put in each other's place: the service registry answers the voting verifier
    and the prover, the provers report to the coordinator and the coordinator answers the
    service registry, and a message travels from gateway to router to gateway.

    In the composition [relay], anybody may call any of the contracts with any message, the router
    included, and a log records what was registered and what was sent to the router. *)

From S2P Require Import Prelude Std Voting MsgId RouterApi Multisig.
From S2P Require Import VotingVerifier Router ServiceRegistry Gateway MultisigProver Coordinator.

(** ** The registry's answers *)
Module registry_answers.
Import service_registry.

Section answers.
Context `{SelectNth} `{!SelectNthSpec} `{Keccak} `{Api}.

(** The parameters of the services are 16 bits wide. *)
Definition params_typed (st : State) : Prop :=
  ∀ s c x, service st s (Some c) = Ok x → from_option (λ m, 0 ≤ m ≤ u16_max) True (max_num_verifiers x).

(** What the registry answers to a contract that asks for the participants of a poll. *)
Definition poll_env (st : State) (registry : Addr) (height : Z) : voting_verifier.Env :=
  voting_verifier.mkEnv height (λ a s c,
    if bool_decide (a = registry)
    then match active_verifiers st height s c with
         | Ok l => Some (Participant_from <$> l)
         | _ => None
         end
    else None).

Lemma service_registered st s c x :
  service st s (Some c) = Ok x → is_Some (SERVICES st !! s).
Proof. unfold service. intros Hf. ok_inv. by eexists. Qed.

Lemma registry_active_ok st h s c ws :
  inv st → params_typed st → active_verifiers st h s c = Ok ws →
  multisig_prover.registry_answer_ok ws.
Proof.
  intros Hi Hp Hws. destruct (service st s (Some c)) as [x|e|] eqn:Hx;
    [|unfold active_verifiers in Hws; by rewrite Hx in Hws..].
  destruct (active_verifiers_spec st s c x h Hi Hx (Hp _ _ _ Hx)) as (Hel & Herr & Hok).
  destruct (decide (min_num_verifiers x ≤ Z.of_nat (length (eligible_verifiers st x s c))))
    as [Hge|Hlt]; [|rewrite Herr in Hws by lia; done].
  destruct (Hok Hge) as (l & Hl & Hsub & Hnd & Hlen & _). assert (l = ws) as -> by congruence.
  assert (Forall (λ w, w_weight w = 1) ws) as Hw.
  { apply Forall_forall. intros w Hin. by apply (elem_of_submseteq _ _ _ Hin), Hel in Hsub as [? _]. }
  split_and!; [done|eapply Forall_impl; [exact Hw|]; cbn; lia|].
  assert (sum_list (w_weight <$> ws) = Z.of_nat (length ws)) as ->.
  { clear -Hw. induction Hw as [|w l Hw _ IH]; [done|]. csimpl. rewrite IH, Hw. cbn. lia. }
  destruct (service_registered _ _ _ _ Hx) as [y Hy].
  destruct (inv_service _ Hi _ _ Hy) as (_ & _ & [n Hn]).
  destruct (inv_count _ Hi _ _ Hn) as (_ & -> & Hle).
  pose proof (eligible_count st x s c Hi). apply submseteq_length in Hsub.
  unfold u16_max, u128_max in *. lia.
Qed.

(** What the voting verifier and the prover rely on holds of the service registry. After any
    run of the registry, the verifiers it answers with are distinct, of positive weight, and
    their weights add up within 128 bits; so the environment in which it answers a voting
    verifier satisfies the hypothesis under which polls are exact. *)
Theorem registry_answers_sound (w : World) (log : list (string * Addr * Z)) (registry : Addr)
    (height : Z) :
  run w log → params_typed (st w) →
  voting_verifier.registry_ok (poll_env (st w) registry height) ∧
  (∀ s c ws, active_verifiers (st w) height s c = Ok ws → multisig_prover.registry_answer_ok ws).
Proof.
  intros [Hi _ _]%registry_run_inv Hp. split; [|intros; by eapply registry_active_ok].
  intros a s c ps. cbn. case_bool_decide; [|done].
  destruct (active_verifiers (st w) height s c) as [ws|e|] eqn:Hws; [|done..]. intros [= <-].
  destruct (registry_active_ok _ _ _ _ _ Hi Hp Hws) as (_ & Hw & Hsum).
  split; [by apply Forall_fmap|]. by rewrite <-list_fmap_compose.
Qed.

End answers.
End registry_answers.

(** ** Provers, coordinator and service registry *)
Module unbonding.

(** [Api::addr_validate] accepts an address as it is or rejects it. *)
Class ApiValid `{Api} : Prop :=
  addr_validate_same : ∀ s a, addr_validate s = Ok a → a = s.

Section system.
Context `{Crypto} `{HexCodec} `{ApiValid} `{multisig_prover.EncoderExt}.

(** The coordinator and the provers, by address. *)
Record World := mkWorld {
  coord : coordinator.State;
  provers : gmap Addr multisig_prover.State
}.

(** The messages of a prover reach the coordinator in order, in the same transaction; those to
    the multisig do not concern the coordinator. *)
Fixpoint deliver (cenv : coordinator.Env) (p : Addr) (c : coordinator.State)
    (l : list multisig_prover.OutMsg) : result coordinator.ExecuteError coordinator.State :=
  match l with
  | [] => Ok c
  | multisig_prover.SetActiveVerifiersAt a vs :: l =>
      if bool_decide (a = coordinator.self cenv) then
        '(c, _) ← coordinator.execute c cenv p
                    (msgs_derive.Direct (coordinator.SetActiveVerifiers vs));
        deliver cenv p c l
      else deliver cenv p c l
  | _ :: l => deliver cenv p c l
  end.

(** Provers are created for this coordinator at addresses that nobody used before; they act only
    by their code. Anybody else may call the coordinator. *)
Inductive step (self : Addr) : World → World → Prop :=
  | step_create w p msg st r :
      provers w !! p = None → coordinator.active_sets (coord w) p = ∅ →
      multisig_prover.coordinator_address msg = self →
      multisig_prover.instantiate msg = Ok (st, r) →
      step self w (mkWorld (coord w) (<[p := st]> (provers w)))
  | step_prover w p st env cenv sender m st' r c' :
      provers w !! p = Some st → coordinator.self cenv = self →
      multisig_prover.execute st env sender m = Ok (st', r) →
      deliver cenv p (coord w) (messages r) = Ok c' →
      step self w (mkWorld c' (<[p := st']> (provers w)))
  | step_reply w p st reply st' r :
      provers w !! p = Some st → multisig_prover.start_multisig_reply st reply = Ok (st', r) →
      step self w (mkWorld (coord w) (<[p := st']> (provers w)))
  | step_coordinator w cenv sender m c' r :
      provers w !! sender = None → coordinator.execute (coord w) cenv sender m = Ok (c', r) →
      step self w (mkWorld c' (provers w)).

Inductive reachable (self : Addr) : World → Prop :=
  | reachable_init g c r : coordinator.instantiate g = Ok (c, r) → reachable self (mkWorld c ∅)
  | reachable_step w w' : reachable self w → step self w w' → reachable self w'.

(** Every prover reports to this coordinator, which holds exactly its active set. *)
Record system_inv (self : Addr) (w : World) : Prop := {
  si_coord : coordinator.inv (coord w);
  si_prover p st : provers w !! p = Some st →
    (∃ config, multisig_prover.CONFIG st = Some config ∧ multisig_prover.coordinator config = self) ∧
    multisig_prover.prover_inv st (coordinator.active_sets (coord w) p)
}.

(** The reports of a call go to the configured coordinator, and the configuration keeps it. *)
Definition reports_to (a : Addr) (m : multisig_prover.OutMsg) : Prop :=
  match m with multisig_prover.SetActiveVerifiersAt b _ => b = a | _ => True end.

Lemma handle_reports st env sender m st' r config :
  multisig_prover.CONFIG st = Some config →
  multisig_prover.handle st env sender m = Ok (st', r) →
  Forall (reports_to (multisig_prover.coordinator config)) (messages r) ∧
  ∃ config', multisig_prover.CONFIG st' = Some config' ∧
    multisig_prover.coordinator config' = multisig_prover.coordinator config.
Proof.
  intros Hc Hf. destruct m as [ids| | |t|addr]; cbn [multisig_prover.handle] in Hf.
  - apply multisig_prover.construct_proof_Ok in Hf as (c & ? & ? & ? & Hc' & _ & _ & _ & _ & -> & ->).
    split; [by repeat constructor|]. by exists config.
  - apply multisig_prover.update_verifier_set_Ok in Hf as (c & Hc' & Hf).
    assert (c = config) as -> by congruence.
    destruct (multisig_prover.CURRENT_VERIFIER_SET st).
    + destruct Hf as (vs & d & _ & _ & -> & ->). split; [by repeat constructor|]. by exists config.
    + destruct Hf as (vs & _ & -> & ->). split; [by repeat constructor|]. by exists config.
  - apply multisig_prover.confirm_verifier_set_Ok in Hf as (c & vs & Hc' & _ & _ & -> & ->).
    assert (c = config) as -> by congruence.
    split; [by repeat constructor|]. by exists config.
  - unfold multisig_prover.update_signing_threshold in Hf. rewrite Hc in Hf. cbn in Hf.
    injection Hf as <- <-. split; [constructor|]. by eexists.
  - unfold multisig_prover.update_admin in Hf. ok_inv. injection Hf as <- <-.
    split; [constructor|]. by exists config.
Qed.

(** Delivering the reports of a prover sets its active set, and no other. *)
Lemma set_active_delivered c cenv p vs c' r :
  coordinator.inv c →
  coordinator.execute c cenv p (msgs_derive.Direct (coordinator.SetActiveVerifiers vs)) = Ok (c', r) →
  coordinator.inv c' ∧
  ∀ q, coordinator.active_sets c' q = if bool_decide (q = p) then vs else coordinator.active_sets c q.
Proof.
  intros Hi Hf. apply coordinator.coordinator_execute_effect in Hf as (m & [= <-] & _ & He). split.
  - inversion He; subst. destruct Hi. split; [by apply coordinator.update_records_ok|done..].
  - destruct (coordinator.effect_active_sets _ _ _ _ He) as [(vs0 & vs' & [= <-] & _ & Hvs & Hq)|[Hn _]];
      [|by destruct (Hn vs)].
    intros q. rewrite Hq. case_bool_decide; [|done]. apply set_eq. intros v. rewrite Hvs. split.
    + intros (s & Hs & Hv). by apply addr_validate_same in Hv as ->.
    + intros Hv. inversion He as [| |vs1 vs2 Htry| |]; subst.
      apply try_map_Ok in Htry. apply elem_of_elements, list_elem_of_lookup in Hv as [i Hi'].
      destruct (Forall2_lookup_l _ _ _ _ _ Htry Hi') as (a & _ & Ha).
      unfold coordinator.validate_cosmwasm_address in Ha. apply map_err_Ok in Ha.
      pose proof (addr_validate_same _ _ Ha) as ->. exists v. split; [|done].
      apply elem_of_elements. by eapply list_elem_of_lookup_2.
Qed.

Lemma report_delivered cenv p l c c' :
  coordinator.inv c → Forall (reports_to (coordinator.self cenv)) l → deliver cenv p c l = Ok c' →
  coordinator.inv c' ∧
  ∀ q, coordinator.active_sets c' q =
    if bool_decide (q = p) then multisig_prover.reported (coordinator.active_sets c p) l
    else coordinator.active_sets c q.
Proof.
  intros Hi Hl. revert c Hi. induction Hl as [|m l Hm _ IH]; intros c Hi Hf; cbn in Hf.
  { apply Ok_inj in Hf as <-. split; [done|]. intros q. by case_bool_decide; subst. }
  destruct m as [| |a vs]; [by apply IH..|]. cbn in Hm. subst a.
  rewrite bool_decide_eq_true_2 in Hf by done.
  apply bind_Ok in Hf as ([c1 r] & Hc1 & Hf).
  destruct (set_active_delivered _ _ _ _ _ _ Hi Hc1) as [Hi1 Hq1].
  destruct (IH c1 Hi1 Hf) as [Hi' Hq]. split; [done|]. intros q. rewrite Hq, !Hq1.
  rewrite (bool_decide_eq_true_2 (p = p)) by done. by case_bool_decide.
Qed.

Lemma system_inv_step self w w' : system_inv self w → step self w w' → system_inv self w'.
Proof.
  intros [Hc Hp]. destruct 1 as [w p msg st r Hnew Hempty Hself Hi|
    w p st env cenv sender m st' r c' Hst Hself Hf Hd|w p st reply st' r Hst Hf|
    w cenv sender m c' r Hsender Hf].
  - split; [done|]. intros q st0. cbn. rewrite lookup_insert_Some. intros [[<- <-]|[_ Hq]]; [|by apply Hp].
    rewrite Hempty. unfold multisig_prover.instantiate in Hi. ok_inv. injection Hi as <- <-.
    unfold multisig_prover.validate_cosmwasm_address in *. ok_inv.
    split; [|by split]. eexists. split; [done|]. cbn.
    repeat match goal with E : addr_validate _ = Ok _ |- _ => apply addr_validate_same in E end.
    congruence.
  - destruct (Hp _ _ Hst) as [(config & Hconf & Hco) Hpi].
    apply multisig_prover.prover_execute_Ok in Hf as [_ Hf].
    destruct (handle_reports _ _ _ _ _ _ _ Hconf Hf) as [Hr (config' & Hconf' & Hco')].
    assert (multisig_prover.coordinator config = coordinator.self cenv) as Heq by congruence.
    rewrite Heq in Hr. destruct (report_delivered _ _ _ _ _ Hc Hr Hd) as [Hc' Hq].
    split; [done|]. intros q st0. cbn. rewrite Hq, lookup_insert_Some. intros [[<- <-]|[Hne Hst0]].
    + rewrite bool_decide_eq_true_2 by done. split; [exists config'; split; [done|congruence]|].
      by eapply multisig_prover.handle_inv.
    + rewrite bool_decide_eq_false_2 by done. by apply Hp.
  - destruct (Hp _ _ Hst) as [Hconf Hpi]. split; [done|]. intros q st0. cbn.
    rewrite lookup_insert_Some. intros [[<- <-]|[_ Hq]]; [|by apply Hp].
    apply multisig_prover.start_multisig_reply_Ok in Hf as (? & ? & ? & ? & _ & _ & _ & _ & -> & _).
    split; [done|]. destruct Hpi. by split.
  - assert (coordinator.inv c') as Hc'.
    { apply (coordinator.coordinator_execute_inv _ _ _ _ _ _ Hc Hf). }
    split; [done|]. intros q st0 Hq. destruct (Hp _ _ Hq) as [Hconf Hpi]. split; [done|].
    apply coordinator.coordinator_execute_effect in Hf as (m' & -> & _ & He). cbn.
    destruct (coordinator.effect_active_sets _ _ _ _ He) as [(vs & vs' & _ & _ & _ & ->)|[_ ->]]; [|done].
    rewrite bool_decide_eq_false_2; [done|]. intros ->. cbn in Hq. congruence.
Qed.

Lemma system_reachable_inv self w : reachable self w → system_inv self w.
Proof.
  induction 1 as [g c r Hi|w w' _ IH Hs]; [|by eapply system_inv_step].
  split; [|intros p st; cbn; by rewrite lookup_empty].
  eapply coordinator.coordinator_reachable_inv, coordinator.reachable_instantiate, Hi.
Qed.

(** The registry asks this coordinator. *)
Definition asks (w : World) (env : service_registry.Env) : Prop :=
  ∀ c a, service_registry.ready_to_unbond env c a =
    Some (coordinator.check_verifier_ready_to_unbond (coord w) a).

(** A signer of a current or pending set. *)
Definition signs (w : World) (v : Addr) : Prop :=
  ∃ p st vs k s, provers w !! p = Some st ∧
    (multisig_prover.CURRENT_VERIFIER_SET st = Some vs ∨
     multisig_prover.NEXT_VERIFIER_SET st = Some vs) ∧
    verifier_set.signers vs !! k = Some s ∧ verifier_set.address s = v.

Lemma signs_active w v p st vs k s :
  (multisig_prover.CURRENT_VERIFIER_SET st = Some vs ∨
   multisig_prover.NEXT_VERIFIER_SET st = Some vs) →
  verifier_set.signers vs !! k = Some s → verifier_set.address s = v →
  multisig_prover.prover_inv st (coordinator.active_sets (coord w) p) →
  v ∈ coordinator.active_sets (coord w) p.
Proof.
  intros Hvs Hk <- [_ ->]. unfold multisig_prover.all_active_verifiers.
  assert (∀ m, m !! k = Some s → verifier_set.address s ∈ multisig_prover.signer_addresses m) as Hm.
  { intros m Hs. unfold multisig_prover.signer_addresses.
    rewrite elem_of_list_to_set, list_elem_of_fmap. exists s. split; [done|].
    apply list_elem_of_fmap. exists (k, s). by rewrite elem_of_map_to_list. }
  destruct Hvs as [-> | ->]; cbn; apply elem_of_union; auto.
Qed.

(** C4: A verifier that signs for a chain cannot take its stake away. In every state that the
    coordinator and its provers can reach together, each prover's report having been delivered
    within its transaction, a signer of the current or of the pending verifier set of any
    prover is not ready to unbond; so no call to the service registry starts the unbonding
    period of its stake. *)
Theorem active_signer_stays_bonded (self : Addr) (w : World) (v : Addr) :
  reachable self w → signs w v →
  coordinator.check_verifier_ready_to_unbond (coord w) v = false ∧
  ∀ rw log env sender funds m s' r n x' amt t,
    service_registry.run rw log → service_registry.msg_wf m → service_registry.funds_wf funds →
    service_registry.env_wf env → asks w env →
    service_registry.execute (service_registry.st rw) env sender funds m = Ok (s', r) →
    service_registry.VERIFIERS s' !! (n, v) = Some x' →
    service_registry.bonding_state x' = service_registry.Unbonding amt t →
    ∃ x, service_registry.VERIFIERS (service_registry.st rw) !! (n, v) = Some x ∧
      service_registry.bonding_state x = service_registry.Unbonding amt t.
Proof.
  intros Hr%system_reachable_inv (p & st & vs & k & s & Hst & Hvs & Hk & Hs).
  destruct Hr as [Hc Hp]. destruct (Hp _ _ Hst) as [_ Hpi].
  pose proof (signs_active _ _ _ _ _ _ _ Hvs Hk Hs Hpi) as Hin.
  assert (coordinator.check_verifier_ready_to_unbond (coord w) v = false) as Hready.
  { apply not_true_is_false. rewrite coordinator.ready_to_unbond_spec by apply Hc.
    intros Hall. by apply (Hall p). }
  split; [done|]. intros rw log env sender funds m s' r n x' amt t Hrun Hm Hw He Hask Hf Hx Hb.
  destruct (service_registry.registry_run_inv _ _ Hrun) as [Hi _ _].
  destruct (service_registry.registry_execute_Ok _ _ _ _ _ _ _ Hi Hm Hw He Hf) as [_ _ _ Hun].
  destruct (Hun _ _ _ _ _ Hx Hb) as [?|(_ & _ & _ & y & _ & Hy)]; [done|].
  rewrite Hask in Hy. congruence.
Qed.

End system.
End unbonding.

(** ** From gateway to router to gateway *)
Module relay.
Import router_api.

Section relay.
Context `{Crypto} `{HexCodec} `{Base58Codec} `{Bech32Codec} `{!FeltFormat}
  `{address.AddressParsers} `{Api}.

(** The router, and the gateways and the voting verifiers by address. *)
Record World := mkWorld {
  router_st : router.State;
  gateways : gmap Addr gateway.State;
  verifiers : gmap Addr voting_verifier.State
}.

Inductive Error := NoGateway | GatewayError (e : gateway.Error) | RouterError (e : router.ExecuteError).

(** The voting verifiers answer the gateways. *)
Definition gateway_env (w : World) (height : Z) : gateway.Env :=
  gateway.mkEnv (λ a msgs,
    vst ← verifiers w !! a; ok (voting_verifier.messages_status vst msgs height)).

Definition set_gateway (w : World) (g : Addr) (st : gateway.State) : World :=
  mkWorld (router_st w) (<[g := st]> (gateways w)) (verifiers w).

(** The messages that the router sends on; a destination that is none of the gateways (the
    Axelarnet gateway) is outside. *)
Fixpoint deliver (raddr : Addr) (height : Z) (w : World) (l : list router.OutMsg)
    : result Error World :=
  match l with
  | [] => Ok w
  | router.RouteMessagesTo g msgs :: l =>
      match gateways w !! g with
      | Some st =>
          '(st, _) ← map_err GatewayError
            (gateway.execute st (gateway_env w height) raddr (gateway.RouteMessages msgs));
          deliver raddr height (set_gateway w g st) l
      | None => deliver raddr height w l
      end
  end.

(** The calls that a gateway makes to the router. *)
Fixpoint forward (raddr : Addr) (renv : router.Env) (height : Z) (g : Addr) (w : World)
    (l : list gateway.OutMsg) : result Error World :=
  match l with
  | [] => Ok w
  | gateway.RouteMessagesAt a msgs :: l =>
      if bool_decide (a = raddr) then
        '(rst, r) ← map_err RouterError
          (router.execute (router_st w) renv g (msgs_derive.Direct (router.RouteMessages msgs)));
        w ← deliver raddr height (mkWorld rst (gateways w) (verifiers w)) (messages r);
        forward raddr renv height g w l
      else forward raddr renv height g w l
  | gateway.VerifyMessagesAt _ _ :: l => forward raddr renv height g w l
  end.

(** A transaction: somebody asks a gateway to route messages. *)
Definition relay (raddr : Addr) (renv : router.Env) (height : Z) (w : World) (g sender : Addr)
    (msgs : list Message) : result Error World :=
  st ← ok_or NoGateway (gateways w !! g);
  '(st, r) ← map_err GatewayError
    (gateway.execute st (gateway_env w height) sender (gateway.RouteMessages msgs));
  forward raddr renv height g (set_gateway w g st) (messages r).

(** The contracts are in states they can reach, and the gateways know the router. *)
Record world_ok (raddr : Addr) (w : World) : Prop := {
  wo_router : router.inv (router_st w);
  wo_gateway g st : gateways w !! g = Some st →
    gateway.inv st ∧ ∃ c, gateway.CONFIG st = Some c ∧ gateway.router c = raddr;
  wo_verifier a st : verifiers w !! a = Some st → voting_verifier.inv st
}.

(** What a delivery adds. *)
Definition outgoing (w : World) (g : Addr) (id : CrossChainId) : option Message :=
  st ← gateways w !! g; gateway.OUTGOING_MESSAGES st !! id.

(** The configuration of a gateway. *)
Definition config_of (w : World) (g : Addr) : option gateway.Config :=
  st ← gateways w !! g; gateway.CONFIG st.

Lemma gateway_call raddr w g st env sender m st' r :
  world_ok raddr w → gateways w !! g = Some st → gateway.execute st env sender m = Ok (st', r) →
  world_ok raddr (set_gateway w g st') ∧
  (∀ g', config_of (set_gateway w g st') g' = config_of w g') ∧
  ∀ g' id m, outgoing w g' id = Some m → outgoing (set_gateway w g st') g' id = Some m.
Proof.
  intros [Hr Hg Hv] Hst Hf. destruct (Hg _ _ Hst) as (Hi & c & Hc & Hra).
  destruct (gateway.gateway_step_inv st st' Hi) as (Hi' & Hc' & Hsub); [by eexists _, _, _, _|].
  split; [split; [done| |done]|split].
  - intros g' st0. cbn. rewrite lookup_insert_Some.
    intros [[<- <-]|[_ ?]]; [|by eapply Hg]. split; [done|]. exists c. by rewrite Hc'.
  - intros g'. unfold config_of. cbn. destruct (decide (g = g')) as [<-|Hne].
    + by rewrite lookup_insert_eq, Hst.
    + by rewrite lookup_insert_ne.
  - intros g' id m0. unfold outgoing. cbn. destruct (decide (g = g')) as [<-|Hne].
    + rewrite lookup_insert_eq, Hst. cbn. intros Hm0. by eapply lookup_weaken.
    + by rewrite lookup_insert_ne.
Qed.

(** What the router makes a gateway store is among the messages it sends. *)
Lemma gateway_stores raddr w g st env ms st' r id m :
  world_ok raddr w → gateways w !! g = Some st →
  gateway.execute st env raddr (gateway.RouteMessages ms) = Ok (st', r) →
  outgoing w g id = None → outgoing (set_gateway w g st') g id = Some m → id = cc_id m ∧ m ∈ ms.
Proof.
  intros Hw Hst Hf. destruct (wo_gateway _ _ Hw _ _ Hst) as (_ & c & Hc & _).
  unfold outgoing. cbn. rewrite lookup_insert_eq, Hst. cbn. intros Hnone Hsome.
  destruct (gateway.execute_cases _ _ _ _ _ _ _ Hc Hf)
    as [->|(msgs & [= <-] & _ & _ & _ & -> & _)]; [congruence|].
  cbn in Hsome. unfold gateway.stored_all in Hsome. rewrite lookup_union_r in Hsome by done.
  by apply elem_of_list_to_map_2, list_elem_of_fmap in Hsome as (x & [= -> ->] & Hx).
Qed.

Lemma route_delivered raddr h l w w' :
  world_ok raddr w → deliver raddr h w l = Ok w' →
  world_ok raddr w' ∧ router_st w' = router_st w ∧ verifiers w' = verifiers w ∧
  (∀ g, config_of w' g = config_of w g) ∧
  (∀ g id m, outgoing w g id = Some m → outgoing w' g id = Some m) ∧
  ∀ g id m, outgoing w g id = None → outgoing w' g id = Some m →
    id = cc_id m ∧ ∃ ms, router.RouteMessagesTo g ms ∈ l ∧ m ∈ ms.
Proof.
  revert w. induction l as [|[g0 ms] l IH]; intros w Hw Hf; cbn in Hf.
  { apply Ok_inj in Hf as <-. split_and!; [done..|]. intros; congruence. }
  destruct (gateways w !! g0) as [st|] eqn:Hst; cbn in Hf.
  - apply bind_Ok in Hf as ([st' r] & Hg & Hf). apply map_err_Ok in Hg.
    destruct (gateway_call _ _ _ _ _ _ _ _ _ Hw Hst Hg) as (Hw1 & Hcfg1 & Hkeep1).
    destruct (IH _ Hw1 Hf) as (Hw' & Hr & Hv & Hcfg & Hkeep & Hnew).
    split_and!; [done..|intros g; by rewrite Hcfg|by auto|]. intros g id m Hnone Hsome.
    destruct (outgoing (set_gateway w g0 st') g id) as [m0|] eqn:Eo.
    + pose proof (Hkeep _ _ _ Eo) as Eo'. assert (m0 = m) as -> by congruence.
      destruct (decide (g0 = g)) as [->|Hne].
      * destruct (gateway_stores _ _ _ _ _ _ _ _ _ _ Hw Hst Hg Hnone Eo) as [-> Hm].
        split; [done|]. exists ms. split; [left|done].
      * unfold outgoing in Eo, Hnone. cbn in Eo. rewrite lookup_insert_ne in Eo by done. congruence.
    + destruct (Hnew _ _ _ Eo Hsome) as (-> & ms' & Hin & Hm). split; [done|].
      exists ms'. split; [by right|done].
  - destruct (IH _ Hw Hf) as (Hw' & Hr & Hv & Hcfg & Hkeep & Hnew). split_and!; [done..|].
    intros g id m Hnone Hsome. destruct (Hnew _ _ _ Hnone Hsome) as (-> & ms' & Hin & Hm).
    split; [done|]. exists ms'. split; [by right|done].
Qed.

(** A quorum of the voting power voted for the success of the message. *)
Definition voted (vst : voting_verifier.State) (m : Message) : Prop :=
  ∃ c p s, voting_verifier.poll_messages vst !! Message_hash keccak256 m = Some c ∧
    voting_verifier.content c = m ∧
    voting_verifier.POLLS vst !! voting_verifier.content_poll_id c =
      Some (voting_verifier.PollMessages p) ∧
    let votes := voting_verifier.poll_votes vst (voting_verifier.content_poll_id c) in
    voting.snapshot_ok s ∧ voting.poll_reachable s p votes ∧
    snapshot.quorum s ≤
      voting.voted_weight p votes (Z.to_nat (voting_verifier.index_in_poll c)) voting.SucceededOnChain.

Lemma succeeded_voted vst m h :
  voting_verifier.inv vst →
  voting_verifier.message_status vst m h = Ok SucceededOnSourceChain → voted vst m.
Proof.
  intros Hi Hs. unfold voting_verifier.message_status in Hs.
  destruct (voting_verifier.poll_messages vst !! _) as [c|] eqn:Hc; [|done].
  destruct (voting_verifier.confirmed_consensus _ _ _ _ _ Hs eq_refl) as (Hx & p & v & Hp & Ho & Hv).
  destruct (voting_verifier.inv_message _ Hi _ _ Hc) as (_ & _ & wp & Hp' & Hb).
  assert (p = voting_verifier.PollMessages wp) as -> by congruence. cbn in Ho.
  destruct (voting_verifier.poll_consensus vst _ _ (Z.to_nat (voting_verifier.index_in_poll c)) Hi Hp)
    as (s & o & Hs' & Hr & Ho' & Hq); [cbn; lia|]. cbn in Ho', Hr, Hq.
  exists c, wp, s. cbn zeta. split_and!; [done..|]. apply Hq.
  assert (o = Some v) as -> by congruence. by destruct v.
Qed.

Lemma answered w h a msgs answer m :
  gateway.messages_status (gateway_env w h) a msgs = Some answer →
  (m, SucceededOnSourceChain) ∈ answer →
  m ∈ msgs ∧ ∃ vst, verifiers w !! a = Some vst ∧
    voting_verifier.message_status vst m h = Ok SucceededOnSourceChain.
Proof.
  intros Ha Hm.
  assert (∃ vst, verifiers w !! a = Some vst ∧
    voting_verifier.messages_status vst msgs h = Ok answer) as (vst & Hv & Hst).
  { unfold gateway.messages_status in Ha. destruct msgs as [|x msgs].
    { injection Ha as <-. by apply not_elem_of_nil in Hm. }
    unfold gateway_env in Ha. cbn [gateway.query_messages_status] in Ha.
    apply bind_Some in Ha as (vst & Hv & Ha). exists vst. split; [done|].
    destruct (voting_verifier.messages_status vst (x :: msgs) h); cbn in Ha; congruence. }
  apply try_map_Ok in Hst. apply list_elem_of_lookup in Hm as [i Hi].
  destruct (Forall2_lookup_r _ _ _ _ _ Hst Hi) as (x & Hx & Hy).
  apply fmap_Ok in Hy as (s & Hs & [= <- <-]).
  split; [by eapply list_elem_of_lookup_2|]. eauto.
Qed.

Lemma router_route st env g ms st' r :
  router.inv st →
  router.execute st env g (msgs_derive.Direct (router.RouteMessages ms)) = Ok (st', r) →
  st' = st ∧ router.is_enabled st = true ∧ ∃ c, router.CONFIG st = Some c ∧
    router.may_send st c g ms ∧
    ∀ g' ms' m, router.RouteMessagesTo g' ms' ∈ messages r → m ∈ ms' →
      m ∈ ms ∧ router.delivers st env c (destination_chain m) g'.
Proof.
  intros Hi Hf. destruct (router.execute_Ok _ _ _ (msgs_derive.Direct (router.RouteMessages ms)) _ _ Hi I Hf) as (g' & Hauth & -> & Hr).
  unfold router.authorize in Hauth.
  apply msgs_derive.authorize_direct in Hauth as (_ & -> & _).
  destruct (router.route_messages_spec st env g ms Hi) as (c & Hc & Hok & Hout).
  split; [done|]. destruct (proj1 Hok) as (Hen & Hsend & _); [by rewrite Hr|].
  split; [done|]. exists c. split_and!; [done..|]. intros g' ms' m Hin Hm.
  destruct (Hout _ Hr) as (_ & Hj & Hall). rewrite Forall_forall in Hall.
  destruct (Hall _ Hin) as [_ Hd]. rewrite Forall_forall in Hd. split; [|by apply Hd].
  rewrite <-Hj. apply list_elem_of_join. exists ms'. split; [done|].
  apply list_elem_of_fmap. by exists (router.RouteMessagesTo g' ms').
Qed.

(** What a transaction started by anybody but the router does. *)
Lemma relay_spec raddr renv h w g sender msgs w' :
  world_ok raddr w → sender ≠ raddr → relay raddr renv h w g sender msgs = Ok w' →
  world_ok raddr w' ∧ router_st w' = router_st w ∧ verifiers w' = verifiers w ∧
  (∀ g', config_of w' g' = config_of w g') ∧
  (∀ g' id m, outgoing w g' id = Some m → outgoing w' g' id = Some m) ∧
  ∀ g' id m, outgoing w g' id = None → outgoing w' g' id = Some m →
    id = cc_id m ∧ m ∈ msgs ∧
    ∃ gst gc vst rc, gateways w !! g = Some gst ∧ gateway.CONFIG gst = Some gc ∧
      verifiers w !! gateway.verifier gc = Some vst ∧
      voting_verifier.message_status vst m h = Ok SucceededOnSourceChain ∧
      router.CONFIG (router_st w) = Some rc ∧ router.is_enabled (router_st w) = true ∧
      router.may_send (router_st w) rc g [m] ∧
      router.delivers (router_st w) renv rc (destination_chain m) g'.
Proof.
  intros Hw Hs Hf. unfold relay in Hf. apply bind_Ok in Hf as (st & Hst & Hf). apply ok_or_Ok in Hst.
  apply bind_Ok in Hf as ([st' r] & Hg & Hf). apply map_err_Ok in Hg.
  destruct (wo_gateway _ _ Hw _ _ Hst) as (Hgi & c & Hc & Hra).
  destruct (gateway.incoming_messages_spec st (gateway_env w h) sender c msgs Hc) as [_ Hin];
    [congruence|]. destruct (Hin _ _ Hg) as (answer & Hans & -> & Hr & Hsucc & _).
  assert (set_gateway w g st = w) as Hsame.
  { unfold set_gateway. rewrite insert_id by done. by destruct w. }
  rewrite Hsame, Hr, Hra in Hf. clear Hin Hg.
  destruct (gateway.with_status gateway.succeeded answer) as [|m0 l] eqn:Hl; cbn in Hf.
  { apply Ok_inj in Hf as <-. split_and!; [done..|]. intros; congruence. }
  rewrite bool_decide_eq_true_2 in Hf by done.
  apply bind_Ok in Hf as ([rst rr] & Hrt & Hf). apply map_err_Ok in Hrt.
  apply bind_Ok in Hf as (w1 & Hd & Hf). apply Ok_inj in Hf as <-.
  destruct (router_route _ _ _ _ _ _ (wo_router _ _ Hw) Hrt) as (-> & Hen & rc & Hrc & Hsend & Hdel).
  assert (mkWorld (router_st w) (gateways w) (verifiers w) = w) as Hww by (by destruct w).
  rewrite Hww in Hd. destruct (route_delivered _ _ _ _ _ Hw Hd) as (Hw1 & Hrs & Hvs' & Hcfg & Hkeep & Hnew).
  split_and!; [done..|]. intros g' id m Hnone Hsome.
  destruct (Hnew _ _ _ Hnone Hsome) as (-> & ms & Hms & Hm). split; [done|].
  destruct (Hdel _ _ _ Hms Hm) as [Hml Hdm].
  destruct (answered _ _ _ _ _ _ Hans (proj1 (Hsucc m) Hml)) as (Hmm & vst & Hv & Hvs).
  split; [done|]. exists st, c, vst, rc. split_and!; [done..| |done].
  destruct Hsend as [[-> Hall]|(Hne & e & He & Hge & Hfr & Hall)]; [left|right].
  - split; [done|]. rewrite Forall_forall in Hall. apply Forall_singleton. by apply Hall.
  - split; [done|]. exists e. split_and!; [done..|]. rewrite Forall_forall in Hall.
    apply Forall_singleton. by apply Hall.
Qed.

(** An administrator or an outsider calls the router; only the gateways' own calls are made by
    their code, in [forward]. *)
Definition call_router (raddr : Addr) (renv : router.Env) (height : Z) (w : World) (sender : Addr)
    (m : msgs_derive.ExecuteMsgFromProxy router.ExecuteMsg) : result Error World :=
  '(rst, r) ← map_err RouterError (router.execute (router_st w) renv sender m);
  deliver raddr height (mkWorld rst (gateways w) (verifiers w)) (messages r).

(** What is on record of the router: the gateways that it knew, with their chains, and the
    messages that it accepted from senders that are none of the gateway contracts. *)
Inductive Entry :=
  | Registered (chain : string) (gateway : Addr)
  | Routed (sender : Addr) (m : Message).

Definition registrations (st : router.State) : list Entry :=
  (λ p, Registered p.1 (gateway p.2)) <$> map_to_list (router.chain_endpoints st).
Definition sent (m : router.ExecuteMsg) : list Message :=
  match m with router.RouteMessages msgs => msgs | _ => [] end.

(** What can happen: contracts are created, messages are relayed, verifiers vote, and anybody
    calls the router with anything, messages to route included. A gateway contract calls the
    router only in the way its code does, so it is no sender of its own. *)
Inductive run (raddr : Addr) : World → list Entry → Prop :=
  | run_init msg st r : router.instantiate msg = Ok (st, r) → run raddr (mkWorld st ∅ ∅) []
  | run_gateway w log g msg st r c :
      run raddr w log → gateways w !! g = None →
      (∀ rc, router.CONFIG (router_st w) = Some rc → g ≠ router.axelarnet_gateway rc) →
      gateway.instantiate msg = Ok (st, r) →
      gateway.CONFIG st = Some c → gateway.router c = raddr → run raddr (set_gateway w g st) log
  | run_verifier w log a msg st r :
      run raddr w log → verifiers w !! a = None →
      threshold.majority_wf (voting_verifier.i_voting_threshold msg) →
      voting_verifier.instantiate msg = Ok (st, r) →
      run raddr (mkWorld (router_st w) (gateways w) (<[a := st]> (verifiers w))) log
  | run_relay w log renv h g sender msgs w' :
      run raddr w log → sender ≠ raddr → relay raddr renv h w g sender msgs = Ok w' →
      run raddr w' log
  | run_vote w log a st env sender m st' r :
      run raddr w log → verifiers w !! a = Some st → voting_verifier.registry_ok env →
      voting_verifier.msg_wf m → voting_verifier.execute st env sender m = Ok (st', r) →
      run raddr (mkWorld (router_st w) (gateways w) (<[a := st']> (verifiers w))) log
  | run_router w log renv h sender m w' :
      run raddr w log → gateways w !! sender = None → router.msg_wf (msgs_derive.relayed m) →
      call_router raddr renv h w sender m = Ok w' →
      run raddr w' (log ++ registrations (router_st w') ++ (Routed sender <$> sent (msgs_derive.relayed m))).

(** The senders that the router takes messages of a chain from: the core gateway, and whom
    it knew as the gateway of that chain. *)
Definition entrusted (w : World) (log : list Entry) (chain : string) (sender : Addr) : Prop :=
  (∃ rc, router.CONFIG (router_st w) = Some rc ∧ sender = router.axelarnet_gateway rc) ∨
  Registered chain sender ∈ log.

(** The voting verifier that the gateway of a chain asks. *)
Definition verifier_of (w : World) (log : list Entry) (chain : string) (a : Addr)
    (vst : voting_verifier.State) : Prop :=
  (∃ g gc, Registered chain g ∈ log ∧ config_of w g = Some gc ∧ gateway.verifier gc = a) ∧
  verifiers w !! a = Some vst.

(** Where the stored messages come from. *)
Definition origin (w : World) (log : list Entry) (m : Message) : Prop :=
  (∃ sender, Routed sender m ∈ log ∧ entrusted w log (source_chain (cc_id m)) sender) ∨
  ∃ a vst h, verifier_of w log (source_chain (cc_id m)) a vst ∧
    voting_verifier.message_status vst m h = Ok SucceededOnSourceChain.

Record run_inv (raddr : Addr) (w : World) (log : list Entry) : Prop := {
  ri_ok : world_ok raddr w;
  ri_sourced a st : verifiers w !! a = Some st → voting_verifier.sourced st;
  ri_core rc : router.CONFIG (router_st w) = Some rc →
    config_of w (router.axelarnet_gateway rc) = None;
  ri_registered k e : router.chain_endpoints (router_st w) !! k = Some e →
    Registered k (gateway e) ∈ log;
  ri_origin g id m : outgoing w g id = Some m → id = cc_id m ∧ origin w log m
}.

Lemma registrations_elem st k e :
  router.chain_endpoints st !! k = Some e → Registered k (gateway e) ∈ registrations st.
Proof. intros He. apply list_elem_of_fmap. exists (k, e). by rewrite elem_of_map_to_list. Qed.

Lemma origin_kept w log w' log' m :
  origin w log m → router.CONFIG (router_st w') = router.CONFIG (router_st w) →
  (∀ g c, config_of w g = Some c → config_of w' g = Some c) → (∀ e, e ∈ log → e ∈ log') →
  (∀ a vst h, verifiers w !! a = Some vst →
     voting_verifier.message_status vst m h = Ok SucceededOnSourceChain →
     ∃ vst', verifiers w' !! a = Some vst' ∧
       voting_verifier.message_status vst' m h = Ok SucceededOnSourceChain) →
  origin w' log' m.
Proof.
  intros [(sender & Hin & He)|(a & vst & h & ((g & gc & Hg & Hc & Ha) & Hv) & Hs)] Hr Hcfg Hl Hvs.
  - left. exists sender. split; [auto|]. unfold entrusted. rewrite Hr. destruct He; auto.
  - right. destruct (Hvs _ _ _ Hv Hs) as (vst' & Hv' & Hs'). exists a, vst', h.
    split; [|done]. split; [|done]. exists g, gc. auto.
Qed.

(** A step that stores nothing. *)
Lemma run_inv_kept raddr w log w' :
  run_inv raddr w log → world_ok raddr w' → router_st w' = router_st w →
  (∀ a st, verifiers w' !! a = Some st → voting_verifier.sourced st) →
  (∀ g c, config_of w g = Some c → config_of w' g = Some c) →
  (∀ rc, router.CONFIG (router_st w) = Some rc → config_of w' (router.axelarnet_gateway rc) = None) →
  (∀ g id m, outgoing w' g id = Some m → outgoing w g id = Some m) →
  (∀ a vst h m, verifiers w !! a = Some vst →
     voting_verifier.message_status vst m h = Ok SucceededOnSourceChain →
     ∃ vst', verifiers w' !! a = Some vst' ∧
       voting_verifier.message_status vst' m h = Ok SucceededOnSourceChain) →
  run_inv raddr w' log.
Proof.
  intros [Hok Hso Hco Hre Ho] Hok' Hr Hso' Hcfg Hco' Hout Hv. split; [done..| | |].
  - by rewrite Hr.
  - by rewrite Hr.
  - intros g id m Hm. destruct (Ho g id m (Hout _ _ _ Hm)) as [-> Hm']. split; [done|].
    eapply origin_kept; [exact Hm'|by rewrite Hr|done..|]. eauto.
Qed.

Lemma run_inv_gateway raddr w log g msg st r c :
  run_inv raddr w log → gateways w !! g = None →
  (∀ rc, router.CONFIG (router_st w) = Some rc → g ≠ router.axelarnet_gateway rc) →
  gateway.instantiate msg = Ok (st, r) → gateway.CONFIG st = Some c → gateway.router c = raddr →
  run_inv raddr (set_gateway w g st) log.
Proof.
  intros IH Hnew Hne Hi Hc Hr. pose proof IH as [[Hro Hg Hv] Hso Hco _ _].
  eapply run_inv_kept; [exact IH|split; [done| |done]|done|done|..]; unfold config_of, outgoing; cbn.
  - intros g' st'. cbn. rewrite lookup_insert_Some. intros [[<- <-]|[_ ?]]; [|by eapply Hg].
    split; [|by exists c]. eapply gateway.gateway_reachable_inv, gateway.reachable_init, Hi.
  - intros g' c' Hc'. rewrite lookup_insert_ne; [done|]. intros ->. by rewrite Hnew in Hc'.
  - intros rc Hrc. rewrite lookup_insert_ne by by apply Hne. by apply Hco.
  - intros g' id m. destruct (decide (g = g')) as [<-|Hg']; [|by rewrite lookup_insert_ne].
    rewrite lookup_insert_eq. cbn. unfold gateway.instantiate in Hi. ok_inv. injection Hi as <- <-.
    cbn. by rewrite lookup_empty.
  - eauto.
Qed.

Lemma run_inv_verifiers raddr w log a st :
  run_inv raddr w log → voting_verifier.inv st → voting_verifier.sourced st →
  (∀ old m h, verifiers w !! a = Some old →
     voting_verifier.message_status old m h = Ok SucceededOnSourceChain →
     voting_verifier.message_status st m h = Ok SucceededOnSourceChain) →
  run_inv raddr (mkWorld (router_st w) (gateways w) (<[a := st]> (verifiers w))) log.
Proof.
  intros IH Hi Hs Hkeep. pose proof IH as [[Hro Hg Hv] Hso Hco _ _].
  eapply run_inv_kept; [exact IH|split; [done..|]|done| |done|done|done|]; cbn.
  - intros a' st'. cbn. rewrite lookup_insert_Some. intros [[<- <-]|[_ ?]]; [done|by eapply Hv].
  - intros a' st'. rewrite lookup_insert_Some. intros [[<- <-]|[_ ?]]; [done|by eapply Hso].
  - intros a' vst h m Ha Hst. destruct (decide (a = a')) as [<-|Hne].
    + exists st. rewrite lookup_insert_eq. eauto.
    + exists vst. by rewrite lookup_insert_ne.
Qed.

Lemma run_inv_relay raddr w log renv h g sender msgs w' :
  run_inv raddr w log → sender ≠ raddr → relay raddr renv h w g sender msgs = Ok w' →
  run_inv raddr w' log.
Proof.
  intros [Hok Hso Hco Hre Ho] Hs Hf.
  destruct (relay_spec _ _ _ _ _ _ _ _ Hok Hs Hf) as (Hok' & Hr & Hv & Hcfg & Hkeep & Hnew).
  split; [done|by rewrite Hv|by rewrite Hr; setoid_rewrite Hcfg|by rewrite Hr|].
  intros g' id m Hm. destruct (outgoing w g' id) as [m0|] eqn:E0.
  - rewrite (Hkeep _ _ _ E0) in Hm. injection Hm as <-. destruct (Ho _ _ _ E0) as [-> Hm0].
    split; [done|]. eapply origin_kept; [exact Hm0|by rewrite Hr|by setoid_rewrite Hcfg|done|].
    rewrite Hv. eauto.
  - destruct (Hnew _ _ _ E0 Hm) as (-> & _ & gst & gc & vst & rc & Hg & Hgc & Ha & Hst & Hrc & _ & Hsend & _).
    split; [done|]. right. exists (gateway.verifier gc), vst, h. unfold verifier_of. rewrite Hv.
    assert (config_of w g = Some gc) as Hgc' by (unfold config_of; by rewrite Hg).
    destruct Hsend as [[-> _]|(_ & e & He & <- & _ & Hall)]; [by rewrite (Hco _ Hrc) in Hgc'|].
    apply Forall_singleton in Hall as [-> _]. split; [|done]. split; [|done].
    exists (router_api.gateway e), gc. split; [by apply Hre|]. by rewrite Hcfg.
Qed.

Lemma run_inv_router raddr w log renv h sender m w' :
  run_inv raddr w log → router.msg_wf (msgs_derive.relayed m) →
  call_router raddr renv h w sender m = Ok w' →
  run_inv raddr w'
    (log ++ registrations (router_st w') ++ (Routed sender <$> sent (msgs_derive.relayed m))).
Proof.
  intros [Hok Hso Hco Hre Ho] Hm Hf. unfold call_router in Hf.
  apply bind_Ok in Hf as ([rst r] & Hx & Hd). apply map_err_Ok in Hx.
  pose proof (wo_router _ _ Hok) as Hri.
  pose proof (router.config_kept _ _ _ _ _ _ Hri Hm Hx) as Hrc.
  assert (world_ok raddr (mkWorld rst (gateways w) (verifiers w))) as Hok1.
  { destruct Hok. split; [|done..]. by eapply router.router_inv_execute. }
  destruct (route_delivered _ _ _ _ _ Hok1 Hd) as (Hok' & Hr & Hv & Hcfg & Hkeep & Hnew). cbn in Hr, Hv.
  split; [done|by rewrite Hv|rewrite Hr, Hrc; by setoid_rewrite Hcfg| |].
  { intros k e He. apply elem_of_app. right. apply elem_of_app. left. by apply registrations_elem. }
  intros g id x Hx'. destruct (outgoing w g id) as [x0|] eqn:E0.
  - rewrite (Hkeep _ _ _ E0) in Hx'. injection Hx' as <-. destruct (Ho _ _ _ E0) as [-> Hm0].
    split; [done|]. eapply origin_kept; [exact Hm0|by rewrite Hr|by setoid_rewrite Hcfg| |].
    + intros e He. apply elem_of_app. by left.
    + rewrite Hv. eauto.
  - destruct (Hnew _ _ _ E0 Hx') as (-> & ms & Hms & Hin). split; [done|]. left.
    destruct (router.execute_sends _ _ _ _ _ _ Hri Hx) as [msgs ->].
    { intros Hnil. rewrite Hnil in Hms. inversion Hms. }
    destruct (router_route _ _ _ _ _ _ Hri Hx) as (-> & _ & rc & Hrc' & Hsend & Hdel).
    destruct (Hdel _ _ _ Hms Hin) as [Hxm _]. exists sender. cbn. split.
    { apply elem_of_app. right. apply elem_of_app. right. by apply list_elem_of_fmap_2. }
    destruct Hsend as [[-> _]|(_ & e & He & <- & _ & Hall)].
    + left. exists rc. by rewrite Hr.
    + right. apply elem_of_app. left. rewrite Forall_forall in Hall.
      destruct (Hall _ Hxm) as [-> _]. by apply Hre.
Qed.

Lemma relay_run_inv raddr w log : run raddr w log → run_inv raddr w log.
Proof.
  induction 1 as [msg st r Hi|w log g msg st r c _ IH Hnew Hne Hi Hc Hr|w log a msg st r _ IH Hnew Ht Hi|
    w log renv h g sender msgs w' _ IH Hs Hf|w log a st env sender m st' r _ IH Ha Hreg Hm Hf|
    w log renv h sender m w' _ IH _ Hm Hf].
  - split; [split|..]; unfold outgoing, config_of; cbn; intros *; rewrite ?lookup_empty; try done.
    + eapply router.router_reachable_inv, router.reachable_init, Hi.
    + unfold router.instantiate in Hi. ok_inv. injection Hi as <- <-. cbn. by rewrite lookup_empty.
  - by eapply run_inv_gateway.
  - apply run_inv_verifiers; [done|by eapply voting_verifier.inv_instantiate|
      by eapply voting_verifier.sourced_instantiate|congruence].
  - by eapply run_inv_relay.
  - pose proof (wo_verifier _ _ (ri_ok _ _ _ IH) _ _ Ha) as Hi.
    apply run_inv_verifiers; [done|by eapply voting_verifier.vv_inv_execute| |].
    + eapply voting_verifier.sourced_execute; [|exact Hf]. by eapply (ri_sourced _ _ _ IH).
    + intros old x h Hold Hs. assert (old = st) as -> by congruence.
      by eapply voting_verifier.confirmed_message_step.
  - by eapply run_inv_router.
Qed.

(** What a voting verifier confirms is of its own chain. *)
Lemma confirmed_source vst m h :
  voting_verifier.sourced vst → voting_verifier.inv vst →
  voting_verifier.message_status vst m h = Ok SucceededOnSourceChain →
  ∃ vc, voting_verifier.CONFIG vst = Some vc ∧
    voting_verifier.source_chain_name vc = source_chain (cc_id m).
Proof.
  intros (vc & Hc & Hs) Hi Hm. exists vc. split; [done|].
  destruct (succeeded_voted _ _ _ Hi Hm) as (c & p & s & Hx & <- & _). symmetry. by eapply Hs.
Qed.

(** C6: Every delivered message was voted for on behalf of its source chain. Whatever contracts are
    created, whoever calls the gateways, the voting verifiers and the router, with whatever
    messages and in whatever order, a message that some gateway holds for delivery is stored under
    its own identifier, and one of two things is true of it. Either the router took it directly
    from a sender that is no gateway contract of this code, and that sender is the configured
    core gateway or was registered as the gateway of the message's source chain. Or the voting verifier that
    the registered gateway contract of the message's source chain asks, and whose own
    configuration names that source chain, holds a poll, over a majority snapshot of the
    registered verifiers, in which verifiers with at least the quorum of the voting power voted
    that exactly this message succeeded. A gateway contract is deployed with the router of the
    system, never at the address of the core gateway, and calls the router only as its code does;
    the service registry answers the voting verifiers with positive weights that add up within
    128 bits. *)
Theorem delivered_message_voted (raddr : Addr) (w : World) (log : list Entry) (g : Addr)
    (id : CrossChainId) (m : Message) :
  run raddr w log → outgoing w g id = Some m →
  id = cc_id m ∧
  ((∃ sender, Routed sender m ∈ log ∧ entrusted w log (source_chain (cc_id m)) sender) ∨
   ∃ a vst vc, verifier_of w log (source_chain (cc_id m)) a vst ∧
     voting_verifier.CONFIG vst = Some vc ∧
     voting_verifier.source_chain_name vc = source_chain (cc_id m) ∧ voted vst m).
Proof.
  intros [Hok Hso _ _ Ho]%relay_run_inv Hm. destruct (Ho _ _ _ Hm) as [-> [Hin|(a & vst & h & Ha & Hs)]];
    (split; [done|]); [by left|right].
  pose proof (wo_verifier _ _ Hok _ _ (proj2 Ha)) as Hi. pose proof (Hso _ _ (proj2 Ha)) as Hsrc.
  destruct (confirmed_source _ _ _ Hsrc Hi Hs) as (vc & Hc & Hn).
  exists a, vst, vc. split_and!; [done..|]. by eapply succeeded_voted.
Qed.

(** A relayed message takes the registered way. When a transaction that somebody starts at a
    gateway makes any gateway store a new message, then that message was among those submitted,
    the verifier of the gateway it was submitted to confirms it, the router is enabled and knows
    the submitting gateway as the one of the message's source chain, not frozen for incoming
    messages, and the storing gateway is the one of its destination chain, not frozen for
    outgoing messages; messages stored before stay as they are. *)
Theorem relayed_message_checked (raddr : Addr) (w w' : World) (log : list Entry)
    (renv : router.Env) (h : Z) (g sender : Addr) (msgs : list Message) :
  run raddr w log → sender ≠ raddr → relay raddr renv h w g sender msgs = Ok w' →
  (∀ g' id m, outgoing w g' id = Some m → outgoing w' g' id = Some m) ∧
  ∀ g' id m, outgoing w g' id = None → outgoing w' g' id = Some m →
    id = cc_id m ∧ m ∈ msgs ∧
    ∃ gst gc vst rc, gateways w !! g = Some gst ∧ gateway.CONFIG gst = Some gc ∧
      verifiers w !! gateway.verifier gc = Some vst ∧
      voting_verifier.message_status vst m h = Ok SucceededOnSourceChain ∧
      router.CONFIG (router_st w) = Some rc ∧ router.is_enabled (router_st w) = true ∧
      router.may_send (router_st w) rc g [m] ∧
      router.delivers (router_st w) renv rc (destination_chain m) g'.
Proof.
  intros [Hok _ _ _ _]%relay_run_inv Hs Hf.
  by destruct (relay_spec _ _ _ _ _ _ _ _ Hok Hs Hf) as (_ & _ & _ & _ & Hkeep & Hnew).
Qed.

End relay.
End relay.

(** ** Runs *)
Module composition_run.
Import router_api.

(** *** The registry with two verifiers *)
Lemma single_service_typed st x :
  service_registry.SERVICES st = {["amp" := x]} → service_registry.SERVICE_OVERRIDES st = ∅ →
  service_registry.max_num_verifiers x = None → registry_answers.params_typed st.
Proof.
  intros Hs Ho Hm n c y Hy. unfold service_registry.service in Hy.
  apply bind_Ok in Hy as (z & Hz & Hy). rewrite Ho in Hy. cbn in Hy. rewrite lookup_empty in Hy.
  apply Ok_inj in Hy as <-.
  apply ok_or_Ok in Hz. rewrite Hs in Hz. apply lookup_singleton_Some in Hz as [_ <-]. by rewrite Hm.
Qed.

Lemma run_params_typed :
  registry_answers.params_typed (service_registry.st service_registry_run.run6).
Proof. eapply single_service_typed; [vm_compute; reflexivity..|reflexivity]. Qed.

Lemma registry_answers_sound_witness :
  ∃ ws, @service_registry.active_verifiers service_registry.sorted_select
      service_registry_run.run_keccak (service_registry.st service_registry_run.run6) 100
      "amp" "eth" = Ok ws ∧
    multisig_prover.registry_answer_ok ws.
Proof.
  destruct (@registry_answers.registry_answers_sound service_registry.sorted_select
    service_registry.sorted_select_spec service_registry_run.run_keccak service_registry_run.run_api
    service_registry_run.run6 [] "registry" 100 service_registry_run.registry_run6 run_params_typed)
    as [_ Hws].
  eexists. split; [vm_compute; reflexivity|]. apply (Hws "amp" "eth"). vm_compute. reflexivity.
Defined.

(** *** A prover that has reported its first set *)
Module unbonding_run.
Import unbonding.
#[local] Existing Instances coordinator_run.run_api multisig_prover_run.run_crypto
  multisig_prover_run.run_encoder codecs.hex_codec.

Lemma run_api_valid : ApiValid.
Proof. intros s a Ha. cbn in Ha. by injection Ha. Qed.
#[local] Existing Instance run_api_valid.

Definition prover_msg : multisig_prover.InstantiateMsg :=
  multisig_prover_run.run_instantiate_msg.
Definition prover_env : multisig_prover.Env := multisig_prover_run.run_env 1 ["a"; "b"; "c"].
Definition prover_next (st : multisig_prover.State) : multisig_prover.State * multisig_prover.PResponse :=
  match multisig_prover.execute st prover_env "admin" multisig_prover.UpdateVerifierSet with
  | Ok p => p | _ => (st, Response_new) end.
Definition prover1 := prover_next multisig_prover_run.run0.
Definition coord1 : coordinator.State :=
  match deliver coordinator_run.run_env "prover-s1" coordinator_run.run3.1 (messages prover1.2) with
  | Ok c => c | _ => coordinator_run.run3.1 end.

Definition system0 : World := mkWorld coordinator_run.run3.1 ∅.
Definition system1 : World :=
  mkWorld coordinator_run.run3.1 (<["prover-s1" := multisig_prover_run.run0]> ∅).
Definition system2 : World := mkWorld coord1 (<["prover-s1" := prover1.1]> (provers system1)).

Lemma coordinator_steps c m :
  reachable "coordinator" (mkWorld c ∅) →
  is_ok (coordinator.execute c coordinator_run.run_env "gov" (msgs_derive.Direct m)) = true →
  reachable "coordinator" (mkWorld (coordinator_run.next c "gov" m).1 ∅).
Proof.
  intros Hr Hf%coordinator_run.coordinator_next_Ok. eapply reachable_step; [exact Hr|].
  by apply (step_coordinator _ (mkWorld c ∅) _ _ _ _ _ (lookup_empty _) Hf).
Qed.

Lemma system0_reachable : reachable "coordinator" system0.
Proof.
  apply coordinator_steps; [apply coordinator_steps; [apply coordinator_steps|]|];
    [by apply (reachable_init _ "gov" _ Response_new)|vm_compute; reflexivity..].
Qed.

Lemma system1_reachable : reachable "coordinator" system1.
Proof.
  eapply reachable_step; [exact system0_reachable|].
  apply (step_create _ system0 "prover-s1" prover_msg _ Response_new); [apply lookup_empty| |done|done].
  vm_compute. reflexivity.
Qed.

Lemma system2_reachable : reachable "coordinator" system2.
Proof.
  eapply reachable_step; [exact system1_reachable|].
  apply (step_prover _ system1 "prover-s1" multisig_prover_run.run0 prover_env
    coordinator_run.run_env "admin" multisig_prover.UpdateVerifierSet prover1.1 prover1.2 coord1);
    [apply lookup_insert_eq|done| |].
  - assert (is_ok (multisig_prover.execute multisig_prover_run.run0 prover_env "admin"
      multisig_prover.UpdateVerifierSet) = true) as Hok by (vm_compute; reflexivity).
    unfold prover1, prover_next. by destruct (multisig_prover.execute _ _ _ _) as [[]|e|].
  - assert (is_ok (deliver coordinator_run.run_env "prover-s1" coordinator_run.run3.1
      (messages prover1.2)) = true) as Hok by (vm_compute; reflexivity).
    unfold coord1, system1, coord. by destruct (deliver _ _ _ _).
Qed.

Definition set1 : verifier_set.VerifierSet :=
  default (verifier_set.mkVerifierSet ∅ 0 0) (multisig_prover.CURRENT_VERIFIER_SET prover1.1).

Lemma system2_signs : signs system2 "a".
Proof.
  exists "prover-s1", prover1.1, set1, "a",
    (verifier_set.mkSigner "a" 1 (key.PkEcdsa "a")).
  split_and!; [apply lookup_insert_eq|left; vm_compute; reflexivity|vm_compute; reflexivity|done].
Qed.

Lemma active_signer_stays_bonded_witness :
  coordinator.check_verifier_ready_to_unbond (coord system2) "a" = false.
Proof.
  exact (proj1 (active_signer_stays_bonded "coordinator" system2 "a" system2_reachable
    system2_signs)).
Defined.

End unbonding_run.

(** *** A message from one chain to another *)
Module relay_run.
Import relay.
#[local] Existing Instances voting_verifier_run.run_crypto voting_verifier_run.run_api
  voting_verifier_run.run_bech32 voting_verifier_run.run_parsers codecs.hex_codec
  codecs.base58_codec codecs.felt_format.

Notation message := voting_verifier_run.run_message (only parsing).

Definition renv : router.Env := router.mkEnv (λ _, Some false).
Definition register (c g : string) : msgs_derive.ExecuteMsgFromProxy router.ExecuteMsg :=
  msgs_derive.Direct (router.RegisterChain c g msg_id.HexTxHashAndEventIndex).

Definition router_next (st : router.State) m : router.State :=
  match router.execute st renv "gov" m with Ok (st', _) => st' | _ => st end.
Definition router0 : router.State :=
  match router.instantiate (router.mkInstantiate "admin" "gov" "core" "coord") with
  | Ok (st, _) => st
  | _ => router.mkState (permission_control.mkStorage None None) None None ∅
  end.
Definition router1 := router_next router0 (register "eth" "gw-eth").
Definition router2 := router_next router1 (register "polygon" "gw-polygon").

Definition new_gateway (v : Addr) : gateway.State :=
  gateway.mkState (Some (gateway.mkConfig v "router")) ∅.
Definition with_verifier (w : World) (st : voting_verifier.State) : World :=
  mkWorld (router_st w) (gateways w) (<["vv-eth" := st]> (verifiers w)).

Definition world0 : World :=
  set_gateway (set_gateway (mkWorld router2 ∅ ∅) "gw-eth" (new_gateway "vv-eth"))
    "gw-polygon" (new_gateway "vv-polygon").
Definition world1 : World := with_verifier world0 voting_verifier_run.run0.
Definition world2 : World := with_verifier world1 voting_verifier_run.run1.
Definition world3 : World := with_verifier world2 voting_verifier_run.run2.
Definition world4 : World := with_verifier world3 voting_verifier_run.run3.
Definition world5 : World :=
  match relay "router" renv 5 world4 "gw-eth" "anyone" [message] with Ok w => w | _ => world4 end.

Lemma router_registers w log m :
  run "router" w log → gateways w !! "gov" = None → router.msg_wf (msgs_derive.relayed m) →
  is_ok (router.execute (router_st w) renv "gov" m) = true →
  (∀ st r, router.execute (router_st w) renv "gov" m = Ok (st, r) → messages r = []) →
  run "router" (mkWorld (router_next (router_st w) m) (gateways w) (verifiers w))
    (log ++ registrations (router_next (router_st w) m) ++
       (Routed "gov" <$> sent (msgs_derive.relayed m))).
Proof.
  intros Hr Hg Hw [[st' r] Hf]%is_ok_true Hn. specialize (Hn _ _ Hf). unfold router_next. rewrite Hf.
  apply (run_router _ w log renv 1 "gov" m); [done..|]. unfold call_router. rewrite Hf. cbn.
  by rewrite Hn.
Qed.

(** What the router has on record: the two registrations. *)
Definition log2 : list Entry := ([] ++ registrations router1 ++ []) ++ registrations router2 ++ [].

Lemma world0_run : run "router" world0 log2.
Proof.
  apply (run_gateway _ _ _ _ (gateway.mkInstantiate "vv-polygon" "router") _ Response_new
    (gateway.mkConfig "vv-polygon" "router")); [|vm_compute; reflexivity| |done..];
    [|vm_compute; by intros rc [= <-]].
  apply (run_gateway _ _ _ _ (gateway.mkInstantiate "vv-eth" "router") _ Response_new
    (gateway.mkConfig "vv-eth" "router")); [|vm_compute; reflexivity| |done..];
    [|vm_compute; by intros rc [= <-]].
  apply (router_registers (mkWorld router1 ∅ ∅) _ (register "polygon" "gw-polygon"));
    [|done|done|vm_compute; reflexivity|by vm_compute; intros st r [= <- <-]].
  apply (router_registers (mkWorld router0 ∅ ∅) [] (register "eth" "gw-eth"));
    [|done|done|vm_compute; reflexivity|by vm_compute; intros st r [= <- <-]].
  unfold router0. destruct (router.instantiate _) as [[st r]|e|] eqn:Hf;
    [by eapply run_init|vm_compute in Hf; discriminate Hf..].
Qed.

Lemma verifier_steps w st h sender m :
  run "router" w log2 → verifiers w !! "vv-eth" = Some st → voting_verifier.msg_wf m →
  is_ok (voting_verifier.execute st (voting_verifier_run.run_env h) sender m) = true →
  run "router" (with_verifier w (voting_verifier_run.next st h sender m)) log2.
Proof.
  intros Hr Hst Hm [r Hf]%voting_verifier_run.vv_execute_next.
  by eapply run_vote; [..|exact Hf]; [| |apply voting_verifier_run.run_registry_ok|].
Qed.

Lemma world4_run : run "router" world4 log2.
Proof.
  apply verifier_steps; [|apply lookup_insert_eq|done|vm_compute; reflexivity].
  apply verifier_steps; [|apply lookup_insert_eq|done|vm_compute; reflexivity].
  apply verifier_steps; [|apply lookup_insert_eq| |vm_compute; reflexivity].
  - unfold world1, with_verifier, voting_verifier_run.run0.
    destruct (voting_verifier.instantiate _) as [[st r]|e|] eqn:Hf;
      [|vm_compute in Hf; discriminate Hf..].
    apply (run_verifier _ _ _ _ voting_verifier_run.run_instantiate _ _ world0_run (eq_refl : verifiers world0 !! "vv-eth" = None) two_thirds_wf Hf).
  - apply Forall_singleton, voting_verifier_run.run_message_wf.
Qed.

Lemma world5_Ok : relay "router" renv 5 world4 "gw-eth" "anyone" [message] = Ok world5.
Proof.
  assert (is_ok (relay "router" renv 5 world4 "gw-eth" "anyone" [message]) = true) as Hok
    by (vm_compute; reflexivity).
  unfold world5. by destruct (relay _ _ _ _ _ _ _).
Qed.
Lemma world5_run : run "router" world5 log2.
Proof. eapply run_relay; [exact world4_run| |exact world5_Ok]. done. Qed.

Lemma world5_outgoing : outgoing world5 "gw-polygon" (cc_id message) = Some message.
Proof. vm_compute. reflexivity. Qed.

Lemma not_routed sender : Routed sender message ∉ log2.
Proof. vm_compute. intros H. repeat (apply elem_of_cons in H as [H|H]; [discriminate H|]). inversion H. Qed.

Lemma delivered_message_voted_witness :
  ∃ a vst vc, verifier_of world5 log2 "eth" a vst ∧ voting_verifier.CONFIG vst = Some vc ∧
    voting_verifier.source_chain_name vc = "eth" ∧ voted vst message.
Proof.
  destruct (proj2 (delivered_message_voted "router" world5 log2 "gw-polygon" (cc_id message) message
    world5_run world5_outgoing)) as [(sender & Hin & _)|Hv]; [by destruct (not_routed sender)|exact Hv].
Defined.

Lemma relayed_message_checked_witness :
  ∃ vst, verifiers world4 !! "vv-eth" = Some vst ∧
    voting_verifier.message_status vst message 5 = Ok SucceededOnSourceChain.
Proof.
  destruct (proj2 (relayed_message_checked "router" world4 world5 log2 renv 5 "gw-eth" "anyone" [message]
    world4_run ltac:(discriminate) world5_Ok) "gw-polygon" (cc_id message) message)
    as (_ & _ & gst & gc & vst & rc & Hg & Hc & Hv & Hs & _);
    [vm_compute; reflexivity|exact world5_outgoing|].
  assert (Some gst = Some (new_gateway "vv-eth")) as Heq by (rewrite <-Hg; vm_compute; reflexivity).
  injection Heq as ->. injection Hc as <-. exists vst. exact (conj Hv Hs).
Defined.

End relay_run.
End composition_run.
