(* ===== verification/AmpdSystem.v ===== *)
(** * Verifiers and the contract they vote in

    The daemon of [AmpdEvm] together with the voting verifier of [VotingVerifier]: what the contract
    announces in its events is what it stores, and what an honest verifier reads of the
    announcement is what it votes on. So a message that the contract confirms happened on the
    source chain, as a node of an honest verifier shows, as long as the others hold less than the
    quorum. *)

From S2P Require Import Prelude Std Voting MsgId RouterApi Multisig VotingVerifier MultisigProver Encoding.
From S2P Require Import AmpdStream AmpdEvm Composition.

(** ** The announcements of a voting verifier *)
Module announcements.
Import router_api voting_verifier.

Section contract.
Context `{Crypto} `{HexCodec} `{Base58Codec} `{Bech32Codec} `{!FeltFormat}
  `{address.AddressParsers} `{Api}.

(** A run of the contract, with the events that it emitted. *)
Inductive run : State → list Event → Prop :=
  | run_init m st r :
      threshold.majority_wf (i_voting_threshold m) → instantiate m = Ok (st, r) → run st (events r)
  | run_step st log env sender m st' r :
      run st log → registry_ok env → msg_wf m → execute st env sender m = Ok (st', r) →
      run st' (log ++ events r).

Lemma run_reachable st log : run st log → reachable st.
Proof.
  induction 1 as [m st r Hm Hf|st log env sender m st' r _ IH Hreg Hm Hf].
  - by eapply reachable_init.
  - eapply reachable_step; [exact IH|]. by exists env, sender, m, r.
Qed.

(** What the announcement of a poll says of a message. *)
Definition tx_of (m : Message) : TxEventConfirmation :=
  mkTxEvent (message_id (cc_id m)) (destination_address m) (destination_chain m) (source_address m)
    (payload_hash m).

(** An announcement names the gateway of the contract, and the messages of the poll that are
    stored, each at its place. *)
Definition announced (st : State) (txs : list TxEventConfirmation) (md : PollMetadata) : Prop :=
  md_poll_id md ≤ counter.cur (POLL_ID st) ∧
  (∃ c, CONFIG st = Some c ∧ md_source_gateway_address md = source_gateway_address c) ∧
  ∀ h c, poll_messages st !! h = Some c → content_poll_id c = md_poll_id md →
    txs !! Z.to_nat (index_in_poll c) = Some (tx_of (content c)).

Lemma txs_of l format txs :
  try_map (λ msg, TxEventConfirmation_try_from msg format) l = Ok txs → txs = tx_of <$> l.
Proof.
  intros Hl%try_map_Ok. induction Hl as [|m tx l txs Hm _ IH]; [done|]. cbn. f_equal; [|done].
  unfold TxEventConfirmation_try_from in Hm. by ok_inv.
Qed.

Lemma verify_messages_announces st env messages st' r txs md :
  verify_messages st env messages = Ok (st', r) → PollStartedMessages txs md ∈ events r →
  ∃ c todo, CONFIG st' = Some c ∧ md_source_gateway_address md = source_gateway_address c ∧
    md_poll_id md = counter.cur (POLL_ID st) + 1 ∧ counter.cur (POLL_ID st') = md_poll_id md ∧
    poll_messages st' = stored_messages (poll_messages st) (md_poll_id md) todo ∧
    txs = tx_of <$> todo.
Proof.
  unfold verify_messages. intros Hf Hin. ok_case. ok_inv. rename v into c, v0 into l.
  ok_case; breflect; ok_inv; simplify_eq; [by apply not_elem_of_nil in Hin|].
  rename v into s, v0 into expiry. destruct v1 as [st1 id]. ok_inv. rename v into st2, v0 into ms.
  injection Hf as <- <-. cbn in Hin. apply list_elem_of_singleton in Hin. injection Hin as -> ->. cbn.
  unfold create_messages_poll in Hok3. ok_inv. destruct v as [cnt id']. ok_inv. simplify_eq.
  match goal with Hc : counter.incr _ = Ok _ |- _ => apply counter.incr_Ok in Hc as (-> & -> & _) end.
  apply store_messages_Ok in Hok4 as [-> _]. set (todo := omap _ l) in *. exists c, todo. cbn.
  split_and!; try done. by eapply txs_of.
Qed.

Lemma vote_announces st env sender pid votes st' r txs md :
  vote st env sender pid votes = Ok (st', r) → PollStartedMessages txs md ∉ events r.
Proof.
  unfold vote. intros Hf. ok_inv. injection Hf as <- <-. cbn.
  match goal with Hq : try_map _ _ = Ok ?q |- _ => apply try_map_Ok in Hq; rename q into qs, Hq into Hqs end.
  intros [[=]|(o & Ho & Hid)%list_elem_of_omap]%elem_of_cons. unfold id in Hid. subst o.
  apply list_elem_of_lookup in Ho as [i Hi].
  destruct (Forall2_lookup_r _ _ _ _ _ Hqs Hi) as ([n v'] & _ & Hx). ok_inv.
  unfold make_quorum_event in Hx. destruct v1; apply bind_Ok in Hx as (? & _ & Hx);
    injection Hx as Hx; by destruct v'.
Qed.

Lemma verify_verifier_set_announces st env id vs st' r txs md :
  verify_verifier_set st env id vs = Ok (st', r) → PollStartedMessages txs md ∉ events r.
Proof.
  unfold verify_verifier_set. intros Hf. ok_inv. ok_case; ok_inv; simplify_eq; [apply not_elem_of_nil|].
  destruct v3 as [st1 pid]. ok_inv. injection Hf as <- <-. cbn. by intros [=]%list_elem_of_singleton.
Qed.

(** The other calls announce no messages and leave the stored ones. *)
Lemma execute_announces st env sender m st' r :
  inv st → execute st env sender m = Ok (st', r) →
  (∃ c c', CONFIG st = Some c ∧ CONFIG st' = Some c' ∧
     source_gateway_address c = source_gateway_address c') ∧
  counter.cur (POLL_ID st) ≤ counter.cur (POLL_ID st') ∧
  (∀ h c, poll_messages st' !! h = Some c →
     poll_messages st !! h = Some c ∨ content_poll_id c = counter.cur (POLL_ID st) + 1) ∧
  (∀ txs md, PollStartedMessages txs md ∈ events r → announced st' txs md).
Proof.
  intros Hi Hf%execute_handler. destruct (inv_config _ Hi) as (c0 & Hc0 & _).
  assert (∀ h c, poll_messages st !! h = Some c → content_poll_id c ≠ counter.cur (POLL_ID st) + 1) as Hold.
  { intros h c Hc Heq. destruct (inv_message _ Hi _ _ Hc) as (_ & _ & w & Hw & _).
    pose proof (inv_ids _ Hi _ (or_introl (mk_is_Some _ _ Hw))). lia. }
  destruct m as [id|id votes|messages|mid vs|t b c].
  - apply end_poll_Ok in Hf as (c & p & w & ps & _ & _ & _ & _ & -> & _ & ->). cbn.
    split_and!; [eauto|done|auto|set_solver].
  - pose proof (λ txs md, vote_announces _ _ _ _ _ _ _ txs md Hf) as Hn.
    apply vote_Ok in Hf as (p & w & _ & _ & ->). cbn. split_and!; [eauto|done|auto|].
    intros txs md Hin. by destruct (Hn txs md).
  - pose proof (verify_messages_announces st env messages st' r) as Hann.
    pose proof Hf as (c & todo & Hc & _ & _ & Hcase)%verify_messages_Ok. split_and!.
    + destruct Hcase as [(_ & -> & _)|(? & ? & ? & _ & _ & _ & _ & _ & _ & _ & ->)]; cbn; eauto.
    + destruct Hcase as [(_ & -> & _)|(? & ? & ? & _ & _ & _ & _ & -> & _ & _ & ->)]; cbn; lia.
    + intros h x. destruct Hcase as [(_ & -> & _)|(? & ? & ? & _ & _ & _ & _ & -> & _ & _ & ->)]; cbn; [auto|].
      intros [(i & m & _ & _ & ->)|[? _]]%stored_messages_lookup; auto.
    + intros txs md Hin. destruct (Hann txs md Hf Hin) as (c' & todo' & Hc' & Hg & Hid & Hcur & Hst & ->).
      unfold announced. rewrite Hcur, Hst, Hid. split; [lia|]. split; [eauto|].
      intros h x [(i & m & Hm & _ & ->)|[Hx _]]%stored_messages_lookup Heq; [|by destruct (Hold _ _ Hx)].
      cbn. by rewrite Nat2Z.id, list_lookup_fmap, Hm.
  - pose proof (λ txs md, verify_verifier_set_announces _ _ _ _ _ _ txs md Hf) as Hn.
    apply verify_verifier_set_Ok in Hf as (? & _ &
      [(_ & -> & _)|(c & s & e & id & _ & Hc & _ & _ & _ & -> & ->)]); cbn;
      (split_and!; [eauto|lia|auto|]); intros txs md Hin; by destruct (Hn txs md).
  - unfold update_voting_parameters in Hf. ok_inv. simplify_eq. unfold item_load in Hok. ok_inv. cbn.
    split_and!; [eauto|done|auto|set_solver].
Qed.

Lemma run_announced st log txs md :
  run st log → PollStartedMessages txs md ∈ log → announced st txs md.
Proof.
  induction 1 as [m st r Hm Hf|st log env sender m st' r Hrun IH Hreg Hm Hf].
  - unfold instantiate in Hf. ok_inv. injection Hf as <- <-. cbn. by intros [=]%list_elem_of_singleton.
  - pose proof (vv_reachable_inv _ (run_reachable _ _ Hrun)) as Hi.
    destruct (execute_announces _ _ _ _ _ _ Hi Hf) as ((c & c' & Hc & Hc' & Hg) & Hcur & Hold & Hnew).
    intros [Hin|Hin]%elem_of_app; [|by apply Hnew].
    destruct (IH Hin) as (Hle & (c'' & Hc'' & Hgw) & Hst). split; [lia|].
    split; [exists c'; split; congruence|].
    intros h x Hx Heq. destruct (Hold _ _ Hx) as [Hx'|Hx']; [by eapply Hst|lia].
Qed.

End contract.
End announcements.

(** ** Honest verifiers *)
Module honest_verifiers.
Import router_api voting_verifier announcements.

Section honest.
Context `{Crypto} `{HexCodec} `{Base58Codec} `{Bech32Codec} `{!FeltFormat}
  `{address.AddressParsers} `{Api} `{encoding.ChainCodecs} `{evm.LogDecoder} `{events.Json}.

(** The voting verifier of a chain, how the events that it emits are deserialized, and the text of
    an address; the honest verifiers, and the nodes that each of them asks. *)
Context (contract : Addr) (chain : string)
  (deserialize : gmap string events.Value → option (evm.PollStartedEvent (list evm.Message)))
  (address_of : string → option string)
  (honest : Addr → Prop) `{!∀ a, Decision (honest a)} (trusted : Addr → evm.EthereumClient → Prop).

(** A message of an announcement, as a verifier reads it. *)
Definition describes (tx : TxEventConfirmation) (m : evm.Message) : Prop :=
  msg_id.from_str (text_of (tx_message_id tx)) = Ok (evm.message_id m) ∧
  evm.destination_address m = tx_destination_address tx ∧
  evm.destination_chain m = tx_destination_chain tx ∧
  address_of (tx_source_address tx) = Some (evm.source_address m) ∧
  evm.payload_hash m = tx_payload_hash tx.

(** An event that the verifiers receive is one that the contract emitted. *)
Definition received (log : list Event) (e : events.Event) : Prop :=
  ∀ ev, events.try_into "wasm-messages_poll_started" deserialize e = Ok ev →
    ∃ txs md, PollStartedMessages txs md ∈ log ∧ evm.poll_id ev = md_poll_id md ∧
      evm.source_gateway_address ev = md_source_gateway_address md ∧
      evm.confirmation_height ev = md_confirmation_height md ∧
      Forall2 describes txs (evm.poll_content ev).

(** The votes of an honest verifier are those of its handler, on an event that it received and
    with the answers of a node of its own. *)
Definition votes_honestly (st : State) (log : list Event) (a : Addr) : Prop :=
  ∀ id w vs, POLLS st !! id = Some (PollMessages w) → poll_votes st id !! a = Some vs →
    ∃ finalizer node height e, evm.answers_asked node ∧ trusted a node ∧ received log e ∧
      evm.handle_messages deserialize (evm.mkHandler a contract chain finalizer) node height e =
        Ok [handlers.VoteMsg a contract id vs].

(** The weight of the other participants. *)
Definition faulty_weight (w : voting.WeightedPoll) : Z :=
  map_sum (λ a pt, if decide (honest a) then 0 else voting.p_weight pt) (voting.participation w).

(** A node of an honest verifier shows, in a final transaction that did not fail, the call of the
    gateway that the message describes. *)
Definition happened (gateway : string) (m : Message) : Prop :=
  ∃ a node finalizer confirmation_height m' r,
    honest a ∧ trusted a node ∧ describes (tx_of m) m' ∧
    evm.final_receipt finalizer node confirmation_height (evm.id_hash (evm.message_id m')) r ∧
    evm.status r ≠ Some 0 ∧ evm.calls gateway r m'.

(** A quorum against less than the quorum of the others has an honest member. *)
Lemma honest_voter w history i v :
  (∀ a pt, voting.participation w !! a = Some pt → 1 ≤ voting.p_weight pt) →
  faulty_weight w < voting.voted_weight w history i v →
  ∃ a, honest a ∧ voting.choice history a i = Some v.
Proof.
  intros Hw Hlt. destruct (decide (map_Exists (λ a _, honest a ∧ voting.choice history a i = Some v)
    (voting.participation w))) as [(a & _ & _ & Ha)|Hno]; [by exists a|]. exfalso.
  apply Z.lt_nge in Hlt. apply Hlt. unfold faulty_weight, voting.voted_weight. apply map_sum_le.
  intros a pt Hpt. specialize (Hw a pt Hpt). case_bool_decide as Hc; [|case_decide; lia].
  rewrite decide_False; [done|]. intros Ha. apply Hno. by exists a, pt.
Qed.

Lemma confirmed_happened (st : State) (log : list Event) (m : Message) (h : Z) :
  run st log → message_status st m h = Ok SucceededOnSourceChain →
  (∀ a, honest a → votes_honestly st log a) →
  (∀ c w, poll_messages st !! Message_hash keccak256 m = Some c →
     POLLS st !! content_poll_id c = Some (PollMessages w) → faulty_weight w < voting.poll_quorum w) →
  ∃ c, CONFIG st = Some c ∧ happened (source_gateway_address c) m.
Proof.
  intros Hrun Hs Hhonest Hfaulty. pose proof (vv_reachable_inv _ (run_reachable _ _ Hrun)) as Hi.
  destruct (relay.succeeded_voted _ _ _ Hi Hs) as (c & w & s & Hc & Hm & Hp & Hsn & Hreach & Hq).
  destruct (voting.poll_reachable_inv _ _ _ Hsn Hreach) as (Hinv & Hpq & _).
  destruct (honest_voter w (poll_votes st (content_poll_id c)) (Z.to_nat (index_in_poll c))
    voting.SucceededOnChain (voting.inv_weights _ _ Hinv)) as (a & Ha & Hch).
  { specialize (Hfaulty c w Hc Hp). lia. }
  unfold voting.choice in Hch. apply bind_Some in Hch as (vs & Hvs & Hv).
  destruct (Hhonest a Ha _ _ _ Hp Hvs) as (fin & node & height & e & Hans & Htr & Hrec & Hf).
  destruct (evm.votes_of_messages _ _ _ _ _ _ Hans Hf) as
    [[[=] _]|(ev & votes & (_ & Hev & _) & [= Hid <-] & Hall)].
  destruct (Hrec ev Hev) as (txs & md & Hlog & Hmd & Hgw & Hch & Htxs).
  destruct (run_announced _ _ _ _ Hrun Hlog) as (_ & (cf & Hcf & Hg) & Hst).
  specialize (Hst _ _ Hc). rewrite Hm in Hst. specialize (Hst ltac:(congruence)).
  destruct (Forall2_lookup_l _ _ _ _ _ Htxs Hst) as (m' & Hm' & Hdesc).
  destruct (Forall2_lookup_lr _ _ _ _ _ _ Hall Hm' Hv) as (r & Hr & Hstat & Hcalls).
  exists cf. split; [done|]. exists a, node, fin, (evm.confirmation_height ev), m', r.
  cbn in *. rewrite <-Hg, <-Hgw. done.
Qed.

(** What the contract confirms, happened. Take any run of a voting verifier, with the events that
    it emitted. If the honest participants of a poll vote as their handlers do, on the events of
    the contract and with the answers of their own nodes, and the other participants hold less
    than the quorum, then for every message that the contract reports as succeeded on the source
    chain, the node of an honest verifier shows it: a final transaction that did not fail, in
    which the contract's source gateway emitted, at the very place that the message's identifier
    gives, the call with exactly the message's sender, destination and payload. *)
Theorem confirmed_message_happened (st : State) (log : list Event) (m : Message) (h : Z) :
  run st log → message_status st m h = Ok SucceededOnSourceChain →
  (∀ a, honest a → votes_honestly st log a) →
  (∀ c w, poll_messages st !! Message_hash keccak256 m = Some c →
     POLLS st !! content_poll_id c = Some (PollMessages w) → faulty_weight w < voting.poll_quorum w) →
  ∃ c, CONFIG st = Some c ∧ happened (source_gateway_address c) m.
Proof. apply confirmed_happened. Qed.

End honest.

(** ** Delivered messages *)
Section system.
Context `{Crypto} `{HexCodec} `{Base58Codec} `{Bech32Codec} `{!FeltFormat}
  `{address.AddressParsers} `{Api} `{encoding.ChainCodecs} `{evm.LogDecoder} `{events.Json}.
Context (deserialize : gmap string events.Value → option (evm.PollStartedEvent (list evm.Message)))
  (address_of : string → option string)
  (honest : Addr → Prop) `{!∀ a, Decision (honest a)}
  (trusted : string → Addr → evm.EthereumClient → Prop).

(** A voting verifier with honest participants: their votes are those of their handlers, asking
    nodes of the verifier's own chain, and in each of its polls the others hold less than the
    quorum. *)
Definition honest_quorums (contract : Addr) (vst : State) : Prop :=
  ∃ log c, run vst log ∧ CONFIG vst = Some c ∧
    (∀ a, honest a →
       votes_honestly contract (source_chain_name c) deserialize address_of
         (trusted (source_chain_name c)) vst log a) ∧
    (∀ id w, POLLS vst !! id = Some (PollMessages w) → faulty_weight honest w < voting.poll_quorum w).

(** C1: What is delivered, happened on its source chain. Take any run of the router, the gateways
    and the voting verifiers, in which anybody calls any of them, the router included, with
    anything. Suppose that of the voting verifier that the gateway of a message's source chain
    asks, the honest participants vote what the EVM handler computes, on events that this
    contract emitted and with the answers of their own nodes of that chain, and that in each of
    its polls the other participants hold less than the quorum. Then the message, when a gateway
    holds it for delivery, happened: the node of an honest verifier shows the final, successful
    transaction in which the gateway that this voting verifier is configured with emitted the call with
    exactly the message's sender, destination and payload, and the voting verifier is
    configured for the message's own source chain. The one exception is a message that the router took
    from a sender that is no gateway contract of this code: the configured core gateway, or
    an account that was registered as the gateway of the message's source chain. No relayer or
    other caller is trusted. *)
Theorem delivered_message_happened (raddr : Addr) (w : relay.World) (log : list relay.Entry)
    (g : Addr) (id : CrossChainId) (m : Message) :
  relay.run raddr w log → relay.outgoing w g id = Some m →
  (∀ a vst, relay.verifier_of w log (source_chain (cc_id m)) a vst → honest_quorums a vst) →
  id = cc_id m ∧
  ((∃ sender, relay.Routed sender m ∈ log ∧
      relay.entrusted w log (source_chain (cc_id m)) sender) ∨
   ∃ a vst c, relay.verifier_of w log (source_chain (cc_id m)) a vst ∧ CONFIG vst = Some c ∧
     source_chain_name c = source_chain (cc_id m) ∧
     happened address_of honest (trusted (source_chain (cc_id m))) (source_gateway_address c) m).
Proof.
  intros Hrun Hm Hh. pose proof (relay.relay_run_inv _ _ _ Hrun) as [Hok Hso _ _ Ho].
  destruct (Ho _ _ _ Hm) as [-> [Hin|(a & vst & h & Ha & Hs)]]; (split; [done|]); [by left|right].
  destruct (Hh a vst Ha) as (L & c0 & HL & Hc0 & Hvotes & Hfaulty).
  destruct (relay.confirmed_source _ _ _ (Hso _ _ (proj2 Ha))
    (relay.wo_verifier _ _ Hok _ _ (proj2 Ha)) Hs) as (vc & Hvc & Hn).
  assert (vc = c0) as -> by congruence. rewrite Hn in Hvotes.
  destruct (confirmed_happened a (source_chain (cc_id m)) deserialize address_of honest
    (trusted (source_chain (cc_id m))) vst L m h HL Hs Hvotes) as (c & Hc & Hhap).
  { intros c w' _ Hp. by eapply Hfaulty. }
  exists a, vst, c. split_and!; [done..| |done]. congruence.
Qed.

End system.
End honest_verifiers.

(** ** A concrete run

    The run of [VotingVerifier]: [a] and [b] are honest, [c] votes against what happened. *)
Module ampd_system_run.
Import router_api voting_verifier voting_verifier_run announcements honest_verifiers.

#[local] Existing Instances run_crypto run_api run_bech32 run_parsers
  ampd_stream_run.run_json ampd_evm_run.run_decoder encoding_run.run_codecs.

Definition step_events (st : State) (h : Z) (sender : Addr) (m : ExecuteMsg) : list Event :=
  match execute st (run_env h) sender m with Ok (_, r) => events r | _ => [] end.
Definition init_events : list Event :=
  match instantiate run_instantiate with Ok (_, r) => events r | _ => [] end.
Definition log3 : list Event :=
  ((init_events ++ step_events run0 1 "anyone" (VerifyMessages [run_message]))
    ++ step_events run1 2 "a" (VoteMsg 1 [voting.SucceededOnChain]))
   ++ step_events run2 3 "b" (VoteMsg 1 [voting.SucceededOnChain]).
Definition log4 : list Event := log3 ++ step_events run3 4 "c" (VoteMsg 1 [voting.VoteNotFound]).

Lemma run_next st log h sender m :
  run st log → msg_wf m → is_ok (execute st (run_env h) sender m) = true →
  run (next st h sender m) (log ++ step_events st h sender m).
Proof.
  intros Hr Hm Hok. unfold next, step_events.
  destruct (execute st (run_env h) sender m) as [[st' r]|e|] eqn:Hf; [|done..].
  exact (run_step _ _ _ _ _ _ _ Hr (run_registry_ok h) Hm Hf).
Qed.

Lemma run3_run : run run3 log3.
Proof.
  do 2 (apply run_next; [|done|vm_compute; reflexivity]).
  apply run_next; [|apply Forall_singleton, run_message_wf|vm_compute; reflexivity].
  unfold run0, init_events. destruct (instantiate run_instantiate) as [[st r]|e|] eqn:Hf;
    [|vm_compute in Hf; discriminate Hf..].
  apply (run_init run_instantiate st r); [apply two_thirds_wf|done].
Qed.
Lemma run4_run : run run4 log4.
Proof. apply run_next; [exact run3_run|done|vm_compute; reflexivity]. Qed.

(** What the verifiers read, and the transaction that their nodes show. *)
Definition read_message : evm.Message :=
  evm.mkMessage (msg_id.mkHexIndex (replicate 32 (byte_of 0)) 0) "0xreceiver" "polygon" "0xsender" (zeros 32).
Definition read_poll : evm.PollStartedEvent (list evm.Message) :=
  evm.mkPollStarted 1 "eth" "0xgateway" 1 11 [read_message] ["c"; "a"; "b"].
Definition shown : evm.TransactionReceipt :=
  evm.mkReceipt (evm.id_hash (evm.message_id read_message)) (Some 1) (Some 90)
    [evm.mkLog "0xgateway" ["call"; "0xsender"; "Polygon"; "0xreceiver"; zeros 32] EmptyString
       (Some (evm.id_hash (evm.message_id read_message)))].
Definition run_node : evm.EthereumClient :=
  evm.mkEthereum (Some (Some 100)) (Some 110)
    (λ h, if bool_decide (h = evm.id_hash (evm.message_id read_message)) then Some (Some shown) else None)
    (λ _, None).

Lemma run_node_answers : evm.answers_asked run_node.
Proof. intros h r. cbn. case_bool_decide; [|done]. by intros [= <-]. Qed.

Definition run_deserialize (_ : gmap string events.Value) : option (evm.PollStartedEvent (list evm.Message)) :=
  Some read_poll.
Definition run_honest (a : Addr) : Prop := a ∈ ["a"; "b"].
#[local] Instance run_honest_dec a : Decision (run_honest a).
Proof. unfold run_honest. apply _. Defined.
Definition run_trusted (_ : Addr) (n : evm.EthereumClient) : Prop := n = run_node.

Definition run_announcement : Event :=
  PollStartedMessages [tx_of run_message] (mkMetadata 1 "eth" "0xgateway" 1 11 ["c"; "a"; "b"]).

Lemma run_received log e :
  log !! 1%nat = Some run_announcement → received run_deserialize Some log e.
Proof.
  intros Hl%list_elem_of_lookup_2 ev Hev.
  assert (ev = read_poll) as ->.
  { unfold events.try_into in Hev. destruct e; try done. case_bool_decide; [|done]. by injection Hev. }
  eexists _, _. split; [exact Hl|].
  do 3 (split; [reflexivity|]). constructor; [|constructor]. repeat split; vm_compute; reflexivity.
Qed.

Lemma run_votes_honestly st log a :
  log !! 1%nat = Some run_announcement → (∃ p, POLLS st = {[ 1 := p ]}) →
  poll_votes st 1 !! "a" = Some [voting.SucceededOnChain] →
  poll_votes st 1 !! "b" = Some [voting.SucceededOnChain] → run_honest a →
  votes_honestly "vv-eth" "eth" run_deserialize Some run_trusted st log a.
Proof.
  intros Hl [p Hps] Hva Hvb Ha id w vs Hp Hvs.
  exists evm.RPCFinalizedBlock, run_node, 7,
    (events.Abci "wasm-messages_poll_started" {["_contract_address" := "vv-eth"]}).
  split; [exact run_node_answers|]. split; [done|]. split; [by apply run_received|].
  rewrite Hps in Hp. apply lookup_singleton_Some in Hp as [<- _].
  apply elem_of_cons in Ha as [Ha|Ha%list_elem_of_singleton]; subst a.
  - rewrite Hva in Hvs. injection Hvs as <-. vm_compute. reflexivity.
  - rewrite Hvb in Hvs. injection Hvs as <-. vm_compute. reflexivity.
Qed.

Lemma run_faulty st p id w :
  POLLS st = {[ 1 := p ]} → faulty_weight run_honest (weighted_poll p) < voting.poll_quorum (weighted_poll p) →
  POLLS st !! id = Some (PollMessages w) → faulty_weight run_honest w < voting.poll_quorum w.
Proof. intros -> Hf [_ ->]%lookup_singleton_Some. exact Hf. Qed.

Lemma run3_polls : POLLS run3 = {[ 1 := poll_of run3 ]}.
Proof. vm_compute. reflexivity. Qed.
Lemma run4_polls : POLLS run4 = {[ 1 := poll_of run4 ]}.
Proof. vm_compute. reflexivity. Qed.

Lemma confirmed_message_happened_witness :
  happened Some run_honest run_trusted "0xgateway" run_message.
Proof.
  destruct (confirmed_message_happened "vv-eth" "eth" run_deserialize Some run_honest run_trusted
    run4 log4 run_message 30 run4_run) as (c & Hc & Hh).
  - vm_compute. reflexivity.
  - intros a. apply run_votes_honestly; [vm_compute; reflexivity|by eexists; exact run4_polls|..];
      vm_compute; reflexivity.
  - intros c w _. apply (run_faulty _ _ _ _ run4_polls). vm_compute. reflexivity.
  - assert (Some c = CONFIG run4) as Hc' by done. vm_compute in Hc'. injection Hc' as ->. exact Hh.
Defined.

Lemma run3_config : ∃ c, CONFIG run3 = Some c ∧ source_chain_name c = "eth".
Proof. eexists. split; vm_compute; reflexivity. Qed.

Lemma run3_honest_quorums :
  honest_quorums run_deserialize Some run_honest (λ _, run_trusted) "vv-eth" run3.
Proof.
  destruct run3_config as (c & Hc & Hn). exists log3, c. split; [exact run3_run|]. split; [done|].
  rewrite Hn. split.
  - intros a. apply run_votes_honestly; [vm_compute; reflexivity|by eexists; exact run3_polls|..];
      vm_compute; reflexivity.
  - intros id w. apply (run_faulty _ _ _ _ run3_polls). vm_compute. reflexivity.
Qed.

Lemma world5_verifiers : relay.verifiers composition_run.relay_run.world5 = {[ "vv-eth" := run3 ]}.
Proof.
  destruct (relay.relay_run_inv _ _ _ composition_run.relay_run.world4_run) as [Hok _ _ _ _].
  destruct (relay.relay_spec "router" _ _ _ _ "anyone" _ _ Hok ltac:(discriminate)
    composition_run.relay_run.world5_Ok) as (_ & _ & -> & _).
  unfold composition_run.relay_run.world4, composition_run.relay_run.world3,
    composition_run.relay_run.world2, composition_run.relay_run.world1,
    composition_run.relay_run.with_verifier, composition_run.relay_run.world0. cbn.
  by rewrite !insert_insert_eq.
Qed.
Lemma run3_gateway c : CONFIG run3 = Some c → source_gateway_address c = "0xgateway".
Proof.
  assert (source_gateway_address <$> CONFIG run3 = Some "0xgateway") as Hg by (vm_compute; reflexivity).
  intros Hc. rewrite Hc in Hg. by injection Hg.
Qed.

Lemma delivered_message_happened_witness :
  happened Some run_honest run_trusted "0xgateway" run_message.
Proof.
  destruct (delivered_message_happened run_deserialize Some run_honest (λ _, run_trusted)
    "router" composition_run.relay_run.world5 composition_run.relay_run.log2 "gw-polygon"
    (cc_id run_message) run_message
    composition_run.relay_run.world5_run composition_run.relay_run.world5_outgoing)
    as [_ [(sender & Hin & _)|(a & vst & c & [_ Ha] & Hc & _ & Hh)]].
  - intros a vst [_ Ha]. rewrite world5_verifiers in Ha. apply lookup_singleton_Some in Ha as [<- <-].
    exact run3_honest_quorums.
  - by destruct (composition_run.relay_run.not_routed sender).
  - rewrite world5_verifiers in Ha. apply lookup_singleton_Some in Ha as [_ <-].
    rewrite (run3_gateway c Hc) in Hh. exact Hh.
Defined.

End ampd_system_run.
